(* ===== verification/_CoqProject ===== *)
-Q . S2P
Prelude.v
Regexp.v
Float64.v
Timefmt.v
Gostrings.v
Sha256.v
Json.v
Floatfmt.v
Jsonread.v
Errors.v
Effects.v
Tenant.v
Subjects.v
Bus.v
Dag.v
DagFacts.v
Consensus.v
Candidate.v
CandidateFacts.v
Graph.v
MemDriver.v
MemDriverFacts.v
Llm.v
Resultcache.v
ResultcacheFacts.v
Cachestore.v
Stagecache.v
Engine.v
EngineFacts.v
StageFacts.v
Jobconfig.v
Joberr.v
Jobstore.v
Attest.v
AttestFacts.v
Results.v
Synthesis.v
SynthesisFacts.v
Panics.v
Executor.v
ExecutorFacts.v
Runs.v
Service.v
ServiceFacts.v
Serving.v
Verdicts.v
Verdictstore.v
VerdictFacts.v
Panel.v
Graphevents.v
Adjudicate.v
Materialize.v
Fuzzy.v
Reconcile.v
ReconcileFacts.v
Agreement.v
Projecting.v
Passes.v
Safety.v
Leaving.v
Reconciling.v
Materializing.v
Adjudication.v
Draining.v
Abandoned.v
Worker.v
WorkerRun.v
Collector.v
CollectorFacts.v
EndToEnd.v
