(* ===== verification/Prelude.v ===== *)
(** A verification library for crosscodex.

    crosscodex analyses OSCAL control catalogs: a job runs a DAG of analyzers
    over one or two catalogs, each analyzer hands tasks for a language model to
    workers over NATS, the results are cached, attested and aggregated, and the
    graph of a tenant keeps what was found. This library models the program's
    own Go code, as it stands under src/, as executable definitions, and proves
    what the parts promise of themselves and of one another.

    ** Conventions

    A Go function that returns a value and an error is a function to [result];
    errors keep what callers can tell apart (sentinels, types and their data),
    and no text. Integers are [Z] with their wrap-around written out where it
    can happen, float64 is the executable IEEE arithmetic of Float64, times are
    nanoseconds since Go's zero time, strings are byte strings. A map is a
    [gmap]; ranging over one visits an order the runtime picks ([GoRuntime]), as
    does [sort.Slice] among elements it does not tell apart, so the theorems
    hold for every order. State is passed explicitly. Concurrent code is a step
    relation whose steps are the locked sections, channel operations and calls
    others can see. Code that calls much of the outside is a program in a monad:
    of [Effects] and [Panics], where what a call returns is any function of the
    calls before it; of [Adjudicate], where calls are answered by a world. Code
    that is not under src/ is a parameter of the model: a class ([Postgres],
    [Jsonb], [InToto], [StructPB], [HttpDate], [StructJSON], [JobConfigJSON],
    [MetricsEncoding], [GoQuote], [Stats], [UpperCase], [LowerCase], the
    [World]s of the worker, the executor and the stage) or an argument, with
    what is relied on as a field or a named hypothesis. Every property of the
    manifest with a hypothesis has a witness: a closed instance, evaluated.

    ** Parts

    Foundations: Prelude (results, the Go runtime, lemmas on lists and maps),
    Regexp, Float64, Timefmt (pkg/graphdb/timefmt.go), Gostrings, Sha256, Json,
    Floatfmt, Jsonread, Errors, Effects, Panics.

    Tenants and messages: Tenant (pkg/tenant), Subjects and Bus (pkg/natsbus):
    subjects name their tenant, and a message reaches a handler only with its
    publisher's tenant and content.

    Analyzers: Dag and DagFacts (pkg/analyzer: registry.go, dag.go): Kahn's
    levels, cycle reports, subsets; Consensus (pkg/analyzer/consensus):
    weighted votes in float64; Candidate and CandidateFacts
    (pkg/analyzer/candidate): generation and the three aggregations.

    The graph: Graph (pkg/graphdb), MemDriver and MemDriverFacts
    (pkg/graphdb/memdriver): every operation, the invariant of every reachable
    client, traversal as exactly the edge-simple paths. Graphevents and
    Materialize (internal/graph: subscriber.go, subscriber_handlers.go,
    catalog_projection.go, resolver.go): the graph role, which reads the events
    of stages and catalogs and writes their results to the graph.

    The language model: Llm (pkg/llmclient): requests, retries, backoff and
    what an answer means.

    The result cache: Resultcache and ResultcacheFacts (pkg/resultcache): keys,
    records, digests, verification; Cachestore
    (pkg/resultcache/resultcachetest/fake.go): the store's contract;
    Stagecache and StageFacts (internal/analysis/cache.go): how a stage plans,
    reuses, stores, records and seals.

    A run: Engine and EngineFacts (internal/analysis/engine.go), Collector and
    CollectorFacts (collector.go, dispatcher.go, backoff.go): dispatch,
    collection, retries and abandoning under every interleaving; Abandoned,
    Worker and WorkerRun (internal/worker): the handler of tasks and control
    messages, the set of abandoned collections, start and stop; EndToEnd joins
    the two ends through the wire format.

    A job: Jobconfig, Joberr, Jobstore (internal/pipeline: types.go, stages.go,
    errors.go, store.go, vote_summaries.go, and pkg/jobconfig): the tables, row
    policies, triggers and every method as a transaction; Attest and AttestFacts
    (pkg/attestation, internal/pipeline/attestation); Results, Synthesis and
    SynthesisFacts (pkg/analyzer/results, internal/synthesis); Executor,
    ExecutorFacts and Runs (internal/pipeline/executor.go): the life of a run,
    cancellation, failures and panics included; Service, ServiceFacts and
    Serving (service_impl.go): requests, the dispatcher of interrupted jobs and
    the runs, interleaved over the store of Jobstore.

    Equivalent artifacts (internal/analyzer/artifacts, internal/analyzer):
    Verdicts, Verdictstore and VerdictFacts (verdicts.go, pairdetail.go,
    verdictstore_pg.go): who may overwrite whose verdict, what a reviewer
    decides on, leases; Panel, Adjudicate (adjudicate.go, sameas_parser.go):
    panels of models and the projection of verdicts onto the graph of MemDriver;
    Fuzzy, Reconcile and ReconcileFacts (fuzzy.go, reconcile.go): which
    artifacts are grouped and which groups matched, and the writes of a
    reconciliation. All of them and the handlers of the graph role write one
    graph: Agreement, Projecting, Passes, Safety and Adjudication prove the
    invariant of every interleaving of runs, passes, reconciliations, handlers
    and writers of the store in which claims outlive the calls they are for
    ([punctually]; what else may happen, [anytime], has a computed
    counterexample); under any timing, Leaving, Reconciling and Materializing what a
    reconciliation and a handled event leave; Draining that a pass gets done.

    ** What the theorems show

    The manifest orders the properties by importance. Of a job: a run asks
    for a status only when its work allows it, and ends with a status recorded
    or refused, or the service stopping; while no retry disturbs a resumed job,
    a job has one run; cancelling and completing a registered run exclude one
    another; results of completed stages and completed
    jobs stay. Of a stage: it signs only what the store accepted, and reuses
    only results their producer signed for. Of collection and worker: every
    expected result once, no task more often than allowed, an answer for every
    task but one whose own result cannot be encoded, an abandon that reaches the
    tasks it means, a stop that ends or is given up. Of the
    stores: tenants are isolated, rows are well formed, the order of authority
    over verdicts is kept, a projection recorded in time is what the graph says, a
    reconciliation leaves nothing out, and the results of a handled event are in
    the graph. Of the pure parts: the DAG, matches, the
    aggregations, traversal, votes, keys, records and chains of attestations are
    exactly what their documentation says, with the exceptions listed as
    findings, which have theorems of their own where the model shows them.

    ** Fuel

    Loops whose recursion is not structural take fuel, and lemmas show that what
    callers give is enough: the number of nodes for the DAG's loops, of edges
    not yet used for [walk] of MemDriver, of bytes for readers of text and for
    trimming, of edges of a chunk for [write_chunk]. Only the two loops of the
    adjudicator have no bound of their own: [lease_loop] is given a step per
    pair it may lease, and [recoverProjections] any number, which Draining shows
    to be enough at one per hundred verdicts when nobody interferes.

    ** Not modelled

    SQL-only services (catalog, results, administration, authentication,
    retention, vector database, the PostgreSQL result cache, the graph role's
    readers of results and controls), the AGE driver's
    Cypher, RPC and HTTP handlers, configuration loading, prompt templates,
    OSCAL conversion, backups, object storage, command-line programs and
    telemetry hold no state of their own that the Go code decides on, or wrap
    third-party code that is not under src/. The prompts and parsers of the
    built-in analyzers and the built-in candidate generators are left out: the
    engine and the registry treat them as outside. Where a part is modelled only
    in part, the manifest says what is left out. *)

From stdpp Require Export prelude gmap strings list sorting.
From Stdlib Require Export Ascii.

(** * Results: Go's [(value, error)] pairs *)

(** A Go function returning [(T, error)] returns [Ok v] when the error is nil
    and [Err e] otherwise; the sources here never use both components. *)
Inductive result (E A : Type) : Type :=
| Ok (a : A)
| Err (e : E).
Arguments Ok {E A} a.
Arguments Err {E A} e.

#[export] Instance result_ret E : MRet (result E) := fun A a => Ok a.
#[export] Instance result_bind E : MBind (result E) :=
  fun A B f r => match r with Ok a => f a | Err e => Err e end.

Definition is_ok {E A} (r : result E A) : bool :=
  match r with Ok _ => true | Err _ => false end.

Definition map_err {E F A} (f : E -> F) (r : result E A) : result F A :=
  match r with Ok a => Ok a | Err e => Err (f e) end.

(** * The parts of the Go runtime whose outcome the language leaves open *)

(** A [less] argument as [sort.Slice] documents it: a strict weak ordering of
    the elements being sorted (NaN scores, say, would break it). *)
Record strict_weak {A} (less : A -> A -> bool) (l : list A) : Prop := {
  sw_irrefl : forall a, a ∈ l -> less a a = false;
  sw_trans : forall a b c, a ∈ l -> b ∈ l -> c ∈ l ->
    less a b = true -> less b c = true -> less a c = true;
  sw_incomp : forall a b c, a ∈ l -> b ∈ l -> c ∈ l ->
    less a b = false -> less b c = false -> less a c = false;
}.

(** [map_range site m] is the order in which the [for k, v := range m] loop
    numbered [site] visits the map: some permutation of its entries, possibly
    different at every loop. [slice_sort] is [sort.Slice], which is not
    stable: it returns some permutation without inversions. A theorem over
    every [GoRuntime] holds whatever order the runtime picks. *)
Class GoRuntime := {
  map_range : forall {K V : Type} `{Countable K}, nat -> gmap K V -> list (K * V);
  map_range_perm : forall {K V : Type} `{Countable K} (site : nat) (m : gmap K V),
    map_range site m ≡ₚ map_to_list m;
  slice_sort : forall {A : Type}, (A -> A -> bool) -> list A -> list A;
  slice_sort_perm : forall {A : Type} (less : A -> A -> bool) (l : list A),
    slice_sort less l ≡ₚ l;
  slice_sort_sorted : forall {A : Type} (less : A -> A -> bool) (l : list A),
    strict_weak less l ->
    StronglySorted (fun a b => less b a = false) (slice_sort less l);
}.

(** Two executable runtimes: one visits a map in [map_to_list] order, the
    other in the reverse of it; both sort by insertion. *)
Fixpoint insert_sorted {A} (less : A -> A -> bool) (x : A) (l : list A) : list A :=
  match l with
  | [] => [x]
  | y :: l' => if less y x then y :: insert_sorted less x l' else x :: y :: l'
  end.

Definition insertion_sort {A} (less : A -> A -> bool) (l : list A) : list A :=
  foldr (insert_sorted less) [] l.

Section insertion_sort.
Context {A : Type} (less : A -> A -> bool).

Lemma insert_sorted_perm x l : insert_sorted less x l ≡ₚ x :: l.
Proof.
  induction l as [|y l IH]; simpl; [done|].
  destruct (less y x); [|done]. rewrite IH. apply Permutation_swap.
Qed.

Lemma insertion_sort_perm l : insertion_sort less l ≡ₚ l.
Proof. induction l as [|x l IH]; simpl; [done|]. by rewrite insert_sorted_perm, IH. Qed.

Lemma strict_weak_sub l l' : l ⊆ l' -> strict_weak less l' -> strict_weak less l.
Proof. intros Hs [H1 H2 H3]. split; eauto 10. Qed.

Lemma insert_sorted_sorted x l :
  strict_weak less (x :: l) ->
  StronglySorted (fun a b => less b a = false) l ->
  StronglySorted (fun a b => less b a = false) (insert_sorted less x l).
Proof.
  induction l as [|y l IH]; intros Hsw Hl; simpl; [repeat constructor|].
  apply StronglySorted_cons in Hl as [Hy Hl].
  assert (StronglySorted (fun a b => less b a = false) (insert_sorted less x l)) as Hrec.
  { apply IH; [|done]. eapply strict_weak_sub; [|done]. set_solver. }
  destruct (less y x) eqn:E; apply StronglySorted_cons;
    (split; [|done || by apply StronglySorted_cons]).
  - rewrite (insert_sorted_perm x l). constructor; [|done].
    destruct (less x y) eqn:E'; [|done].
    rewrite <- (sw_irrefl _ _ Hsw x) by set_solver.
    symmetry. eapply (sw_trans _ _ Hsw x y x); set_solver.
  - constructor; [done|]. rewrite Forall_forall in Hy |- *. intros z Hz.
    apply (sw_incomp _ _ Hsw z y x); [set_solver..| |done]. by apply Hy.
Qed.

Lemma insertion_sort_sorted l :
  strict_weak less l ->
  StronglySorted (fun a b => less b a = false) (insertion_sort less l).
Proof.
  induction l as [|x l IH]; intros Hsw; simpl; [constructor|].
  apply insert_sorted_sorted.
  - eapply strict_weak_sub; [|done]. intros z. by rewrite !elem_of_cons, insertion_sort_perm.
  - apply IH. eapply strict_weak_sub; [|done]. set_solver.
Qed.
End insertion_sort.

Program Definition forward_runtime : GoRuntime := {|
  map_range K V _ _ _ m := map_to_list m;
  slice_sort A less l := insertion_sort less l;
|}.
Next Obligation. done. Qed.
Next Obligation. intros. apply insertion_sort_perm. Qed.
Next Obligation. intros. by apply insertion_sort_sorted. Qed.

Program Definition reverse_runtime : GoRuntime := {|
  map_range K V _ _ _ m := reverse (map_to_list m);
  slice_sort A less l := insertion_sort less l;
|}.
Next Obligation. intros. apply reverse_Permutation. Qed.
Next Obligation. intros. apply insertion_sort_perm. Qed.
Next Obligation. intros. by apply insertion_sort_sorted. Qed.

Lemma StronglySorted_lookup {A} (R : A -> A -> Prop) (l : list A) p q a b :
  StronglySorted R l -> p < q -> l !! p = Some a -> l !! q = Some b -> R a b.
Proof.
  revert p q. induction l as [|x l IH]; intros [|p] [|q] Hs Hpq Hp Hq; simpl in *; try done; try lia.
  - apply StronglySorted_cons in Hs as [Hx _]. simplify_eq. rewrite Forall_lookup in Hx. eauto.
  - apply StronglySorted_cons in Hs as [_ Hs]. eapply (IH p q); eauto with lia.
Qed.

(** The entries a [range] visits are those of the map, each once. *)
Lemma map_range_elem {K V} `{Countable K} {R : GoRuntime} site (m : gmap K V) k v :
  (k, v) ∈ map_range site m <-> m !! k = Some v.
Proof. by rewrite map_range_perm, elem_of_map_to_list. Qed.

Lemma map_range_entries {K V} `{Countable K} {R : GoRuntime} site (m : gmap K V) :
  NoDup (map_range site m).
Proof. rewrite map_range_perm. apply NoDup_map_to_list. Qed.

Lemma map_range_NoDup {K V} `{Countable K} {R : GoRuntime} site (m : gmap K V) :
  NoDup (map_range site m).*1.
Proof. rewrite map_range_perm. apply NoDup_fst_map_to_list. Qed.

(** Untied elements: every runtime sorts them the same way, whatever order
    they come in. *)
Lemma slice_sort_unique {A} (R1 R2 : GoRuntime) (less : A -> A -> bool) (l1 l2 : list A) :
  l1 ≡ₚ l2 -> strict_weak less l1 ->
  (forall a b, a ∈ l1 -> b ∈ l1 -> less a b = false -> less b a = false -> a = b) ->
  @slice_sort R1 _ less l1 = @slice_sort R2 _ less l2.
Proof.
  intros Hp Hsw Hanti. apply (StronglySorted_unique_strong (fun a b => less b a = false)).
  - intros a b Ha Hb ??. rewrite (@slice_sort_perm R1) in Ha. rewrite (@slice_sort_perm R2), <- Hp in Hb. by apply Hanti.
  - by apply slice_sort_sorted.
  - apply slice_sort_sorted. eapply strict_weak_sub; [|done]. intros x. by rewrite Hp.
  - by rewrite !slice_sort_perm.
Qed.

(** * Maps of slices: [m[k] = append(m[k], v)] *)

Definition append_at {K V} `{Countable K} (k : K) (v : V) (m : gmap K (list V)) : gmap K (list V) :=
  <[k := default [] (m !! k) ++ [v]]> m.

Definition group_by {K V} `{Countable K} (f : V -> K) (l : list V) : gmap K (list V) :=
  foldl (fun m v => append_at (f v) v m) ∅ l.

Lemma append_at_lookup {K V} `{Countable K} (k k' : K) (v : V) (m : gmap K (list V)) :
  append_at k v m !! k' = (if decide (k = k') then Some (default [] (m !! k') ++ [v]) else m !! k').
Proof.
  unfold append_at. destruct (decide (k = k')) as [<-|]; [by rewrite lookup_insert_eq|].
  by rewrite lookup_insert_ne.
Qed.

Lemma group_by_lookup {K V} `{Countable K} (f : V -> K) (l : list V) (k : K) :
  group_by f l !! k = (let g := filter (fun v => f v = k) l in if g is [] then None else Some g).
Proof.
  unfold group_by. induction l as [|v l IH] using rev_ind; [done|].
  rewrite foldl_snoc, append_at_lookup, filter_app, IH. simpl.
  destruct (decide (f v = k)) as [<-|Hne].
  - rewrite filter_cons_True by done. simpl. by destruct (filter _ l).
  - rewrite filter_cons_False by done. by rewrite app_nil_r.
Qed.

(** * Strings *)

(** [sort.Strings]: the byte order of Go strings is total and antisymmetric,
    so every correct sort returns this list ([sort_strings_unique]). *)
Definition sort_strings (l : list string) : list string := merge_sort String.le l.

Lemma sort_strings_perm l : sort_strings l ≡ₚ l.
Proof. apply merge_sort_Permutation. Qed.

Lemma sort_strings_sorted l : Sorted String.le (sort_strings l).
Proof. apply (Sorted_merge_sort String.le). Qed.

Lemma sort_strings_unique l1 l2 : l1 ≡ₚ l2 -> sort_strings l1 = sort_strings l2.
Proof.
  intros Hp. apply (Sorted_unique String.le); auto using sort_strings_sorted.
  by rewrite !sort_strings_perm.
Qed.

Lemma elem_of_sort_strings x l : x ∈ sort_strings l <-> x ∈ l.
Proof. by rewrite sort_strings_perm. Qed.

Lemma sort_strings_nil l : sort_strings l = [] <-> l = [].
Proof.
  split; [|by intros ->]. intros H. apply Permutation_nil. by rewrite <- H, sort_strings_perm.
Qed.

Lemma NoDup_sort_strings l : NoDup (sort_strings l) <-> NoDup l.
Proof. by rewrite sort_strings_perm. Qed.

(** Go's [<] on strings is the strict part of [String.le]. *)
Lemma string_ltb_leb s t : String.ltb s t = negb (String.leb t s).
Proof.
  unfold String.ltb, String.leb. rewrite (String.compare_antisym t s).
  by destruct (String.compare s t).
Qed.

Lemma string_ltb_false s t : String.ltb s t = false <-> String.le t s.
Proof.
  rewrite string_ltb_leb, negb_false_iff. unfold String.le. by rewrite Is_true_true.
Qed.

Lemma string_ltb_irrefl s : String.ltb s s = false.
Proof. by apply string_ltb_false. Qed.

Lemma string_ltb_incomp s t u :
  String.ltb s t = false -> String.ltb t u = false -> String.ltb s u = false.
Proof. rewrite !string_ltb_false. intros H1 H2. by etrans. Qed.

Lemma string_ltb_eq s t : String.ltb s t = false -> String.ltb t s = false -> s = t.
Proof. rewrite !string_ltb_false. intros H1 H2. by apply (anti_symm String.le). Qed.

Lemma string_ltb_asym s t : String.ltb s t = true -> String.ltb t s = false.
Proof.
  rewrite !string_ltb_leb, negb_true_iff, negb_false_iff.
  destruct (String.leb_total s t); congruence.
Qed.

Lemma string_ltb_trans s t u :
  String.ltb s t = true -> String.ltb t u = true -> String.ltb s u = true.
Proof.
  intros H1 H2. destruct (String.ltb s u) eqn:E; [done|].
  rewrite (string_ltb_incomp t s u) in H2; [done|by apply string_ltb_asym|done].
Qed.

Create HintDb strings discriminated.
#[export] Hint Resolve sort_strings_perm sort_strings_sorted sort_strings_unique : strings.

Lemma length_list_ascii s : length (String.list_ascii_of_string s) = String.length s.
Proof. induction s; simpl; congruence. Qed.

(** stdpp keeps [String.append] from unfolding; this is its step. *)
Lemma string_app_cons c s t : String.String c s +:+ t = String.String c (s +:+ t).
Proof. done. Qed.

Lemma list_ascii_app s1 s2 :
  String.list_ascii_of_string (s1 +:+ s2) =
  String.list_ascii_of_string s1 ++ String.list_ascii_of_string s2.
Proof. induction s1 as [|c s1 IH]; [done|]. rewrite string_app_cons. simpl. by rewrite IH. Qed.

Lemma string_app_assoc s t u : (s +:+ t) +:+ u = s +:+ (t +:+ u).
Proof. induction s as [|c s IH]; [done|]. by rewrite !string_app_cons, IH. Qed.

Lemma string_app_nil_r s : s +:+ "" = s.
Proof. induction s as [|c s IH]; [done|]. by rewrite string_app_cons, IH. Qed.

Lemma list_ascii_inj s1 s2 :
  String.list_ascii_of_string s1 = String.list_ascii_of_string s2 -> s1 = s2.
Proof.
  intros H. by rewrite <- (String.string_of_list_ascii_of_string s1), H,
    String.string_of_list_ascii_of_string.
Qed.

Lemma substring_all s n : String.length s <= n -> String.substring 0 n s = s.
Proof.
  revert n; induction s as [|c s IH]; intros [|n] Hn; simpl in *; try done; [lia|].
  rewrite IH by lia. done.
Qed.

Lemma string_length_app s1 s2 : String.length (s1 +:+ s2) = String.length s1 + String.length s2.
Proof. induction s1 as [|c s1 IH]; [done|]. rewrite string_app_cons. simpl. by rewrite IH. Qed.

(** [strings.ContainsAny(s, chars)]. *)
Definition contains_any (s chars : string) : bool :=
  bool_decide (Exists (fun c => c ∈ String.list_ascii_of_string chars) (String.list_ascii_of_string s)).

(** [strings.Split(s, sep)] for a one-byte separator; never empty. *)
Fixpoint split_on (sep : ascii) (s : string) : list string :=
  match s with
  | "" => [""]
  | String.String c s' =>
      if bool_decide (c = sep) then "" :: split_on sep s'
      else match split_on sep s' with
           | [] => [String.String c ""]
           | h :: t => String.String c h :: t
           end
  end.

(** [strings.Join(parts, sep)]. *)
Fixpoint join (sep : string) (parts : list string) : string :=
  match parts with
  | [] => ""
  | [p] => p
  | p :: parts' => p +:+ sep +:+ join sep parts'
  end.

(** [c] does not occur in [s]. *)
Definition free_of (c : ascii) (s : string) : Prop := c ∉ String.list_ascii_of_string s.

Lemma split_on_nonempty sep s : split_on sep s <> [].
Proof. destruct s; simpl; [done|]. case_bool_decide; [done|]. by destruct (split_on _ _). Qed.

Lemma split_on_free sep p : free_of sep p -> split_on sep p = [p].
Proof.
  unfold free_of. induction p as [|c p IH]; intros Hp; simpl in *; [done|].
  apply not_elem_of_cons in Hp as [Hc Hp]. rewrite bool_decide_false by congruence.
  by rewrite IH.
Qed.

Lemma split_on_app sep a b :
  split_on sep (a +:+ String.String sep b) = split_on sep a ++ split_on sep b.
Proof.
  induction a as [|c a IH].
  - change (split_on sep (String.String sep b) = [""] ++ split_on sep b). simpl.
    by rewrite bool_decide_true.
  - rewrite string_app_cons. cbn [split_on]. rewrite IH. case_bool_decide; [done|].
    pose proof (split_on_nonempty sep a). by destruct (split_on sep a).
Qed.

(** The tokens of a joined list are the tokens of its parts. *)
Lemma split_on_join sep parts :
  parts <> [] -> split_on sep (join (String.String sep "") parts) = parts ≫= split_on sep.
Proof.
  induction parts as [|p parts IH]; intros Hne; [done|]. rewrite bind_cons.
  destruct parts as [|q parts]; [by rewrite app_nil_r|].
  rewrite <- IH, <- split_on_app by done. done.
Qed.

Lemma split_on_bind_free sep parts : Forall (free_of sep) parts -> parts ≫= split_on sep = parts.
Proof. induction 1; [done|]. rewrite bind_cons, split_on_free by done. by f_equal. Qed.

Lemma split_on_parts_free sep s : Forall (free_of sep) (split_on sep s).
Proof.
  induction s as [|c s IH]; simpl; [repeat constructor; unfold free_of; set_solver|].
  case_bool_decide as E; [constructor; [unfold free_of; simpl; set_solver|done]|].
  destruct (split_on sep s) as [|h t]; inversion IH; subst.
  - constructor; [|done]. unfold free_of; simpl. set_solver.
  - constructor; [|done]. unfold free_of in *; simpl. set_solver.
Qed.

(** Joining undoes splitting. *)
Lemma join_split_on sep s : join (String.String sep "") (split_on sep s) = s.
Proof.
  induction s as [|c s IH]; [done|]. simpl. case_bool_decide as E.
  - subst c. pose proof (split_on_nonempty sep s). destruct (split_on sep s) eqn:Es; [done|].
    change (String.String sep (join (String.String sep "") (s0 :: l)) = String.String sep s).
    by rewrite IH.
  - pose proof (split_on_nonempty sep s). destruct (split_on sep s) as [|h t] eqn:Es; [done|].
    rewrite <- IH. by destruct t.
Qed.

(** * Counting occurrences *)

Section occ.
Context {A : Type} `{EqDecision A}.

(** How often [x] occurs in [l]. *)
Definition occ (x : A) (l : list A) : nat := length (filter (x =.) l).
#[local] Arguments occ : simpl never.

Lemma occ_nil x : occ x [] = 0.
Proof. done. Qed.

Lemma occ_cons x y l : occ x (y :: l) = (if decide (x = y) then 1 else 0) + occ x l.
Proof. unfold occ. rewrite filter_cons. case_decide; simpl; lia. Qed.

Lemma occ_app x l1 l2 : occ x (l1 ++ l2) = occ x l1 + occ x l2.
Proof. unfold occ. by rewrite filter_app, length_app. Qed.

Lemma occ_perm x l1 l2 : l1 ≡ₚ l2 -> occ x l1 = occ x l2.
Proof. intros H. unfold occ. by rewrite H. Qed.

Lemma occ_pos x l : 0 < occ x l <-> x ∈ l.
Proof.
  induction l as [|y l IH]; [rewrite occ_nil; split; [lia|by inversion 1]|].
  rewrite occ_cons, elem_of_cons. case_decide; [split; [by left|lia]|].
  rewrite Nat.add_0_l, IH. naive_solver.
Qed.

Lemma occ_zero x l : occ x l = 0 <-> x ∉ l.
Proof. rewrite <- occ_pos. lia. Qed.

Lemma occ_Permutation l1 l2 : (forall x, occ x l1 = occ x l2) -> l1 ≡ₚ l2.
Proof.
  revert l2. induction l1 as [|x l1 IH]; intros l2 Hocc.
  - destruct l2 as [|y l2]; [done|]. specialize (Hocc y). rewrite occ_cons, decide_True in Hocc by done. done.
  - assert (x ∈ l2) as (l21 & l22 & ->)%list_elem_of_split.
    { apply occ_pos. rewrite <- Hocc, occ_cons, decide_True by done. lia. }
    rewrite <- Permutation_middle. f_equiv. apply IH. intros y. specialize (Hocc y).
    rewrite occ_app, !occ_cons in Hocc. rewrite occ_app. lia.
Qed.

(** Counting, over the members of a duplicate-free list, how often each
    occurs in [l] counts the elements of [l] that are members. *)
Lemma sum_occ (q l : list A) :
  NoDup q ->
  sum_list_with (fun x => occ x l) q = length (filter (.∈ q) l).
Proof.
  intros Hq. induction l as [|y l IH].
  - induction q as [|z q IHq]; [done|]. inversion Hq; subst. apply IHq; done.
  - assert (sum_list_with (fun x => occ x (y :: l)) q =
      occ y q + sum_list_with (fun x => occ x l) q) as ->.
    { clear IH. induction q as [|z q IHq]; simpl; [done|].
      inversion Hq; subst. rewrite IHq by done. rewrite !occ_cons.
      repeat case_decide; simplify_eq; lia. }
    rewrite filter_cons, IH. case_decide as Hy; simpl.
    + enough (occ y q = 1) by lia. clear -Hq Hy.
      induction q as [|z q IHq]; [by inversion Hy|]. inversion Hq; subst.
      rewrite occ_cons. case_decide as Hyz; [subst; enough (occ z q = 0) by lia; by apply occ_zero|].
      apply elem_of_cons in Hy as [?|?]; [done|]. rewrite IHq; auto.
    + by rewrite (proj2 (occ_zero y q) Hy).
Qed.
End occ.
Arguments occ : simpl never.

(** A filter that keeps nothing, elementwise. *)
Lemma length_filter_zero {A} (P : A -> Prop) `{!forall x, Decision (P x)} (l : list A) :
  length (filter P l) = 0 <-> forall x, x ∈ l -> ~ P x.
Proof.
  rewrite length_zero_iff_nil. split.
  - intros E x Hx HP. assert (x ∈ filter P l) as Hc by (by apply list_elem_of_filter).
    rewrite E in Hc. by apply not_elem_of_nil in Hc.
  - intros Hn. induction l as [|y l IH]; [done|]. rewrite filter_cons_False; [|set_solver].
    apply IH. set_solver.
Qed.

(** Splitting the complement of a set along a disjoint extension of it. *)
Lemma length_filter_split {A} `{Countable A} (P Q : gset A) (l : list A) :
  P ## Q ->
  length (filter (fun x => x ∉ P) l) =
  length (filter (fun x => x ∈ Q) l) + length (filter (fun x => x ∉ P ∪ Q) l).
Proof.
  intros HPQ. induction l as [|y l IH]; [done|]. rewrite !filter_cons.
  repeat case_decide; simpl; set_solver by lia.
Qed.

(** Filtering keeps a sublist, so the keys of a duplicate-free association
    list stay duplicate-free. *)
Lemma NoDup_fmap_filter {A B} (f : A -> B) (P : A -> Prop) `{!forall x, Decision (P x)} (l : list A) :
  NoDup (f <$> l) -> NoDup (f <$> filter P l).
Proof.
  induction l as [|x l IH]; [done|]. rewrite filter_cons, fmap_cons, NoDup_cons.
  intros [Hx Hl]. case_decide; [|auto]. rewrite fmap_cons, NoDup_cons. split; [|auto].
  intros (y & E & [_ Hy]%list_elem_of_filter)%list_elem_of_fmap. apply Hx. rewrite E.
  by apply list_elem_of_fmap_2.
Qed.

Lemma NoDup_filter_fst {K V} (P : K * V -> Prop) `{!forall x, Decision (P x)} (l : list (K * V)) :
  NoDup l.*1 -> NoDup (filter P l).*1.
Proof. apply NoDup_fmap_filter. Qed.

Lemma list_filter_all {A} (P : A -> Prop) `{!forall x, Decision (P x)} (l : list A) :
  Forall P l -> filter P l = l.
Proof. induction 1; [done|]. rewrite filter_cons_True by done. by f_equal. Qed.

(** * Lists *)

Lemma foldl_concat {A B} (f : A -> B -> A) ls a : foldl (foldl f) a ls = foldl f a (concat ls).
Proof. revert a. induction ls as [|l ls IH]; intros a; simpl; [done|]. by rewrite IH, foldl_app. Qed.

Lemma filter_bind {A B} (P : B -> Prop) `{!forall x, Decision (P x)} (f : A -> list B) l :
  filter P (l ≫= f) = l ≫= (fun x => filter P (f x)).
Proof. induction l as [|x l IH]; [done|]. by rewrite !bind_cons, filter_app, IH. Qed.

Lemma bind_none {A B} (f : A -> list B) l : (forall x, x ∈ l -> f x = []) -> l ≫= f = [].
Proof.
  induction l as [|x l IH]; intros H; [done|]. rewrite bind_cons, H, IH by set_solver. done.
Qed.

Lemma bind_single {A B} (f : A -> list B) l a :
  NoDup l -> a ∈ l -> (forall x, x ∈ l -> x <> a -> f x = []) -> l ≫= f = f a.
Proof.
  induction 1 as [|x l Hx _ IH]; intros Ha Hf; [by apply not_elem_of_nil in Ha|].
  rewrite bind_cons. apply elem_of_cons in Ha as [->|Ha].
  - rewrite (bind_none f l), app_nil_r; [done|]. intros y Hy. apply Hf; [by right|]. by intros ->.
  - rewrite IH, Hf; [done|by left| |done|].
    + by intros ->.
    + intros y Hy. apply Hf. by right.
Qed.

Lemma zip_fmap_r {A B} (f : A -> B) l : zip l (f <$> l) = (fun x => (x, f x)) <$> l.
Proof. induction l as [|x l IH]; simpl; [done|]. f_equal. exact IH. Qed.

Lemma filter_fmap_ext {A B} (P : B -> Prop) (Q : A -> Prop) `{!forall x, Decision (P x)}
    `{!forall x, Decision (Q x)} (f : A -> B) (l : list A) :
  (forall x, x ∈ l -> P (f x) <-> Q x) -> filter P (f <$> l) = f <$> filter Q l.
Proof.
  induction l as [|x l IH]; intros Hext; [done|]. rewrite fmap_cons.
  pose proof (Hext x ltac:(left)) as Hx. specialize (IH ltac:(set_solver)).
  destruct (decide (Q x)).
  - rewrite !filter_cons_True, IH by tauto. done.
  - rewrite !filter_cons_False, IH by tauto. done.
Qed.

(** ** Union *)

Lemma filter_ext_in {A} (P Q : A -> Prop) `{!forall x, Decision (P x)} `{!forall x, Decision (Q x)}
    (l : list A) :
  (forall x, x ∈ l -> P x <-> Q x) -> filter P l = filter Q l.
Proof.
  intros HPQ. rewrite <- (list_fmap_id (filter Q l)), <- (list_fmap_id l) at 1.
  by apply filter_fmap_ext.
Qed.

Lemma bind_ext_in {A B} (f g : A -> list B) (l : list A) :
  (forall x, x ∈ l -> f x = g x) -> l ≫= f = l ≫= g.
Proof.
  induction l as [|x l IH]; intros H; [done|]. rewrite !bind_cons, H, IH by set_solver. done.
Qed.

Lemma elem_of_concat {A} (x : A) (ls : list (list A)) :
  x ∈ concat ls <-> exists l, l ∈ ls /\ x ∈ l.
Proof. induction ls as [|l ls IH]; simpl; [set_solver|]. rewrite elem_of_app, IH. set_solver. Qed.

Lemma fmap_bind_list {A B C} (f : B -> C) (g : A -> list B) (l : list A) :
  f <$> (l ≫= g) = l ≫= fun x => f <$> g x.
Proof. induction l as [|x l IH]; [done|]. by rewrite !bind_cons, fmap_app, IH. Qed.

(** Counting the elements at the positions [a .. b-1] of a list. *)
Lemma length_filter_interval {A} (P : A -> Prop) `{!forall x, Decision (P x)} (l : list A) (a b : nat) :
  a <= b <= length l ->
  (forall p x, l !! p = Some x -> P x <-> a <= p < b) -> length (filter P l) = b - a.
Proof.
  revert a b. induction l as [|x l IH]; intros a b Hab Hint; [simpl in *; lia|].
  simpl in Hab. pose proof (Hint 0 x eq_refl) as H0.
  assert (length (filter P l) = (b - 1) - (a - 1)) as Hl.
  { apply IH; [lia|]. intros p y Hp. rewrite (Hint (S p) y Hp). lia. }
  destruct (decide (P x)) as [HP|HP].
  - rewrite filter_cons_True by done. simpl. rewrite Hl. apply H0 in HP. lia.
  - rewrite filter_cons_False by done. rewrite Hl. rewrite H0 in HP. lia.
Qed.

Lemma StronglySorted_ext {A} (P Q : A -> A -> Prop) l :
  (forall a b, a ∈ l -> b ∈ l -> P a b -> Q a b) -> StronglySorted P l -> StronglySorted Q l.
Proof.
  induction l as [|x l IH]; intros H Hs; inversion_clear Hs as [|? ? Hl Hx]; constructor.
  - apply IH; [|done]. intros; apply H; set_solver.
  - rewrite !Forall_forall in *. intros y Hy. apply H; [set_solver..|]. auto.
Qed.

Lemma StronglySorted_filter {A} (R : A -> A -> Prop) (P : A -> Prop) `{!forall x, Decision (P x)} l :
  StronglySorted R l -> StronglySorted R (filter P l).
Proof.
  induction 1 as [|x l Hl IH Hx]; [constructor|]. rewrite filter_cons. case_decide; [|done].
  constructor; [done|]. rewrite !Forall_forall in *. intros y Hy.
  apply Hx, (proj1 (list_elem_of_filter _ _ _) Hy).
Qed.

Lemma StronglySorted_strict {A} (P Q : A -> A -> Prop) l :
  StronglySorted P l -> NoDup l ->
  (forall a b, a ∈ l -> b ∈ l -> a <> b -> P a b -> Q a b) -> StronglySorted Q l.
Proof.
  induction l as [|x l IH]; intros Hs Hnd HPQ; [constructor|].
  apply StronglySorted_cons in Hs as [Hx Hs]. apply NoDup_cons in Hnd as [Hxl Hnd].
  apply StronglySorted_cons. split; [|apply IH; [done..|]; intros; apply HPQ; by try right].
  rewrite Forall_forall in Hx |- *. intros y Hy. apply HPQ; [left|by right|by intros ->|auto].
Qed.

Lemma StronglySorted_bind {A B} (P : A -> A -> Prop) (Q : B -> B -> Prop) (f : A -> list B) l :
  StronglySorted P l -> (forall a, a ∈ l -> StronglySorted Q (f a)) ->
  (forall a b x y, P a b -> x ∈ f a -> y ∈ f b -> Q x y) -> StronglySorted Q (l ≫= f).
Proof.
  intros Hl Hf HPQ. induction l as [|a l IH]; [constructor|].
  apply StronglySorted_cons in Hl as [Ha Hl]. rewrite bind_cons. apply StronglySorted_app.
  split; [|split; [apply Hf; left|apply IH; [done|]; intros; apply Hf; by right]].
  intros x y Hx (b & Hb & Hbl)%list_elem_of_bind. rewrite Forall_forall in Ha. eauto.
Qed.

Lemma NoDup_fmap_inj {A B} (f : A -> B) l a b :
  NoDup (f <$> l) -> a ∈ l -> b ∈ l -> f a = f b -> a = b.
Proof.
  intros Hnd [i Hi]%list_elem_of_lookup [j Hj]%list_elem_of_lookup Hab.
  assert (i = j) as ->; [|congruence].
  eapply (NoDup_lookup (f <$> l)); [done|by rewrite list_lookup_fmap, Hi|].
  rewrite list_lookup_fmap, Hj. simpl. by f_equal.
Qed.

(** * Counting the elements a boolean test accepts *)

Section countb.
Context {A : Type} (f : A -> bool).

Definition countb (l : list A) : nat := length (List.filter f l).

Lemma countb_app l1 l2 : countb (l1 ++ l2) = countb l1 + countb l2.
Proof. unfold countb. by rewrite List.filter_app, length_app. Qed.

Lemma countb_cons x l : countb (x :: l) = Nat.b2n (f x) + countb l.
Proof. unfold countb. simpl. by destruct (f x). Qed.

Lemma countb_snoc l x : countb (l ++ [x]) = countb l + Nat.b2n (f x).
Proof. rewrite countb_app, countb_cons. unfold countb. simpl. lia. Qed.

Lemma countb_insert l i x y :
  l !! i = Some x -> countb (<[i := y]> l) + Nat.b2n (f x) = countb l + Nat.b2n (f y).
Proof.
  intros Hi. rewrite (insert_take_drop l i y) by by apply lookup_lt_Some in Hi.
  rewrite <- (take_drop_middle l i x Hi) at 3. rewrite !countb_app, !countb_cons. lia.
Qed.

Lemma countb_pos l i x : l !! i = Some x -> f x = true -> 0 < countb l.
Proof.
  intros Hi Hx. rewrite <- (take_drop_middle l i x Hi), countb_app, countb_cons, Hx. simpl. lia.
Qed.

Lemma countb_zero l : countb l = 0 -> forall i x, l !! i = Some x -> f x = false.
Proof. intros H0 i x Hi. destruct (f x) eqn:E; [|done]. pose proof (countb_pos l i x Hi E). lia. Qed.

Lemma countb_none l : (forall i x, l !! i = Some x -> f x = false) -> countb l = 0.
Proof.
  intros Hf. induction l as [|x l IH]; [done|]. rewrite countb_cons, (Hf 0 x eq_refl).
  apply IH. intros i y Hy. exact (Hf (S i) y Hy).
Qed.

Lemma countb_exists l : 0 < countb l -> exists i x, l !! i = Some x /\ f x = true.
Proof.
  induction l as [|x l IH]; [by intros ?%Nat.lt_irrefl|]. rewrite countb_cons.
  destruct (f x) eqn:E; [intros _; by exists 0, x|]. intros (i & y & Hi & Hy)%IH. by exists (S i), y.
Qed.
End countb.

Lemma countb_le {A} (f g : A -> bool) l : (forall x, f x = true -> g x = true) -> countb f l <= countb g l.
Proof.
  intros Hfg. induction l as [|x l IH]; [done|]. rewrite !countb_cons.
  destruct (f x) eqn:E; [rewrite (Hfg _ E)|]; destruct (g x); simpl; lia.
Qed.
