(* ===== verification/Regexp.v ===== *)
(** Regular expressions as the sources compile them with [regexp.MustCompile].

    The three patterns of the sources ([analyzer.namePattern],
    [tenant.tenantIDPattern], [graphdb.identifierPattern]) are anchored at both
    ends and built from ASCII character classes, so matching them rune by rune
    and byte by byte agree: a byte outside ASCII is in none of the classes.
    [re_matches] is an executable matcher by Brzozowski derivatives,
    [re_spec] the usual denotation, and the lemmas of this file connect the
    matcher with the character-by-character reading of a bounded repetition. *)

From S2P Require Import Prelude.

(** * Character classes *)

Definition in_range (lo hi c : ascii) : bool :=
  (N_of_ascii lo <=? N_of_ascii c)%N && (N_of_ascii c <=? N_of_ascii hi)%N.
Definition is_lower (c : ascii) : bool := in_range "a" "z" c.
Definition is_upper (c : ascii) : bool := in_range "A" "Z" c.
Definition is_digit (c : ascii) : bool := in_range "0" "9" c.
Definition is_char (x c : ascii) : bool := bool_decide (x = c).

(** * Syntax and the derivative matcher *)

Inductive regex : Type :=
| RNone
| REmpty
| RClass (p : ascii -> bool)
| RSeq (r1 r2 : regex)
| RAlt (r1 r2 : regex)
| RStar (r : regex).

Fixpoint nullable (r : regex) : bool :=
  match r with
  | RNone => false
  | REmpty => true
  | RClass _ => false
  | RSeq r1 r2 => nullable r1 && nullable r2
  | RAlt r1 r2 => nullable r1 || nullable r2
  | RStar _ => true
  end.

Fixpoint deriv (c : ascii) (r : regex) : regex :=
  match r with
  | RNone => RNone
  | REmpty => RNone
  | RClass p => if p c then REmpty else RNone
  | RSeq r1 r2 =>
      if nullable r1 then RAlt (RSeq (deriv c r1) r2) (deriv c r2)
      else RSeq (deriv c r1) r2
  | RAlt r1 r2 => RAlt (deriv c r1) (deriv c r2)
  | RStar r1 => RSeq (deriv c r1) (RStar r1)
  end.

Fixpoint re_matches (r : regex) (l : list ascii) : bool :=
  match l with
  | [] => nullable r
  | c :: l' => re_matches (deriv c r) l'
  end.

(** [MatchString] of a pattern anchored with [^] and [$]. *)
Definition match_string (r : regex) (s : string) : bool :=
  re_matches r (String.list_ascii_of_string s).

(** [r?] and the bounded repetition [r{0,n}], [r{m,n}]. *)
Definition ROpt (r : regex) : regex := RAlt REmpty r.

Fixpoint RUpTo (n : nat) (r : regex) : regex :=
  match n with 0 => REmpty | S n' => ROpt (RSeq r (RUpTo n' r)) end.

Fixpoint RRep (m n : nat) (r : regex) : regex :=
  match m with 0 => RUpTo n r | S m' => RSeq r (RRep m' (pred n) r) end.

(** * Denotation *)

Inductive re_spec : regex -> list ascii -> Prop :=
| RS_empty : re_spec REmpty []
| RS_class p c : p c = true -> re_spec (RClass p) [c]
| RS_seq r1 r2 l1 l2 : re_spec r1 l1 -> re_spec r2 l2 -> re_spec (RSeq r1 r2) (l1 ++ l2)
| RS_alt_l r1 r2 l : re_spec r1 l -> re_spec (RAlt r1 r2) l
| RS_alt_r r1 r2 l : re_spec r2 l -> re_spec (RAlt r1 r2) l
| RS_star_nil r : re_spec (RStar r) []
| RS_star_app r l1 l2 : re_spec r l1 -> re_spec (RStar r) l2 -> re_spec (RStar r) (l1 ++ l2).

Create HintDb regex discriminated.
#[export] Hint Constructors re_spec : regex.

Lemma nullable_spec r : nullable r = true <-> re_spec r [].
Proof.
  split.
  - induction r; simpl; intros; try done; eauto with regex.
    + apply andb_prop in H as [??]. apply (RS_seq _ _ [] []); auto.
    + apply orb_prop in H as [?|?]; auto with regex.
  - remember [] as l eqn:E. intros H; revert E.
    induction H; intros E; simpl; simplify_list_eq; try done.
    + apply app_nil in E as [-> ->]. by rewrite IHre_spec1, IHre_spec2.
    + by rewrite IHre_spec.
    + rewrite IHre_spec by done. apply orb_true_r.
Qed.

Lemma re_spec_star_cons r l : re_spec (RStar r) l ->
  l = [] \/ exists c l1 l2, l = c :: l1 ++ l2 /\ re_spec r (c :: l1) /\ re_spec (RStar r) l2.
Proof.
  remember (RStar r) as s eqn:E. induction 1; simplify_eq; [by left|].
  destruct l1 as [|c l1]; simpl; [by apply IHre_spec2|].
  right. eauto 10.
Qed.

Lemma deriv_spec r c l : re_spec (deriv c r) l <-> re_spec r (c :: l).
Proof.
  revert l; induction r as [| |p|r1 IH1 r2 IH2|r1 IH1 r2 IH2|r1 IH1]; intros l; simpl.
  - split; intros H; inv H.
  - split; intros H; inv H.
  - split; intros H.
    + destruct (p c) eqn:E; inv H. by constructor.
    + inv H. match goal with E : p c = true |- _ => rewrite E end. constructor.
  - split; intros H.
    + destruct (nullable r1) eqn:E.
      * inv H; [|apply (RS_seq _ _ [] (c :: l)); [by apply nullable_spec|by apply IH2]].
        match goal with Hs : re_spec (RSeq _ _) _ |- _ => inv Hs end.
        rewrite app_comm_cons. constructor; [by apply IH1|done].
      * inv H. rewrite app_comm_cons. constructor; [by apply IH1|done].
    + inversion H as [| |? ? l1 l2 Hl1 Hl2 Ha Hb| | | |]; simplify_eq.
      destruct l1 as [|c' l1]; simplify_list_eq.
      * rewrite (proj2 (nullable_spec r1) Hl1). apply RS_alt_r. by apply IH2.
      * destruct (nullable r1); [apply RS_alt_l|]; constructor; try done; by apply IH1.
  - split; intros H; inv H;
      [apply RS_alt_l|apply RS_alt_r|apply RS_alt_l|apply RS_alt_r]; by (apply IH1 || apply IH2).
  - split; intros H.
    + inv H. rewrite app_comm_cons. constructor; [by apply IH1|done].
    + apply re_spec_star_cons in H as [?|(c' & l1 & l2 & ? & H1 & H2)]; simplify_eq.
      constructor; [by apply IH1|done].
Qed.

(** The matcher decides the denotation. *)
Lemma re_matches_spec r l : re_matches r l = true <-> re_spec r l.
Proof.
  revert r; induction l as [|c l IH]; intros r; simpl; [apply nullable_spec|].
  rewrite IH. apply deriv_spec.
Qed.

(** * Characterisations used by the components *)

Lemma re_spec_class p l : re_spec (RClass p) l <-> exists c, l = [c] /\ p c = true.
Proof. split; [intros H; inv H; eauto|intros (c & -> & ?); by constructor]. Qed.

Lemma re_spec_seq r1 r2 l :
  re_spec (RSeq r1 r2) l <-> exists l1 l2, l = l1 ++ l2 /\ re_spec r1 l1 /\ re_spec r2 l2.
Proof. split; [intros H; inv H; eauto|intros (? & ? & -> & ? & ?); by constructor]. Qed.

Lemma re_spec_opt r l : re_spec (ROpt r) l <-> l = [] \/ re_spec r l.
Proof.
  unfold ROpt. split; [intros H; inv H; [|by right]|].
  - match goal with Hs : re_spec REmpty _ |- _ => inv Hs end. by left.
  - intros [->|?]; auto with regex.
Qed.

Lemma re_spec_upto n p l :
  re_spec (RUpTo n (RClass p)) l <-> length l <= n /\ Forall (fun c => p c = true) l.
Proof.
  revert l; induction n as [|n IH]; intros l; simpl.
  - split; [intros H; inv H; auto|]. intros [? ?]. destruct l; simpl in *; [constructor|lia].
  - rewrite re_spec_opt, re_spec_seq. split.
    + intros [->|(l1 & l2 & -> & H1 & H2)]; [split; [simpl; lia|done]|].
      apply re_spec_class in H1 as (c & -> & ?). apply IH in H2 as [? ?].
      split; [simpl; lia|by constructor].
    + intros [Hl Hp]. destruct l as [|c l]; [by left|right]. inversion Hp; subst.
      exists [c], l. rewrite re_spec_class, IH. simpl in *. repeat split; eauto with lia.
Qed.

Lemma re_spec_rep m n p l : m <= n ->
  re_spec (RRep m n (RClass p)) l <-> m <= length l <= n /\ Forall (fun c => p c = true) l.
Proof.
  revert n l; induction m as [|m IH]; intros n l Hmn; simpl.
  - rewrite re_spec_upto. naive_solver lia.
  - rewrite re_spec_seq. split.
    + intros (l1 & l2 & -> & H1 & H2). apply re_spec_class in H1 as (c & -> & ?).
      apply IH in H2 as [? ?]; [|lia]. split; [simpl; lia|by constructor].
    + intros [Hl Hp]. destruct l as [|c l]; simpl in *; [lia|]. inversion Hp; subst.
      exists [c], l. rewrite re_spec_class, IH by lia. repeat split; eauto with lia.
Qed.

Lemma re_spec_star_class p l :
  re_spec (RStar (RClass p)) l <-> Forall (fun c => p c = true) l.
Proof.
  split.
  - remember (RStar (RClass p)) as r eqn:E. induction 1; simplify_eq; [done|].
    apply Forall_app; split; [|auto].
    match goal with H : re_spec (RClass _) _ |- _ => apply re_spec_class in H as (? & -> & ?) end.
    by constructor.
  - induction 1; [constructor|]. apply (RS_star_app _ [x] l); auto with regex.
Qed.
