(* ===== verification/Float64.v ===== *)
(** Go's [float64]: IEEE 754 binary64 with round-to-nearest-even, executable.

    A finite value is a sign and a magnitude counted in units of [2^-1074], the
    least positive float64, so every float64 is an integer here and every
    operation is the exact rational result rounded once. The lemmas of this
    file are the facts about rounding the other files use: it is monotone, it
    fixes the representable values and it never crosses one. *)

From Stdlib Require Import ZArith Lia.
From S2P Require Import Prelude.
Local Open Scope Z_scope.

(** * Definitions *)

Inductive float64 :=
| NaN
| Inf (neg : bool)
| Fin (neg : bool) (mag : Z).

#[export] Instance float64_eq_dec : EqDecision float64.
Proof. solve_decision. Defined.

Definition ulp_exp : Z := 1074.
Definition mantissa_bits : Z := 53.
Definition one_mag : Z := 2 ^ 1074.
Definition overflow_mag : Z := 2 ^ 2098.

(** The exponent of the unit in the last place of a value whose integer part
    (in units of [2^-1074]) is [q]; subnormals and the first binade share 0. *)
Definition ulp_of (q : Z) : Z := Z.max 0 (Z.log2 q - (mantissa_bits - 1)).

(** [n / d] to the nearest integer, ties to even. *)
Definition rne (n d : Z) : Z :=
  let q := n / d in
  let r := n mod d in
  if 2 * r <? d then q
  else if 2 * r =? d then (if Z.even q then q else q + 1)
  else q + 1.

(** The magnitude [n / d >= 0] rounds to, before the overflow check. *)
Definition round_mag (n d : Z) : Z :=
  let k := ulp_of (n / d) in rne n (d * 2 ^ k) * 2 ^ k.

Definition round (neg : bool) (n d : Z) : float64 :=
  let m := round_mag n d in
  if overflow_mag <=? m then Inf neg else Fin neg m.

(** The representable magnitudes, and the values that are float64s. *)
Definition representable (m : Z) : bool :=
  (0 <=? m) && (m mod 2 ^ ulp_of m =? 0).

Definition is_float64 (x : float64) : bool :=
  match x with
  | Fin _ m => representable m && (m <? overflow_mag)
  | _ => true
  end.

Definition sval (neg : bool) (m : Z) : Z := if neg then - m else m.

Definition fadd (x y : float64) : float64 :=
  match x, y with
  | NaN, _ | _, NaN => NaN
  | Inf s, Inf t => if Bool.eqb s t then Inf s else NaN
  | Inf s, _ => Inf s
  | _, Inf t => Inf t
  | Fin s m, Fin t p =>
      let v := sval s m + sval t p in
      if v =? 0 then Fin (s && t) 0 else round (v <? 0) (Z.abs v) 1
  end.

Definition fneg (x : float64) : float64 :=
  match x with NaN => NaN | Inf s => Inf (negb s) | Fin s m => Fin (negb s) m end.

Definition fsub (x y : float64) : float64 := fadd x (fneg y).

Definition fmul (x y : float64) : float64 :=
  match x, y with
  | NaN, _ | _, NaN => NaN
  | Inf s, Inf t => Inf (xorb s t)
  | Inf s, Fin t m | Fin t m, Inf s => if m =? 0 then NaN else Inf (xorb s t)
  | Fin s m, Fin t p => round (xorb s t) (m * p) one_mag
  end.

Definition fdiv (x y : float64) : float64 :=
  match x, y with
  | NaN, _ | _, NaN => NaN
  | Inf _, Inf _ => NaN
  | Inf s, Fin t _ => Inf (xorb s t)
  | Fin s _, Inf t => Fin (xorb s t) 0
  | Fin s m, Fin t p =>
      if p =? 0 then (if m =? 0 then NaN else Inf (xorb s t))
      else round (xorb s t) (m * one_mag) p
  end.

(** Go's [==], [<] and [<=]: false when an operand is NaN, and [-0 == 0]. *)
Definition fltb (x y : float64) : bool :=
  match x, y with
  | NaN, _ | _, NaN => false
  | Inf s, Inf t => s && negb t
  | Inf s, Fin _ _ => s
  | Fin _ _, Inf t => negb t
  | Fin s m, Fin t p => sval s m <? sval t p
  end.

Definition feqb (x y : float64) : bool :=
  match x, y with
  | NaN, _ | _, NaN => false
  | Inf s, Inf t => Bool.eqb s t
  | Fin s m, Fin t p => sval s m =? sval t p
  | _, _ => false
  end.

Definition fleb (x y : float64) : bool := fltb x y || feqb x y.

(** [float64(n)] of an integer, and a decimal literal [n / d]. *)
Definition fof_Z (n : Z) : float64 := round (n <? 0) (Z.abs n * one_mag) 1.
Definition fconst (n d : Z) : float64 := round (n <? 0) (Z.abs n * one_mag) d.

(** [int(x)] truncates towards zero; outside the range of [int] the result is
    implementation defined, which [None] stands for. *)
Definition fto_int (x : float64) : option Z :=
  match x with
  | Fin s m =>
      let v := sval s (m / one_mag) in
      if (- 2 ^ 63 <=? v) && (v <? 2 ^ 63) then Some v else None
  | _ => None
  end.

Definition fzero : float64 := Fin false 0.
Definition fone : float64 := Fin false one_mag.

Declare Scope float_scope.
Delimit Scope float_scope with float.
Bind Scope float_scope with float64.
Infix "+" := fadd : float_scope.
Infix "-" := fsub : float_scope.
Infix "*" := fmul : float_scope.
Infix "/" := fdiv : float_scope.
Infix "<?" := fltb : float_scope.
Infix "<=?" := fleb : float_scope.
Infix "=?" := feqb : float_scope.

Definition is_nan (x : float64) : bool := match x with NaN => true | _ => false end.

(** The non-negative finite values, where most of the reasoning happens. *)
Definition nonneg_fin (x : float64) : Prop :=
  exists m, x = Fin false m /\ is_float64 x = true.

(** * Rounding lemmas *)

Create HintDb floats.

Lemma rne_spec n d (r := rne n d) :
  0 < d ->
  (2 * r - 1) * d <= 2 * n <= (2 * r + 1) * d /\
  (2 * n = (2 * r - 1) * d \/ 2 * n = (2 * r + 1) * d -> Z.even r = true).
Proof.
  intros Hd. subst r. unfold rne. pose proof (Z.div_mod n d ltac:(lia)) as Hq.
  pose proof (Z.mod_pos_bound n d Hd) as Hr.
  set (q := n / d) in *. set (r := n mod d) in *.
  destruct (Z.ltb_spec (2 * r) d); [split; [|intros []]; nia|].
  destruct (Z.eqb_spec (2 * r) d) as [E|].
  - destruct (Z.even q) eqn:Ev; (split; [nia|]); [done|].
    intros _. by rewrite Z.add_1_r, Z.even_succ, <- Z.negb_even, Ev.
  - split; [|intros []]; nia.
Qed.

Lemma rne_mono n1 d1 n2 d2 :
  0 < d1 -> 0 < d2 -> n1 * d2 <= n2 * d1 -> rne n1 d1 <= rne n2 d2.
Proof.
  intros H1 H2 Hle. destruct (rne_spec n1 d1 H1) as [[A1 _] E1].
  destruct (rne_spec n2 d2 H2) as [[_ A2] E2].
  set (q := rne n1 d1) in *. set (p := rne n2 d2) in *.
  destruct (Z.le_gt_cases q p) as [|Hgt]; [done|exfalso].
  assert ((2 * q - 1) * d1 * d2 <= (2 * p + 1) * d2 * d1) as B by nia.
  assert (q = p + 1) as -> by nia.
  assert (2 * n1 = (2 * (p + 1) - 1) * d1) as T1 by nia.
  assert (2 * n2 = (2 * p + 1) * d2) as T2 by nia.
  specialize (E1 (or_introl T1)). specialize (E2 (or_intror T2)).
  rewrite Z.add_1_r, Z.even_succ, <- Z.negb_even, E2 in E1. done.
Qed.

(** Rounding to an integer never crosses an integer. *)
Lemma rne_le n d z : 0 < d -> n <= z * d -> rne n d <= z.
Proof. intros Hd H. destruct (rne_spec n d Hd) as [[A _] _]. nia. Qed.
Lemma rne_ge n d z : 0 < d -> z * d <= n -> z <= rne n d.
Proof. intros Hd H. destruct (rne_spec n d Hd) as [[_ A] _]. nia. Qed.

Lemma ulp_of_nonneg q : 0 <= ulp_of q.
Proof. unfold ulp_of. lia. Qed.

Lemma ulp_pow_pos q : 0 < 2 ^ ulp_of q.
Proof. apply Z.pow_pos_nonneg; [lia|apply ulp_of_nonneg]. Qed.

Lemma ulp_of_mono q p : q <= p -> ulp_of q <= ulp_of p.
Proof. intros H%Z.log2_le_mono. unfold ulp_of. lia. Qed.

Lemma representable_divide m k :
  representable m = true -> k <= ulp_of m -> 0 <= k -> exists c, m = c * 2 ^ k.
Proof.
  intros [_ H%Z.eqb_eq]%andb_prop Hk H0. pose proof (ulp_pow_pos m).
  apply Z.mod_divide in H as [c Hc]; [|lia].
  exists (c * 2 ^ (ulp_of m - k)). rewrite Hc at 1.
  rewrite <- Z.mul_assoc, <- Z.pow_add_r by lia. do 2 f_equal. lia.
Qed.

Lemma representable_nonneg m : representable m = true -> 0 <= m.
Proof. intros [H%Z.leb_le _]%andb_prop. done. Qed.

(** The sandwich: rounding never crosses a representable magnitude. *)
Lemma round_mag_le n d y :
  0 <= n -> 0 < d -> representable y = true -> n <= y * d -> round_mag n d <= y.
Proof.
  intros Hn Hd Hy H. unfold round_mag. set (k := ulp_of (n / d)).
  assert (n / d <= y) as Hq by (apply Z.div_le_upper_bound; lia).
  destruct (representable_divide y k Hy) as [c ->]; [by apply ulp_of_mono|apply ulp_of_nonneg|].
  pose proof (ulp_pow_pos (n / d)) as Hp. fold k in Hp.
  apply Z.mul_le_mono_nonneg_r; [lia|]. apply rne_le; nia.
Qed.

(** A power of two at least as large as the last place is representable by it. *)
Lemma round_mag_ge_pow n d (q := n / d) :
  0 <= n -> 0 < d -> 0 < ulp_of q -> 2 ^ Z.log2 q <= round_mag n d.
Proof.
  intros Hn Hd Hk. unfold round_mag. subst q. set (q := n / d) in *. set (k := ulp_of q) in *.
  assert (Z.log2 q = 52 + k) as -> by (unfold k, ulp_of, mantissa_bits in *; lia).
  assert (0 < q) as Hq.
  { destruct (Z.le_gt_cases q 0) as [Hle|]; [|done].
    unfold k, ulp_of, mantissa_bits in Hk. rewrite Z.log2_nonpos in Hk by done. lia. }
  rewrite Z.pow_add_r by lia.
  apply Z.mul_le_mono_nonneg_r; [lia|]. apply rne_ge; [nia|].
  pose proof (Z.log2_spec q Hq) as [Hlog _]. pose proof (Z.mul_div_le n d Hd) as Hqd.
  assert (Z.log2 q = 52 + k) as El by (unfold k, ulp_of, mantissa_bits in *; lia).
  rewrite El, Z.pow_add_r in Hlog by lia. fold q in Hqd. nia.
Qed.

Lemma round_mag_ge n d y :
  0 <= n -> 0 < d -> representable y = true -> y * d <= n -> y <= round_mag n d.
Proof.
  intros Hn Hd Hy H. assert (y <= n / d) as Hq by (apply Z.div_le_lower_bound; lia).
  pose proof (representable_nonneg y Hy) as Hy0.
  set (k := ulp_of (n / d)) in *. destruct (Z.le_gt_cases k (ulp_of y)) as [Hk|Hk].
  - destruct (representable_divide y k Hy Hk (ulp_of_nonneg _)) as [c ->].
    pose proof (ulp_pow_pos (n / d)) as Hp. unfold round_mag. fold k in Hp |- *.
    apply Z.mul_le_mono_nonneg_r; [lia|]. apply rne_ge; nia.
  - assert (Z.log2 y < Z.log2 (n / d)) as Hlog
      by (pose proof (ulp_of_nonneg y); unfold k, ulp_of in *; lia).
    transitivity (2 ^ Z.log2 (n / d)).
    + destruct (Z.le_gt_cases y 0); [pose proof (Z.pow_nonneg 2 (Z.log2 (n / d))); lia|].
      apply Z.lt_le_incl. pose proof (Z.log2_spec y ltac:(lia)) as [_ Hu].
      eapply Z.lt_le_trans; [exact Hu|]. apply Z.pow_le_mono_r; lia.
    + apply round_mag_ge_pow; [done..|]. pose proof (ulp_of_nonneg y). unfold k in *. lia.
Qed.

(** The values of [k] bits below the limit are representable. *)
Lemma representable_mul c k : 0 <= c <= 2 ^ 53 -> 0 <= k -> representable (c * 2 ^ k) = true.
Proof.
  intros Hc Hk. pose proof (Z.pow_pos_nonneg 2 k ltac:(lia) Hk) as Hp.
  apply andb_true_intro. split; [apply Z.leb_le; nia|]. apply Z.eqb_eq, Z.mod_divide.
  { pose proof (ulp_pow_pos (c * 2 ^ k)). lia. }
  destruct (decide (c = 0)) as [->|Hc0]; [by exists 0|].
  destruct (decide (c = 2 ^ 53)) as [->|Hc1].
  - rewrite <- Z.pow_add_r by lia.
    unfold ulp_of, mantissa_bits. rewrite Z.log2_pow2 by lia.
    exists (2 ^ (53 + k - Z.max 0 (53 + k - (53 - 1)))). rewrite <- Z.pow_add_r by lia.
    f_equal. lia.
  - assert (ulp_of (c * 2 ^ k) <= k) as Hu.
    { unfold ulp_of, mantissa_bits. rewrite Z.log2_mul_pow2 by lia.
      assert (Z.log2 c < 53) by (apply Z.log2_lt_pow2; lia). lia. }
    pose proof (ulp_of_nonneg (c * 2 ^ k)) as Hu0.
    set (u := ulp_of (c * 2 ^ k)) in *. exists (c * 2 ^ (k - u)).
    rewrite <- Z.mul_assoc, <- Z.pow_add_r by lia. do 2 f_equal. lia.
Qed.

Lemma round_mag_representable n d :
  0 <= n -> 0 < d -> representable (round_mag n d) = true.
Proof.
  intros Hn Hd. unfold round_mag. apply representable_mul; [|apply ulp_of_nonneg].
  set (q := n / d). pose proof (ulp_pow_pos q) as Hp.
  assert (0 <= q) as Hq by (apply Z.div_pos; lia).
  split; [apply rne_ge; nia|]. apply rne_le; [nia|].
  assert (n <= (q + 1) * d) as Hnq
    by (pose proof (Z.mul_succ_div_gt n d Hd) as Hs; fold q in Hs; nia).
  assert (q + 1 <= 2 ^ 53 * 2 ^ ulp_of q) as Hbound; [|nia].
  destruct (decide (q = 0)) as [E|]; [rewrite E; by vm_compute|].
  pose proof (Z.log2_spec q ltac:(lia)) as [_ Hu]. rewrite <- Z.pow_add_r by (lia || apply ulp_of_nonneg).
  assert (2 ^ Z.succ (Z.log2 q) <= 2 ^ (53 + ulp_of q)); [|lia].
  apply Z.pow_le_mono_r; [lia|]. unfold ulp_of, mantissa_bits. lia.
Qed.

Lemma round_mag_exact y d : 0 < d -> representable y = true -> round_mag (y * d) d = y.
Proof.
  intros Hd Hy. pose proof (representable_nonneg _ Hy).
  apply Z.le_antisymm; [apply round_mag_le|apply round_mag_ge]; done || nia.
Qed.

Lemma round_mag_mono n1 d1 n2 d2 :
  0 <= n1 -> 0 < d1 -> 0 <= n2 -> 0 < d2 -> n1 * d2 <= n2 * d1 ->
  round_mag n1 d1 <= round_mag n2 d2.
Proof.
  intros H1 H2 H3 H4 Hle.
  assert (n1 / d1 <= n2 / d2) as Hq.
  { apply Z.div_le_lower_bound; [done|].
    pose proof (Z.mul_div_le n1 d1 H2) as Hdiv. nia. }
  pose proof (ulp_of_mono _ _ Hq) as Hk.
  destruct (Z.eq_dec (ulp_of (n1 / d1)) (ulp_of (n2 / d2))) as [E|Hne].
  - unfold round_mag. rewrite E. pose proof (ulp_pow_pos (n2 / d2)) as Hp.
    apply Z.mul_le_mono_nonneg_r; [lia|]. apply rne_mono; nia.
  - (* a power of two lies between *)
    set (q1 := n1 / d1) in *. set (q2 := n2 / d2) in *.
    assert (0 < ulp_of q2) as Hpos by (pose proof (ulp_of_nonneg q1); lia).
    transitivity (2 ^ Z.log2 q2); [|by apply round_mag_ge_pow].
    assert (Z.log2 q1 < Z.log2 q2) as Hlog
      by (unfold ulp_of in Hk, Hne, Hpos; lia).
    apply round_mag_le; [done..| |].
    + replace (2 ^ Z.log2 q2) with (1 * 2 ^ Z.log2 q2) by lia.
      apply representable_mul; [lia|apply Z.log2_nonneg].
    + assert (q1 + 1 <= 2 ^ Z.log2 q2).
      { destruct (Z.le_gt_cases q1 0) as [|Hq1].
        - assert (0 < 2 ^ Z.log2 q2) by (apply Z.pow_pos_nonneg; [lia|apply Z.log2_nonneg]). lia.
        - pose proof (Z.log2_spec q1 Hq1) as [_ Hu].
          assert (2 ^ Z.succ (Z.log2 q1) <= 2 ^ Z.log2 q2) by (apply Z.pow_le_mono_r; lia). lia. }
      pose proof (Z.mul_succ_div_gt n1 d1 H2) as Hs. fold q1 in Hs. nia.
Qed.

(** * Operations on non-negative values *)

Lemma one_mag_pos : 0 < one_mag.
Proof. done. Qed.

Lemma representable_0 : representable 0 = true.
Proof. done. Qed.

(** Integers up to [2^53] are exact. *)
Lemma representable_int z : 0 <= z <= 2 ^ 53 -> representable (z * one_mag) = true.
Proof. intros H. by apply (representable_mul z 1074). Qed.

Lemma int_no_overflow z : 0 <= z <= 2 ^ 53 -> z * one_mag < overflow_mag.
Proof.
  intros H. change overflow_mag with (2 ^ 1024 * one_mag).
  pose proof one_mag_pos. apply Z.mul_lt_mono_pos_r; [done|].
  eapply Z.le_lt_trans; [apply H|]. by vm_compute.
Qed.

Lemma round_float64 s n d : 0 <= n -> 0 < d -> is_float64 (round s n d) = true.
Proof.
  intros Hn Hd. unfold round. destruct (Z.leb_spec overflow_mag (round_mag n d)); [done|].
  simpl. rewrite round_mag_representable by done. by apply Z.ltb_lt.
Qed.

Lemma round_exact s y d :
  0 < d -> representable y = true -> y < overflow_mag -> round s (y * d) d = Fin s y.
Proof.
  intros Hd Hy Ho. unfold round. rewrite round_mag_exact by done.
  by rewrite (proj2 (Z.leb_gt _ _) Ho).
Qed.

Lemma fin_float64 s m :
  is_float64 (Fin s m) = true <-> representable m = true /\ m < overflow_mag.
Proof. simpl. rewrite andb_true_iff, Z.ltb_lt. done. Qed.

Lemma fof_Z_exact z : 0 <= z <= 2 ^ 53 -> fof_Z z = Fin false (z * one_mag).
Proof.
  intros H. unfold fof_Z. rewrite (proj2 (Z.ltb_ge _ _)) by lia. rewrite Z.abs_eq by lia.
  rewrite <- (Z.mul_1_r (z * one_mag)) at 1.
  apply round_exact; [done|by apply representable_int|by apply int_no_overflow].
Qed.

Lemma fadd_nonneg m p :
  0 <= m -> 0 <= p -> fadd (Fin false m) (Fin false p) = round false (m + p) 1.
Proof.
  intros Hm Hp. simpl. destruct (Z.eqb_spec (m + p) 0) as [E|].
  - rewrite E. vm_compute. reflexivity.
  - rewrite (proj2 (Z.ltb_ge _ _)) by lia. by rewrite Z.abs_eq by lia.
Qed.

Lemma fadd_exact m p :
  0 <= m -> 0 <= p -> representable (m + p) = true -> m + p < overflow_mag ->
  fadd (Fin false m) (Fin false p) = Fin false (m + p).
Proof.
  intros. rewrite fadd_nonneg by done.
  rewrite <- (Z.mul_1_r (m + p)) at 1. by apply round_exact.
Qed.

Lemma round_Fin s n d m : round s n d = Fin s m -> m = round_mag n d /\ m < overflow_mag.
Proof.
  unfold round. destruct (Z.leb_spec overflow_mag (round_mag n d)); [done|]. by intros [= <-].
Qed.

(** A positive addend keeps a sum positive, and sums are monotone. *)
Lemma round_add_ge m p : 0 <= m -> 0 <= p -> representable p = true -> p <= round_mag (m + p) 1.
Proof. intros. apply round_mag_ge; [lia..|done|lia]. Qed.

Lemma fdiv_le_one m p :
  0 <= m <= p -> 0 < p -> exists c, fdiv (Fin false m) (Fin false p) = Fin false c /\ 0 <= c <= one_mag.
Proof.
  intros Hmp Hp. simpl. rewrite (proj2 (Z.eqb_neq _ _)) by lia. pose proof one_mag_pos as H1.
  exists (round_mag (m * one_mag) p).
  assert (0 <= round_mag (m * one_mag) p <= one_mag) as Hb.
  { split; [apply round_mag_ge|apply round_mag_le]; try done; nia. }
  split; [|done]. unfold round. rewrite (proj2 (Z.leb_gt _ _)); [done|].
  eapply Z.le_lt_trans; [apply Hb|]. by vm_compute.
Qed.

(** * Comparison lemmas *)

(** Numbers (not NaN) compare as pairs: negative infinity, finite, infinity. *)
Definition fclass (x : float64) : Z :=
  match x with Inf true => -1 | Inf false => 1 | _ => 0 end.
Definition fmant (x : float64) : Z :=
  match x with Fin s m => sval s m | _ => 0 end.

Lemma fltb_key x y :
  is_nan x = false -> is_nan y = false ->
  fltb x y = true <-> fclass x < fclass y \/ (fclass x = fclass y /\ fmant x < fmant y).
Proof.
  intros Hx Hy. destruct x as [|[]|[] mx], y as [|[]|[] my]; simpl in *; rewrite ?Z.ltb_lt;
    (split; [intros; try done; lia|intros; try done; lia]).
Qed.

Lemma feqb_key x y :
  is_nan x = false -> is_nan y = false ->
  feqb x y = true <-> fclass x = fclass y /\ fmant x = fmant y.
Proof.
  intros Hx Hy. destruct x as [|[]|[] mx], y as [|[]|[] my]; simpl in *; rewrite ?Z.eqb_eq;
    (split; [intros; try done; lia|intros; try done; lia]).
Qed.

Lemma fltb_key_false x y :
  is_nan x = false -> is_nan y = false ->
  fltb x y = false <-> ~ (fclass x < fclass y \/ (fclass x = fclass y /\ fmant x < fmant y)).
Proof. intros Hx Hy. rewrite <- fltb_key, not_true_iff_false by done. done. Qed.

Lemma feqb_key_false x y :
  is_nan x = false -> is_nan y = false ->
  feqb x y = false <-> ~ (fclass x = fclass y /\ fmant x = fmant y).
Proof. intros Hx Hy. rewrite <- feqb_key, not_true_iff_false by done. done. Qed.

Lemma fleb_fin a b : a <= b -> fleb (Fin false a) (Fin false b) = true.
Proof.
  intros H. unfold fleb. change (fltb _ _) with (a <? b). change (feqb _ _) with (a =? b).
  destruct (Z.ltb_spec a b), (Z.eqb_spec a b); done || lia.
Qed.

(** ** Values that are zero, positive or infinity, where sums are never NaN *)

Definition nonneg (x : float64) : bool :=
  match x with Inf false => true | Fin false m => 0 <=? m | _ => false end.

Lemma nonneg_not_nan x : nonneg x = true -> is_nan x = false.
Proof. by destruct x as [|[]|]. Qed.

Lemma round_mag_nonneg n d : 0 <= n -> 0 < d -> 0 <= round_mag n d.
Proof. intros. by apply representable_nonneg, round_mag_representable. Qed.

Lemma nonneg_round n d : 0 <= n -> 0 < d -> nonneg (round false n d) = true.
Proof.
  intros Hn Hd. unfold round. destruct (_ <=? _); [done|]. by apply Z.leb_le, round_mag_nonneg.
Qed.

Lemma nonneg_fadd x y : nonneg x = true -> nonneg y = true -> nonneg (fadd x y) = true.
Proof.
  destruct x as [|[]|[] mx], y as [|[]|[] my]; try done.
  intros ?%Z.leb_le ?%Z.leb_le. rewrite fadd_nonneg by done. apply nonneg_round; lia.
Qed.

Lemma nonneg_fdiv x m :
  nonneg x = true -> 0 < m -> nonneg (fdiv x (Fin false m)) = true.
Proof.
  destruct x as [|[]|[] mx]; try done. intros Hx%Z.leb_le Hm.
  unfold fdiv. rewrite (proj2 (Z.eqb_neq _ _)) by lia. apply nonneg_round; [|done].
  pose proof one_mag_pos. nia.
Qed.

Lemma nonneg_fof_Z z : 0 <= z -> nonneg (fof_Z z) = true.
Proof.
  intros Hz. unfold fof_Z. rewrite (proj2 (Z.ltb_ge _ _)) by lia. pose proof one_mag_pos.
  apply nonneg_round; nia.
Qed.

#[global] Arguments fadd : simpl never.
#[global] Arguments fsub : simpl never.
#[global] Arguments fmul : simpl never.
#[global] Arguments fdiv : simpl never.
#[global] Arguments fof_Z : simpl never.
#[global] Arguments one_mag : simpl never.
#[global] Arguments overflow_mag : simpl never.
