(* ===== verification/Timefmt.v ===== *)
(** Times: Go's [time.Time] as the code uses it, and
    [pkg/graphdb/timefmt.go]'s [FormatTime].

    An instant is its number of nanoseconds since Go's zero time,
    0001-01-01T00:00:00Z; [UTC] changes the location only, so it is the
    identity here. Formatting uses the proleptic Gregorian calendar. *)

From Stdlib Require Import ZArith Lia.
From S2P Require Import Prelude.
Local Open Scope Z_scope.

(** * Definitions *)

Abbreviation Time := Z (only parsing).

Definition IsZero (t : Time) : bool := t =? 0.
Definition After (t u : Time) : bool := u <? t.
Definition Before (t u : Time) : bool := t <? u.

(** ** The calendar *)

(** Days from 0000-01-01 to the first of January of year [y]. *)
Definition days_before_year (y : Z) : Z :=
  365 * y + (y + 3) / 4 - (y + 99) / 100 + (y + 399) / 400.

Definition leap_day (y : Z) : Z := days_before_year (y + 1) - days_before_year y - 365.

(** Days of year [y] before month [m]. *)
Definition days_before_month (y m : Z) : Z :=
  (if m <=? 1 then 0 else if m <=? 2 then 31 else
   leap_day y + (if m <=? 3 then 59 else if m <=? 4 then 90 else if m <=? 5 then 120
     else if m <=? 6 then 151 else if m <=? 7 then 181 else if m <=? 8 then 212
     else if m <=? 9 then 243 else if m <=? 10 then 273 else if m <=? 11 then 304 else 334)).

(** The year of a day within its 400-year cycle: at most one above the guess. *)
Definition year_of_cycle (doe : Z) : Z :=
  let y := doe / 366 in if days_before_year (y + 1) <=? doe then y + 1 else y.

Definition month_of (y doy : Z) : Z :=
  foldr (fun m acc => if days_before_month y m <=? doy then acc else m - 1) 12
    [2; 3; 4; 5; 6; 7; 8; 9; 10; 11; 12].

Record date := mkDate { year : Z; month : Z; day : Z }.

(** The date of day [n], counted from 0000-01-01, and back. *)
Definition civil_of_days (n : Z) : date :=
  let yoe := year_of_cycle (n mod 146097) in
  let y := 400 * (n / 146097) + yoe in
  let doy := n mod 146097 - days_before_year yoe in
  let m := month_of y doy in
  mkDate y m (doy - days_before_month y m + 1).

Definition days_of_civil (d : date) : Z :=
  days_before_year (year d) + days_before_month (year d) (month d) + day d - 1.

(** ** Formatting and parsing *)

Definition zero_day : Z := 366.
Definition ns_per_day : Z := 86400 * 1000000000.

Definition digit (n : Z) : ascii := ascii_of_N (Z.to_N (48 + n)).

(** [w] decimal digits of [n], and the rest of [n] in front ([appendInt]
    pads to a width and never cuts). *)
Fixpoint digits (w : nat) (n : Z) (acc : string) : string :=
  match w with
  | O => acc
  | S w' => digits w' (n / 10) (String (digit (n mod 10)) acc)
  end.

Definition pad (w : nat) (n : Z) : string := digits w n "".

(** Years outside 0..9999 take more than four characters. *)
Definition pad_year (y : Z) : string :=
  if y <? 0 then "-" +:+ pad 4 (- y) else if 9999 <? y then pad 5 y else pad 4 y.

Definition FormatTime (t : Time) : string :=
  let d := civil_of_days (t / ns_per_day + zero_day) in
  let ns := t mod ns_per_day in
  let s := ns / 1000000000 in
  pad_year (year d) +:+ "-" +:+ pad 2 (month d) +:+ "-" +:+ pad 2 (day d) +:+ "T" +:+
  pad 2 (s / 3600) +:+ ":" +:+ pad 2 (s / 60 mod 60) +:+ ":" +:+ pad 2 (s mod 60) +:+ "." +:+
  pad 9 (ns mod 1000000000) +:+ "Z".

Definition digit_value (c : ascii) : option Z :=
  let n := Z.of_N (N_of_ascii c) - 48 in if (0 <=? n) && (n <=? 9) then Some n else None.

(** Reads exactly [w] digits. *)
Fixpoint read_digits (w : nat) (s : string) (acc : Z) : option (Z * string) :=
  match w with
  | O => Some (acc, s)
  | S w' =>
      match s with
      | "" => None
      | String c s' => digit_value c ≫= fun d => read_digits w' s' (10 * acc + d)
      end
  end.

Definition read_char (c : ascii) (s : string) : option string :=
  match s with
  | String c' s' => if bool_decide (c = c') then Some s' else None
  | "" => None
  end.

(** [time.Parse(time.RFC3339Nano, s)] on the strings the drivers store, which
    are [FormatTime]'s: a four-digit year, nine fractional digits and [Z]. *)
Definition ParseTime (s : string) : option Time :=
  '(y, s) ← read_digits 4 s 0; s ← read_char "-" s;
  '(m, s) ← read_digits 2 s 0; s ← read_char "-" s;
  '(d, s) ← read_digits 2 s 0; s ← read_char "T" s;
  '(h, s) ← read_digits 2 s 0; s ← read_char ":" s;
  '(mi, s) ← read_digits 2 s 0; s ← read_char ":" s;
  '(sec, s) ← read_digits 2 s 0; s ← read_char "." s;
  '(ns, s) ← read_digits 9 s 0; s ← read_char "Z" s;
  if bool_decide (s = "") then
    Some ((days_of_civil (mkDate y m d) - zero_day) * ns_per_day +
          (h * 3600 + mi * 60 + sec) * 1000000000 + ns)
  else None.

(** The instants with a four-digit year. *)
Definition representable_time (t : Time) : Prop :=
  - zero_day * ns_per_day <= t < (days_before_year 10000 - zero_day) * ns_per_day.

(** * Calendar lemmas *)

Lemma days_before_year_mono y z : y <= z -> days_before_year y + 365 * (z - y) <= days_before_year z.
Proof. unfold days_before_year. intros. Z.div_mod_to_equations. lia. Qed.

Lemma days_before_year_cycle y k : days_before_year (400 * k + y) = 146097 * k + days_before_year y.
Proof. unfold days_before_year. Z.div_mod_to_equations. lia. Qed.

Lemma year_of_cycle_spec doe :
  0 <= doe < 146097 ->
  let y := year_of_cycle doe in
  0 <= y < 400 /\ days_before_year y <= doe < days_before_year (y + 1).
Proof.
  intros Hd. unfold year_of_cycle. destruct (Z.leb_spec (days_before_year (doe / 366 + 1)) doe) as [H|H];
    revert H; unfold days_before_year; Z.div_mod_to_equations; lia.
Qed.

Lemma leap_day_bool y : leap_day y = 0 \/ leap_day y = 1.
Proof. unfold leap_day, days_before_year. Z.div_mod_to_equations. lia. Qed.

Lemma month_of_spec y doy :
  0 <= doy < 365 + leap_day y ->
  let m := month_of y doy in
  1 <= m <= 12 /\ days_before_month y m <= doy /\
  doy - days_before_month y m < 31 /\ (m < 12 -> doy < days_before_month y (m + 1)).
Proof.
  intros H. destruct (leap_day_bool y) as [E|E];
    unfold month_of, days_before_month; simpl; rewrite E in *;
    repeat match goal with |- context [?a <=? doy] => destruct (Z.leb_spec a doy) end; simpl; lia.
Qed.

(** Every day has a date, and the date gives the day back. *)
Lemma civil_of_days_spec n :
  let d := civil_of_days n in
  days_of_civil d = n /\ 1 <= month d <= 12 /\ 1 <= day d <= 31 /\
  days_before_year (year d) <= n < days_before_year (year d + 1) /\
  (month d < 12 -> n < days_before_year (year d) + days_before_month (year d) (month d + 1)).
Proof.
  unfold civil_of_days. set (era := n / 146097). set (doe := n mod 146097).
  assert (n = 146097 * era + doe) as En by (unfold era, doe; apply Z.div_mod; lia).
  assert (0 <= doe < 146097) as Hdoe by (apply Z.mod_pos_bound; lia).
  destruct (year_of_cycle_spec doe Hdoe) as [Hy Hb]. set (yoe := year_of_cycle doe) in *.
  pose proof (days_before_year_cycle yoe era) as Hc1.
  pose proof (days_before_year_cycle (yoe + 1) era) as Hc2. rewrite Z.add_assoc in Hc2.
  assert (leap_day (400 * era + yoe) = days_before_year (yoe + 1) - days_before_year yoe - 365) as El
    by (unfold leap_day; lia).
  destruct (month_of_spec (400 * era + yoe) (doe - days_before_year yoe)) as (Hm & Hle & H31 & Hnext);
    [lia|].
  unfold days_of_civil. cbn [year month day]. lia.
Qed.

Lemma civil_year_range n :
  0 <= n < days_before_year 10000 -> 0 <= year (civil_of_days n) <= 9999.
Proof.
  intros Hn. destruct (civil_of_days_spec n) as (_ & _ & _ & Hb & _).
  set (y := year (civil_of_days n)) in *.
  assert (days_before_year 0 = 0) as E0 by done.
  split; apply Z.nlt_ge; intros Hy.
  - pose proof (days_before_year_mono (y + 1) 0 ltac:(lia)). lia.
  - pose proof (days_before_year_mono 10000 y ltac:(lia)). lia.
Qed.

(** * Digit lemmas *)

Lemma digits_app w n acc : digits w n acc = pad w n +:+ acc.
Proof.
  unfold pad. revert n acc. induction w as [|w IH]; intros n acc; simpl; [done|].
  rewrite IH, (IH _ (String _ "")). by rewrite string_app_assoc.
Qed.

Lemma pad_step w n : pad (S w) n = pad w (n / 10) +:+ String (digit (n mod 10)) "".
Proof. exact (digits_app w (n / 10) (String (digit (n mod 10)) "")). Qed.

Lemma digit_value_digit n : 0 <= n <= 9 -> digit_value (digit n) = Some n.
Proof.
  intros H. assert (n ∈ seqZ 0 10) as Hn by (apply elem_of_seqZ; lia).
  clear H; revert n Hn. apply Forall_forall. vm_compute. by repeat constructor.
Qed.

Lemma read_digits_snoc w s acc v c s' d :
  read_digits w s acc = Some (v, String c s') -> digit_value c = Some d ->
  read_digits (S w) s acc = Some (10 * v + d, s').
Proof.
  revert s acc. induction w as [|w IH]; intros s acc Hr Hd.
  - simpl in Hr. simplify_eq. simpl. by rewrite Hd.
  - simpl in Hr. destruct s as [|c' s]; [done|]. change (read_digits (S (S w)) (String c' s) acc) with
      (digit_value c' ≫= fun d => read_digits (S w) s (10 * acc + d)).
    destruct (digit_value c') as [d'|]; [|done]. simpl in Hr |- *. by apply IH.
Qed.

Lemma read_digits_app w n s acc :
  0 <= n < 10 ^ Z.of_nat w -> read_digits w (pad w n +:+ s) acc = Some (acc * 10 ^ Z.of_nat w + n, s).
Proof.
  revert n s acc. induction w as [|w IH]; intros n s acc Hn.
  - simpl in *. f_equal; f_equal; lia.
  - rewrite Nat2Z.inj_succ, Z.pow_succ_r in * by lia. rewrite pad_step, string_app_assoc.
    pose proof (Z.div_mod n 10 ltac:(lia)) as En. pose proof (Z.mod_pos_bound n 10 ltac:(lia)).
    erewrite read_digits_snoc; [|apply IH; lia|apply digit_value_digit; lia].
    f_equal; f_equal; lia.
Qed.

Lemma pad_length w n : String.length (pad w n) = w.
Proof.
  revert n. induction w as [|w IH]; intros n; [done|].
  rewrite pad_step, string_length_app, IH. simpl. lia.
Qed.

Lemma read_char_app c s : read_char c (String c "" +:+ s) = Some s.
Proof. simpl. by rewrite bool_decide_eq_true_2. Qed.

(** ** The fields of a formatted time *)

Record fields := mkFields {
  f_date : date; f_hour : Z; f_min : Z; f_sec : Z; f_ns : Z }.

Definition fields_of (t : Time) : fields :=
  let ns := t mod ns_per_day in
  let s := ns / 1000000000 in
  mkFields (civil_of_days (t / ns_per_day + zero_day)) (s / 3600) (s / 60 mod 60) (s mod 60)
    (ns mod 1000000000).

Definition time_of (f : fields) : Time :=
  (days_of_civil (f_date f) - zero_day) * ns_per_day +
  (f_hour f * 3600 + f_min f * 60 + f_sec f) * 1000000000 + f_ns f.

Lemma fields_of_spec t :
  representable_time t ->
  let f := fields_of t in
  time_of f = t /\ 0 <= year (f_date f) <= 9999 /\ 1 <= month (f_date f) <= 12 /\
  1 <= day (f_date f) <= 31 /\ 0 <= f_hour f < 24 /\ 0 <= f_min f < 60 /\ 0 <= f_sec f < 60 /\
  0 <= f_ns f < 1000000000.
Proof.
  intros Ht. unfold fields_of. cbn [f_date f_hour f_min f_sec f_ns].
  set (n := t / ns_per_day + zero_day).
  assert (0 <= n < days_before_year 10000) as Hn.
  { unfold representable_time, ns_per_day in *. unfold n, ns_per_day.
    set (D := days_before_year 10000) in *. clearbody D. unfold zero_day in *.
    Z.div_mod_to_equations. lia. }
  destruct (civil_of_days_spec n) as (Hd & Hm & Hday & _). pose proof (civil_year_range n Hn).
  pose proof (Z.div_mod t ns_per_day ltac:(done)) as Et.
  pose proof (Z.mod_pos_bound t ns_per_day ltac:(done)) as Hr.
  set (r := t mod ns_per_day) in *. unfold time_of. cbn [f_date f_hour f_min f_sec f_ns].
  rewrite Hd. split; [|do 3 (split; [done|])].
  - unfold n. clearbody r. clear - Et. unfold ns_per_day in *. Z.div_mod_to_equations. lia.
  - clearbody r. clear - Hr. unfold ns_per_day in *. Z.div_mod_to_equations. lia.
Qed.

Lemma FormatTime_fields t :
  representable_time t ->
  let f := fields_of t in
  FormatTime t = pad 4 (year (f_date f)) +:+ "-" +:+ pad 2 (month (f_date f)) +:+ "-" +:+
    pad 2 (day (f_date f)) +:+ "T" +:+ pad 2 (f_hour f) +:+ ":" +:+ pad 2 (f_min f) +:+ ":" +:+
    pad 2 (f_sec f) +:+ "." +:+ pad 9 (f_ns f) +:+ "Z".
Proof.
  intros Ht. destruct (fields_of_spec t Ht) as (_ & Hy & _). unfold FormatTime, pad_year.
  cbn [fields_of f_date] in Hy. rewrite (proj2 (Z.ltb_ge _ _)) by lia.
  by rewrite (proj2 (Z.ltb_ge _ _)) by lia.
Qed.

Lemma ParseTime_FormatTime t : representable_time t -> ParseTime (FormatTime t) = Some t.
Proof.
  intros Ht. rewrite FormatTime_fields by done.
  destruct (fields_of_spec t Ht) as (Ef & Hy & Hm & Hd & Hh & Hmi & Hs & Hns).
  set (f := fields_of t) in *. unfold ParseTime.
  rewrite read_digits_app by lia. cbn [mbind option_bind]. rewrite read_char_app. cbn [mbind option_bind].
  do 5 (rewrite read_digits_app by lia; cbn [mbind option_bind]; rewrite read_char_app; cbn [mbind option_bind]).
  rewrite read_digits_app by lia. cbn [mbind option_bind].
  change (read_char "Z" "Z") with (Some ""). cbn [mbind option_bind].
  rewrite bool_decide_eq_true_2 by done. f_equal. rewrite <- Ef. unfold time_of.
  rewrite !Z.mul_0_l, !Z.add_0_l. by destruct (f_date f).
Qed.

(** * Lexical order is chronological order *)

Lemma string_ltb_cons c s t : String.ltb (String c s) (String c t) = String.ltb s t.
Proof.
  unfold String.ltb. simpl. unfold Ascii.compare. by rewrite N.compare_refl.
Qed.

Lemma string_ltb_head c d s t :
  (N_of_ascii c < N_of_ascii d)%N -> String.ltb (String c s) (String d t) = true.
Proof. intros H. unfold String.ltb. simpl. unfold Ascii.compare. by apply N.compare_lt_iff in H as ->. Qed.

Lemma string_ltb_prefix p s t : String.ltb (p +:+ s) (p +:+ t) = String.ltb s t.
Proof. induction p as [|c p IH]; [done|]. by rewrite !string_app_cons, string_ltb_cons. Qed.

(** Equal-length heads decide. *)
Lemma string_ltb_app a b s t :
  String.length a = String.length b -> String.ltb a b = true -> String.ltb (a +:+ s) (b +:+ t) = true.
Proof.
  revert b. induction a as [|c a IH]; intros [|d b] Hl; try done. rewrite !string_app_cons.
  injection Hl as Hl. destruct (N.lt_trichotomy (N_of_ascii c) (N_of_ascii d)) as [H|[H|H]].
  - intros _. by apply string_ltb_head.
  - apply (f_equal ascii_of_N) in H. rewrite !ascii_N_embedding in H. subst d.
    rewrite !string_ltb_cons. by apply IH.
  - intros Hlt. assert (String.ltb (String d b) (String c a) = true) as Hgt by by apply string_ltb_head.
    apply string_ltb_asym in Hgt. congruence.
Qed.

Lemma digit_code n : 0 <= n <= 9 -> N_of_ascii (digit n) = Z.to_N (48 + n).
Proof. intros H. unfold digit. apply N_ascii_embedding. lia. Qed.

Lemma pad_ltb w n m :
  0 <= n -> n < m -> m < 10 ^ Z.of_nat w -> String.ltb (pad w n) (pad w m) = true.
Proof.
  revert n m. induction w as [|w IH]; intros n m Hn Hnm Hm; [simpl in Hm; lia|].
  rewrite Nat2Z.inj_succ, Z.pow_succ_r in Hm by lia. rewrite !pad_step.
  pose proof (Z.div_mod n 10 ltac:(lia)). pose proof (Z.mod_pos_bound n 10 ltac:(lia)).
  pose proof (Z.div_mod m 10 ltac:(lia)). pose proof (Z.mod_pos_bound m 10 ltac:(lia)).
  destruct (Z.lt_trichotomy (n / 10) (m / 10)) as [Hd|[Hd|Hd]]; [| |lia].
  - apply string_ltb_app; [by rewrite !pad_length|]. apply IH; lia.
  - rewrite Hd, string_ltb_prefix. apply string_ltb_head. rewrite !digit_code by lia. lia.
Qed.

(** One field after another: the first that differs decides. *)
Lemma field_ltb w n m s t :
  0 <= n < 10 ^ Z.of_nat w -> 0 <= m < 10 ^ Z.of_nat w ->
  n < m \/ (n = m /\ String.ltb s t = true) ->
  String.ltb (pad w n +:+ s) (pad w m +:+ t) = true.
Proof.
  intros Hn Hm [H|[-> H]].
  - apply string_ltb_app; [by rewrite !pad_length|]. apply pad_ltb; lia.
  - by rewrite string_ltb_prefix.
Qed.

Lemma days_before_month_mono y m m' :
  m <= m' -> days_before_month y m <= days_before_month y m'.
Proof.
  intros H. unfold days_before_month. destruct (leap_day_bool y) as [->| ->];
    repeat match goal with |- context [?a <=? ?b] => destruct (Z.leb_spec a b) end; lia.
Qed.

Lemma date_lex n1 n2 :
  n1 < n2 ->
  let d1 := civil_of_days n1 in let d2 := civil_of_days n2 in
  year d1 < year d2 \/ (year d1 = year d2 /\
    (month d1 < month d2 \/ (month d1 = month d2 /\ day d1 < day d2))).
Proof.
  intros H d1 d2. destruct (civil_of_days_spec n1) as (E1 & M1 & D1 & B1 & N1).
  destruct (civil_of_days_spec n2) as (E2 & M2 & D2 & B2 & N2).
  fold d1 in E1, M1, D1, B1, N1. fold d2 in E2, M2, D2, B2, N2. clearbody d1 d2. unfold days_of_civil in *. destruct (Z.lt_trichotomy (year d1) (year d2)) as [|[Ey|Hy]]; [by left| |].
  - right. split; [done|]. rewrite Ey in E1, B1, N1.
    destruct (Z.lt_trichotomy (month d1) (month d2)) as [|[Em|Hm]]; [by left| |].
    + right. rewrite Em in E1. lia.
    + pose proof (days_before_month_mono (year d2) (month d2 + 1) (month d1) ltac:(lia)). lia.
  - pose proof (days_before_year_mono (year d2 + 1) (year d1) ltac:(lia)). lia.
Qed.

Lemma string_ltb_sep c s t : String.ltb s t = true -> String.ltb (String c "" +:+ s) (String c "" +:+ t) = true.
Proof. intros H. by rewrite string_ltb_prefix. Qed.

Lemma FormatTime_lt t u :
  representable_time t -> representable_time u -> t < u ->
  String.ltb (FormatTime t) (FormatTime u) = true.
Proof.
  intros Ht Hu Htu. rewrite !FormatTime_fields by done.
  destruct (fields_of_spec t Ht) as (Et & Y1 & M1 & D1 & H1 & I1 & S1 & N1).
  destruct (fields_of_spec u Hu) as (Eu & Y2 & M2 & D2 & H2 & I2 & S2 & N2).
  set (f := fields_of t) in *. set (g := fields_of u) in *.
  assert (year (f_date f) < year (f_date g) \/ (year (f_date f) = year (f_date g) /\
    (month (f_date f) < month (f_date g) \/ (month (f_date f) = month (f_date g) /\
    (day (f_date f) < day (f_date g) \/ (day (f_date f) = day (f_date g) /\
    (f_hour f < f_hour g \/ (f_hour f = f_hour g /\ (f_min f < f_min g \/ (f_min f = f_min g /\
    (f_sec f < f_sec g \/ (f_sec f = f_sec g /\ f_ns f < f_ns g)))))))))))) as Hlex.
  { destruct (Z.lt_trichotomy (t / ns_per_day) (u / ns_per_day)) as [Hd|[Hd|Hd]].
    - pose proof (date_lex (t / ns_per_day + zero_day) (u / ns_per_day + zero_day) ltac:(lia)) as Hl.
      change (civil_of_days (t / ns_per_day + zero_day)) with (f_date f) in Hl.
      change (civil_of_days (u / ns_per_day + zero_day)) with (f_date g) in Hl. cbv zeta in Hl.
      clearbody f g. clear - Hl. intuition.
    - assert (f_date f = f_date g) as Ed by (unfold f, g, fields_of; simpl; by rewrite Hd).
      unfold time_of in Et, Eu. rewrite Ed in *. lia.
    - assert (u / ns_per_day < t / ns_per_day -> u <= t) as Hmono; [|lia].
      intros Hlt. pose proof (Z.div_le_mono t u ns_per_day ltac:(done)). lia. }
  clear Et Eu Ht Hu Htu. clearbody f g.
  repeat (apply field_ltb; [simpl; lia|simpl; lia|];
          destruct Hlex as [Hlex|[Hlex Hrec]]; [by left|right; split; [done|]; clear Hlex; rename Hrec into Hlex];
          apply string_ltb_sep).
  apply field_ltb; [simpl; lia|simpl; lia|by left].
Qed.

(** * Property *)

(** Stored times are faithful: for every instant of the years 0 to 9999,
    parsing what [FormatTime] stores gives the instant back to the nanosecond,
    and the stored strings compare the way the instants do, which is what lets
    a backend order timestamps as strings. *)
Theorem FormatTime_order_roundtrip (t u : Time) :
  representable_time t -> representable_time u ->
  ParseTime (FormatTime t) = Some t /\
  (String.ltb (FormatTime t) (FormatTime u) = true <-> t < u).
Proof.
  intros Ht Hu. split; [by apply ParseTime_FormatTime|]. split; [|by apply FormatTime_lt].
  intros H. destruct (Z.lt_trichotomy t u) as [|[->|Hut]]; [done|by rewrite string_ltb_irrefl in H|].
  apply FormatTime_lt, string_ltb_asym in Hut; [congruence|done..].
Qed.

(** * Witness *)

Lemma FormatTime_order_roundtrip_witness :
  FormatTime 0 = "0001-01-01T00:00:00.000000000Z" /\
  FormatTime 63871419999123456789 = "2025-01-02T13:06:39.123456789Z" /\
  ParseTime (FormatTime 63871419999123456789) = Some 63871419999123456789.
Proof.
  split; [vm_compute; reflexivity|]. split; [vm_compute; reflexivity|].
  apply (FormatTime_order_roundtrip 63871419999123456789 0); split; vm_compute; congruence.
Defined.
