(* ===== verification/Gostrings.v ===== *)
(** The functions of Go's [strings] and [strconv] packages the sources use on
    text whose bytes matter: [TrimSpace], [ToLower] as far as ASCII substrings
    can see it, [Contains], [Atoi] and [Itoa]. A Go string is a byte string. *)

From stdpp Require Import pretty.
From S2P Require Import Prelude.

Open Scope Z_scope.

(** * Definitions *)

Definition bytes_of (s : string) : list ascii := String.list_ascii_of_string s.
Definition string_of (l : list ascii) : string := String.string_of_list_ascii l.

(** The UTF-8 encodings of the runes [unicode.IsSpace] accepts: tab, newline,
    vertical tab, form feed, carriage return, space, U+0085, U+00A0, U+1680,
    U+2000 to U+200A, U+2028, U+2029, U+202F, U+205F and U+3000. *)
Definition space_runes : list (list ascii) :=
  map (map ascii_of_nat)
  ([[9]; [10]; [11]; [12]; [13]; [32]; [194; 133]; [194; 160]; [225; 154; 128]]
   ++ map (fun k => [226; 128; 128 + k]) (seq 0 11)
   ++ [[226; 128; 168]; [226; 128; 169]; [226; 128; 175]; [226; 129; 159]; [227; 128; 128]])%nat.

Fixpoint strip_prefix (p l : list ascii) : option (list ascii) :=
  match p, l with
  | [], _ => Some l
  | a :: p', b :: l' => if bool_decide (a = b) then strip_prefix p' l' else None
  | _ :: _, [] => None
  end.

(** The rest of [l] after a leading rune of [rs]. *)
Definition strip_any (rs : list (list ascii)) (l : list ascii) : option (list ascii) :=
  head (omap (fun r => strip_prefix r l) rs).

Fixpoint trim_front (fuel : nat) (rs : list (list ascii)) (l : list ascii) : list ascii :=
  match fuel with
  | O => l
  | S n => match strip_any rs l with Some rest => trim_front n rs rest | None => l end
  end.

(** Every strip shortens the list, so its length is enough fuel. *)
Definition trim_left (rs : list (list ascii)) (l : list ascii) : list ascii :=
  trim_front (length l) rs l.

Definition TrimSpace (s : string) : string :=
  let l := trim_left space_runes (bytes_of s) in
  string_of (rev (trim_left (map (@rev ascii) space_runes) (rev l))).

(** [strings.ToLower], on the bytes an ASCII substring test can see: the ASCII
    letters, and the two other runes whose lower case is an ASCII letter, the
    Kelvin sign U+212A and the dotted capital I U+0130. Other runes map to
    bytes outside ASCII, and are left as they are. *)
Definition lower_byte (c : ascii) : ascii :=
  let n := nat_of_ascii c in
  if bool_decide (65 <= n <= 90)%nat then ascii_of_nat (n + 32) else c.

Fixpoint lower_bytes (l : list ascii) : list ascii :=
  match l with
  | [] => []
  | c :: l' =>
      match l' with
      | d :: l'' =>
          if bool_decide (nat_of_ascii c = 196 /\ nat_of_ascii d = 176)%nat
          then "i"%char :: lower_bytes l''
          else
            match l'' with
            | e :: l3 =>
                if bool_decide (nat_of_ascii c = 226 /\ nat_of_ascii d = 132 /\ nat_of_ascii e = 170)%nat
                then "k"%char :: lower_bytes l3
                else lower_byte c :: lower_bytes l'
            | [] => lower_byte c :: lower_bytes l'
            end
      | [] => [lower_byte c]
      end
  end.

Definition ToLower (s : string) : string := string_of (lower_bytes (bytes_of s)).

Fixpoint contains_bytes (p l : list ascii) : bool :=
  match strip_prefix p l with
  | Some _ => true
  | None => match l with [] => false | _ :: l' => contains_bytes p l' end
  end.

Definition Contains (s sub : string) : bool := contains_bytes (bytes_of sub) (bytes_of s).

(** [strings.HasSuffix], [strings.TrimSuffix]. *)
Definition without_suffix (s suffix : string) : option string :=
  (fun l => string_of (rev l)) <$> strip_prefix (rev (bytes_of suffix)) (rev (bytes_of s)).
Definition HasSuffix (s suffix : string) : bool := bool_decide (is_Some (without_suffix s suffix)).
Definition TrimSuffix (s suffix : string) : string := default s (without_suffix s suffix).

(** [strconv.Atoi] on a 64-bit platform: an optional sign, then decimal digits
    only, within the range of [int]. *)
Definition digit_of (c : ascii) : option Z :=
  let n := nat_of_ascii c in
  if bool_decide (48 <= n <= 57)%nat then Some (Z.of_nat n - 48) else None.

Definition read_number (l : list ascii) : option Z :=
  match l with
  | [] => None
  | _ => foldl (fun acc c => n ← acc; d ← digit_of c; Some (10 * n + d)) (Some 0) l
  end.

Definition in_int64 (n : Z) : bool := (- 2 ^ 63 <=? n) && (n <? 2 ^ 63).

Definition Atoi (s : string) : option Z :=
  n ← match bytes_of s with
      | "-"%char :: l => Z.opp <$> read_number l
      | "+"%char :: l => read_number l
      | l => read_number l
      end;
  if in_int64 n then Some n else None.

(** [strconv.Itoa]. *)
Definition Itoa (n : Z) : string := pretty n.

(** fmt's %q of a string: it depends on Unicode's tables of printable runes. *)
Class GoQuote := { go_quote : string -> string }.

(** 64-bit wrap-around of a signed integer. *)
Definition wrap64 (n : Z) : Z := (n + 2 ^ 63) mod 2 ^ 64 - 2 ^ 63.

(** * Lemmas *)

Lemma wrap64_range n : - 2 ^ 63 <= wrap64 n < 2 ^ 63.
Proof. unfold wrap64. pose proof (Z.mod_pos_bound (n + 2 ^ 63) (2 ^ 64) ltac:(lia)). lia. Qed.

Lemma wrap64_id n : - 2 ^ 63 <= n < 2 ^ 63 -> wrap64 n = n.
Proof. intros. unfold wrap64. rewrite Z.mod_small by lia. lia. Qed.

Example trim_ex : TrimSpace "  120	" = "120".
Proof. reflexivity. Qed.

Example trim_nbsp :
  TrimSpace (string_of (map ascii_of_nat [194; 160; 65; 226; 128; 131]%nat)) = "A".
Proof. reflexivity. Qed.

Example lower_ex : ToLower "Deadline exceeded" = "deadline exceeded".
Proof. reflexivity. Qed.

Example atoi_ex : Atoi "-42" = Some (-42) /\ Atoi "" = None /\ Atoi "9223372036854775808" = None.
Proof. by split_and!. Qed.

Lemma pretty_N_go_nonempty x s : s <> "" -> pretty.pretty_N_go x s <> "".
Proof.
  revert s. induction (N.lt_wf_0 x) as [x _ IH]; intros s Hs.
  destruct (decide (x = 0)%N) as [->|]; [by rewrite pretty.pretty_N_go_0|].
  rewrite pretty.pretty_N_go_step by lia. by apply IH; [apply N.div_lt; lia|].
Qed.

Lemma string_of_inj l1 l2 : string_of l1 = string_of l2 -> l1 = l2.
Proof.
  unfold string_of. intros Heq%(f_equal String.list_ascii_of_string).
  by rewrite !String.list_ascii_of_string_of_list_ascii in Heq.
Qed.

Lemma Itoa_nonempty n : Itoa n <> "".
Proof.
  destruct n as [|p|p]; try done. change (pretty.pretty_N_go (Npos p) "" <> "").
  rewrite pretty.pretty_N_go_step by lia. by apply pretty_N_go_nonempty.
Qed.
