(* ===== verification/Sha256.v ===== *)
(** SHA-256 ([crypto/sha256]) and lowercase hexadecimal ([encoding/hex]), as
    the result cache, the content hashes and the attestations use them.

    The round constants are computed from their definition (the fractional
    parts of the cube and square roots of the first primes); two published
    test vectors check the whole function. *)

From S2P Require Import Prelude Gostrings.
Local Open Scope Z_scope.

(** * Definitions *)

Definition byte_val (c : ascii) : Z := Z.of_nat (nat_of_ascii c).
Definition byte_of (n : Z) : ascii := ascii_of_nat (Z.to_nat (n mod 256)).

(** ** The constants *)

Fixpoint primes_from (fuel : nat) (n : Z) (found : list Z) : list Z :=
  match fuel with
  | O => rev found
  | S fuel =>
      primes_from fuel (n + 1)
        (if forallb (fun p => negb (n mod p =? 0)) found then n :: found else found)
  end.

(** 311 is the 64th prime. *)
Definition primes64 : list Z := Eval vm_compute in primes_from 310 2 [].

(** The greatest [r <= hi] with [r ^ 3 <= n], by bisection. *)
Fixpoint cbrt_between (fuel : nat) (n lo hi : Z) : Z :=
  match fuel with
  | O => lo
  | S fuel =>
      let mid := (lo + hi + 1) / 2 in
      if mid ^ 3 <=? n then cbrt_between fuel n mid hi else cbrt_between fuel n lo (mid - 1)
  end.

Definition frac_cbrt (p : Z) : Z := cbrt_between 40 (p * 2 ^ 96) 0 (2 ^ 36) mod 2 ^ 32.
Definition frac_sqrt (p : Z) : Z := Z.sqrt (p * 2 ^ 64) mod 2 ^ 32.

Definition round_constants : list Z := Eval vm_compute in frac_cbrt <$> primes64.
Definition initial_hash : list Z := Eval vm_compute in frac_sqrt <$> take 8 primes64.

(** ** Words *)

Definition add32 (l : list Z) : Z := foldr Z.add 0 l mod 2 ^ 32.
Definition rotr (n x : Z) : Z := Z.lor (Z.shiftr x n) (Z.shiftl x (32 - n) mod 2 ^ 32).
Definition xor3 (a b c : Z) : Z := Z.lxor (Z.lxor a b) c.

Definition choose (x y z : Z) : Z := Z.lxor (Z.land x y) (Z.land (2 ^ 32 - 1 - x) z).
Definition majority (x y z : Z) : Z := xor3 (Z.land x y) (Z.land x z) (Z.land y z).
Definition mix_a (x : Z) : Z := xor3 (rotr 2 x) (rotr 13 x) (rotr 22 x).
Definition mix_e (x : Z) : Z := xor3 (rotr 6 x) (rotr 11 x) (rotr 25 x).
Definition spread0 (x : Z) : Z := xor3 (rotr 7 x) (rotr 18 x) (Z.shiftr x 3).
Definition spread1 (x : Z) : Z := xor3 (rotr 17 x) (rotr 19 x) (Z.shiftr x 10).

(** ** Padding and blocks *)

(** [n] in [k] bytes, most significant first. *)
Fixpoint big_endian (k : nat) (n : Z) : list ascii :=
  match k with
  | O => []
  | S k => byte_of (Z.shiftr n (8 * Z.of_nat k)) :: big_endian k n
  end.

Definition from_big_endian (l : list ascii) : Z := foldl (fun n c => n * 256 + byte_val c) 0 l.

Definition pad (msg : list ascii) : list ascii :=
  let len := Z.of_nat (length msg) in
  msg ++ byte_of 128 :: replicate (Z.to_nat ((55 - len) mod 64)) (byte_of 0)
      ++ big_endian 8 (8 * len).

Fixpoint chunks {A} (fuel k : nat) (l : list A) : list (list A) :=
  match fuel, l with
  | O, _ | _, [] => []
  | S fuel, _ => take k l :: chunks fuel k (drop k l)
  end.

(** ** Compression *)

(** The message schedule, latest word first. *)
Fixpoint extend (n : nat) (w : list Z) : list Z :=
  match n with
  | O => w
  | S n =>
      let at_ (i : nat) := default 0 (w !! i) in
      extend n (add32 [spread1 (at_ 1%nat); at_ 6%nat; spread0 (at_ 14%nat); at_ 15%nat] :: w)
  end.

Definition schedule (block : list ascii) : list Z :=
  rev (extend 48 (rev (from_big_endian <$> chunks 16 4 block))).

Definition sha_round (s : list Z) (kw : Z * Z) : list Z :=
  match s with
  | [a; b; c; d; e; f; g; h] =>
      let t1 := add32 [h; mix_e e; choose e f g; kw.1; kw.2] in
      let t2 := add32 [mix_a a; majority a b c] in
      [add32 [t1; t2]; a; b; c; add32 [d; t1]; e; f; g]
  | _ => s
  end.

Definition compress (hash : list Z) (block : list ascii) : list Z :=
  zip_with (fun x y => add32 [x; y]) hash
    (foldl sha_round hash (zip round_constants (schedule block))).

Definition sha256_bytes (msg : list ascii) : list ascii :=
  let padded := pad msg in
  foldl compress initial_hash (chunks (length padded) 64 padded) ≫= big_endian 4.

(** [sha256.Sum256]. *)
Definition Sum256 (msg : string) : string := string_of (sha256_bytes (bytes_of msg)).

(** ** Hexadecimal *)

Definition hex_digit (n : Z) : ascii :=
  byte_of (if n <? 10 then 48 + n else 87 + n).

(** [hex.EncodeToString]. *)
Definition EncodeToString (s : string) : string :=
  string_of (bytes_of s ≫= fun c => [hex_digit (byte_val c / 16); hex_digit (byte_val c mod 16)]).

Definition hex_sum (msg : string) : string := EncodeToString (Sum256 msg).

(** Two different messages with the same hash. *)
Definition collides (x y : string) : Prop := x <> y /\ Sum256 x = Sum256 y.

(** * Test vectors (FIPS 180-4) *)

Example sum_abc :
  hex_sum "abc" = "ba7816bf8f01cfea414140de5dae2223b00361a396177a9cb410ff61f20015ad".
Proof. vm_compute. reflexivity. Qed.

Example sum_two_blocks :
  hex_sum "abcdbcdecdefdefgefghfghighijhijkijkljklmklmnlmnomnopnopq" =
  "248d6a61d20638b8e5c026930c3e6039a33ce45964ff2167f6ecedd419db06c1".
Proof. vm_compute. reflexivity. Qed.

(** * Facts *)

Lemma byte_val_range c : 0 <= byte_val c < 256.
Proof. unfold byte_val. pose proof (nat_ascii_bounded c). lia. Qed.

Lemma byte_of_val c : byte_of (byte_val c) = c.
Proof.
  unfold byte_of. rewrite Z.mod_small by apply byte_val_range.
  unfold byte_val. by rewrite Nat2Z.id, ascii_nat_embedding.
Qed.

Lemma byte_val_of n : byte_val (byte_of n) = n mod 256.
Proof.
  unfold byte_val, byte_of. pose proof (Z.mod_pos_bound n 256 eq_refl).
  rewrite nat_ascii_embedding by lia. lia.
Qed.

Lemma byte_val_inj : Inj (=) (=) byte_val.
Proof. intros a b Hab. by rewrite <- (byte_of_val a), Hab, byte_of_val. Qed.

Lemma length_big_endian k n : length (big_endian k n) = k.
Proof. induction k; simpl; lia. Qed.

Lemma big_endian_read k n acc :
  foldl (fun n c => n * 256 + byte_val c) acc (big_endian k n) = acc * 256 ^ Z.of_nat k + n mod 256 ^ Z.of_nat k.
Proof.
  revert acc. induction k as [|k IH]; intros acc; cbn [big_endian foldl].
  - rewrite Z.mod_1_r. lia.
  - rewrite IH, byte_val_of, Nat2Z.inj_succ, Z.pow_succ_r by lia.
    rewrite Z.shiftr_div_pow2 by lia.
    replace (2 ^ (8 * Z.of_nat k)) with (256 ^ Z.of_nat k) by (by rewrite Z.pow_mul_r by lia).
    assert (0 < 256 ^ Z.of_nat k) by (apply Z.pow_pos_nonneg; lia).
    rewrite (Z.mul_comm 256), Z.rem_mul_r by lia. lia.
Qed.

Lemma big_endian_inj k n m :
  0 <= n < 256 ^ Z.of_nat k -> 0 <= m < 256 ^ Z.of_nat k -> big_endian k n = big_endian k m -> n = m.
Proof.
  intros Hn Hm Heq. pose proof (big_endian_read k n 0) as Hr. rewrite Heq, big_endian_read in Hr.
  rewrite !Z.mod_small in Hr by lia. lia.
Qed.

Lemma length_bind_const {A B} (f : A -> list B) (k : nat) l :
  (forall x, length (f x) = k) -> length (l ≫= f) = (k * length l)%nat.
Proof. intros Hf. induction l as [|x l IH]; csimpl; [lia|]. rewrite length_app, Hf, IH. lia. Qed.

Lemma length_compress hash block : length hash = 8%nat -> length (compress hash block) = 8%nat.
Proof.
  intros Hh. unfold compress. rewrite length_zip_with, Hh. apply Nat.min_l, Nat.eq_le_incl. symmetry.
  assert (forall l s, length s = 8%nat -> length (foldl sha_round s l) = 8%nat) as Hf; [|by apply Hf].
  induction l as [|kw l IH]; intros s Hs; [done|]. apply IH.
  by do 8 (destruct s as [|? s]; [discriminate|]); destruct s.
Qed.

Lemma length_sha256_bytes msg : length (sha256_bytes msg) = 32%nat.
Proof.
  unfold sha256_bytes. set (blocks := chunks _ _ _). clearbody blocks.
  assert (length (foldl compress initial_hash blocks) = 8%nat) as Hl.
  { assert (forall s, length s = 8%nat -> length (foldl compress s blocks) = 8%nat) as Hf; [|by apply Hf].
    induction blocks as [|b bl IH]; intros s Hs; [done|]. apply IH. by apply length_compress. }
  rewrite length_bind_const with (k := 4%nat); [lia|]. intros. apply length_big_endian.
Qed.

Lemma length_Sum256 msg : String.length (Sum256 msg) = 32%nat.
Proof.
  unfold Sum256, string_of. rewrite <- length_list_ascii, String.list_ascii_of_string_of_list_ascii.
  apply length_sha256_bytes.
Qed.

Lemma hex_digit_lower n : 0 <= n < 16 ->
  (48 <= byte_val (hex_digit n) <= 57 \/ 97 <= byte_val (hex_digit n) <= 102).
Proof.
  intros Hn. unfold hex_digit. rewrite byte_val_of.
  destruct (Z.ltb_spec n 10); rewrite Z.mod_small; lia.
Qed.

Lemma hex_digit_inj n m : 0 <= n < 16 -> 0 <= m < 16 -> hex_digit n = hex_digit m -> n = m.
Proof.
  intros Hn Hm Heq%(f_equal byte_val). revert Heq. unfold hex_digit. rewrite !byte_val_of.
  destruct (Z.ltb_spec n 10), (Z.ltb_spec m 10); rewrite !Z.mod_small; lia.
Qed.

Lemma EncodeToString_inj s t : EncodeToString s = EncodeToString t -> s = t.
Proof.
  unfold EncodeToString, string_of, bytes_of. intros Heq%(f_equal String.list_ascii_of_string).
  rewrite !String.list_ascii_of_string_of_list_ascii in Heq. apply list_ascii_inj. revert Heq.
  generalize (String.list_ascii_of_string t) as l2. generalize (String.list_ascii_of_string s) as l1.
  induction l1 as [|c l1 IH]; intros [|d l2] Heq; try done.
  injection Heq as Hhi Hlo Htl. f_equal; [|by apply IH].
  pose proof (byte_val_range c). pose proof (byte_val_range d).
  apply hex_digit_inj in Hhi, Hlo; try (apply Z.mod_pos_bound; lia).
  - apply byte_val_inj. rewrite (Z.div_mod (byte_val c) 16), (Z.div_mod (byte_val d) 16); lia.
  - split; [apply Z.div_pos; lia|apply Z.div_lt_upper_bound; lia].
  - split; [apply Z.div_pos; lia|apply Z.div_lt_upper_bound; lia].
Qed.

Lemma hex_sum_eq x y : hex_sum x = hex_sum y -> x = y \/ collides x y.
Proof. intros Heq%EncodeToString_inj. destruct (decide (x = y)); [by left|by right]. Qed.

(** No proof looks inside the hash. *)
#[global] Opaque Sum256.
