(* ===== verification/Json.v ===== *)
(** The JSON text [encoding/json] writes: [json.Marshal] of strings, integers,
    booleans, slices, structs and string-keyed maps, and [utf8.Valid].

    A value is given by its fields in the order they are written: a struct's
    declaration order, a map's sorted keys. The main fact is that the text
    determines the value ([Marshal_inj]), provided its strings are valid
    UTF-8: an invalid byte is written as the replacement character. *)

From S2P Require Import Prelude Gostrings Sha256.
Local Open Scope Z_scope.

(** * Definitions *)

(** ** UTF-8 *)

Definition in_range (lo hi : Z) (c : ascii) : bool := (lo <=? byte_val c) && (byte_val c <=? hi).
Definition continuation : ascii -> bool := in_range 128 191.

(** The number of bytes of the rune [l] starts with ([utf8.DecodeRune]), or
    [None] where it reports an invalid encoding, of width 1. *)
Definition rune_size (l : list ascii) : option nat :=
  match l with
  | [] => None
  | c :: r =>
      if byte_val c <? 128 then Some 1%nat
      else if in_range 194 223 c then
        match r with
        | c1 :: _ => if continuation c1 then Some 2%nat else None
        | _ => None
        end
      else if in_range 224 239 c then
        match r with
        | c1 :: c2 :: _ =>
            let lo := if byte_val c =? 224 then 160 else 128 in
            let hi := if byte_val c =? 237 then 159 else 191 in
            if in_range lo hi c1 && continuation c2 then Some 3%nat else None
        | _ => None
        end
      else if in_range 240 244 c then
        match r with
        | c1 :: c2 :: c3 :: _ =>
            let lo := if byte_val c =? 240 then 144 else 128 in
            let hi := if byte_val c =? 244 then 143 else 191 in
            if in_range lo hi c1 && continuation c2 && continuation c3 then Some 4%nat else None
        | _ => None
        end
      else None
  end.

(** [skip] bytes of the current rune are still to be passed over. *)
Fixpoint valid_from (skip : nat) (l : list ascii) : bool :=
  match l with
  | [] => true
  | c :: r =>
      match skip with
      | S skip => valid_from skip r
      | O => match rune_size l with Some n => valid_from (n - 1) r | None => false end
      end
  end.

(** [utf8.ValidString]. *)
Definition utf8_Valid (s : string) : bool := valid_from 0 (bytes_of s).

(** [utf8.RuneStart]. *)
Definition RuneStart (c : ascii) : bool := negb (continuation c).

(** ** Strings *)

Definition quote_char : ascii := byte_of 34.
Definition backslash : ascii := byte_of 92.
Definition lit (s : string) : list ascii := bytes_of s.

(** An ASCII byte in a JSON string, HTML-sensitive characters escaped. *)
Definition escape (c : ascii) : list ascii :=
  let v := byte_val c in
  if (v =? 34) || (v =? 92) then [backslash; c]
  else if v =? 8 then backslash :: lit "b"
  else if v =? 12 then backslash :: lit "f"
  else if v =? 10 then backslash :: lit "n"
  else if v =? 13 then backslash :: lit "r"
  else if v =? 9 then backslash :: lit "t"
  else if (v <? 32) || (v =? 60) || (v =? 62) || (v =? 38)
  then backslash :: lit "u00" ++ [hex_digit (v / 16); hex_digit (v mod 16)]
  else [c].

(** U+2028 and U+2029, which are escaped too. *)
Definition separator_rune (l : list ascii) : option Z :=
  match l with
  | a :: b :: c :: _ =>
      if (byte_val a =? 226) && (byte_val b =? 128) && in_range 168 169 c then Some (byte_val c - 160) else None
  | _ => None
  end.

Fixpoint escaped (skip : nat) (l : list ascii) : list ascii :=
  match l with
  | [] => []
  | c :: r =>
      match skip with
      | S skip => c :: escaped skip r
      | O =>
          if byte_val c <? 128 then escape c ++ escaped 0 r
          else
            match rune_size l with
            | None => backslash :: lit "ufffd" ++ escaped 0 r
            | Some n =>
                match separator_rune l, r with
                | Some d, _ :: _ :: r' => backslash :: lit "u202" ++ [hex_digit d] ++ escaped 0 r'
                | _, _ => c :: escaped (n - 1) r
                end
            end
      end
  end.

Definition quoted (s : string) : list ascii := quote_char :: escaped 0 (bytes_of s) ++ [quote_char].

(** ** Values *)

Inductive json :=
| JNull
| JBool (b : bool)
| JInt (n : Z)
| JString (s : string)
| JArray (l : list json)
| JObject (fields : list (string * json)).

Definition commas (l : list (list ascii)) : list ascii :=
  match l with
  | [] => []
  | x :: r => x ++ (r ≫= fun y => "," %char :: y)
  end.

Fixpoint json_text (j : json) : list ascii :=
  match j with
  | JNull => lit "null"
  | JBool b => lit (if b then "true" else "false")
  | JInt n => bytes_of (Itoa n)
  | JString s => quoted s
  | JArray l => "[" %char :: commas (json_text <$> l) ++ ["]" %char]
  | JObject l => "{" %char :: commas ((fun '(k, v) => quoted k ++ ":" %char :: json_text v) <$> l) ++ ["}" %char]
  end.

(** [json.Marshal]. *)
Definition Marshal_json (j : json) : string := string_of (json_text j).

(** Every string of a value is valid UTF-8. *)
Fixpoint json_utf8 (j : json) : bool :=
  match j with
  | JString s => utf8_Valid s
  | JArray l => forallb json_utf8 l
  | JObject l => forallb (fun '(k, v) => utf8_Valid k && json_utf8 v) l
  | _ => true
  end.

Example json_sample :
  Marshal_json (JObject [("a", JString "x<y"); ("b", JArray [JInt (-5); JInt 10]); ("c", JNull)]) =
  string_of (lit "{'a':'x\u003cy','b':[-5,10],'c':null}" ≫= fun c => if (c =? "'")%char then [quote_char] else [c]).
Proof. vm_compute. reflexivity. Qed.

(** * Strings are read back *)

Definition hex_val (c : ascii) : Z := if byte_val c <? 58 then byte_val c - 48 else byte_val c - 87.

(** The bytes the escape [\u abxy] stands for, of those [escaped] writes. *)
Definition read_u (a b x y : ascii) : list ascii :=
  if (a =? "2")%char then [byte_of 226; byte_of 128; byte_of (160 + hex_val y)]
  else [byte_of (16 * hex_val x + hex_val y)].

Definition read_short (e : ascii) : ascii :=
  if (e =? "b")%char then byte_of 8
  else if (e =? "f")%char then byte_of 12
  else if (e =? "n")%char then byte_of 10
  else if (e =? "r")%char then byte_of 13
  else if (e =? "t")%char then byte_of 9
  else e.

Definition prepend (p : list ascii) (o : option (list ascii * list ascii)) : option (list ascii * list ascii) :=
  match o with Some (l, r) => Some (p ++ l, r) | None => None end.

(** Reads a string up to its closing quote. *)
Fixpoint unescape (l : list ascii) : option (list ascii * list ascii) :=
  match l with
  | [] => None
  | c :: r =>
      if (c =? quote_char)%char then Some ([], r)
      else if (c =? backslash)%char then
        match r with
        | e :: r1 =>
            if (e =? "u")%char then
              match r1 with
              | a :: b :: x :: y :: r2 => prepend (read_u a b x y) (unescape r2)
              | _ => None
              end
            else prepend [read_short e] (unescape r1)
        | [] => None
        end
      else prepend [c] (unescape r)
  end.

Lemma unescape_escape c r : byte_val c < 128 -> unescape (escape c ++ r) = prepend [c] (unescape r).
Proof.
  destruct c as [[] [] [] [] [] [] [] []]; intros Hc; try (by vm_compute in Hc); cbn; reflexivity.
Qed.

Lemma unescape_high c r : 128 <= byte_val c -> unescape (c :: r) = prepend [c] (unescape r).
Proof.
  intros Hc. cbn [unescape].
  destruct (Ascii.eqb_spec c quote_char) as [->|_]; [by vm_compute in Hc|].
  destruct (Ascii.eqb_spec c backslash) as [->|_]; [by vm_compute in Hc|]. done.
Qed.

Lemma in_range_spec lo hi c : in_range lo hi c = true <-> lo <= byte_val c <= hi.
Proof. unfold in_range. rewrite andb_true_iff, !Z.leb_le. done. Qed.

Lemma continuation_high c : continuation c = true -> 128 <= byte_val c.
Proof. intros [H _]%in_range_spec. done. Qed.

Lemma rune_size_tail c r n :
  128 <= byte_val c -> rune_size (c :: r) = Some n ->
  (n - 1 <= length r)%nat /\ Forall (fun d => 128 <= byte_val d) (take (n - 1) r).
Proof.
  intros Hc. cbn [rune_size]. rewrite (proj2 (Z.ltb_ge _ _) Hc).
  destruct (in_range 194 223 c).
  { destruct r as [|c1 r]; [done|]. destruct (continuation c1) eqn:H1; [|done]. intros [= <-].
    cbn. split; [lia|]. rewrite take_0. auto using continuation_high. }
  destruct (in_range 224 239 c).
  { destruct r as [|c1 [|c2 r]]; try done. case_match eqn:Hr; [|done]. intros [= <-].
    apply andb_true_iff in Hr as [[H1 _]%in_range_spec H2%continuation_high].
    cbn. split; [lia|]. rewrite take_0. repeat constructor; [|done]. destruct (_ =? 224); lia. }
  destruct (in_range 240 244 c); [|done].
  destruct r as [|c1 [|c2 [|c3 r]]]; try done. case_match eqn:Hr; [|done]. intros [= <-].
  apply andb_true_iff in Hr as [[[H1 _]%in_range_spec H2%continuation_high]%andb_true_iff H3%continuation_high].
  cbn. split; [lia|]. rewrite take_0. repeat constructor; [|done|done]. destruct (_ =? 240); lia.
Qed.

Lemma separator_rune_spec c r d :
  separator_rune (c :: r) = Some d ->
  exists e r', r = byte_of 128 :: e :: r' /\ c = byte_of 226 /\ (d = 8 /\ e = byte_of 168 \/ d = 9 /\ e = byte_of 169).
Proof.
  destruct r as [|b [|e r]]; try done. cbn [separator_rune]. case_match eqn:Hs; [|done]. intros [= <-].
  apply andb_true_iff in Hs as [[Ha%Z.eqb_eq Hb%Z.eqb_eq]%andb_true_iff He%in_range_spec].
  exists e, r. rewrite <- (byte_of_val b), <- (byte_of_val c), Ha, Hb. split; [done|]. split; [done|].
  rewrite <- (byte_of_val e).
  assert (byte_val e = 168 \/ byte_val e = 169) as [->| ->] by lia; [left|right]; done.
Qed.

Lemma unescape_escaped n l k r :
  (length l <= n)%nat -> (k <= length l)%nat -> Forall (fun d => 128 <= byte_val d) (take k l) ->
  valid_from k l = true -> unescape (escaped k l ++ quote_char :: r) = Some (l, r).
Proof.
  revert l k. induction n as [|n IH]; intros [|c l] k Hn Hk Hhigh Hv; cbn in Hn; try lia; try done.
  cbn [escaped valid_from] in *. destruct k as [|k].
  2: { apply Forall_cons in Hhigh as [Hc Hhigh]. cbn [app]. rewrite unescape_high by done.
       rewrite IH; [done|lia|cbn in Hk; lia|done|done]. }
  destruct (Z.ltb_spec (byte_val c) 128) as [Hc|Hc].
  { rewrite <- app_assoc, unescape_escape by done.
    assert (rune_size (c :: l) = Some 1%nat) as Hs by (cbn [rune_size]; by rewrite (proj2 (Z.ltb_lt _ _) Hc)).
    rewrite Hs in Hv. rewrite IH; [done|lia|lia|constructor|done]. }
  destruct (rune_size (c :: l)) as [m|] eqn:Hs; [|done].
  destruct (rune_size_tail c l m Hc Hs) as [Hlen Hcont].
  destruct (separator_rune (c :: l)) as [d|] eqn:Hd.
  2: { cbn [app]. rewrite unescape_high by done. rewrite IH; [done|lia|lia|done|done]. }
  apply separator_rune_spec in Hd as (e & r' & -> & -> & He).
  assert (m = 3%nat) as -> by (destruct He as [[-> ->]|[-> ->]]; vm_compute in Hs; congruence).
  cbn [valid_from] in Hv. cbn [app length] in *.
  destruct He as [[-> ->]|[-> ->]]; cbn; rewrite IH; try done; try lia; constructor.
Qed.

Lemma quoted_unique s t r1 r2 :
  utf8_Valid s = true -> utf8_Valid t = true -> quoted s ++ r1 = quoted t ++ r2 -> s = t /\ r1 = r2.
Proof.
  unfold quoted. cbn [app]. rewrite <- !app_assoc. intros Hs Ht [= Heq]. cbn [app] in Heq.
  assert (Some (bytes_of s, r1) = Some (bytes_of t, r2)) as [= H1 H2].
  { rewrite <- (unescape_escaped (length (bytes_of s)) (bytes_of s) 0 r1),
      <- (unescape_escaped (length (bytes_of t)) (bytes_of t) 0 r2); try lia; try done; try constructor.
    by rewrite Heq. }
  split; [|done]. by apply list_ascii_inj.
Qed.

(** * The text determines the value *)

(** The characters of a number, and a text that does not continue one. *)
Definition number_char (c : ascii) : bool := in_range 48 57 c || (byte_val c =? 45).

Definition stops (r : list ascii) : Prop :=
  match r with [] => True | c :: _ => number_char c = false end.

Lemma pretty_N_go_chars x s :
  Forall (fun c => number_char c = true) (bytes_of s) ->
  Forall (fun c => number_char c = true) (bytes_of (pretty.pretty_N_go x s)).
Proof.
  revert s. induction (N.lt_wf_0 x) as [x _ IH]; intros s Hs.
  destruct (decide (x = 0)%N) as [->|]; [by rewrite pretty.pretty_N_go_0|].
  rewrite pretty.pretty_N_go_step by lia. apply IH; [apply N.div_lt; lia|].
  constructor; [|done]. unfold pretty.pretty_N_char. by repeat case_match.
Qed.

Lemma pretty_pos_chars (p : positive) :
  Forall (fun c => number_char c = true) (bytes_of (pretty.pretty p)).
Proof.
  change (pretty.pretty p) with (pretty.pretty_N_go (Npos p) "").
  apply pretty_N_go_chars. constructor.
Qed.

Lemma Itoa_chars n : Forall (fun c => number_char c = true) (bytes_of (Itoa n)).
Proof.
  destruct n as [|p|p]; [repeat constructor|apply pretty_pos_chars|].
  constructor; [done|]. apply (pretty_pos_chars p).
Qed.

Lemma Itoa_head n : exists c l, bytes_of (Itoa n) = c :: l /\ number_char c = true.
Proof.
  pose proof (Itoa_chars n) as Hc. pose proof (Itoa_nonempty n) as Hne. destruct (Itoa n) as [|c l]; [done|].
  exists c, (bytes_of l). split; [done|]. by apply Forall_cons in Hc as [].
Qed.

(** A run of characters that all have a property ends where it fails. *)
Lemma span_unique (P : ascii -> bool) l1 l2 r1 r2 :
  Forall (fun c => P c = true) l1 -> Forall (fun c => P c = true) l2 ->
  match r1 with [] => True | c :: _ => P c = false end ->
  match r2 with [] => True | c :: _ => P c = false end ->
  l1 ++ r1 = l2 ++ r2 -> l1 = l2 /\ r1 = r2.
Proof.
  revert l2. induction l1 as [|c l1 IH]; intros [|d l2] H1 H2 Hr1 Hr2; cbn.
  - done.
  - intros ->. apply Forall_cons in H2 as [H2 _]. congruence.
  - intros <-. apply Forall_cons in H1 as [H1 _]. congruence.
  - apply Forall_cons in H1 as [_ H1]. apply Forall_cons in H2 as [_ H2].
    intros [= -> Heq]. by destruct (IH l2 H1 H2 Hr1 Hr2 Heq) as [-> ->].
Qed.

Lemma Itoa_unique n m r1 r2 :
  stops r1 -> stops r2 -> bytes_of (Itoa n) ++ r1 = bytes_of (Itoa m) ++ r2 -> n = m /\ r1 = r2.
Proof.
  intros H1 H2 [Heq ->]%(span_unique number_char); try apply Itoa_chars; [|done|done].
  split; [|done]. apply list_ascii_inj in Heq. by apply (inj pretty.pretty) in Heq.
Qed.

Section items.
Context {A : Type} (f : A -> list ascii) (close : ascii).
Hypothesis close_stops : number_char close = false /\ close <> ","%char.

Definition reads_as (a b : A) : Prop :=
  forall r s, stops r -> stops s -> f a ++ r = f b ++ s -> a = b /\ r = s.

Lemma rest_stops (l : list A) r : stops ((l ≫= fun y => ","%char :: f y) ++ close :: r).
Proof. destruct l; cbn; [apply close_stops|done]. Qed.

Lemma more_items_unique l1 l2 r s :
  (forall a b, a ∈ l1 -> b ∈ l2 -> reads_as a b) ->
  (l1 ≫= fun y => ","%char :: f y) ++ close :: r = (l2 ≫= fun y => ","%char :: f y) ++ close :: s ->
  l1 = l2 /\ r = s.
Proof.
  destruct close_stops as [_ Hclose].
  revert l2. induction l1 as [|a l1 IH]; intros [|b l2] Hu; cbn.
  - by intros [= ->].
  - intros [= Hc _]. by destruct Hclose.
  - intros [= Hc _]. by destruct Hclose.
  - rewrite <- !app_assoc. intros [= Heq].
    apply Hu in Heq as [-> Heq]; try apply rest_stops; try by left.
    apply IH in Heq as [-> ->]; [done|]. intros x y Hx Hy. apply Hu; by right.
Qed.

Lemma items_unique l1 l2 r s :
  (forall a, a ∈ l1 \/ a ∈ l2 -> head (f a) <> None /\ head (f a) <> Some close) ->
  (forall a b, a ∈ l1 -> b ∈ l2 -> reads_as a b) ->
  commas (f <$> l1) ++ close :: r = commas (f <$> l2) ++ close :: s -> l1 = l2 /\ r = s.
Proof.
  intros Hhead Hu.
  assert (forall a l t u, head (f a) <> None /\ head (f a) <> Some close -> close :: t <> (f a ++ l) ++ u) as Hno.
  { intros a l t u [Hn Hc] Heq. destruct (f a); [done|]. injection Heq as -> _. by destruct Hc. }
  destruct l1 as [|a l1], l2 as [|b l2]; cbn [commas fmap list_fmap app].
  - by intros [= ->].
  - intros Heq. by apply Hno in Heq; [|apply Hhead; right; left].
  - intros Heq. symmetry in Heq. by apply Hno in Heq; [|apply Hhead; left; left].
  - rewrite !list_fmap_bind, <- !app_assoc. intros Heq.
    apply Hu in Heq as [-> Heq]; try apply rest_stops; try by left.
    apply more_items_unique in Heq as [-> ->]; [done|]. intros x y Hx Hy. apply Hu; by right.
Qed.
End items.

(** How a value's text begins: enough to tell the kinds of value apart. *)
Lemma json_text_head j :
  exists c l, json_text j = c :: l /\ c <> "]"%char /\ c <> "}"%char /\
    match j with
    | JNull => c = "n"%char
    | JBool b => c = (if b then "t"%char else "f"%char)
    | JInt _ => number_char c = true
    | JString _ => c = quote_char
    | JArray _ => c = "["%char
    | JObject _ => c = "{"%char
    end.
Proof.
  destruct j as [|[]|n|s|l|l]; cbn [json_text]; try (eexists _, _; split; [done|]; done).
  destruct (Itoa_head n) as (c & t & -> & Hc). exists c, t. split; [done|].
  split; [|split; [|done]]; intros ->; by vm_compute in Hc.
Qed.

Lemma quoted_head k : head (quoted k) = Some quote_char.
Proof. done. Qed.

Lemma length_in_bind {A B} (f : A -> list B) x l : x ∈ l -> (length (f x) <= length (l ≫= f))%nat.
Proof.
  induction l as [|y l IH]; [by intros ?%elem_of_nil|].
  intros [->|Hx]%elem_of_cons; csimpl; rewrite length_app; [lia|]. specialize (IH Hx). lia.
Qed.

Lemma length_in_commas {A} (f : A -> list ascii) x l : x ∈ l -> (length (f x) <= length (commas (f <$> l)))%nat.
Proof.
  destruct l as [|y l]; [by intros ?%elem_of_nil|]. cbn [fmap list_fmap commas]. rewrite length_app.
  intros [->|Hx]%elem_of_cons; [lia|].
  rewrite list_fmap_bind. pose proof (length_in_bind (fun y => ","%char :: f y) x l Hx) as Hb.
  cbn [length] in Hb. unfold compose. lia.
Qed.

Lemma json_text_unique n j k r s :
  (length (json_text j) <= n)%nat -> json_utf8 j = true -> json_utf8 k = true -> stops r -> stops s ->
  json_text j ++ r = json_text k ++ s -> j = k /\ r = s.
Proof.
  revert j k r s. induction n as [|n IH]; intros j k r s Hn Hj Hk Hr Hs Heq;
    destruct (json_text_head j) as (c & t & Hcj & _ & _ & Hkj); rewrite Hcj in Hn; cbn in Hn; [lia|].
  destruct (json_text_head k) as (d & u & Hdk & _ & _ & Hkk).
  assert (c = d) as <- by (rewrite Hcj, Hdk in Heq; by injection Heq).
  destruct j as [|b|z|a|l|l], k as [|b'|z'|a'|l'|l']; subst; try done;
    try (by destruct b); try (by destruct b').
  - by apply app_inv_head in Heq.
  - destruct b, b'; try done; by apply app_inv_head in Heq.
  - by apply Itoa_unique in Heq as [-> ->].
  - by apply quoted_unique in Heq as [-> ->].
  - cbn [json_text app] in Heq. rewrite <- !app_assoc in Heq. injection Heq as Heq.
    apply items_unique in Heq as [-> ->]; [done|done| |].
    { intros x _. destruct (json_text_head x) as (e & v & -> & He & _). cbn. split; congruence. }
    intros x y Hx Hy r' s' Hr' Hs' Heq'. cbn [json_utf8] in Hj, Hk. rewrite forallb_forall in Hj, Hk.
    apply list_elem_of_In in Hy. apply IH in Heq'; auto.
    + cbn [json_text] in Hcj. injection Hcj as <-. rewrite length_app in Hn.
      pose proof (length_in_commas json_text x l Hx). lia.
    + by apply Hj, list_elem_of_In.
  - cbn [json_text app] in Heq. rewrite <- !app_assoc in Heq. injection Heq as Heq.
    apply items_unique in Heq as [-> ->]; [done|done| |].
    { intros [f v] _. by split. }
    intros [f v] [g w] Hx Hy r' s' Hr' Hs' Heq'. cbn [json_utf8] in Hj, Hk. rewrite forallb_forall in Hj, Hk.
    pose proof (length_in_commas (fun '(k, v) => quoted k ++ ":"%char :: json_text v) _ _ Hx) as Hlen.
    apply list_elem_of_In in Hx, Hy. apply Hj, andb_true_iff in Hx as [Hf Hv]. apply Hk, andb_true_iff in Hy as [Hg Hw].
    assert (quoted f ++ ":"%char :: json_text v ++ r' = quoted g ++ ":"%char :: json_text w ++ s') as Hq
      by (revert Heq'; unfold quoted; cbn [app]; by rewrite <- !app_assoc).
    apply quoted_unique in Hq as [-> Hq]; [|done|done]. clear Heq'. rename Hq into Heq'.
    injection Heq' as Heq'. apply IH in Heq' as [-> ->]; auto.
    cbn [json_text] in Hcj. injection Hcj as <-. rewrite length_app in Hn. cbn beta iota in Hlen.
    rewrite length_app in Hlen. unfold quoted in Hlen. cbn [app length] in *. lia.
Qed.

Lemma Marshal_inj j k :
  json_utf8 j = true -> json_utf8 k = true -> Marshal_json j = Marshal_json k -> j = k.
Proof.
  intros Hj Hk Heq%(f_equal String.list_ascii_of_string).
  unfold Marshal_json, string_of in Heq. rewrite !String.list_ascii_of_string_of_list_ascii in Heq.
  apply (json_text_unique (length (json_text j)) j k [] []); try done. by rewrite !app_nil_r.
Qed.
