(* ===== verification/Floatfmt.v ===== *)
(** Decimal text of a [float64]: [strconv.FormatFloat(x, 'g', -1, 64)], the
    form [encoding/json] writes, and [strconv.ParseFloat] of a JSON number.

    The shortest form is found by search: for one digit, two digits, and so
    on, the decimal nearest to the value (or its neighbour on the other side)
    that rounds back to the value. Seventeen digits always do. *)

From S2P Require Import Prelude Float64 Gostrings.
Local Open Scope Z_scope.

(** * Definitions *)

(** [c * 10 ^ k] as a fraction. *)
Definition scaled (c k : Z) : Z * Z := if 0 <=? k then (c * 10 ^ k, 1) else (c, 10 ^ (- k)).

(** The magnitude (in units of [2 ^ -1074]) the decimal [c * 10 ^ k] rounds to. *)
Definition decimal_mag (c k : Z) : Z := let '(n, d) := scaled c k in round_mag (n * one_mag) d.

(** The least [p >= from] with [m / 2 ^ 1074 < 10 ^ p]. *)
Fixpoint decimal_point (fuel : nat) (m from : Z) : Z :=
  match fuel with
  | O => from
  | S fuel =>
      let '(n, d) := scaled 1 from in
      if n * one_mag <=? m * d then decimal_point fuel m (from + 1) else from
  end.

Definition point_of (m : Z) : Z := decimal_point 5 m ((Z.log2 m - ulp_exp) * 30103 / 100000 - 1).

(** An [n]-digit decimal [c * 10 ^ (p - n)] that rounds to [m], if there is one. *)
Definition digits_for (m p : Z) (n : Z) : option Z :=
  let '(a, b) := scaled 1 (n - p) in
  let num := m * a in
  let den := one_mag * b in
  let near := rne num den in
  let other := if near * den <=? num then near + 1 else near - 1 in
  if decimal_mag near (p - n) =? m then Some near
  else if decimal_mag other (p - n) =? m then Some other
  else None.

Fixpoint shortest_from (fuel : nat) (m p n : Z) : Z * Z :=
  match fuel with
  | O => (rne (m * (scaled 1 (n - p)).1) (one_mag * (scaled 1 (n - p)).2), n)
  | S fuel => match digits_for m p n with Some c => (c, n) | None => shortest_from fuel m p (n + 1) end
  end.

(** The digits of [m > 0] and the position of the decimal point: the value is
    0.digits * 10 ^ position. *)
Definition shortest (m : Z) : string * Z :=
  let p := point_of m in
  let '(c, n) := shortest_from 16 m p 1 in
  if c =? 10 ^ n then ("1", p + 1) else (Itoa c, p).

Fixpoint zeros (n : nat) : string := match n with O => "" | S n => String "0" (zeros n) end.

(** %f with as many digits as needed. *)
Definition fmt_f (digits : string) (p : Z) : string :=
  let nd := Z.of_nat (String.length digits) in
  if p <=? 0 then "0." +:+ zeros (Z.to_nat (- p)) +:+ digits
  else if nd <=? p then digits +:+ zeros (Z.to_nat (p - nd))
  else String.substring 0 (Z.to_nat p) digits +:+ "." +:+ String.substring (Z.to_nat p) (Z.to_nat (nd - p)) digits.

(** %e; [pad] is the least number of exponent digits. *)
Definition fmt_e (pad : nat) (digits : string) (p : Z) : string :=
  let e := p - 1 in
  let body := Itoa (Z.abs e) in
  String.substring 0 1 digits
  +:+ (if (String.length digits <=? 1)%nat then "" else "." +:+ String.substring 1 (String.length digits - 1) digits)
  +:+ (if e <? 0 then "e-" else "e+") +:+ zeros (pad - String.length body) +:+ body.

Definition signed (neg : bool) (s : string) : string := if neg then "-" +:+ s else s.

(** [strconv.FormatFloat(x, 'g', -1, 64)]. *)
Definition FormatFloat_g (x : float64) : string :=
  match x with
  | NaN => "NaN"
  | Inf neg => if neg then "-Inf" else "+Inf"
  | Fin neg m =>
      signed neg
        (if m =? 0 then "0"
         else let '(digits, p) := shortest m in
              if (p - 1 <? -4) || (6 <=? p - 1) then fmt_e 2 digits p else fmt_f digits p)
  end.

(** A float as [encoding/json] writes it; NaN and the infinities are refused. *)
Definition json_float (x : float64) : option string :=
  match x with
  | Fin neg m =>
      Some (signed neg
        (if m =? 0 then "0"
         else let '(digits, p) := shortest m in
              if (p - 1 <? -6) || (21 <=? p - 1) then fmt_e 1 digits p else fmt_f digits p))
  | _ => None
  end.

(** The float64 nearest to [(-1) ^ neg * c * 10 ^ k] ([strconv.ParseFloat]);
    [None] when it overflows. *)
Definition parse_decimal (neg : bool) (c k : Z) : option float64 :=
  let m := decimal_mag c k in
  if overflow_mag <=? m then None else Some (Fin neg m).

(** * Checks *)

Definition dec (neg : bool) (c k : Z) : float64 := default NaN (parse_decimal neg c k).

Example format_samples :
  (FormatFloat_g <$> [dec false 1 (-1); dec false 7 (-1); dec true 25 (-2); dec false 123456789 0; dec false 1 6;
                      dec false 100000 0; dec false 1 (-5); dec false 5 (-324); dec false 0 0]) =
  ["0.1"; "0.7"; "-0.25"; "1.23456789e+08"; "1e+06"; "100000"; "1e-05"; "5e-324"; "0"].
Proof. vm_compute. reflexivity. Qed.

Example json_samples :
  (json_float <$> [dec false 1 (-1); dec false 17976931348623157 292; dec false 1 20; dec false 1 21; dec false 15 (-8)]) =
  [Some "0.1"; Some "1.7976931348623157e+308"; Some "100000000000000000000"; Some "1e+21"; Some "1.5e-7"].
Proof. vm_compute. reflexivity. Qed.

Lemma FormatFloat_g_nonempty x : FormatFloat_g x <> "".
Proof.
  destruct x as [|[]|neg m]; try done. unfold FormatFloat_g, signed.
  assert (forall s, s <> "" -> (if neg then "-" +:+ s else s) <> "") as Hsig by (by destruct neg).
  apply Hsig. destruct (m =? 0); [done|]. destruct (shortest m) as [digits p] eqn:Hsh.
  assert (digits <> "") as Hd.
  { revert Hsh. unfold shortest. destruct (shortest_from _ _ _ _). destruct (_ =? _); intros [= <- _]; [discriminate|apply Itoa_nonempty]. }
  destruct digits as [|c digits]; [done|]. destruct (_ || _); [done|].
  unfold fmt_f. destruct (p <=? 0) eqn:Hp; [done|]. destruct (_ <=? p); [done|].
  apply Z.leb_gt in Hp. by destruct (Z.to_nat p) eqn:E; [lia|].
Qed.
