(* ===== verification/Jsonread.v ===== *)
(** Reading JSON text into untyped values, and writing such values: what
    [json.Valid], [json.Decoder] and [json.Marshal] do with an [any]
    ([map[string]any], [[]any], [string], [float64], [bool] or nil). *)

From S2P Require Import Prelude Float64 Floatfmt Gostrings Sha256 Json.
Local Open Scope Z_scope.

(** * Definitions *)

(** ** Values *)

(** A map is kept as its entries in the order of their keys. *)
Inductive any :=
| ANull
| ABool (b : bool)
| ANumber (x : float64)
| AString (s : string)
| AList (l : list any)
| AMap (l : list (string * any)).

Fixpoint set_key {A} (k : string) (v : A) (l : list (string * A)) : list (string * A) :=
  match l with
  | [] => [(k, v)]
  | (k', v') :: r =>
      if String.ltb k k' then (k, v) :: l
      else if String.eqb k k' then (k, v) :: r
      else (k', v') :: set_key k v r
  end.

Definition get_key {A} (k : string) (l : list (string * A)) : option A :=
  snd <$> List.find (fun e => String.eqb e.1 k) l.

(** ** Syntax *)

(** A JSON text; a number is a sign, its digits and a power of ten. *)
Inductive tree :=
| TNull
| TBool (b : bool)
| TNumber (neg : bool) (c k : Z)
| TString (s : string)
| TArray (l : list tree)
| TObject (l : list (string * tree)).

Definition is_space (c : ascii) : bool :=
  (byte_val c =? 32) || (byte_val c =? 9) || (byte_val c =? 10) || (byte_val c =? 13).
Definition is_digit : ascii -> bool := in_range 48 57.

Fixpoint skip_space (l : list ascii) : list ascii :=
  match l with c :: r => if is_space c then skip_space r else l | [] => [] end.

Fixpoint span_digits (l : list ascii) : list ascii * list ascii :=
  match l with
  | c :: r => if is_digit c then let '(d, rest) := span_digits r in (c :: d, rest) else ([], l)
  | [] => ([], [])
  end.

Definition digits_val (l : list ascii) : Z := foldl (fun n c => n * 10 + (byte_val c - 48)) 0 l.

(** The integer part: 0, or digits that do not start with 0. *)
Definition read_int (l : list ascii) : option (list ascii * list ascii) :=
  match l with
  | c :: r =>
      if byte_val c =? 48 then Some ([c], r)
      else match span_digits l with ([], _) => None | p => Some p end
  | [] => None
  end.

Definition read_frac (l : list ascii) : option (list ascii * list ascii) :=
  match l with
  | c :: r =>
      if byte_val c =? 46 then match span_digits r with ([], _) => None | p => Some p end
      else Some ([], l)
  | [] => Some ([], [])
  end.

Definition read_exp (l : list ascii) : option (Z * list ascii) :=
  match l with
  | c :: r =>
      if (byte_val c =? 101) || (byte_val c =? 69) then
        let '(sign, r') :=
          match r with
          | s :: r1 => if byte_val s =? 45 then (-1, r1) else if byte_val s =? 43 then (1, r1) else (1, r)
          | [] => (1, r)
          end in
        match span_digits r' with ([], _) => None | (d, rest) => Some (sign * digits_val d, rest) end
      else Some (0, l)
  | [] => Some (0, [])
  end.

Definition read_number_text (l : list ascii) : option (tree * list ascii) :=
  let '(neg, l0) := match l with c :: r => if byte_val c =? 45 then (true, r) else (false, l) | [] => (false, l) end in
  '(i, l1) ← read_int l0;
  '(f, l2) ← read_frac l1;
  '(e, l3) ← read_exp l2;
  Some (TNumber neg (digits_val (i ++ f)) (e - Z.of_nat (length f)), l3).

(** ** String literals *)

Definition hex_of (c : ascii) : option Z :=
  if is_digit c then Some (byte_val c - 48)
  else if in_range 97 102 c then Some (byte_val c - 87)
  else if in_range 65 70 c then Some (byte_val c - 55)
  else None.

Definition read_u4 (l : list ascii) : option (Z * list ascii) :=
  match l with
  | a :: b :: c :: d :: r =>
      a ← hex_of a; b ← hex_of b; c ← hex_of c; d ← hex_of d;
      Some (4096 * a + 256 * b + 16 * c + d, r)
  | _ => None
  end.

(** [utf8.AppendRune]; a surrogate is written as the replacement character. *)
Definition utf8_encode (n : Z) : list ascii :=
  byte_of <$>
    (if n <? 128 then [n]
     else if n <? 2048 then [192 + n / 64; 128 + n mod 64]
     else if (55296 <=? n) && (n <=? 57343) then [239; 191; 189]
     else if n <? 65536 then [224 + n / 4096; 128 + n / 64 mod 64; 128 + n mod 64]
     else [240 + n / 262144; 128 + n / 4096 mod 64; 128 + n / 64 mod 64; 128 + n mod 64]).

(** The second half of a surrogate pair that starts with [hi]. *)
Definition low_surrogate (hi : Z) (l : list ascii) : option (Z * list ascii) :=
  if negb ((55296 <=? hi) && (hi <=? 56319)) then None
  else
    match l with
    | a :: b :: r =>
        if (a =? backslash)%char && (b =? "u")%char then
          '(lo, r') ← read_u4 r;
          if (56320 <=? lo) && (lo <=? 57343) then Some (65536 + (hi - 55296) * 1024 + (lo - 56320), r') else None
        else None
    | _ => None
    end.

(** The body of a string literal up to its closing quote, unquoted. *)
Fixpoint read_string (fuel : nat) (l : list ascii) : option (list ascii * list ascii) :=
  match fuel, l with
  | O, _ | _, [] => None
  | S fuel, c :: r =>
      let v := byte_val c in
      let cont (p rest : list ascii) := '(s, rest') ← read_string fuel rest; Some (p ++ s, rest') in
      if v =? 34 then Some ([], r)
      else if v <? 32 then None
      else if v =? 92 then
        match r with
        | e :: r1 =>
            if (e =? "u")%char then
              '(n, r2) ← read_u4 r1;
              match low_surrogate n r2 with
              | Some (m, r3) => cont (utf8_encode m) r3
              | None => cont (utf8_encode n) r2
              end
            else if (byte_val e =? 34) || (byte_val e =? 92) || (e =? "/")%char then cont [e] r1
            else if (e =? "b")%char then cont [byte_of 8] r1
            else if (e =? "f")%char then cont [byte_of 12] r1
            else if (e =? "n")%char then cont [byte_of 10] r1
            else if (e =? "r")%char then cont [byte_of 13] r1
            else if (e =? "t")%char then cont [byte_of 9] r1
            else None
        | [] => None
        end
      else
        match rune_size l with
        | Some n => cont (take n l) (drop n l)
        | None => cont [byte_of 239; byte_of 191; byte_of 189] r
        end
  end.

(** ** Texts *)

Definition maxNestingDepth : Z := 10000.

Fixpoint parse_value (fuel : nat) (depth : Z) (l : list ascii) : option (tree * list ascii) :=
  match fuel with
  | O => None
  | S fuel =>
      match skip_space l with
      | [] => None
      | c :: r =>
          if byte_val c =? 34 then
            '(s, r') ← read_string (length r) r; Some (TString (string_of s), r')
          else if (c =? "{")%char then
            if maxNestingDepth <=? depth then None
            else
              match skip_space r with
              | d :: r' =>
                  if (d =? "}")%char then Some (TObject [], r')
                  else
                    '(m, r'') ←
                      (fix members (n : nat) (l : list ascii) : option (list (string * tree) * list ascii) :=
                         match n, skip_space l with
                         | S n, q :: l0 =>
                             if byte_val q =? 34 then
                               '(k, l1) ← read_string (length l0) l0;
                               match skip_space l1 with
                               | colon :: l2 =>
                                   if (colon =? ":")%char then
                                     '(v, l3) ← parse_value fuel (depth + 1) l2;
                                     match skip_space l3 with
                                     | e :: l4 =>
                                         if (e =? "}")%char then Some ([(string_of k, v)], l4)
                                         else if (e =? ",")%char then
                                           '(m, l5) ← members n l4; Some ((string_of k, v) :: m, l5)
                                         else None
                                     | [] => None
                                     end
                                   else None
                               | [] => None
                               end
                             else None
                         | _, _ => None
                         end) (length r) r;
                    Some (TObject m, r'')
              | [] => None
              end
          else if (c =? "[")%char then
            if maxNestingDepth <=? depth then None
            else
              match skip_space r with
              | d :: r' =>
                  if (d =? "]")%char then Some (TArray [], r')
                  else
                    '(m, r'') ←
                      (fix items (n : nat) (l : list ascii) : option (list tree * list ascii) :=
                         match n with
                         | O => None
                         | S n =>
                             '(v, l1) ← parse_value fuel (depth + 1) l;
                             match skip_space l1 with
                             | e :: l2 =>
                                 if (e =? "]")%char then Some ([v], l2)
                                 else if (e =? ",")%char then '(m, l3) ← items n l2; Some (v :: m, l3)
                                 else None
                             | [] => None
                             end
                         end) (length r) r;
                    Some (TArray m, r'')
              | [] => None
              end
          else if (byte_val c =? 45) || is_digit c then read_number_text (c :: r)
          else
            match strip_prefix (lit "null") (c :: r), strip_prefix (lit "true") (c :: r), strip_prefix (lit "false") (c :: r) with
            | Some r', _, _ => Some (TNull, r')
            | _, Some r', _ => Some (TBool true, r')
            | _, _, Some r' => Some (TBool false, r')
            | _, _, _ => None
            end
      end
  end.

(** One JSON value and nothing else but white space. *)
Definition parse_text (s : string) : option tree :=
  '(t, r) ← parse_value (S (String.length s)) 0 (bytes_of s);
  match skip_space r with [] => Some t | _ => None end.

(** [json.Valid]. *)
Definition json_Valid (s : string) : bool := match parse_text s with Some _ => true | None => false end.

(** The value an [any] receives; a number out of range is an error, and of
    two members with the same key the later one wins. *)
Fixpoint tree_any (t : tree) : option any :=
  match t with
  | TNull => Some ANull
  | TBool b => Some (ABool b)
  | TNumber neg c k => ANumber <$> parse_decimal neg c k
  | TString s => Some (AString s)
  | TArray l => AList <$> foldr (fun t acc => v ← tree_any t; vs ← acc; Some (v :: vs)) (Some []) l
  | TObject l =>
      AMap <$> foldl (fun acc '(k, t) => vs ← acc; v ← tree_any t; Some (set_key k v vs)) (Some []) l
  end.

(** Decoding a text that must hold exactly one object into a [map[string]any]. *)
Definition decode_object (s : string) : option (list (string * any)) :=
  t ← parse_text s; v ← tree_any t;
  match v with AMap m => Some m | _ => None end.

(** [json.Marshal] of an [any]. *)
Fixpoint any_text (a : any) : option (list ascii) :=
  match a with
  | ANull => Some (lit "null")
  | ABool b => Some (lit (if b then "true" else "false"))
  | ANumber x => bytes_of <$> json_float x
  | AString s => Some (quoted s)
  | AList l =>
      texts ← foldr (fun a acc => t ← any_text a; ts ← acc; Some (t :: ts)) (Some []) l;
      Some ("["%char :: commas texts ++ ["]"%char])
  | AMap l =>
      texts ← foldr (fun '(k, a) acc => t ← any_text a; ts ← acc; Some ((quoted k ++ ":"%char :: t) :: ts)) (Some []) l;
      Some ("{"%char :: commas texts ++ ["}"%char])
  end.

Definition Marshal_any (a : any) : option string := string_of <$> any_text a.

(** * Checks *)

Definition with_quotes (s : string) : string :=
  string_of (bytes_of s ≫= fun c => if (c =? "'")%char then [quote_char] else [c]).

Example read_write :
  decode_object (with_quotes " {'b': [1e2, -0.5, true, null], 'a':'x\u0041\ud83d\ude00', 'b' : {} , 'c':[ ] } ") =
  Some [("a", AString ("xA" +:+ string_of (utf8_encode 128512))); ("b", AMap []); ("c", AList [])] /\
  (decode_object (with_quotes "{'z':[1e2,-0.5],'a':'<'}") ≫= Marshal_any ∘ AMap) =
    Some (with_quotes "{'a':'\u003c','z':[100,-0.5]}") /\
  decode_object "null" = None /\ decode_object (with_quotes "{'a':1} x") = None /\
  decode_object (with_quotes "{'a':01}") = None /\ decode_object (with_quotes "{'a':1e999}") = None /\
  json_Valid (with_quotes "{'a':1e999}") = true.
Proof. vm_compute. split_and!; reflexivity. Qed.
