(* ===== verification/Errors.v ===== *)
(** Go errors as [errors.Is] sees them.

    The code tells errors apart only by the sentinels they wrap, so an error
    is the list of the sentinels in its tree: [fmt.Errorf("%w: %w", a, b)] and
    [errors.Join] wrap those of both. The text of errors is left out. *)

From S2P Require Import Prelude.

(** * Definitions *)

Definition sentinel : Type := string.
Definition error : Type := list sentinel.

(** [errors.Is]. *)
Definition Is (e : error) (s : sentinel) : bool := bool_decide (s ∈ e).

(** A call that returns only an [error]: [None] is nil. *)
Definition failure : Type := option error.

(** * Facts *)

Lemma Is_spec e s : Is e s = true <-> s ∈ e.
Proof. apply bool_decide_eq_true. Qed.

Lemma Is_app e1 e2 s : Is (e1 ++ e2) s = Is e1 s || Is e2 s.
Proof.
  unfold Is. apply eq_bool_prop_intro. rewrite orb_True, !bool_decide_spec. apply elem_of_app.
Qed.

Create Rewrite HintDb errors.
#[export] Hint Rewrite Is_app : errors.
