(* ===== verification/Effects.v ===== *)
(** Programs that call the outside.

    A program of type [M E A] is given the calls made so far (a history of
    effects, latest last) and returns its value and the longer history. What
    a call returns is a function of the history, so a theorem over every such
    function holds for every behaviour of the outside, including what other
    programs running at the same time do to it. *)

From S2P Require Import Prelude.

(** * Definitions *)

Definition M (E A : Type) : Type := list E -> A * list E.

#[export] Instance M_ret E : MRet (M E) := fun A a h => (a, h).
#[export] Instance M_bind E : MBind (M E) := fun A B f m h => let '(a, h') := m h in f a h'.

(** Make the call [e]; [answer] is what it returns. *)
Definition perform {E A} (e : E) (answer : list E -> A) : M E A := fun h => (answer h, h ++ [e]).
Definition emit {E} (e : E) : M E unit := perform e (fun _ => tt).

(** Read the outside without a call worth recording. *)
Definition ask {E A} (answer : list E -> A) : M E A := fun h => (answer h, h).

(** [for _, x := range l { a = f(a, x) }] *)
Fixpoint foldM {E A B} (f : A -> B -> M E A) (l : list B) (a : A) : M E A :=
  match l with
  | [] => mret a
  | x :: l => a ← f a x; foldM f l a
  end.

(** * Traces *)

Section traces.
Context {E : Type}.

(** Every call of [log], made after [h], is allowed where it is made. *)
Fixpoint allowed (P : list E -> E -> Prop) (h log : list E) : Prop :=
  match log with
  | [] => True
  | e :: log => P h e /\ allowed P (h ++ [e]) log
  end.

Lemma allowed_app P h l1 l2 : allowed P h (l1 ++ l2) <-> allowed P h l1 /\ allowed P (h ++ l1) l2.
Proof.
  revert h. induction l1 as [|e l1 IH]; intros h; cbn; [by rewrite app_nil_r; intuition|].
  rewrite IH, <- app_assoc. cbn. intuition.
Qed.

Lemma allowed_elem P h log e : allowed P h log -> e ∈ log -> exists h1 h2, log = h1 ++ e :: h2 /\ P (h ++ h1) e.
Proof.
  intros Ha (h1 & h2 & ->)%list_elem_of_split. exists h1, h2. split; [done|].
  apply allowed_app in Ha as [_ [He _]]. done.
Qed.

Lemma allowed_impl (P Q : list E -> E -> Prop) h log :
  (forall h e, P h e -> Q h e) -> allowed P h log -> allowed Q h log.
Proof. intros HPQ. revert h. induction log as [|e log IH]; intros h; cbn; [done|]. intros [He Hl]. eauto. Qed.

(** From a history that satisfies [pre], [m] makes only allowed calls and its
    value and the history it leaves satisfy [post]. *)
Definition hoare {A} (P : list E -> E -> Prop) (pre : list E -> Prop) (m : M E A) (post : A -> list E -> Prop) : Prop :=
  forall h, pre h -> exists log, (m h).2 = h ++ log /\ allowed P h log /\ post (m h).1 (h ++ log).

Lemma hoare_ret {A} P (pre : list E -> Prop) (a : A) (post : A -> list E -> Prop) :
  (forall h, pre h -> post a h) -> hoare P pre (mret a) post.
Proof. intros Hp h Hh. exists []. rewrite app_nil_r. cbn. auto. Qed.

Lemma hoare_ask {A} P pre (f : list E -> A) (post : A -> list E -> Prop) :
  (forall h, pre h -> post (f h) h) -> hoare P pre (ask f) post.
Proof. intros Hp h Hh. exists []. rewrite app_nil_r. cbn. auto. Qed.

Lemma hoare_perform {A} P pre e (f : list E -> A) (post : A -> list E -> Prop) :
  (forall h, pre h -> P h e /\ post (f h) (h ++ [e])) -> hoare P pre (perform e f) post.
Proof. intros Hp h Hh. exists [e]. destruct (Hp h Hh). cbn. auto. Qed.

Lemma hoare_emit P pre e (post : unit -> list E -> Prop) :
  (forall h, pre h -> P h e /\ post tt (h ++ [e])) -> hoare P pre (emit e) post.
Proof. apply hoare_perform. Qed.

Lemma hoare_bind {A B} P pre (m : M E A) (f : A -> M E B) mid post :
  hoare P pre m mid -> (forall a, hoare P (mid a) (f a) post) -> hoare P pre (m ≫= f) post.
Proof.
  intros Hm Hf h Hh. destruct (Hm h Hh) as (l1 & E1 & A1 & M1).
  destruct (Hf (m h).1 (h ++ l1) M1) as (l2 & E2 & A2 & M2).
  exists (l1 ++ l2). unfold mbind, M_bind. destruct (m h) as [a h1]. cbn in *. subst h1.
  rewrite app_assoc. split_and!; [done| |done]. by apply allowed_app.
Qed.

Lemma hoare_conseq {A} P (pre pre' : list E -> Prop) (m : M E A) (post post' : A -> list E -> Prop) :
  hoare P pre m post -> (forall h, pre' h -> pre h) -> (forall a h, post a h -> post' a h) -> hoare P pre' m post'.
Proof. intros Hm Hpre Hpost h Hh. destruct (Hm h (Hpre h Hh)) as (log & ? & ? & ?). exists log. auto. Qed.

Lemma hoare_pure {A} P (phi : Prop) pre (m : M E A) post :
  (phi -> hoare P pre m post) -> hoare P (fun h => phi /\ pre h) m post.
Proof. intros Hm h [Hphi Hh]. by apply Hm. Qed.

(** A loop whose body keeps an invariant of the accumulator. *)
Lemma hoare_foldM {A B} P (f : A -> B -> M E A) l a (I : A -> list E -> Prop) :
  (forall a x, x ∈ l -> hoare P (I a) (f a x) I) -> hoare P (I a) (foldM f l a) I.
Proof.
  revert a. induction l as [|x l IH]; intros a Hf; cbn; [by apply hoare_ret|].
  eapply hoare_bind; [apply Hf; left|]. intros b. apply IH. intros c y Hy. apply Hf. by right.
Qed.

(** What [f] picks out of each call, in order. *)
Fixpoint picked {B} (f : list E -> E -> list B) (h log : list E) : list B :=
  match log with
  | [] => []
  | e :: log => f h e ++ picked f (h ++ [e]) log
  end.

Lemma picked_app {B} (f : list E -> E -> list B) h l1 l2 :
  picked f h (l1 ++ l2) = picked f h l1 ++ picked f (h ++ l1) l2.
Proof.
  revert h. induction l1 as [|e l1 IH]; intros h; cbn; [by rewrite app_nil_r|].
  by rewrite IH, <- !app_assoc.
Qed.

Lemma picked_snoc {B} (f : list E -> E -> list B) h log e :
  picked f h (log ++ [e]) = picked f h log ++ f (h ++ log) e.
Proof. rewrite picked_app. cbn. by rewrite app_nil_r. Qed.

(** ** Values a program can return *)

Definition returns {A} (m : M E A) (Q : A -> Prop) : Prop := forall h, Q (m h).1.

Lemma returns_bind {A B} (m : M E A) (f : A -> M E B) (P : A -> Prop) (Q : B -> Prop) :
  returns m P -> (forall a, P a -> returns (f a) Q) -> returns (m ≫= f) Q.
Proof.
  intros Hm Hf h. specialize (Hm h). unfold mbind, M_bind. destruct (m h) as [a h1]. by apply Hf.
Qed.

Lemma returns_any {A} (m : M E A) : returns m (fun _ => True).
Proof. done. Qed.

Lemma returns_ret {A} (a : A) (Q : A -> Prop) : Q a -> returns (mret a) Q.
Proof. by intros HQ h. Qed.

Lemma returns_perform {A} e (f : list E -> A) (Q : A -> Prop) : (forall h, Q (f h)) -> returns (perform e f) Q.
Proof. intros HQ h. apply HQ. Qed.

Lemma returns_foldM {A B} (f : A -> B -> M E A) l a (I : A -> Prop) :
  I a -> (forall a x, I a -> returns (f a x) I) -> returns (foldM f l a) I.
Proof.
  intros Ha Hf. revert a Ha. induction l as [|x l IH]; intros a Ha; cbn; [by apply returns_ret|].
  eapply returns_bind; [by apply Hf|]. intros b. apply IH.
Qed.
End traces.

(** Step over a call whose answer may be anything. *)
Ltac run_step := eapply returns_bind; [apply returns_any|intros ? _].
