(* ===== verification/Tenant.v ===== *)
(** Tenant identity: [pkg/tenant/validate.go], [pkg/tenant/context.go] and the
    graph name [pkg/graphdb/agedriver/client.go] derives from a tenant ID.

    A context is modelled by the two values the package stores in it. *)

From S2P Require Import Prelude Regexp.

(** * Definitions *)

Inductive tenant_error :=
| ErrInvalidTenant (id : string)
| ErrNoTenant.

(** [tenantIDPattern]: [^[a-z][a-z0-9-]{1,50}[a-z0-9]$] *)
Definition tenantIDPattern : regex :=
  RSeq (RClass is_lower)
    (RSeq (RRep 1 50 (RClass (fun c => is_lower c || is_digit c || is_char "-" c)))
      (RClass (fun c => is_lower c || is_digit c))).

Definition ValidateTenantID (id : string) : result tenant_error unit :=
  if bool_decide (id = "") then Err (ErrInvalidTenant id)
  else if match_string tenantIDPattern id then Ok tt
  else Err (ErrInvalidTenant id).

Record context := mkContext { ctx_tenant : option string; ctx_user : option string }.

Definition Background : context := mkContext None None.

(** On a malformed ID the original context comes back with the error. *)
Definition WithTenant (ctx : context) (tenantID : string) : context * option tenant_error :=
  match ValidateTenantID tenantID with
  | Err e => (ctx, Some e)
  | Ok _ => (mkContext (Some tenantID) (ctx_user ctx), None)
  end.

Definition FromContext (ctx : context) : result tenant_error string :=
  match ctx_tenant ctx with
  | None => Err ErrNoTenant
  | Some v => if bool_decide (v = "") then Err ErrNoTenant else Ok v
  end.

Definition WithUser (ctx : context) (userID : string) : context :=
  if bool_decide (userID = "") then ctx else mkContext (ctx_tenant ctx) (Some userID).

Definition UserFromContext (ctx : context) : string := default "" (ctx_user ctx).

(** [graphName]: the Apache AGE graph of a tenant. *)
Definition graphName (tenant : string) : string := "crosscodex_" +:+ tenant.

(** PostgreSQL's identifier limit (NAMEDATALEN-1): longer names are cut. *)
Definition pg_identifier (s : string) : string := String.substring 0 63 s.

(** * Lemmas *)

(** [IDRule], in the words of the error message. *)
Record id_rule (l : list ascii) : Prop := {
  ir_length : 3 <= length l <= 52;
  ir_chars : Forall (fun c => is_lower c || is_digit c || is_char "-" c = true) l;
  ir_first : exists c, head l = Some c /\ is_lower c = true;
  ir_last : last l <> Some "-"%char;
}.

Lemma valid_last_iff c :
  (is_lower c || is_digit c || is_char "-" c) = true ->
  (is_lower c || is_digit c) = true <-> c <> "-"%char.
Proof.
  intros H. unfold is_char in H. case_bool_decide as E.
  - subst c. split; [by vm_compute|done].
  - rewrite orb_false_r in H. naive_solver.
Qed.

Lemma tenantIDPattern_rule l : re_matches tenantIDPattern l = true <-> id_rule l.
Proof.
  unfold tenantIDPattern. rewrite re_matches_spec, !re_spec_seq.
  setoid_rewrite re_spec_seq. setoid_rewrite re_spec_rep; [|lia]. setoid_rewrite re_spec_class.
  split.
  - intros (? & ? & -> & (c & -> & Hc) & mid & ? & -> & [Hlen Hmid] & e & -> & He).
    split; simpl; rewrite ?length_app; simpl; [lia| |eauto|].
    + constructor; [by rewrite Hc|]. apply Forall_app. split; [done|]. constructor; [|done].
      by rewrite He.
    + rewrite app_comm_cons, last_snoc. intros [= ->]. by vm_compute in He.
  - intros [Hlen Hch (c & Hhd & Hc) Hlast]. destruct l as [|c' l]; simplify_eq/=.
    destruct l as [|e mid _] using rev_ind; [simpl in Hlen; lia|].
    rewrite app_comm_cons, last_snoc in Hlast. rewrite length_app in Hlen; simpl in Hlen.
    inversion Hch as [|? ? _ Hrest]; subst. apply Forall_app in Hrest as [Hmid He].
    inversion He; subst. exists [c], (mid ++ [e]). repeat split; eauto.
    exists mid, [e]. split; [done|]. split; [split; [lia|done]|]. exists e. split; [done|].
    apply valid_last_iff; [done|congruence].
Qed.

Lemma ValidateTenantID_ok id :
  ValidateTenantID id = Ok tt <-> id_rule (String.list_ascii_of_string id).
Proof.
  unfold ValidateTenantID, match_string. case_bool_decide as E.
  - subst id. split; [done|]. intros [H _ _ _]. simpl in H. lia.
  - rewrite <- tenantIDPattern_rule. destruct (re_matches _ _); naive_solver.
Qed.

Lemma ValidateTenantID_char id c :
  ValidateTenantID id = Ok tt -> c ∈ String.list_ascii_of_string id ->
  (is_lower c || is_digit c || is_char "-" c) = true.
Proof.
  intros [_ Hch _ _]%ValidateTenantID_ok Hc. rewrite Forall_forall in Hch. by apply Hch.
Qed.

Lemma ValidateTenantID_nonempty id : ValidateTenantID id = Ok tt -> id <> "".
Proof. intros H ->. by vm_compute in H. Qed.

#[export] Hint Resolve ValidateTenantID_nonempty : strings.

(** * Properties *)

(** [ValidateTenantID] accepts exactly the IDs its error message describes
    (3-52 characters, lowercase letters, digits and hyphens, starting with a
    letter and not ending with a hyphen); consequently two valid tenants never
    share an Apache AGE graph, even after PostgreSQL cuts the graph name at 63
    bytes. *)
Theorem ValidateTenantID_rule (t1 t2 : string) :
  (ValidateTenantID t1 = Ok tt <-> id_rule (String.list_ascii_of_string t1)) /\
  (ValidateTenantID t1 = Ok tt -> ValidateTenantID t2 = Ok tt ->
   pg_identifier (graphName t1) = pg_identifier (graphName t2) -> t1 = t2).
Proof.
  split; [apply ValidateTenantID_ok|].
  intros H1%ValidateTenantID_ok H2%ValidateTenantID_ok. unfold pg_identifier.
  destruct H1 as [Hl1 _ _ _], H2 as [Hl2 _ _ _]. rewrite length_list_ascii in *.
  rewrite !substring_all by (unfold graphName; rewrite string_length_app; simpl; lia).
  unfold graphName. by intros ?%(inj (String.append _)).
Qed.

(** A tenant ID can only be read back from a context when [WithTenant]
    accepted it: storing a valid ID makes [FromContext] return it and leaves
    the user alone; storing an invalid one returns the error and the context
    unchanged; and setting the user never changes the tenant. *)
Theorem tenant_context_roundtrip (ctx : context) (id user : string) :
  match WithTenant ctx id with
  | (ctx', None) => ValidateTenantID id = Ok tt /\ FromContext ctx' = Ok id /\
      UserFromContext ctx' = UserFromContext ctx
  | (ctx', Some e) => ctx' = ctx /\ e = ErrInvalidTenant id /\ ValidateTenantID id <> Ok tt
  end /\
  FromContext (WithUser ctx user) = FromContext ctx.
Proof.
  split; [|unfold WithUser; by case_bool_decide].
  unfold WithTenant. destruct (ValidateTenantID id) as [[]|e] eqn:E.
  - split; [done|]. split; [|done]. unfold FromContext; simpl.
    case_bool_decide as Hid; [|done]. by apply ValidateTenantID_nonempty in E.
  - split; [done|]. split; [|done]. unfold ValidateTenantID in E.
    repeat case_match; naive_solver.
Qed.

(** * Witnesses *)

Lemma ValidateTenantID_rule_witness :
  ValidateTenantID "acme-corp" = Ok tt /\
  (pg_identifier (graphName "acme-corp") = pg_identifier (graphName "acme-corp") ->
   "acme-corp" = "acme-corp").
Proof.
  assert (ValidateTenantID "acme-corp" = Ok tt) as H by (vm_compute; reflexivity).
  split; [exact H|]. exact (proj2 (ValidateTenantID_rule "acme-corp" "acme-corp") H H).
Defined.
