(* ===== verification/Subjects.v ===== *)
(** NATS subjects: [pkg/natsbus/subjects.go] and the constants of
    [pkg/natsbus/types.go] it uses.

    [uuid_canonical s] stands for the check the sources make with the
    third-party UUID package: [uuid.Parse(s)] succeeds and printing the result
    gives [s] back. Nothing below depends on which strings it accepts. *)

From S2P Require Import Prelude Regexp Tenant.

(** * Definitions *)

(** [Stage], [TaskType] and [AuditType] are Go string types: a value may be any
    string, the constants below are the ones the sources define. *)
Abbreviation Stage := string (only parsing).
Abbreviation TaskType := string (only parsing).
Abbreviation AuditType := string (only parsing).

Definition StageStarted : Stage := "started".
Definition StageCompleted : Stage := "completed".
Definition StageFailed : Stage := "failed".

Definition TaskClassify : TaskType := "classify".
Definition TaskRelate : TaskType := "relate".
Definition TaskRequires : TaskType := "requires".
Definition TaskArtifacts : TaskType := "artifacts".
Definition TaskEmbed : TaskType := "embed".

Definition ResultErrorOutputTruncated : string := "output_truncated".

Definition taskTypes : list TaskType :=
  [TaskClassify; TaskRelate; TaskRequires; TaskArtifacts; TaskEmbed].

Inductive subject_error :=
| SETenant (e : tenant_error)
| SEEmptyToken (label : string)
| SEDelimiter (label token : string)
| SEJobID (e : subject_error)
| SEJobIDTooLong (len : nat)
| SETaskType (t : string)
| SECollectionID (id : string)
| SENotAbandoned (subject : string)
| SEAbandoned (subject : string) (e : subject_error).

(** [errors.Is(err, ErrInvalidJobID)]; every [subject_error] also wraps
    ErrInvalidSubject. *)
Fixpoint is_invalid_job_id (e : subject_error) : bool :=
  match e with
  | SEJobID _ | SEJobIDTooLong _ => true
  | SEAbandoned _ e' => is_invalid_job_id e'
  | _ => false
  end.

Definition subjectPrefix : string := "crosscodex".
Definition WorkerProgressSubject : string := subjectPrefix +:+ ".workers.progress".
Definition MaxJobIDLength : nat := 128.

Definition validateTenant (tenantID : string) : result subject_error unit :=
  map_err SETenant (ValidateTenantID tenantID).

Definition validateToken (token label : string) : result subject_error unit :=
  if bool_decide (token = "") then Err (SEEmptyToken label)
  else if contains_any token ".*>" then Err (SEDelimiter label token)
  else Ok tt.

Definition validateJobID (jobID : string) : result subject_error unit :=
  match validateToken jobID "job ID" with
  | Err e => Err (SEJobID e)
  | Ok _ =>
      if bool_decide (MaxJobIDLength < String.length jobID)
      then Err (SEJobIDTooLong (String.length jobID))
      else Ok tt
  end.

Definition buildSubject (tenantID : string) (tokenErr : result subject_error unit)
    (parts : list string) : result subject_error string :=
  match validateTenant tenantID with
  | Err e => Err e
  | Ok _ =>
      match tokenErr with
      | Err e => Err e
      | Ok _ => Ok (subjectPrefix +:+ "." +:+ join "." parts)
      end
  end.

Definition PipelineStageSubject (tenantID jobID : string) (stage : Stage) :=
  buildSubject tenantID (validateJobID jobID) ["pipeline"; tenantID; jobID; "stage"; stage].

Definition PipelineStateSubject (tenantID jobID : string) :=
  buildSubject tenantID (validateJobID jobID) ["pipeline"; tenantID; jobID; "state"].

Definition WorkSubject (tenantID : string) (taskType : TaskType) (jobID : string) :=
  buildSubject tenantID (validateJobID jobID) ["work"; tenantID; taskType; jobID].

Definition ResultSubject (tenantID : string) (taskType : TaskType) (jobID : string) :=
  buildSubject tenantID (validateJobID jobID) ["results"; tenantID; taskType; jobID].

Definition AuditSubject (tenantID : string) (auditType : AuditType) (jobID : string) :=
  buildSubject tenantID (validateJobID jobID) ["audit"; tenantID; auditType; jobID].

Definition FeedbackSubject (tenantID edgeID : string) :=
  buildSubject tenantID (validateToken edgeID "edge ID") ["feedback"; tenantID; edgeID].

Definition CatalogParsedSubject (tenantID catalogID : string) :=
  buildSubject tenantID (validateToken catalogID "catalog ID")
    ["catalog"; tenantID; catalogID; "parsed"].

Record AbandonedCollection := mkAbandoned {
  ac_TenantID : string;
  ac_TaskType : TaskType;
  ac_JobID : string;
  ac_CollectionID : string;
}.

#[export] Instance AbandonedCollection_eq_dec : EqDecision AbandonedCollection.
Proof. solve_decision. Defined.

#[export] Program Instance AbandonedCollection_countable : Countable AbandonedCollection :=
  inj_countable'
    (fun c => (ac_TenantID c, ac_TaskType c, ac_JobID c, ac_CollectionID c))
    (fun '(t, k, j, i) => mkAbandoned t k j i) _.
Next Obligation. by intros []. Qed.

Section abandoned.
Context (uuid_canonical : string -> bool).

Definition AbandonedSubject (c : AbandonedCollection) : result subject_error string :=
  match validateToken (ac_TaskType c) "task type" with
  | Err e => Err e
  | Ok _ =>
      if bool_decide (ac_TaskType c ∉ taskTypes) then Err (SETaskType (ac_TaskType c))
      else
        match validateToken (ac_CollectionID c) "collection ID" with
        | Err e => Err e
        | Ok _ =>
            if uuid_canonical (ac_CollectionID c) then
              buildSubject (ac_TenantID c) (validateJobID (ac_JobID c))
                ["control"; ac_TenantID c; ac_TaskType c; ac_JobID c; ac_CollectionID c; "abandoned"]
            else Err (SECollectionID (ac_CollectionID c))
        end
  end.

Definition ParseAbandonedSubject (subject : string) : result subject_error AbandonedCollection :=
  match split_on "." subject with
  | [p0; p1; p2; p3; p4; p5; p6] =>
      if bool_decide (p0 = subjectPrefix /\ p1 = "control" /\ p6 = "abandoned") then
        let c := mkAbandoned p2 p3 p4 p5 in
        match AbandonedSubject c with
        | Err e => Err (SEAbandoned subject e)
        | Ok _ => Ok c
        end
      else Err (SENotAbandoned subject)
  | _ => Err (SENotAbandoned subject)
  end.
End abandoned.

(** * Lemmas *)

Lemma validateToken_free token label c :
  validateToken token label = Ok tt -> c ∈ [".";"*";">"]%char -> free_of c token.
Proof.
  unfold validateToken. case_bool_decide; [done|].
  destruct (contains_any token ".*>") eqn:E; [done|].
  apply bool_decide_eq_false in E. intros _ Hc Hin. apply E, Exists_exists. eauto.
Qed.

Lemma validateToken_dot token label : validateToken token label = Ok tt -> free_of "." token.
Proof. intros H. eapply validateToken_free; [done|]. by left. Qed.

Lemma validateJobID_dot jobID : validateJobID jobID = Ok tt -> free_of "." jobID.
Proof.
  unfold validateJobID. destruct (validateToken jobID "job ID") as [[]|] eqn:E; [|done].
  intros _. by eapply validateToken_dot.
Qed.

Lemma ValidateTenantID_dot id : ValidateTenantID id = Ok tt -> free_of "." id.
Proof. intros H Hin. by pose proof (ValidateTenantID_char _ _ H Hin). Qed.

#[export] Hint Resolve validateToken_dot validateJobID_dot ValidateTenantID_dot : strings.

Lemma buildSubject_ok t te parts s :
  buildSubject t te parts = Ok s <->
  (ValidateTenantID t = Ok tt /\ te = Ok tt /\ s = subjectPrefix +:+ "." +:+ join "." parts).
Proof.
  unfold buildSubject, validateTenant.
  destruct (ValidateTenantID t) as [[]|]; simpl; [|naive_solver].
  destruct te as [[]|]; naive_solver.
Qed.

Lemma subject_join p parts :
  subjectPrefix +:+ "." +:+ join "." (p :: parts) = join "." (subjectPrefix :: p :: parts).
Proof. done. Qed.

(** The tokens of a built subject; only the entries not known to be free of
    dots are split further. *)
Lemma split_subject parts :
  parts <> [] ->
  split_on "." (subjectPrefix +:+ "." +:+ join "." parts) = subjectPrefix :: parts ≫= split_on ".".
Proof.
  intros Hne. destruct parts as [|p parts]; [done|]. rewrite subject_join, split_on_join by done.
  by rewrite bind_cons.
Qed.

(** * Properties *)

Section properties.
Context (uuid_canonical : string -> bool).

(** Every subject the package builds, with the tenant it was built for. *)
Inductive built_for (t : string) : string -> Prop :=
| BuiltStage j st s : PipelineStageSubject t j st = Ok s -> built_for t s
| BuiltState j s : PipelineStateSubject t j = Ok s -> built_for t s
| BuiltWork k j s : WorkSubject t k j = Ok s -> built_for t s
| BuiltResult k j s : ResultSubject t k j = Ok s -> built_for t s
| BuiltAudit a j s : AuditSubject t a j = Ok s -> built_for t s
| BuiltFeedback e s : FeedbackSubject t e = Ok s -> built_for t s
| BuiltCatalog c s : CatalogParsedSubject t c = Ok s -> built_for t s
| BuiltAbandoned k j i s :
    AbandonedSubject uuid_canonical (mkAbandoned t k j i) = Ok s -> built_for t s.

Lemma AbandonedSubject_ok c s :
  AbandonedSubject uuid_canonical c = Ok s <->
  (validateToken (ac_TaskType c) "task type" = Ok tt /\ ac_TaskType c ∈ taskTypes /\
   validateToken (ac_CollectionID c) "collection ID" = Ok tt /\
   uuid_canonical (ac_CollectionID c) = true /\
   buildSubject (ac_TenantID c) (validateJobID (ac_JobID c))
     ["control"; ac_TenantID c; ac_TaskType c; ac_JobID c; ac_CollectionID c; "abandoned"] = Ok s).
Proof.
  unfold AbandonedSubject.
  destruct (validateToken (ac_TaskType c) _) as [[]|]; [|naive_solver].
  case_bool_decide; [naive_solver|].
  destruct (validateToken (ac_CollectionID c) _) as [[]|]; [|naive_solver].
  destruct (uuid_canonical _); naive_solver (apply dec_stable).
Qed.

(** A built subject's third token is its tenant. *)
Lemma built_for_tokens t s :
  built_for t s -> exists cat rest, split_on "." s = subjectPrefix :: cat :: t :: rest.
Proof.
  intros H. assert (exists cat post te, free_of "." cat /\
    buildSubject t te (cat :: t :: post) = Ok s) as (cat & post & te & Hcat & HB).
  { inversion H as [| | | | | | |k j i ? HA]; subst; clear H;
      [eexists "pipeline", _, _|eexists "pipeline", _, _|eexists "work", _, _
      |eexists "results", _, _|eexists "audit", _, _|eexists "feedback", _, _
      |eexists "catalog", _, _|apply AbandonedSubject_ok in HA as (_ & _ & _ & _ & HA);
                               eexists "control", _, _];
      (split; [unfold free_of; by vm_compute; set_solver|eassumption]). }
  apply buildSubject_ok in HB as (Ht & _ & ->).
  exists cat, (post ≫= split_on "."). rewrite split_subject by done. rewrite !bind_cons.
  rewrite (split_on_free "." cat), (split_on_free "." t) by auto with strings. done.
Qed.

(** Subjects keep tenants apart: whatever builders, task types, job IDs and
    other tokens two tenants use, no subject built for one is ever a subject
    built for the other, so a subscription to one tenant's subject cannot
    receive another's message. *)
Theorem subjects_isolate_tenants (t1 t2 s : string) :
  built_for t1 s -> built_for t2 s -> t1 = t2.
Proof.
  intros (c1 & r1 & H1)%built_for_tokens (c2 & r2 & H2)%built_for_tokens. congruence.
Qed.

Lemma ParseAbandonedSubject_built s c :
  AbandonedSubject uuid_canonical c = Ok s -> ParseAbandonedSubject uuid_canonical s = Ok c.
Proof.
  intros HA. pose proof HA as (Hk & _ & Hi & _ & HB)%AbandonedSubject_ok.
  apply buildSubject_ok in HB as (Ht & Hj & Hs).
  assert (split_on "." s = [subjectPrefix; "control"; ac_TenantID c; ac_TaskType c; ac_JobID c;
                            ac_CollectionID c; "abandoned"]) as Hsplit.
  { rewrite Hs, split_subject by done. f_equal. apply split_on_bind_free.
    repeat constructor; eauto with strings; unfold free_of; vm_compute; set_solver. }
  unfold ParseAbandonedSubject. rewrite Hsplit, bool_decide_true by done.
  destruct c; simpl in *. by rewrite HA.
Qed.

(** [ParseAbandonedSubject] inverts [AbandonedSubject] exactly: it accepts a
    subject and returns a collection if and only if [AbandonedSubject] builds
    that subject from that collection. *)
Theorem ParseAbandonedSubject_inverse (s : string) (c : AbandonedCollection) :
  ParseAbandonedSubject uuid_canonical s = Ok c <-> AbandonedSubject uuid_canonical c = Ok s.
Proof.
  split; [|apply ParseAbandonedSubject_built].
  unfold ParseAbandonedSubject. pose proof (join_split_on "." s) as Hj.
  destruct (split_on "." s) as [|p0 [|p1 [|p2 [|p3 [|p4 [|p5 [|p6 [|]]]]]]]]; try done.
  case_bool_decide as E; [|done]. destruct E as (-> & -> & ->).
  destruct (AbandonedSubject _ _) as [s'|] eqn:HA; [|done]. intros [= <-].
  rewrite HA. apply AbandonedSubject_ok in HA as (_ & _ & _ & _ & HB).
  apply buildSubject_ok in HB as (_ & _ & ->). by rewrite <- Hj.
Qed.
End properties.

(** * Witnesses *)

Definition sample_uuid : string := "0d8f2c1e-7d52-4c6a-9f5e-3a1b2c3d4e5f".
Definition sample_collection : AbandonedCollection :=
  mkAbandoned "acme-corp" TaskRelate "job-1" sample_uuid.

Lemma subjects_isolate_tenants_witness :
  let uuid := fun s => bool_decide (s = sample_uuid) in
  exists s, AbandonedSubject uuid sample_collection = Ok s /\ built_for uuid "acme-corp" s /\
    forall t2, built_for uuid t2 s -> "acme-corp" = t2.
Proof.
  intros uuid. eexists. split; [vm_compute; reflexivity|].
  assert (built_for uuid "acme-corp"
    ("crosscodex.control.acme-corp.relate.job-1." +:+ sample_uuid +:+ ".abandoned")) as HB.
  { apply (BuiltAbandoned _ _ TaskRelate "job-1" sample_uuid). vm_compute. reflexivity. }
  split; [exact HB|]. intros t2 H2. exact (subjects_isolate_tenants uuid _ _ _ HB H2).
Defined.
