(* ===== verification/Bus.v ===== *)
(** The NATS client: provenance headers ([pkg/natsbus/provenance.go]), the
    publishing and receiving ends of [pkg/natsbus/client.go] and its audit
    stream configuration.

    The connection, the trace context and SHA-256 are parameters: [conn_ok] is
    whether [PublishMsg] succeeds, [span_ids] the hex trace and span ID of the
    context's span, [timestamp] the formatted clock, [sha256_hex] the digest.
    [wrapHandler] is modelled by the message it hands to its handler, [None]
    when it rejects. *)

From S2P Require Import Prelude Regexp Tenant Subjects.

(** * Definitions *)

(** The fields of [natsbus.Message] its receivers read; [msg_TenantID] is
    Metadata.TenantID. *)
Record Message := mkMsg {
  msg_Subject : string;
  msg_Data : string;
  msg_Headers : gmap string (list string);
  msg_TenantID : string;
}.

(** A message on the wire ([nats.Msg]). *)
Record nats_msg := mkNats {
  n_Subject : string;
  n_Data : string;
  n_Header : gmap string (list string);
}.

Definition HeaderTraceID : string := "X-Trace-Id".
Definition HeaderSpanID : string := "X-Span-Id".
Definition HeaderTenantID : string := "X-Tenant-Id".
Definition HeaderTimestamp : string := "X-Timestamp".
Definition HeaderContentSHA256 : string := "X-Content-SHA256".

Definition provenance_keys : list string :=
  [HeaderTraceID; HeaderSpanID; HeaderTenantID; HeaderTimestamp; HeaderContentSHA256].

Inductive bus_error :=
| ErrConnectionClosed
| ErrTenantRequired (e : tenant_error)
| ErrPublishFailed
| ErrMissingProvenance (missing : list string).

Definition firstValue (headers : gmap string (list string)) (key : string) : string :=
  match headers !! key with
  | Some (v :: _) => v
  | _ => ""
  end.

(** [mergeHeaders user provenance]: the second loop overwrites the first. *)
Definition mergeHeaders (user provenance : gmap string (list string)) : gmap string (list string) :=
  provenance ∪ user.

Record MessageMetadata := mkMeta {
  TraceID : string;
  SpanID : string;
  TenantID : string;
  ContentHash : string;
}.

(** [missing = append(missing, key)] when the value is empty. *)
Definition miss (key value : string) : list string := if bool_decide (value = "") then [key] else [].

Definition extractProvenance (headers : gmap string (list string)) : result bus_error MessageMetadata :=
  let meta := mkMeta (firstValue headers HeaderTraceID) (firstValue headers HeaderSpanID)
                (firstValue headers HeaderTenantID) (firstValue headers HeaderContentSHA256) in
  let missing :=
    miss HeaderTenantID (TenantID meta) ++ miss HeaderContentSHA256 (ContentHash meta) ++
    miss HeaderTimestamp (firstValue headers HeaderTimestamp) ++ miss HeaderTraceID (TraceID meta) ++
    miss HeaderSpanID (SpanID meta) in
  match missing with
  | [] => Ok meta
  | _ => Err (ErrMissingProvenance missing)
  end.

Section client.
Context (sha256_hex : string -> string).

Definition injectProvenance (span_ids : string * string) (timestamp data tenantID : string)
  : gmap string (list string) :=
  <[HeaderTraceID := [span_ids.1]]> (<[HeaderSpanID := [span_ids.2]]> (<[HeaderTenantID := [tenantID]]>
  (<[HeaderTimestamp := [timestamp]]> {[HeaderContentSHA256 := [sha256_hex data]]}))).

(** The message [PublishWithHeaders] puts on the wire. *)
Definition PublishWithHeaders (closed conn_ok : bool) (span_ids : string * string) (timestamp : string)
    (ctx : context) (subject data : string) (headers : gmap string (list string))
  : result bus_error nats_msg :=
  if closed then Err ErrConnectionClosed
  else
    match FromContext ctx with
    | Err e => Err (ErrTenantRequired e)
    | Ok tenantID =>
        let provHeaders := injectProvenance span_ids timestamp data tenantID in
        let allHeaders := mergeHeaders headers provHeaders in
        if conn_ok then Ok (mkNats subject data allHeaders) else Err ErrPublishFailed
    end.

Definition Publish (closed conn_ok : bool) (span_ids : string * string) (timestamp : string)
    (ctx : context) (subject data : string) : result bus_error nats_msg :=
  PublishWithHeaders closed conn_ok span_ids timestamp ctx subject data ∅.

Definition wrapHandler (m : nats_msg) : option Message :=
  match extractProvenance (n_Header m) with
  | Err _ => None
  | Ok meta =>
      if bool_decide (sha256_hex (n_Data m) = ContentHash meta)
      then Some (mkMsg (n_Subject m) (n_Data m) (n_Header m) (TenantID meta))
      else None
  end.
End client.

(** ** Audit streams *)

Record NATSStreamsConfig := mkStreams { AuditLLMRetention : Z; AuditEventsRetention : Z }.

Record StreamConfig := mkStream {
  st_Name : string;
  st_Subjects : list string;
  st_MaxAge : Z;
  st_Replicas : Z;
}.

Definition auditStreamConfigs (cfg : NATSStreamsConfig) : list StreamConfig :=
  [mkStream "AUDIT_LLM" [subjectPrefix +:+ ".audit.*.llm.>"] (AuditLLMRetention cfg) 1;
   mkStream "AUDIT_DECISIONS" [subjectPrefix +:+ ".audit.*.decisions.>"] 0 1;
   mkStream "AUDIT_EVENTS" [subjectPrefix +:+ ".audit.*.events.>"] (AuditEventsRetention cfg) 1].

Definition AuditStreamNames : list string := st_Name <$> auditStreamConfigs (mkStreams 0 0).

Definition ConfiguredAuditRetention (cfg : NATSStreamsConfig) : gmap string Z :=
  foldl (fun out sc => <[st_Name sc := st_MaxAge sc]> out) ∅ (auditStreamConfigs cfg).

(** * Lemmas *)

Lemma firstValue_Some h k v l : h !! k = Some (v :: l) -> firstValue h k = v.
Proof. by unfold firstValue; intros ->. Qed.

Lemma miss_nil k v : miss k v = [] <-> v <> "".
Proof. unfold miss. case_bool_decide; by split. Qed.

Lemma extractProvenance_ok h meta :
  extractProvenance h = Ok meta <->
  meta = mkMeta (firstValue h HeaderTraceID) (firstValue h HeaderSpanID)
           (firstValue h HeaderTenantID) (firstValue h HeaderContentSHA256) /\
  Forall (fun k => firstValue h k <> "") provenance_keys.
Proof.
  unfold extractProvenance, provenance_keys. rewrite !Forall_cons, Forall_nil. cbn [TenantID ContentHash TraceID SpanID].
  set (l := miss _ _ ++ _). assert (l = [] <-> firstValue h HeaderTenantID <> "" /\
    firstValue h HeaderContentSHA256 <> "" /\ firstValue h HeaderTimestamp <> "" /\
    firstValue h HeaderTraceID <> "" /\ firstValue h HeaderSpanID <> "") as Hl.
  { subst l. rewrite !app_nil, !miss_nil. done. }
  destruct l as [|x l]; [naive_solver|]. split; [done|]. intros (_ & ? & ? & ? & ? & ? & _).
  assert (x :: l = []) by (apply Hl; done). done.
Qed.

Section properties.
Context (sha256_hex : string -> string).
(** A digest is printed as 64 hexadecimal digits. *)
Hypothesis sha256_nonempty : forall d, sha256_hex d <> "".

Lemma injectProvenance_lookup ids ts d t k :
  injectProvenance sha256_hex ids ts d t !! k =
  if bool_decide (k = HeaderTraceID) then Some [ids.1]
  else if bool_decide (k = HeaderSpanID) then Some [ids.2]
  else if bool_decide (k = HeaderTenantID) then Some [t]
  else if bool_decide (k = HeaderTimestamp) then Some [ts]
  else if bool_decide (k = HeaderContentSHA256) then Some [sha256_hex d] else None.
Proof.
  unfold injectProvenance. repeat case_bool_decide; subst; simpl;
    repeat (rewrite lookup_insert_eq || rewrite lookup_insert_ne by congruence);
    rewrite ?lookup_singleton_eq, ?lookup_singleton_ne by congruence; done.
Qed.

Lemma merged_lookup user ids ts d t k :
  mergeHeaders user (injectProvenance sha256_hex ids ts d t) !! k =
  match injectProvenance sha256_hex ids ts d t !! k with Some v => Some v | None => user !! k end.
Proof. unfold mergeHeaders. rewrite lookup_union. by destruct (injectProvenance _ _ _ _ _ !! k), (user !! k). Qed.

(** A message that was published is received, unchanged, with the publisher's
    tenant and the publisher's own headers. *)
Lemma publish_receive ids ts ctx subject data headers t :
  ids.1 <> "" -> ids.2 <> "" -> ts <> "" -> FromContext ctx = Ok t ->
  exists m msg, PublishWithHeaders sha256_hex false true ids ts ctx subject data headers = Ok m /\
    wrapHandler sha256_hex m = Some msg /\
    msg_Subject msg = subject /\ msg_Data msg = data /\ msg_TenantID msg = t /\
    forall k, k ∉ provenance_keys -> msg_Headers msg !! k = headers !! k.
Proof.
  intros H1 H2 H3 Ht. unfold PublishWithHeaders. rewrite Ht.
  assert (t <> "") as Hne.
  { unfold FromContext in Ht. destruct (ctx_tenant ctx); [|done]. by case_bool_decide; simplify_eq. }
  set (h := mergeHeaders headers (injectProvenance sha256_hex ids ts data t)).
  assert (forall k v, injectProvenance sha256_hex ids ts data t !! k = Some [v] -> firstValue h k = v) as Hf.
  { intros k v Hk. eapply firstValue_Some. unfold h. by rewrite merged_lookup, Hk. }
  assert (extractProvenance h = Ok (mkMeta ids.1 ids.2 t (sha256_hex data))) as Hex.
  { assert (firstValue h HeaderTraceID = ids.1) as E1 by (apply Hf; by rewrite injectProvenance_lookup).
    assert (firstValue h HeaderSpanID = ids.2) as E2 by (apply Hf; by rewrite injectProvenance_lookup).
    assert (firstValue h HeaderTenantID = t) as E3 by (apply Hf; by rewrite injectProvenance_lookup).
    assert (firstValue h HeaderTimestamp = ts) as E4 by (apply Hf; by rewrite injectProvenance_lookup).
    assert (firstValue h HeaderContentSHA256 = sha256_hex data) as E5
      by (apply Hf; by rewrite injectProvenance_lookup).
    apply extractProvenance_ok. unfold provenance_keys. rewrite !Forall_cons, Forall_nil.
    rewrite E1, E2, E3, E4, E5. auto 10. }
  exists (mkNats subject data h). eexists. split; [done|].
  unfold wrapHandler. cbn [n_Header n_Data n_Subject]. rewrite Hex.
  cbn [ContentHash TenantID]. rewrite bool_decide_true by done. split; [done|]. split_and!; try done.
  intros k Hk. cbn [msg_Headers]. unfold h. rewrite merged_lookup, injectProvenance_lookup.
  unfold provenance_keys in Hk. rewrite !bool_decide_false; [done|set_solver..].
Qed.

(** C32. The bus is faithful and fails closed. A message published under a tenant
    reaches its handler with the same subject, payload and headers and with
    that tenant, whatever provenance headers the publisher tried to set. A
    message reaches a handler only if it carries every provenance header and
    its payload hashes to the one the headers name; its tenant is then the
    header's, never empty. Publishing without a tenant is refused. *)
Theorem bus_provenance (ids : string * string) (ts : string) (ctx : context) (subject data : string)
    (headers : gmap string (list string)) :
  ids.1 <> "" -> ids.2 <> "" -> ts <> "" ->
  (forall t, FromContext ctx = Ok t ->
     exists m msg, PublishWithHeaders sha256_hex false true ids ts ctx subject data headers = Ok m /\
       wrapHandler sha256_hex m = Some msg /\
       msg_Subject msg = subject /\ msg_Data msg = data /\ msg_TenantID msg = t /\
       forall k, k ∉ provenance_keys -> msg_Headers msg !! k = headers !! k) /\
  (forall m msg, wrapHandler sha256_hex m = Some msg ->
     Forall (fun k => firstValue (n_Header m) k <> "") provenance_keys /\
     sha256_hex (n_Data m) = firstValue (n_Header m) HeaderContentSHA256 /\
     msg_TenantID msg = firstValue (n_Header m) HeaderTenantID /\ msg_TenantID msg <> "") /\
  (forall closed ok m, PublishWithHeaders sha256_hex closed ok ids ts ctx subject data headers = Ok m ->
     exists t, FromContext ctx = Ok t).
Proof.
  intros H1 H2 H3. split_and!.
  - intros t. by apply publish_receive.
  - intros m msg. unfold wrapHandler. destruct (extractProvenance (n_Header m)) as [meta|] eqn:E; [|done].
    apply extractProvenance_ok in E as [-> Hall]. cbn [ContentHash TenantID].
    case_bool_decide as Hh; [|done]. intros [= <-]. split_and!; try done.
    rewrite Forall_forall in Hall. apply Hall. set_solver.
  - intros closed ok m. unfold PublishWithHeaders. destruct closed; [done|].
    destruct (FromContext ctx); [eauto|done].
Qed.
End properties.

(** * Witnesses *)

(** A stand-in digest: the payload itself with a mark, so never empty. *)
Definition toy_digest (d : string) : string := d +:+ "#".

Lemma bus_provenance_witness :
  let ctx := mkContext (Some "acme-corp") None in
  exists m msg, PublishWithHeaders toy_digest false true ("1", "2") "now" ctx "s" "d"
      {[HeaderTenantID := ["other"]; "X-Task-Id" := ["t"]]} = Ok m /\
    wrapHandler toy_digest m = Some msg /\ msg_TenantID msg = "acme-corp" /\
    msg_Headers msg !! "X-Task-Id" = Some ["t"].
Proof.
  intros ctx.
  assert (forall d, toy_digest d <> "") as Hd by (intros []; done).
  destruct (bus_provenance toy_digest Hd ("1", "2") "now" ctx "s" "d"
    {[HeaderTenantID := ["other"]; "X-Task-Id" := ["t"]]}) as (Hp & _ & _); [done|done|done|].
  destruct (Hp "acme-corp") as (m & msg & E & Hw & _ & _ & Ht & Hk); [reflexivity|].
  exists m, msg. split; [exact E|]. split; [exact Hw|]. split; [exact Ht|].
  rewrite (Hk "X-Task-Id"); [reflexivity|]. unfold provenance_keys. set_solver.
Defined.
