(* ===== verification/Dag.v ===== *)
(** The analyzer registry and its execution DAG: [pkg/analyzer/registry.go] and
    [pkg/analyzer/dag.go].

    [Registry] holds the registered analyzers by name; [BuildDAG] validates
    their declared dependencies, runs Kahn's algorithm ([kahnSort]) and reports
    a missing dependency or a cycle ([findCycle]); [Subset] restricts a DAG to
    some analyzers and everything they depend on. Loops over Go maps visit the
    entries in the order the [GoRuntime] picks. Telemetry, locking and the
    GenerateWork/Aggregate methods, which the DAG never calls, are left out. *)

From S2P Require Import Prelude Regexp.

(** * The registry *)

(** What the registry stores: the wrapper's [Name] and [DependsOn]. *)
Record RegisteredAnalyzer := mkAnalyzer { Name : string; DependsOn : list string }.

Inductive analyzer_error :=
| ErrInvalidName (name : string)
| ErrAlreadyRegistered (name : string)
| ErrNotFound (name : string)
| ErrMissingDependency (name dep : string)
| ErrCycleDetected (cycle : string).

Record Registry := mkRegistry { analyzers : gmap string RegisteredAnalyzer }.

Definition NewRegistry : Registry := mkRegistry ∅.

(** [namePattern]: [^[a-z](?:[a-z0-9_-]{0,62}[a-z0-9])?$] *)
Definition namePattern : regex :=
  RSeq (RClass is_lower)
    (ROpt (RSeq
      (RRep 0 62 (RClass (fun c => is_lower c || is_digit c || is_char "_" c || is_char "-" c)))
      (RClass (fun c => is_lower c || is_digit c)))).

Definition ValidateName (name : string) : result analyzer_error unit :=
  if bool_decide (name = "") then Err (ErrInvalidName name)
  else if match_string namePattern name then Ok tt
  else Err (ErrInvalidName name).

(** [Register]: the stored wrapper reports the analyzer's own name. *)
Definition Register (r : Registry) (a : RegisteredAnalyzer) : result analyzer_error Registry :=
  match ValidateName (Name a) with
  | Err e => Err e
  | Ok _ =>
      match analyzers r !! Name a with
      | Some _ => Err (ErrAlreadyRegistered (Name a))
      | None => Ok (mkRegistry (<[Name a := a]> (analyzers r)))
      end
  end.

Definition Get (r : Registry) (name : string) : result analyzer_error RegisteredAnalyzer :=
  match analyzers r !! name with
  | Some a => Ok a
  | None => Err (ErrNotFound name)
  end.

(** * The DAG *)

Record DAG := mkDAG {
  levels : list (list string);
  order : list string;
  edges : gmap string (list string);          (* name -> dependencies *)
  nodes : gmap string RegisteredAnalyzer;     (* name -> analyzer *)
}.

(** The accessors return copies. *)
Definition Levels (d : DAG) : list (list string) := levels d.
Definition Order (d : DAG) : list string := order d.
Definition Analyzers (d : DAG) : list RegisteredAnalyzer := omap (nodes d !!.) (order d).

Definition deps_of (E : gmap string (list string)) (n : string) : list string :=
  default [] (E !! n).

Section dag.
Context {rt : GoRuntime}.

(** [All]: the registered analyzers, in the order the map is visited. *)
Definition All (r : Registry) : list RegisteredAnalyzer := (map_range 0 (analyzers r)).*2.

(** ** Kahn's algorithm *)

(** In-degrees: 0 for every node, then the number of declared dependencies
    of every name that has an edge list. *)
Definition in_degrees (N : gmap string RegisteredAnalyzer) (E : gmap string (list string)) :
    gmap string Z :=
  foldl (fun g '(name, deps) => <[name := Z.of_nat (length deps)]> g)
    (foldl (fun g '(name, _) => <[name := 0%Z]> g) ∅ (map_range 1 N))
    (map_range 2 E).

Definition initial_queue (g : gmap string Z) : list string :=
  sort_strings (filter (fun nd => nd.2 = 0%Z) (map_range 3 g)).*1.

(** Reverse adjacency: dependency -> dependents. *)
Definition add_dependents (m : gmap string (list string)) (nd : string * list string) :
    gmap string (list string) :=
  foldl (fun m dep => <[dep := deps_of m dep ++ [nd.1]]> m) m nd.2.

Definition dependents_map (E : gmap string (list string)) : gmap string (list string) :=
  foldl add_dependents ∅ (map_range 4 E).

(** [inDegree[dependent]--; if inDegree[dependent] == 0 { next = append(...) }] *)
Definition visit_dependent (st : gmap string Z * list string) (dependent : string) :
    gmap string Z * list string :=
  let d := (default 0 (st.1 !! dependent) - 1)%Z in
  (<[dependent := d]> st.1, if bool_decide (d = 0%Z) then st.2 ++ [dependent] else st.2).

Definition visit_node (dependents : gmap string (list string))
    (st : gmap string Z * list string) (name : string) : gmap string Z * list string :=
  foldl visit_dependent st (deps_of dependents name).

(** The level loop; [None] when the fuel runs out before the queue is empty. *)
Fixpoint kahn_loop (fuel : nat) (dependents : gmap string (list string)) (g : gmap string Z)
    (queue : list string) (lvls : list (list string)) (ord : list string) :
    option (list (list string) * list string) :=
  match queue, fuel with
  | [], _ => Some (lvls, ord)
  | _, 0 => None
  | _, S fuel' =>
      let '(g', next) := foldl (visit_node dependents) (g, []) queue in
      kahn_loop fuel' dependents g' (sort_strings next) (lvls ++ [queue]) (ord ++ queue)
  end.

(** Every level holds at least one name not queued before, so the number of
    names bounds the number of levels. *)
Definition kahnSort (N : gmap string RegisteredAnalyzer) (E : gmap string (list string)) :
    option (list (list string) * list string) :=
  if bool_decide (size N = 0) then Some ([], [])
  else
    let g := in_degrees N E in
    kahn_loop (size N) (dependents_map E) g (initial_queue g) [] [].

(** ** Cycle reporting *)

Inductive walk_end :=
| CycleFound (cycle : list string)
| DeadEnd (remaining : list string)
| NoRemaining.

Fixpoint formatCycle_tail (acc : string) (cycle : list string) : string :=
  match cycle with
  | [] => acc
  | n :: cycle' => formatCycle_tail (acc +:+ " -> " +:+ n) cycle'
  end.

Definition formatCycle (cycle : list string) : string :=
  match cycle with
  | [] => "dependency cycle detected"
  | n :: cycle' => formatCycle_tail n cycle'
  end.

(** The walk from the first remaining node. [seen] maps each name of [path]
    to its index; each round takes the first dependency, in sorted order,
    that Kahn's algorithm did not visit. *)
Fixpoint cycle_walk (fuel : nat) (E : gmap string (list string)) (visited : gset string)
    (remaining : list string) (path : list string) (seen : gmap string nat)
    (current : string) : option walk_end :=
  match fuel with
  | 0 => None
  | S fuel' =>
      match filter (fun dep => dep ∉ visited) (sort_strings (deps_of E current)) with
      | [] => Some (DeadEnd remaining)
      | dep :: _ =>
          match seen !! dep with
          | Some idx => Some (CycleFound (drop idx path ++ [dep]))
          | None =>
              cycle_walk fuel' E visited remaining (path ++ [dep])
                (<[dep := length path]> seen) dep
          end
      end
  end.

Definition remaining_nodes (N : gmap string RegisteredAnalyzer) (visited : list string) :
    list string :=
  sort_strings (filter (fun n => n ∉ visited) (map_range 5 N).*1).

Definition find_cycle_walk (N : gmap string RegisteredAnalyzer) (E : gmap string (list string))
    (visited : list string) : option walk_end :=
  match remaining_nodes N visited with
  | [] => Some NoRemaining
  | start :: rest =>
      cycle_walk (S (size N)) E (list_to_set visited) (start :: rest) [start] {[start := 0]} start
  end.

Definition walk_text (w : walk_end) : string :=
  match w with
  | CycleFound cycle => formatCycle cycle
  | DeadEnd remaining => formatCycle remaining
  | NoRemaining => "dependency cycle detected (unknown nodes)"
  end.

Definition findCycle (N : gmap string RegisteredAnalyzer) (E : gmap string (list string))
    (visited : list string) : option string :=
  walk_text <$> find_cycle_walk N E visited.

(** ** BuildDAG *)

(** The adjacency loop: the first unregistered dependency met stops it. *)
Fixpoint build_edges (N : gmap string RegisteredAnalyzer)
    (todo : list (string * RegisteredAnalyzer)) (E : gmap string (list string)) :
    result analyzer_error (gmap string (list string)) :=
  match todo with
  | [] => Ok E
  | (name, a) :: todo' =>
      match filter (fun dep => N !! dep = None) (DependsOn a) with
      | dep :: _ => Err (ErrMissingDependency name dep)
      | [] => build_edges N todo' (<[name := DependsOn a]> E)
      end
  end.

(** [None] only if the model's fuel ran out, which [BuildDAG_total] excludes. *)
Definition BuildDAG (r : Registry) : option (result analyzer_error DAG) :=
  let N := analyzers r in
  match build_edges N (map_range 6 N) ∅ with
  | Err e => Some (Err e)
  | Ok E =>
      '(lvls, ord) ← kahnSort N E;
      if bool_decide (length ord = size N) then Some (Ok (mkDAG lvls ord E N))
      else cycle ← findCycle N E ord; Some (Err (ErrCycleDetected cycle))
  end.

(** ** Subset *)

(** The recursive [walk] closure, with the shared [needed] set threaded. *)
Fixpoint walk (fuel : nat) (E : gmap string (list string)) (needed : gset string)
    (name : string) : option (gset string) :=
  match fuel with
  | 0 => None
  | S fuel' =>
      if bool_decide (name ∈ needed) then Some needed
      else
        foldl (fun acc dep => acc ≫= fun nd => walk fuel' E nd dep)
          (Some ({[name]} ∪ needed)) (deps_of E name)
  end.

Definition collect_needed (d : DAG) (names : list string) : option (gset string) :=
  foldl (fun acc name => acc ≫= fun nd => walk (S (size (nodes d))) (edges d) nd name)
    (Some ∅) names.

(** [subNodes[name] = d.nodes[name]]: a needed name is a node of the DAG
    ([walk_in_nodes]), so the copy is the restriction of the map. *)
Definition sub_nodes (d : DAG) (needed : gset string) : gmap string RegisteredAnalyzer :=
  filter (fun na => na.1 ∈ needed) (nodes d).

Definition sub_edges (d : DAG) (needed : gset string) : gmap string (list string) :=
  set_to_map (fun name => (name, filter (.∈ needed) (deps_of (edges d) name))) needed.

Definition Subset (d : DAG) (names : list string) : option (result analyzer_error DAG) :=
  match filter (fun name => nodes d !! name = None) names with
  | name :: _ => Some (Err (ErrNotFound name))
  | [] =>
      needed ← collect_needed d names;
      let N := sub_nodes d needed in
      let E := sub_edges d needed in
      '(lvls, ord) ← kahnSort N E;
      Some (Ok (mkDAG lvls ord E N))
  end.
End dag.
