(* ===== verification/DagFacts.v ===== *)
(** Correctness of the analyzer DAG of [Dag].

    Kahn's loop is proved equal to a reference that, at each level, takes every
    node whose dependencies are all in earlier levels ([ref_levels]); the
    properties of [BuildDAG], [findCycle] and [Subset] follow from it. *)

From S2P Require Import Prelude Regexp Dag.

(** * Specification vocabulary *)

(** [n] declares a dependency on [d]. *)
Definition depends (E : gmap string (list string)) (n d : string) : Prop := d ∈ deps_of E n.

(** Every node has an edge list and every dependency is a node: what the
    validation loop of [BuildDAG] establishes. *)
Record wf_graph (N : gmap string RegisteredAnalyzer) (E : gmap string (list string)) : Prop := {
  wf_dom : dom E = dom N;
  wf_deps : forall n d, depends E n d -> d ∈ dom N;
}.

Definition acyclic (E : gmap string (list string)) : Prop := forall n, ~ tc (depends E) n n.

(** The nodes not in [P] whose dependencies are all in [P]. *)
Definition ready (E : gmap string (list string)) (N P : gset string) : gset string :=
  filter (fun n => n ∉ P /\ Forall (.∈ P) (deps_of E n)) N.

Definition ready_level (E : gmap string (list string)) (N P : gset string) : list string :=
  sort_strings (elements (ready E N P)).

(** Reference level decomposition. *)
Fixpoint ref_levels (fuel : nat) (E : gmap string (list string)) (N P : gset string) :
    list (list string) :=
  match fuel with
  | 0 => []
  | S fuel' =>
      match ready_level E N P with
      | [] => []
      | L => L :: ref_levels fuel' E N (P ∪ list_to_set L)
      end
  end.

(** * Generic facts about the maps the loops build *)

Section folds.
Context {V W : Type} (f : V -> W).

Lemma foldl_insert_lookup (l : list (string * V)) (m : gmap string W) n :
  NoDup l.*1 ->
  foldl (fun g '(k, v) => <[k := f v]> g) m l !! n =
    match list_to_map (M := gmap string V) l !! n with Some v => Some (f v) | None => m !! n end.
Proof.
  revert m; induction l as [|[k v] l IH]; intros m Hnd; simpl; [by simplify_map_eq|].
  inversion Hnd as [|? ? Hk Hnd']; subst. rewrite IH by done.
  destruct (decide (k = n)) as [->|Hne]; simplify_map_eq; [|done].
  by rewrite (not_elem_of_list_to_map_1 l n Hk).
Qed.
End folds.

Section ranges.
Context {rt : GoRuntime} {V : Type}.
Implicit Types m : gmap string V.

Lemma map_range_to_map site m : list_to_map (map_range site m) = m.
Proof.
  transitivity (list_to_map (M := gmap string V) (map_to_list m));
    [|apply list_to_map_to_list].
  apply list_to_map_proper; [apply map_range_NoDup|apply map_range_perm].
Qed.

Lemma elem_of_map_range_keys site m n : n ∈ (map_range site m).*1 <-> n ∈ dom m.
Proof.
  rewrite list_elem_of_fmap, elem_of_dom. split.
  - intros ([k v] & -> & ?%map_range_elem). eauto.
  - intros [v ?]. exists (n, v). by rewrite map_range_elem.
Qed.
End ranges.

(** * One level of Kahn's loop *)

Section visit.
Implicit Types (g : gmap string Z) (D : list string).

(** Decrementing every name of [D] once lowers each degree by its number of
    occurrences, and queues exactly the names whose degree reaches zero. *)
Lemma visit_dependents_spec g D :
  let '(g', next) := foldl visit_dependent (g, []) D in
  (forall n, default 0%Z (g' !! n) = (default 0 (g !! n) - Z.of_nat (occ n D))%Z) /\
  NoDup next /\
  (forall n, n ∈ next <-> (0 < default 0 (g !! n) <= Z.of_nat (occ n D))%Z).
Proof.
  induction D as [|x D IH] using rev_ind.
  { simpl. split; [intros; rewrite occ_nil; lia|]. split; [constructor|].
    intros; rewrite occ_nil. split; [by inversion 1|lia]. }
  rewrite foldl_app; simpl. destruct (foldl visit_dependent (g, []) D) as [g' next].
  destruct IH as (Hg & Hnd & Hin). unfold visit_dependent; simpl.
  split; [|split].
  - intros n. rewrite occ_app, occ_cons, occ_nil. case_decide; simplify_map_eq; rewrite ?Hg; lia.
  - case_bool_decide as E; [|done]. apply NoDup_app. repeat split; [done| |apply NoDup_singleton].
    intros z Hz ->%list_elem_of_singleton. apply Hin in Hz. rewrite Hg in E. lia.
  - intros n. rewrite occ_app, occ_cons, occ_nil. rewrite Hg.
    case_bool_decide; rewrite ?elem_of_app, ?list_elem_of_singleton, Hin;
      case_decide; subst; intuition (try lia); congruence.
Qed.

Lemma visit_nodes_flat (m : gmap string (list string)) st Q :
  foldl (visit_node m) st Q = foldl visit_dependent st (Q ≫= deps_of m).
Proof.
  revert st; induction Q as [|q Q IH]; intros st; [done|].
  rewrite bind_cons, foldl_app, <- IH. done.
Qed.

Lemma occ_bind (f : string -> list string) n Q :
  occ n (Q ≫= f) = sum_list_with (fun q => occ n (f q)) Q.
Proof.
  induction Q as [|q Q IH]; [done|]. rewrite bind_cons, occ_app, IH. done.
Qed.
End visit.

(** * The reverse adjacency *)

Section dependents.
Implicit Types E m : gmap string (list string).

Lemma deps_of_insert m n ds d :
  deps_of (<[n := ds]> m) d = if decide (n = d) then ds else deps_of m d.
Proof. unfold deps_of. case_decide; by simplify_map_eq. Qed.

Lemma deps_of_None m n : m !! n = None -> deps_of m n = [].
Proof. unfold deps_of. by intros ->. Qed.

Lemma occ_add_dependents_aux name ds m n d :
  occ n (deps_of (foldl (fun m dep => <[dep := deps_of m dep ++ [name]]> m) m ds) d) =
  occ n (deps_of m d) + (if decide (n = name) then occ d ds else 0).
Proof.
  revert m; induction ds as [|x ds IH]; intros m; simpl.
  { rewrite occ_nil. case_decide; lia. }
  rewrite IH, deps_of_insert, occ_cons.
  repeat case_decide; simplify_eq; rewrite ?occ_app, ?occ_cons, ?occ_nil;
    repeat case_decide; simplify_eq; lia.
Qed.

(** [n] is listed as a dependent of [d] as often as it declares [d]. *)
Lemma occ_dependents_map {rt : GoRuntime} E n d :
  occ n (deps_of (dependents_map E) d) = occ d (deps_of E n).
Proof.
  unfold dependents_map.
  enough (forall (l : list (string * list string)) m, NoDup l.*1 ->
    occ n (deps_of (foldl add_dependents m l) d) =
    occ n (deps_of m d) + occ d (deps_of (list_to_map l) n)) as Haux.
  { rewrite Haux by apply map_range_NoDup. rewrite map_range_to_map.
    by rewrite (deps_of_None ∅ d) by apply lookup_empty. }
  induction l as [|[name ds] l IH]; intros m Hnd; simpl.
  { rewrite (deps_of_None ∅ n), occ_nil by apply lookup_empty. lia. }
  inversion Hnd as [|? ? Hk Hnd']; subst. rewrite IH by done.
  unfold add_dependents. rewrite occ_add_dependents_aux. simpl.
  rewrite deps_of_insert. repeat case_decide; simplify_eq; [|lia..].
  rewrite (deps_of_None (list_to_map l)), occ_nil; [lia|].
  by apply not_elem_of_list_to_map_1.
Qed.
End dependents.

(** * Kahn's loop against the reference *)

Section kahn.
Context {rt : GoRuntime} (N : gmap string RegisteredAnalyzer) (E : gmap string (list string)).
Context (Hwf : wf_graph N E).

Lemma in_degrees_lookup n :
  default 0%Z (in_degrees N E !! n) = Z.of_nat (length (deps_of E n)).
Proof using.
  unfold in_degrees.
  rewrite (foldl_insert_lookup (fun ds => Z.of_nat (length ds))) by apply map_range_NoDup.
  rewrite map_range_to_map. unfold deps_of.
  destruct (E !! n); simpl; [done|].
  rewrite (foldl_insert_lookup (fun _ => 0%Z)) by apply map_range_NoDup.
  rewrite lookup_empty. by case_match.
Qed.

Lemma in_degrees_dom n : n ∈ dom (in_degrees N E) <-> n ∈ dom N.
Proof.
  rewrite elem_of_dom. unfold in_degrees.
  rewrite (foldl_insert_lookup (fun ds => Z.of_nat (length ds))) by apply map_range_NoDup.
  rewrite (foldl_insert_lookup (fun _ => 0%Z)) by apply map_range_NoDup.
  rewrite !map_range_to_map, lookup_empty. rewrite <- (wf_dom _ _ Hwf), elem_of_dom.
  destruct (E !! n) eqn:HE; [naive_solver|].
  assert (n ∉ dom N) as Hn%not_elem_of_dom by (rewrite <- (wf_dom _ _ Hwf); apply not_elem_of_dom, HE).
  by rewrite Hn.
Qed.

Lemma elem_of_ready P n :
  n ∈ ready E (dom N) P <-> n ∈ dom N /\ n ∉ P /\ forall d, depends E n d -> d ∈ P.
Proof using. unfold ready, depends. rewrite elem_of_filter, Forall_forall. naive_solver. Qed.

Lemma initial_queue_ready : initial_queue (in_degrees N E) = ready_level E (dom N) ∅.
Proof.
  apply sort_strings_unique, NoDup_Permutation.
  { apply NoDup_filter_fst, map_range_NoDup. }
  { apply NoDup_elements. }
  intros n. rewrite elem_of_elements, elem_of_ready, list_elem_of_fmap.
  setoid_rewrite list_elem_of_filter. split.
  - intros ([n' z] & -> & Hz & Hin%map_range_elem). simpl in *. subst z.
    assert (deps_of E n' = []) as Hnil.
    { apply length_zero_iff_nil. pose proof (in_degrees_lookup n') as Hd. rewrite Hin in Hd.
      simpl in Hd. lia. }
    split; [by apply in_degrees_dom, (elem_of_dom_2 _ _ _ Hin)|]. split; [set_solver|].
    unfold depends. rewrite Hnil. set_solver.
  - intros (HN & _ & Hd). apply in_degrees_dom in HN as HN'. apply elem_of_dom in HN' as [z Hz].
    exists (n, z). rewrite map_range_elem. repeat split; [|done].
    pose proof (in_degrees_lookup n) as Hl. rewrite Hz in Hl; simpl in *. rewrite Hl.
    destruct (deps_of E n) as [|d ds] eqn:HE; [done|].
    exfalso. specialize (Hd d). unfold depends in Hd. rewrite HE in Hd. set_solver.
Qed.

(** The loop invariant at the head of a level: [P] is what the earlier
    levels hold, and every degree counts the dependencies outside [P]. *)
Record kahn_inv (P : gset string) (g : gmap string Z) : Prop := {
  ki_sub : P ⊆ dom N;
  ki_closed : forall n d, n ∈ P -> depends E n d -> d ∈ P;
  ki_deg : forall n, default 0%Z (g !! n) =
    Z.of_nat (length (filter (fun d => d ∉ P) (deps_of E n)));
}.

Lemma kahn_inv_init : kahn_inv ∅ (in_degrees N E).
Proof using.
  clear Hwf. split; [set_solver|set_solver|]. intros n. rewrite in_degrees_lookup. do 2 f_equal.
  symmetry. apply list_filter_all. apply Forall_forall. set_solver.
Qed.

Lemma elem_of_ready_level P n :
  n ∈ ready_level E (dom N) P <-> (n ∈ dom N /\ n ∉ P /\ forall d, depends E n d -> d ∈ P).
Proof using.
  unfold ready_level. by rewrite elem_of_sort_strings, elem_of_elements, elem_of_ready.
Qed.

Lemma NoDup_ready_level P : NoDup (ready_level E (dom N) P).
Proof using. apply NoDup_sort_strings, NoDup_elements. Qed.

Lemma occ_level Q n :
  NoDup Q ->
  occ n (Q ≫= deps_of (dependents_map E)) =
  length (filter (fun d => d ∈ (list_to_set Q : gset string)) (deps_of E n)).
Proof using.
  clear Hwf. intros HQ. rewrite occ_bind.
  transitivity (sum_list_with (fun q => occ q (deps_of E n)) Q).
  { clear HQ. induction Q as [|q Q IH]; simpl; [done|]. by rewrite occ_dependents_map, IH. }
  rewrite sum_occ by done. f_equal. apply list_filter_iff. set_solver.
Qed.

Lemma deps_outside_zero (R : gset string) n :
  length (filter (fun d => d ∉ R) (deps_of E n)) = 0 <-> forall d, depends E n d -> d ∈ R.
Proof using.
  clear Hwf. rewrite length_filter_zero. unfold depends. split; intros H d Hd.
  - destruct (decide (d ∈ R)); [done|]. by destruct (H d Hd).
  - intros Hn. by apply Hn, H.
Qed.

(** A node becomes ready at the next level exactly when its dependencies
    were not all in [P] but are all in [P ∪ Q]. *)
Lemma ready_next P g n (Q := ready_level E (dom N) P) :
  kahn_inv P g ->
  n ∈ ready E (dom N) (P ∪ list_to_set Q) <->
  (~ (forall d, depends E n d -> d ∈ P)) /\
  (forall d, depends E n d -> d ∈ P ∪ list_to_set Q).
Proof.
  intros [Hsub Hcl _]. rewrite elem_of_ready. split.
  - intros (HnN & HnPQ & Hall). split; [|done]. intros Hc.
    apply HnPQ, elem_of_union_r, elem_of_list_to_set, elem_of_ready_level. set_solver.
  - intros [Hnot Hall]. split; [|split; [|done]].
    + destruct (decide (n ∈ dom N)) as [|Hn]; [done|]. exfalso. apply Hnot.
      rewrite <- (wf_dom _ _ Hwf) in Hn. apply not_elem_of_dom in Hn.
      unfold depends. rewrite deps_of_None by done. set_solver.
    + intros [Hp|Hq]%elem_of_union; [apply Hnot; eauto|].
      apply elem_of_list_to_set, elem_of_ready_level in Hq. naive_solver.
Qed.

Lemma kahn_level P g (Q := ready_level E (dom N) P) :
  kahn_inv P g ->
  let '(g', next) := foldl (visit_node (dependents_map E)) (g, []) Q in
  kahn_inv (P ∪ list_to_set Q) g' /\
  sort_strings next = ready_level E (dom N) (P ∪ list_to_set Q).
Proof.
  intros Hinv. pose proof Hinv as [Hsub Hcl Hdeg]. subst Q.
  set (Q := ready_level E (dom N) P). pose proof (NoDup_ready_level P : NoDup Q) as HQnd.
  assert (Hsplit : forall n, length (filter (fun d => d ∉ P) (deps_of E n)) =
    length (filter (fun d => d ∈ (list_to_set Q : gset string)) (deps_of E n)) +
    length (filter (fun d => d ∉ P ∪ list_to_set Q) (deps_of E n))).
  { intros n. apply length_filter_split. intros x Hx Hq.
    apply elem_of_list_to_set, elem_of_ready_level in Hq. naive_solver. }
  rewrite visit_nodes_flat.
  pose proof (visit_dependents_spec g (Q ≫= deps_of (dependents_map E))) as Hvisit.
  destruct (foldl visit_dependent _ _) as [g' next]. destruct Hvisit as (Hg & Hnd & Hin).
  split.
  - split.
    + intros n [?|Hn]%elem_of_union; [by apply Hsub|].
      by apply elem_of_list_to_set, elem_of_ready_level in Hn as [? _].
    + intros n d [Hn|Hn]%elem_of_union Hd; [apply elem_of_union_l; eauto|].
      apply elem_of_list_to_set, elem_of_ready_level in Hn as (_ & _ & ?). set_solver.
    + intros n. rewrite Hg, Hdeg, occ_level, (Hsplit n) by done. lia.
  - apply sort_strings_unique, NoDup_Permutation; [done|apply NoDup_elements|].
    intros n. pose proof (ready_next P g n Hinv) as Hr. fold Q in Hr.
    rewrite elem_of_elements, Hr, Hin, Hdeg, occ_level by done.
    rewrite <- !deps_outside_zero. pose proof (Hsplit n). lia.
Qed.

Lemma kahn_loop_ref fuel P g lvls ord :
  kahn_inv P g -> size (dom N ∖ P) <= fuel ->
  kahn_loop fuel (dependents_map E) g (ready_level E (dom N) P) lvls ord =
  Some (lvls ++ ref_levels fuel E (dom N) P, ord ++ concat (ref_levels fuel E (dom N) P)).
Proof.
  revert P g lvls ord; induction fuel as [|fuel IH]; intros P g lvls ord Hinv Hsz; simpl.
  - assert (ready_level E (dom N) P = []) as ->; [|by rewrite !app_nil_r].
    apply elem_of_nil_inv. intros n Hn%elem_of_ready_level.
    apply Nat.le_0_r, size_empty_inv in Hsz. set_solver.
  - destruct (ready_level E (dom N) P) as [|q Q] eqn:HQ; [by rewrite !app_nil_r|].
    pose proof (kahn_level P g Hinv) as Hlev. rewrite HQ in Hlev.
    cbv beta iota. destruct (foldl _ _ _) as [g' next]. destruct Hlev as [Hinv' ->].
    rewrite IH; [by rewrite <- !app_assoc|done|].
    enough (size (dom N ∖ (P ∪ list_to_set (q :: Q))) < size (dom N ∖ P)) by lia.
    assert (q ∈ ready_level E (dom N) P) as Hq%elem_of_ready_level by (rewrite HQ; by left).
    apply subset_size. set_solver.
Qed.

(** Kahn's algorithm returns the reference levels, whatever order the maps
    are visited in, and the fuel is enough. *)
Lemma kahnSort_ref :
  kahnSort N E = Some (ref_levels (size N) E (dom N) ∅, concat (ref_levels (size N) E (dom N) ∅)).
Proof.
  unfold kahnSort. case_bool_decide as Hsz; [by rewrite Hsz|].
  rewrite initial_queue_ready, (kahn_loop_ref _ ∅); [done|apply kahn_inv_init|].
  rewrite difference_empty_L. by rewrite size_dom.
Qed.
End kahn.

(** * What the levels are *)

Definition prefix_set (lvls : list (list string)) (i : nat) : gset string :=
  list_to_set (concat (take i lvls)).

(** [lvls] takes at each level every node that became ready, and stops only
    when no node is. *)
Record leveling (E : gmap string (list string)) (N : gset string) (lvls : list (list string)) :
    Prop := {
  lv_level : forall i L, lvls !! i = Some L ->
    L <> [] /\ L = ready_level E N (prefix_set lvls i);
  lv_done : ready E N (list_to_set (concat lvls)) = ∅;
}.

Lemma ref_levels_spec fuel E (N P : gset string) (lvls := ref_levels fuel E N P) :
  size (N ∖ P) <= fuel ->
  (forall i L, lvls !! i = Some L -> L <> [] /\ L = ready_level E N (P ∪ prefix_set lvls i)) /\
  ready E N (P ∪ list_to_set (concat lvls)) = ∅.
Proof.
  subst lvls. revert P; induction fuel as [|fuel IH]; intros P Hsz; simpl.
  - split; [done|]. apply Nat.le_0_r, size_empty_inv in Hsz. unfold ready.
    apply set_eq. intros n. rewrite elem_of_filter. set_solver.
  - destruct (ready_level E N P) as [|q Q] eqn:HQ.
    + split; [done|]. simpl. rewrite union_empty_r_L.
      apply (proj1 (sort_strings_nil _)), elements_empty_inv in HQ. by apply leibniz_equiv.
    + assert (Hlt : size (N ∖ (P ∪ list_to_set (q :: Q))) <= fuel).
      { assert (q ∈ ready_level E N P) as Hq by (rewrite HQ; by left).
        unfold ready_level in Hq. rewrite elem_of_sort_strings, elem_of_elements in Hq.
        apply elem_of_filter in Hq.
        enough (size (N ∖ (P ∪ list_to_set (q :: Q))) < size (N ∖ P)) by lia.
        apply subset_size. set_solver. }
      destruct (IH _ Hlt) as [Hl Hd]. split.
      * intros [|i] L HL; simplify_eq/=; [split; [done|]|].
        { unfold prefix_set. simpl. by rewrite union_empty_r_L, HQ. }
        destruct (Hl _ _ HL) as [? ->]. split; [done|]. f_equal. unfold prefix_set; simpl.
        rewrite list_to_set_app_L. set_solver.
      * rewrite <- Hd. f_equal. simpl. rewrite list_to_set_app_L. set_solver.
Qed.

Lemma ref_levels_leveling E (N : gset string) fuel :
  size N <= fuel -> leveling E N (ref_levels fuel E N ∅).
Proof.
  intros Hsz. destruct (ref_levels_spec fuel E N ∅) as [Hl Hd].
  { by rewrite difference_empty_L. }
  setoid_rewrite union_empty_l_L in Hl. rewrite union_empty_l_L in Hd. by split.
Qed.

Section leveling.
Context (E : gmap string (list string)) (N : gset string) (lvls : list (list string)).
Context (Hlv : leveling E N lvls).

Definition at_level (i : nat) (n : string) : Prop := exists L, lvls !! i = Some L /\ n ∈ L.

Lemma at_level_spec i n :
  at_level i n ->
  n ∈ N /\ n ∉ prefix_set lvls i /\ forall d, depends E n d -> d ∈ prefix_set lvls i.
Proof.
  intros (L & HL & Hn). destruct (lv_level _ _ _ Hlv _ _ HL) as [_ ->].
  unfold ready_level in Hn. rewrite elem_of_sort_strings, elem_of_elements in Hn.
  unfold ready in Hn. rewrite elem_of_filter, Forall_forall in Hn. unfold depends. naive_solver.
Qed.

Lemma elem_of_prefix_set i n :
  n ∈ prefix_set lvls i <-> exists j, j < i /\ at_level j n.
Proof using.
  clear Hlv. unfold prefix_set, at_level. rewrite elem_of_list_to_set, list_elem_of_In, in_concat.
  setoid_rewrite <- list_elem_of_In. split.
  - intros (L & HL & Hn). apply list_elem_of_lookup in HL as [j Hj].
    apply lookup_take_Some in Hj as [Hj ?]. eauto 10.
  - intros (j & Hji & L & HL & Hn). exists L. split; [|done].
    apply list_elem_of_lookup. exists j. by apply lookup_take_Some.
Qed.

Lemma elem_of_concat_levels n : n ∈ concat lvls <-> exists i, at_level i n.
Proof using.
  clear Hlv. unfold at_level. rewrite list_elem_of_In, in_concat.
  setoid_rewrite <- list_elem_of_In. split.
  - intros (L & [j HL]%list_elem_of_lookup & Hn). eauto.
  - intros (j & L & HL & Hn). exists L. split; [|done]. apply list_elem_of_lookup; eauto.
Qed.

(** A node's dependencies are in strictly earlier levels. *)
Lemma level_deps_before i n d :
  at_level i n -> depends E n d -> exists j, j < i /\ at_level j d.
Proof. intros (_ & _ & H)%at_level_spec Hd. by apply elem_of_prefix_set, H. Qed.

(** Levels are as early as possible: past level 0, some dependency is in the
    level just before. *)
Lemma level_tight i n :
  at_level (S i) n -> exists d, depends E n d /\ at_level i d.
Proof.
  intros Hn. destruct (at_level_spec _ _ Hn) as (HnN & Hnot & Hdeps).
  destruct Hn as (L & HL & HnL).
  destruct (lookup_lt_is_Some_2 lvls i) as [Li HLi].
  { apply lookup_lt_Some in HL. lia. }
  destruct (decide (Exists (fun d => d ∈ Li) (deps_of E n))) as [Hex|Hno].
  { apply Exists_exists in Hex as (d & Hd & Hin). exists d. split; [done|]. by exists Li. }
  exfalso. apply Hnot, elem_of_prefix_set. exists i. split; [lia|]. exists Li. split; [done|].
  destruct (lv_level _ _ _ Hlv _ _ HLi) as [_ HLi'].
  rewrite HLi'. unfold ready_level. rewrite elem_of_sort_strings, elem_of_elements.
  unfold ready. rewrite elem_of_filter, Forall_forall. split; [split|done].
  - intros (j & Hj & Hnj)%elem_of_prefix_set. apply Hnot, elem_of_prefix_set. eauto with lia.
  - intros d Hd. destruct (proj1 (elem_of_prefix_set (S i) d) (Hdeps d Hd)) as (j & Hj & Hdj).
    apply elem_of_prefix_set. exists j. split; [|done].
    destruct (decide (j = i)) as [->|]; [|lia]. exfalso. apply Hno, Exists_exists.
    exists d. split; [done|]. destruct Hdj as (L' & ? & ?). by simplify_eq.
Qed.

Lemma NoDup_levels_prefix i : NoDup (concat (take i lvls)).
Proof.
  induction i as [|i IH]; [by rewrite take_0; constructor|].
  destruct (lvls !! i) as [L|] eqn:HL.
  - rewrite (take_S_r _ _ L) by done. rewrite concat_app; simpl. rewrite app_nil_r.
    apply NoDup_app. split; [done|]. split.
    + intros n Hn HnL. assert (at_level i n) as (_ & Hnot & _)%at_level_spec by (by exists L).
      apply Hnot. unfold prefix_set. by apply elem_of_list_to_set.
    + destruct (lv_level _ _ _ Hlv _ _ HL) as [_ ->]. apply NoDup_sort_strings, NoDup_elements.
  - apply lookup_ge_None in HL. rewrite take_ge in IH |- * by lia. done.
Qed.

Lemma NoDup_levels : NoDup (concat lvls).
Proof. rewrite <- (take_ge lvls (length lvls)) by lia. apply NoDup_levels_prefix. Qed.

Lemma levels_in_nodes n : n ∈ concat lvls -> n ∈ N.
Proof. by intros (i & (? & _)%at_level_spec)%elem_of_concat_levels. Qed.

Lemma levels_length_iff :
  length (concat lvls) = size N <-> forall n, n ∈ N -> n ∈ concat lvls.
Proof.
  rewrite <- (size_list_to_set (C := gset string) (concat lvls)) by apply NoDup_levels.
  assert (Hsub : list_to_set (concat lvls) ⊆ N).
  { intros n Hn%elem_of_list_to_set. by apply levels_in_nodes. }
  split.
  - intros Hsz n Hn. apply (elem_of_list_to_set (C := gset string)).
    destruct (decide (n ∈ (list_to_set (concat lvls) : gset string))) as [|Hn']; [done|].
    exfalso. assert ((list_to_set (concat lvls) : gset string) ⊂ N) as Hlt by set_solver.
    apply subset_size in Hlt. lia.
  - intros H. f_equal. apply set_eq. intros n. rewrite elem_of_list_to_set.
    split; [apply levels_in_nodes|auto].
Qed.

(** A level assignment that covers every node rules out cycles. *)
Lemma level_tc i n d :
  at_level i n -> tc (depends E) n d -> exists j, j < i /\ at_level j d.
Proof.
  intros Hi Htc. revert i Hi. induction Htc as [n d Hd|n m d Hd _ IH]; intros i Hi.
  - by apply (level_deps_before i n).
  - destruct (level_deps_before i n m Hi Hd) as (j & ? & Hj).
    destruct (IH _ Hj) as (k & ? & ?). exists k. split; [lia|done].
Qed.

Lemma at_level_unique i j n : at_level i n -> at_level j n -> i = j.
Proof.
  intros Hi Hj. destruct (at_level_spec _ _ Hi) as (_ & Hni & _).
  destruct (at_level_spec _ _ Hj) as (_ & Hnj & _).
  destruct (lt_eq_lt_dec i j) as [[?|?]|?]; [|done|]; exfalso.
  - apply Hnj, elem_of_prefix_set; eauto.
  - apply Hni, elem_of_prefix_set; eauto.
Qed.

Lemma complete_acyclic :
  (forall n d, depends E n d -> n ∈ N) ->
  (forall n, n ∈ N -> n ∈ concat lvls) -> acyclic E.
Proof.
  intros HE Hall n Htc.
  assert (n ∈ N) as HnN by (inversion Htc; eauto).
  destruct (proj1 (elem_of_concat_levels n) (Hall n HnN)) as [i Hi].
  destruct (level_tc i n n Hi Htc) as (j & Hj & Hjn).
  rewrite (at_level_unique i j n Hi Hjn) in Hj. lia.
Qed.

(** When the levels leave nodes out, each of those depends on another of them. *)
Lemma stuck_has_dep n :
  n ∈ N -> n ∉ concat lvls -> exists d, depends E n d /\ d ∉ concat lvls.
Proof.
  intros HnN Hn.
  destruct (decide (Exists (fun d => d ∉ concat lvls) (deps_of E n))) as [Hex|Hno].
  { apply Exists_exists in Hex as (d & ? & ?). by exists d. }
  exfalso. assert (n ∈ ready E N (list_to_set (concat lvls))) as Hr.
  { unfold ready. rewrite elem_of_filter, Forall_forall, elem_of_list_to_set.
    split; [split; [done|]|done]. intros d Hd. apply elem_of_list_to_set.
    destruct (decide (d ∈ concat lvls)); [done|]. exfalso. apply Hno, Exists_exists. eauto. }
  rewrite (lv_done _ _ _ Hlv) in Hr. set_solver.
Qed.
End leveling.

(** * Cycle reporting *)

(** A closed chain of declared dependencies. *)
Record is_cycle (E : gmap string (list string)) (c : list string) : Prop := {
  cy_length : 2 <= length c;
  cy_closed : head c = last c;
  cy_chain : Sorted (depends E) c;
}.

Lemma Sorted_drop {A} (R : relation A) i (l : list A) : Sorted R l -> Sorted R (drop i l).
Proof.
  revert l; induction i as [|i IH]; intros [|x l] Hl; simpl; try done.
  apply IH. by inversion Hl.
Qed.

Lemma Sorted_snoc_last {A} (R : relation A) (l : list A) x y :
  Sorted R l -> last l = Some y -> R y x -> Sorted R (l ++ [x]).
Proof.
  intros Hl Hlast HR. apply Sorted_snoc; [done|].
  apply last_Some in Hlast as [l' ->]. by constructor.
Qed.

Lemma last_drop_lt {A} (l : list A) i y :
  last l = Some y -> i < length l -> last (drop i l) = Some y.
Proof.
  intros [l' ->]%last_Some Hi. rewrite length_app in Hi; simpl in Hi.
  rewrite drop_app_le by lia. apply last_snoc.
Qed.

Lemma Sorted_tc {A} (R : relation A) x l y :
  Sorted R (x :: l) -> l <> [] -> last l = Some y -> tc R x y.
Proof.
  revert x; induction l as [|z l IH]; intros x Hs Hne Hlast; [done|].
  inversion Hs as [|? ? Hs' Hhd]; subst. inversion Hhd; subst.
  destruct l as [|w l]; simplify_eq/=; [by apply tc_once|].
  eapply tc_l; [done|]. by apply IH.
Qed.

Lemma is_cycle_tc E c : is_cycle E c -> exists n, tc (depends E) n n.
Proof.
  intros [Hlen Hcl Hch]. destruct c as [|n [|m c]]; simpl in *; try lia.
  exists n. eapply Sorted_tc; [done|done|]. by rewrite Hcl.
Qed.

Section walk.
Context (E : gmap string (list string)) (N V : gset string).
Context (Hin : forall n d, depends E n d -> d ∈ N).
Context (Hstuck : forall n, n ∈ N -> n ∉ V -> exists d, depends E n d /\ d ∉ V).

(** What [path], [seen] and [current] satisfy at each round of the walk. *)
Record walk_inv (path : list string) (seen : gmap string nat) (current : string) : Prop := {
  wi_chain : Sorted (depends E) path;
  wi_nodup : NoDup path;
  wi_rest : Forall (fun n => n ∈ N /\ n ∉ V) path;
  wi_last : last path = Some current;
  wi_seen : forall x i, seen !! x = Some i <-> path !! i = Some x;
}.

Lemma walk_inv_bound path seen current : walk_inv path seen current -> length path <= size N.
Proof using.
  clear Hin Hstuck. intros [_ Hnd Hr _ _].
  rewrite <- (size_list_to_set (C := gset string) path) by done.
  apply subseteq_size. intros n Hn%elem_of_list_to_set. rewrite Forall_forall in Hr. by apply Hr.
Qed.

Lemma walk_inv_extend path seen current dep :
  walk_inv path seen current -> depends E current dep -> dep ∉ V -> seen !! dep = None ->
  walk_inv (path ++ [dep]) (<[dep := length path]> seen) dep.
Proof using Hin.
  clear Hstuck. intros [Hc Hnd Hr Hl Hs] Hd HV Hfresh.
  assert (Hnew : dep ∉ path).
  { intros [i Hi]%list_elem_of_lookup. apply Hs in Hi. congruence. }
  split.
  - by eapply Sorted_snoc_last.
  - apply NoDup_app. repeat split; [done| |apply NoDup_singleton].
    by intros x Hx ->%list_elem_of_singleton.
  - apply Forall_app. split; [done|]. constructor; [|done]. split; [by eapply Hin|done].
  - by rewrite last_snoc.
  - intros x i. rewrite lookup_snoc_Some, <- Hs. destruct (decide (x = dep)) as [->|Hne];
      simplify_map_eq; naive_solver eauto using lookup_lt_Some.
Qed.

Lemma cycle_walk_found fuel rem path seen current :
  walk_inv path seen current -> size N < fuel + length path ->
  exists c, cycle_walk fuel E V rem path seen current = Some (CycleFound c) /\
    is_cycle E c /\ Forall (.∈ N) c.
Proof.
  revert path seen current; induction fuel as [|fuel IH]; intros path seen current Hw Hf.
  { apply walk_inv_bound in Hw. lia. }
  simpl. pose proof Hw as [Hc Hnd Hr Hl Hs].
  assert (current ∈ path) as Hcur.
  { apply last_Some in Hl as [l' ->]. set_solver. }
  rewrite Forall_forall in Hr. destruct (Hr _ Hcur) as [HcN HcV].
  destruct (filter _ _) as [|dep rest] eqn:Hfil.
  { exfalso. destruct (Hstuck _ HcN HcV) as (d & Hd & HdV).
    assert (d ∈ filter (fun dep => dep ∉ V) (sort_strings (deps_of E current))) as Hc'.
    { apply list_elem_of_filter. by rewrite elem_of_sort_strings. }
    rewrite Hfil in Hc'. set_solver. }
  assert (depends E current dep /\ dep ∉ V) as [Hd HdV].
  { assert (dep ∈ filter (fun dep => dep ∉ V) (sort_strings (deps_of E current))) as Hc'
      by (rewrite Hfil; by left).
    apply list_elem_of_filter in Hc' as [? Hc']. by rewrite elem_of_sort_strings in Hc'. }
  destruct (seen !! dep) as [idx|] eqn:Hseen.
  - apply Hs in Hseen. exists (drop idx path ++ [dep]). split; [done|].
    assert (drop idx path = dep :: drop (S idx) path) as Hdrop by (by apply drop_S).
    split; [split|].
    + rewrite Hdrop, length_app. simpl. lia.
    + rewrite last_snoc, Hdrop. done.
    + eapply Sorted_snoc_last; [by apply Sorted_drop| |done].
      apply last_drop_lt; [done|]. by apply lookup_lt_Some in Hseen.
    + apply Forall_app. split; [|constructor; [by eapply Hin|done]].
      apply Forall_drop, Forall_forall. intros x Hx. by apply Hr.
  - apply IH; [by eapply walk_inv_extend|]. rewrite length_app. simpl. lia.
Qed.
End walk.

(** * BuildDAG *)

(** Every declared dependency is registered. *)
Definition deps_registered (N : gmap string RegisteredAnalyzer) : Prop :=
  forall n a d, N !! n = Some a -> d ∈ DependsOn a -> is_Some (N !! d).

Definition declared_edges (N : gmap string RegisteredAnalyzer) : gmap string (list string) :=
  DependsOn <$> N.

Lemma declared_depends N n d :
  depends (declared_edges N) n d <-> exists a, N !! n = Some a /\ d ∈ DependsOn a.
Proof.
  unfold depends, deps_of, declared_edges. rewrite lookup_fmap.
  destruct (N !! n) as [a|]; simpl; [naive_solver|]. set_solver.
Qed.

Lemma declared_wf N : deps_registered N -> wf_graph N (declared_edges N).
Proof.
  intros Hd. split; [unfold declared_edges; by rewrite dom_fmap_L|].
  intros n d (a & Ha & Hda)%declared_depends. apply elem_of_dom. eauto.
Qed.

Lemma build_edges_spec N todo E :
  match build_edges N todo E with
  | Ok E' =>
      (forall n a d, (n, a) ∈ todo -> d ∈ DependsOn a -> is_Some (N !! d)) /\
      E' = foldl (fun g '(k, v) => <[k := DependsOn v]> g) E todo
  | Err e => exists n a d, (n, a) ∈ todo /\ d ∈ DependsOn a /\ N !! d = None /\
      e = ErrMissingDependency n d
  end.
Proof.
  revert E; induction todo as [|[n a] todo IH]; intros E; simpl; [set_solver|].
  destruct (filter _ _) as [|d ds] eqn:Hfil.
  - specialize (IH (<[n := DependsOn a]> E)). destruct (build_edges _ _ _) as [E'|e].
    + destruct IH as [IH ->]. split; [|done].
      intros n' a' d' [?|?]%elem_of_cons Hd; [simplify_eq|by eapply IH].
      apply not_eq_None_Some. intros Hn.
      assert (d' ∈ filter (fun dep => N !! dep = None) (DependsOn a)) as Hc
        by (by apply list_elem_of_filter).
      rewrite Hfil in Hc. set_solver.
    + destruct IH as (n' & a' & d' & ? & ? & ? & ->). exists n', a', d'. set_solver.
  - assert (d ∈ filter (fun dep => N !! dep = None) (DependsOn a)) as Hc by (rewrite Hfil; by left).
    apply list_elem_of_filter in Hc as [? ?]. exists n, a, d. set_solver.
Qed.

Section build.
Context {rt : GoRuntime}.
Implicit Types N : gmap string RegisteredAnalyzer.

Lemma build_edges_registered N :
  deps_registered N -> build_edges N (map_range 6 N) ∅ = Ok (declared_edges N).
Proof.
  intros Hd. pose proof (build_edges_spec N (map_range 6 N) ∅) as Hspec.
  destruct (build_edges _ _ _) as [E'|e].
  - destruct Hspec as [_ ->]. f_equal. apply map_eq. intros n.
    rewrite (foldl_insert_lookup DependsOn) by apply map_range_NoDup.
    rewrite map_range_to_map, lookup_empty. unfold declared_edges. rewrite lookup_fmap.
    by destruct (N !! n).
  - destruct Hspec as (n & a & d & Hin%map_range_elem & Hda & Hnone & _).
    destruct (Hd _ _ _ Hin Hda) as [? ?]. congruence.
Qed.

Lemma build_edges_ok_registered N E :
  build_edges N (map_range 6 N) ∅ = Ok E -> deps_registered N.
Proof.
  pose proof (build_edges_spec N (map_range 6 N) ∅) as Hspec. intros HE.
  rewrite HE in Hspec. destruct Hspec as [H _]. intros n a d Hn Hda.
  eapply H; [|done]. by apply map_range_elem.
Qed.

Lemma elem_of_remaining N visited n :
  n ∈ remaining_nodes N visited <-> (n ∈ dom N /\ n ∉ visited).
Proof.
  unfold remaining_nodes. rewrite elem_of_sort_strings, list_elem_of_filter.
  rewrite elem_of_map_range_keys. tauto.
Qed.

(** With nodes left out of a complete levelling, the walk finds a cycle. *)
Lemma find_cycle_walk_found N E lvls :
  wf_graph N E -> leveling E (dom N) lvls -> length (concat lvls) <> size N ->
  exists c, find_cycle_walk N E (concat lvls) = Some (CycleFound c) /\
    is_cycle E c /\ Forall (.∈ dom N) c.
Proof.
  intros Hwf Hlv Hlen. unfold find_cycle_walk.
  destruct (remaining_nodes N (concat lvls)) as [|start rest] eqn:Hrem.
  { exfalso. apply Hlen. rewrite <- size_dom. apply (levels_length_iff _ _ _ Hlv).
    intros n Hn. destruct (decide (n ∈ concat lvls)); [done|]. exfalso.
    assert (n ∈ remaining_nodes N (concat lvls)) as Hc by (by apply elem_of_remaining).
    rewrite Hrem in Hc. set_solver. }
  assert (start ∈ remaining_nodes N (concat lvls)) as [HsN Hsv]%elem_of_remaining
    by (rewrite Hrem; by left).
  apply (cycle_walk_found E (dom N) (list_to_set (concat lvls))).
  - apply (wf_deps _ _ Hwf).
  - intros n HnN Hn. rewrite elem_of_list_to_set in Hn.
    destruct (stuck_has_dep _ _ _ Hlv n HnN Hn) as (d & ? & ?). exists d.
    by rewrite elem_of_list_to_set.
  - split.
    + repeat constructor.
    + apply NoDup_singleton.
    + constructor; [|done]. by rewrite elem_of_list_to_set.
    + done.
    + intros x i. rewrite list_lookup_singleton_Some, lookup_singleton_Some. naive_solver.
  - rewrite size_dom. simpl. lia.
Qed.
End build.

(** * What a well-formed DAG promises its clients *)

Record dag_ok (d : DAG) : Prop := {
  do_wf : wf_graph (nodes d) (edges d);
  do_concat : Order d = concat (Levels d);
  do_all : Order d ≡ₚ elements (dom (nodes d));
  do_before : forall l1 n l2 dep,
    Order d = l1 ++ n :: l2 -> depends (edges d) n dep -> dep ∈ l1;
  do_earlier : forall i n dep,
    at_level (Levels d) i n -> depends (edges d) n dep -> exists j, j < i /\ at_level (Levels d) j dep;
  do_tight : forall i n,
    at_level (Levels d) (S i) n -> exists dep, depends (edges d) n dep /\ at_level (Levels d) i dep;
  do_sorted : Forall (fun L => L <> [] /\ Sorted String.le L) (Levels d);
}.

Lemma NoDup_middle_unique {A} (l1 l2 k1 k2 : list A) x :
  NoDup (l1 ++ x :: l2) -> l1 ++ x :: l2 = k1 ++ x :: k2 -> l1 = k1.
Proof.
  revert k1; induction l1 as [|y l1 IH]; intros [|z k1] Hnd Heq; simplify_eq/=; [done|..].
  - exfalso. apply NoDup_cons in Hnd as [Hx _]. set_solver.
  - exfalso. apply NoDup_cons in Hnd as [Hx _]. set_solver.
  - f_equal. apply (IH k1); [|done]. by apply NoDup_cons in Hnd as [_ ?].
Qed.

Lemma leveling_before E N lvls l1 n l2 dep :
  leveling E N lvls -> concat lvls = l1 ++ n :: l2 -> depends E n dep -> dep ∈ l1.
Proof.
  intros Hlv Hord Hdep.
  assert (n ∈ concat lvls) as [i Hi]%elem_of_concat_levels by (rewrite Hord; set_solver).
  destruct (at_level_spec _ _ _ Hlv _ _ Hi) as (_ & _ & Hdeps). specialize (Hdeps dep Hdep).
  unfold prefix_set in Hdeps. rewrite elem_of_list_to_set in Hdeps.
  destruct Hi as (L & HL & HnL). apply list_elem_of_split in HnL as (La & Lb & ->).
  assert (concat lvls = (concat (take i lvls) ++ La) ++ n :: (Lb ++ concat (drop (S i) lvls))) as Hdec.
  { rewrite <- (take_drop_middle lvls i _ HL) at 1. rewrite concat_app; simpl.
    by rewrite <- !app_assoc. }
  rewrite Hord in Hdec. apply NoDup_middle_unique in Hdec as ->; [set_solver|].
  rewrite <- Hord. by eapply NoDup_levels.
Qed.

Lemma leveling_dag_ok (N : gmap string RegisteredAnalyzer) E lvls :
  wf_graph N E -> leveling E (dom N) lvls -> length (concat lvls) = size N ->
  dag_ok (mkDAG lvls (concat lvls) E N).
Proof.
  intros Hwf Hlv Hlen. split; unfold Order, Levels; simpl; try done.
  - apply NoDup_Permutation; [by eapply NoDup_levels|apply NoDup_elements|].
    intros n. rewrite elem_of_elements. split; [by eapply levels_in_nodes|].
    apply (levels_length_iff _ _ _ Hlv). by rewrite size_dom.
  - intros. by eapply leveling_before.
  - intros. by eapply level_deps_before.
  - intros. by eapply level_tight.
  - apply Forall_lookup. intros i L HL. destruct (lv_level _ _ _ Hlv _ _ HL) as [? ->].
    split; [done|]. apply sort_strings_sorted.
Qed.

Lemma kahnSort_leveling {rt : GoRuntime} N E :
  wf_graph N E -> exists lvls, kahnSort N E = Some (lvls, concat lvls) /\ leveling E (dom N) lvls.
Proof.
  intros Hwf. exists (ref_levels (size N) E (dom N) ∅). split; [by apply kahnSort_ref|].
  apply ref_levels_leveling. by rewrite size_dom.
Qed.

(** What [BuildDAG] returns once every dependency is registered. *)
Lemma BuildDAG_registered {rt : GoRuntime} r (E := declared_edges (analyzers r)) :
  deps_registered (analyzers r) ->
  exists lvls, leveling E (dom (analyzers r)) lvls /\
    (length (concat lvls) = size (analyzers r) /\
     BuildDAG r = Some (Ok (mkDAG lvls (concat lvls) E (analyzers r))) \/
     length (concat lvls) <> size (analyzers r) /\
     exists c, is_cycle E c /\ Forall (.∈ dom (analyzers r)) c /\
       BuildDAG r = Some (Err (ErrCycleDetected (formatCycle c)))).
Proof.
  intros Hreg. pose proof (declared_wf _ Hreg) as Hwf.
  destruct (kahnSort_leveling _ _ Hwf) as (lvls & Hk & Hlv). exists lvls. split; [done|].
  unfold BuildDAG. rewrite build_edges_registered by done. rewrite Hk; simpl.
  case_bool_decide as Hlen; [by left|right]. split; [done|].
  destruct (find_cycle_walk_found _ _ _ Hwf Hlv Hlen) as (c & Hc & Hcy & Hin).
  exists c. unfold findCycle. by rewrite Hc.
Qed.

(** * Subset *)

(** What visiting [ds] adds to the names already needed. *)
Record walk_post (E : gmap string (list string)) (acc : gset string) (ds : list string)
    (R : gset string) : Prop := {
  wp_keep : acc ⊆ R;
  wp_in : forall d, d ∈ ds -> d ∈ R;
  wp_reach : forall n, n ∈ R -> n ∈ acc \/ exists d, d ∈ ds /\ rtc (depends E) d n;
  wp_closed : forall n d, n ∈ R -> n ∉ acc -> depends E n d -> d ∈ R;
}.

Lemma walk_post_nil E acc : walk_post E acc [] acc.
Proof. split; set_solver. Qed.

Lemma walk_post_cons E acc d ds R1 R2 :
  walk_post E acc [d] R1 -> walk_post E R1 ds R2 -> walk_post E acc (d :: ds) R2.
Proof.
  intros [K1 I1 H1 C1] [K2 I2 H2 C2]. split.
  - set_solver.
  - set_solver.
  - intros n [Hn|(x & ? & ?)]%H2; [|set_solver].
    apply H1 in Hn as [?|(x & ->%list_elem_of_singleton & ?)]; [by left|]. right. set_solver.
  - intros n x Hn Hacc Hd. destruct (decide (n ∈ R1)); [|by eapply C2]. apply K2. by eapply C1.
Qed.

Lemma walk_post_enter E needed name R :
  walk_post E ({[name]} ∪ needed) (deps_of E name) R -> walk_post E needed [name] R.
Proof.
  intros [K I H C]. split.
  - set_solver.
  - set_solver.
  - intros n Hn. destruct (decide (n ∈ needed)) as [|Hnn]; [by left|right].
    exists name. split; [by left|]. apply H in Hn as [?|(d & Hd & Hr)].
    + assert (n = name) as -> by set_solver. done.
    + eapply rtc_l; [exact Hd|done].
  - intros n d Hn Hnn Hd. destruct (decide (n = name)) as [->|]; [by apply I|]. apply (C n); set_solver.
Qed.

Section subset.
Context (E : gmap string (list string)) (N : gset string).
Context (Hin : forall n d, depends E n d -> d ∈ N).

Definition walk_list (fuel : nat) (acc : gset string) (ds : list string) : option (gset string) :=
  foldl (fun acc dep => acc ≫= fun nd => walk fuel E nd dep) (Some acc) ds.

Lemma walk_list_spec fuel acc ds :
  (forall needed name, name ∈ N -> size (N ∖ needed) < fuel ->
    exists R, walk fuel E needed name = Some R /\ walk_post E needed [name] R) ->
  (forall d, d ∈ ds -> d ∈ N) -> size (N ∖ acc) < fuel ->
  exists R, walk_list fuel acc ds = Some R /\ walk_post E acc ds R.
Proof using.
  clear Hin. intros Hwalk. revert acc; induction ds as [|d ds IH]; intros acc Hds Hsz.
  { exists acc. split; [done|apply walk_post_nil]. }
  destruct (Hwalk acc d) as (R1 & Hw & Hp1); [set_solver|done|].
  destruct (IH R1) as (R2 & Hl & Hp2); [set_solver| |].
  { eapply Nat.le_lt_trans; [apply subseteq_size|exact Hsz].
    pose proof (wp_keep _ _ _ _ Hp1). set_solver. }
  exists R2. split; [|by eapply walk_post_cons].
  unfold walk_list in *. simpl. by rewrite Hw.
Qed.

(** The fuel [BuildDAG]'s node count gives is enough for the recursion. *)
Lemma walk_spec fuel needed name :
  name ∈ N -> size (N ∖ needed) < fuel ->
  exists R, walk fuel E needed name = Some R /\ walk_post E needed [name] R.
Proof.
  revert needed name; induction fuel as [|fuel IH]; intros needed name Hname Hsz; [lia|].
  simpl. case_bool_decide as Hn.
  { exists needed. split; [done|]. split; set_solver. }
  destruct (walk_list_spec fuel ({[name]} ∪ needed) (deps_of E name)) as (R & Hl & Hp).
  - exact IH.
  - intros d Hd. by apply (Hin name).
  - enough (size (N ∖ ({[name]} ∪ needed)) < size (N ∖ needed)) by lia.
    apply subset_size. set_solver.
  - exists R. split; [exact Hl|by apply walk_post_enter].
Qed.
End subset.

(** The names a subset needs: those requested and all they depend on. *)
Definition needed_by (E : gmap string (list string)) (names : list string) (n : string) : Prop :=
  exists m, m ∈ names /\ rtc (depends E) m n.

Lemma collect_needed_spec d names :
  wf_graph (nodes d) (edges d) -> (forall n, n ∈ names -> n ∈ dom (nodes d)) ->
  exists R, collect_needed d names = Some R /\
    (forall n, n ∈ R <-> needed_by (edges d) names n) /\
    R ⊆ dom (nodes d) /\ (forall n dep, n ∈ R -> depends (edges d) n dep -> dep ∈ R).
Proof.
  intros Hwf Hn.
  destruct (walk_list_spec (edges d) (dom (nodes d)) (S (size (nodes d))) ∅ names) as (R & Hl & Hp).
  - intros. apply (walk_spec _ (dom (nodes d))); [apply (wf_deps _ _ Hwf)|done..].
  - done.
  - rewrite difference_empty_L, size_dom. lia.
  - assert (Hcl : forall n dep, n ∈ R -> depends (edges d) n dep -> dep ∈ R).
    { intros n dep HnR Hd. eapply (wp_closed _ _ _ _ Hp); [done|set_solver|done]. }
    assert (Hiff : forall n, n ∈ R <-> needed_by (edges d) names n).
    { intros n. split.
      - intros [?|?]%(wp_reach _ _ _ _ Hp); [set_solver|done].
      - intros (m & Hm & Hr). apply (wp_in _ _ _ _ Hp) in Hm.
        induction Hr as [|x y z Hxy _ IH]; [done|]. apply IH. by eapply Hcl. }
    exists R. split; [exact Hl|]. split; [done|]. split; [|done].
    intros n (m & Hm & Hr)%Hiff. apply Hn in Hm.
    induction Hr as [|x y z Hxy _ IH]; [done|]. apply IH. by eapply (wf_deps _ _ Hwf).
Qed.

Section sub_graph.
Context (d : DAG) (R : gset string) (HR : R ⊆ dom (nodes d)).
Context (Hcl : forall n dep, n ∈ R -> depends (edges d) n dep -> dep ∈ R).

Lemma dom_sub_nodes : dom (sub_nodes d R) = R.
Proof.
  apply set_eq. intros n. unfold sub_nodes. rewrite elem_of_dom. split.
  - intros [a [? ?]%map_lookup_filter_Some]. done.
  - intros Hn. apply HR in Hn as Hd. apply elem_of_dom in Hd as [a Ha].
    exists a. by apply map_lookup_filter_Some.
Qed.

Lemma sub_edges_lookup n :
  sub_edges d R !! n = if decide (n ∈ R) then Some (deps_of (edges d) n) else None.
Proof.
  unfold sub_edges. case_decide as Hn.
  - apply lookup_set_to_map; [naive_solver|]. exists n. split; [done|]. f_equal.
    apply list_filter_all, Forall_forall. intros dep Hdep. by apply (Hcl n).
  - apply eq_None_not_Some. intros [ds Hds]. apply lookup_set_to_map in Hds; [|naive_solver].
    destruct Hds as (n' & ? & ?). naive_solver.
Qed.

Lemma sub_depends n dep : depends (sub_edges d R) n dep <-> (n ∈ R /\ depends (edges d) n dep).
Proof.
  unfold depends. unfold deps_of at 1. rewrite sub_edges_lookup.
  case_decide; simpl; [tauto|]. set_solver.
Qed.

Lemma sub_wf : wf_graph (sub_nodes d R) (sub_edges d R).
Proof.
  split; rewrite dom_sub_nodes.
  - apply set_eq. intros n. rewrite elem_of_dom, sub_edges_lookup.
    case_decide; naive_solver.
  - intros n dep [Hn Hd]%sub_depends. by apply (Hcl n).
Qed.

Lemma sub_acyclic : acyclic (edges d) -> acyclic (sub_edges d R).
Proof.
  intros Hac n Htc. apply (Hac n).
  enough (forall x y, tc (depends (sub_edges d R)) x y -> tc (depends (edges d)) x y) by eauto.
  induction 1 as [x y [_ ?]%sub_depends|x y z [_ ?]%sub_depends _ ?]; [by apply tc_once|by eapply tc_l].
Qed.
End sub_graph.

Lemma dag_ok_acyclic d : dag_ok d -> acyclic (edges d).
Proof.
  intros Hok n Htc.
  assert (forall m k i, at_level (Levels d) i m -> tc (depends (edges d)) m k ->
    exists j, j < i /\ at_level (Levels d) j k) as Hdown.
  { intros m k i Hi Hmk. revert i Hi. induction Hmk as [m k Hd|m x k Hd _ IH]; intros i Hi.
    - by eapply (do_earlier _ Hok).
    - destruct (do_earlier _ Hok i m x Hi Hd) as (j & ? & Hj).
      destruct (IH _ Hj) as (k' & ? & ?). exists k'. split; [lia|done]. }
  assert (forall i, ~ at_level (Levels d) i n) as Hno.
  { induction i as [i IH] using lt_wf_ind. intros Hi.
    destruct (Hdown _ _ _ Hi Htc) as (j & Hj & Hjn). by apply (IH j). }
  assert (n ∈ Order d) as Hn.
  { rewrite (do_all _ Hok), elem_of_elements, <- (wf_dom _ _ (do_wf _ Hok)), elem_of_dom.
    inversion Htc as [? ? Hd|? ? ? Hd]; subst; unfold depends, deps_of in Hd;
      destruct (edges d !! n); eauto; set_solver. }
  rewrite (do_concat _ Hok) in Hn. apply elem_of_concat_levels in Hn as [i Hi]. by apply (Hno i).
Qed.

(** A levelling of an acyclic graph covers every node. *)
Lemma acyclic_complete {rt : GoRuntime} N E lvls :
  wf_graph N E -> acyclic E -> leveling E (dom N) lvls -> length (concat lvls) = size N.
Proof.
  intros Hwf Hac Hlv. destruct (decide (length (concat lvls) = size N)) as [|Hne]; [done|].
  destruct (find_cycle_walk_found _ _ _ Hwf Hlv Hne) as (c & _ & (n & Hn)%is_cycle_tc & _).
  by destruct (Hac n).
Qed.

Lemma no_missing_names {V} (m : gmap string V) names :
  Forall (fun n => is_Some (m !! n)) names ->
  filter (fun name => m !! name = None) names = [].
Proof.
  intros Hn. apply length_zero_iff_nil, length_filter_zero. rewrite Forall_forall in Hn.
  intros x [? Hx]%Hn. by rewrite Hx.
Qed.

(** Restricting a well-formed DAG to a dependency-closed set of its nodes. *)
Lemma sub_dag_ok {rt : GoRuntime} d (R : gset string) :
  dag_ok d -> R ⊆ dom (nodes d) ->
  (forall n dep, n ∈ R -> depends (edges d) n dep -> dep ∈ R) ->
  exists lvls (d' := mkDAG lvls (concat lvls) (sub_edges d R) (sub_nodes d R)),
    kahnSort (sub_nodes d R) (sub_edges d R) = Some (lvls, concat lvls) /\ dag_ok d' /\
    (forall n, n ∈ Order d' <-> n ∈ R) /\
    (forall n, n ∈ R -> nodes d' !! n = nodes d !! n /\ edges d' !! n = edges d !! n).
Proof.
  intros Hok Hsub Hcl. pose proof (do_wf _ Hok) as Hwf.
  pose proof (sub_wf d R Hsub Hcl) as Hwf'.
  destruct (kahnSort_leveling _ _ Hwf') as (lvls & Hk & Hlv). exists lvls.
  assert (Hok' : dag_ok (mkDAG lvls (concat lvls) (sub_edges d R) (sub_nodes d R))).
  { apply leveling_dag_ok; [done..|]. eapply acyclic_complete; [done| |done].
    by apply sub_acyclic, dag_ok_acyclic. }
  split; [done|]. split; [done|]. split.
  - intros n. by rewrite (do_all _ Hok'), elem_of_elements; simpl; rewrite dom_sub_nodes.
  - intros n Hn. simpl. split.
    + unfold sub_nodes. pose proof (Hsub _ Hn) as [a Ha]%elem_of_dom. rewrite Ha. by apply map_lookup_filter_Some.
    + rewrite sub_edges_lookup by done. rewrite decide_True by done. unfold deps_of.
      pose proof (Hsub _ Hn) as Hd. rewrite <- (wf_dom _ _ Hwf), elem_of_dom in Hd.
      by destruct Hd as [? ->].
Qed.

Lemma BuildDAG_ok {rt : GoRuntime} r d :
  BuildDAG r = Some (Ok d) ->
  nodes d = analyzers r /\ edges d = declared_edges (analyzers r) /\ dag_ok d.
Proof.
  intros HB. assert (deps_registered (analyzers r)) as Hreg.
  { unfold BuildDAG in HB. destruct (build_edges _ _ _) eqn:HE; [|done].
    by eapply build_edges_ok_registered. }
  destruct (BuildDAG_registered r Hreg) as (lvls & Hlv & [[Hlen HB']|(_ & c & _ & _ & HB')]);
    rewrite HB' in HB; simplify_eq; simpl.
  split; [done|]. split; [done|]. by apply leveling_dag_ok; [apply declared_wf|..].
Qed.

(** * Properties *)

(** C28. A DAG that [BuildDAG] returns is an execution plan of the registry: it
    holds the registered analyzers and their declared dependencies; the flat
    order lists every analyzer exactly once, each after everything it depends
    on; the levels concatenate to the order; an analyzer's dependencies are in
    strictly earlier levels and, past level 0, one of them is in the level
    just before (no analyzer waits for a level it does not need); every level
    is non-empty and alphabetical. *)
Theorem BuildDAG_correct {rt : GoRuntime} (r : Registry) (d : DAG) :
  BuildDAG r = Some (Ok d) ->
  nodes d = analyzers r /\ edges d = declared_edges (analyzers r) /\ dag_ok d.
Proof.
  apply BuildDAG_ok.
Qed.

(** C29. [BuildDAG] always terminates, and its outcome decides the dependency
    graph: it returns a DAG exactly for registered, acyclic dependencies; a
    missing-dependency error names an analyzer and a dependency of it that is
    not registered; a cycle error prints a genuine closed chain of declared
    dependencies between registered analyzers. *)
Theorem BuildDAG_decides {rt : GoRuntime} (r : Registry) :
  exists res, BuildDAG r = Some res /\
    match res with
    | Ok _ => deps_registered (analyzers r) /\ acyclic (declared_edges (analyzers r))
    | Err (ErrMissingDependency n dep) =>
        (exists a, analyzers r !! n = Some a /\ dep ∈ DependsOn a) /\ analyzers r !! dep = None
    | Err (ErrCycleDetected text) =>
        deps_registered (analyzers r) /\
        exists c, is_cycle (declared_edges (analyzers r)) c /\
          Forall (.∈ dom (analyzers r)) c /\ text = formatCycle c
    | Err _ => False
    end.
Proof.
  destruct (build_edges (analyzers r) (map_range 6 (analyzers r)) ∅) as [E|e] eqn:HE.
  - assert (Hreg := build_edges_ok_registered _ _ HE).
    destruct (BuildDAG_registered r Hreg) as (lvls & Hlv & [[Hlen ->]|(_ & c & ? & ? & ->)]);
      eexists; (split; [done|]); simpl; [|eauto 10].
    split; [done|]. eapply (complete_acyclic _ _ _ Hlv).
    + intros n dep (a & Ha & _)%declared_depends. by apply elem_of_dom.
    + apply (levels_length_iff _ _ _ Hlv). by rewrite size_dom.
  - pose proof (build_edges_spec (analyzers r) (map_range 6 (analyzers r)) ∅) as Hs.
    rewrite HE in Hs. destruct Hs as (n & a & dep & Hn%map_range_elem & Hd & Hnone & ->).
    eexists. split; [unfold BuildDAG; by rewrite HE|]. simpl. eauto.
Qed.

(** The result of [BuildDAG] does not depend on the order in which Go
    visits its maps: any two runtimes return the same DAG or the same cycle
    error. Only which of several missing dependencies is named may vary, so
    all declared dependencies are assumed registered. *)
Theorem BuildDAG_deterministic (rt1 rt2 : GoRuntime) (r : Registry) :
  deps_registered (analyzers r) -> @BuildDAG rt1 r = @BuildDAG rt2 r.
Proof.
  intros Hreg. pose proof (declared_wf _ Hreg) as Hwf. unfold BuildDAG.
  rewrite !build_edges_registered, !kahnSort_ref by done. simpl.
  case_bool_decide; [done|]. unfold findCycle, find_cycle_walk.
  assert (forall v, @remaining_nodes rt1 (analyzers r) v = @remaining_nodes rt2 (analyzers r) v)
    as Hrem; [|by rewrite Hrem].
  intros v. apply sort_strings_unique. by rewrite !map_range_perm.
Qed.

Lemma Subset_needed {rt : GoRuntime} (d : DAG) (names : list string) :
  dag_ok d -> Forall (fun n => is_Some (nodes d !! n)) names ->
  exists d', Subset d names = Some (Ok d') /\ dag_ok d' /\
    (forall n, n ∈ Order d' <-> needed_by (edges d) names n) /\
    (forall n, n ∈ Order d' -> nodes d' !! n = nodes d !! n /\ edges d' !! n = edges d !! n).
Proof.
  intros Hok Hn. destruct (collect_needed_spec d names) as (R & HR & Hiff & Hsub & Hcl).
  { apply (do_wf _ Hok). }
  { intros n Hin. rewrite Forall_forall in Hn. by apply elem_of_dom, Hn. }
  destruct (sub_dag_ok d R Hok Hsub Hcl) as (lvls & Hk & Hok' & HinR & Hkeep).
  exists (mkDAG lvls (concat lvls) (sub_edges d R) (sub_nodes d R)).
  split; [unfold Subset; rewrite no_missing_names, HR by done; simpl; by rewrite Hk|].
  split; [done|]. split; [intros n; by rewrite HinR, Hiff|].
  intros n ?%HinR. by apply Hkeep.
Qed.

(** [Subset] of a well-formed DAG by names it contains terminates with a
    well-formed DAG of exactly those analyzers and everything they
    transitively depend on, each with its dependencies unchanged. A name the
    DAG does not contain is rejected with the not-found error for the first
    such name. *)
Theorem Subset_correct {rt : GoRuntime} (d : DAG) (names : list string) :
  dag_ok d ->
  (Forall (fun n => is_Some (nodes d !! n)) names ->
    exists d', Subset d names = Some (Ok d') /\ dag_ok d' /\
      (forall n, n ∈ Order d' <-> needed_by (edges d) names n) /\
      (forall n, n ∈ Order d' ->
        nodes d' !! n = nodes d !! n /\ edges d' !! n = edges d !! n)) /\
  (forall l1 n l2, names = l1 ++ n :: l2 -> Forall (fun n => is_Some (nodes d !! n)) l1 ->
    nodes d !! n = None -> Subset d names = Some (Err (ErrNotFound n))).
Proof.
  intros Hok. split.
  - by apply Subset_needed.
  - intros l1 n l2 -> Hl1 Hnone. unfold Subset. rewrite filter_app, no_missing_names by done.
    simpl. by rewrite filter_cons_True.
Qed.

(** * Witnesses *)

(** The production analyzers and their declared dependencies. *)
Definition sample_registry : Registry := mkRegistry (list_to_map ((fun a => (Name a, a)) <$>
  [mkAnalyzer "classification" []; mkAnalyzer "embedding" ["classification"];
   mkAnalyzer "artifacts" []; mkAnalyzer "requires" ["embedding"];
   mkAnalyzer "relationship" ["embedding"]])).

Definition sample_dag : DAG :=
  match @BuildDAG forward_runtime sample_registry with
  | Some (Ok d) => d
  | _ => mkDAG [] [] ∅ ∅
  end.

Lemma BuildDAG_correct_witness :
  @BuildDAG forward_runtime sample_registry = Some (Ok sample_dag) /\
  nodes sample_dag = analyzers sample_registry /\
  edges sample_dag = declared_edges (analyzers sample_registry) /\ dag_ok sample_dag.
Proof.
  split; [by vm_compute|].
  apply (@BuildDAG_correct forward_runtime sample_registry sample_dag). by vm_compute.
Defined.

Lemma BuildDAG_deterministic_witness :
  @BuildDAG forward_runtime sample_registry = @BuildDAG reverse_runtime sample_registry.
Proof.
  apply (BuildDAG_deterministic forward_runtime reverse_runtime sample_registry).
  apply (@build_edges_ok_registered forward_runtime _ (declared_edges (analyzers sample_registry))).
  by vm_compute.
Defined.

Lemma Subset_correct_witness :
  dag_ok sample_dag /\
  exists d', @Subset forward_runtime sample_dag ["requires"] = Some (Ok d') /\
    Order d' = ["classification"; "embedding"; "requires"].
Proof.
  assert (dag_ok sample_dag) as Hok.
  { eapply (@BuildDAG_ok forward_runtime sample_registry sample_dag). by vm_compute. }
  split; [done|].
  destruct (@Subset_correct forward_runtime sample_dag ["requires"] Hok) as [H _].
  destruct H as (d' & HS & _).
  { constructor; [|done]. vm_compute. eauto. }
  exists d'. split; [done|].
  assert (Some (Ok d') = @Subset forward_runtime sample_dag ["requires"]) as HE by done.
  vm_compute in HE. by injection HE as ->.
Defined.
