(* ===== verification/Consensus.v ===== *)
(** Weighted consensus over model votes: [pkg/analyzer/consensus/consensus.go]
    and [types.go]. The OpenTelemetry span and histogram of a [Computer] have no
    effect on its results and are left out. *)

From Stdlib Require Import ZArith Lia.
From S2P Require Import Prelude Float64.
Local Open Scope Z_scope.

(** * Definitions *)

Record Vote := mkVote {
  VoterID : string;
  Decision : option bool;
  Confidence : string;
  Weight : float64;
  Justification : string;
  RawResponse : string;
}.

Record Result := mkResult {
  r_Decision : bool;
  ConfidenceFraction : float64;
  Unanimous : bool;
  ValidVoteCount : Z;
  TotalVoteCount : Z;
  TotalWeight : float64;
}.

(** [RequiredMin] is an [int] conversion of a float64, see [fto_int]. *)
Inductive consensus_error :=
| ErrNoVotes
| ErrInsufficientVotes (ValidCount : Z) (RequiredMin : option Z) (TotalCount ErrorCount : Z).

Record Computer := mkComputer {
  threshold : float64;
  minValidVotes : Z;
  maxErrorRate : float64;
}.

Definition Option : Type := Computer -> Computer.

Definition fhalf : float64 := fconst 1 2.

Definition WithThreshold (t : float64) : Option := fun c =>
  mkComputer (if fltb t fzero || fltb fone t then fhalf else t) (minValidVotes c) (maxErrorRate c).

Definition WithMinValidVotes (n : Z) : Option := fun c =>
  mkComputer (threshold c) n (maxErrorRate c).

Definition WithMaxErrorRate (f : float64) : Option := fun c =>
  mkComputer (threshold c) (minValidVotes c) (if fltb f fzero || fltb fone f then fzero else f).

Definition New (opts : list Option) : Computer :=
  foldl (fun c opt => opt c) (mkComputer fhalf 0 fzero) opts.

(** The loop of [Compute] over the votes. *)
Record tally := mkTally {
  yesWeight : float64;
  noWeight : float64;
  totalWeight : float64;
  validCount : Z;
}.

Definition effective_weight (v : Vote) : float64 :=
  if feqb (Weight v) fzero then fone else Weight v.

Definition count_vote (t : tally) (v : Vote) : tally :=
  match Decision v with
  | None => t
  | Some d =>
      let w := effective_weight v in
      mkTally (if d then (yesWeight t + w)%float else yesWeight t)
              (if d then noWeight t else (noWeight t + w)%float)
              (totalWeight t + w)%float (validCount t + 1)
  end.

Definition count_votes (votes : list Vote) : tally :=
  foldl count_vote (mkTally fzero fzero fzero 0) votes.

Definition Compute (c : Computer) (votes : list Vote) : result consensus_error Result :=
  let n := Z.of_nat (length votes) in
  if n =? 0 then Err ErrNoVotes
  else
    let t := count_votes votes in
    let valid := validCount t in
    if (0 <? minValidVotes c) && (valid <? minValidVotes c) then
      Err (ErrInsufficientVotes valid (Some (minValidVotes c)) n (n - valid))
    else if (fltb fzero (maxErrorRate c)) && (valid <? n) &&
            fltb (maxErrorRate c) (fof_Z (n - valid) / fof_Z n)%float then
      Err (ErrInsufficientVotes valid
             (fto_int ((fone - maxErrorRate c) * fof_Z n)%float) n (n - valid))
    else if valid =? 0 then Ok (mkResult false fzero false 0 n fzero)
    else
      let decision := fltb (noWeight t) (yesWeight t) in
      let majorityWeight := if decision then yesWeight t else noWeight t in
      Ok (mkResult decision (majorityWeight / totalWeight t)%float
            (feqb (yesWeight t) (totalWeight t) || feqb (noWeight t) (totalWeight t))
            valid n (totalWeight t)).

Definition MeetsThreshold (c : Computer) (r : Result) : bool :=
  fleb (threshold c) (ConfidenceFraction r).

(** * Lemmas *)

(** A weight a configuration can carry: a non-negative number (or [-0]). *)
Definition weight_ok (v : Vote) : bool :=
  is_float64 (Weight v) && fleb fzero (Weight v) && fltb (Weight v) (Inf false).

Lemma effective_weight_pos v :
  weight_ok v = true ->
  exists w, effective_weight v = Fin false w /\ 0 < w /\ representable w = true.
Proof.
  unfold weight_ok, effective_weight. rewrite !andb_true_iff. intros [[Hf H0] H1].
  destruct (Weight v) as [|[]|s m]; try done.
  apply fin_float64 in Hf as [Hr Ho]. pose proof (representable_nonneg _ Hr).
  assert (0 <= sval s m) as Hs.
  { apply orb_true_iff in H0 as [E%Z.ltb_lt|E%Z.eqb_eq]; simpl in E; lia. }
  change (feqb (Fin s m) fzero) with (sval s m =? 0).
  destruct (Z.eqb_spec (sval s m) 0) as [E|E]; [by exists one_mag|].
  destruct s; simpl in *; [lia|]. exists m. split_and!; [done|lia|done].
Qed.

(** What the loop maintains until the total overflows to infinity. *)
Record tally_fin (t : tally) (y n w : Z) : Prop := {
  tf_yes : yesWeight t = Fin false y;
  tf_no : noWeight t = Fin false n;
  tf_total : totalWeight t = Fin false w;
  tf_yes_le : 0 <= y <= w;
  tf_no_le : 0 <= n <= w;
  tf_repr : representable w = true;
  tf_count : 0 <= validCount t;
  tf_pos : 0 < validCount t -> 0 < w;
}.

Definition tally_inv (t : tally) : Prop :=
  totalWeight t = Inf false \/ exists y n w, tally_fin t y n w.

Lemma round_add_mono y t w s :
  0 <= y <= t -> 0 <= w -> representable w = true -> round false (t + w) 1 = Fin false s ->
  exists y', round false (y + w) 1 = Fin false y' /\ w <= y' <= s.
Proof.
  intros Hy Hw Hr [-> Ho]%round_Fin. exists (round_mag (y + w) 1).
  assert (round_mag (y + w) 1 <= round_mag (t + w) 1) as Hle by (apply round_mag_mono; lia).
  split; [|split; [apply round_add_ge; done || lia|done]].
  unfold round. rewrite (proj2 (Z.leb_gt _ _)); [done|lia].
Qed.

Lemma count_vote_inv t v : weight_ok v = true -> tally_inv t -> tally_inv (count_vote t v).
Proof.
  intros Hok Ht. unfold count_vote. destruct (Decision v) as [d|]; [|done].
  destruct (effective_weight_pos v Hok) as (w & -> & Hw & Hr).
  destruct Ht as [Ht|(y & n & s & [Hy Hn Hs Hys Hns Hc Hp])]; [left; simpl; by rewrite Ht|].
  rewrite Hy, Hn, Hs. destruct (round false (s + w) 1) as [|b|b s'] eqn:E.
  - exfalso. revert E. unfold round. by destruct (_ <=? _).
  - left. cbn [totalWeight]. rewrite fadd_nonneg by lia. rewrite E. revert E.
    unfold round. destruct (_ <=? _); congruence.
  - assert (b = false) as -> by (revert E; unfold round; destruct (_ <=? _); congruence).
    pose proof E as [Es _]%round_Fin.
    assert (s <= s' /\ w <= s') as [Hss Hws].
    { subst s'. split; apply round_mag_ge; done || lia. }
    assert (representable s' = true) by (subst s'; apply round_mag_representable; lia).
    right. destruct d.
    + destruct (round_add_mono y s w s' Hys ltac:(lia) Hr E) as (y' & Ey & Hy').
      exists y', n, s'. split; cbn [yesWeight noWeight totalWeight validCount];
        rewrite ?fadd_nonneg by lia; done || lia.
    + destruct (round_add_mono n s w s' Hns ltac:(lia) Hr E) as (n' & En & Hn').
      exists y, n', s'. split; cbn [yesWeight noWeight totalWeight validCount];
        rewrite ?fadd_nonneg by lia; done || lia.
Qed.

Lemma count_votes_inv votes :
  Forall (fun v => weight_ok v = true) votes -> tally_inv (count_votes votes).
Proof.
  unfold count_votes. assert (tally_inv (mkTally fzero fzero fzero 0)) as Hinit.
  { right. exists 0, 0, 0. split; simpl; done || lia. }
  revert Hinit. generalize (mkTally fzero fzero fzero 0).
  induction votes as [|v votes IH]; intros t Ht Hok; [done|]. simpl.
  apply Forall_cons_1 in Hok as [Hv Hok]. apply IH; [by apply count_vote_inv|done].
Qed.

(** The votes that count, and their number. *)
Definition valid_votes (votes : list Vote) : list Vote :=
  filter (fun v => is_Some (Decision v)) votes.

Lemma count_votes_valid votes : validCount (count_votes votes) = Z.of_nat (length (valid_votes votes)).
Proof.
  unfold count_votes, valid_votes.
  enough (forall t, validCount (foldl count_vote t votes) =
    validCount t + Z.of_nat (length (filter (fun v => is_Some (Decision v)) votes))) as ->
    by (simpl; lia).
  induction votes as [|v votes IH]; intros t; simpl; [lia|].
  rewrite IH. unfold count_vote. destruct (Decision v) as [d|] eqn:E.
  - rewrite filter_cons_True by (rewrite E; eauto). simpl. lia.
  - rewrite filter_cons_False by (rewrite E; by intros []). lia.
Qed.

(** The branch of [Compute] that reaches a weighted decision. *)
Lemma Compute_ok c votes r :
  Compute c votes = Ok r -> 0 < ValidVoteCount r ->
  let t := count_votes votes in
  r = mkResult (fltb (noWeight t) (yesWeight t))
        ((if fltb (noWeight t) (yesWeight t) then yesWeight t else noWeight t) / totalWeight t)%float
        (feqb (yesWeight t) (totalWeight t) || feqb (noWeight t) (totalWeight t))
        (validCount t) (Z.of_nat (length votes)) (totalWeight t).
Proof.
  unfold Compute. do 3 (case_match; [done|]). case_match; [by intros [= <-]|]. by intros [= <-].
Qed.

(** * Properties *)

(** A confidence is a fraction: whatever non-negative weights the votes
    carry (zero counts as one), when [Compute] reaches a decision and the total
    weight has not overflowed, the total is positive and the confidence it
    reports is a number between 0 and 1, in the rounded arithmetic of float64. *)
Theorem Compute_confidence_bounds (c : Computer) (votes : list Vote) (r : Result) :
  Forall (fun v => weight_ok v = true) votes ->
  Compute c votes = Ok r -> 0 < ValidVoteCount r -> TotalWeight r <> Inf false ->
  fltb fzero (TotalWeight r) = true /\
  fleb fzero (ConfidenceFraction r) = true /\ fleb (ConfidenceFraction r) fone = true.
Proof.
  intros Hok Hr Hv Ht. pose proof (Compute_ok _ _ _ Hr Hv) as E. simpl in E.
  destruct (count_votes_inv votes Hok) as [Hi|(y & n & w & [Hy Hn Hw Hyw Hnw _ Hc Hp])];
    [subst r; done|].
  subst r. cbn [ConfidenceFraction TotalWeight ValidVoteCount] in *. specialize (Hp Hv).
  rewrite Hw, Hy, Hn. split; [by apply Z.ltb_lt|].
  set (d := fltb _ _).
  assert (exists m, 0 <= m <= w /\ (if d then Fin false y else Fin false n) = Fin false m)
    as (m & Hm & ->) by (destruct d; eauto).
  destruct (fdiv_le_one m w Hm Hp) as (q & -> & Hq). split; apply fleb_fin; apply Hq.
Qed.

(** ** Integer weights *)

Section integer_weights.
Context (wt : Vote -> Z).

(** What a vote counts for, and the votes of one side. *)
Definition units (v : Vote) : Z := if wt v =? 0 then 1 else wt v.
Definition votes_for (d : bool) (v : Vote) : bool :=
  match Decision v with Some d' => Bool.eqb d' d | None => false end.
Definition side (d : bool) (votes : list Vote) : Z :=
  foldr (fun v acc => (if votes_for d v then units v else 0) + acc) 0 votes.

Definition int_weight (v : Vote) : Prop := 0 <= wt v /\ Weight v = fof_Z (wt v).

Lemma units_pos v : int_weight v -> 0 < units v.
Proof. intros [H _]. unfold units. destruct (Z.eqb_spec (wt v) 0); lia. Qed.

Lemma side_nonneg d votes : Forall int_weight votes -> 0 <= side d votes.
Proof.
  induction 1 as [|v votes Hv _ IH]; simpl; [lia|].
  pose proof (units_pos v Hv). destruct (votes_for d v); lia.
Qed.

Lemma side_snoc d votes v :
  side d (votes ++ [v]) = side d votes + (if votes_for d v then units v else 0).
Proof. induction votes as [|u votes IH]; simpl; [lia|]. rewrite IH. lia. Qed.

Lemma effective_weight_units v :
  int_weight v -> units v <= 2 ^ 53 -> effective_weight v = Fin false (units v * one_mag).
Proof.
  intros [H0 Hw] Hu. unfold effective_weight, units in *. rewrite Hw.
  destruct (Z.eqb_spec (wt v) 0) as [E|E].
  - rewrite E. by vm_compute.
  - rewrite fof_Z_exact by lia. pose proof one_mag_pos.
    change (feqb _ fzero) with (wt v * one_mag =? 0). by rewrite (proj2 (Z.eqb_neq _ _)) by nia.
Qed.

Definition exact_tally (y n valid : Z) : tally :=
  mkTally (Fin false (y * one_mag)) (Fin false (n * one_mag)) (Fin false ((y + n) * one_mag)) valid.

Lemma fadd_units a b :
  0 <= a -> 0 <= b -> a + b <= 2 ^ 53 ->
  fadd (Fin false (a * one_mag)) (Fin false (b * one_mag)) = Fin false ((a + b) * one_mag).
Proof.
  intros Ha Hb Hab. pose proof one_mag_pos. rewrite fadd_exact; [f_equal; lia|nia|nia| |];
    rewrite <- Z.mul_add_distr_r; [apply representable_int|apply int_no_overflow]; lia.
Qed.

Lemma count_votes_exact votes :
  Forall int_weight votes -> side true votes + side false votes <= 2 ^ 53 ->
  count_votes votes =
    exact_tally (side true votes) (side false votes) (Z.of_nat (length (valid_votes votes))).
Proof.
  intros Hw Hs.
  enough (count_votes votes =
    exact_tally (side true votes) (side false votes) (validCount (count_votes votes))) as ->
    by (simpl; by rewrite <- count_votes_valid).
  induction votes as [|v votes IH] using rev_ind; [by vm_compute|].
  apply Forall_app in Hw as [Hw Hv]. rewrite Forall_singleton in Hv.
  pose proof (side_nonneg true _ Hw). pose proof (side_nonneg false _ Hw).
  rewrite !side_snoc in *. unfold votes_for in *. pose proof (units_pos v Hv).
  unfold count_votes in *. rewrite foldl_snoc. destruct (Decision v) as [d|] eqn:E; rewrite ?E in *.
  - rewrite IH by (done || (destruct d; simpl in *; lia)).
    unfold count_vote. rewrite E, effective_weight_units by (done || (destruct d; simpl in *; lia)).
    unfold exact_tally at 1. cbn [yesWeight noWeight totalWeight validCount].
    destruct d; simpl in *; rewrite !fadd_units by lia; unfold exact_tally; f_equal; f_equal; lia.
  - rewrite IH by (done || (simpl in *; lia)). unfold count_vote. rewrite E.
    unfold exact_tally. simpl. f_equal; f_equal; lia.
Qed.

Lemma side_zero d votes :
  Forall int_weight votes ->
  side d votes = 0 <-> Forall (fun v => Decision v <> Some d) votes.
Proof.
  induction 1 as [|v votes Hv Hw IH]; simpl; [by rewrite Forall_nil|].
  rewrite Forall_cons, <- IH. pose proof (units_pos v Hv). pose proof (side_nonneg d _ Hw).
  unfold votes_for. destruct (Decision v) as [d'|]; [|naive_solver lia].
  destruct d', d; simpl; naive_solver lia.
Qed.

Lemma sides_pos votes :
  Forall int_weight votes -> valid_votes votes <> [] -> 0 < side true votes + side false votes.
Proof.
  intros Hw Hne. pose proof (side_nonneg true _ Hw). pose proof (side_nonneg false _ Hw).
  destruct (Z.eq_dec (side true votes) 0) as [Ht|]; [|lia].
  destruct (Z.eq_dec (side false votes) 0) as [Hf|]; [|lia].
  apply side_zero in Ht, Hf; [|done..].
  destruct Hne. apply elem_of_nil_inv. intros v [[d Hd] Hv]%list_elem_of_filter.
  rewrite Forall_forall in Ht, Hf. specialize (Ht _ Hv). specialize (Hf _ Hv). by destruct d.
Qed.

(** A majority is at least half, also after rounding. *)
Lemma fdiv_ge_half m p :
  0 < p -> p <= 2 * m -> m <= p -> fleb fhalf (fdiv (Fin false m) (Fin false p)) = true.
Proof.
  intros Hp Hm Hmp. destruct (fdiv_le_one m p ltac:(lia) Hp) as (q & E & Hq).
  pose proof E as E'. rewrite E.
  assert (fhalf = Fin false (2 ^ 1073)) as -> by by vm_compute.
  apply fleb_fin. change (fdiv _ _) with
    (if p =? 0 then (if m =? 0 then NaN else Inf false) else round false (m * one_mag) p) in E'.
  rewrite (proj2 (Z.eqb_neq _ _)) in E' by lia. apply round_Fin in E' as [-> _].
  assert (one_mag = 2 * 2 ^ 1073) as Eo by by vm_compute.
  assert (0 < 2 ^ 1073) by done.
  apply round_mag_ge; [nia|done|by vm_compute|nia].
Qed.

(** On integer weights that sum to at most 2^53 (every unweighted vote
    counts one) the consensus is exact: the total is the sum of the weights, the
    decision is yes exactly when the yes weight is strictly larger, [Unanimous]
    holds exactly when all valid votes agree, and the confidence is at least one
    half, so a decision always meets the default threshold. *)
Theorem Compute_exact (c : Computer) (votes : list Vote) (r : Result) :
  Forall int_weight votes -> side true votes + side false votes <= 2 ^ 53 ->
  Compute c votes = Ok r -> 0 < ValidVoteCount r ->
  ValidVoteCount r = Z.of_nat (length (valid_votes votes)) /\
  TotalWeight r = fof_Z (side true votes + side false votes) /\
  r_Decision r = (side false votes <? side true votes) /\
  (Unanimous r = true <->
   exists d, Forall (fun v => Decision v = None \/ Decision v = Some d) votes) /\
  MeetsThreshold (New []) r = true.
Proof.
  intros Hw Hs Hr Hv. pose proof (Compute_ok _ _ _ Hr Hv) as ->.
  pose proof (side_nonneg true _ Hw) as HY. pose proof (side_nonneg false _ Hw) as HN.
  rewrite count_votes_exact in * by done. set (Y := side true votes) in *.
  set (N := side false votes) in *. unfold exact_tally in *. cbn in Hv.
  cbn [yesWeight noWeight totalWeight validCount ValidVoteCount TotalWeight r_Decision Unanimous].
  pose proof one_mag_pos as H1.
  assert (fltb (Fin false (N * one_mag)) (Fin false (Y * one_mag)) = (N <? Y)) as Ed.
  { change (fltb _ _) with (N * one_mag <? Y * one_mag).
    destruct (Z.ltb_spec N Y); [apply Z.ltb_lt|apply Z.ltb_ge]; nia. }
  split; [done|]. split; [by rewrite fof_Z_exact by lia|]. split; [done|]. split.
  - rewrite orb_true_iff.
    change (feqb (Fin false (Y * one_mag)) _) with (Y * one_mag =? (Y + N) * one_mag).
    change (feqb (Fin false (N * one_mag)) _) with (N * one_mag =? (Y + N) * one_mag).
    rewrite !Z.eqb_eq. trans (N = 0 \/ Y = 0); [split; intros []; nia|].
    unfold N, Y. rewrite !side_zero by done. split.
    + intros [H|H]; [exists true|exists false]; eapply Forall_impl; [exact H| |exact H|]; simpl;
        intros v Hne; destruct (Decision v) as [[]|]; naive_solver.
    + intros [[] H]; [left|right]; (eapply Forall_impl; [exact H|]); simpl; naive_solver.
  - unfold MeetsThreshold. cbn [ConfidenceFraction]. rewrite Ed.
    change (threshold (New [])) with fhalf.
    assert (0 < Y + N) by (apply sides_pos; [done|]; intros E; by rewrite E in Hv).
    destruct (Z.ltb_spec N Y); apply fdiv_ge_half; nia.
Qed.
End integer_weights.

(** [Unanimous] is documented as "all valid votes agree", but it compares
    rounded sums: two finite positive weights of different size and opposite
    decisions are reported as unanimous, with confidence 1. *)
Theorem Unanimous_can_disagree :
  exists votes r,
    Forall (fun v => weight_ok v = true) votes /\
    Decision <$> votes = [Some true; Some false] /\
    Compute (New []) votes = Ok r /\ Unanimous r = true /\ ConfidenceFraction r = fone.
Proof.
  exists [mkVote "a" (Some true) "HIGH" fone "" ""; mkVote "b" (Some false) "LOW" (fconst 1 (2 ^ 60)) "" ""].
  eexists. split; [repeat constructor; by vm_compute|]. split; [done|].
  split; [vm_compute; reflexivity|]. split; by vm_compute.
Qed.

(** * Witnesses *)

Definition sample_votes : list Vote :=
  [mkVote "m1" (Some true) "HIGH" fzero "" ""; mkVote "m2" (Some false) "LOW" (fof_Z 2) "" "";
   mkVote "m3" None "" fzero "" ""; mkVote "m4" (Some true) "MEDIUM" (fof_Z 3) "" ""].
Definition sample_computer : Computer := New [WithThreshold (fconst 6 10); WithMinValidVotes 2].
Definition sample_result : Result :=
  mkResult true (fconst 4 6) false 3 4 (fof_Z 6).

Lemma Compute_confidence_bounds_witness :
  Compute sample_computer sample_votes = Ok sample_result /\
  fleb fzero (ConfidenceFraction sample_result) = true /\
  fleb (ConfidenceFraction sample_result) fone = true.
Proof.
  assert (Compute sample_computer sample_votes = Ok sample_result) as H by (vm_compute; reflexivity).
  split; [exact H|].
  refine (proj2 (Compute_confidence_bounds sample_computer sample_votes sample_result _ H _ _)).
  - repeat constructor; vm_compute; reflexivity.
  - vm_compute; reflexivity.
  - vm_compute; congruence.
Defined.

Lemma Compute_exact_witness :
  let wt v := match VoterID v with "m2" => 2 | "m4" => 3 | _ => 0 end%string in
  Compute sample_computer sample_votes = Ok sample_result /\
  side wt true sample_votes = 4 /\ side wt false sample_votes = 2 /\
  (Unanimous sample_result = true <->
   exists d, Forall (fun v => Decision v = None \/ Decision v = Some d) sample_votes).
Proof.
  intros wt.
  assert (Compute sample_computer sample_votes = Ok sample_result) as H by (vm_compute; reflexivity).
  split; [exact H|]. split; [vm_compute; reflexivity|]. split; [vm_compute; reflexivity|].
  refine (proj1 (proj2 (proj2 (proj2 (Compute_exact wt sample_computer sample_votes sample_result _ _ H _))))).
  - repeat constructor; vm_compute; congruence.
  - vm_compute; congruence.
  - vm_compute; reflexivity.
Defined.
