(* ===== verification/Candidate.v ===== *)
(** Candidate pairs and their aggregation: [pkg/analyzer/candidate], files
    [types.go], [generator.go], [registry.go] and [aggregation.go].

    Every [for range] over a map is a [map_range] of the runtime and every
    [sort.Slice] a [slice_sort], so the theorems hold for whatever order the
    runtime picks. The request handed to the generators is a parameter of the
    model: the registry only passes it on. Telemetry is left out. *)

From Stdlib Require Import ZArith Lia.
From S2P Require Import Prelude Float64.

(** * Definitions *)

Record Contribution := mkContribution {
  cn_GeneratorID : string;
  cn_Score : float64;
  cn_Weight : float64;
  cn_Rank : float64;
  cn_Metadata : gmap string string;
}.

Record Candidate := mkCandidate {
  SourceID : string;
  TargetID : string;
  Score : float64;
  Weight : float64;
  GeneratorID : string;
  Metadata : gmap string string;
  Contributions : list Contribution;
}.

(** Go's zero value. *)
#[export] Instance Candidate_inhabited : Inhabited Candidate :=
  populate (mkCandidate "" "" fzero fzero "" ∅ []).

Record generateConfig := mkGenerateConfig { minScore : float64; maxPerSource : Z }.
Definition GenerateOption : Type := generateConfig -> generateConfig.
Definition WithMinScore (score : float64) : GenerateOption := fun cfg =>
  mkGenerateConfig score (maxPerSource cfg).
Definition WithMaxPerSource (n : Z) : GenerateOption := fun cfg =>
  mkGenerateConfig (minScore cfg) n.

Definition StrategyUnion : string := "union".
Definition StrategyWeightedUnion : string := "weighted_union".
Definition StrategyRankFusion : string := "rank_fusion".

Inductive candidate_error (E : Type) :=
| ErrEmptyName
| ErrAlreadyRegistered (name : string)
| ErrGeneratorNotFound (name : string)
| ErrGeneratorFailed (name : string) (e : E)
| ErrUnknownStrategy (strategy : string)
| ErrMaxPerSource (n : Z).
Arguments ErrEmptyName {E}.
Arguments ErrAlreadyRegistered {E} name.
Arguments ErrGeneratorNotFound {E} name.
Arguments ErrGeneratorFailed {E} name e.
Arguments ErrUnknownStrategy {E} strategy.
Arguments ErrMaxPerSource {E} n.

Definition pairKey (sourceID targetID : string) : string := sourceID +:+ ":" +:+ targetID.

Definition key_of (c : Candidate) : string := pairKey (SourceID c) (TargetID c).

Definition set_score (s : float64) (c : Candidate) : Candidate :=
  mkCandidate (SourceID c) (TargetID c) s (Weight c) (GeneratorID c) (Metadata c) (Contributions c).

Definition rrfK : float64 := fof_Z 60.

(** The [less] of both [sort.Slice] calls on candidates: score descending, then
    target. *)
Definition score_less (a b : Candidate) : bool :=
  if negb (feqb (Score a) (Score b)) then fltb (Score b) (Score a)
  else String.ltb (TargetID a) (TargetID b).

Definition generator_less (a b : Contribution) : bool :=
  String.ltb (cn_GeneratorID a) (cn_GeneratorID b).

Section aggregation.
Context {R : GoRuntime} {E : Type}.

Definition aggregateUnion (candidateSets : list (list Candidate)) : list Candidate :=
  let seen : gmap string Candidate :=
    foldl (foldl (fun seen c =>
      match seen !! key_of c with Some _ => seen | None => <[key_of c := c]> seen end))
      ∅ candidateSets in
  (map_range 20 seen).*2.

Record pairData := mkPairData {
  pd_sourceID : string;
  pd_targetID : string;
  pd_weightedSum : float64;
  pd_totalWeight : float64;
  pd_contributions : list Candidate;
}.

Definition add_weighted (pairs : gmap string pairData) (c : Candidate) : gmap string pairData :=
  let pd := default (mkPairData (SourceID c) (TargetID c) fzero fzero []) (pairs !! key_of c) in
  <[key_of c := mkPairData (pd_sourceID pd) (pd_targetID pd)
      (pd_weightedSum pd + Weight c * Score c)%float (pd_totalWeight pd + Weight c)%float
      (pd_contributions pd ++ [c])]> pairs.

Definition weighted_result (minScore : float64) (pd : pairData) : option Candidate :=
  if feqb (pd_totalWeight pd) fzero then None
  else
    let normalizedScore := (pd_weightedSum pd / pd_totalWeight pd)%float in
    if fleb minScore normalizedScore
    then Some (set_score normalizedScore (pd_contributions pd !!! 0%nat))
    else None.

Definition aggregateWeightedUnion (candidateSets : list (list Candidate)) (minScore : float64) :
    list Candidate :=
  let pairs := foldl (foldl add_weighted) ∅ candidateSets in
  omap (fun kv => weighted_result minScore kv.2) (map_range 21 pairs).

(** ** Fractional ranks *)

(** The inner scan: the last position of the tie block that starts at [i]. *)
Fixpoint tie_end (group : list Candidate) (order : list nat) (i j fuel : nat) : nat :=
  match fuel with
  | 0 => j
  | S fuel' =>
      if bool_decide (j + 1 < length order) &&
         feqb (Score (group !!! (order !!! (j + 1)%nat))) (Score (group !!! (order !!! i)))
      then tie_end group order i (j + 1) fuel'
      else j
  end%nat.

Definition assign_ranks (order : list nat) (mean : float64) (i j : nat) (ranks : list float64) :
    list float64 :=
  foldl (fun ranks k => <[order !!! k := mean]> ranks) ranks (seq i (j + 1 - i)).

Fixpoint rank_loop (fuel : nat) (group : list Candidate) (order : list nat) (i : nat)
    (ranks : list float64) : list float64 :=
  match fuel with
  | 0 => ranks
  | S fuel' =>
      if bool_decide (i < length order)%nat then
        let j := tie_end group order i i (length order) in
        let mean := (fof_Z (Z.of_nat i + 1 + Z.of_nat j + 1) / fof_Z 2)%float in
        rank_loop fuel' group order (j + 1)%nat (assign_ranks order mean i j ranks)
      else ranks
  end.

Definition fractionalRanks (group : list Candidate) : list float64 :=
  let order := slice_sort (fun a b => score_less (group !!! a) (group !!! b)) (seq 0 (length group)) in
  rank_loop (length order) group order 0 (replicate (length group) fzero).

(** ** Rank fusion *)

Definition contribution (c : Candidate) (rank : float64) : Contribution :=
  mkContribution (GeneratorID c) (Score c) (Weight c) rank (Metadata c).

Definition add_contribution (pairs : gmap string Candidate) (cr : Candidate * float64) :
    gmap string Candidate :=
  let '(c, rank) := cr in
  let fused := default (mkCandidate (SourceID c) (TargetID c) fzero fone "" ∅ []) (pairs !! key_of c) in
  <[key_of c := mkCandidate (SourceID fused) (TargetID fused) (Score fused) (Weight fused)
      (GeneratorID fused) (Metadata fused) (Contributions fused ++ [contribution c rank])]> pairs.

Definition fuse_group (pairs : gmap string Candidate) (group : list Candidate) :
    gmap string Candidate :=
  foldl add_contribution pairs (zip group (fractionalRanks group)).

Definition fuse_set (pairs : gmap string Candidate) (set : list Candidate) : gmap string Candidate :=
  foldl fuse_group pairs (map_range 22 (group_by SourceID set)).*2.

(** Sorting the contributions, summing the score and naming the generators. *)
Definition finish_pair (fused : Candidate) : Candidate :=
  let cs := slice_sort generator_less (Contributions fused) in
  let score := foldl (fun s cn => s + cn_Weight cn / (rrfK + cn_Rank cn))%float (Score fused) cs in
  mkCandidate (SourceID fused) (TargetID fused) score (Weight fused)
    (join "+" (cn_GeneratorID <$> cs)) (Metadata fused) cs.

Definition cap_group (maxPerSource : nat) (group : list Candidate) : list Candidate :=
  take maxPerSource (slice_sort score_less group).

Definition aggregateRankFusion (candidateSets : list (list Candidate)) (maxPerSource : Z) :
    result (candidate_error E) (list Candidate) :=
  if (maxPerSource <? 1)%Z then Err (ErrMaxPerSource maxPerSource)
  else
    let pairs := foldl fuse_set ∅ candidateSets in
    let perSource := group_by SourceID (finish_pair <$> (map_range 23 pairs).*2) in
    let sourceIDs := sort_strings (map_range 24 perSource).*1 in
    Ok (sourceIDs ≫= fun s =>
          cap_group (Z.to_nat maxPerSource) (default [] (perSource !! s))).

Definition aggregate (candidateSets : list (list Candidate)) (strategy : string)
    (cfg : generateConfig) : result (candidate_error E) (list Candidate) :=
  if bool_decide (strategy = StrategyUnion) then Ok (aggregateUnion candidateSets)
  else if bool_decide (strategy = StrategyWeightedUnion)
  then Ok (aggregateWeightedUnion candidateSets (minScore cfg))
  else if bool_decide (strategy = StrategyRankFusion)
  then aggregateRankFusion candidateSets (maxPerSource cfg)
  else Err (ErrUnknownStrategy strategy).

(** ** The registry *)

Context {Req : Type}.

Record Generator := mkGenerator {
  Name : string;
  Generate_ : Req -> result E (list Candidate);
}.

Record Registry := mkRegistry { generators : gmap string Generator }.

Definition NewRegistry : Registry := mkRegistry ∅.

Definition Register (r : Registry) (g : Generator) : result (candidate_error E) Registry :=
  if bool_decide (Name g = "") then Err ErrEmptyName
  else
    match generators r !! Name g with
    | Some _ => Err (ErrAlreadyRegistered (Name g))
    | None => Ok (mkRegistry (<[Name g := g]> (generators r)))
    end.

Definition Get (r : Registry) (name : string) : result (candidate_error E) Generator :=
  match generators r !! name with
  | Some g => Ok g
  | None => Err (ErrGeneratorNotFound name)
  end.

Definition All (r : Registry) : list Generator := (map_range 25 (generators r)).*2.

Fixpoint run_generators (gs : list Generator) (req : Req) :
    result (candidate_error E) (list (list Candidate)) :=
  match gs with
  | [] => Ok []
  | g :: gs' =>
      match Generate_ g req with
      | Err e => Err (ErrGeneratorFailed (Name g) e)
      | Ok cs => run_generators gs' req ≫= fun sets => Ok (cs :: sets)
      end
  end.

Definition Generate (r : Registry) (req : Req) (strategy : string) (opts : list GenerateOption) :
    result (candidate_error E) (list Candidate) :=
  let cfg := foldl (fun cfg opt => opt cfg) (mkGenerateConfig fzero 0) opts in
  let gens := (map_range 26 (generators r)).*2 in
  match gens with
  | [] => Ok []
  | _ =>
      match run_generators gens req with
      | Err e => Err e
      | Ok allCandidates => aggregate allCandidates strategy cfg
      end
  end.
End aggregation.
Arguments Generator : clear implicits.
Arguments Registry : clear implicits.
