(* ===== verification/CandidateFacts.v ===== *)
(** Proofs about candidate aggregation: [Candidate.v]'s functions against
    their specifications. *)

From Stdlib Require Import ZArith Lia.
From S2P Require Import Prelude Float64 Candidate.

(** * Sorting by score *)

Definition number (c : Candidate) : Prop := is_nan (Score c) = false.

(** The order of the float64 numbers, as [lia] understands it. *)
Definition key_lt (x y : float64) : Prop :=
  (fclass x < fclass y \/ (fclass x = fclass y /\ fmant x < fmant y))%Z.
Definition key_eq (x y : float64) : Prop := (fclass x = fclass y /\ fmant x = fmant y)%Z.

Lemma score_less_true a b :
  number a -> number b ->
  score_less a b = true <->
  key_lt (Score b) (Score a) \/
  (key_eq (Score a) (Score b) /\ String.ltb (TargetID a) (TargetID b) = true).
Proof.
  intros Ha Hb. unfold score_less. destruct (feqb (Score a) (Score b)) eqn:E; simpl.
  - apply feqb_key in E; [|done..]. unfold key_lt, key_eq. intuition lia.
  - rewrite fltb_key by done. apply feqb_key_false in E; [|done..].
    unfold key_lt, key_eq in *. intuition.
Qed.

Lemma score_less_false a b :
  number a -> number b ->
  score_less a b = false <->
  key_lt (Score a) (Score b) \/
  (key_eq (Score a) (Score b) /\ String.ltb (TargetID a) (TargetID b) = false).
Proof.
  intros Ha Hb. rewrite <- not_true_iff_false, score_less_true by done.
  rewrite <- (not_true_iff_false (String.ltb _ _)). unfold key_lt, key_eq.
  destruct (String.ltb _ _); intuition lia.
Qed.

Lemma score_less_sw l : Forall number l -> strict_weak score_less l.
Proof.
  intros H. rewrite Forall_forall in H. split.
  - intros a Ha. apply score_less_false; auto. right. unfold key_eq. by rewrite string_ltb_irrefl.
  - intros a b c Ha Hb Hc. rewrite !score_less_true by auto. unfold key_lt, key_eq.
    intros [?|[? H1]] [?|[? H2]]; try (left; lia). right. split; [lia|].
    by eapply string_ltb_trans.
  - intros a b c Ha Hb Hc. rewrite !score_less_false by auto. unfold key_lt, key_eq.
    intros [?|[? H1]] [?|[? H2]]; try (left; lia). right. split; [lia|].
    by eapply string_ltb_incomp.
Qed.

(** * Fractional ranks *)

(** How many of [group] score higher than [s], and how many score the same. *)
Definition higher (group : list Candidate) (s : float64) : nat :=
  length (filter (fun c => fltb s (Score c) = true) group).
Definition tied (group : list Candidate) (s : float64) : nat :=
  length (filter (fun c => feqb (Score c) s = true) group).

(** The mean of the positions [higher + 1 .. higher + tied]. *)
Definition mean_rank (group : list Candidate) (s : float64) : float64 :=
  (fof_Z (2 * Z.of_nat (higher group s) + Z.of_nat (tied group s) + 1) / fof_Z 2)%float.

Lemma foldl_ranks_length {A} (f : nat -> nat) (v : A) ks rs :
  length (foldl (fun rs k => <[f k := v]> rs) rs ks) = length rs.
Proof. revert rs. induction ks as [|k ks IH]; intros rs; simpl; [done|]. by rewrite IH, length_insert. Qed.

Lemma foldl_ranks_lookup {A} (f : nat -> nat) (v : A) ks rs x :
  x < length rs ->
  foldl (fun rs k => <[f k := v]> rs) rs ks !! x =
  if bool_decide (x ∈ f <$> ks) then Some v else rs !! x.
Proof.
  revert rs. induction ks as [|k ks IH]; intros rs Hx; simpl; [done|].
  rewrite IH by by rewrite length_insert. rewrite (bool_decide_ext (x ∈ f k :: _) (x = f k \/ x ∈ f <$> ks))
    by apply elem_of_cons.
  destruct (decide (x ∈ f <$> ks)) as [Hin|Hin].
  - rewrite (bool_decide_eq_true_2 _ Hin). by rewrite bool_decide_eq_true_2 by auto.
  - rewrite (bool_decide_eq_false_2 _ Hin). clear IH. case_bool_decide as Hor.
    + destruct Hor as [->|]; [by apply list_lookup_insert_eq|done].
    + apply list_lookup_insert_ne. naive_solver.
Qed.

Section ranks.
Context {R : GoRuntime} (group : list Candidate).
Hypothesis Hnum : Forall number group.

Let order := slice_sort (fun a b => score_less (group !!! a) (group !!! b)) (seq 0 (length group)).
Let sorted := (fun k => group !!! k) <$> order.
Let sc (p : nat) : float64 := Score (group !!! (order !!! p)).

Lemma order_perm : order ≡ₚ seq 0 (length group).
Proof. apply slice_sort_perm. Qed.

Lemma order_length : length order = length group.
Proof. by rewrite order_perm, length_seq. Qed.

Lemma order_lookup p : p < length group -> order !! p = Some (order !!! p) /\ order !!! p < length group.
Proof.
  intros Hp. rewrite <- order_length in Hp. apply lookup_lt_is_Some_2 in Hp as [k Hk].
  rewrite (list_lookup_total_correct _ _ _ Hk). split; [done|].
  apply list_elem_of_lookup_2 in Hk. rewrite order_perm, elem_of_seq in Hk. lia.
Qed.

Lemma group_number k : k < length group -> number (group !!! k).
Proof.
  intros [c Hc]%lookup_lt_is_Some_2. rewrite (list_lookup_total_correct _ _ _ Hc).
  rewrite Forall_lookup in Hnum. by eapply Hnum.
Qed.

Lemma sorted_perm : sorted ≡ₚ group.
Proof.
  assert ((fun k => group !!! k) <$> seq 0 (length group) = group) as E.
  2: { trans ((fun k => group !!! k) <$> seq 0 (length group)); [|by rewrite E].
       unfold sorted. by rewrite order_perm. }
  apply list_eq. intros k. rewrite list_lookup_fmap. destruct (decide (k < length group)) as [Hk|Hk].
  - rewrite lookup_seq_lt by done. simpl. by rewrite list_lookup_lookup_total_lt.
  - rewrite lookup_seq_ge, lookup_ge_None_2 by lia. done.
Qed.

Lemma sorted_lookup p c : sorted !! p = Some c -> Score c = sc p /\ p < length group.
Proof.
  unfold sorted. rewrite list_lookup_fmap, fmap_Some. intros (k & Hk & ->).
  pose proof (lookup_lt_Some _ _ _ Hk) as Hp. rewrite order_length in Hp.
  unfold sc. by rewrite (list_lookup_total_correct _ _ _ Hk).
Qed.

Lemma sc_number p : p < length group -> is_nan (sc p) = false.
Proof. intros Hp. apply group_number. by apply order_lookup. Qed.

Lemma sc_sorted p q : p < q -> q < length group -> ~ key_lt (sc p) (sc q).
Proof.
  intros Hpq Hq Hlt.
  assert (StronglySorted (fun a b => score_less (group !!! b) (group !!! a) = false) order) as Hs.
  { apply slice_sort_sorted. pose proof (score_less_sw group Hnum) as [H1 H2 H3].
    assert (forall k, k ∈ seq 0 (length group) -> group !!! k ∈ group) as Hin.
    { intros k [_ Hk]%elem_of_seq. apply list_elem_of_lookup_total_2. lia. }
    split; eauto. }
  pose proof (order_lookup p ltac:(lia)) as [Hop Hp']. pose proof (order_lookup q Hq) as [Hoq Hq'].
  pose proof (StronglySorted_lookup _ _ p q _ _ Hs Hpq Hop Hoq) as Hle. simpl in Hle.
  apply score_less_false in Hle; [|by apply group_number..].
  unfold sc, key_lt, key_eq in *. intuition lia.
Qed.

Lemma tie_end_spec i j fuel :
  i <= j < length order -> length order <= j + fuel ->
  (forall k, i <= k <= j -> key_eq (sc k) (sc i)) ->
  let e := tie_end group order i j fuel in
  i <= e < length order /\ (forall k, i <= k <= e -> key_eq (sc k) (sc i)) /\
  (e + 1 < length order -> ~ key_eq (sc (e + 1)) (sc i)).
Proof.
  revert j. induction fuel as [|fuel IH]; intros j Hj Hfuel Hk; simpl; [lia|].
  rewrite order_length in *.
  case_bool_decide as Hlt; simpl; [|split_and!; [lia..|done|lia]].
  change (Score (group !!! (order !!! (j + 1)))) with (sc (j + 1)).
  change (Score (group !!! (order !!! i))) with (sc i).
  destruct (feqb (sc (j + 1)) (sc i)) eqn:E.
  - apply feqb_key in E; [|by apply sc_number; lia..].
    apply IH; [lia..|]. intros k Hk'. destruct (decide (k = j + 1)) as [->|]; [done|].
    apply Hk. lia.
  - apply feqb_key_false in E; [|by apply sc_number; lia..]. split_and!; [lia..|done|].
    intros _. done.
Qed.

(** One tie block, when everything before it scores higher. *)
Lemma block_mean i e k :
  i <= e < length group ->
  (forall p, p < i -> key_lt (sc i) (sc p)) ->
  (forall p, i <= p <= e -> key_eq (sc p) (sc i)) ->
  (e + 1 < length group -> ~ key_eq (sc (e + 1)) (sc i)) ->
  i <= k <= e ->
  mean_rank group (sc k) = (fof_Z (Z.of_nat i + 1 + Z.of_nat e + 1) / fof_Z 2)%float.
Proof.
  intros He Hhigh Heq Hend Hk.
  pose proof (Heq k Hk) as Ek. pose proof (sc_number k ltac:(lia)) as Nk.
  assert (forall p, e < p -> p < length group -> key_lt (sc p) (sc i)) as Hlow.
  { intros p Hp Hpl. pose proof (sc_sorted (e + 1) p). pose proof (sc_sorted i p ltac:(lia) Hpl).
    destruct (decide (p = e + 1)) as [->|]; [specialize (Hend Hpl)|].
    - unfold key_lt, key_eq in *. lia.
    - pose proof (sc_sorted i (e + 1) ltac:(lia) ltac:(lia)). specialize (Hend ltac:(lia)).
      specialize (H ltac:(lia) Hpl). unfold key_lt, key_eq in *. lia. }
  assert (higher group (sc k) = i) as Hh.
  { unfold higher. rewrite <- sorted_perm. rewrite (length_filter_interval _ _ 0 i); [lia| |].
    - rewrite sorted_perm. lia.
    - intros p c [-> Hp]%sorted_lookup. rewrite fltb_key by (done || by apply sc_number).
      split; intros Hc.
      + destruct (decide (p < i)); [lia|]. exfalso.
        destruct (decide (p <= e)) as [Hpe|]; [pose proof (Heq p ltac:(lia))|pose proof (Hlow p ltac:(lia) Hp)];
          unfold key_lt, key_eq in *; lia.
      + pose proof (Hhigh p ltac:(lia)). unfold key_lt, key_eq in *. lia. }
  assert (tied group (sc k) = e + 1 - i) as Ht.
  { unfold tied. rewrite <- sorted_perm. rewrite (length_filter_interval _ _ i (e + 1)); [lia| |].
    - rewrite sorted_perm. lia.
    - intros p c [-> Hp]%sorted_lookup. rewrite feqb_key by (done || by apply sc_number).
      split; intros Hc.
      + destruct (decide (p < i)) as [Hpi|]; [pose proof (Hhigh p Hpi)|];
          [unfold key_lt, key_eq in *; lia|].
        destruct (decide (p <= e)); [lia|].
        pose proof (Hlow p ltac:(lia) Hp). unfold key_lt, key_eq in *. lia.
      + pose proof (Heq p ltac:(lia)). unfold key_lt, key_eq in *. lia. }
  unfold mean_rank. rewrite Hh, Ht. do 2 f_equal. lia.
Qed.

Lemma assign_ranks_length mean i e ranks : length (assign_ranks order mean i e ranks) = length ranks.
Proof. apply foldl_ranks_length. Qed.

Lemma assign_ranks_lookup mean i e ranks p :
  length ranks = length group -> p < length group -> e < length group ->
  assign_ranks order mean i e ranks !! (order !!! p) =
  if bool_decide (i <= p <= e) then Some mean else ranks !! (order !!! p).
Proof.
  intros Hlen Hp He. unfold assign_ranks. pose proof (order_lookup p Hp) as [Hop Hb].
  rewrite foldl_ranks_lookup by lia. erewrite bool_decide_ext; [done|].
  rewrite list_elem_of_fmap. setoid_rewrite elem_of_seq. split.
  - intros (k & Ek & Hk). pose proof (order_lookup k ltac:(lia)) as [Hok _].
    rewrite <- Ek in Hok.
    assert (NoDup order) as HN by (rewrite order_perm; apply NoDup_seq).
    pose proof (NoDup_lookup _ _ _ _ HN Hop Hok). lia.
  - intros H. exists p. split; [done|lia].
Qed.

Lemma rank_loop_spec fuel i ranks :
  length order <= i + fuel -> length ranks = length group -> i <= length group ->
  (forall p q, p < i -> i <= q < length group -> key_lt (sc q) (sc p)) ->
  (forall p, p < i -> ranks !! (order !!! p) = Some (mean_rank group (sc p))) ->
  let ranks' := rank_loop fuel group order i ranks in
  length ranks' = length group /\
  forall p, p < length group -> ranks' !! (order !!! p) = Some (mean_rank group (sc p)).
Proof.
  revert i ranks. induction fuel as [|fuel IH]; intros i ranks Hf Hlen Hi Hhigh Hdone; simpl.
  { rewrite order_length in Hf. split; [done|]. intros p Hp. apply Hdone. lia. }
  rewrite order_length in *. case_bool_decide as Hlt; [|split; [done|]; intros p Hp; apply Hdone; lia].
  destruct (tie_end_spec i i (length group)) as (He & Heq & Hend);
    [rewrite order_length; lia..|by intros k Hk; replace k with i by lia|].
  set (e := tie_end group order i i (length group)) in *. rewrite order_length in *.
  apply IH; [lia|by rewrite assign_ranks_length|lia| |].
  - intros p q Hp Hq. destruct (decide (p < i)) as [Hpi|Hpi]; [apply Hhigh; lia|].
    pose proof (Heq p ltac:(lia)). pose proof (Hend ltac:(lia)).
    pose proof (sc_sorted i (e + 1) ltac:(lia) ltac:(lia)).
    destruct (decide (q = e + 1)) as [->|]; [unfold key_lt, key_eq in *; lia|].
    pose proof (sc_sorted (e + 1) q ltac:(lia) ltac:(lia)). unfold key_lt, key_eq in *. lia.
  - intros p Hp. rewrite assign_ranks_lookup by (done || lia). case_bool_decide as Hb.
    + f_equal. symmetry. eapply block_mean; eauto; lia.
    + apply Hdone. lia.
Qed.

Lemma fractionalRanks_length : length (fractionalRanks group) = length group.
Proof.
  unfold fractionalRanks. fold order. rewrite order_length.
  apply rank_loop_spec; [rewrite order_length; lia|apply length_replicate|lia|lia|lia].
Qed.

(** The rank of every candidate, whatever order ties were sorted in. *)
Lemma fractionalRanks_lookup k c :
  group !! k = Some c -> fractionalRanks group !! k = Some (mean_rank group (Score c)).
Proof.
  intros Hk. pose proof (lookup_lt_Some _ _ _ Hk) as Hlt.
  assert (k ∈ order) as Hin by (rewrite order_perm, elem_of_seq; lia).
  apply list_elem_of_lookup in Hin as [p Hp].
  pose proof (lookup_lt_Some _ _ _ Hp) as Hpl. rewrite order_length in Hpl.
  unfold fractionalRanks. fold order. rewrite order_length.
  destruct (rank_loop_spec (length group) 0 (replicate (length group) fzero)) as [_ H];
    [rewrite order_length; lia|apply length_replicate|lia|lia|lia|].
  specialize (H p Hpl). rewrite (list_lookup_total_correct _ _ _ Hp) in H. rewrite H.
  unfold sc. rewrite (list_lookup_total_correct _ _ _ Hp).
  by rewrite (list_lookup_total_correct _ _ _ Hk).
Qed.

Lemma fractionalRanks_fmap : fractionalRanks group = (fun c => mean_rank group (Score c)) <$> group.
Proof.
  apply list_eq. intros k. rewrite list_lookup_fmap. destruct (group !! k) as [c|] eqn:E; simpl.
  - by apply fractionalRanks_lookup.
  - apply lookup_ge_None in E. apply lookup_ge_None. by rewrite fractionalRanks_length.
Qed.
End ranks.

(** * Keys *)

Lemma pairKey_inj s1 t1 s2 t2 :
  free_of ":" s1 -> free_of ":" s2 -> pairKey s1 t1 = pairKey s2 t2 -> s1 = s2 /\ t1 = t2.
Proof.
  unfold pairKey, free_of. intros H1 H2 H.
  apply (f_equal String.list_ascii_of_string) in H. rewrite !list_ascii_app in H. simpl in H.
  revert s2 H2 H. induction s1 as [|c s1 IH]; intros [|c2 s2] H2 H; simpl in *; simplify_eq.
  - split; [done|]. by apply list_ascii_inj.
  - destruct H2. by left.
  - destruct H1. by left.
  - edestruct IH as [-> ->]; [|  |done|done]; set_solver.
Qed.

(** What the aggregation needs of the generators' output: pairs are told apart
    by their keys, scores are numbers, weights are non-negative and finite. *)
Record good_input (cs : list Candidate) : Prop := {
  gi_keys : forall c1 c2, c1 ∈ cs -> c2 ∈ cs -> key_of c1 = key_of c2 ->
    SourceID c1 = SourceID c2 /\ TargetID c1 = TargetID c2;
  gi_number : Forall number cs;
  gi_weight : forall c, c ∈ cs -> exists m, Weight c = Fin false m /\ (0 <= m)%Z;
}.

(** * Rank fusion: what is accumulated for a pair *)

Definition of_source (s : string) (set : list Candidate) : list Candidate :=
  filter (fun c => SourceID c = s) set.

Lemma of_source_number s set : Forall number set -> Forall number (of_source s set).
Proof. rewrite !Forall_forall. intros H c [_ Hc]%list_elem_of_filter. auto. Qed.

Definition ranked_in (s t : string) (set : list Candidate) : list (Candidate * float64) :=
  (fun c => (c, mean_rank (of_source s set) (Score c))) <$>
    filter (fun c => TargetID c = t) (of_source s set).

Definition contributions_in (s t : string) (set : list Candidate) : list Contribution :=
  (fun cr => contribution cr.1 cr.2) <$> ranked_in s t set.

Definition contributions_of (sets : list (list Candidate)) (s t : string) : list Contribution :=
  sets ≫= contributions_in s t.

Definition input_pair (sets : list (list Candidate)) (s t : string) : Prop :=
  exists c, c ∈ concat sets /\ SourceID c = s /\ TargetID c = t.

Lemma ranked_in_elem s t set c r :
  (c, r) ∈ ranked_in s t set <->
  c ∈ set /\ SourceID c = s /\ TargetID c = t /\ r = mean_rank (of_source s set) (Score c).
Proof.
  unfold ranked_in. rewrite list_elem_of_fmap. split.
  - intros (? & [= <- ->] & [? [? ?]%list_elem_of_filter]%list_elem_of_filter). done.
  - intros (? & ? & ? & ->). exists c. split; [done|].
    apply list_elem_of_filter. split; [done|]. by apply list_elem_of_filter.
Qed.

Definition base (c : Candidate) : Candidate :=
  mkCandidate (SourceID c) (TargetID c) fzero fone "" ∅ [].

Definition with_contributions (f : Candidate) (cs : list Contribution) : Candidate :=
  mkCandidate (SourceID f) (TargetID f) (Score f) (Weight f) (GeneratorID f) (Metadata f)
    (Contributions f ++ cs).

Lemma add_contributions_lookup pairs l k :
  foldl add_contribution pairs l !! k =
  match filter (fun cr => key_of cr.1 = k) l with
  | [] => pairs !! k
  | (c, r) :: l' => Some (with_contributions (default (base c) (pairs !! k))
      ((fun cr => contribution cr.1 cr.2) <$> (c, r) :: l'))
  end.
Proof.
  induction l as [|[c r] l IH] using rev_ind; [done|].
  rewrite foldl_snoc, filter_app. unfold add_contribution at 1.
  destruct (decide (key_of c = k)) as [<-|Hne].
  - rewrite lookup_insert_eq, IH, filter_cons_True by done.
    destruct (filter _ l) as [|[c' r'] l']; [done|]. simpl.
    unfold with_contributions. simpl. by rewrite fmap_app, <- app_assoc.
  - rewrite lookup_insert_ne by done. rewrite IH, filter_cons_False by done.
    by rewrite app_nil_r.
Qed.

Section fusion.
Context {R : GoRuntime}.

Definition ranked (set : list Candidate) : list (Candidate * float64) :=
  map_range 22 (group_by SourceID set) ≫= fun kv => zip kv.2 (fractionalRanks kv.2).

Lemma fuse_sets_flat sets pairs :
  foldl fuse_set pairs sets = foldl add_contribution pairs (sets ≫= ranked).
Proof.
  revert pairs. induction sets as [|set sets IH]; intros pairs; [done|].
  rewrite bind_cons, foldl_app. simpl. rewrite IH. f_equal. unfold fuse_set, ranked.
  generalize (map_range 22 (group_by SourceID set)). intros gs. clear.
  revert pairs. induction gs as [|g gs IH]; intros pairs; [done|].
  rewrite bind_cons, foldl_app. simpl. by rewrite IH.
Qed.

Lemma group_of_source set s g :
  group_by SourceID set !! s = Some g -> g = of_source s set /\ g <> [].
Proof.
  rewrite group_by_lookup. simpl. unfold of_source. destruct (filter _ set); [done|].
  by intros [= <-].
Qed.

Lemma ranked_filter set s t :
  Forall number set ->
  (forall c, c ∈ set -> key_of c = pairKey s t -> SourceID c = s /\ TargetID c = t) ->
  filter (fun cr => key_of cr.1 = pairKey s t) (ranked set) = ranked_in s t set.
Proof.
  intros Hnum Hkey. unfold ranked. rewrite filter_bind.
  assert (forall kv, kv ∈ map_range 22 (group_by SourceID set) -> kv <> (s, of_source s set) ->
    filter (fun cr => key_of cr.1 = pairKey s t) (zip kv.2 (fractionalRanks kv.2)) = []) as Hother.
  { intros [s' g] [-> Hg]%map_range_elem%group_of_source Hne. simpl.
    apply elem_of_nil_inv. intros [c r] [Hc Hin]%list_elem_of_filter. simpl in Hc.
    apply elem_of_zip_l, list_elem_of_filter in Hin as [Hs Hin].
    destruct (Hkey c Hin Hc) as [Hs' _]. congruence. }
  destruct (group_by SourceID set !! s) as [g|] eqn:E.
  - pose proof (group_of_source _ _ _ E) as [-> _].
    rewrite (bind_single _ _ (s, of_source s set)); [|apply map_range_entries|by apply map_range_elem|done].
    simpl. rewrite fractionalRanks_fmap by by apply of_source_number.
    rewrite zip_fmap_r. apply filter_fmap_ext. intros c [Hs Hin]%list_elem_of_filter. simpl.
    split; [intros Hk; by apply (Hkey c Hin)|]. intros <-. unfold key_of. congruence.
  - rewrite bind_none.
    + rewrite group_by_lookup in E. simpl in E. unfold ranked_in, of_source. by destruct (filter _ set).
    + intros [s' g] Hin. apply Hother; [done|]. intros [= -> _].
      apply map_range_elem in Hin. congruence.
Qed.

(** The pairs the first loop leaves behind. *)
Definition unfinished (sets : list (list Candidate)) (s t : string) : Candidate :=
  mkCandidate s t fzero fone "" ∅ (contributions_of sets s t).

Lemma good_input_sub cs cs' : cs' ⊆ cs -> good_input cs -> good_input cs'.
Proof.
  intros Hsub [H1 H2 H3]. split; [by eauto| |by eauto].
  rewrite Forall_forall in *. eauto.
Qed.

Lemma good_set sets set : good_input (concat sets) -> set ∈ sets -> good_input set.
Proof.
  intros H Hin. eapply good_input_sub; [|done]. intros c Hc. apply elem_of_concat. eauto.
Qed.

Lemma pairs_filter sets s t :
  good_input (concat sets) -> input_pair sets s t ->
  filter (fun cr => key_of cr.1 = pairKey s t) (sets ≫= ranked) =
  sets ≫= ranked_in s t.
Proof.
  intros Hgood (c0 & Hc0 & <- & <-). rewrite filter_bind. apply bind_ext_in.
  intros set Hset. apply ranked_filter; [by apply (good_set sets set)|].
  intros c Hc Hk. apply (gi_keys _ Hgood); [apply elem_of_concat; eauto|done..].
Qed.

Lemma pairs_lookup sets s t :
  good_input (concat sets) -> input_pair sets s t ->
  foldl fuse_set ∅ sets !! pairKey s t = Some (unfinished sets s t).
Proof.
  intros Hgood Hin. rewrite fuse_sets_flat, add_contributions_lookup, pairs_filter by done.
  rewrite lookup_empty. simpl default. unfold unfinished, contributions_of, contributions_in.
  rewrite <- fmap_bind_list. destruct (sets ≫= ranked_in s t) as [|[c r] l'] eqn:E.
  - exfalso. destruct Hin as (c & Hc & Hs & Ht). apply elem_of_concat in Hc as (set & Hset & Hc).
    apply (not_elem_of_nil (c, mean_rank (of_source s set) (Score c))). rewrite <- E.
    apply list_elem_of_bind. exists set. by rewrite ranked_in_elem.
  - assert ((c, r) ∈ sets ≫= ranked_in s t) as Hc by (rewrite E; left).
    apply list_elem_of_bind in Hc as (set & Hc & _).
    apply ranked_in_elem in Hc as (_ & <- & <- & _). done.
Qed.

Lemma pairs_dom sets k f :
  foldl fuse_set ∅ sets !! k = Some f -> exists s t, input_pair sets s t /\ k = pairKey s t.
Proof.
  rewrite fuse_sets_flat, add_contributions_lookup, lookup_empty.
  destruct (filter _ _) as [|[c r] l] eqn:E; [done|]. intros _.
  assert ((c, r) ∈ filter (fun cr => key_of cr.1 = k) (sets ≫= ranked)) as Hin
    by (rewrite E; left).
  apply list_elem_of_filter in Hin as [<- Hin]. exists (SourceID c), (TargetID c). split; [|done].
  exists c. split; [|done]. apply list_elem_of_bind in Hin as (set & Hin & Hset).
  unfold ranked in Hin. apply list_elem_of_bind in Hin as ([s g] & Hin & Hg).
  apply elem_of_zip_l in Hin. apply map_range_elem, group_of_source in Hg as [-> _]. simpl in Hin.
  apply list_elem_of_filter in Hin as [_ Hin]. apply elem_of_concat. eauto.
Qed.

(** ** Fused scores *)

Definition fused (sets : list (list Candidate)) (s t : string) : Candidate :=
  finish_pair (unfinished sets s t).

Lemma mean_rank_nonneg g x : nonneg (mean_rank g x) = true.
Proof. apply (nonneg_fdiv _ (2 * one_mag)); [apply nonneg_fof_Z; lia|done]. Qed.

Lemma rrf_term_nonneg w r :
  (0 <= w)%Z -> nonneg r = true -> nonneg (Fin false w / (rrfK + r))%float = true.
Proof.
  intros Hw Hr. assert (nonneg (Fin false w) = true) as Hw' by by apply Z.leb_le.
  assert (exists k, rrfK = Fin false k /\ (0 < k)%Z /\ representable k = true) as (k & -> & Hk & Hrep).
  { exists (60 * one_mag)%Z. by vm_compute. }
  destruct r as [|[]|[] m]; try done. apply Z.leb_le in Hr.
  rewrite fadd_nonneg by lia. destruct (round false (k + m) 1) as [|b|b k'] eqn:E.
  - revert E. unfold round. by destruct (_ <=? _)%Z.
  - assert (b = false) as -> by (revert E; unfold round; destruct (_ <=? _)%Z; congruence). done.
  - assert (b = false) as -> by (revert E; unfold round; destruct (_ <=? _)%Z; congruence).
    apply nonneg_fdiv; [done|]. apply round_Fin in E as [-> _].
    apply Z.lt_le_trans with k; [lia|]. apply round_mag_ge; [lia..|done|lia].
Qed.

Lemma contributions_of_elem sets s t cn :
  cn ∈ contributions_of sets s t <->
  exists set c, set ∈ sets /\ c ∈ set /\ SourceID c = s /\ TargetID c = t /\
    cn = contribution c (mean_rank (of_source s set) (Score c)).
Proof.
  unfold contributions_of. rewrite list_elem_of_bind. split.
  - intros (set & ([c r] & -> & Hc)%list_elem_of_fmap & Hset).
    apply ranked_in_elem in Hc as (? & ? & ? & ->). eauto 10.
  - intros (set & c & Hset & Hc & Hs & Ht & ->). exists set. split; [|done].
    apply list_elem_of_fmap. exists (c, mean_rank (of_source s set) (Score c)).
    split; [done|]. by apply ranked_in_elem.
Qed.

Lemma fused_number sets s t : good_input (concat sets) -> number (fused sets s t).
Proof.
  intros Hgood. apply nonneg_not_nan. unfold fused, finish_pair. cbn [Score unfinished].
  assert (forall cn, cn ∈ slice_sort generator_less (Contributions (unfinished sets s t)) ->
    nonneg (cn_Weight cn / (rrfK + cn_Rank cn))%float = true) as H.
  { intros cn. rewrite slice_sort_perm. simpl. intros (set & c & Hset & Hc & _ & _ & ->)%contributions_of_elem.
    simpl. destruct (gi_weight _ Hgood c) as (m & -> & Hm); [apply elem_of_concat; eauto|].
    apply rrf_term_nonneg; [done|apply mean_rank_nonneg]. }
  assert (nonneg fzero = true) as H0 by done. revert H H0. generalize fzero.
  induction (slice_sort _ _) as [|cn cs IH]; intros x Hcs Hx; simpl; [done|].
  apply IH; [set_solver|]. apply nonneg_fadd; [done|]. apply Hcs. left.
Qed.

(** ** The second half of the aggregation *)

Definition values (sets : list (list Candidate)) : list Candidate :=
  finish_pair <$> (map_range 23 (foldl fuse_set ∅ sets)).*2.

Lemma pairs_elem sets k f :
  good_input (concat sets) ->
  (k, f) ∈ map_range 23 (foldl fuse_set ∅ sets) <->
  exists s t, input_pair sets s t /\ k = pairKey s t /\ f = unfinished sets s t.
Proof.
  intros Hgood. rewrite map_range_elem. split.
  - intros Hk. destruct (pairs_dom _ _ _ Hk) as (s & t & Hin & ->).
    rewrite pairs_lookup in Hk by done. naive_solver.
  - intros (s & t & Hin & -> & ->). by apply pairs_lookup.
Qed.

Lemma values_elem sets f :
  good_input (concat sets) ->
  f ∈ values sets <-> exists s t, input_pair sets s t /\ f = fused sets s t.
Proof.
  intros Hgood. unfold values. rewrite list_elem_of_fmap. split.
  - intros (u & -> & ([k u'] & -> & Hk)%list_elem_of_fmap).
    apply pairs_elem in Hk as (s & t & ? & -> & ->); [|done]. by exists s, t.
  - intros (s & t & Hin & ->). exists (unfinished sets s t). split; [done|].
    apply list_elem_of_fmap. exists (pairKey s t, unfinished sets s t). split; [done|].
    apply pairs_elem; eauto.
Qed.

Lemma values_NoDup sets : good_input (concat sets) -> NoDup (values sets).
Proof.
  intros Hgood. apply (NoDup_fmap_1 key_of). unfold values.
  assert (key_of <$> (finish_pair <$> (map_range 23 (foldl fuse_set ∅ sets)).*2) =
          (map_range 23 (foldl fuse_set ∅ sets)).*1) as ->.
  { rewrite <- !list_fmap_compose. apply list_fmap_ext. intros i [k u] Hi%list_elem_of_lookup_2.
    apply pairs_elem in Hi as (s & t & _ & -> & ->); done. }
  rewrite map_range_perm. apply NoDup_fst_map_to_list.
Qed.

(** A source's fused candidates are told apart by their targets. *)
Lemma values_tie sets a b :
  good_input (concat sets) -> a ∈ values sets -> b ∈ values sets -> SourceID a = SourceID b ->
  score_less a b = false -> score_less b a = false -> a = b.
Proof.
  intros Hgood (s & t & Ha & ->)%values_elem (s' & t' & Hb & ->)%values_elem Hs H1 H2; [|done..].
  apply score_less_false in H1, H2; try by apply fused_number.
  simpl in Hs. subst s'. f_equal. unfold key_lt, key_eq in *.
  destruct H1 as [|[E1 H1]], H2 as [|[E2 H2]]; try lia. exact (string_ltb_eq t t' H1 H2).
Qed.

Definition sorted_group (sets : list (list Candidate)) (s : string) : list Candidate :=
  slice_sort score_less (of_source s (values sets)).

Definition sources (sets : list (list Candidate)) : list string :=
  sort_strings (map_range 24 (group_by SourceID (values sets))).*1.

Lemma aggregateRankFusion_unfold {E} sets max :
  (1 <= max)%Z ->
  @aggregateRankFusion R E sets max =
  Ok (sources sets ≫= fun s => take (Z.to_nat max) (sorted_group sets s)).
Proof.
  intros Hmax. unfold aggregateRankFusion. rewrite (proj2 (Z.ltb_ge _ _)) by done.
  f_equal. apply bind_ext_in. intros s _. unfold cap_group, sorted_group.
  change (finish_pair <$> _) with (values sets). rewrite group_by_lookup. simpl.
  unfold of_source. by destruct (filter _ _).
Qed.

Lemma sources_elem sets s :
  good_input (concat sets) -> s ∈ sources sets <-> exists t, input_pair sets s t.
Proof.
  intros Hgood. unfold sources. rewrite elem_of_sort_strings, list_elem_of_fmap. split.
  - intros ([s' g] & -> & [-> Hg]%map_range_elem%group_of_source). simpl.
    destruct (of_source s' (values sets)) as [|f fs] eqn:E; [done|].
    assert (f ∈ of_source s' (values sets)) as [<- Hf]%list_elem_of_filter by (rewrite E; left).
    apply values_elem in Hf as (s & t & Hin & ->); [|done]. by exists t.
  - intros (t & Hin).
    assert (fused sets s t ∈ of_source s (values sets)) as Hf.
    { apply list_elem_of_filter. split; [done|]. apply values_elem; eauto. }
    exists (s, of_source s (values sets)). split; [done|]. apply map_range_elem.
    rewrite group_by_lookup. simpl. unfold of_source in *.
    destruct (filter _ (values sets)); [by apply not_elem_of_nil in Hf|done].
Qed.

Lemma sources_NoDup sets : NoDup (sources sets).
Proof. unfold sources. rewrite NoDup_sort_strings, map_range_perm. apply NoDup_fst_map_to_list. Qed.

Lemma sorted_group_elem sets s f :
  good_input (concat sets) ->
  f ∈ sorted_group sets s <-> exists t, input_pair sets s t /\ f = fused sets s t.
Proof.
  intros Hgood. unfold sorted_group, of_source. rewrite slice_sort_perm, list_elem_of_filter, values_elem by done.
  naive_solver.
Qed.
End fusion.

(** * Properties *)

(** The documented output order: source ID, then score descending, then
    target. *)
Definition before (a b : Candidate) : Prop :=
  String.ltb (SourceID a) (SourceID b) = true \/
  (SourceID a = SourceID b /\ score_less a b = true).

Section fusion_properties.
Context {R : GoRuntime} {E : Type}.

Lemma sources_sorted sets : StronglySorted (fun a b => String.ltb a b = true) (sources sets).
Proof.
  eapply (StronglySorted_strict String.le); [apply Sorted_StronglySorted; [apply _|apply sort_strings_sorted]
                                |apply sources_NoDup|].
  intros a b _ _ Hne Hle. simpl in *. destruct (String.ltb a b) eqn:Eab; [done|].
  apply string_ltb_false in Eab. destruct Hne. by apply (anti_symm String.le).
Qed.

Lemma sorted_group_NoDup sets s : good_input (concat sets) -> NoDup (sorted_group sets s).
Proof.
  intros Hgood. unfold sorted_group. rewrite slice_sort_perm. apply NoDup_filter, values_NoDup, Hgood.
Qed.

Lemma sorted_group_strict sets s :
  good_input (concat sets) ->
  StronglySorted (fun a b => score_less a b = true) (sorted_group sets s).
Proof.
  intros Hgood. assert (Forall number (of_source s (values sets))) as Hnum.
  { apply of_source_number, Forall_forall. intros f (s' & t & _ & ->)%values_elem; [|done].
    by apply fused_number. }
  eapply StronglySorted_strict; [apply slice_sort_sorted, score_less_sw, Hnum| |].
  - by apply sorted_group_NoDup.
  - intros a b Ha Hb Hne Hab. simpl in Hab. unfold sorted_group in Ha, Hb.
    rewrite slice_sort_perm in Ha, Hb.
    apply list_elem_of_filter in Ha as [Hsa Ha], Hb as [Hsb Hb].
    destruct (score_less a b) eqn:Eab; [done|]. destruct Hne.
    apply (values_tie sets); [done..|congruence|done|done].
Qed.

Lemma of_source_result sets s m :
  good_input (concat sets) ->
  of_source s (sources sets ≫= fun s => take m (sorted_group sets s)) =
  if bool_decide (s ∈ sources sets) then take m (sorted_group sets s) else [].
Proof.
  intros Hgood. unfold of_source. rewrite filter_bind.
  assert (forall s', filter (fun c => SourceID c = s) (take m (sorted_group sets s')) =
    if bool_decide (s' = s) then take m (sorted_group sets s') else []) as Hf.
  { intros s'.
    assert (forall c, c ∈ take m (sorted_group sets s') -> SourceID c = s') as Hsrc.
    { intros c (t & _ & ->)%subseteq_take%sorted_group_elem; done. }
    case_bool_decide as Es; [apply list_filter_all, Forall_forall; naive_solver|].
    apply elem_of_nil_inv. intros c [Hs Hc]%list_elem_of_filter. apply Hsrc in Hc. congruence. }
  case_bool_decide as Hs.
  - rewrite (bind_single _ _ s); [by rewrite Hf, bool_decide_eq_true_2|apply sources_NoDup|done|].
    intros s' _ Hne. by rewrite Hf, bool_decide_eq_false_2.
  - apply bind_none. intros s' Hs'. rewrite Hf, bool_decide_eq_false_2; [done|]. by intros ->.
Qed.

(** C33. Rank fusion does what its documentation says, whatever order the
    runtime visits maps and breaks ties in. On numbers and finite non-negative
    weights, with keys that tell the pairs apart, it succeeds for every cap of
    at least one; the result is strictly ordered by source, score descending and
    target; each entry is the reciprocal-rank fusion of an input pair; no source
    has more than the cap; and a pair is only left out when its source is full
    of strictly better ones. *)
Theorem aggregateRankFusion_correct (sets : list (list Candidate)) (max : Z) :
  good_input (concat sets) -> (1 <= max)%Z ->
  exists l, @aggregateRankFusion R E sets max = Ok l /\
    StronglySorted before l /\
    (forall c, c ∈ l -> input_pair sets (SourceID c) (TargetID c) /\
       c = fused sets (SourceID c) (TargetID c)) /\
    (forall s, length (of_source s l) <= Z.to_nat max) /\
    (forall s t, input_pair sets s t ->
       fused sets s t ∈ l \/
       (length (of_source s l) = Z.to_nat max /\
        forall c, c ∈ of_source s l -> score_less c (fused sets s t) = true)).
Proof.
  intros Hgood Hmax. rewrite aggregateRankFusion_unfold by done. eexists. split; [done|].
  set (m := Z.to_nat max).
  assert (forall s c, c ∈ take m (sorted_group sets s) ->
    exists t, input_pair sets s t /\ c = fused sets s t) as Htake
    by (intros s c Hc%subseteq_take%sorted_group_elem; done).
  split; [|split; [|split]].
  - eapply StronglySorted_bind; [apply sources_sorted| |].
    + intros s _. eapply StronglySorted_strict;
        [|eapply sublist_NoDup, sublist_take; by apply sorted_group_NoDup|].
      * eapply StronglySorted_app_1_l. rewrite take_drop. by apply sorted_group_strict.
      * intros a b (t & _ & ->)%Htake (t' & _ & ->)%Htake _ Hab. by right.
    + intros s s' x y Hlt (t & _ & ->)%Htake (t' & _ & ->)%Htake. by left.
  - intros c (s & (t & Hin & ->)%Htake & _)%list_elem_of_bind. done.
  - intros s. rewrite of_source_result by done. case_bool_decide; simpl; [|lia].
    rewrite length_take. lia.
  - intros s t Hin. assert (s ∈ sources sets) as Hs by (apply sources_elem; eauto).
    assert (fused sets s t ∈ sorted_group sets s) as Hf by (apply sorted_group_elem; eauto).
    rewrite <- (take_drop m (sorted_group sets s)) in Hf.
    apply elem_of_app in Hf as [Hf|Hf]; [left; apply list_elem_of_bind; eauto|right].
    rewrite of_source_result, bool_decide_eq_true_2 by done. split.
    + apply list_elem_of_lookup in Hf as [i Hi%lookup_lt_Some]. rewrite length_drop in Hi.
      rewrite length_take. lia.
    + intros c Hc. eapply (StronglySorted_app_1_elem_of (fun a b => score_less a b = true));
        [|done|done]. rewrite take_drop. by apply sorted_group_strict.
Qed.
End fusion_properties.

(** ** Independence of the runtime *)

Lemma generator_less_sw l : strict_weak generator_less l.
Proof.
  unfold generator_less. split; intros; [apply string_ltb_irrefl|by eapply string_ltb_trans|].
  by eapply string_ltb_incomp.
Qed.

Section independence.
Context (R1 R2 : GoRuntime) {E : Type} (sets1 sets2 : list (list Candidate)).
Hypothesis Hperm : sets1 ≡ₚ sets2.
Hypothesis Hgood : good_input (concat sets1).
Hypothesis Hdistinct : forall s t, NoDup (cn_GeneratorID <$> contributions_of sets1 s t).

Lemma concat_perm c : c ∈ concat sets1 <-> c ∈ concat sets2.
Proof. rewrite !elem_of_concat. by setoid_rewrite Hperm. Qed.

Lemma good_perm : good_input (concat sets2).
Proof. eapply good_input_sub; [|exact Hgood]. intros c. by rewrite concat_perm. Qed.

Lemma input_pair_perm s t : input_pair sets1 s t <-> input_pair sets2 s t.
Proof. unfold input_pair. by setoid_rewrite concat_perm. Qed.

Lemma fused_perm s t : @fused R1 sets1 s t = @fused R2 sets2 s t.
Proof.
  unfold fused, finish_pair, unfinished. simpl.
  assert (@slice_sort R1 _ generator_less (contributions_of sets1 s t) =
          @slice_sort R2 _ generator_less (contributions_of sets2 s t)) as ->; [|done].
  apply slice_sort_unique; [|apply generator_less_sw|].
  - unfold contributions_of. by rewrite Hperm.
  - intros a b Ha Hb H1 H2. eapply NoDup_fmap_inj; [apply Hdistinct|done..|].
    by apply string_ltb_eq.
Qed.

Lemma values_perm : @values R1 sets1 ≡ₚ @values R2 sets2.
Proof.
  apply NoDup_Permutation; [by apply values_NoDup|apply values_NoDup, good_perm|].
  intros f. rewrite !values_elem by (apply Hgood || apply good_perm).
  setoid_rewrite input_pair_perm. by setoid_rewrite fused_perm.
Qed.

Lemma sorted_group_perm s : @sorted_group R1 sets1 s = @sorted_group R2 sets2 s.
Proof.
  unfold sorted_group, of_source. apply slice_sort_unique.
  - by rewrite values_perm.
  - apply score_less_sw, of_source_number, Forall_forall.
    intros f (s' & t & _ & ->)%values_elem; [|done]. by apply fused_number.
  - intros a b [Hsa Ha]%list_elem_of_filter [Hsb Hb]%list_elem_of_filter.
    apply (@values_tie R1 sets1); [done..|congruence].
Qed.

Lemma sources_perm : @sources R1 sets1 = @sources R2 sets2.
Proof.
  apply (Sorted_unique String.le); [apply sort_strings_sorted..|].
  apply NoDup_Permutation; [apply sources_NoDup..|].
  intros s. rewrite !sources_elem by (apply Hgood || apply good_perm).
  by setoid_rewrite input_pair_perm.
Qed.

Lemma aggregateRankFusion_perm max :
  @aggregateRankFusion R1 E sets1 max = @aggregateRankFusion R2 E sets2 max.
Proof.
  destruct (Z.le_gt_cases 1 max) as [Hmax|Hmax].
  - rewrite !aggregateRankFusion_unfold by done. f_equal. rewrite sources_perm.
    apply bind_ext_in. intros s _. by rewrite sorted_group_perm.
  - unfold aggregateRankFusion. by rewrite (proj2 (Z.ltb_lt _ _)) by lia.
Qed.
End independence.

(** ** The registry *)

Section registry.
Context {R : GoRuntime} {E Req : Type}.

(** What [Register] maintains: every generator is filed under its own name. *)
Definition registry_wf (r : Registry E Req) : Prop :=
  forall name g, generators r !! name = Some g -> Name g = name /\ name <> "".

Lemma Register_wf r g r' : registry_wf r -> Register r g = Ok r' -> registry_wf r'.
Proof.
  intros Hr. unfold Register. case_bool_decide as Hn; [done|].
  destruct (generators r !! Name g); [done|]. intros [= <-] name g'. simpl.
  destruct (decide (name = Name g)) as [->|Hne].
  - rewrite lookup_insert_eq. by intros [= <-].
  - rewrite lookup_insert_ne by done. apply Hr.
Qed.

Lemma NewRegistry_wf : registry_wf NewRegistry.
Proof. intros name g. unfold NewRegistry. simpl. by rewrite lookup_empty. Qed.

(** What a generator promises about the candidates it returns: they carry its
    name, no pair twice, numeric scores, finite non-negative weights, and
    source IDs the pair keys can be split at. *)
Record well_behaved (g : Generator E Req) (cs : list Candidate) : Prop := {
  wb_name : forall c, c ∈ cs -> GeneratorID c = Name g;
  wb_pairs : NoDup ((fun c => (SourceID c, TargetID c)) <$> cs);
  wb_number : Forall number cs;
  wb_weight : forall c, c ∈ cs -> exists m, Weight c = Fin false m /\ (0 <= m)%Z;
  wb_source : forall c, c ∈ cs -> free_of ":" (SourceID c);
}.

Lemma run_generators_ok (gs : list (Generator E Req)) req outs :
  Forall2 (fun g cs => Generate_ g req = Ok cs) gs outs -> run_generators gs req = Ok outs.
Proof. induction 1 as [|g cs gs outs Hg _ IH]; simpl; [done|]. by rewrite Hg, IH. Qed.

Lemma contributions_in_elem s t set cn :
  cn ∈ contributions_in s t set -> exists c, c ∈ set /\ cn_GeneratorID cn = GeneratorID c.
Proof.
  intros ([c r] & -> & (Hc & _)%ranked_in_elem)%list_elem_of_fmap. by exists c.
Qed.

Lemma contributions_in_length s t set :
  NoDup ((fun c => (SourceID c, TargetID c)) <$> set) -> length (contributions_in s t set) <= 1.
Proof.
  intros Hnd. unfold contributions_in, ranked_in. rewrite !length_fmap.
  set (l := filter _ _).
  assert (NoDup ((fun c => (SourceID c, TargetID c)) <$> l)) as Hl.
  { by apply NoDup_fmap_filter, NoDup_fmap_filter. }
  assert (forall c, c ∈ l -> (SourceID c, TargetID c) = (s, t)) as Hst.
  { intros c [<- [<- _]%list_elem_of_filter]%list_elem_of_filter. done. }
  destruct l as [|a [|b l]]; simpl; [lia..|]. exfalso.
  rewrite !fmap_cons, (Hst a), (Hst b) in Hl by set_solver.
  apply NoDup_cons in Hl as [Hl _]. destruct Hl. left.
Qed.

Lemma contributions_distinct gs outs s t :
  Forall2 well_behaved gs outs -> NoDup (Name <$> gs) ->
  NoDup (cn_GeneratorID <$> contributions_of outs s t).
Proof.
  induction 1 as [|g cs gs outs Hg Hgs IH]; intros Hnd; [constructor|].
  rewrite fmap_cons in Hnd. apply NoDup_cons in Hnd as [Hname Hnd].
  unfold contributions_of. rewrite bind_cons, fmap_app. apply NoDup_app.
  split; [|split; [|by apply IH]].
  - pose proof (contributions_in_length s t cs (wb_pairs _ _ Hg)).
    destruct (contributions_in s t cs) as [|? [|]]; simpl in *; [constructor|apply NoDup_singleton|lia].
  - intros n (cn & -> & (c & Hc & ->)%contributions_in_elem)%list_elem_of_fmap Hin.
    rewrite (wb_name _ _ Hg c Hc) in Hin. destruct Hname.
    apply list_elem_of_fmap in Hin as (cn' & Hn & (cs' & Hcn' & Hcs')%list_elem_of_bind).
    apply contributions_in_elem in Hcn' as (c' & Hc' & E').
    apply list_elem_of_lookup in Hcs' as [i Hi].
    destruct (Forall2_lookup_r _ _ _ _ _ Hgs Hi) as (g' & Hg' & Hwb).
    apply list_elem_of_fmap. exists g'. split; [|by eapply list_elem_of_lookup_2].
    rewrite Hn, E'. by apply (wb_name _ _ Hwb).
Qed.

Lemma outputs_good gs outs :
  Forall2 well_behaved gs outs -> good_input (concat outs).
Proof.
  intros H. assert (forall c, c ∈ concat outs -> exists g cs, well_behaved g cs /\ c ∈ cs) as Hc.
  { intros c (cs & [i Hi]%list_elem_of_lookup & Hc)%elem_of_concat.
    destruct (Forall2_lookup_r _ _ _ _ _ H Hi) as (g & _ & Hwb). eauto. }
  split.
  - intros c1 c2 (g1 & cs1 & W1 & H1)%Hc (g2 & cs2 & W2 & H2)%Hc.
    apply pairKey_inj; [by apply (wb_source g1 cs1)|by apply (wb_source g2 cs2)].
  - apply Forall_forall. intros c (g & cs & W & Hin)%Hc.
    pose proof (wb_number _ _ W) as HN. rewrite Forall_forall in HN. auto.
  - intros c (g & cs & W & Hin)%Hc. by eapply wb_weight.
Qed.
End registry.

Section generate_property.
Context (R1 R2 : GoRuntime) {E Req : Type}.

(** A rank-fused generation is reproducible: when every registered
    generator succeeds with well-behaved candidates, [Generate] returns the same
    list (or the same error for a cap below one) whatever order the runtime
    visits the generators and every other map, and however it breaks ties when
    it sorts. *)
Theorem Generate_rank_fusion_deterministic
    (r : Registry E Req) (req : Req) (opts : list GenerateOption) :
  registry_wf r ->
  (forall name g, generators r !! name = Some g ->
     exists cs, Generate_ g req = Ok cs /\ well_behaved g cs) ->
  @Generate R1 E Req r req StrategyRankFusion opts = @Generate R2 E Req r req StrategyRankFusion opts.
Proof.
  intros Hwf Hgen. unfold Generate. set (cfg := foldl _ _ _).
  set (gs1 := (@map_range R1 _ _ _ _ 26 (generators r)).*2).
  set (gs2 := (@map_range R2 _ _ _ _ 26 (generators r)).*2).
  assert (gs1 ≡ₚ gs2) as Hgs.
  { unfold gs1, gs2. by rewrite (@map_range_perm R1), (@map_range_perm R2). }
  set (out (g : Generator E Req) := match Generate_ g req with Ok cs => cs | Err _ => [] end).
  assert (forall g, g ∈ gs1 -> Generate_ g req = Ok (out g) /\ well_behaved g (out g)) as Hout.
  { intros g ([name g'] & -> & Hg%map_range_elem)%list_elem_of_fmap. simpl.
    destruct (Hgen _ _ Hg) as (cs & Ecs & Hcs). unfold out. by rewrite Ecs. }
  assert (forall gs, gs ≡ₚ gs1 -> run_generators gs req = Ok (out <$> gs)) as Hrun.
  { intros gs Hp. apply run_generators_ok, Forall2_fmap_r, Forall_Forall2_diag, Forall_forall.
    intros g Hg. apply Hout. by rewrite <- Hp. }
  assert (Forall2 well_behaved gs1 (out <$> gs1)) as Hwb.
  { apply Forall2_fmap_r, Forall_Forall2_diag, Forall_forall. intros g Hg. by apply Hout. }
  assert (NoDup (Name <$> gs1)) as Hnames.
  { assert (Name <$> gs1 = (@map_range R1 _ _ _ _ 26 (generators r)).*1) as ->.
    - unfold gs1. rewrite <- list_fmap_compose. apply list_fmap_ext.
      intros i [name g] Hi%list_elem_of_lookup_2%map_range_elem. by apply Hwf in Hi as [<- _].
    - rewrite map_range_perm. apply NoDup_fst_map_to_list. }
  rewrite (Hrun gs1), (Hrun gs2) by done.
  assert (@aggregate R1 E (out <$> gs1) StrategyRankFusion cfg =
          @aggregate R2 E (out <$> gs2) StrategyRankFusion cfg) as Hagg.
  { unfold aggregate. simpl. apply aggregateRankFusion_perm; [by rewrite Hgs|by eapply outputs_good|].
    intros s t. by eapply contributions_distinct. }
  destruct gs1, gs2; [done|by apply Permutation_nil_l in Hgs|by apply Permutation_nil_r in Hgs|done].
Qed.
End generate_property.

Definition keep_first (seen : gmap string Candidate) (c : Candidate) : gmap string Candidate :=
  match seen !! key_of c with Some _ => seen | None => <[key_of c := c]> seen end.

Lemma keep_first_lookup cs k :
  foldl keep_first ∅ cs !! k = head (filter (fun c => key_of c = k) cs).
Proof.
  induction cs as [|c cs IH] using rev_ind; [done|]. rewrite foldl_snoc, filter_app.
  unfold keep_first at 1. destruct (decide (key_of c = k)) as [<-|Hne].
  - rewrite filter_cons_True by done. rewrite IH. destruct (filter _ cs) as [|c' cs'] eqn:Ef; simpl.
    + by rewrite lookup_insert_eq.
    + by rewrite IH.
  - rewrite filter_cons_False, app_nil_r by done.
    destruct (_ !! key_of c); [done|]. by rewrite lookup_insert_ne.
Qed.

Lemma aggregateUnion_elem {R : GoRuntime} sets c :
  c ∈ aggregateUnion sets <->
  head (filter (fun c' => key_of c' = key_of c) (concat sets)) = Some c.
Proof.
  unfold aggregateUnion. rewrite foldl_concat. fold keep_first. rewrite list_elem_of_fmap. split.
  - intros ([k c'] & -> & Hk%map_range_elem). simpl. rewrite keep_first_lookup in Hk.
    assert (key_of c' = k) as <-; [|done].
    apply head_Some_elem_of, list_elem_of_filter in Hk as [? _]. done.
  - intros Hc. exists (key_of c, c). split; [done|]. apply map_range_elem.
    by rewrite keep_first_lookup.
Qed.

Lemma aggregateUnion_NoDup {R : GoRuntime} sets : NoDup (key_of <$> aggregateUnion sets).
Proof.
  unfold aggregateUnion. rewrite foldl_concat. fold keep_first.
  set (m := foldl keep_first ∅ (concat sets)).
  assert (key_of <$> (map_range 20 m).*2 = (map_range 20 m).*1) as ->.
  { rewrite <- list_fmap_compose. apply list_fmap_ext.
    intros i [k c] Hi%list_elem_of_lookup_2%map_range_elem. simpl. unfold m in Hi.
    rewrite keep_first_lookup in Hi. by apply head_Some_elem_of, list_elem_of_filter in Hi as [? _]. }
  rewrite map_range_perm. apply NoDup_fst_map_to_list.
Qed.

(** When the keys tell the pairs apart, a union holds every pair of every
    generator exactly once, as the first generator reported it, and nothing
    else, whatever order the runtime visits maps in. *)
Theorem aggregateUnion_correct (R : GoRuntime) (sets : list (list Candidate)) :
  (forall c1 c2, c1 ∈ concat sets -> c2 ∈ concat sets -> key_of c1 = key_of c2 ->
     SourceID c1 = SourceID c2 /\ TargetID c1 = TargetID c2) ->
  NoDup ((fun c => (SourceID c, TargetID c)) <$> aggregateUnion sets) /\
  (forall s t, input_pair sets s t <->
     exists c, c ∈ aggregateUnion sets /\ SourceID c = s /\ TargetID c = t) /\
  (forall c, c ∈ aggregateUnion sets ->
     head (filter (fun c' => SourceID c' = SourceID c /\ TargetID c' = TargetID c) (concat sets)) =
     Some c).
Proof.
  intros Hkeys. split; [|split].
  - apply (NoDup_fmap_1 (fun '(s, t) => pairKey s t)). rewrite <- list_fmap_compose.
    apply aggregateUnion_NoDup.
  - intros s t. split.
    + intros (c & Hc & <- & <-).
      destruct (filter (fun c' => key_of c' = key_of c) (concat sets)) as [|c' cs] eqn:Ef.
      { exfalso. apply (not_elem_of_nil c). rewrite <- Ef. by apply list_elem_of_filter. }
      assert (c' ∈ filter (fun c' => key_of c' = key_of c) (concat sets)) as Hc'
        by (rewrite Ef; left).
      apply list_elem_of_filter in Hc' as [Hk Hc']. exists c'.
      destruct (Hkeys c' c Hc' Hc Hk) as [-> ->]. split; [|done].
      apply aggregateUnion_elem. rewrite Hk. by rewrite Ef.
    + intros (c & Hc & Hs & Ht). exists c. split; [|done].
      apply aggregateUnion_elem, head_Some_elem_of, list_elem_of_filter in Hc as [_ Hc]. done.
  - intros c Hh%aggregateUnion_elem.
    pose proof Hh as [_ Hin]%head_Some_elem_of%list_elem_of_filter.
    trans (head (filter (fun c' => key_of c' = key_of c) (concat sets))); [|done]. f_equal.
    apply filter_ext_in. intros c' Hc'. unfold key_of. split; [by intros [-> ->]|].
    intros Hk. by apply Hkeys.
Qed.

(** [pairKey] is documented as a unique key, but it is not one when IDs
    contain a colon: two different pairs share a key, and a union then drops
    one of them. *)
Theorem pairKey_collision (R : GoRuntime) :
  exists c1 c2, (SourceID c1, TargetID c1) <> (SourceID c2, TargetID c2) /\
    pairKey (SourceID c1) (TargetID c1) = pairKey (SourceID c2) (TargetID c2) /\
    aggregateUnion [[c1; c2]] = [c1].
Proof.
  exists (mkCandidate "nist:ac" "1" fone fone "semantic" ∅ []),
    (mkCandidate "nist" "ac:1" fone fone "semantic" ∅ []).
  split; [done|]. split; [done|]. unfold aggregateUnion.
  set (c1 := mkCandidate "nist:ac" _ _ _ _ _ _). set (c2 := mkCandidate "nist" _ _ _ _ _ _).
  change (foldl _ _ _) with (foldl keep_first ∅ [c1; c2]).
  assert (foldl keep_first ∅ [c1; c2] = {[ "nist:ac:1" := c1 ]}) as -> by by vm_compute.
  pose proof (map_range_perm 20 ({[ "nist:ac:1" := c1 ]} : gmap string Candidate)) as Hp.
  rewrite map_to_list_singleton in Hp. apply Permutation_singleton_r in Hp as ->. done.
Qed.

(** ** Weighted union *)

(** The documented ranges: scores and weights are float64s in [0, 1]. *)
Definition in_unit (x : float64) : bool :=
  match x with Fin false m => representable m && (m <=? one_mag)%Z | _ => false end.

Lemma in_unit_fin x :
  in_unit x = true -> exists m, x = Fin false m /\ representable m = true /\ (0 <= m <= one_mag)%Z.
Proof.
  destruct x as [|[]|[] m]; try done. intros [Hr Hm%Z.leb_le]%andb_prop.
  exists m. pose proof (representable_nonneg m Hr). done.
Qed.

(** What the accumulator of a pair maintains after [n] contributions. *)
Record pd_ok (n : Z) (pd : pairData) : Prop := {
  po_sums : exists ws tw, pd_weightedSum pd = Fin false ws /\ pd_totalWeight pd = Fin false tw /\
    representable tw = true /\ (0 <= ws <= tw)%Z /\ (tw <= n * one_mag)%Z;
  po_first : pd_contributions pd <> [];
}.

Lemma fmul_unit w s :
  representable w = true -> (0 <= w <= one_mag)%Z -> (0 <= s <= one_mag)%Z ->
  exists p, fmul (Fin false w) (Fin false s) = Fin false p /\ (0 <= p <= w)%Z.
Proof.
  intros Hr Hw Hs. pose proof one_mag_pos. unfold fmul, round. simpl xorb.
  assert (0 <= round_mag (w * s) one_mag <= w)%Z as Hb.
  { split; [apply round_mag_nonneg; nia|]. apply round_mag_le; done || nia. }
  rewrite (proj2 (Z.leb_gt _ _)); [eauto|].
  assert (one_mag < overflow_mag)%Z by done. lia.
Qed.

Lemma fadd_bounded a b n :
  (0 <= a)%Z -> (0 <= b)%Z -> (0 <= n <= 2 ^ 53)%Z -> (a + b <= n * one_mag)%Z ->
  fadd (Fin false a) (Fin false b) = Fin false (round_mag (a + b) 1) /\
  (0 <= round_mag (a + b) 1 <= n * one_mag)%Z.
Proof.
  intros Ha Hb Hn Hab. rewrite fadd_nonneg by done.
  assert (0 <= round_mag (a + b) 1 <= n * one_mag)%Z as Hr.
  { split; [apply round_mag_nonneg; lia|].
    apply round_mag_le; [lia|done|by apply representable_int|lia]. }
  split; [|done]. unfold round. rewrite (proj2 (Z.leb_gt _ _)); [done|].
  pose proof (int_no_overflow n Hn). lia.
Qed.

Lemma pd_ok_add n pd c :
  (0 <= n < 2 ^ 53)%Z -> in_unit (Score c) = true -> in_unit (Weight c) = true ->
  pd_ok n pd \/ pd = mkPairData (SourceID c) (TargetID c) fzero fzero [] ->
  pd_ok (n + 1) (mkPairData (pd_sourceID pd) (pd_targetID pd)
    (pd_weightedSum pd + Weight c * Score c)%float (pd_totalWeight pd + Weight c)%float
    (pd_contributions pd ++ [c])).
Proof.
  intros Hn (s & -> & _ & Hs)%in_unit_fin (w & -> & Hwr & Hw)%in_unit_fin Hpd.
  assert (exists ws tw, pd_weightedSum pd = Fin false ws /\ pd_totalWeight pd = Fin false tw /\
    (0 <= ws <= tw)%Z /\ (tw <= n * one_mag)%Z) as (ws & tw & Ews & Etw & Hle & Hmax).
  { pose proof one_mag_pos.
    destruct Hpd as [[(ws & tw & ? & ? & _ & ? & ?) _]| ->]; [by exists ws, tw|].
    exists 0%Z, 0%Z. split_and!; done || nia. }
  destruct (fmul_unit w s Hwr Hw Hs) as (p & Ep & Hp).
  destruct (fadd_bounded ws p (n + 1)) as [E1 H1]; [lia..|].
  destruct (fadd_bounded tw w (n + 1)) as [E2 H2]; [lia..|].
  split; [|simpl; by destruct (pd_contributions pd)]. simpl. rewrite Ews, Etw, Ep, E1, E2.
  eexists _, _. split; [done|]. split; [done|]. split; [apply round_mag_representable; lia|].
  split; [split; [lia|apply round_mag_mono; lia]|lia].
Qed.

Lemma pd_ok_mono n m pd : (n <= m)%Z -> pd_ok n pd -> pd_ok m pd.
Proof.
  intros Hnm [(ws & tw & ? & ? & ? & ? & ?) ?]. pose proof one_mag_pos. split; [|done].
  exists ws, tw. split_and!; done || lia || nia.
Qed.

Lemma add_weighted_ok cs :
  Forall (fun c => in_unit (Score c) = true /\ in_unit (Weight c) = true) cs ->
  (Z.of_nat (length cs) <= 2 ^ 53)%Z ->
  map_Forall (fun _ => pd_ok (Z.of_nat (length cs))) (foldl add_weighted ∅ cs).
Proof.
  induction cs as [|c cs IH] using rev_ind; intros Hcs Hlen; [apply map_Forall_empty|].
  apply Forall_app in Hcs as [Hcs [Hs Hw]%Forall_singleton]. rewrite length_app in *. simpl in *.
  specialize (IH Hcs ltac:(lia)). rewrite foldl_snoc. unfold add_weighted at 1.
  replace (Z.of_nat (length cs + 1)) with (Z.of_nat (length cs) + 1)%Z in * by lia.
  apply map_Forall_insert_2.
  - apply pd_ok_add; [lia|done..|].
    destruct (_ !! key_of c) as [pd|] eqn:Ek; [left; by apply (IH (key_of c))|by right].
  - eapply map_Forall_impl; [exact IH|]. intros k pd. apply pd_ok_mono. lia.
Qed.

(** C34. The scores a weighted union reports are fractions that meet the
    threshold: for scores and weights in [0, 1] (as documented) every candidate
    it returns has a score of at least the threshold and, in rounded float64
    arithmetic, between 0 and 1. *)
Theorem aggregateWeightedUnion_bounds (R : GoRuntime) (sets : list (list Candidate))
    (min : float64) (c : Candidate) :
  Forall (fun c => in_unit (Score c) = true /\ in_unit (Weight c) = true) (concat sets) ->
  (Z.of_nat (length (concat sets)) <= 2 ^ 53)%Z ->
  c ∈ aggregateWeightedUnion sets min ->
  fleb min (Score c) = true /\ fleb fzero (Score c) = true /\ fleb (Score c) fone = true.
Proof.
  intros Hall Hlen Hc. unfold aggregateWeightedUnion in Hc. rewrite foldl_concat in Hc.
  apply list_elem_of_omap in Hc as ([k pd] & Hk%map_range_elem & Hres).
  pose proof (add_weighted_ok _ Hall Hlen k pd Hk) as [(ws & tw & Ews & Etw & _ & Hle & _) _].
  unfold weighted_result in Hres. simpl in Hres. rewrite Ews, Etw in Hres.
  destruct (feqb _ _) eqn:Ez; [done|]. destruct (fleb min _) eqn:Emin; [|done].
  injection Hres as <-. cbn [Score set_score]. split; [done|].
  assert (0 < tw)%Z as Hpos.
  { change (feqb _ _) with (tw =? 0)%Z in Ez. apply Z.eqb_neq in Ez. lia. }
  destruct (fdiv_le_one ws tw Hle Hpos) as (q & -> & Hq).
  split; apply fleb_fin; lia.
Qed.

(** [StrategyWeightedUnion] is documented as keeping the pairs whose
    [sum(weight * score)] reaches the threshold; the code compares the weighted
    average, so a pair whose sum is below the threshold is kept. *)
Lemma weighted_union_is_average :
  let c := mkCandidate "a" "b" (fconst 8 10) (fconst 1 2) "semantic" ∅ [] in
  fltb (Weight c * Score c)%float (fconst 6 10) = true /\
  weighted_result (fconst 6 10) (default (mkPairData "" "" fzero fzero [])
    (foldl add_weighted ∅ [c] !! key_of c)) <> None.
Proof. split; [by vm_compute|]. by vm_compute. Qed.

(** * Witnesses *)

Definition sample_cand (s t g : string) (n : Z) : Candidate :=
  mkCandidate s t (fconst n 10) (fconst 1 2) g ∅ [].
Definition sample_sets : list (list Candidate) :=
  [[sample_cand "ac-1" "pr-1" "semantic" 9; sample_cand "ac-1" "pr-2" "semantic" 9;
    sample_cand "ac-2" "pr-1" "semantic" 4];
   [sample_cand "ac-1" "pr-1" "lexical" 3]].

Lemma sample_good : good_input (concat sample_sets).
Proof.
  split.
  - assert (Forall (fun c => free_of ":" (SourceID c)) (concat sample_sets)) as Hf.
    { repeat constructor; unfold free_of; vm_compute; set_solver. }
    rewrite Forall_forall in Hf. intros c1 c2 H1 H2. by apply pairKey_inj; apply Hf.
  - repeat constructor.
  - intros c Hc.
    assert (exists m, Weight c = Fin false m /\ Z.leb 0 m = true) as (m & -> & Hm%Z.leb_le); [|eauto].
    revert c Hc. apply Forall_forall. repeat constructor; eexists; split; vm_compute; reflexivity.
Qed.

Lemma aggregateRankFusion_correct_witness :
  good_input (concat sample_sets) /\
  exists l, @aggregateRankFusion forward_runtime unit sample_sets 1 = Ok l /\
    (forall s, length (of_source s l) <= 1).
Proof.
  split; [exact sample_good|].
  destruct (@aggregateRankFusion_correct forward_runtime unit sample_sets 1 sample_good ltac:(lia))
    as (l & Hl & _ & _ & Hcap & _).
  exists l. split; [exact Hl|exact Hcap].
Defined.

Definition sample_generator (name : string) (cs : list Candidate) : Generator unit unit :=
  mkGenerator name (fun _ => Ok cs).
Definition sample_generators : Registry unit unit :=
  mkRegistry {[ "semantic" := sample_generator "semantic"
                  [sample_cand "ac-1" "pr-1" "semantic" 9; sample_cand "ac-1" "pr-2" "semantic" 9];
                "lexical" := sample_generator "lexical" [sample_cand "ac-1" "pr-1" "lexical" 3] ]}.

Lemma sample_well_behaved name (cs : list Candidate) :
  Forall (fun c => GeneratorID c = name /\ number c /\ free_of ":" (SourceID c) /\
    exists m, Weight c = Fin false m /\ (0 <= m)%Z) cs ->
  NoDup ((fun c => (SourceID c, TargetID c)) <$> cs) ->
  well_behaved (sample_generator name cs) cs.
Proof.
  rewrite Forall_forall. intros H Hnd. split; [|done| |intros c Hc; by apply H..].
  - intros c Hc. by apply H.
  - apply Forall_forall. intros c Hc. by apply H.
Qed.

Lemma Generate_rank_fusion_deterministic_witness :
  @Generate forward_runtime _ _ sample_generators tt StrategyRankFusion [WithMaxPerSource 5] =
  @Generate reverse_runtime _ _ sample_generators tt StrategyRankFusion [WithMaxPerSource 5].
Proof.
  assert (forall name g, generators sample_generators !! name = Some g ->
    Name g = name /\ name <> "" /\ exists cs, Generate_ g tt = Ok cs /\ well_behaved g cs) as H.
  { intros name g Hg. unfold sample_generators in Hg. cbn [generators] in Hg.
    apply lookup_insert_Some in Hg as [[<- <-]|[_ [<- <-]%lookup_singleton_Some]];
      (split; [reflexivity|]; split; [discriminate|]; eexists; split; [reflexivity|];
       apply sample_well_behaved; [|apply (bool_decide_unpack _); vm_compute; exact I]);
      repeat constructor; try (unfold free_of; vm_compute; set_solver);
      eexists; (split; [vm_compute; reflexivity|vm_compute; congruence]). }
  apply (Generate_rank_fusion_deterministic forward_runtime reverse_runtime).
  - intros name g Hg. destruct (H name g Hg) as (H1 & H2 & _). exact (conj H1 H2).
  - intros name g Hg. exact (proj2 (proj2 (H name g Hg))).
Defined.

Lemma aggregateUnion_correct_witness :
  input_pair sample_sets "ac-1" "pr-1" /\
  NoDup ((fun c => (SourceID c, TargetID c)) <$> @aggregateUnion forward_runtime sample_sets).
Proof.
  split; [eexists; split; [left|done]|].
  exact (proj1 (aggregateUnion_correct forward_runtime sample_sets (gi_keys _ sample_good))).
Defined.

Lemma aggregateWeightedUnion_bounds_witness :
  Forall (fun c => fleb (Score c) fone = true)
    (@aggregateWeightedUnion forward_runtime sample_sets (fconst 1 2)).
Proof.
  apply Forall_forall. intros c Hc.
  refine (proj2 (proj2 (aggregateWeightedUnion_bounds forward_runtime sample_sets (fconst 1 2) c _ _ Hc))).
  - repeat constructor; vm_compute; reflexivity.
  - vm_compute; congruence.
Defined.
