(* ===== verification/Graph.v ===== *)
(** The graph data model and the checks every driver applies before it touches
    a graph: [pkg/graphdb], files [types.go], [errors.go], [identifier.go] and
    [edges.go].

    Errors are values: a constructor per error the package declares, with the
    data of its message. [fmt.Errorf("create node: %w", err)] adds a prefix to
    the text and is left out; wrappers that callers look through
    ([BulkEdgeError], the endpoint role) are constructors. *)

From Stdlib Require Import ZArith Lia.
From S2P Require Import Prelude Regexp Float64 Timefmt Tenant.

(** * Definitions *)

(** ** Property values *)

(** A Go [any] handed in as a property. A [float32] is given by the float64
    its shortest decimal form reads back as, and a value of a type the drivers
    do not know by its [%v] rendering: nothing else of them is used. *)
Inductive any :=
| AString (s : string)
| ABool (b : bool)
| AFloat64 (f : float64)
| AFloat32 (reread : float64)
| AInt (z : Z)
| AInt64 (z : Z)
| AOther (rendered : string).

(** What a driver stores: scalars, and one list ([models]). *)
Inductive value :=
| VString (s : string)
| VBool (b : bool)
| VFloat (f : float64)
| VList (l : list string).

#[export] Instance value_eq_dec : EqDecision value.
Proof. solve_decision. Defined.

(** ** Types *)

Record Node {P : Type} := mkNode {
  n_ID : string;
  n_Label : string;
  n_Properties : gmap string P;
  n_ValidFrom : Time;
  n_ValidTo : option Time;
  CreatedBy : string;
  CreationMethod : string;
}.
Arguments Node P : clear implicits.
Arguments mkNode {P}.

Record Edge {P : Type} := mkEdge {
  e_ID : string;
  e_Label : string;
  e_Properties : gmap string P;
  e_ValidFrom : Time;
  e_ValidTo : option Time;
  DeterminedBy : string;
  DeterminationType : string;
  e_Confidence : float64;
  Supersedes : string;
}.
Arguments Edge P : clear implicits.
Arguments mkEdge {P}.

(** Nodes and edges are written with [any] properties and read back with
    stored ones. *)
Abbreviation node_in := (Node any).
Abbreviation node_out := (Node value).
Abbreviation edge_in := (Edge any).
Abbreviation edge_out := (Edge value).

Record Relationship := mkRelationship { r_Source : node_out; r_Edge : edge_out; r_Target : node_out }.

Record RelationshipQuery := mkRelationshipQuery {
  rq_SourceLabel : string;
  rq_TargetLabel : string;
  rq_EdgeLabel : string;
  rq_Properties : gmap string any;
}.

Record TraversalQuery := mkTraversalQuery {
  StartNode : string;
  Direction : string;
  EdgeLabels : list string;
  MaxDepth : Z;
  AsOf : option Time;
}.

Record Path := mkPath { p_Nodes : list node_out; p_Edges : list edge_out }.

(** The half-open validity window: [from <= t < to]. *)
Definition window (from : Time) (to : option Time) (t : Time) : bool :=
  negb (After from t || match to with Some u => negb (After u t) | None => false end).

Definition ValidAt (p : Path) (t : Time) : bool :=
  forallb (fun n => window (n_ValidFrom n) (n_ValidTo n) t) (p_Nodes p) &&
  forallb (fun e => window (e_ValidFrom e) (e_ValidTo e) t) (p_Edges p).

Record EdgeWithEndpoints := mkEdgeWithEndpoints {
  ewe_Edge : edge_out; ewe_SourceID : string; ewe_TargetID : string }.

Record BulkEdge := mkBulkEdge { be_SourceID : string; be_TargetID : string; be_Edge : edge_in }.

Record SupersedeRequest := mkSupersedeRequest {
  sr_NodeID : string;
  sr_EdgeID : string;
  SupersededAt : Time;
  SupersededByJobID : string;
}.

Record RequiresEdge := mkRequiresEdge {
  re_SourceID : string;
  re_TargetID : string;
  re_Confidence : float64;
  re_Unanimous : bool;
  ValidVotes : Z;
  TotalVotes : Z;
  VoteWeight : float64;
  Models : list string;
  SamplesPerModel : Z;
  PromptVersion : string;
  AnalyzedAt : Time;
  re_TenantID : string;
  re_JobID : string;
}.

(** ** Errors *)

Inductive graph_error :=
| ErrRequired (field : string)
| ErrNotBoth
| ErrNotIdentifier (kind s : string)
| ErrReservedPrefix (kind s : string)
| ErrLabelTooLong (kind s : string)
| ReservedPropertyError (key field : string)
| ErrTenantRequired
| ErrInvalidTenantID (e : tenant_error)
| ErrGraphNotFound (tenant : string)
| ErrNodeNotFound (id : string)
| ErrEndpoint (role : string) (e : graph_error)
| ErrNodeExists (label id : string)
| NodeIDConflictError (id label stored : string)
| LabelKindConflictError (label kind stored : string)
| ErrEdgeNotFound (id : string)
| ErrEdgeExists (id : string)
| ErrNotSupported
| BulkEdgeError (index : nat) (e : graph_error).

(** [errors.Is(err, ErrInvalidCypher)] and [errors.Is(err, ErrTenantRequired)]. *)
Fixpoint is_invalid_cypher (e : graph_error) : bool :=
  match e with
  | ErrNotIdentifier _ _ | ErrReservedPrefix _ _ | ErrLabelTooLong _ _
  | ReservedPropertyError _ _ => true
  | ErrEndpoint _ e' | BulkEdgeError _ e' => is_invalid_cypher e'
  | _ => false
  end.

Definition is_tenant_required (e : graph_error) : bool :=
  match e with ErrTenantRequired | ErrInvalidTenantID _ => true | _ => false end.

Abbreviation check := (result graph_error unit).

(** ** Checks *)

Definition is_ident_start (c : ascii) : bool := is_upper c || is_lower c || is_char "_" c.
Definition is_ident (c : ascii) : bool := is_ident_start c || is_digit c.

(** [^[A-Za-z_][A-Za-z0-9_]*$] *)
Definition identifierPattern : regex := RSeq (RClass is_ident_start) (RStar (RClass is_ident)).

Definition CheckIdentifier (kind s : string) : check :=
  if match_string identifierPattern s then Ok tt else Err (ErrNotIdentifier kind s).

Definition MaxLabelBytes : nat := 63.
Definition reservedLabelPrefix : string := "_ag_".

Definition CheckLabel (kind s : string) : check :=
  match CheckIdentifier kind s with
  | Err e => Err e
  | Ok _ =>
      if String.prefix reservedLabelPrefix s then Err (ErrReservedPrefix kind s)
      else if bool_decide (MaxLabelBytes < String.length s) then Err (ErrLabelTooLong kind s)
      else Ok tt
  end.

(** The first error of a sequence of checks. *)
Fixpoint first_error {A} (f : A -> check) (l : list A) : check :=
  match l with
  | [] => Ok tt
  | x :: l' => match f x with Err e => Err e | Ok _ => first_error f l' end
  end.

(** Keys are visited sorted, so the order of the map does not matter. *)
Definition sorted_keys {P} (props : gmap string P) : list string :=
  sort_strings (map_to_list props).*1.

Definition CheckPropertyKeys {P} (props : gmap string P) : check :=
  first_error (CheckIdentifier "property key") (sorted_keys props).

Definition CheckRelationshipQuery (q : RelationshipQuery) : check :=
  match first_error (fun l : string * string =>
          if bool_decide (l.2 = "") then Ok tt else CheckLabel l.1 l.2)
          [("source label", rq_SourceLabel q); ("target label", rq_TargetLabel q);
           ("edge label", rq_EdgeLabel q)] with
  | Err e => Err e
  | Ok _ => CheckPropertyKeys (rq_Properties q)
  end.

Definition supersedeField : string := "SupersedeRequest.SupersededByJobID (via SupersedeFact)".

Definition reservedNodeKeys : gmap string string := list_to_map
  [("id", "Node.ID"); ("valid_from", "Node.ValidFrom"); ("valid_to", "Node.ValidTo");
   ("created_by", "Node.CreatedBy"); ("creation_method", "Node.CreationMethod");
   ("superseded_by", supersedeField)].

Definition reservedEdgeKeys : gmap string string := list_to_map
  [("id", "Edge.ID"); ("valid_from", "Edge.ValidFrom"); ("valid_to", "Edge.ValidTo");
   ("determined_by", "Edge.DeterminedBy"); ("determination_type", "Edge.DeterminationType");
   ("confidence", "Edge.Confidence"); ("supersedes", "Edge.Supersedes");
   ("superseded_by", supersedeField)].

Definition checkWrittenProperties {P} (props : gmap string P) (reserved : gmap string string) : check :=
  match CheckPropertyKeys props with
  | Err e => Err e
  | Ok _ =>
      first_error (fun k => match reserved !! k with
        | Some field => Err (ReservedPropertyError k field) | None => Ok tt end) (sorted_keys props)
  end.

Definition CheckNodeProperties {P} (props : gmap string P) : check :=
  checkWrittenProperties props reservedNodeKeys.
Definition CheckEdgeProperties {P} (props : gmap string P) : check :=
  checkWrittenProperties props reservedEdgeKeys.

Definition CheckNode (n : node_in) : check :=
  if bool_decide (n_ID n = "") then Err (ErrRequired "id")
  else if bool_decide (n_Label n = "") then Err (ErrRequired "label")
  else match CheckLabel "label" (n_Label n) with
  | Err e => Err e
  | Ok _ =>
      match CheckNodeProperties (n_Properties n) with
      | Err e => Err e
      | Ok _ => if IsZero (n_ValidFrom n) then Err (ErrRequired "valid_from") else Ok tt
      end
  end.

Definition CheckEdge (sourceID targetID : string) (e : edge_in) : check :=
  if bool_decide (e_Label e = "") then Err (ErrRequired "label")
  else match CheckLabel "label" (e_Label e) with
  | Err e => Err e
  | Ok _ =>
      match CheckEdgeProperties (e_Properties e) with
      | Err e => Err e
      | Ok _ =>
          if bool_decide (sourceID = "" \/ targetID = "") then Err (ErrRequired "source and target")
          else if IsZero (e_ValidFrom e) then Err (ErrRequired "valid_from") else Ok tt
      end
  end.

Definition CheckSupersedeRequest (req : SupersedeRequest) : check :=
  if bool_decide (sr_NodeID req = "" /\ sr_EdgeID req = "") then Err (ErrRequired "node_id or edge_id")
  else if bool_decide (sr_NodeID req <> "" /\ sr_EdgeID req <> "") then Err ErrNotBoth
  else if IsZero (SupersededAt req) then Err (ErrRequired "superseded_at")
  else Ok tt.

Definition CheckRequiresEdge (e : RequiresEdge) : check :=
  if bool_decide (re_SourceID e = "") then Err (ErrRequired "source_id")
  else if bool_decide (re_TargetID e = "") then Err (ErrRequired "target_id")
  else if IsZero (AnalyzedAt e) then Err (ErrRequired "analyzed_at")
  else Ok tt.

Definition CheckTenant (id : string) : check :=
  if bool_decide (id = "") then Err ErrTenantRequired
  else map_err ErrInvalidTenantID (ValidateTenantID id).

(** ** Derived IDs *)

Definition escape_char (c : ascii) : string :=
  if is_char "%" c then "%25" else if is_char "_" c then "%5F" else String c "".

Fixpoint derivedIDEscaper (s : string) : string :=
  match s with
  | "" => ""
  | String c s' => escape_char c +:+ derivedIDEscaper s'
  end.

Definition DerivedID (parts : list string) : string := join "_" (derivedIDEscaper <$> parts).

Definition EdgeID (r : RequiresEdge) : string :=
  DerivedID ["requires"; re_JobID r; re_SourceID r; re_TargetID r].

(** * Lemmas *)

Lemma escape_free s : free_of "_" (derivedIDEscaper s).
Proof.
  unfold free_of. induction s as [|c s IH]; simpl; [by apply not_elem_of_nil|].
  rewrite list_ascii_app, not_elem_of_app. split; [|done]. unfold escape_char, is_char.
  case_bool_decide; [vm_compute; set_solver|]. case_bool_decide; [vm_compute; set_solver|].
  simpl. set_solver.
Qed.

Lemma escape_inj s t : derivedIDEscaper s = derivedIDEscaper t -> s = t.
Proof.
  revert t. induction s as [|c s IH]; intros [|d t]; simpl; unfold escape_char, is_char;
    repeat case_bool_decide; rewrite ?string_app_cons; intros Heq; simplify_eq; try done.
  all: f_equal; apply IH; congruence.
Qed.

Lemma DerivedID_eq ps qs : ps <> [] -> qs <> [] -> DerivedID ps = DerivedID qs -> ps = qs.
Proof.
  intros Hp Hq H. apply (f_equal (split_on "_")) in H. unfold DerivedID in H.
  assert (forall l, l <> [] -> split_on "_" (join "_" (derivedIDEscaper <$> l)) = derivedIDEscaper <$> l) as Hs.
  { intros l Hl. rewrite split_on_join by (by destruct l). apply split_on_bind_free.
    apply Forall_fmap, Forall_forall. intros x _. apply escape_free. }
  rewrite !Hs in H by done. by apply list_fmap_eq_inj in H; [|exact escape_inj].
Qed.

(** ** What the checks accept, in the words of the contract *)

(** Letters, digits and underscores, not starting with a digit. *)
Definition identifier (s : string) : Prop :=
  exists c l, String.list_ascii_of_string s = c :: l /\ is_ident_start c = true /\
    Forall (fun c => is_ident c = true) l.

Definition valid_label (s : string) : Prop :=
  identifier s /\ String.prefix reservedLabelPrefix s = false /\ String.length s <= MaxLabelBytes.

Lemma match_identifier s : match_string identifierPattern s = true <-> identifier s.
Proof.
  unfold match_string, identifierPattern, identifier. rewrite re_matches_spec, re_spec_seq. split.
  - intros (l1 & l2 & E & (c & -> & Hc)%re_spec_class & Hl%re_spec_star_class). eauto.
  - intros (c & l & E & Hc & Hl). exists [c], l. split; [done|].
    split; [apply re_spec_class; eauto|by apply re_spec_star_class].
Qed.

Lemma CheckIdentifier_ok kind s : CheckIdentifier kind s = Ok tt <-> identifier s.
Proof. rewrite <- match_identifier. unfold CheckIdentifier. destruct (match_string _ _); naive_solver. Qed.

Lemma CheckLabel_ok kind s : CheckLabel kind s = Ok tt <-> valid_label s.
Proof.
  unfold CheckLabel, valid_label. rewrite <- (CheckIdentifier_ok kind).
  destruct (CheckIdentifier kind s) as [[]|]; [|naive_solver].
  destruct (String.prefix _ _); [naive_solver|]. case_bool_decide; naive_solver lia.
Qed.

Lemma first_error_ok {A} (f : A -> check) l : first_error f l = Ok tt <-> Forall (fun x => f x = Ok tt) l.
Proof.
  induction l as [|x l IH]; simpl; [by rewrite Forall_nil|]. rewrite Forall_cons, <- IH.
  destruct (f x) as [[]|]; naive_solver.
Qed.

Lemma first_error_err {A} (f : A -> check) l e :
  first_error f l = Err e -> exists x, x ∈ l /\ f x = Err e.
Proof.
  induction l as [|x l IH]; simpl; [done|]. destruct (f x) as [|e'] eqn:E.
  - intros H. destruct (IH H) as (y & ? & ?). exists y. split; [by right|done].
  - intros [= ->]. exists x. split; [by left|done].
Qed.

Lemma elem_of_sorted_keys {P} (props : gmap string P) k : k ∈ sorted_keys props <-> k ∈ dom props.
Proof.
  unfold sorted_keys. rewrite elem_of_sort_strings, elem_of_dom. split.
  - intros ([k' v] & -> & Hk%elem_of_map_to_list)%list_elem_of_fmap. eauto.
  - intros [v Hv]. apply list_elem_of_fmap. exists (k, v). by rewrite elem_of_map_to_list.
Qed.

Lemma CheckPropertyKeys_ok {P} (props : gmap string P) :
  CheckPropertyKeys props = Ok tt <-> forall k, k ∈ dom props -> identifier k.
Proof.
  unfold CheckPropertyKeys. rewrite first_error_ok, Forall_forall.
  setoid_rewrite elem_of_sorted_keys. by setoid_rewrite CheckIdentifier_ok.
Qed.

Lemma checkWrittenProperties_ok {P} (props : gmap string P) reserved :
  checkWrittenProperties props reserved = Ok tt <->
  forall k, k ∈ dom props -> identifier k /\ k ∉ dom reserved.
Proof.
  unfold checkWrittenProperties. destruct (CheckPropertyKeys props) as [[]|e] eqn:E.
  - rewrite CheckPropertyKeys_ok in E. rewrite first_error_ok, Forall_forall.
    setoid_rewrite elem_of_sorted_keys. setoid_rewrite not_elem_of_dom.
    split; intros H k Hk; specialize (H k Hk); destruct (reserved !! k); naive_solver.
  - split; [done|]. intros H. assert (CheckPropertyKeys props = Ok tt); [|congruence].
    apply CheckPropertyKeys_ok. naive_solver.
Qed.

Record node_valid (n : node_in) : Prop := {
  nv_id : n_ID n <> "";
  nv_label : valid_label (n_Label n);
  nv_keys : forall k, k ∈ dom (n_Properties n) -> identifier k /\ k ∉ dom reservedNodeKeys;
  nv_from : n_ValidFrom n <> 0%Z;
}.

Record edge_valid (source target : string) (e : edge_in) : Prop := {
  ev_label : valid_label (e_Label e);
  ev_keys : forall k, k ∈ dom (e_Properties e) -> identifier k /\ k ∉ dom reservedEdgeKeys;
  ev_source : source <> "";
  ev_target : target <> "";
  ev_from : e_ValidFrom e <> 0%Z;
}.

Lemma valid_label_nonempty s : valid_label s -> s <> "".
Proof. intros [(c & l & E & _) _] ->. done. Qed.

Lemma CheckNode_ok n : CheckNode n = Ok tt <-> node_valid n.
Proof.
  unfold CheckNode, IsZero. split.
  - case_bool_decide; [done|]. case_bool_decide; [done|].
    destruct (CheckLabel _ _) as [[]|] eqn:EL; [|done].
    destruct (CheckNodeProperties _) as [[]|] eqn:EP; [|done].
    destruct (Z.eqb_spec (n_ValidFrom n) 0); [done|]. intros _.
    split; [done|by eapply CheckLabel_ok|by apply checkWrittenProperties_ok|done].
  - intros [H1 H2 H3 H4]. rewrite bool_decide_eq_false_2 by done.
    rewrite bool_decide_eq_false_2 by by apply valid_label_nonempty.
    rewrite (proj2 (CheckLabel_ok _ _)) by done. unfold CheckNodeProperties.
    rewrite (proj2 (checkWrittenProperties_ok _ _)) by done.
    by rewrite (proj2 (Z.eqb_neq _ _)).
Qed.

Lemma CheckEdge_ok s t e : CheckEdge s t e = Ok tt <-> edge_valid s t e.
Proof.
  unfold CheckEdge, IsZero. split.
  - case_bool_decide; [done|]. destruct (CheckLabel _ _) as [[]|] eqn:EL; [|done].
    destruct (CheckEdgeProperties _) as [[]|] eqn:EP; [|done]. case_bool_decide as Hst; [done|].
    destruct (Z.eqb_spec (e_ValidFrom e) 0); [done|]. intros _.
    split; [by eapply CheckLabel_ok|by apply checkWrittenProperties_ok|naive_solver..|done].
  - intros [H1 H2 H3 H4 H5].
    rewrite bool_decide_eq_false_2 by by apply valid_label_nonempty.
    rewrite (proj2 (CheckLabel_ok _ _)) by done. unfold CheckEdgeProperties.
    rewrite (proj2 (checkWrittenProperties_ok _ _)) by done.
    rewrite bool_decide_eq_false_2 by tauto. by rewrite (proj2 (Z.eqb_neq _ _)).
Qed.

Lemma CheckTenant_ok id : CheckTenant id = Ok tt <-> ValidateTenantID id = Ok tt.
Proof.
  unfold CheckTenant. case_bool_decide as E; [subst; by vm_compute|].
  destruct (ValidateTenantID id) as [[]|]; naive_solver.
Qed.

(** * Properties *)

(** Derived IDs never collide: two non-empty lists of parts give the same
    ID only when they are the same list, whatever underscores and percent signs
    the parts contain; so REQUIRES edges have the same ID exactly when their
    job, source and target agree. *)
Theorem DerivedID_injective (ps qs : list string) (r1 r2 : RequiresEdge) :
  ps <> [] -> qs <> [] ->
  (DerivedID ps = DerivedID qs <-> ps = qs) /\
  (EdgeID r1 = EdgeID r2 <->
   re_JobID r1 = re_JobID r2 /\ re_SourceID r1 = re_SourceID r2 /\ re_TargetID r1 = re_TargetID r2).
Proof.
  intros Hp Hq. split; [split; [by apply DerivedID_eq|by intros ->]|]. unfold EdgeID. split.
  - intros H%DerivedID_eq; [|done..]. by simplify_eq.
  - by intros (-> & -> & ->).
Qed.

(** The write checks accept exactly what the driver contract says. A node
    needs an ID, a label that is an identifier of at most 63 bytes outside the
    [_ag_] namespace, property keys that are identifiers the driver does not
    write itself, and a start time; an edge the same with its endpoints instead
    of an ID. An error about a label or a key always is an ErrInvalidCypher. *)
Theorem write_checks (n : node_in) (s t : string) (e : edge_in) :
  (CheckNode n = Ok tt <-> node_valid n) /\
  (CheckEdge s t e = Ok tt <-> edge_valid s t e) /\
  (forall err, CheckNode n = Err err -> n_ID n <> "" -> n_Label n <> "" -> n_ValidFrom n <> 0%Z ->
     is_invalid_cypher err = true).
Proof.
  split; [apply CheckNode_ok|]. split; [apply CheckEdge_ok|].
  intros err Herr H1 H2 H3. unfold CheckNode in Herr.
  rewrite !bool_decide_eq_false_2 in Herr by done. unfold IsZero in Herr.
  rewrite (proj2 (Z.eqb_neq _ _)) in Herr by done.
  destruct (CheckLabel _ _) as [[]|e1] eqn:EL.
  - unfold CheckNodeProperties, checkWrittenProperties, CheckPropertyKeys in Herr.
    destruct (first_error _ _) as [[]|e2] eqn:E2.
    + destruct (first_error _ (sorted_keys _)) as [[]|e3] eqn:E3 in Herr; [done|]. simplify_eq.
      apply first_error_err in E3 as (k & _ & Hk). by destruct (reservedNodeKeys !! k); simplify_eq.
    + simplify_eq. apply first_error_err in E2 as (k & _ & Hk). unfold CheckIdentifier in Hk.
      by destruct (match_string _ _); simplify_eq.
  - simplify_eq. unfold CheckLabel, CheckIdentifier in EL.
    destruct (match_string _ _); [|by simplify_eq].
    destruct (String.prefix _ _); [by simplify_eq|]. by case_bool_decide; simplify_eq.
Qed.

(** * Witnesses *)

Lemma DerivedID_injective_witness :
  DerivedID ["requires"; "a_b"; "c"] = "requires_a%5Fb_c" /\
  (DerivedID ["a_b"; "c"] = DerivedID ["a"; "b_c"] <-> ["a_b"; "c"] = ["a"; "b_c"]).
Proof.
  set (r := mkRequiresEdge "s" "t" fone true 1 1 fone [] 1 "" 1 "acme" "j").
  split; [vm_compute; reflexivity|].
  exact (proj1 (DerivedID_injective ["a_b"; "c"] ["a"; "b_c"] r r ltac:(discriminate) ltac:(discriminate))).
Defined.

Definition sample_node : node_in := mkNode "ac-1" "_ag_Control" ∅ 1 None "" "".

Lemma write_checks_witness :
  CheckNode sample_node = Err (ErrReservedPrefix "label" "_ag_Control") /\
  is_invalid_cypher (ErrReservedPrefix "label" "_ag_Control") = true.
Proof.
  assert (CheckNode sample_node = Err (ErrReservedPrefix "label" "_ag_Control")) as H
    by (vm_compute; reflexivity).
  split; [exact H|].
  refine (proj2 (proj2 (write_checks sample_node "" ""
    (mkEdge "" "" ∅ 0 None "" "" fzero ""))) _ H _ _ _); discriminate.
Defined.
