(* ===== verification/MemDriver.v ===== *)
(** The in-memory graph driver: [pkg/graphdb/memdriver], files [client.go] and
    [props.go].

    The driver shares nodes by pointer: an edge points at its endpoints and
    [UpsertNode] replaces the properties of the node an edge already points at.
    Nodes are only ever appended, so a pointer is the position of its node in
    the graph's slice, and an edge's identity is its position too. Property
    maps are built afresh by every write and copied by every read, so they are
    values. Every method runs under the client's lock: it is one function from
    a client to a result and a client, and the client it returns together with
    an error is what the error left behind. *)

From stdpp Require Import pretty.
From Stdlib Require Import ZArith Lia.
From S2P Require Import Prelude Float64 Timefmt Tenant Graph.

(** * Properties ([props.go]) *)

Abbreviation props := (gmap string value).

Definition normalizeValue (v : any) : value :=
  match v with
  | AString s => VString s
  | ABool b => VBool b
  | AFloat64 f => VFloat f
  | AFloat32 f => VFloat f
  | AInt z | AInt64 z => VFloat (fof_Z z)
  | AOther s => VString s
  end.

(** A field that is only written when it is set. *)
Definition put_string (k s : string) (m : props) : props :=
  if bool_decide (s = "") then m else <[k := VString s]> m.
Definition put_time (k : string) (t : option Time) (m : props) : props :=
  match t with None => m | Some t => <[k := VString (FormatTime t)]> m end.

(** The closing loop [for k, v := range n.Properties]: every key is written
    once, so the order of the loop does not matter. *)
Definition put_all (ps : gmap string any) (m : props) : props := (normalizeValue <$> ps) ∪ m.

Definition nodeProps (n : node_in) : props :=
  put_all (n_Properties n)
    (put_string "creation_method" (CreationMethod n)
      (put_string "created_by" (CreatedBy n)
        (put_time "valid_to" (n_ValidTo n)
          (<["valid_from" := VString (FormatTime (n_ValidFrom n))]>
            (<["id" := VString (n_ID n)]> ∅))))).

Definition edgeProps (e : edge_in) : props :=
  put_all (e_Properties e)
    (put_string "supersedes" (Supersedes e)
      ((if feqb (e_Confidence e) fzero then id else <["confidence" := VFloat (e_Confidence e)]>)
        (put_string "determination_type" (DeterminationType e)
          (put_string "determined_by" (DeterminedBy e)
            (put_time "valid_to" (e_ValidTo e)
              (<["valid_from" := VString (FormatTime (e_ValidFrom e))]>
                (<["id" := VString (e_ID e)]> ∅))))))).

Definition requiresProps (r : RequiresEdge) : props :=
  put_string "prompt_version" (PromptVersion r)
    ((if bool_decide (Models r = []) then id else <["models" := VList (Models r)]>)
      (list_to_map
        [("id", VString (EdgeID r)); ("valid_from", VString (FormatTime (AnalyzedAt r)));
         ("confidence", VFloat (re_Confidence r)); ("unanimous", VBool (re_Unanimous r));
         ("valid_votes", VFloat (fof_Z (ValidVotes r))); ("total_votes", VFloat (fof_Z (TotalVotes r)));
         ("vote_weight", VFloat (VoteWeight r));
         ("samples_per_model", VFloat (fof_Z (SamplesPerModel r)));
         ("analyzed_at", VString (FormatTime (AnalyzedAt r))); ("job_id", VString (re_JobID r))])).

Definition stringProp (m : props) (k : string) : string :=
  match m !! k with Some (VString s) => s | _ => "" end.

Definition floatProp (m : props) (k : string) : float64 :=
  match m !! k with Some (VFloat f) => f | _ => fzero end.

Definition timeProp (m : props) (k : string) : Time := default 0%Z (ParseTime (stringProp m k)).

Definition timePtrProp (m : props) (k : string) : option Time :=
  if bool_decide (stringProp m k = "") then None else ParseTime (stringProp m k).

(** * State *)

Record memNode := mkMemNode { mn_label : string; mn_props : props }.

Record memEdge := mkMemEdge {
  me_label : string;
  me_props : props;
  me_source : nat;
  me_target : nat;
  me_seq : Z;
}.

Record memGraph := mkMemGraph {
  g_nodes : list memNode;
  g_edges : list memEdge;
  lastSeq : Z;
  labelKinds : gmap string string;
}.

Record memClient := mkMemClient { graphs : gmap string memGraph }.

Definition New : memClient := mkMemClient ∅.
Definition empty_graph : memGraph := mkMemGraph [] [] 0 ∅.

(** * Helpers ([client.go]) *)

(** What a method returns and the client it leaves. *)
Definition outcome (A : Type) : Type := result graph_error A * memClient.

Definition graph (c : memClient) (tenant : string) : result graph_error memGraph :=
  match CheckTenant tenant with
  | Err e => Err e
  | Ok _ =>
      match graphs c !! tenant with
      | None => Err (ErrGraphNotFound tenant)
      | Some g => Ok g
      end
  end.

Definition put_graph (c : memClient) (tenant : string) (g : memGraph) : memClient :=
  mkMemClient (<[tenant := g]> (graphs c)).

(** A write: the tenant's graph is looked up and [f] runs on it; [f] returns
    the graph it leaves behind also when it fails. *)
Definition on_graph {A} (c : memClient) (tenant : string)
    (f : memGraph -> result graph_error A * memGraph) : outcome A :=
  match graph c tenant with
  | Err e => (Err e, c)
  | Ok g => let '(r, g') := f g in (r, put_graph c tenant g')
  end.

Definition useLabel (g : memGraph) (label kind : string) : result graph_error unit * memGraph :=
  match labelKinds g !! label with
  | None => (Ok tt, mkMemGraph (g_nodes g) (g_edges g) (lastSeq g) (<[label := kind]> (labelKinds g)))
  | Some stored =>
      if bool_decide (stored <> kind) then (Err (LabelKindConflictError label kind stored), g)
      else (Ok tt, g)
  end.

(** [nodeByID] returns a pointer; here, the position of the node. *)
Definition nodeByID (g : memGraph) (id : string) : option nat :=
  fst <$> list_find (fun n => stringProp (mn_props n) "id" = id) (g_nodes g).

Definition resolveNode (g : memGraph) (id : string) : result graph_error nat :=
  match nodeByID g id with Some i => Ok i | None => Err (ErrNodeNotFound id) end.

Definition edgeByID (g : memGraph) (id : string) : option memEdge :=
  snd <$> list_find (fun e => stringProp (me_props e) "id" = id) (g_edges g).

Definition addEdge (g : memGraph) (sourceID targetID label : string) (ps : props) :
    result graph_error unit * memGraph :=
  match resolveNode g sourceID with
  | Err e => (Err (ErrEndpoint "source" e), g)
  | Ok src =>
      match resolveNode g targetID with
      | Err e => (Err (ErrEndpoint "target" e), g)
      | Ok tgt =>
          let id := stringProp ps "id" in
          if bool_decide (id <> "" /\ is_Some (edgeByID g id)) then (Err (ErrEdgeExists id), g)
          else
            let seq := (lastSeq g + 1)%Z in
            (Ok tt, mkMemGraph (g_nodes g) (g_edges g ++ [mkMemEdge label ps src tgt seq]) seq
                      (labelKinds g))
      end
  end.

Definition decodeNode (n : memNode) : node_out :=
  let m := mn_props n in
  mkNode (stringProp m "id") (mn_label n) m (timeProp m "valid_from") (timePtrProp m "valid_to")
    (stringProp m "created_by") (stringProp m "creation_method").

Definition decodeEdge (e : memEdge) : edge_out :=
  let m := me_props e in
  let id := stringProp m "id" in
  mkEdge (if bool_decide (id = "") then pretty (me_seq e) else id) (me_label e) m
    (timeProp m "valid_from") (timePtrProp m "valid_to") (stringProp m "determined_by")
    (stringProp m "determination_type") (floatProp m "confidence") (stringProp m "supersedes").

(** * Writes *)

Definition CreateGraph (c : memClient) (tenant : string) : outcome unit :=
  match CheckTenant tenant with
  | Err e => (Err e, c)
  | Ok _ =>
      match graphs c !! tenant with
      | Some _ => (Ok tt, c)
      | None => (Ok tt, put_graph c tenant empty_graph)
      end
  end.

Definition set_nodes (g : memGraph) (ns : list memNode) : memGraph :=
  mkMemGraph ns (g_edges g) (lastSeq g) (labelKinds g).

(** [CreateNode] under the lock, on the tenant's graph. *)
Definition create_node (node : node_in) (g : memGraph) : result graph_error unit * memGraph :=
  match useLabel g (n_Label node) "node" with
  | (Err e, g) => (Err e, g)
  | (Ok _, g) =>
      match nodeByID g (n_ID node) ≫= fun i => g_nodes g !! i with
      | Some existing =>
          if bool_decide (mn_label existing <> n_Label node)
          then (Err (NodeIDConflictError (n_ID node) (n_Label node) (mn_label existing)), g)
          else (Err (ErrNodeExists (n_Label node) (n_ID node)), g)
      | None => (Ok tt, set_nodes g (g_nodes g ++ [mkMemNode (n_Label node) (nodeProps node)]))
      end
  end.

Definition CreateNode (c : memClient) (tenant : string) (node : node_in) : outcome unit :=
  match CheckNode node with
  | Err e => (Err e, c)
  | Ok _ => on_graph c tenant (create_node node)
  end.

(** [props[k] = existing[k]] when the key is there. *)
Definition keep_key (existing : props) (k : string) (m : props) : props :=
  match existing !! k with Some v => <[k := v]> m | None => m end.

(** The properties [UpsertNode] leaves on a node stored under the same label
    (which always has a valid_from). *)
Definition upsert_props (existing : props) (node : node_in) : props :=
  let m := keep_key existing "valid_from" (nodeProps node) in
  match n_ValidTo node with
  | None => keep_key existing "superseded_by" (keep_key existing "valid_to" m)
  | Some _ => m
  end.

Definition upsert_node (node : node_in) (g : memGraph) : result graph_error bool * memGraph :=
  match useLabel g (n_Label node) "node" with
  | (Err e, g) => (Err e, g)
  | (Ok _, g) =>
      match nodeByID g (n_ID node) ≫= fun i => (i,.) <$> g_nodes g !! i with
      | None => (Ok true, set_nodes g (g_nodes g ++ [mkMemNode (n_Label node) (nodeProps node)]))
      | Some (i, existing) =>
          if bool_decide (mn_label existing <> n_Label node)
          then (Err (NodeIDConflictError (n_ID node) (n_Label node) (mn_label existing)), g)
          else (Ok false, set_nodes g (<[i := mkMemNode (mn_label existing)
                  (upsert_props (mn_props existing) node)]> (g_nodes g)))
      end
  end.

Definition UpsertNode (c : memClient) (tenant : string) (node : node_in) : outcome bool :=
  match CheckNode node with
  | Err e => (Err e, c)
  | Ok _ => on_graph c tenant (upsert_node node)
  end.

Definition write_edge (g : memGraph) (sourceID targetID label : string) (ps : props) :
    result graph_error unit * memGraph :=
  match useLabel g label "edge" with
  | (Err e, g) => (Err e, g)
  | (Ok _, g) => addEdge g sourceID targetID label ps
  end.

Definition CreateEdge (c : memClient) (tenant sourceID targetID : string) (edge : edge_in) :
    outcome unit :=
  match CheckEdge sourceID targetID edge with
  | Err e => (Err e, c)
  | Ok _ => on_graph c tenant (fun g => write_edge g sourceID targetID (e_Label edge) (edgeProps edge))
  end.

Definition CreateRequiresEdge (c : memClient) (tenant : string) (r : RequiresEdge) : outcome unit :=
  match CheckRequiresEdge r with
  | Err e => (Err e, c)
  | Ok _ => on_graph c tenant (fun g =>
      write_edge g (re_SourceID r) (re_TargetID r) "REQUIRES" (requiresProps r))
  end.

(** The three loops of [BulkCreateEdges]. *)
Fixpoint bulk_check (i : nat) (edges : list BulkEdge) : check :=
  match edges with
  | [] => Ok tt
  | be :: edges' =>
      match CheckEdge (be_SourceID be) (be_TargetID be) (be_Edge be) with
      | Err e => Err (BulkEdgeError i e)
      | Ok _ => bulk_check (S i) edges'
      end
  end.

Fixpoint bulk_labels (g : memGraph) (edges : list BulkEdge) : check * memGraph :=
  match edges with
  | [] => (Ok tt, g)
  | be :: edges' =>
      match useLabel g (e_Label (be_Edge be)) "edge" with
      | (Err e, g) => (Err e, g)
      | (Ok _, g) => bulk_labels g edges'
      end
  end.

Fixpoint bulk_add (i : nat) (g : memGraph) (edges : list BulkEdge) : check * memGraph :=
  match edges with
  | [] => (Ok tt, g)
  | be :: edges' =>
      match addEdge g (be_SourceID be) (be_TargetID be) (e_Label (be_Edge be)) (edgeProps (be_Edge be)) with
      | (Err e, g) => (Err (BulkEdgeError i e), g)
      | (Ok _, g) => bulk_add (S i) g edges'
      end
  end.

(** [g.edges, g.lastSeq = g.edges[:edgeCount], lastSeq]. *)
Definition rollback (edgeCount : nat) (seq : Z) (g : memGraph) : memGraph :=
  mkMemGraph (g_nodes g) (take edgeCount (g_edges g)) seq (labelKinds g).

Definition bulk_edges (edges : list BulkEdge) (g : memGraph) :
    result graph_error (list string) * memGraph :=
  match bulk_labels g edges with
  | (Err e, g) => (Err e, g)
  | (Ok _, g) =>
      match bulk_add 0 g edges with
      | (Err e, g') => (Err e, rollback (length (g_edges g)) (lastSeq g) g')
      | (Ok _, g') => (Ok (e_ID ∘ be_Edge <$> edges), g')
      end
  end.

Definition BulkCreateEdges (c : memClient) (tenant : string) (edges : list BulkEdge) :
    outcome (list string) :=
  match edges with
  | [] => match CheckTenant tenant with Err e => (Err e, c) | Ok _ => (Ok [], c) end
  | _ =>
      match bulk_check 0 edges with
      | Err e => (Err e, c)
      | Ok _ => on_graph c tenant (bulk_edges edges)
      end
  end.

Definition supersede_props (req : SupersedeRequest) (m : props) : props :=
  put_string "superseded_by" (SupersededByJobID req)
    (<["valid_to" := VString (FormatTime (SupersededAt req))]> m).

Definition supersede (req : SupersedeRequest) (g : memGraph) : result graph_error bool * memGraph :=
  if bool_decide (sr_NodeID req <> "") then
    match nodeByID g (sr_NodeID req) ≫= fun i => (i,.) <$> g_nodes g !! i with
    | None => (Ok false, g)
    | Some (i, n) =>
        (Ok true, set_nodes g (<[i := mkMemNode (mn_label n) (supersede_props req (mn_props n))]>
                                 (g_nodes g)))
    end
  else
    let hit e := bool_decide (stringProp (me_props e) "id" = sr_EdgeID req) in
    let edges := (fun e => if hit e then mkMemEdge (me_label e) (supersede_props req (me_props e))
                                          (me_source e) (me_target e) (me_seq e) else e)
                   <$> g_edges g in
    (Ok (existsb hit (g_edges g)), mkMemGraph (g_nodes g) edges (lastSeq g) (labelKinds g)).

Definition SupersedeFact (c : memClient) (tenant : string) (req : SupersedeRequest) : outcome bool :=
  match CheckSupersedeRequest req with
  | Err e => (Err e, c)
  | Ok _ => on_graph c tenant (supersede req)
  end.

(** * Reads *)

(** [reflect.DeepEqual]: floats compare with [==], so NaN is not found. *)
Definition deep_equal (a b : value) : bool :=
  match a, b with
  | VFloat x, VFloat y => feqb x y
  | _, _ => bool_decide (a = b)
  end.

Definition matchesProps (m : props) (want : gmap string any) : bool :=
  forallb (fun kv => match m !! kv.1 with
    | Some got => deep_equal got (normalizeValue kv.2) | None => false end) (map_to_list want).

Definition filter_label (want have : string) : bool :=
  negb (bool_decide (want <> "") && bool_decide (have <> want)).

Definition node_at (g : memGraph) (i : nat) : memNode := default (mkMemNode "" ∅) (g_nodes g !! i).
Definition edge_at (g : memGraph) (i : nat) : memEdge := default (mkMemEdge "" ∅ 0 0 0) (g_edges g !! i).

Definition edge_selected (g : memGraph) (q : RelationshipQuery) (asOf : option Time) (e : memEdge) :
    bool :=
  filter_label (rq_EdgeLabel q) (me_label e) &&
  filter_label (rq_SourceLabel q) (mn_label (node_at g (me_source e))) &&
  filter_label (rq_TargetLabel q) (mn_label (node_at g (me_target e))) &&
  matchesProps (me_props e) (rq_Properties q) &&
  match asOf with
  | None => bool_decide (me_props e !! "valid_to" = None)
  | Some t => ValidAt (mkPath [] [decodeEdge e]) t
  end.

Definition relationships (g : memGraph) (q : RelationshipQuery) (asOf : option Time) :
    list Relationship :=
  (fun e => mkRelationship (decodeNode (node_at g (me_source e))) (decodeEdge e)
              (decodeNode (node_at g (me_target e)))) <$>
    List.filter (edge_selected g q asOf) (g_edges g).

Definition read_graph {A} (c : memClient) (tenant : string) (f : memGraph -> result graph_error A) :
    result graph_error A :=
  match graph c tenant with Err e => Err e | Ok g => f g end.

Definition QueryRelationships (c : memClient) (tenant : string) (q : RelationshipQuery) :
    result graph_error (list Relationship) :=
  match CheckRelationshipQuery q with
  | Err e => Err e
  | Ok _ => read_graph c tenant (fun g => Ok (relationships g q None))
  end.

Definition QueryAsOf (c : memClient) (tenant : string) (q : RelationshipQuery) (asOf : Time) :
    result graph_error (list Relationship) :=
  match CheckRelationshipQuery q with
  | Err e => Err e
  | Ok _ => read_graph c tenant (fun g => Ok (relationships g q (Some asOf)))
  end.

Definition GetNode (c : memClient) (tenant nodeID : string) : result graph_error node_out :=
  if bool_decide (nodeID = "") then Err (ErrRequired "node_id")
  else read_graph c tenant (fun g =>
    match nodeByID g nodeID with
    | Some i => Ok (decodeNode (node_at g i))
    | None => Err (ErrNodeNotFound nodeID)
    end).

Definition GetEdge (c : memClient) (tenant edgeID : string) : result graph_error EdgeWithEndpoints :=
  if bool_decide (edgeID = "") then Err (ErrRequired "edge_id")
  else read_graph c tenant (fun g =>
    match edgeByID g edgeID with
    | Some e => Ok (mkEdgeWithEndpoints (decodeEdge e)
        (stringProp (mn_props (node_at g (me_source e))) "id")
        (stringProp (mn_props (node_at g (me_target e))) "id"))
    | None => Err (ErrEdgeNotFound edgeID)
    end).

Definition ExecuteQuery (c : memClient) (tenant cypher : string) : result graph_error unit :=
  if bool_decide (cypher = "") then Err (ErrRequired "cypher")
  else read_graph c tenant (fun _ => Err ErrNotSupported).

(** ** Traversal *)

Definition neighbor (e : memEdge) (from : nat) (direction : string) : option nat :=
  if bool_decide (direction = "inbound") then
    if bool_decide (me_target e = from) then Some (me_source e) else None
  else if bool_decide (direction = "both") then
    if bool_decide (me_source e = from) then Some (me_target e)
    else if bool_decide (me_target e = from) then Some (me_source e) else None
  else if bool_decide (me_source e = from) then Some (me_target e) else None.

(** A path under construction: the nodes and edges it goes through. *)
Abbreviation track := (list nat * list nat)%type.

(** [walk]: [fuel] bounds the recursion by the number of edges not yet used. *)
Fixpoint walk (fuel : nat) (g : memGraph) (q : TraversalQuery) (nodes edges : list nat) : list track :=
  match fuel with
  | 0 => []
  | S fuel' =>
      if bool_decide (0 < MaxDepth q /\ MaxDepth q <= Z.of_nat (length edges))%Z then []
      else
        let current := default 0 (last nodes) in
        seq 0 (length (g_edges g)) ≫= fun i =>
          let e := edge_at g i in
          if bool_decide (EdgeLabels q <> [] /\ me_label e ∉ EdgeLabels q) then []
          else if bool_decide (i ∈ edges) then []
          else match neighbor e current (Direction q) with
          | None => []
          | Some next =>
              (nodes ++ [next], edges ++ [i]) :: walk fuel' g q (nodes ++ [next]) (edges ++ [i])
          end
  end.

Definition decodePath (g : memGraph) (t : track) : Path :=
  mkPath (decodeNode ∘ node_at g <$> t.1) (decodeEdge ∘ edge_at g <$> t.2).

Definition traverse (g : memGraph) (q : TraversalQuery) : list Path :=
  match nodeByID g (StartNode q) with
  | None => []
  | Some start => decodePath g <$> walk (S (length (g_edges g))) g q [start] []
  end.

Definition Traverse (c : memClient) (tenant : string) (q : TraversalQuery) :
    result graph_error (list Path) :=
  match first_error (CheckLabel "edge label") (EdgeLabels q) with
  | Err e => Err e
  | Ok _ =>
      read_graph c tenant (fun g =>
        let paths := traverse g q in
        Ok (match AsOf q with
            | None => paths
            | Some t => List.filter (fun p => ValidAt p t) paths
            end))
  end.
