(* ===== verification/MemDriverFacts.v ===== *)
(** Proofs about the in-memory graph driver: the invariant of every reachable
    state and the clauses of the contract documented on [graphdb.GraphDB]. *)

From stdpp Require Import pretty.
From Stdlib Require Import ZArith Lia.
From S2P Require Import Prelude Float64 Timefmt Tenant Graph MemDriver.

(** * Stored properties *)

Definition node_id (n : memNode) : string := stringProp (mn_props n) "id".
Definition edge_id (e : memEdge) : string := stringProp (me_props e) "id".

Lemma put_string_lookup k s m k' :
  put_string k s m !! k' =
  if bool_decide (k = k') then (if bool_decide (s = "") then m !! k' else Some (VString s)) else m !! k'.
Proof.
  unfold put_string. case_bool_decide as Hs; case_bool_decide as Hk; subst; try done.
  - by rewrite lookup_insert_eq.
  - by rewrite lookup_insert_ne.
Qed.

Lemma put_time_lookup k t m k' :
  put_time k t m !! k' =
  if bool_decide (k = k') then (match t with None => m !! k' | Some t => Some (VString (FormatTime t)) end)
  else m !! k'.
Proof.
  unfold put_time. destruct t; case_bool_decide as Hk; subst; try done.
  - by rewrite lookup_insert_eq.
  - by rewrite lookup_insert_ne.
Qed.

Lemma put_all_lookup ps m k :
  put_all ps m !! k = match ps !! k with Some v => Some (normalizeValue v) | None => m !! k end.
Proof.
  unfold put_all. rewrite lookup_union, lookup_fmap. destruct (ps !! k); simpl.
  - by destruct (m !! k).
  - by rewrite left_id by apply _.
Qed.

(** Rewrites a lookup in a freshly built property map. *)
Ltac lookup_props :=
  repeat first
    [ rewrite put_string_lookup | rewrite put_time_lookup
    | rewrite lookup_insert_eq | rewrite lookup_insert_ne by done
    | rewrite bool_decide_eq_true_2 by done | rewrite bool_decide_eq_false_2 by done ];
  rewrite ?lookup_empty.

Lemma reserved_node_key n k :
  node_valid n -> k ∈ dom reservedNodeKeys -> n_Properties n !! k = None.
Proof.
  intros Hn Hk. apply not_elem_of_dom. intros Hin. by destruct (nv_keys _ Hn k Hin).
Qed.

Lemma reserved_edge_key s t e k :
  edge_valid s t e -> k ∈ dom reservedEdgeKeys -> e_Properties e !! k = None.
Proof.
  intros He Hk. apply not_elem_of_dom. intros Hin. by destruct (ev_keys _ _ _ He k Hin).
Qed.

Ltac reserved := apply elem_of_dom; eexists; vm_compute; reflexivity.

Lemma nodeProps_lookup n k :
  node_valid n -> k ∈ dom reservedNodeKeys ->
  nodeProps n !! k =
    (put_string "creation_method" (CreationMethod n) (put_string "created_by" (CreatedBy n)
      (put_time "valid_to" (n_ValidTo n)
        (<["valid_from" := VString (FormatTime (n_ValidFrom n))]> (<["id" := VString (n_ID n)]> ∅))))) !! k.
Proof. intros Hn Hk. unfold nodeProps. by rewrite put_all_lookup, reserved_node_key. Qed.

Lemma nodeProps_id n : node_valid n -> nodeProps n !! "id" = Some (VString (n_ID n)).
Proof. intros Hn. rewrite nodeProps_lookup by (done || reserved). by lookup_props. Qed.

Lemma nodeProps_from n :
  node_valid n -> nodeProps n !! "valid_from" = Some (VString (FormatTime (n_ValidFrom n))).
Proof. intros Hn. rewrite nodeProps_lookup by (done || reserved). by lookup_props. Qed.

Lemma edgeProps_id s t e : edge_valid s t e -> edgeProps e !! "id" = Some (VString (e_ID e)).
Proof.
  intros He. unfold edgeProps. rewrite put_all_lookup, (reserved_edge_key s t) by (done || reserved).
  lookup_props. by destruct (feqb _ _); unfold id; lookup_props.
Qed.

Lemma keep_key_lookup m k m' k' :
  keep_key m k m' !! k' = if bool_decide (k = k') then (match m !! k with Some v => Some v | None => m' !! k' end)
                          else m' !! k'.
Proof.
  unfold keep_key. destruct (m !! k) eqn:E; case_bool_decide as Hk; subst; try done.
  - by rewrite lookup_insert_eq.
  - by rewrite lookup_insert_ne.
Qed.

Lemma upsert_props_id m n : node_valid n -> upsert_props m n !! "id" = Some (VString (n_ID n)).
Proof.
  intros Hn. unfold upsert_props.
  destruct (n_ValidTo n); rewrite !keep_key_lookup, !bool_decide_eq_false_2 by done; by apply nodeProps_id.
Qed.

Lemma upsert_props_from m n v : m !! "valid_from" = Some v -> upsert_props m n !! "valid_from" = Some v.
Proof.
  intros Hm. unfold upsert_props.
  destruct (n_ValidTo n); rewrite !keep_key_lookup, ?bool_decide_eq_false_2 by done;
    by rewrite bool_decide_eq_true_2, Hm.
Qed.

Lemma supersede_props_lookup req m k :
  k <> "valid_to" -> k <> "superseded_by" -> supersede_props req m !! k = m !! k.
Proof.
  intros H1 H2. unfold supersede_props.
  by rewrite put_string_lookup, bool_decide_eq_false_2, lookup_insert_ne by done.
Qed.

(** * The invariant *)

Definition used_ids (es : list memEdge) : list string := filter (fun s => s <> "") (edge_id <$> es).

Record graph_wf (g : memGraph) : Prop := {
  gw_ids : NoDup (node_id <$> g_nodes g);
  gw_nonempty : Forall (fun n => node_id n <> "") (g_nodes g);
  gw_from : Forall (fun n => is_Some (mn_props n !! "valid_from")) (g_nodes g);
  gw_edge_ids : NoDup (used_ids (g_edges g));
  gw_endpoints : Forall (fun e => me_source e < length (g_nodes g) /\ me_target e < length (g_nodes g))
    (g_edges g);
  gw_node_labels : Forall (fun n => labelKinds g !! mn_label n = Some "node") (g_nodes g);
  gw_edge_labels : Forall (fun e => labelKinds g !! me_label e = Some "edge") (g_edges g);
  gw_seq : StronglySorted Z.lt ((me_seq <$> g_edges g) ++ [(lastSeq g + 1)%Z]);
}.

Definition client_wf (c : memClient) : Prop :=
  forall t g, graphs c !! t = Some g -> CheckTenant t = Ok tt /\ graph_wf g.

Lemma empty_graph_wf : graph_wf empty_graph.
Proof. split; simpl; repeat constructor. Qed.

(** ** Labels *)

Record same_store (g g' : memGraph) : Prop := {
  ss_nodes : g_nodes g' = g_nodes g;
  ss_edges : g_edges g' = g_edges g;
  ss_seq : lastSeq g' = lastSeq g;
  ss_kinds : labelKinds g ⊆ labelKinds g';
}.

#[export] Instance same_store_refl : Reflexive same_store.
Proof. done. Qed.
#[export] Instance same_store_trans : Transitive same_store.
Proof. intros g1 g2 g3 [????] [????]. split; try congruence. by etrans. Qed.

Lemma useLabel_spec g label kind :
  same_store g (useLabel g label kind).2 /\
  match (useLabel g label kind).1 with
  | Ok _ => labelKinds (useLabel g label kind).2 !! label = Some kind
  | Err e => exists stored, labelKinds g !! label = Some stored /\ stored <> kind /\
      e = LabelKindConflictError label kind stored
  end.
Proof.
  unfold useLabel. destruct (labelKinds g !! label) as [stored|] eqn:E.
  - case_bool_decide; simpl; [split; [done|eauto]|]. split; [done|]. rewrite E. by f_equal.
  - simpl. split; [|by rewrite lookup_insert_eq]. split; simpl; [done..|].
    by apply insert_subseteq.
Qed.

Lemma same_store_wf g g' : same_store g g' -> graph_wf g -> graph_wf g'.
Proof.
  intros [Hn He Hs Hk] [H1 H2 H3 H4 H5 H6 H7 H8]. split; rewrite ?Hn, ?He, ?Hs; try done.
  - eapply Forall_impl; [exact H6|]. intros n Hl. simpl in *. by eapply lookup_weaken.
  - eapply Forall_impl; [exact H7|]. intros n Hl. simpl in *. by eapply lookup_weaken.
Qed.

(** ** Lookups *)

Lemma nodeByID_Some g id i :
  nodeByID g id = Some i -> exists n, g_nodes g !! i = Some n /\ node_id n = id.
Proof.
  unfold nodeByID. intros ([j n] & (Hn & Hid & _)%list_find_Some & ->)%fmap_Some. eauto.
Qed.

Lemma nodeByID_None g id : nodeByID g id = None -> Forall (fun n => node_id n <> id) (g_nodes g).
Proof. unfold nodeByID. intros H%fmap_None%list_find_None. exact H. Qed.

Lemma nodeByID_unique g i n :
  graph_wf g -> g_nodes g !! i = Some n -> nodeByID g (node_id n) = Some i.
Proof.
  intros Hwf Hi. destruct (nodeByID g (node_id n)) as [j|] eqn:E.
  - apply nodeByID_Some in E as (m & Hj & Hid). f_equal.
    eapply (NoDup_lookup (node_id <$> g_nodes g)); [apply (gw_ids _ Hwf)| |];
      rewrite list_lookup_fmap; [by rewrite Hj; simpl; rewrite Hid|by rewrite Hi].
  - apply nodeByID_None in E. rewrite Forall_lookup in E. by destruct (E i n Hi).
Qed.

Lemma edgeByID_None g id : edgeByID g id = None -> Forall (fun e => edge_id e <> id) (g_edges g).
Proof. unfold edgeByID. intros H%fmap_None%list_find_None. exact H. Qed.

Lemma edgeByID_Some g id e :
  edgeByID g id = Some e -> exists i, g_edges g !! i = Some e /\ edge_id e = id.
Proof.
  unfold edgeByID. intros ([j n] & (Hn & Hid & _)%list_find_Some & ->)%fmap_Some. eauto.
Qed.

(** ** Every write keeps the invariant *)

Lemma addEdge_wf g s t label ps :
  graph_wf g -> labelKinds g !! label = Some "edge" -> graph_wf (addEdge g s t label ps).2.
Proof.
  intros Hwf Hl. unfold addEdge, resolveNode.
  destruct (nodeByID g s) as [src|] eqn:Es; [|done]. destruct (nodeByID g t) as [tgt|] eqn:Et; [|done].
  case_bool_decide as Hdup; [done|]. simpl.
  apply nodeByID_Some in Es as (n & Hn%lookup_lt_Some & _), Et as (m & Hm%lookup_lt_Some & _).
  destruct Hwf as [H1 H2 H3 H4 H5 H6 H7 H8]. split; simpl; try done.
  - unfold used_ids in *. rewrite fmap_app, filter_app. simpl.
    unfold edge_id at 2. simpl. set (id := stringProp ps "id") in *.
    destruct (decide (id = "")) as [E|E].
    + rewrite filter_cons_False by tauto. by rewrite app_nil_r.
    + rewrite filter_cons_True by done. apply NoDup_app. split; [done|]. split; [|apply NoDup_singleton].
      intros x [_ Hx]%list_elem_of_filter ->%list_elem_of_singleton. destruct Hdup. split; [done|].
      destruct (edgeByID g id) as [e|] eqn:Ee; [by exists e|].
      apply edgeByID_None in Ee. apply list_elem_of_fmap in Hx as (e & -> & He).
      rewrite Forall_forall in Ee. by destruct (Ee e He).
  - apply Forall_app. split; [done|]. by constructor.
  - apply Forall_app. split; [done|]. by constructor.
  - rewrite fmap_app. simpl. apply StronglySorted_app. split; [|split; [done|repeat constructor]].
    intros x y Hx ->%list_elem_of_singleton. apply elem_of_app in Hx as [Hx|Hx%list_elem_of_singleton].
    + eapply (StronglySorted_app_1_elem_of Z.lt) in H8; [|exact Hx|left]. lia.
    + subst. lia.
Qed.

Lemma write_edge_wf g s t label ps : graph_wf g -> graph_wf (write_edge g s t label ps).2.
Proof.
  intros Hwf. unfold write_edge. destruct (useLabel_spec g label "edge") as [Hss Hr].
  destruct (useLabel g label "edge") as [[[]|e] g'] eqn:E; simpl in *.
  - apply addEdge_wf; [by eapply same_store_wf|done].
  - by eapply same_store_wf.
Qed.

Lemma append_node_wf g n :
  graph_wf g -> labelKinds g !! n_Label n = Some "node" -> node_valid n -> nodeByID g (n_ID n) = None ->
  graph_wf (set_nodes g (g_nodes g ++ [mkMemNode (n_Label n) (nodeProps n)])).
Proof.
  intros [H1 H2 H3 H4 H5 H6 H7 H8] Hl Hn Hid%nodeByID_None.
  assert (node_id (mkMemNode (n_Label n) (nodeProps n)) = n_ID n) as En.
  { unfold node_id, stringProp. simpl. by rewrite nodeProps_id. }
  split; simpl; try done.
  - rewrite fmap_app. simpl. rewrite En. apply NoDup_app. split; [done|]. split; [|apply NoDup_singleton].
    intros x (m & -> & Hm)%list_elem_of_fmap Hx%list_elem_of_singleton.
    rewrite Forall_forall in Hid. by destruct (Hid m Hm).
  - apply Forall_app. split; [done|]. constructor; [|done]. rewrite En. apply Hn.
  - apply Forall_app. split; [done|]. constructor; [|done]. simpl. rewrite nodeProps_from by done. eauto.
  - eapply Forall_impl; [exact H5|]. simpl. intros e. rewrite length_app. simpl. lia.
  - apply Forall_app. split; [done|]. by constructor.
Qed.

(** Replacing the properties of a stored node, keeping its ID. *)
Lemma replace_node_wf g i n m :
  graph_wf g -> g_nodes g !! i = Some n -> mn_label m = mn_label n -> node_id m = node_id n ->
  is_Some (mn_props m !! "valid_from") -> graph_wf (set_nodes g (<[i := m]> (g_nodes g))).
Proof.
  intros [H1 H2 H3 H4 H5 H6 H7 H8] Hi Hl Hid Hf. rewrite Forall_lookup in H2, H6.
  split; simpl; try done.
  - rewrite list_fmap_insert, Hid, list_insert_id; [done|]. by rewrite list_lookup_fmap, Hi.
  - apply Forall_insert; [by apply Forall_lookup|]. rewrite Hid. eauto.
  - by apply Forall_insert.
  - eapply Forall_impl; [exact H5|]. intros e. by rewrite length_insert.
  - apply Forall_insert; [by apply Forall_lookup|]. rewrite Hl. eauto.
Qed.

(** ** Method by method *)

Lemma put_graph_wf c t g :
  client_wf c -> CheckTenant t = Ok tt -> graph_wf g -> client_wf (put_graph c t g).
Proof.
  intros Hc Ht Hg t' g'. unfold put_graph. simpl. destruct (decide (t' = t)) as [->|].
  - rewrite lookup_insert_eq. by intros [= <-].
  - rewrite lookup_insert_ne by done. apply Hc.
Qed.

Lemma graph_ok c t g : graph c t = Ok g <-> CheckTenant t = Ok tt /\ graphs c !! t = Some g.
Proof.
  unfold graph. destruct (CheckTenant t) as [[]|]; [|naive_solver].
  destruct (graphs c !! t); naive_solver.
Qed.

Lemma on_graph_wf {A} c t (f : memGraph -> result graph_error A * memGraph) :
  client_wf c -> (forall g, graph_wf g -> graph_wf (f g).2) -> client_wf (on_graph c t f).2.
Proof.
  intros Hc Hf. unfold on_graph. destruct (graph c t) as [g|] eqn:E; [|done].
  apply graph_ok in E as [Ht Hg]. destruct (Hc t g Hg) as [_ Hwf]. specialize (Hf g Hwf).
  destruct (f g) as [r g']. by apply put_graph_wf.
Qed.

Lemma CreateGraph_wf c t : client_wf c -> client_wf (CreateGraph c t).2.
Proof.
  intros Hc. unfold CreateGraph. destruct (CheckTenant t) as [[]|] eqn:E; [|done].
  destruct (graphs c !! t); [done|]. apply put_graph_wf; [done..|apply empty_graph_wf].
Qed.

(** The three outcomes both node writes share, on the graph after [useLabel]. *)
Lemma existing_node g id :
  (nodeByID g id = None /\ (nodeByID g id ≫= fun i => (i,.) <$> g_nodes g !! i) = None /\
   (nodeByID g id ≫= fun i => g_nodes g !! i) = None) \/
  (exists i n, nodeByID g id = Some i /\ g_nodes g !! i = Some n /\ node_id n = id /\
   (nodeByID g id ≫= fun i => (i,.) <$> g_nodes g !! i) = Some (i, n) /\
   (nodeByID g id ≫= fun i => g_nodes g !! i) = Some n).
Proof.
  destruct (nodeByID g id) as [i|] eqn:E; [|by left]. right.
  pose proof E as (n & Hn & Hid)%nodeByID_Some. exists i, n. simpl. by rewrite Hn.
Qed.

Lemma create_node_wf node g : node_valid node -> graph_wf g -> graph_wf (create_node node g).2.
Proof.
  intros Hn Hwf. unfold create_node. destruct (useLabel_spec g (n_Label node) "node") as [Hss Hr].
  destruct (useLabel g (n_Label node) "node") as [[[]|e] g'] eqn:E; simpl in *;
    [|by eapply same_store_wf].
  pose proof (same_store_wf _ _ Hss Hwf) as Hwf'.
  destruct (existing_node g' (n_ID node)) as [(Hid & _ & ->)|(i & n & _ & _ & _ & _ & ->)].
  - by apply append_node_wf.
  - by case_bool_decide.
Qed.

Lemma upsert_node_wf node g : node_valid node -> graph_wf g -> graph_wf (upsert_node node g).2.
Proof.
  intros Hn Hwf. unfold upsert_node. destruct (useLabel_spec g (n_Label node) "node") as [Hss Hr].
  destruct (useLabel g (n_Label node) "node") as [[[]|e] g'] eqn:E; simpl in *;
    [|by eapply same_store_wf].
  pose proof (same_store_wf _ _ Hss Hwf) as Hwf'.
  destruct (existing_node g' (n_ID node)) as [(Hid & -> & _)|(i & n & _ & Hi & Hid & -> & _)].
  - by apply append_node_wf.
  - case_bool_decide; [done|]. simpl. eapply replace_node_wf; [done|done|done| |].
    + unfold node_id, stringProp. simpl. rewrite upsert_props_id by done. by rewrite <- Hid.
    + simpl. pose proof (gw_from _ Hwf') as Hf. rewrite Forall_lookup in Hf.
      destruct (Hf i n Hi) as [v Hv]. rewrite (upsert_props_from _ _ v) by done. eauto.
Qed.

Lemma bulk_labels_spec g edges :
  same_store g (bulk_labels g edges).2 /\
  ((bulk_labels g edges).1 = Ok tt ->
   Forall (fun be => labelKinds (bulk_labels g edges).2 !! e_Label (be_Edge be) = Some "edge") edges).
Proof.
  revert g. induction edges as [|be edges IH]; intros g; simpl; [done|].
  destruct (useLabel_spec g (e_Label (be_Edge be)) "edge") as [Hss Hr].
  destruct (useLabel g (e_Label (be_Edge be)) "edge") as [[[]|e] g'] eqn:E; simpl in *; [|done].
  destruct (IH g') as [Hss' Hl]. split; [by etrans|]. intros Hok. constructor; [|by apply Hl].
  eapply lookup_weaken; [exact Hr|apply Hss'].
Qed.

(** An edge is only ever appended. *)
Lemma addEdge_spec g s t label ps g' :
  addEdge g s t label ps = (Ok tt, g') ->
  exists e, g' = mkMemGraph (g_nodes g) (g_edges g ++ [e]) (lastSeq g + 1) (labelKinds g) /\
    me_label e = label /\ me_props e = ps /\ me_seq e = (lastSeq g + 1)%Z /\
    nodeByID g s = Some (me_source e) /\ nodeByID g t = Some (me_target e).
Proof.
  unfold addEdge, resolveNode. destruct (nodeByID g s); [|done]. destruct (nodeByID g t); [|done].
  case_bool_decide; [done|]. intros [= <-]. eauto 10.
Qed.

Lemma addEdge_err g s t label ps e g' : addEdge g s t label ps = (Err e, g') -> g' = g.
Proof.
  unfold addEdge, resolveNode. destruct (nodeByID g s); [|naive_solver].
  destruct (nodeByID g t); [|naive_solver]. case_bool_decide; naive_solver.
Qed.

(** What the second bulk loop leaves behind, whether it fails or not. *)
Lemma bulk_add_extends i g edges :
  exists new, g_edges (bulk_add i g edges).2 = g_edges g ++ new /\
    g_nodes (bulk_add i g edges).2 = g_nodes g /\ labelKinds (bulk_add i g edges).2 = labelKinds g.
Proof.
  revert i g. induction edges as [|be edges IH]; intros i g; simpl.
  { exists []. by rewrite app_nil_r. }
  destruct (addEdge _ _ _ _ _) as [[[]|e] g'] eqn:E; simpl.
  - apply addEdge_spec in E as (e & -> & _). edestruct (IH (S i)) as (new & -> & -> & ->).
    exists (e :: new). simpl. by rewrite <- app_assoc.
  - apply addEdge_err in E as ->. exists []. by rewrite app_nil_r.
Qed.

Lemma rollback_bulk_add i g edges :
  rollback (length (g_edges g)) (lastSeq g) (bulk_add i g edges).2 = g.
Proof.
  destruct (bulk_add_extends i g edges) as (new & He & Hn & Hl). unfold rollback.
  rewrite He, Hn, Hl, take_app_length. by destruct g.
Qed.

Lemma bulk_add_wf i g edges :
  graph_wf g -> Forall (fun be => labelKinds g !! e_Label (be_Edge be) = Some "edge") edges ->
  graph_wf (bulk_add i g edges).2.
Proof.
  revert i g. induction edges as [|be edges IH]; intros i g Hwf Hl; simpl; [done|].
  apply Forall_cons in Hl as [Hl Hls].
  pose proof (addEdge_wf g (be_SourceID be) (be_TargetID be) _ (edgeProps (be_Edge be)) Hwf Hl) as Hwf'.
  destruct (addEdge _ _ _ _ _) as [[[]|e] g'] eqn:E; [|done]. apply IH; [done|].
  by apply addEdge_spec in E as (e & -> & _).
Qed.

Lemma bulk_edges_wf edges g : graph_wf g -> graph_wf (bulk_edges edges g).2.
Proof.
  intros Hwf. unfold bulk_edges. destruct (bulk_labels_spec g edges) as [Hss Hl].
  destruct (bulk_labels g edges) as [[[]|e] g'] eqn:E; simpl in *; [|by eapply same_store_wf].
  pose proof (same_store_wf _ _ Hss Hwf) as Hwf'.
  pose proof (bulk_add_wf 0 g' edges Hwf' (Hl eq_refl)) as Hadd.
  pose proof (rollback_bulk_add 0 g' edges) as Hroll.
  destruct (bulk_add 0 g' edges) as [[[]|e] g''] eqn:E'; simpl in *; [done|]. by rewrite Hroll.
Qed.

Lemma supersede_wf req g : graph_wf g -> graph_wf (supersede req g).2.
Proof.
  intros Hwf. unfold supersede. case_bool_decide.
  - destruct (existing_node g (sr_NodeID req)) as [(_ & -> & _)|(i & n & _ & Hi & _ & -> & _)]; [done|].
    simpl. eapply replace_node_wf; [done|done|done| |].
    + unfold node_id, stringProp. simpl. by rewrite supersede_props_lookup.
    + simpl. rewrite supersede_props_lookup by done. pose proof (gw_from _ Hwf) as Hf.
      rewrite Forall_lookup in Hf. eauto.
  - simpl. match goal with |- graph_wf (mkMemGraph _ (?F <$> _) _ _) => set (f := F) end.
    assert (forall e, me_label (f e) = me_label e /\ edge_id (f e) = edge_id e /\
      me_source (f e) = me_source e /\ me_target (f e) = me_target e /\ me_seq (f e) = me_seq e) as Hf.
    { intros e. unfold f. case_bool_decide; [|done]. unfold edge_id, stringProp. simpl.
      by rewrite supersede_props_lookup. }
    destruct Hwf as [H1 H2 H3 H4 H5 H6 H7 H8]. split; simpl; try done.
    + unfold used_ids in *. rewrite <- list_fmap_compose.
      replace (edge_id ∘ f <$> g_edges g) with (edge_id <$> g_edges g); [done|].
      apply list_fmap_ext. intros _ e _. symmetry. apply Hf.
    + apply Forall_fmap. eapply Forall_impl; [exact H5|]. intros e. simpl.
      by destruct (Hf e) as (_ & _ & -> & -> & _).
    + apply Forall_fmap. eapply Forall_impl; [exact H7|]. intros e. simpl.
      by destruct (Hf e) as (-> & _).
    + rewrite <- list_fmap_compose.
      replace (me_seq ∘ f <$> g_edges g) with (me_seq <$> g_edges g); [done|].
      apply list_fmap_ext. intros _ e _. symmetry. apply Hf.
Qed.

(** ** Reachable states *)

(** The methods that write, with their arguments. *)
Inductive op :=
| OpCreateGraph (tenant : string)
| OpCreateNode (tenant : string) (node : node_in)
| OpUpsertNode (tenant : string) (node : node_in)
| OpCreateEdge (tenant sourceID targetID : string) (edge : edge_in)
| OpCreateRequiresEdge (tenant : string) (r : RequiresEdge)
| OpBulkCreateEdges (tenant : string) (edges : list BulkEdge)
| OpSupersedeFact (tenant : string) (req : SupersedeRequest).

Definition op_tenant (o : op) : string :=
  match o with
  | OpCreateGraph t | OpCreateNode t _ | OpUpsertNode t _ | OpCreateEdge t _ _ _
  | OpCreateRequiresEdge t _ | OpBulkCreateEdges t _ | OpSupersedeFact t _ => t
  end.

(** The client a call leaves, whatever it returns. *)
Definition exec (c : memClient) (o : op) : memClient :=
  match o with
  | OpCreateGraph t => (CreateGraph c t).2
  | OpCreateNode t n => (CreateNode c t n).2
  | OpUpsertNode t n => (UpsertNode c t n).2
  | OpCreateEdge t s d e => (CreateEdge c t s d e).2
  | OpCreateRequiresEdge t r => (CreateRequiresEdge c t r).2
  | OpBulkCreateEdges t es => (BulkCreateEdges c t es).2
  | OpSupersedeFact t r => (SupersedeFact c t r).2
  end.

Inductive reachable : memClient -> Prop :=
| reach_new : reachable New
| reach_exec c o : reachable c -> reachable (exec c o).

Lemma exec_wf c o : client_wf c -> client_wf (exec c o).
Proof.
  intros Hc. destruct o as [t|t n|t n|t s d e|t r|t es|t r]; simpl.
  - by apply CreateGraph_wf.
  - unfold CreateNode. destruct (CheckNode n) as [[]|] eqn:E; [|done].
    apply on_graph_wf; [done|]. intros g. apply create_node_wf. by apply CheckNode_ok.
  - unfold UpsertNode. destruct (CheckNode n) as [[]|] eqn:E; [|done].
    apply on_graph_wf; [done|]. intros g. apply upsert_node_wf. by apply CheckNode_ok.
  - unfold CreateEdge. destruct (CheckEdge s d e); [|done].
    apply on_graph_wf; [done|]. intros g. apply write_edge_wf.
  - unfold CreateRequiresEdge. destruct (CheckRequiresEdge r); [|done].
    apply on_graph_wf; [done|]. intros g. apply write_edge_wf.
  - unfold BulkCreateEdges. destruct es as [|be es]; [by destruct (CheckTenant t)|].
    destruct (bulk_check 0 (be :: es)); [|done]. apply on_graph_wf; [done|]. intros g. apply bulk_edges_wf.
  - unfold SupersedeFact. destruct (CheckSupersedeRequest r); [|done].
    apply on_graph_wf; [done|]. intros g. apply supersede_wf.
Qed.

Lemma reachable_wf c : reachable c -> client_wf c.
Proof.
  induction 1 as [|c o _ IH]; [|by apply exec_wf]. intros t g. simpl. by rewrite lookup_empty.
Qed.

(** * Properties *)

(** C30. The state invariant. In every state any sequence of successful or
    refused writes can lead to, each tenant with a graph has a valid tenant ID,
    and in its graph node IDs are non-empty and unique across labels, non-empty
    edge IDs are unique, every edge's endpoints are stored nodes, every label
    has one kind so no label names both nodes and edges, every node has its
    start time, and edge sequence numbers increase. *)
Theorem reachable_invariant (c : memClient) (t : string) (g : memGraph) :
  reachable c -> graphs c !! t = Some g ->
  CheckTenant t = Ok tt /\ graph_wf g /\
  (forall n e, n ∈ g_nodes g -> e ∈ g_edges g -> mn_label n <> me_label e).
Proof.
  intros Hc Hg. destruct (reachable_wf c Hc t g Hg) as [Ht Hwf]. split; [done|]. split; [done|].
  intros n e Hn He Heq. pose proof (gw_node_labels _ Hwf) as H1. pose proof (gw_edge_labels _ Hwf) as H2.
  rewrite Forall_forall in H1. rewrite Forall_forall in H2. specialize (H1 n Hn). specialize (H2 e He). simpl in *. congruence.
Qed.

(** Tenants are isolated: a write for one tenant, whatever it is and however
    it ends, leaves every other tenant's graph exactly as it was, and a tenant
    ID that fails validation leaves all of them as they were. *)
Theorem writes_isolate_tenants (c : memClient) (o : op) (t : string) :
  t <> op_tenant o \/ CheckTenant t <> Ok tt -> graphs (exec c o) !! t = graphs c !! t.
Proof.
  intros Ht.
  assert (forall A (f : memGraph -> result graph_error A * memGraph),
    graphs (on_graph c (op_tenant o) f).2 !! t = graphs c !! t) as Hon.
  { intros A f. unfold on_graph. destruct (graph c (op_tenant o)) as [g|] eqn:E; [|done].
    destruct (f g) as [r g']. simpl. apply graph_ok in E as [Hok _].
    rewrite lookup_insert_ne; [done|]. intros <-. by destruct Ht. }
  destruct o; simpl in *.
  - unfold CreateGraph. destruct (CheckTenant tenant) as [[]|] eqn:E; [|done].
    destruct (graphs c !! tenant); [done|]. simpl. rewrite lookup_insert_ne; [done|].
    intros <-. by destruct Ht.
  - unfold CreateNode. destruct (CheckNode node); [apply Hon|done].
  - unfold UpsertNode. destruct (CheckNode node); [apply Hon|done].
  - unfold CreateEdge. destruct (CheckEdge _ _ _); [apply Hon|done].
  - unfold CreateRequiresEdge. destruct (CheckRequiresEdge r); [apply Hon|done].
  - unfold BulkCreateEdges. destruct edges; [by destruct (CheckTenant tenant)|].
    destruct (bulk_check _ _); [apply Hon|done].
  - unfold SupersedeFact. destruct (CheckSupersedeRequest req); [apply Hon|done].
Qed.

(** ** Reading back what was written *)

Lemma FormatTime_nonempty t : FormatTime t <> "".
Proof.
  unfold FormatTime, pad_year. repeat case_match; by intros ?%(f_equal String.length).
Qed.

Lemma timeProp_format m k t :
  representable_time t -> m !! k = Some (VString (FormatTime t)) -> timeProp m k = t.
Proof. intros Ht Hm. unfold timeProp, stringProp. by rewrite Hm, ParseTime_FormatTime. Qed.

Lemma timePtrProp_put m k t :
  (forall u, t = Some u -> representable_time u) ->
  m !! k = (match t with Some u => Some (VString (FormatTime u)) | None => None end) ->
  timePtrProp m k = t.
Proof.
  intros Ht Hm. unfold timePtrProp, stringProp. rewrite Hm. destruct t as [u|].
  - rewrite bool_decide_eq_false_2 by apply FormatTime_nonempty. apply ParseTime_FormatTime. by apply Ht.
  - done.
Qed.

Lemma stringProp_field m k s :
  m !! k = (if bool_decide (s = "") then None else Some (VString s)) -> stringProp m k = s.
Proof. intros Hm. unfold stringProp. rewrite Hm. by case_bool_decide. Qed.

Definition times_representable (from : Time) (to : option Time) : Prop :=
  representable_time from /\ forall u, to = Some u -> representable_time u.

(** Decoding a stored node gives the fields it was written with. *)
Lemma decodeNode_nodeProps n :
  node_valid n -> times_representable (n_ValidFrom n) (n_ValidTo n) ->
  decodeNode (mkMemNode (n_Label n) (nodeProps n)) =
  mkNode (n_ID n) (n_Label n) (nodeProps n) (n_ValidFrom n) (n_ValidTo n) (CreatedBy n) (CreationMethod n).
Proof.
  intros Hn [Hf Ht]. unfold decodeNode. simpl. f_equal.
  - unfold stringProp. by rewrite nodeProps_id.
  - apply timeProp_format; [done|]. by apply nodeProps_from.
  - apply timePtrProp_put; [done|]. rewrite nodeProps_lookup by (done || reserved).
    lookup_props. by destruct (n_ValidTo n).
  - apply stringProp_field. rewrite nodeProps_lookup by (done || reserved). lookup_props. by case_bool_decide.
  - apply stringProp_field. rewrite nodeProps_lookup by (done || reserved). lookup_props. by case_bool_decide.
Qed.

Lemma on_graph_some {A} c t g (f : memGraph -> result graph_error A * memGraph) :
  CheckTenant t = Ok tt -> graphs c !! t = Some g ->
  on_graph c t f = ((f g).1, put_graph c t (f g).2).
Proof.
  intros Ht Hg. unfold on_graph. rewrite (proj2 (graph_ok c t g)) by done. by destruct (f g).
Qed.

Lemma read_graph_put {A} c t g (f : memGraph -> result graph_error A) :
  CheckTenant t = Ok tt -> read_graph (put_graph c t g) t f = f g.
Proof.
  intros Ht. unfold read_graph, graph, put_graph. rewrite Ht. simpl. by rewrite lookup_insert_eq.
Qed.

Lemma read_graph_some {A} c t g (f : memGraph -> result graph_error A) :
  CheckTenant t = Ok tt -> graphs c !! t = Some g -> read_graph c t f = f g.
Proof. intros Ht Hg. unfold read_graph. by rewrite (proj2 (graph_ok c t g)). Qed.

Lemma nodeByID_eq g g' id : g_nodes g' = g_nodes g -> nodeByID g' id = nodeByID g id.
Proof. intros E. unfold nodeByID. by rewrite E. Qed.

Lemma node_at_eq g g' i : g_nodes g' = g_nodes g -> node_at g' i = node_at g i.
Proof. intros E. unfold node_at. by rewrite E. Qed.

(** The node an ID stands for, as [GetNode] sees it. *)
Definition find_node (g : memGraph) (id : string) : option memNode := node_at g <$> nodeByID g id.

Lemma GetNode_find c t g id :
  CheckTenant t = Ok tt -> graphs c !! t = Some g -> id <> "" ->
  GetNode c t id = match find_node g id with
                   | Some n => Ok (decodeNode n) | None => Err (ErrNodeNotFound id) end.
Proof.
  intros Ht Hg Hid. unfold GetNode, find_node. rewrite bool_decide_eq_false_2 by done.
  rewrite (read_graph_some c t g) by done. by destruct (nodeByID g id).
Qed.

Lemma find_node_lookup g i n :
  graph_wf g -> g_nodes g !! i = Some n -> find_node g (node_id n) = Some n.
Proof.
  intros Hwf Hi. unfold find_node. rewrite (nodeByID_unique g i n) by done. simpl.
  unfold node_at. by rewrite Hi.
Qed.

Lemma find_node_Some g id n :
  find_node g id = Some n -> node_id n = id /\ exists i, g_nodes g !! i = Some n.
Proof.
  unfold find_node. intros (i & Hi & ->)%fmap_Some. apply nodeByID_Some in Hi as (m & Hm & Hid).
  unfold node_at. rewrite Hm. simpl. eauto.
Qed.

(** Appending a node changes what its own ID stands for and nothing else. *)
Lemma find_node_append g n id :
  graph_wf (set_nodes g (g_nodes g ++ [n])) -> graph_wf g -> node_id n <> id ->
  find_node (set_nodes g (g_nodes g ++ [n])) id = find_node g id.
Proof.
  intros Hwf' Hwf Hne. destruct (find_node g id) as [m|] eqn:E.
  - apply find_node_Some in E as (<- & i & Hi). apply (find_node_lookup _ i m Hwf').
    simpl. by apply lookup_app_l_Some.
  - destruct (find_node (set_nodes _ _) id) as [m|] eqn:E'; [|done].
    apply find_node_Some in E' as (<- & i & Hi). simpl in Hi.
    apply lookup_app_Some in Hi as [Hi|[_ Hi%list_lookup_singleton_Some]].
    + by rewrite (find_node_lookup g i m) in E.
    + by destruct Hi as [_ <-].
Qed.

(** [CreateNode] and [GetNode]. In a reachable state, creating a valid
    node either succeeds, and then [GetNode] on its ID returns the node with
    every field as written (times of the years 0 to 9999, properties in their
    stored form) while every other ID reads as before; or it fails with a label
    conflict, an ID conflict or ErrNodeExists, and every node and edge is as
    before. *)
Theorem CreateNode_GetNode (c : memClient) (t : string) (g : memGraph) (n : node_in) :
  reachable c -> graphs c !! t = Some g -> node_valid n ->
  times_representable (n_ValidFrom n) (n_ValidTo n) ->
  match CreateNode c t n with
  | (Ok _, c') =>
      GetNode c' t (n_ID n) = Ok (mkNode (n_ID n) (n_Label n) (nodeProps n) (n_ValidFrom n)
        (n_ValidTo n) (CreatedBy n) (CreationMethod n)) /\
      GetNode c t (n_ID n) = Err (ErrNodeNotFound (n_ID n)) /\
      forall id, id <> n_ID n -> GetNode c' t id = GetNode c t id
  | (Err e, c') =>
      (exists g', graphs c' !! t = Some g' /\ same_store g g') /\
      match e with
      | LabelKindConflictError l k stored => l = n_Label n /\ k = "node" /\ labelKinds g !! l = Some stored /\ stored <> k
      | NodeIDConflictError id l stored => id = n_ID n /\ l = n_Label n /\ stored <> l /\
          exists old, find_node g id = Some old /\ mn_label old = stored
      | ErrNodeExists l id => id = n_ID n /\ l = n_Label n /\
          exists old, find_node g id = Some old /\ mn_label old = l
      | _ => False
      end
  end.
Proof.
  intros Hc Hg Hn Htm. destruct (reachable_wf c Hc t g Hg) as [Ht Hwf].
  unfold CreateNode. rewrite (proj2 (CheckNode_ok n)), (on_graph_some c t g) by done.
  pose proof (create_node_wf n g Hn Hwf) as Hwf'. unfold create_node in *.
  destruct (useLabel_spec g (n_Label n) "node") as [Hss Hr].
  destruct (useLabel g (n_Label n) "node") as [[[]|e] g1] eqn:E; simpl in *.
  2: { destruct Hr as (stored & Hs & Hne & ->). split; [|done]. exists g1.
       by rewrite lookup_insert_eq. }
  pose proof (same_store_wf _ _ Hss Hwf) as Hwf1.
  assert (forall id, find_node g1 id = find_node g id) as Hfind.
  { intros id. unfold find_node, node_at. rewrite (nodeByID_eq g g1) by apply Hss. by rewrite (ss_nodes _ _ Hss). }
  assert (node_id (mkMemNode (n_Label n) (nodeProps n)) = n_ID n) as Eid.
  { unfold node_id, stringProp. simpl. by rewrite nodeProps_id. }
  destruct (existing_node g1 (n_ID n)) as [(Hid & _ & Hnone)|(i & m & Hid & Hi & Em & _ & Hm)].
  - rewrite Hnone in *. simpl in *.
    set (g2 := set_nodes g1 _) in *. assert (graphs (put_graph c t g2) !! t = Some g2) as Hg2
      by (unfold put_graph; simpl; by rewrite lookup_insert_eq).
    rewrite (GetNode_find _ t g2), (GetNode_find _ t g) by (done || apply Hn). split; [|split].
    + rewrite <- Eid, (find_node_lookup g2 (length (g_nodes g1))) by (done || by apply list_lookup_middle).
      by rewrite decodeNode_nodeProps, Eid.
    + rewrite <- Hfind. unfold find_node. by rewrite Hid.
    + intros id Hne. unfold GetNode. case_bool_decide; [done|].
      rewrite (read_graph_some _ t g2), (read_graph_some _ t g) by done.
      assert (find_node g2 id = find_node g id) as Ef.
      { rewrite <- Hfind. apply find_node_append; [done..|congruence]. }
      unfold find_node in Ef. destruct (nodeByID g2 id), (nodeByID g id); simpl in Ef; congruence.
  - rewrite Hm in *. assert (find_node g (n_ID n) = Some m) as Hf.
    { rewrite <- Hfind, <- Em. by apply (find_node_lookup g1 i). }
    case_bool_decide; simpl.
    + split; [exists g1; by rewrite lookup_insert_eq|]. eauto 10.
    + split; [exists g1; by rewrite lookup_insert_eq|]. split; [done|]. split; [done|].
      exists m. split; [done|]. done.
Qed.

(** The properties an upsert leaves on a stored node, key by key. *)
Definition upserted (old : props) (n : node_in) (k : string) : option value :=
  if bool_decide (k = "id") then Some (VString (n_ID n))
  else if bool_decide (k = "valid_from") then old !! "valid_from"
  else if bool_decide (k = "valid_to") then
    match n_ValidTo n with Some u => Some (VString (FormatTime u)) | None => old !! "valid_to" end
  else if bool_decide (k = "superseded_by") then
    match n_ValidTo n with Some _ => None | None => old !! "superseded_by" end
  else if bool_decide (k = "created_by") then
    (if bool_decide (CreatedBy n = "") then None else Some (VString (CreatedBy n)))
  else if bool_decide (k = "creation_method") then
    (if bool_decide (CreationMethod n = "") then None else Some (VString (CreationMethod n)))
  else normalizeValue <$> n_Properties n !! k.

Lemma upsert_props_lookup old n k :
  node_valid n -> is_Some (old !! "valid_from") -> upsert_props old n !! k = upserted old n k.
Proof.
  intros Hn [v Hv]. unfold upserted.
  assert (forall k', k' ∈ dom reservedNodeKeys -> n_Properties n !! k' = None) as Hres
    by (intros k'; by apply reserved_node_key).
  case_bool_decide as E1; [subst; by apply upsert_props_id|].
  case_bool_decide as E2; [subst; rewrite Hv; by apply upsert_props_from|].
  unfold upsert_props, nodeProps.
  case_bool_decide as E3; [subst|].
  { destruct (n_ValidTo n); rewrite !keep_key_lookup; lookup_props;
      rewrite put_all_lookup, Hres by reserved; lookup_props; [done|]. by destruct (old !! "valid_to"). }
  case_bool_decide as E4; [subst|].
  { destruct (n_ValidTo n); rewrite !keep_key_lookup; lookup_props;
      rewrite put_all_lookup, Hres by reserved; lookup_props; [done|].
    by destruct (old !! "superseded_by"). }
  assert (put_all (n_Properties n) (put_string "creation_method" (CreationMethod n)
    (put_string "created_by" (CreatedBy n) (put_time "valid_to" (n_ValidTo n)
      (<["valid_from":=VString (FormatTime (n_ValidFrom n))]> (<["id":=VString (n_ID n)]> ∅))))) !! k =
    match n_Properties n !! k with Some v => Some (normalizeValue v) | None =>
      (put_string "creation_method" (CreationMethod n) (put_string "created_by" (CreatedBy n) ∅)) !! k end)
    as Hbase.
  { rewrite put_all_lookup. destruct (n_Properties n !! k); [done|].
    rewrite !put_string_lookup, put_time_lookup. lookup_props. by rewrite (bool_decide_eq_false_2 ("valid_to" = k)) by done. }
  destruct (n_ValidTo n); rewrite !keep_key_lookup, !bool_decide_eq_false_2 by done;
    rewrite Hbase; clear Hbase.
  all: case_bool_decide as E5; [subst; rewrite Hres by reserved; lookup_props; by case_bool_decide|].
  all: case_bool_decide as E6; [subst; rewrite Hres by reserved; lookup_props; by case_bool_decide|].
  all: lookup_props; by destruct (n_Properties n !! k).
Qed.

(** The [UpsertNode] contract. On a reachable state a valid node is
    created exactly when no node has its ID, and then stored as [CreateNode]
    would; a node stored under the same label is replaced in place: its ID and
    start time stay, created_by, creation_method and the caller's properties
    become the new ones and nothing else survives, the supersede state is kept
    unless the call sets an end time; no other node and no edge changes. A
    label or ID conflict changes no node and no edge. *)
Theorem UpsertNode_contract (c : memClient) (t : string) (g : memGraph) (n : node_in) :
  reachable c -> graphs c !! t = Some g -> node_valid n ->
  exists g', graphs (UpsertNode c t n).2 !! t = Some g' /\ g_edges g' = g_edges g /\
    match (UpsertNode c t n).1 with
    | Ok true => nodeByID g (n_ID n) = None /\
        g_nodes g' = g_nodes g ++ [mkMemNode (n_Label n) (nodeProps n)]
    | Ok false => exists i old m, nodeByID g (n_ID n) = Some i /\ g_nodes g !! i = Some old /\
        mn_label old = n_Label n /\ g_nodes g' = <[i := mkMemNode (n_Label n) m]> (g_nodes g) /\
        forall k, m !! k = upserted (mn_props old) n k
    | Err e => g_nodes g' = g_nodes g /\
        match e with
        | LabelKindConflictError l k stored =>
            l = n_Label n /\ k = "node" /\ labelKinds g !! l = Some stored /\ stored <> k
        | NodeIDConflictError id l stored => id = n_ID n /\ l = n_Label n /\ stored <> l
        | _ => False
        end
    end.
Proof.
  intros Hc Hg Hn. destruct (reachable_wf c Hc t g Hg) as [Ht Hwf].
  unfold UpsertNode. rewrite (proj2 (CheckNode_ok n)), (on_graph_some c t g) by done. simpl.
  eexists. split; [by rewrite lookup_insert_eq|]. unfold upsert_node.
  destruct (useLabel_spec g (n_Label n) "node") as [Hss Hr].
  destruct (useLabel g (n_Label n) "node") as [[[]|e] g1] eqn:E; simpl in *.
  2: { destruct Hr as (stored & Hs & Hne & ->). destruct Hss. split; [done|]. done. }
  rewrite <- (nodeByID_eq g g1) by apply Hss. rewrite <- (ss_nodes _ _ Hss), <- (ss_edges _ _ Hss).
  destruct (existing_node g1 (n_ID n)) as [(Hid & -> & _)|(i & m & Hid & Hi & Em & -> & _)]; [done|].
  case_bool_decide as El; simpl; [done|]. split; [done|].
  assert (mn_label m = n_Label n) as El' by (destruct (decide (mn_label m = n_Label n)); tauto).
  exists i, m, (upsert_props (mn_props m) n). rewrite El'. split_and!; [done..|].
  intros k. apply upsert_props_lookup; [done|].
  pose proof (gw_from _ Hwf) as Hf. rewrite Forall_lookup in Hf. apply (Hf i).
  by rewrite <- (ss_nodes _ _ Hss).
Qed.

(** ** Bulk creation *)

(** The edges created one by one, stopping at the first failure: the
    specification of a batch that succeeds. *)
Fixpoint create_edges (i : nat) (g : memGraph) (edges : list BulkEdge) : check * memGraph :=
  match edges with
  | [] => (Ok tt, g)
  | be :: edges' =>
      match write_edge g (be_SourceID be) (be_TargetID be) (e_Label (be_Edge be)) (edgeProps (be_Edge be)) with
      | (Err e, g) => (Err (BulkEdgeError i e), g)
      | (Ok _, g) => create_edges (S i) g edges'
      end
  end.

(** Graphs that differ at most in the labels they have recorded. *)
Definition with_kinds (g : memGraph) (m : gmap string string) : memGraph :=
  mkMemGraph (g_nodes g) (g_edges g) (lastSeq g) m.

Lemma useLabel_kinds g m label kind :
  let r := useLabel g label kind in
  useLabel (with_kinds g m) label kind =
    (let r' := useLabel (with_kinds empty_graph m) label kind in
     (r'.1, with_kinds g (labelKinds r'.2))) /\
  r.2 = with_kinds g (labelKinds r.2).
Proof. unfold useLabel. simpl. split; repeat case_match; try done; by destruct g. Qed.

Lemma with_kinds_id g : with_kinds g (labelKinds g) = g.
Proof. by destruct g. Qed.

Lemma addEdge_kinds g m s t label ps :
  addEdge (with_kinds g m) s t label ps =
  ((addEdge g s t label ps).1, with_kinds (addEdge g s t label ps).2 m).
Proof.
  unfold addEdge, resolveNode. change (nodeByID (with_kinds g m)) with (nodeByID g).
  destruct (nodeByID g s); [|done]. destruct (nodeByID g t); [|done].
  change (edgeByID (with_kinds g m)) with (edgeByID g). by case_bool_decide.
Qed.

(** Recording labels only looks at the labels recorded. *)
Lemma bulk_labels_kinds g h edges :
  labelKinds g = labelKinds h ->
  (bulk_labels g edges).1 = (bulk_labels h edges).1 /\
  labelKinds (bulk_labels g edges).2 = labelKinds (bulk_labels h edges).2.
Proof.
  revert g h. induction edges as [|be edges IH]; intros g h E; simpl; [done|].
  unfold useLabel. rewrite E. destruct (labelKinds h !! _) as [stored|].
  - case_bool_decide; [done|]. by apply IH.
  - apply IH. done.
Qed.

Lemma write_edge_ok g s t label ps :
  (useLabel g label "edge").1 = Ok tt ->
  write_edge g s t label ps = addEdge (useLabel g label "edge").2 s t label ps.
Proof. unfold write_edge. destruct (useLabel _ _ _) as [[[]|] g']; done. Qed.

(** With all labels usable, the batch and the sequence agree step by step. *)
Lemma create_edges_bulk_add i g m edges :
  (bulk_labels g edges).1 = Ok tt -> labelKinds (bulk_labels g edges).2 = m ->
  (create_edges i g edges).1 = (bulk_add i (with_kinds g m) edges).1 /\
  ((create_edges i g edges).1 = Ok tt ->
   (create_edges i g edges).2 = (bulk_add i (with_kinds g m) edges).2).
Proof.
  revert i g. induction edges as [|be edges IH]; intros i g Hok Hm; simpl in *.
  { subst m. by rewrite with_kinds_id. }
  destruct (useLabel g (e_Label (be_Edge be)) "edge") as [[[]|e] g1] eqn:EL; [|done].
  destruct (useLabel_kinds g ∅ (e_Label (be_Edge be)) "edge") as [_ Eg1]. rewrite EL in Eg1. simpl in Eg1.
  rewrite write_edge_ok by by rewrite EL. rewrite EL. simpl.
  rewrite Eg1, !addEdge_kinds.
  destruct (addEdge g _ _ _ _) as [[[]|e] g2] eqn:EA; simpl; [|done].
  destruct (bulk_labels_kinds (with_kinds g2 (labelKinds g1)) g1 edges eq_refl) as [E1 E2].
  apply (IH (S i) (with_kinds g2 (labelKinds g1))); [by rewrite E1|by rewrite E2].
Qed.

Lemma create_edges_labels i g edges :
  (create_edges i g edges).1 = Ok tt -> (bulk_labels g edges).1 = Ok tt.
Proof.
  revert i g. induction edges as [|be edges IH]; intros i g Hok; simpl in *; [done|].
  unfold write_edge in Hok.
  destruct (useLabel g (e_Label (be_Edge be)) "edge") as [[[]|e] g1] eqn:EL; [|done].
  destruct (addEdge g1 _ _ _ _) as [[[]|e] g2] eqn:EA; [|done].
  apply IH in Hok. apply addEdge_spec in EA as (e & -> & _).
  destruct (bulk_labels_kinds (mkMemGraph (g_nodes g1) (g_edges g1 ++ [e]) (lastSeq g1 + 1) (labelKinds g1))
    g1 edges eq_refl) as [E1 _]. congruence.
Qed.

(** [BulkCreateEdges] is all-or-nothing. For a batch of valid edges on a
    reachable state it succeeds exactly when creating the edges one after the
    other would, and then leaves the same graph and returns their IDs in order;
    otherwise no node, no edge and no sequence number changes, and an error
    that names an edge is the one [CreateEdge] would have returned for it after
    the edges before it. *)
Theorem BulkCreateEdges_atomic (c : memClient) (t : string) (g : memGraph) (edges : list BulkEdge) :
  reachable c -> graphs c !! t = Some g -> edges <> [] -> bulk_check 0 edges = Ok tt ->
  exists g', graphs (BulkCreateEdges c t edges).2 !! t = Some g' /\
    match (BulkCreateEdges c t edges).1 with
    | Ok ids => create_edges 0 g edges = (Ok tt, g') /\ ids = e_ID ∘ be_Edge <$> edges
    | Err e => same_store g g' /\ (create_edges 0 g edges).1 <> Ok tt /\
        ((create_edges 0 g edges).1 = Err e \/
         exists l stored, e = LabelKindConflictError l "edge" stored)
    end.
Proof.
  intros Hc Hg Hne Hcheck. destruct (reachable_wf c Hc t g Hg) as [Ht Hwf].
  assert (BulkCreateEdges c t edges = on_graph c t (bulk_edges edges)) as ->
    by (unfold BulkCreateEdges; rewrite Hcheck; by destruct edges).
  rewrite (on_graph_some c t g) by done. simpl.
  eexists. split; [by rewrite lookup_insert_eq|]. unfold bulk_edges.
  destruct (bulk_labels_spec g edges) as [Hss _].
  pose proof (create_edges_labels 0 g edges) as Hseq.
  pose proof (create_edges_bulk_add 0 g (labelKinds (bulk_labels g edges).2) edges) as Hadd.
  assert ((bulk_labels g edges).2 = with_kinds g (labelKinds (bulk_labels g edges).2)) as Eg1.
  { destruct Hss as [Hn He Hs _]. unfold with_kinds. rewrite <- Hn, <- He, <- Hs.
    by destruct (bulk_labels g edges).2. }
  destruct (bulk_labels g edges) as [[[]|e] g1] eqn:EL; simpl in *.
  - specialize (Hadd eq_refl eq_refl) as [H1 H2]. rewrite <- Eg1 in H1, H2.
    pose proof (rollback_bulk_add 0 g1 edges) as Hroll.
    destruct (bulk_add 0 g1 edges) as [[[]|e] g2] eqn:EA; simpl in *.
    + split; [|done]. destruct (create_edges 0 g edges); simpl in *. subst. by rewrite H2.
    + rewrite Hroll, H1. split; [done|]. split; [done|by left].
  - split; [done|]. split; [naive_solver|]. right.
    clear - EL. revert g EL. induction edges as [|be edges IH]; intros g EL; simpl in EL; [done|].
    destruct (useLabel_spec g (e_Label (be_Edge be)) "edge") as [_ Hr].
    destruct (useLabel g (e_Label (be_Edge be)) "edge") as [[[]|e'] g'] eqn:E; simpl in *; [eauto|].
    simplify_eq. destruct Hr as (stored & _ & _ & ->). eauto.
Qed.

(** ** Traversal *)

Section traversal.
Context (g : memGraph) (q : TraversalQuery).

(** One hop: an unused edge with an allowed label, followed in the query's
    direction from the last node. *)
Inductive hop : track -> track -> Prop :=
| hop_edge nodes edges i next :
    i < length (g_edges g) ->
    (EdgeLabels q = [] \/ me_label (edge_at g i) ∈ EdgeLabels q) ->
    i ∉ edges ->
    neighbor (edge_at g i) (default 0 (last nodes)) (Direction q) = Some next ->
    hop (nodes, edges) (nodes ++ [next], edges ++ [i]).

Definition within_depth (t : track) : Prop :=
  (MaxDepth q <= 0 \/ Z.of_nat (length t.2) <= MaxDepth q)%Z.

Definition edges_ok (edges : list nat) : Prop :=
  NoDup edges /\ Forall (fun i => i < length (g_edges g)) edges.

Lemma edges_ok_length edges : edges_ok edges -> length edges <= length (g_edges g).
Proof.
  intros [Hnd Hf]. trans (length (seq 0 (length (g_edges g)))); [|by rewrite length_seq].
  apply submseteq_length, NoDup_submseteq; [done|]. intros i Hi. rewrite Forall_forall in Hf.
  apply elem_of_seq. specialize (Hf i Hi). lia.
Qed.

Lemma hop_ok t t' : hop t t' -> edges_ok t.2 -> edges_ok t'.2.
Proof.
  intros [nodes edges i next Hi _ Hn _] [Hnd Hf]. simpl in *. split.
  - apply NoDup_app. split; [done|]. split; [|apply NoDup_singleton].
    intros x Hx ->%list_elem_of_singleton. done.
  - apply Forall_app. split; [done|]. by constructor.
Qed.

Lemma hop_extends t t' : hop t t' -> exists i next, t' = (t.1 ++ [next], t.2 ++ [i]).
Proof. intros []. simpl. eauto. Qed.

Lemma hops_extend t t' : tc hop t t' -> exists more, more <> [] /\ t'.2 = t.2 ++ more.
Proof.
  induction 1 as [t t' H|t t1 t' H _ (more & Hne & IH)]; apply hop_extends in H as (i & next & ->).
  - by exists [i].
  - exists (i :: more). split; [done|]. rewrite IH. simpl. by rewrite <- app_assoc.
Qed.

(** The candidates [walk] tries from a path. *)
Lemma walk_step fuel nodes edges t' :
  t' ∈ walk (S fuel) g q nodes edges <->
  ~ (0 < MaxDepth q /\ MaxDepth q <= Z.of_nat (length edges))%Z /\
  exists t1, hop (nodes, edges) t1 /\ (t' = t1 \/ t' ∈ walk fuel g q t1.1 t1.2).
Proof.
  cbn [walk]. case_bool_decide as Hd.
  { split; [by intros ?%not_elem_of_nil|tauto]. }
  rewrite list_elem_of_bind. split.
  - intros (i & Hin & Hi%elem_of_seq). split; [done|].
    case_bool_decide as Hl; [by apply not_elem_of_nil in Hin|].
    case_bool_decide as Hu; [by apply not_elem_of_nil in Hin|].
    destruct (neighbor _ _ _) as [next|] eqn:En; [|by apply not_elem_of_nil in Hin].
    exists (nodes ++ [next], edges ++ [i]). split; [|by apply elem_of_cons in Hin].
    constructor; [lia| |done|done].
    destruct (decide (EdgeLabels q = [])); [by left|right]. apply dec_stable. tauto.
  - intros (_ & t1 & Hhop & Ht'). inversion Hhop as [n e i next Hi Hl Hu En]; subst. exists i.
    split; [|apply elem_of_seq; lia].
    rewrite bool_decide_eq_false_2 by (destruct Hl as [Hl|Hl]; [rewrite Hl|]; tauto).
    rewrite bool_decide_eq_false_2 by done. rewrite En. by apply elem_of_cons.
Qed.

Lemma track_walk_spec fuel nodes edges t' :
  edges_ok edges -> length (g_edges g) < fuel + length edges ->
  t' ∈ walk fuel g q nodes edges <-> tc hop (nodes, edges) t' /\ within_depth t'.
Proof.
  revert nodes edges. induction fuel as [|fuel IH]; intros nodes edges Hok Hfuel.
  { pose proof (edges_ok_length edges Hok). lia. }
  rewrite walk_step. unfold within_depth. split.
  - intros (Hd & t1 & Hhop & Ht'). pose proof (hop_ok _ _ Hhop Hok) as Hok1.
    destruct (hop_extends _ _ Hhop) as (i & next & ->). simpl in *.
    destruct Ht' as [->|Ht']; [split; [by apply tc_once|simpl; rewrite length_app; simpl; lia]|].
    apply IH in Ht' as [Htc Hdepth]; [|done|rewrite length_app; simpl; lia].
    split; [by eapply tc_l|done].
  - intros [Htc Hdepth]. pose proof (hops_extend _ _ Htc) as (more & Hne & Hmore). simpl in Hmore.
    assert (0 < length more) by (destruct more; simpl; [done|lia]).
    rewrite Hmore, length_app in Hdepth. split; [lia|].
    inversion Htc as [? ? Hhop|? t1 ? Hhop Htc']; subst; [eauto|].
    exists t1. split; [done|]. right. pose proof (hop_ok _ _ Hhop Hok) as Hok1.
    destruct (hop_extends _ _ Hhop) as (i & next & ->). simpl in *.
    apply IH; [done|rewrite length_app; simpl; lia|]. split; [done|].
    unfold within_depth. rewrite Hmore, length_app. lia.
Qed.

Lemma walk_prefix fuel nodes edges t' :
  t' ∈ walk fuel g q nodes edges -> exists more, more <> [] /\ t'.2 = edges ++ more.
Proof.
  revert nodes edges. induction fuel as [|fuel IH]; intros nodes edges; [by intros ?%not_elem_of_nil|].
  intros (_ & t1 & Hhop & Ht')%walk_step. destruct (hop_extends _ _ Hhop) as (i & next & ->). simpl in *.
  destruct Ht' as [->|(more & _ & ->)%IH]; simpl; [by exists [i]|].
  exists (i :: more). by rewrite <- app_assoc.
Qed.

Lemma NoDup_bind_keyed {A B} (f : A -> list B) (l : list A) :
  NoDup l -> (forall a, a ∈ l -> NoDup (f a)) ->
  (forall a b x, x ∈ f a -> x ∈ f b -> a = b) -> NoDup (l ≫= f).
Proof.
  induction 1 as [|a l Ha _ IH]; intros Hf Hk; [constructor|]. rewrite bind_cons. apply NoDup_app.
  split; [apply Hf; by left|]. split; [|apply IH; [|done]; intros; apply Hf; by right].
  intros x Hx (b & Hb & Hbl)%list_elem_of_bind. by rewrite (Hk a b x Hx Hb) in Ha.
Qed.

Lemma walk_NoDup fuel nodes edges : NoDup (walk fuel g q nodes edges).
Proof.
  revert nodes edges. induction fuel as [|fuel IH]; intros nodes edges; cbn [walk]; [constructor|].
  case_bool_decide; [constructor|].
  assert (forall i t', t' ∈ (if bool_decide (EdgeLabels q <> [] /\ me_label (edge_at g i) ∉ EdgeLabels q) then []
      else if bool_decide (i ∈ edges) then []
      else match neighbor (edge_at g i) (default 0 (last nodes)) (Direction q) with
      | None => []
      | Some next => (nodes ++ [next], edges ++ [i]) :: walk fuel g q (nodes ++ [next]) (edges ++ [i])
      end) -> t'.2 !! length edges = Some i) as Hkey.
  { intros i t'. repeat case_match; try by intros ?%not_elem_of_nil.
    intros [->|(more & _ & ->)%walk_prefix]%elem_of_cons; [|rewrite <- app_assoc]; by apply list_lookup_middle. }
  apply NoDup_bind_keyed; [apply NoDup_seq| |].
  - intros i _. repeat case_match; try constructor; [|apply IH].
    intros (more & Hne & E)%walk_prefix. simpl in E.
    rewrite <- (app_nil_r (edges ++ [i])) in E at 1. by apply (inj (app _)) in E as <-.
  - intros i j x Hi%Hkey Hj%Hkey. congruence.
Qed.
End traversal.

(** C31. [Traverse] returns exactly the paths the contract describes: for a
    start node that exists, the result without a point in time lists, each
    once, every path of one or more hops that follows allowed labels in the
    query's direction, never uses an edge twice and is no longer than MaxDepth
    (any length when it is not positive); with AsOf, those of them that
    [ValidAt] accepts, in the same order. A start node that does not exist
    gives no paths. The search always ends, also on cyclic graphs with
    unlimited depth. *)
Theorem Traverse_exact (c : memClient) (t : string) (g : memGraph) (q : TraversalQuery) :
  reachable c -> graphs c !! t = Some g ->
  Forall valid_label (EdgeLabels q) ->
  exists tracks : list track,
    Traverse c t q = Ok (match AsOf q with
      | None => decodePath g <$> tracks
      | Some u => List.filter (fun p => ValidAt p u) (decodePath g <$> tracks) end) /\
    NoDup tracks /\
    forall tr, tr ∈ tracks <-> exists start, nodeByID g (StartNode q) = Some start /\
      tc (hop g q) ([start], []) tr /\ within_depth q tr.
Proof.
  intros Hc Hg Hl. destruct (reachable_wf c Hc t g Hg) as [Ht _].
  unfold Traverse. assert (first_error (CheckLabel "edge label") (EdgeLabels q) = Ok tt) as ->.
  { apply first_error_ok. eapply Forall_impl; [exact Hl|]. intros l. apply CheckLabel_ok. }
  rewrite (read_graph_some c t g) by done. unfold traverse.
  destruct (nodeByID g (StartNode q)) as [start|].
  - exists (walk (S (length (g_edges g))) g q [start] []). split; [by destruct (AsOf q)|].
    split; [apply walk_NoDup|]. intros tr. rewrite track_walk_spec by (split; constructor) || (simpl; lia).
    naive_solver.
  - exists []. split; [by destruct (AsOf q)|]. split; [constructor|]. intros tr.
    split; [by intros ?%not_elem_of_nil|naive_solver].
Qed.

(** ** Time *)

Lemma used_unique es i j a b :
  NoDup (used_ids es) -> es !! i = Some a -> es !! j = Some b -> edge_id a = edge_id b ->
  edge_id a <> "" -> i = j.
Proof.
  unfold used_ids. revert i j. induction es as [|e es IH]; intros i j Hnd Hi Hj Hab Hne; [done|].
  rewrite fmap_cons in Hnd.
  assert (forall k c, es !! k = Some c -> edge_id c = edge_id e -> edge_id e <> "" -> False) as Hout.
  { intros k c Hk Hc Hne'. rewrite filter_cons_True in Hnd by done.
    apply NoDup_cons in Hnd as [Hnd _]. apply Hnd, list_elem_of_filter. split; [done|].
    rewrite <- Hc. by apply list_elem_of_fmap_2, (list_elem_of_lookup_2 _ k). }
  assert (NoDup (filter (fun s => s <> "") (edge_id <$> es))) as Hnd'.
  { rewrite filter_cons in Hnd. case_decide; [by apply NoDup_cons in Hnd as [_ ?]|done]. }
  destruct i as [|i], j as [|j]; simpl in *; simplify_eq; [done| | |].
  - exfalso. by eapply (Hout j b).
  - exfalso. eapply (Hout i a); [done|done|congruence].
  - f_equal. by apply (IH i j).
Qed.

Lemma elem_of_stdfilter {A} (f : A -> bool) l x : x ∈ List.filter f l <-> x ∈ l /\ f x = true.
Proof. by rewrite !list_elem_of_In, filter_In. Qed.

(** No filter at all. *)
Definition any_relationship : RelationshipQuery := mkRelationshipQuery "" "" "" ∅.

Lemma any_selected g asOf e :
  edge_selected g any_relationship asOf e =
  match asOf with
  | None => bool_decide (me_props e !! "valid_to" = None)
  | Some t => window (timeProp (me_props e) "valid_from") (timePtrProp (me_props e) "valid_to") t
  end.
Proof.
  unfold edge_selected, filter_label, matchesProps. simpl. destruct asOf; [|done].
  unfold ValidAt. simpl. by rewrite andb_true_r.
Qed.

Definition superseded_edge (req : SupersedeRequest) (e : memEdge) : memEdge :=
  if bool_decide (edge_id e = sr_EdgeID req)
  then mkMemEdge (me_label e) (supersede_props req (me_props e)) (me_source e) (me_target e) (me_seq e)
  else e.

Lemma superseded_edge_id req e : edge_id (superseded_edge req e) = edge_id e.
Proof.
  unfold superseded_edge. case_bool_decide; [|done]. unfold edge_id, stringProp. simpl.
  by rewrite supersede_props_lookup.
Qed.

Lemma window_spec from to t :
  window from to t = true <-> (from <= t)%Z /\ match to with Some u => (t < u)%Z | None => True end.
Proof.
  unfold window, After. rewrite negb_true_iff, orb_false_iff. rewrite Z.ltb_ge.
  destruct to as [u|]; [rewrite negb_false_iff, Z.ltb_lt|]; naive_solver.
Qed.

Definition superseded_graph (req : SupersedeRequest) (g : memGraph) : memGraph :=
  mkMemGraph (g_nodes g) (superseded_edge req <$> g_edges g) (lastSeq g) (labelKinds g).

Lemma id_lookup m id : stringProp m "id" = id -> id <> "" -> m !! "id" = Some (VString id).
Proof. unfold stringProp. destruct (m !! "id") as [[s| | |]|]; congruence. Qed.

Lemma superseded_edge_hit req e :
  edge_id e = sr_EdgeID req ->
  superseded_edge req e =
    mkMemEdge (me_label e) (supersede_props req (me_props e)) (me_source e) (me_target e) (me_seq e).
Proof. intros H. unfold superseded_edge. by rewrite bool_decide_eq_true_2. Qed.

Lemma superseded_edge_miss req e :
  sr_EdgeID req <> "" -> me_props e !! "id" <> Some (VString (sr_EdgeID req)) -> superseded_edge req e = e.
Proof.
  intros Hne Hp. unfold superseded_edge. case_bool_decide as E; [|done]. destruct Hp. by apply id_lookup.
Qed.

Lemma supersede_edge c t g id at_ job e :
  CheckTenant t = Ok tt -> graphs c !! t = Some g -> e ∈ g_edges g -> edge_id e = id -> id <> "" ->
  at_ <> 0%Z ->
  let req := mkSupersedeRequest "" id at_ job in
  SupersedeFact c t req = (Ok true, put_graph c t (superseded_graph req g)).
Proof.
  intros Ht Hg He Hid Hne Hz req. unfold SupersedeFact, CheckSupersedeRequest, IsZero.
  rewrite bool_decide_eq_false_2 by (simpl; tauto). rewrite bool_decide_eq_false_2 by (simpl; tauto).
  rewrite (proj2 (Z.eqb_neq (SupersededAt req) 0)), (on_graph_some c t g) by done.
  assert (supersede req g = (Ok true, superseded_graph req g)) as ->; [|done].
  unfold supersede. rewrite bool_decide_eq_false_2 by (simpl; tauto). f_equal. f_equal.
  apply existsb_exists. exists e. rewrite <- list_elem_of_In. split; [done|].
  by apply bool_decide_eq_true_2.
Qed.

(** The relationships of the graph after superseding, by the edges before. *)
Lemma relationships_superseded req g q as_of r :
  r ∈ relationships (superseded_graph req g) q as_of <->
  exists a, a ∈ g_edges g /\ edge_selected (superseded_graph req g) q as_of (superseded_edge req a) = true /\
    r = mkRelationship (decodeNode (node_at g (me_source a))) (decodeEdge (superseded_edge req a))
          (decodeNode (node_at g (me_target a))).
Proof.
  assert (forall a, me_source (superseded_edge req a) = me_source a /\
    me_target (superseded_edge req a) = me_target a) as Hends
    by (intros a; unfold superseded_edge; by case_bool_decide).
  unfold relationships. rewrite list_elem_of_fmap. split.
  - intros (x & -> & ((a & -> & Ha)%list_elem_of_fmap & Hs)%elem_of_stdfilter). exists a.
    destruct (Hends a) as [-> ->]. done.
  - intros (a & Ha & Hs & ->). exists (superseded_edge req a). destruct (Hends a) as [-> ->].
    split; [done|]. apply elem_of_stdfilter. split; [by apply list_elem_of_fmap_2|done].
Qed.

Lemma superseded_edge_unique req g a e :
  graph_wf g -> a ∈ g_edges g -> e ∈ g_edges g -> edge_id e = sr_EdgeID req -> sr_EdgeID req <> "" ->
  me_props (superseded_edge req a) !! "id" = Some (VString (sr_EdgeID req)) -> a = e.
Proof.
  intros Hwf [i Hi]%list_elem_of_lookup [j Hj]%list_elem_of_lookup Hid Hne Hp.
  assert (edge_id a = sr_EdgeID req) as Eid.
  { rewrite <- (superseded_edge_id req). unfold edge_id, stringProp. by rewrite Hp. }
  assert (i = j) as ->; [|congruence].
  eapply (used_unique (g_edges g)); [apply Hwf|done|done|congruence|congruence].
Qed.

(** When the unfiltered queries see a superseded edge. *)
Lemma superseded_edge_selected req g e as_of :
  edge_id e = sr_EdgeID req -> representable_time (SupersededAt req) ->
  edge_selected g any_relationship as_of (superseded_edge req e) = true <->
  exists v, as_of = Some v /\ (timeProp (me_props e) "valid_from" <= v < SupersededAt req)%Z.
Proof.
  intros Hid Hat. rewrite any_selected, superseded_edge_hit by done. simpl.
  assert (supersede_props req (me_props e) !! "valid_to" = Some (VString (FormatTime (SupersededAt req)))) as Eto.
  { unfold supersede_props. by rewrite put_string_lookup, bool_decide_eq_false_2, lookup_insert_eq by done. }
  destruct as_of as [v|]; [|rewrite Eto; naive_solver]. rewrite window_spec.
  assert (timePtrProp (supersede_props req (me_props e)) "valid_to" = Some (SupersededAt req)) as ->
    by (apply timePtrProp_put; [by intros ? [= <-]|done]).
  unfold timeProp, stringProp at 1. rewrite supersede_props_lookup by done. naive_solver.
Qed.

(** Superseding and time travel. In a reachable state, superseding the
    edge stored under an ID at time [at] makes the point-in-time query return
    that edge exactly for the instants from its start time up to, not
    including, [at]; the current query no longer returns it; and what both
    queries return for every other edge is unchanged. *)
Theorem SupersedeFact_as_of (c : memClient) (t id job : string) (g : memGraph) (e : memEdge) (at_ u : Time) :
  reachable c -> graphs c !! t = Some g -> e ∈ g_edges g -> edge_id e = id -> id <> "" ->
  representable_time at_ -> at_ <> 0%Z ->
  let req := mkSupersedeRequest "" id at_ job in
  let c' := (SupersedeFact c t req).2 in
  (SupersedeFact c t req).1 = Ok true /\
  exists then_ before now,
    QueryAsOf c' t any_relationship u = Ok then_ /\
    QueryAsOf c t any_relationship u = Ok before /\
    QueryRelationships c' t any_relationship = Ok now /\
    ((exists r, r ∈ then_ /\ e_Properties (r_Edge r) !! "id" = Some (VString id)) <->
     (timeProp (me_props e) "valid_from" <= u < at_)%Z) /\
    (forall r, r ∈ now -> e_Properties (r_Edge r) !! "id" <> Some (VString id)) /\
    (forall r, e_Properties (r_Edge r) !! "id" <> Some (VString id) -> r ∈ then_ <-> r ∈ before).
Proof.
  intros Hc Hg He Hid Hne Hat Hz req. destruct (reachable_wf c Hc t g Hg) as [Ht Hwf].
  assert (SupersedeFact c t req = (Ok true, put_graph c t (superseded_graph req g))) as ->
    by (by apply (supersede_edge c t g id at_ job e)).
  cbn [fst snd]. cbv zeta. split; [done|].
  exists (relationships (superseded_graph req g) any_relationship (Some u)),
    (relationships g any_relationship (Some u)),
    (relationships (superseded_graph req g) any_relationship None).
  unfold QueryAsOf, QueryRelationships.
  assert (CheckRelationshipQuery any_relationship = Ok tt) as -> by by vm_compute.
  rewrite !read_graph_put, (read_graph_some c t g) by done. do 3 (split; [done|]).
  pose proof (fun a => superseded_edge_unique req g a e Hwf) as Huniq.
  pose proof (fun h => superseded_edge_selected req h e) as Hsel.
  split; [|split].
  - split.
    + intros (r & (a & Ha & Hs & ->)%relationships_superseded & Hr). simpl in Hr.
      rewrite (Huniq a) in Hs by done. apply Hsel in Hs as (v & [= <-] & Hv); done.
    + intros Hu. eexists. split.
      * apply relationships_superseded. exists e. split; [done|]. split; [apply Hsel; eauto|done].
      * simpl. rewrite superseded_edge_hit by done. simpl. rewrite supersede_props_lookup by done.
        by apply id_lookup.
  - intros r (a & Ha & Hs & ->)%relationships_superseded Hr. simpl in Hr.
    rewrite (Huniq a) in Hs by done. apply Hsel in Hs as (v & [=] & _); done.
  - intros r Hr. rewrite relationships_superseded. unfold relationships.
    rewrite list_elem_of_fmap. setoid_rewrite elem_of_stdfilter. split.
    + intros (a & Ha & Hs & ->). simpl in Hr.
      assert (superseded_edge req a = a) as Ea; [|rewrite Ea in *; eauto].
      apply superseded_edge_miss; [done|]. intros Hp. apply Hr. unfold superseded_edge.
      case_bool_decide; [|done]. simpl. by rewrite supersede_props_lookup.
    + intros (a & -> & Ha & Hs). simpl in Hr. exists a.
      by rewrite (superseded_edge_miss req a).
Qed.

(** * Witnesses *)

Definition t0 : Time := 63871419999123456789.
Definition ctl (id : string) : node_in := mkNode id "Control" {[ "title" := AString "x" ]} t0 None "alice" "".
Definition maps (id : string) : edge_in := mkEdge id "MAPS" ∅ t0 None "" "" fone "".
Definition sample_ops : list op :=
  [OpCreateGraph "acme-corp"; OpCreateNode "acme-corp" (ctl "a"); OpCreateNode "acme-corp" (ctl "b");
   OpCreateEdge "acme-corp" "a" "b" (maps "e1"); OpCreateEdge "acme-corp" "b" "a" (maps "e2");
   OpCreateEdge "acme-corp" "a" "missing" (maps "e3")].
Definition sample_client : memClient := foldl exec New sample_ops.
Definition sample_graph : memGraph := default empty_graph (graphs sample_client !! "acme-corp").

Lemma reachable_foldl ops c : reachable c -> reachable (foldl exec c ops).
Proof.
  revert c. induction ops as [|o ops IH]; intros c Hc; simpl; [done|]. by apply IH, reach_exec.
Qed.

Lemma sample_reachable : reachable sample_client.
Proof. apply reachable_foldl, reach_new. Qed.

Lemma sample_lookup : graphs sample_client !! "acme-corp" = Some sample_graph.
Proof. vm_compute. reflexivity. Qed.

Lemma sample_valid id : id <> "" -> node_valid (ctl id).
Proof.
  intros Hid. apply CheckNode_ok. unfold CheckNode. simpl.
  rewrite bool_decide_eq_false_2 by done. by vm_compute.
Qed.

Lemma sample_times : times_representable t0 None.
Proof. split; [split; vm_compute; congruence|done]. Qed.

Lemma reachable_invariant_witness :
  length (g_nodes sample_graph) = 2 /\ length (g_edges sample_graph) = 2 /\ graph_wf sample_graph.
Proof.
  split; [vm_compute; reflexivity|]. split; [vm_compute; reflexivity|].
  exact (proj1 (proj2 (reachable_invariant _ _ _ sample_reachable sample_lookup))).
Defined.

Lemma writes_isolate_tenants_witness :
  graphs (exec sample_client (OpCreateGraph "globex")) !! "acme-corp" = graphs sample_client !! "acme-corp".
Proof. apply writes_isolate_tenants. left. discriminate. Defined.

Lemma CreateNode_GetNode_witness :
  exists n, GetNode (CreateNode sample_client "acme-corp" (ctl "c")).2 "acme-corp" "c" = Ok n /\
    n_ValidFrom n = t0.
Proof.
  pose proof (CreateNode_GetNode sample_client "acme-corp" sample_graph (ctl "c") sample_reachable
    sample_lookup (sample_valid "c" ltac:(discriminate)) sample_times) as H.
  assert ((CreateNode sample_client "acme-corp" (ctl "c")).1 = Ok tt) as Hr by (vm_compute; reflexivity).
  destruct (CreateNode sample_client "acme-corp" (ctl "c")) as [[[]|e] c']; [|discriminate Hr].
  eexists. split; [exact (proj1 H)|reflexivity].
Defined.

Lemma UpsertNode_contract_witness :
  (UpsertNode sample_client "acme-corp" (ctl "a")).1 = Ok false /\
  exists g', graphs (UpsertNode sample_client "acme-corp" (ctl "a")).2 !! "acme-corp" = Some g' /\
    g_edges g' = g_edges sample_graph.
Proof.
  split; [vm_compute; reflexivity|].
  destruct (UpsertNode_contract sample_client "acme-corp" sample_graph (ctl "a") sample_reachable
    sample_lookup (sample_valid "a" ltac:(discriminate))) as (g' & Hg & He & _).
  exists g'. split; [exact Hg|exact He].
Defined.

Definition sample_batch (target : string) : list BulkEdge :=
  [mkBulkEdge "a" "b" (maps "e4"); mkBulkEdge "b" target (maps "e5")].

Lemma BulkCreateEdges_atomic_witness :
  exists g', graphs (BulkCreateEdges sample_client "acme-corp" (sample_batch "missing")).2 !! "acme-corp" = Some g' /\
    g_edges g' = g_edges sample_graph /\
    (create_edges 0 sample_graph (sample_batch "missing")).1 <> Ok tt.
Proof.
  destruct (BulkCreateEdges_atomic sample_client "acme-corp" sample_graph (sample_batch "missing")
    sample_reachable sample_lookup ltac:(discriminate) ltac:(vm_compute; reflexivity)) as (g' & Hg & H).
  assert ((BulkCreateEdges sample_client "acme-corp" (sample_batch "missing")).1 =
    Err (BulkEdgeError 1 (ErrEndpoint "target" (ErrNodeNotFound "missing")))) as E by (vm_compute; reflexivity).
  rewrite E in H. destruct H as (Hs & Hne & _). exists g'.
  split; [exact Hg|]. split; [exact (ss_edges _ _ Hs)|exact Hne].
Defined.

Lemma Traverse_exact_witness :
  exists tracks : list track,
    Traverse sample_client "acme-corp" (mkTraversalQuery "a" "outbound" ["MAPS"] 0 None) =
      Ok (decodePath sample_graph <$> tracks) /\ NoDup tracks /\ length tracks = 2.
Proof.
  destruct (Traverse_exact sample_client "acme-corp" sample_graph
    (mkTraversalQuery "a" "outbound" ["MAPS"] 0 None) sample_reachable sample_lookup) as (tracks & E & Hnd & _).
  { constructor; [|constructor]. apply (CheckLabel_ok "edge label"). vm_compute. reflexivity. }
  exists tracks. split; [exact E|]. split; [exact Hnd|].
  apply (f_equal (fun r : result graph_error (list Path) => match r with Ok l => length l | _ => 0 end)) in E.
  simpl in E. rewrite length_fmap in E. rewrite <- E. vm_compute. reflexivity.
Defined.

Lemma SupersedeFact_as_of_witness :
  exists e, e ∈ g_edges sample_graph /\ edge_id e = "e1" /\
    (SupersedeFact sample_client "acme-corp" (mkSupersedeRequest "" "e1" (t0 + 5) "job-1")).1 = Ok true.
Proof.
  destruct (g_edges sample_graph) as [|e es] eqn:E; [vm_compute in E; discriminate E|].
  exists e. split; [left|].
  assert (edge_id e = "e1") as Hid by (vm_compute in E; injection E as <-; vm_compute; reflexivity).
  split; [exact Hid|].
  refine (proj1 (SupersedeFact_as_of sample_client "acme-corp" "e1" "job-1" sample_graph e (t0 + 5) t0
    sample_reachable sample_lookup _ Hid _ _ _)).
  - rewrite E. left.
  - discriminate.
  - split; vm_compute; congruence.
  - discriminate.
Defined.
