(* ===== verification/Llm.v ===== *)
(** The LLM client: [pkg/llmclient] ([types.go], [messages.go], [answered.go],
    [retry.go], [client.go]) and the per-tenant LLM settings of
    [pkg/config/types.go] its callers resolve.

    What is not Go source of the repository is a parameter: the accessors of a
    protobuf [structpb.Value] ([StructPB]), the gateway and the clock (an
    [http_env]), JSON and SHA-256. Spans, metrics and log text are left out;
    audit events are kept, without their timestamp, duration and trace ID. *)

From S2P Require Import Prelude Float64 Regexp Tenant Gostrings.

Open Scope Z_scope.

(** * Definitions *)

(** The conversion [int64(x)] of a float outside the range of [int64] is
    implementation defined: some value of the type, which one is left open. *)
Class GoArch := {
  float_overflow : float64 -> Z;
  float_overflow_range : forall x, - 2 ^ 63 <= float_overflow x < 2 ^ 63;
}.

Definition go_int `{GoArch} (x : float64) : Z :=
  match fto_int x with Some n => n | None => float_overflow x end.

(** ** Settings *)

Record LLMOverride := mkOverride {
  o_GatewayURL : option string;
  o_DefaultModel : option string;
  o_EmbeddingModel : option string;
  o_APIKeyRef : option string;
  o_AllowedModels : option (list string);   (* [None] is a nil slice *)
  o_MaxRetries : option Z;
  o_Timeout : option Z;
}.

Record LLMConfig := mkLLMConfig {
  GatewayURL : string;
  GatewayMode : bool;
  DefaultModel : string;
  EmbeddingModel : string;
  APIKeyRef : string;
  AllowedModels : list string;
  MaxRetries : Z;
  Timeout : Z;
  TenantOverrides : gmap string LLMOverride;
}.

Record LLMTenantConfig := mkTenantConfig {
  tc_GatewayURL : string;
  tc_GatewayMode : bool;
  tc_DefaultModel : string;
  tc_EmbeddingModel : string;
  tc_APIKeyRef : string;
  tc_AllowedModels : list string;
  tc_MaxRetries : Z;
  tc_Timeout : Z;
}.

Definition ForTenant (c : LLMConfig) (tenantID : string) : LLMTenantConfig :=
  let tc := mkTenantConfig (GatewayURL c) (GatewayMode c) (DefaultModel c) (EmbeddingModel c)
              (APIKeyRef c) (AllowedModels c) (MaxRetries c) (Timeout c) in
  match TenantOverrides c !! tenantID with
  | Some o =>
      mkTenantConfig
        (default (tc_GatewayURL tc) (o_GatewayURL o))
        (tc_GatewayMode tc)
        (default (tc_DefaultModel tc) (o_DefaultModel o))
        (default (tc_EmbeddingModel tc) (o_EmbeddingModel o))
        (default (tc_APIKeyRef tc) (o_APIKeyRef o))
        (default (tc_AllowedModels tc) (o_AllowedModels o))
        (default (tc_MaxRetries tc) (o_MaxRetries o))
        (default (tc_Timeout tc) (o_Timeout o))
  | None => tc
  end.

(** ** Requests and responses *)

Definition RoleSystem : string := "system".
Definition RoleUser : string := "user".
Definition RoleAssistant : string := "assistant".
Definition OpComplete : string := "complete".
Definition OpEmbed : string := "embed".
Definition DeploymentHeader : string := "x-litellm-model-id".

Record ChatMessage := mkMessage { Role : string; Content : string }.

Record CompletionRequest := mkCompletionRequest {
  cr_Model : string;
  cr_Messages : list ChatMessage;
  cr_MaxTokens : Z;
  cr_Temperature : option float64;
  cr_TopP : option float64;
  cr_Stop : list string;
  cr_TenantID : string;
  cr_JobID : string;
  cr_PromptName : string;
  cr_PromptVersion : string;
}.

Definition with_model (req : CompletionRequest) (m : string) : CompletionRequest :=
  mkCompletionRequest m (cr_Messages req) (cr_MaxTokens req) (cr_Temperature req) (cr_TopP req)
    (cr_Stop req) (cr_TenantID req) (cr_JobID req) (cr_PromptName req) (cr_PromptVersion req).

Record EmbeddingRequest := mkEmbeddingRequest {
  er_Model : string;
  er_Input : list string;
  er_TenantID : string;
  er_JobID : string;
}.

Record TokenUsage := mkUsage { PromptTokens : Z; CompletionTokens : Z; TotalTokens : Z }.

Record CompletionChoice := mkChoice {
  ch_Index : Z;
  ch_Message : ChatMessage;
  ch_FinishReason : string;
}.

Record CompletionResponse := mkCompletionResponse {
  cs_ID : string;
  cs_Model : string;
  cs_Choices : list CompletionChoice;
  cs_Usage : TokenUsage;
  cs_Deployment : string;
}.

Record EmbeddingData := mkEmbeddingData {
  ed_Index : Z;
  ed_Embedding : list float64;   (* float32 values; [float64(v)] is exact *)
}.

Record EmbeddingResponse := mkEmbeddingResponse {
  es_Data : list EmbeddingData;
  es_Model : string;
  es_PromptTokens : Z;
  es_TotalTokens : Z;
  es_Deployment : string;
}.

(** The sentinel errors of [errors.go], as far as [errors.Is] tells them apart. *)
Inductive llm_error :=
| ErrGatewayUnavailable
| ErrRateLimitExceeded
| ErrInvalidRequest
| ErrInvalidMessages
| ErrModelNotAllowed
| ErrAuthentication
| ErrResponseTooLarge
| ErrOutputTruncated
| APIError (status : Z)
| LEOther (what : string)            (* an error of a package the client calls *)
| LEExhausted (attempts : Z) (last : llm_error).

Fixpoint is_output_truncated (e : llm_error) : bool :=
  match e with
  | ErrOutputTruncated => true
  | LEExhausted _ e' => is_output_truncated e'
  | _ => false
  end.

(** ** Messages *)

(** The accessors of [*structpb.Value]; a nil value reads as the zero value. *)
Class StructPB := {
  Value : Type;
  GetStringValue : Value -> string;
  GetNumberValue : Value -> float64;
  GetListValue : Value -> option (list Value);
  GetStructValue : Value -> option (gmap string Value);
}.

Section messages.
Context `{StructPB}.

Definition string_field (fields : gmap string Value) (key : string) : string :=
  match fields !! key with Some v => GetStringValue v | None => "" end.

Fixpoint decode_messages (items : list Value) : result llm_error (list ChatMessage) :=
  match items with
  | [] => Ok []
  | item :: rest =>
      match GetStructValue item with
      | None => Err ErrInvalidMessages
      | Some m =>
          let role := string_field m "role" in
          if bool_decide (role = "") then Err ErrInvalidMessages
          else if bool_decide (role <> RoleSystem /\ role <> RoleUser /\ role <> RoleAssistant)
          then Err ErrInvalidMessages
          else msgs ← decode_messages rest; Ok (mkMessage role (string_field m "content") :: msgs)
      end
  end.

Definition MessagesFromPayload (v : Value) : result llm_error (list ChatMessage) :=
  match GetListValue v with
  | None => Err ErrInvalidMessages
  | Some items => decode_messages items
  end.
End messages.

Definition CheckAnswered (resp : CompletionResponse) : result llm_error unit :=
  match cs_Choices resp with
  | [] => Ok tt
  | choices =>
      let answered := existsb (fun c => negb (bool_decide (TrimSpace (Content (ch_Message c)) = ""))) choices in
      let cutOff := existsb (fun c => bool_decide (ch_FinishReason c = "length")) choices in
      if answered || negb cutOff then Ok tt else Err ErrOutputTruncated
  end.

(** ** Validation *)

Definition isModelAllowed (c : LLMConfig) (model : string) : bool :=
  match AllowedModels c with
  | [] => true
  | allowed => existsb (fun a => bool_decide (a = model)) allowed
  end.

Definition prepareCompletionRequest (c : LLMConfig) (req : option CompletionRequest)
  : result llm_error CompletionRequest :=
  match req with
  | None => Err ErrInvalidRequest
  | Some req =>
      if bool_decide (cr_TenantID req = "") then Err ErrInvalidRequest
      else if negb (is_ok (ValidateTenantID (cr_TenantID req))) then Err ErrInvalidRequest
      else
        let req := if bool_decide (cr_Model req = "") then with_model req (DefaultModel c) else req in
        if bool_decide (cr_Messages req = []) then Err ErrInvalidRequest
        else if negb (isModelAllowed c (cr_Model req)) then Err ErrModelNotAllowed
        else Ok req
  end.

Definition prepareEmbeddingRequest (c : LLMConfig) (req : option EmbeddingRequest)
  : result llm_error EmbeddingRequest :=
  match req with
  | None => Err ErrInvalidRequest
  | Some req =>
      if bool_decide (er_TenantID req = "") then Err ErrInvalidRequest
      else if negb (is_ok (ValidateTenantID (er_TenantID req))) then Err ErrInvalidRequest
      else
        let req := if bool_decide (er_Model req = "")
                   then mkEmbeddingRequest (EmbeddingModel c) (er_Input req) (er_TenantID req) (er_JobID req)
                   else req in
        if bool_decide (er_Input req = []) then Err ErrInvalidRequest
        else if negb (isModelAllowed c (er_Model req)) then Err ErrModelNotAllowed
        else Ok req
  end.

(** ** Retries *)

(** Durations are nanoseconds, 64 bits wide. *)
Definition Second : Z := 1000000000.
Definition baseBackoff : Z := 500000000.
Definition maxBackoff : Z := 30 * Second.
Definition maxRetryAfter : Z := 60 * Second.
Definition maxResponseSize : Z := 10 * 1024 * 1024.

(** [http.ParseTime] followed by [time.Until], for a header that is not a number. *)
Class HttpDate := until_http_date : string -> option Z.

Definition parseRetryAfter `{HttpDate} (header : string) : Z :=
  let header := TrimSpace header in
  let date :=
    match until_http_date header with
    | Some d => if d <? 0 then 0 else d
    | None => 0
    end in
  if bool_decide (header = "") then 0
  else
    match Atoi header with
    | Some secs =>
        if 0 <=? secs then
          let d := wrap64 (secs * Second) in
          if d <? 0 then maxRetryAfter else d
        else date
    | None => date
    end.

Definition shouldRetry `{HttpDate} (statusCode : Z) (retryAfterHeader : string) : bool * Z :=
  if statusCode =? 429 then
    let d := parseRetryAfter retryAfterHeader in
    if 0 <? d then (true, if maxRetryAfter <? d then maxRetryAfter else d) else (true, 0)
  else if (500 <=? statusCode) && (statusCode <? 600) then (true, 0)
  else (false, 0).

(** [math.Pow(2, float64(n))] for a non-negative [n]. *)
Definition pow2 (n : nat) : float64 :=
  if (n <=? 1023)%nat then fof_Z (2 ^ Z.of_nat n) else Inf false.

(** [r] is the value [rand.Float64()] returned. *)
Definition backoffDuration `{GoArch} (attempt : nat) (r : float64) : Z :=
  let base := fmul (fof_Z baseBackoff) (pow2 attempt) in
  let base := if fltb (fof_Z maxBackoff) base then fof_Z maxBackoff else base in
  let jitter := fmul (fmul base (fconst 1 4)) (fsub (fmul (fof_Z 2) r) fone) in
  let d := go_int (fadd base jitter) in
  let d := if maxBackoff <? d then maxBackoff else d in
  if d <? 0 then 0 else d.

Definition classifyError (status : Z) : llm_error :=
  if (status =? 401) || (status =? 403) then ErrAuthentication
  else if status =? 429 then ErrRateLimitExceeded
  else APIError status.

Record http_response := mkResponse {
  r_status : Z;
  r_header : string -> string;   (* [resp.Header.Get] *)
  r_body : string;
}.

Inductive http_outcome :=
| NetErr                          (* [httpClient.Do] failed *)
| ReadErr                         (* reading the body failed *)
| Resp (r : http_response).

(** What one call of [doWithRetry] meets: whether the request can be built,
    whether the context ends during the wait before an attempt, the outcome of
    each attempt and the random number drawn for each wait. *)
Record http_env := mkEnv {
  request_ok : bool;
  ctx_done : nat -> bool;
  http_do : nat -> http_outcome;
  rand_at : nat -> float64;
}.

Inductive retry_event :=
| Sleep (d : Z)
| Post.

Section retry.
Context `{GoArch} `{HttpDate} {R : Type} (decode : string -> option R) (env : http_env).

Definition reply : Type := R * (string -> string).

(** The body of the loop from attempt [attempt] on, with [n] attempts left. *)
Fixpoint attempt_loop (maxAttempts : Z) (n attempt : nat) (lastErr : option llm_error)
    (overrideDelay : Z) : result llm_error reply * list retry_event :=
  match n with
  | O => (Err (match lastErr with
               | Some e => LEExhausted maxAttempts e
               | None => ErrGatewayUnavailable
               end), [])
  | S n' =>
      let waits :=
        match attempt with
        | O => []
        | S a => [Sleep (if 0 <? overrideDelay then overrideDelay else backoffDuration a (rand_at env a))]
        end in
      let overrideDelay := if (0 <? attempt)%nat && (0 <? overrideDelay) then 0 else overrideDelay in
      if (0 <? attempt)%nat && ctx_done env attempt then (Err (LEOther "context cancelled"), waits)
      else if negb (request_ok env) then (Err (LEOther "creating request"), waits)
      else
        let continue e o :=
          let '(res, log) := attempt_loop maxAttempts n' (S attempt) (Some e) o in
          (res, waits ++ Post :: log) in
        match http_do env attempt with
        | NetErr => continue ErrGatewayUnavailable overrideDelay
        | ReadErr => continue (LEOther "reading response body") overrideDelay
        | Resp r =>
            if maxResponseSize <=? Z.of_nat (String.length (r_body r))
            then (Err ErrResponseTooLarge, waits ++ [Post])
            else if (200 <=? r_status r) && (r_status r <? 300) then
              match decode (r_body r) with
              | None => (Err (LEOther "decoding response"), waits ++ [Post])
              | Some v => (Ok (v, r_header r), waits ++ [Post])
              end
            else
              let '(retry, retryDelay) := shouldRetry (r_status r) (r_header r "Retry-After") in
              if retry then continue (APIError (r_status r)) retryDelay
              else (Err (classifyError (r_status r)), waits ++ [Post])
        end
  end.

Definition max_attempts (c : LLMConfig) : Z :=
  let m := wrap64 (MaxRetries c + 1) in
  let m := if GatewayMode c then 1 else m in
  if m <? 1 then 1 else m.

Definition doWithRetry (c : LLMConfig) : result llm_error reply * list retry_event :=
  attempt_loop (max_attempts c) (Z.to_nat (max_attempts c)) 0 None 0.
End retry.

(** ** Complete and Embed *)

Record AuditEvent := mkAudit {
  au_TenantID : string;
  au_JobID : string;
  au_Model : string;
  au_Operation : string;
  au_PromptHash : string;
  au_TokensUsed : Z;
  au_Success : bool;
  au_Error : option llm_error;
  au_PromptName : string;
  au_PromptVersion : string;
}.

Section client.
Context `{GoArch} `{HttpDate}.
(** [emitter]: an audit emitter is configured. *)
Context (emitter : bool).
Context (hash_messages : list ChatMessage -> string) (hash_input : list string -> string).
Context (marshal_completion : CompletionRequest -> option string)
        (marshal_embedding : EmbeddingRequest -> option string).
Context (decode_completion : string -> option CompletionResponse)
        (decode_embedding : string -> option EmbeddingResponse).

(** The call, the audit event it emits if any, and what it did on the wire:
    [send body] is the environment of the POST of that body. *)
Definition Complete (c : LLMConfig) (send : string -> http_env) (req : option CompletionRequest)
  : result llm_error CompletionResponse * list AuditEvent * list retry_event :=
  match prepareCompletionRequest c req with
  | Err e => (Err e, [], [])
  | Ok req =>
      let promptHash := hash_messages (cr_Messages req) in
      let emit tokens success err :=
        if emitter then
          [mkAudit (cr_TenantID req) (cr_JobID req) (cr_Model req) OpComplete promptHash tokens success err
             (cr_PromptName req) (cr_PromptVersion req)]
        else [] in
      match marshal_completion req with
      | None => (Err (LEOther "marshaling completion request"), [], [])
      | Some body =>
          match doWithRetry decode_completion (send body) c with
          | (Err e, log) => (Err e, emit 0 false (Some e), log)
          | (Ok (resp, header), log) =>
              let resp := mkCompletionResponse (cs_ID resp) (cs_Model resp) (cs_Choices resp)
                            (cs_Usage resp) (header DeploymentHeader) in
              (Ok resp, emit (TotalTokens (cs_Usage resp)) true None, log)
          end
      end
  end.

Definition Embed (c : LLMConfig) (send : string -> http_env) (req : option EmbeddingRequest)
  : result llm_error EmbeddingResponse * list AuditEvent * list retry_event :=
  match prepareEmbeddingRequest c req with
  | Err e => (Err e, [], [])
  | Ok req =>
      let promptHash := hash_input (er_Input req) in
      let emit tokens success err :=
        if emitter then
          [mkAudit (er_TenantID req) (er_JobID req) (er_Model req) OpEmbed promptHash tokens success err
             "" ""]
        else [] in
      match marshal_embedding req with
      | None => (Err (LEOther "marshaling embedding request"), [], [])
      | Some body =>
          match doWithRetry decode_embedding (send body) c with
          | (Err e, log) => (Err e, emit 0 false (Some e), log)
          | (Ok (resp, header), log) =>
              let resp := mkEmbeddingResponse (es_Data resp) (es_Model resp) (es_PromptTokens resp)
                            (es_TotalTokens resp) (header DeploymentHeader) in
              (Ok resp, emit (es_TotalTokens resp) true None, log)
          end
      end
  end.
End client.

(** * Lemmas *)

Lemma parseRetryAfter_nonneg `{HttpDate} h : 0 <= parseRetryAfter h.
Proof.
  unfold parseRetryAfter. case_bool_decide; [lia|]. assert (0 <= maxRetryAfter) by done.
  destruct (Atoi _) as [secs|]; [destruct (0 <=? secs)|];
    repeat match goal with
           | |- context [Z.ltb ?a ?b] => destruct (Z.ltb_spec a b)
           | |- context [match until_http_date ?x with _ => _ end] => destruct (until_http_date x)
           end; lia.
Qed.

Lemma shouldRetry_delay `{HttpDate} st h : 0 <= (shouldRetry st h).2 <= maxRetryAfter.
Proof.
  unfold shouldRetry. assert (0 < maxRetryAfter) by done.
  repeat match goal with
         | |- context [Z.ltb ?a ?b] => destruct (Z.ltb_spec a b)
         | |- context [Z.eqb ?a ?b] => destruct (Z.eqb_spec a b)
         | |- context [Z.leb ?a ?b] => destruct (Z.leb_spec a b)
         end; simpl; lia.
Qed.

Lemma shouldRetry_status `{HttpDate} st h :
  (shouldRetry st h).1 = (st =? 429) || (500 <=? st) && (st <? 600).
Proof.
  unfold shouldRetry. destruct (st =? 429); [by destruct (0 <? _)|].
  by destruct ((500 <=? st) && (st <? 600)).
Qed.

Lemma backoffDuration_bounds `{GoArch} a r : 0 <= backoffDuration a r <= maxBackoff.
Proof.
  unfold backoffDuration. set (x := go_int _). clearbody x. assert (0 < maxBackoff) by done.
  destruct (Z.ltb_spec maxBackoff x); [|destruct (Z.ltb_spec x 0)];
    [change (maxBackoff <? 0) with false|..]; lia.
Qed.

Lemma max_attempts_pos c : 1 <= max_attempts c.
Proof. unfold max_attempts. destruct (Z.ltb_spec (if GatewayMode c then 1 else wrap64 (MaxRetries c + 1)) 1); lia. Qed.

(** ** The retry loop against a reference

    An attempt is retried when it failed before a response was read, or was
    answered 429 or 5xx. *)
Definition retryable (o : http_outcome) : bool :=
  match o with
  | NetErr | ReadErr => true
  | Resp r =>
      negb (maxResponseSize <=? Z.of_nat (String.length (r_body r))) &&
      ((r_status r =? 429) || (500 <=? r_status r) && (r_status r <? 600))
  end.

Definition retried_error (o : http_outcome) : llm_error :=
  match o with
  | NetErr => ErrGatewayUnavailable
  | ReadErr => LEOther "reading response body"
  | Resp r => APIError (r_status r)
  end.

(** The answer an attempt that is not retried gives. *)
Definition final_answer {R} (decode : string -> option R) (o : http_outcome)
  : result llm_error (R * (string -> string)) :=
  match o with
  | Resp r =>
      if maxResponseSize <=? Z.of_nat (String.length (r_body r)) then Err ErrResponseTooLarge
      else if (200 <=? r_status r) && (r_status r <? 300) then
        match decode (r_body r) with Some v => Ok (v, r_header r) | None => Err (LEOther "decoding response") end
      else Err (classifyError (r_status r))
  | _ => Err ErrGatewayUnavailable
  end.

Definition cancelled_before (env : http_env) (k : nat) : bool := (0 <? k)%nat && ctx_done env k.

(** Attempt [k] ends the call: the wait before it was cut off or its outcome
    is not retried. *)
Definition ends (env : http_env) (k : nat) : bool :=
  cancelled_before env k || negb (retryable (http_do env k)).

Definition posts (log : list retry_event) : nat :=
  length (List.filter (fun e => match e with Post => true | Sleep _ => false end) log).

Definition delay_ok (e : retry_event) : Prop :=
  match e with Sleep d => 0 <= d <= maxRetryAfter | Post => True end.

Section contract.
Context `{GoArch} `{HttpDate} {R : Type} (decode : string -> option R) (env : http_env).

(** The answer and the number of POSTs, from attempt [k] on with [n] left. *)
Definition spec_from (max : Z) (k n : nat) (last : llm_error) : result llm_error (R * (string -> string)) * nat :=
  match List.find (ends env) (seq k n) with
  | Some j => if cancelled_before env j then (Err (LEOther "context cancelled"), j - k)%nat
              else (final_answer decode (http_do env j), S j - k)%nat
  | None => (Err (LEExhausted max (match n with
                                   | O => last
                                   | S _ => retried_error (http_do env (k + n - 1)%nat)
                                   end)), n)
  end.

Lemma find_seq_ge k n j : List.find (ends env) (seq k n) = Some j -> (k <= j < k + n)%nat.
Proof. intros [Hin _]%List.find_some. by apply List.in_seq in Hin. Qed.

Lemma spec_from_retry max k n last :
  ends env k = false ->
  spec_from max k (S n) last =
  (let s := spec_from max (S k) n (retried_error (http_do env k)) in (s.1, S s.2)).
Proof.
  intros He. unfold spec_from. cbn [seq List.find]. rewrite He.
  destruct (List.find (ends env) (seq (S k) n)) as [j|] eqn:Ej.
  - apply find_seq_ge in Ej. destruct (cancelled_before env j); cbn [fst snd];
      apply (f_equal2 pair); [done|lia|done|lia].
  - cbn [fst snd]. destruct n as [|n]; cbn [fst snd].
    + by replace (k + 1 - 1)%nat with k by lia.
    + replace (S k + S n - 1)%nat with (k + S (S n) - 1)%nat by lia. done.
Qed.

Lemma waits_posts (w : list retry_event) log :
  Forall (fun e => match e with Sleep _ => True | Post => False end) w -> posts (w ++ log) = posts log.
Proof. induction 1 as [|[] w]; simpl; [done|done|done]. Qed.

Definition is_sleep (e : retry_event) : Prop := match e with Sleep _ => True | Post => False end.

(** What the loop must return from attempt [k] on, with [n] attempts left. *)
Definition meets (max : Z) (k n : nat) (last : llm_error)
    (r : result llm_error (R * (string -> string)) * list retry_event) : Prop :=
  (r.1, posts r.2) = spec_from max k n last /\ Forall delay_ok r.2.

Lemma meets_cancelled max k n last w :
  cancelled_before env k = true -> Forall is_sleep w -> Forall delay_ok w ->
  meets max k (S n) last (Err (LEOther "context cancelled"), w).
Proof.
  intros Hc Hw Hd. split; [|done]. unfold spec_from. cbn [seq List.find fst snd]. unfold ends at 1.
  rewrite Hc. cbn [orb]. rewrite Hc, <- (app_nil_r w), waits_posts by done. by rewrite Nat.sub_diag.
Qed.

Lemma meets_continue max k n last w res log :
  ends env k = false -> Forall is_sleep w -> Forall delay_ok w ->
  meets max (S k) n (retried_error (http_do env k)) (res, log) ->
  meets max k (S n) last (res, w ++ Post :: log).
Proof.
  intros He Hw Hd [Heq Hdel]. unfold meets. cbn [fst snd] in *.
  rewrite spec_from_retry, waits_posts by done. rewrite <- Heq. cbn [fst snd].
  split; [done|]. apply Forall_app; split; [done|]. by constructor.
Qed.

Lemma meets_final max k n last w :
  cancelled_before env k = false -> ends env k = true -> Forall is_sleep w -> Forall delay_ok w ->
  meets max k (S n) last (final_answer decode (http_do env k), w ++ [Post]).
Proof.
  intros Hc He Hw Hd. unfold meets, spec_from. cbn [seq List.find fst snd].
  rewrite He, Hc, waits_posts by done.
  split; [f_equal; cbn; lia|]. apply Forall_app; split; [done|]. by repeat constructor.
Qed.

Lemma waits_ok k o :
  o <= maxRetryAfter ->
  let w := match k with
           | O => []
           | S a => [Sleep (if 0 <? o then o else backoffDuration a (rand_at env a))]
           end in
  Forall delay_ok w /\ Forall is_sleep w.
Proof.
  intros Ho. destruct k as [|a]; repeat constructor; cbn [delay_ok];
    destruct (Z.ltb_spec 0 o); try lia;
    pose proof (backoffDuration_bounds a (rand_at env a)); assert (maxBackoff <= maxRetryAfter) by done; lia.
Qed.

(** The loop meets the reference, from every attempt on. *)
Lemma attempt_loop_spec max n k last o :
  request_ok env = true -> 0 <= o <= maxRetryAfter -> (k = 0%nat -> n <> 0%nat) ->
  (k <> 0%nat -> is_Some last) ->
  meets max k n (default ErrGatewayUnavailable last) (attempt_loop decode env max n k last o).
Proof.
  intros Hreq. revert k last o. induction n as [|n IH]; intros k last o Ho Hk Hlast.
  { destruct k as [|k]; [by destruct Hk|]. destruct (Hlast ltac:(done)) as [e ->].
    split; [done|constructor]. }
  cbn [attempt_loop]. rewrite Hreq. cbn [negb].
  set (w := match k with O => [] | S a => _ end).
  destruct (waits_ok k o ltac:(lia)) as [Hwd Hw]. fold w in Hwd, Hw. clearbody w.
  set (o' := if (0 <? k)%nat && (0 <? o) then 0 else o).
  assert (0 <= o' <= maxRetryAfter) as Ho' by (subst o'; destruct ((0 <? k)%nat && (0 <? o)); done || lia).
  clearbody o'. fold (cancelled_before env k).
  destruct (cancelled_before env k) eqn:Hc; [by apply meets_cancelled|].
  assert (forall e d, 0 <= d <= maxRetryAfter -> e = retried_error (http_do env k) -> ends env k = false ->
    meets max k (S n) (default ErrGatewayUnavailable last)
      (let '(res, log) := attempt_loop decode env max n (S k) (Some e) d in (res, w ++ Post :: log))) as Hcont.
  { intros e d Hd -> Hends. pose proof (IH (S k) (Some (retried_error (http_do env k))) d Hd) as HI.
    destruct (attempt_loop _ _ _ n _ _ _) as [res log]. apply meets_continue; eauto. }
  pose proof (fun He => meets_final max k n (default ErrGatewayUnavailable last) w Hc He Hw Hwd) as Hfin.
  unfold ends in Hcont, Hfin. rewrite Hc in Hcont, Hfin. cbn [orb] in Hcont, Hfin.
  destruct (http_do env k) as [| |r] eqn:Eo; [by apply Hcont..|].
  cbn [retryable final_answer] in Hcont, Hfin.
  destruct (maxResponseSize <=? _); [by apply Hfin|].
  destruct ((200 <=? r_status r) && (r_status r <? 300)) eqn:E2.
  { assert ((r_status r =? 429) || (500 <=? r_status r) && (r_status r <? 600) = false) as Hs.
    { apply andb_true_iff in E2 as [?%Z.leb_le ?%Z.ltb_lt]. apply orb_false_iff.
      rewrite Z.eqb_neq, andb_false_iff, Z.leb_gt. lia. }
    rewrite Hs in Hfin. destruct (decode (r_body r)); by apply Hfin. }
  pose proof (shouldRetry_status (r_status r) (r_header r "Retry-After")) as Hst.
  pose proof (shouldRetry_delay (r_status r) (r_header r "Retry-After")) as Hdl.
  destruct (shouldRetry _ _) as [[|] d]; cbn [fst snd] in *; rewrite <- Hst in Hcont, Hfin.
  - by apply Hcont.
  - by apply Hfin.
Qed.

(** * Properties *)

(** [doWithRetry] does what its reference says, whatever the gateway does:
    it makes between 1 and [max_attempts] POSTs, one in gateway mode; it stops
    at the first attempt whose outcome is not a network error, a failed read,
    a 429 or a 5xx and returns that attempt's answer, or at the first wait the
    context cuts off; otherwise every attempt is used and the last one's error
    is reported. No wait is negative or longer than a minute. *)
Theorem doWithRetry_contract (c : LLMConfig) :
  request_ok env = true ->
  let n := Z.to_nat (max_attempts c) in
  let r := doWithRetry decode env c in
  (1 <= n)%nat /\ (GatewayMode c = true -> n = 1%nat) /\
  (0 <= MaxRetries c < 2 ^ 63 - 1 -> GatewayMode c = false -> Z.of_nat n = MaxRetries c + 1) /\
  r.1 = match List.find (ends env) (seq 0 n) with
        | Some k => if cancelled_before env k then Err (LEOther "context cancelled")
                    else final_answer decode (http_do env k)
        | None => Err (LEExhausted (max_attempts c) (retried_error (http_do env (n - 1)%nat)))
        end /\
  posts r.2 = match List.find (ends env) (seq 0 n) with
              | Some k => if cancelled_before env k then k else S k
              | None => n
              end /\
  Forall delay_ok r.2.
Proof.
  intros Hreq n r. pose proof (max_attempts_pos c).
  assert (n <> 0%nat) as Hn by lia.
  destruct (attempt_loop_spec (max_attempts c) n 0 None 0 Hreq ltac:(done) ltac:(done) ltac:(done)) as [Heq Hd].
  unfold doWithRetry in r. fold n in r. fold r in Heq, Hd. clearbody r. unfold spec_from in Heq.
  destruct r as [res log]. cbn [fst snd] in *.
  split_and!; try done; [lia|subst n|subst n|..].
  - unfold max_attempts. by intros ->.
  - unfold max_attempts. intros Hm ->. rewrite wrap64_id by lia.
    destruct (Z.ltb_spec (MaxRetries c + 1) 1); lia.
  - destruct (List.find _ _) as [k|].
    + destruct (cancelled_before env k); by injection Heq.
    + destruct n; [done|]. by injection Heq.
  - destruct (List.find _ _) as [k|].
    + destruct (cancelled_before env k); apply (f_equal snd) in Heq; cbn [snd] in Heq; lia.
    + by apply (f_equal snd) in Heq.
Qed.
End contract.

(** ** What the client never reports *)

Fixpoint is_rate_limit (e : llm_error) : bool :=
  match e with
  | ErrRateLimitExceeded => true
  | LEExhausted _ e' => is_rate_limit e'
  | _ => false
  end.

Definition not_rate_limit {A} (r : result llm_error A) : Prop :=
  match r with Err e => is_rate_limit e = false | Ok _ => True end.

Lemma attempt_loop_not_rate_limit `{GoArch} `{HttpDate} {R} (decode : string -> option R) env max n k last o :
  (forall e, last = Some e -> is_rate_limit e = false) ->
  not_rate_limit (attempt_loop decode env max n k last o).1.
Proof.
  revert k last o. induction n as [|n IH]; intros k last o Hl; cbn [attempt_loop].
  { destruct last as [e|]; simpl; auto. }
  destruct (_ && ctx_done env k); [done|]. destruct (negb _); [done|].
  assert (forall w e d, is_rate_limit e = false ->
    not_rate_limit (let '(res, log) := attempt_loop decode env max n (S k) (Some e) d in
                    (res, w ++ Post :: log)).1) as Hc.
  { intros w e d He. specialize (IH (S k) (Some e) d). destruct (attempt_loop _ _ _ n _ _ _). simpl in *.
    apply IH. by intros ? [= <-]. }
  destruct (http_do env k) as [| |r]; [by apply Hc..|].
  destruct (_ <=? _); [done|]. destruct (_ && _); [by destruct (decode _)|].
  pose proof (shouldRetry_status (r_status r) (r_header r "Retry-After")) as Hst.
  destruct (shouldRetry _ _) as [[] d]; [by apply Hc|]. simpl in *.
  symmetry in Hst. apply orb_false_iff in Hst as [Hst _]. unfold classifyError.
  rewrite Hst. by destruct (_ || _).
Qed.

(** The sentinel ErrRateLimitExceeded, documented as "the rate limit was
    exceeded after retries", is never returned: a 429 is always retried, and
    when the retries run out the error wraps the last API error instead. *)
Theorem rate_limit_never_reported `{GoArch} `{HttpDate} {R} (decode : string -> option R) env c :
  not_rate_limit (doWithRetry decode env c).1.
Proof. apply attempt_loop_not_rate_limit. done. Qed.

(** The overflow guard of [parseRetryAfter] looks at the sign of the product
    only: a Retry-After of 18446744074 seconds (585 years) wraps to 0.29
    seconds instead of the cap. *)
Theorem retry_after_overflow `{HttpDate} :
  shouldRetry 429 "18446744074" = (true, 290448384) /\ shouldRetry 429 "120" = (true, maxRetryAfter).
Proof. by split. Qed.

(** * Witnesses *)

#[local] Program Instance amd64 : GoArch := {| float_overflow := fun _ => - 2 ^ 63 |}.
Next Obligation. done. Qed.

Definition no_dates : HttpDate := fun _ => None.

Definition sample_config : LLMConfig :=
  mkLLMConfig "http://gateway" false "m" "e" "" [] 2 30 ∅.

Definition sample_response (st : Z) (after body : string) : http_outcome :=
  Resp (mkResponse st (fun h => if bool_decide (h = "Retry-After") then after else "") body).

(** A gateway that is busy once, then answers. *)
Definition sample_env : http_env :=
  mkEnv true (fun _ => false)
    (fun k => match k with O => sample_response 429 "7" "busy" | _ => sample_response 200 "" "answer" end)
    (fun _ => fzero).

Lemma doWithRetry_contract_witness :
  (doWithRetry (H0 := no_dates) Some sample_env sample_config).2 = [Post; Sleep (7 * Second); Post] /\
  posts (doWithRetry (H0 := no_dates) Some sample_env sample_config).2 = 2%nat.
Proof.
  split; [vm_compute; reflexivity|].
  pose proof (doWithRetry_contract (H0 := no_dates) Some sample_env sample_config eq_refl) as (_ & _ & _ & _ & Hp & _).
  rewrite Hp. vm_compute. reflexivity.
Defined.
