(* ===== verification/Resultcache.v ===== *)
(** The LLM result cache's own logic: [pkg/resultcache/resultcache.go].

    Keys, stored entries, the manifest of one stage run (attempt), its digest,
    the comparison of a record with the database, and the verification of a
    cached row against the signed digest of the run that stored it. The message
    of a record that does not match is written out; other messages that only
    name the offending rows are left out. *)

From S2P Require Import Prelude Float64 Floatfmt Gostrings Sha256 Json Jsonread Errors Llm.
Local Open Scope Z_scope.

(** * Definitions *)

Definition ErrUnavailable : sentinel := "resultcache.ErrUnavailable".
Definition ErrCorrupt : sentinel := "resultcache.ErrCorrupt".
Definition ErrInvalidEntry : sentinel := "resultcache.ErrInvalidEntry".
Definition ErrJobNotRunning : sentinel := "resultcache.ErrJobNotRunning".
Definition ErrUntrusted : sentinel := "resultcache.ErrUntrusted".
Definition ErrUnknownJob : sentinel := "resultcache.ErrUnknownJob".

(** ** Keys *)

Record Identity := mkIdentity {
  TaskType : string;
  ModelAlias : string;
  Temperature : option float64;
  MaxTokens : Z;
  Sample : Z;
  ContentHash : string;
}.

Record ModelIdentity := mkModelIdentity {
  Observed : string;
  Deployment : string;
  Revision : string;
}.

#[export] Instance ModelIdentity_eq_dec : EqDecision ModelIdentity.
Proof. solve_decision. Defined.

Definition keyVersion : string := "crosscodex.resultcache.v2".

Definition temperature_text (id : Identity) : string :=
  match Temperature id with Some t => FormatFloat_g t | None => "" end.

Definition key_fields (analyzerName : string) (id : Identity) (model : ModelIdentity) : list string :=
  [keyVersion; analyzerName; TaskType id; ModelAlias id; temperature_text id;
   Itoa (MaxTokens id); Itoa (Sample id);
   ContentHash id; Observed model; Deployment model; Revision model].

(** An 8-byte big-endian length, then the bytes. *)
Definition length_prefixed (field : string) : list ascii :=
  big_endian 8 (Z.of_nat (String.length field)) ++ bytes_of field.

Definition encodeKey (analyzerName : string) (id : Identity) (model : ModelIdentity) : string :=
  string_of (key_fields analyzerName id model ≫= length_prefixed).

Definition Key (analyzerName : string) (id : Identity) (model : ModelIdentity) : string :=
  hex_sum (encodeKey analyzerName id model).

(** ** Modes and roles *)

Definition Mode : Type := string.
Definition ModeEnabled : Mode := "enabled".
Definition ModeBypassed : Mode := "bypassed".
Definition ModeDisabled : Mode := "disabled".
Definition ModeSkipped : Mode := "skipped".

Definition Mode_Valid (m : Mode) : bool :=
  bool_decide (m ∈ [ModeEnabled; ModeBypassed; ModeDisabled; ModeSkipped]).

Definition RoleHit : string := "hit".
Definition RoleWrite : string := "write".

(** ** Records *)

Record Entry := mkEntry {
  e_JobID : string;
  e_Analyzer : string;
  e_Attempt : string;
  e_TaskID : string;
  e_CacheKey : string;
  e_Result : string;
  e_ResponseModel : string;
  e_SourceCatalogID : string;
  e_TargetCatalogID : string;
}.

Record HitEntry := mkHitEntry {
  h_TaskID : string;
  h_CacheKey : string;
  h_ResultDigest : string;
  h_ProducerJobID : string;
}.

#[export] Instance HitEntry_eq_dec : EqDecision HitEntry.
Proof. solve_decision. Defined.

(** [Models] is [None] where the Go map is nil. *)
Record Stats := mkStats {
  s_Mode : Mode;
  s_Reason : string;
  s_Models : option (gmap string ModelIdentity);
  s_Tasks : Z;
  s_Hits : Z;
  s_Dispatched : Z;
}.

#[export] Instance Stats_eq_dec : EqDecision Stats.
Proof. solve_decision. Defined.

Record StageRecord := mkStageRecord {
  r_JobID : string;
  r_Analyzer : string;
  r_Attempt : string;
  r_Hits : list HitEntry;
  r_Stats : Stats;
}.

Record Hit := mkHit {
  hit_CacheKey : string;
  hit_Result : string;
  hit_ResponseModel : string;
  hit_ProducerJobID : string;
  hit_ProducerAttempt : string;
}.

Record AttemptRef := mkRef {
  ref_JobID : string;
  ref_Analyzer : string;
  ref_Attempt : string;
}.

#[export] Instance AttemptRef_eq_dec : EqDecision AttemptRef.
Proof. solve_decision. Defined.
#[export] Instance AttemptRef_countable : Countable AttemptRef.
Proof.
  refine (inj_countable' (fun r => (ref_JobID r, ref_Analyzer r, ref_Attempt r)) (fun '(j, a, t) => mkRef j a t) _).
  by intros [].
Defined.

Record ManifestEntry := mkManifestEntry {
  m_TaskID : string;
  m_Role : string;
  m_CacheKey : string;
  m_ResultDigest : string;
  m_ProducerJobID : string;
}.

#[export] Instance ManifestEntry_eq_dec : EqDecision ManifestEntry.
Proof. solve_decision. Defined.
#[export] Instance ManifestEntry_countable : Countable ManifestEntry.
Proof.
  refine (inj_countable' (fun e => (m_TaskID e, m_Role e, m_CacheKey e, m_ResultDigest e, m_ProducerJobID e))
    (fun '(t, r, k, d, p) => mkManifestEntry t r k d p) _).
  by intros [].
Defined.

Record Manifest := mkManifest {
  mf_TenantID : string;
  mf_JobID : string;
  mf_Analyzer : string;
  mf_Attempt : string;
  mf_Entries : list ManifestEntry;
  mf_Stats : list Stats;
}.

(** ** Validation *)

(** What a validation message complains of; an index is a position in the
    argument's list. *)
Inductive problem :=
| EmptyField (field : string)
| AttemptTooLong
| AttemptNotText
| KeyNotHex
| ResultEmpty
| ResultNotJSON
| ModeUnknown
| CountNegative
| CountTooLarge
| HitsNotEnabled
| CountsExceedTasks
| HitCountDiffers
| HitDuplicates (i first : nat)
| AtHit (i : nat) (p : problem)
| DigestMalformed
| AtRef (i : nat) (p : problem)
| OtherAnalyzer
| OtherTenant.

Definition MaxAttemptBytes : nat := 64.

Definition attemptProblems (attempt : string) : list problem :=
  if bool_decide (attempt = "") then [EmptyField "attempt"]
  else if (MaxAttemptBytes <? String.length attempt)%nat then [AttemptTooLong]
  else if negb (utf8_Valid attempt) || bool_decide (byte_of 0 ∈ bytes_of attempt) then [AttemptNotText]
  else [].

Definition hex_lower (c : ascii) : bool := in_range 48 57 c || in_range 97 102 c.

Definition validKey (s : string) : bool :=
  (String.length s =? 64)%nat && forallb hex_lower (bytes_of s).

Definition digest_prefix : string := "sha256:".

Definition validDigest (s : string) : bool :=
  match strip_prefix (bytes_of digest_prefix) (bytes_of s) with
  | Some rest => validKey (string_of rest)
  | None => false
  end.

(** One error naming every problem, or nil when there are none. *)
Definition invalid (problems : list problem) : failure :=
  match problems with [] => None | _ => Some [ErrInvalidEntry] end.

Definition empty_fields (l : list (string * string)) : list problem :=
  l ≫= fun '(name, value) => if bool_decide (value = "") then [EmptyField name] else [].

Definition entry_problems (e : Entry) : list problem :=
  empty_fields [("job_id", e_JobID e); ("analyzer", e_Analyzer e); ("task_id", e_TaskID e);
                ("response_model", e_ResponseModel e); ("source_catalog_id", e_SourceCatalogID e);
                ("target_catalog_id", e_TargetCatalogID e)]
  ++ attemptProblems (e_Attempt e)
  ++ (if validKey (e_CacheKey e) then [] else [KeyNotHex])
  ++ (if bool_decide (e_Result e = "") then [ResultEmpty]
      else if negb (utf8_Valid (e_Result e)) || negb (json_Valid (e_Result e)) then [ResultNotJSON] else []).

Definition Entry_Validate (e : Entry) : failure := invalid (entry_problems e).

Definition MaxInt32 : Z := 2147483647.

Definition statsProblems (s : Stats) : list problem :=
  (if Mode_Valid (s_Mode s) then [] else [ModeUnknown])
  ++ (if (s_Tasks s <? 0) || (s_Hits s <? 0) || (s_Dispatched s <? 0) then [CountNegative] else [])
  ++ (if (MaxInt32 <? s_Tasks s) || (MaxInt32 <? s_Hits s) || (MaxInt32 <? s_Dispatched s) then [CountTooLarge] else [])
  ++ (if negb (bool_decide (s_Mode s = ModeEnabled)) && negb (s_Hits s =? 0) then [HitsNotEnabled] else [])
  ++ (if s_Tasks s <? wrap64 (s_Hits s + s_Dispatched s) then [CountsExceedTasks] else []).

Definition Stats_Validate (s : Stats) : failure := invalid (statsProblems s).

Definition hit_problems (i : nat) (h : HitEntry) : list problem :=
  AtHit i <$>
    ((if bool_decide (h_TaskID h = "") then [EmptyField "task_id"] else [])
     ++ (if validKey (h_CacheKey h) then [] else [KeyNotHex])
     ++ (if validDigest (h_ResultDigest h) then [] else [DigestMalformed])
     ++ (if bool_decide (h_ProducerJobID h = "") then [EmptyField "producer_job_id"] else [])).

(** [seen] holds the latest position of each hit before position [i]. *)
Fixpoint hits_problems (seen : list (HitEntry * nat)) (i : nat) (hits : list HitEntry) : list problem :=
  match hits with
  | [] => []
  | h :: rest =>
      match List.find (fun e => bool_decide (e.1 = h)) seen with
      | Some (_, first) => [HitDuplicates i first]
      | None => []
      end ++ hit_problems i h ++ hits_problems ((h, i) :: seen) (S i) rest
  end.

Definition record_problems (r : StageRecord) : list problem :=
  empty_fields [("job_id", r_JobID r); ("analyzer", r_Analyzer r)]
  ++ attemptProblems (r_Attempt r) ++ statsProblems (r_Stats r)
  ++ (if Z.of_nat (length (r_Hits r)) =? s_Hits (r_Stats r) then [] else [HitCountDiffers])
  ++ hits_problems [] 0 (r_Hits r).

Definition StageRecord_Validate (r : StageRecord) : failure := invalid (record_problems r).

Definition ValidAttempt (attempt : string) : failure := invalid (attemptProblems attempt).

Definition ref_problems (analyzer : string) (i : nat) (r : AttemptRef) : list problem :=
  AtRef i <$>
    ((if bool_decide (ref_JobID r = "") then [EmptyField "job_id"] else [])
     ++ (if bool_decide (ref_Analyzer r = analyzer) then [] else [OtherAnalyzer])
     ++ attemptProblems (ref_Attempt r)).

Definition ValidAttemptRefs (analyzer : string) (refs : list AttemptRef) : failure :=
  invalid (concat (imap (ref_problems analyzer) refs)).

Definition ValidCheckpoint (tenantID : string) (expected : Manifest) : failure :=
  invalid
    ((if bool_decide (mf_TenantID expected = tenantID) then [] else [OtherTenant])
     ++ empty_fields [("job_id", mf_JobID expected); ("analyzer", mf_Analyzer expected)]
     ++ attemptProblems (mf_Attempt expected)).

(** ** Stored results *)

(** [structpb]: a value as a Go [any], and a struct made from a map. *)
Class StructJSON `{StructPB} := {
  AsInterface : Value -> any;
  NewStruct_any : list (string * any) -> option (gmap string Value);
}.

Definition ResultDigest (result : string) : string := digest_prefix +:+ hex_sum result.

(** [x.(string)], with "" for any other dynamic type. *)
Definition as_string (a : any) : string := match a with AString s => s | _ => "" end.

Section codec.
Context `{StructJSON}.

(** [s.AsMap()]: every field's value as an [any], by key. *)
Definition AsMap (s : gmap string Value) : list (string * any) :=
  foldl (fun acc '(k, v) => set_key k (AsInterface v) acc) [] (map_to_list s).

Definition EncodeResult (s : option (gmap string Value)) : result error string :=
  match s with
  | None => Err [ErrInvalidEntry]
  | Some s =>
      let model := match s !! "model" with Some v => as_string (AsInterface v) | None => "" end in
      if bool_decide (model = "") then Err [ErrInvalidEntry]
      else match Marshal_any (AMap (AsMap s)) with Some data => Ok data | None => Err [] end
  end.

Definition DecodeResult (data : string) : result error (gmap string Value) :=
  match decode_object data with
  | None => Err [ErrCorrupt]
  | Some m =>
      let model := match get_key "model" m with Some v => as_string v | None => "" end in
      if bool_decide (model = "") then Err [ErrCorrupt]
      else match NewStruct_any m with Some s => Ok s | None => Err [ErrCorrupt] end
  end.
End codec.

(** ** Manifests *)

(** [strings.Compare]. *)
Definition strings_Compare (a b : string) : Z :=
  match String.compare a b with Lt => -1 | Eq => 0 | Gt => 1 end.

(** [cmp.Or]: the first argument that is not zero, or zero. *)
Fixpoint cmp_Or (l : list Z) : Z :=
  match l with [] => 0 | x :: r => if x =? 0 then cmp_Or r else x end.

Definition entry_fields (e : ManifestEntry) : list string :=
  [m_TaskID e; m_Role e; m_CacheKey e; m_ResultDigest e; m_ProducerJobID e].

Definition CompareEntries (a b : ManifestEntry) : Z :=
  cmp_Or (zip_with strings_Compare (entry_fields a) (entry_fields b)).

Definition entry_le (a b : ManifestEntry) : Prop := CompareEntries a b <= 0.
#[export] Instance entry_le_dec : RelDecision entry_le.
Proof. intros a b. unfold entry_le. apply _. Defined.

Definition canonicalEntries (entries : list ManifestEntry) : list ManifestEntry := merge_sort entry_le entries.

Definition canonical_stats (s : Stats) : Stats :=
  mkStats (s_Mode s) (s_Reason s) (Some (default ∅ (s_Models s))) (s_Tasks s) (s_Hits s) (s_Dispatched s).

Definition canonicalStats (stats : list Stats) : list Stats := canonical_stats <$> stats.

Definition ModelIdentity_json (m : ModelIdentity) : json :=
  JObject [("observed", JString (Observed m)); ("deployment", JString (Deployment m)); ("revision", JString (Revision m))].

(** A map is written with its keys sorted. *)
Definition models_json (models : option (gmap string ModelIdentity)) : json :=
  match models with
  | None => JNull
  | Some m =>
      JObject (omap (fun k => m0 ← m !! k; Some (k, ModelIdentity_json m0))
                 (sort_strings ((map_to_list m).*1)))
  end.

Definition Stats_json (s : Stats) : json :=
  JObject [("mode", JString (s_Mode s)); ("reason", JString (s_Reason s)); ("models", models_json (s_Models s));
           ("tasks", JInt (s_Tasks s)); ("hits", JInt (s_Hits s)); ("dispatched", JInt (s_Dispatched s))].

Definition ManifestEntry_json (e : ManifestEntry) : json :=
  JObject [("task_id", JString (m_TaskID e)); ("role", JString (m_Role e)); ("cache_key", JString (m_CacheKey e));
           ("result_digest", JString (m_ResultDigest e)); ("producer_job_id", JString (m_ProducerJobID e))].

Definition Manifest_json (m : Manifest) : json :=
  JObject [("tenant_id", JString (mf_TenantID m)); ("job_id", JString (mf_JobID m));
           ("analyzer", JString (mf_Analyzer m)); ("attempt", JString (mf_Attempt m));
           ("entries", JArray (ManifestEntry_json <$> canonicalEntries (mf_Entries m)));
           ("stats", JArray (Stats_json <$> canonicalStats (mf_Stats m)))].

Definition manifest_text (m : Manifest) : string := Marshal_json (Manifest_json m).

Definition Digest (m : Manifest) : string := digest_prefix +:+ hex_sum (manifest_text m).

(** The digests the write entries of [m] record under [key]. *)
Definition written (m : Manifest) (key : string) : list string :=
  m_ResultDigest <$> filter (fun e => m_CacheKey e = key /\ m_Role e = RoleWrite) (mf_Entries m).

(** *** Comparing a record with the database *)

Section matching.
Context `{GoQuote}.

(** The rows as the message lists them; stats rows are numbered from 1. *)
Definition entry_row (e : ManifestEntry) : string :=
  "entry(task=" +:+ go_quote (m_TaskID e) +:+ " role=" +:+ m_Role e +:+ " key=" +:+ m_CacheKey e +:+ " digest=" +:+ m_ResultDigest e +:+
  " producer=" +:+ go_quote (m_ProducerJobID e) +:+ ")".

Definition stats_row (i : nat) (s : Stats) : string :=
  "stats#" +:+ Itoa (Z.of_nat i) +:+ "(mode=" +:+ s_Mode s +:+ " reason=" +:+ go_quote (s_Reason s) +:+ " tasks=" +:+ Itoa (s_Tasks s) +:+
  " hits=" +:+ Itoa (s_Hits s) +:+ " dispatched=" +:+ Itoa (s_Dispatched s) +:+ " models=" +:+ Marshal_json (models_json (s_Models s)) +:+ ")".

Definition describe (m : Manifest) : list string :=
  (entry_row <$> canonicalEntries (mf_Entries m)) ++ imap (fun i s => stats_row (S i) s) (canonicalStats (mf_Stats m)).

(** The rows that occur more often in [rows] than in [other]: the occurrences
    past the number [other] has, in order. *)
Fixpoint rows_diff (seen rows other : list string) : list string :=
  match rows with
  | [] => []
  | r :: rest =>
      let seen := seen ++ [r] in
      (if (occ r other <? occ r seen)%nat then [r] else []) ++ rows_diff seen rest other
  end.

Definition maxListedRows : nat := 20.

(** [list]: the first rows, and how many more there are. *)
Definition list_rows (rows : list string) : string :=
  if (length rows =? 0)%nat then "none"
  else if (maxListedRows <? length rows)%nat
  then join ", " (take maxListedRows rows) +:+ ", and " +:+ Itoa (Z.of_nat (length rows - maxListedRows)) +:+ " more"
  else join ", " rows.

Definition same_names (m1 m2 : Manifest) : Prop :=
  mf_TenantID m1 = mf_TenantID m2 /\ mf_JobID m1 = mf_JobID m2 /\ mf_Analyzer m1 = mf_Analyzer m2 /\ mf_Attempt m1 = mf_Attempt m2.
#[export] Instance same_names_dec m1 m2 : Decision (same_names m1 m2).
Proof. unfold same_names. apply _. Defined.

(** The names of the database's attempt, where they differ. *)
Definition names (expected stored : Manifest) : string :=
  if bool_decide (same_names expected stored) then ""
  else "; the database rows are of tenant " +:+ mf_TenantID stored +:+ " job " +:+ mf_JobID stored +:+ " analyzer " +:+ mf_Analyzer stored +:+
       " attempt " +:+ mf_Attempt stored.

(** The message of the error, which wraps [ErrCorrupt]. *)
Definition mismatch_text (expected stored : Manifest) (surplus lacking : list string) : string :=
  "cached result failed its integrity check: attempt " +:+ mf_Attempt expected +:+ " of job " +:+ mf_JobID expected +:+ " (analyzer " +:+
  mf_Analyzer expected +:+ "): the database does not hold what the stage recorded" +:+ names expected stored +:+ "; unexpected rows: " +:+
  list_rows surplus +:+ "; missing rows: " +:+ list_rows lacking.

Definition MatchRecord (expected stored : Manifest) : option string :=
  if bool_decide (Digest expected = Digest stored) then None
  else
    let exp := describe expected in
    let got := describe stored in
    Some (mismatch_text expected stored (rows_diff [] got exp) (rows_diff [] exp got)).
End matching.

(** ** Snapshots *)

Record Snapshot := mkSnapshot {
  sn_analyzer : string;
  sn_hits : gmap string Hit;
  sn_manifests : gmap AttemptRef Manifest;
}.

Definition NewSnapshot (analyzer : string) (hits : gmap string Hit) (manifests : gmap AttemptRef Manifest) : Snapshot :=
  mkSnapshot analyzer hits manifests.

Definition Keys (s : Snapshot) : list string := sort_strings ((map_to_list (sn_hits s)).*1).

(** Some signed attempt of the hit's producer is for another analyzer. *)
Definition foreign_attempt (s : Snapshot) (h : Hit) (signed : gmap AttemptRef string) : bool :=
  existsb (fun e => bool_decide (ref_JobID e.1 = hit_ProducerJobID h /\ ref_Analyzer e.1 <> sn_analyzer s))
    (map_to_list signed).

Definition producer_ref (s : Snapshot) (h : Hit) : AttemptRef :=
  mkRef (hit_ProducerJobID h) (sn_analyzer s) (hit_ProducerAttempt h).

Definition Verify (s : Snapshot) (key : string) (signed : gmap AttemptRef string) : result error Hit :=
  match sn_hits s !! key with
  | None => Err [ErrUntrusted]
  | Some h =>
      if foreign_attempt s h signed then Err [ErrInvalidEntry]
      else
        let ref := producer_ref s h in
        match signed !! ref with
        | None => Err [ErrUntrusted]
        | Some digest =>
            match sn_manifests s !! ref with
            | None => Err [ErrInvalidEntry]
            | Some m =>
                if negb (bool_decide (Digest m = digest)) then Err [ErrCorrupt]
                else if negb (bool_decide (ResultDigest (hit_Result h) ∈ written m key)) then Err [ErrCorrupt]
                else Ok h
            end
        end
  end.

(** ** Summaries *)

Record SignedAttempt := mkSigned { sa_Attempt : string; sa_Digest : string }.

Definition zero_stats : Stats := mkStats "" "" None 0 0 0.

Record Summary := mkSummary {
  su_Analyzer : string;
  su_Attempt : string;
  su_Attested : bool;
  su_Stats : Stats;
  su_ProducerJobIDs : list string;
}.

Definition summarize (a : string) (sa : SignedAttempt) (m : option Manifest) : Summary :=
  match m with
  | Some m =>
      if bool_decide (mf_Attempt m = sa_Attempt sa /\ Digest m = sa_Digest sa) then
        mkSummary a (sa_Attempt sa) true (default zero_stats (last (mf_Stats m)))
          (sort_strings (elements (list_to_set (C := gset string)
             (m_ProducerJobID <$> filter (fun e => m_Role e = RoleHit /\ m_ProducerJobID e <> mf_JobID m) (mf_Entries m)))))
      else mkSummary a (sa_Attempt sa) false zero_stats []
  | None => mkSummary a (sa_Attempt sa) false zero_stats []
  end.

Definition SummarizeSigned (manifests : gmap string Manifest) (signed : gmap string SignedAttempt) : list Summary :=
  omap (fun a => sa ← signed !! a; Some (summarize a sa (manifests !! a)))
    (sort_strings ((map_to_list signed).*1)).
