(* ===== verification/ResultcacheFacts.v ===== *)
(** What the result cache's keys, digests and verification guarantee. *)

From S2P Require Import Prelude Float64 Floatfmt Gostrings Sha256 Json Jsonread Errors Llm Resultcache.
Local Open Scope Z_scope.

(** * Keys *)

(** Go strings are shorter than [2 ^ 63] bytes. *)
Definition go_sized (s : string) : Prop := Z.of_nat (String.length s) < 2 ^ 63.

Lemma length_prefixed_unique f g r s :
  go_sized f -> go_sized g -> length_prefixed f ++ r = length_prefixed g ++ s -> f = g /\ r = s.
Proof.
  unfold go_sized, length_prefixed. intros Hf Hg. rewrite <- !app_assoc.
  intros [Hlen Heq]%app_inj_1; [|by rewrite !length_big_endian].
  apply big_endian_inj in Hlen; [|split; [lia|]; change (256 ^ Z.of_nat 8) with (2 ^ 64); lia..].
  apply app_inj_1 in Heq as [Hb ->]; [split; [by apply list_ascii_inj|done]|].
  unfold bytes_of. rewrite !length_list_ascii. lia.
Qed.

Lemma fields_unique l1 l2 :
  Forall go_sized l1 -> Forall go_sized l2 -> length l1 = length l2 ->
  (l1 ≫= length_prefixed) = (l2 ≫= length_prefixed) -> l1 = l2.
Proof.
  intros H1 H2 Hlen. revert l2 H2 Hlen. induction H1 as [|f l1 Hf _ IH]; intros [|g l2] H2 Hlen; try done.
  apply Forall_cons in H2 as [Hg H2]. csimpl. intros [-> Heq]%length_prefixed_unique; [|done|done].
  f_equal. by apply IH; [|injection Hlen|].
Qed.

(** Same request up to what the key covers of it: every field, with the
    temperature as it is printed. *)
Definition same_request (a1 : string) (id1 : Identity) (m1 : ModelIdentity) (a2 : string) (id2 : Identity) (m2 : ModelIdentity) : Prop :=
  a1 = a2 /\ TaskType id1 = TaskType id2 /\ ModelAlias id1 = ModelAlias id2 /\
  FormatFloat_g <$> Temperature id1 = FormatFloat_g <$> Temperature id2 /\
  MaxTokens id1 = MaxTokens id2 /\ Sample id1 = Sample id2 /\ ContentHash id1 = ContentHash id2 /\ m1 = m2.

Lemma temperature_text_eq id1 id2 :
  temperature_text id1 = temperature_text id2 <-> FormatFloat_g <$> Temperature id1 = FormatFloat_g <$> Temperature id2.
Proof.
  unfold temperature_text. destruct (Temperature id1) as [x|], (Temperature id2) as [y|]; cbn; split; try done; try congruence.
  - intros H. by destruct (FormatFloat_g_nonempty x).
  - intros H. by destruct (FormatFloat_g_nonempty y).
Qed.

Lemma key_fields_eq a1 id1 m1 a2 id2 m2 :
  key_fields a1 id1 m1 = key_fields a2 id2 m2 <-> same_request a1 id1 m1 a2 id2 m2.
Proof.
  unfold same_request. rewrite <- temperature_text_eq.
  destruct id1, m1, id2, m2; unfold key_fields; cbn. split.
  - intros Heq. simplify_eq. split_and!; try done; by apply (inj pretty.pretty).
  - intros (-> & -> & -> & -> & -> & -> & -> & [= -> -> ->]). done.
Qed.

(** Two requests share a cache key exactly when they are the same request
    to the same model (analyzer, task type, alias, printed temperature, token
    limit, sample, content, observed model, deployment and revision), unless
    the two encodings are a SHA-256 collision. *)
Theorem key_identifies_request a1 id1 m1 a2 id2 m2 :
  Forall go_sized (key_fields a1 id1 m1) -> Forall go_sized (key_fields a2 id2 m2) ->
  Key a1 id1 m1 = Key a2 id2 m2 <->
  same_request a1 id1 m1 a2 id2 m2 \/ collides (encodeKey a1 id1 m1) (encodeKey a2 id2 m2).
Proof.
  intros H1 H2. rewrite <- key_fields_eq. unfold Key. split.
  - intros [Heq|Hc]%hex_sum_eq; [left|by right]. apply string_of_inj in Heq. by apply fields_unique in Heq.
  - intros [Heq|[_ Heq]]; unfold hex_sum; [unfold encodeKey; by rewrite Heq|by rewrite Heq].
Qed.

Lemma key_identifies_request_witness :
  let id := mkIdentity "classify" "fast" (Some (dec false 7 (-1))) 512 0 "h" in
  let m := mkModelIdentity "gpt" "d1" "" in
  Key "classify" id m = Key "classify" id m <->
  same_request "classify" id m "classify" id m \/ collides (encodeKey "classify" id m) (encodeKey "classify" id m).
Proof.
  intros id m. apply (key_identifies_request "classify" id m "classify" id m);
    unfold id, m; repeat constructor; unfold go_sized; vm_compute; reflexivity.
Defined.

Lemma forallb_hex_lower s : forallb hex_lower (bytes_of (EncodeToString s)) = true.
Proof.
  unfold EncodeToString, bytes_of, string_of. rewrite String.list_ascii_of_string_of_list_ascii.
  induction (String.list_ascii_of_string s) as [|c l IH]; [done|]. csimpl.
  pose proof (byte_val_range c).
  assert (forall n, 0 <= n < 16 -> hex_lower (hex_digit n) = true) as Hd.
  { intros n Hn. unfold hex_lower. rewrite orb_true_iff, !in_range_spec. by apply hex_digit_lower. }
  rewrite !Hd, IH; [done|apply Z.mod_pos_bound; lia|].
  split; [apply Z.div_pos; lia|apply Z.div_lt_upper_bound; lia].
Qed.

Lemma validKey_hex_sum x : validKey (hex_sum x) = true.
Proof.
  unfold validKey, hex_sum. rewrite forallb_hex_lower, andb_true_r. apply Nat.eqb_eq.
  unfold EncodeToString, bytes_of, string_of.
  rewrite <- length_list_ascii, String.list_ascii_of_string_of_list_ascii.
  rewrite length_bind_const with (k := 2%nat); [|done]. rewrite length_list_ascii, length_Sum256. done.
Qed.

Lemma validDigest_hex_sum x : validDigest (digest_prefix +:+ hex_sum x) = true.
Proof.
  unfold validDigest, bytes_of. rewrite list_ascii_app.
  assert (forall p l, strip_prefix p (p ++ l) = Some l) as ->.
  { induction p as [|c p IH]; intros l; cbn; [done|]. by rewrite bool_decide_eq_true_2. }
  unfold string_of. rewrite String.string_of_list_ascii_of_string. apply validKey_hex_sum.
Qed.

(** * The canonical order *)

Lemma strings_Compare_refl a : strings_Compare a a = 0.
Proof.
  unfold strings_Compare. destruct (String.compare a a) eqn:E; try done;
    pose proof (String.compare_antisym a a) as Ha; rewrite E in Ha; done.
Qed.

Lemma strings_Compare_eq a b : strings_Compare a b = 0 -> a = b.
Proof. unfold strings_Compare. destruct (String.compare a b) eqn:E; try done. intros _. by apply String.compare_eq_iff. Qed.

Lemma strings_Compare_opp a b : strings_Compare b a = - strings_Compare a b.
Proof. unfold strings_Compare. rewrite String.compare_antisym. by destruct (String.compare a b). Qed.

Lemma strings_Compare_le a b : strings_Compare a b <= 0 <-> String.le a b.
Proof.
  unfold strings_Compare, String.le, String.leb. destruct (String.compare a b); cbn; split; try done; lia.
Qed.

Lemma strings_Compare_trans a b c :
  strings_Compare a b <= 0 -> strings_Compare b c <= 0 -> strings_Compare a c <= 0.
Proof. rewrite !strings_Compare_le. intros ??. by trans b. Qed.

Abbreviation lex l1 l2 := (cmp_Or (zip_with strings_Compare l1 l2)).

Lemma lex_opp l1 l2 : lex l2 l1 = - lex l1 l2.
Proof.
  revert l2. induction l1 as [|a l1 IH]; intros [|b l2]; try done. cbn.
  rewrite (strings_Compare_opp a b). destruct (Z.eqb_spec (strings_Compare a b) 0) as [->|Hne]; [apply IH|].
  destruct (Z.eqb_spec (- strings_Compare a b) 0); [lia|done].
Qed.

Lemma lex_eq l1 l2 : length l1 = length l2 -> lex l1 l2 = 0 -> l1 = l2.
Proof.
  revert l2. induction l1 as [|a l1 IH]; intros [|b l2] Hlen; try done. cbn.
  destruct (Z.eqb_spec (strings_Compare a b) 0) as [->%strings_Compare_eq|Hne]; [|done].
  intros Hl. f_equal. by apply IH; [injection Hlen|].
Qed.

Lemma lex_trans l1 l2 l3 :
  length l1 = length l2 -> length l2 = length l3 -> lex l1 l2 <= 0 -> lex l2 l3 <= 0 -> lex l1 l3 <= 0.
Proof.
  revert l2 l3. induction l1 as [|a l1 IH]; intros [|b l2] [|c l3] H1 H2; try done. cbn.
  injection H1 as H1. injection H2 as H2.
  pose proof (strings_Compare_trans a b c) as Ht.
  destruct (Z.eqb_spec (strings_Compare a b) 0) as [->%strings_Compare_eq|Hab].
  { destruct (Z.eqb_spec (strings_Compare b c) 0); [by apply IH|done]. }
  destruct (Z.eqb_spec (strings_Compare b c) 0) as [->%strings_Compare_eq|Hbc].
  { by destruct (Z.eqb_spec (strings_Compare a c) 0). }
  intros Hlt1 Hlt2. destruct (Z.eqb_spec (strings_Compare a c) 0) as [->%strings_Compare_eq|Hac]; [|by apply Ht].
  rewrite strings_Compare_opp in Hlt2. lia.
Qed.

Lemma entry_fields_inj a b : entry_fields a = entry_fields b -> a = b.
Proof. by destruct a, b; intros [= -> -> -> -> ->]. Qed.

#[export] Instance entry_le_total : Total entry_le.
Proof.
  intros a b. unfold entry_le, CompareEntries. rewrite (lex_opp (entry_fields a)). lia.
Qed.
#[export] Instance entry_le_trans : Transitive entry_le.
Proof. intros a b c. unfold entry_le, CompareEntries. by apply lex_trans. Qed.
#[export] Instance entry_le_antisymm : AntiSymm (=) entry_le.
Proof.
  intros a b. unfold entry_le, CompareEntries. rewrite (lex_opp (entry_fields a)). intros H1 H2.
  apply entry_fields_inj, lex_eq; [done|lia].
Qed.

Lemma canonicalEntries_perm l : canonicalEntries l ≡ₚ l.
Proof. apply merge_sort_Permutation. Qed.

Lemma canonicalEntries_unique l1 l2 : l1 ≡ₚ l2 <-> canonicalEntries l1 = canonicalEntries l2.
Proof.
  split; [|intros Heq; by rewrite <- (canonicalEntries_perm l1), Heq, canonicalEntries_perm].
  intros Hp. apply (StronglySorted_unique entry_le).
  - apply (StronglySorted_merge_sort entry_le).
  - apply (StronglySorted_merge_sort entry_le).
  - by rewrite !canonicalEntries_perm.
Qed.

(** * Digests *)

(** The same record: the same attempt with the same entries in any order and
    the same stats rows in order, a nil model map counting as an empty one. *)
Definition same_record (m1 m2 : Manifest) : Prop :=
  mf_TenantID m1 = mf_TenantID m2 /\ mf_JobID m1 = mf_JobID m2 /\ mf_Analyzer m1 = mf_Analyzer m2 /\
  mf_Attempt m1 = mf_Attempt m2 /\ mf_Entries m1 ≡ₚ mf_Entries m2 /\
  canonicalStats (mf_Stats m1) = canonicalStats (mf_Stats m2).

(** Every string of the record is valid UTF-8, as the database stores only. *)
Definition manifest_utf8 (m : Manifest) : bool := json_utf8 (Manifest_json m).

#[export] Instance ManifestEntry_json_inj : Inj (=) (=) ManifestEntry_json.
Proof. by intros [] [] [= -> -> -> -> ->]. Qed.

Lemma ModelIdentity_json_inj : Inj (=) (=) ModelIdentity_json.
Proof. by intros [] [] [= -> -> ->]. Qed.

Lemma models_json_inj (m1 m2 : gmap string ModelIdentity) : models_json (Some m1) = models_json (Some m2) -> m1 = m2.
Proof.
  intros [= Heq]. apply map_eq. intros k.
  assert (forall m : gmap string ModelIdentity, forall v,
    (k, ModelIdentity_json v) ∈ omap (fun k => m0 ← m !! k; Some (k, ModelIdentity_json m0)) (sort_strings (map_to_list m).*1) <->
    m !! k = Some v) as Hel.
  { intros m v. rewrite list_elem_of_omap. split.
    - intros (k' & _ & Hk). destruct (m !! k') as [v'|] eqn:Hm; [|done].
      destruct v, v'. cbn in Hk. by injection Hk as -> -> -> ->.
    - intros Hv. exists k. rewrite Hv. split; [|done]. apply elem_of_sort_strings, list_elem_of_fmap.
      exists (k, v). split; [done|]. by apply elem_of_map_to_list. }
  apply option_eq. intros v. rewrite <- !Hel, Heq. done.
Qed.

Lemma Stats_json_inj s1 s2 :
  Stats_json (canonical_stats s1) = Stats_json (canonical_stats s2) -> canonical_stats s1 = canonical_stats s2.
Proof.
  unfold canonical_stats, Stats_json. cbn [s_Mode s_Reason s_Models s_Tasks s_Hits s_Dispatched].
  generalize (default ∅ (s_Models s1)) (default ∅ (s_Models s2)). intros m1 m2 Heq.
  assert (models_json (Some m1) = models_json (Some m2)) as Hm by (injection Heq; cbn; congruence).
  apply models_json_inj in Hm as ->. injection Heq as -> -> -> -> ->. done.
Qed.

Lemma canonicalStats_json_inj l1 l2 :
  Stats_json <$> canonicalStats l1 = Stats_json <$> canonicalStats l2 -> canonicalStats l1 = canonicalStats l2.
Proof.
  revert l2. induction l1 as [|s l1 IH]; intros [|t l2]; try done. cbn [canonicalStats fmap list_fmap].
  intros [= Hs Ht]. f_equal; [|by apply IH]. apply Stats_json_inj. unfold Stats_json. cbn in *. congruence.
Qed.

Lemma Manifest_json_eq m1 m2 : Manifest_json m1 = Manifest_json m2 <-> same_record m1 m2.
Proof.
  unfold same_record. rewrite canonicalEntries_unique. split.
  - intros [= H1 H2 H3 H4 He%(inj (R := (=)) (fmap ManifestEntry_json)) Hs%canonicalStats_json_inj]. by split_and!.
  - unfold Manifest_json. intros (-> & -> & -> & -> & -> & ->). done.
Qed.

Lemma string_app_inv p s t : p +:+ s = p +:+ t -> s = t.
Proof. induction p as [|c p IH]; [done|]. intros [= Heq]. by apply IH. Qed.

Lemma same_record_Digest m1 m2 : same_record m1 m2 -> Digest m1 = Digest m2.
Proof. intros Hs%Manifest_json_eq. unfold Digest, manifest_text. by rewrite Hs. Qed.

Lemma Digest_binds m1 m2 :
  manifest_utf8 m1 = true -> manifest_utf8 m2 = true -> Digest m1 = Digest m2 ->
  same_record m1 m2 \/ collides (manifest_text m1) (manifest_text m2).
Proof.
  intros H1 H2 [Heq|Hc]%string_app_inv%hex_sum_eq; [left|by right].
  by apply Manifest_json_eq, Marshal_inj.
Qed.

Lemma ResultDigest_binds r1 r2 : ResultDigest r1 = ResultDigest r2 -> r1 = r2 \/ collides r1 r2.
Proof. by intros Heq%string_app_inv%hex_sum_eq. Qed.

(** * Comparing a record with the database *)

Lemma rows_diff_occ r seen rows other :
  occ r (rows_diff seen rows other) = ((occ r seen + occ r rows - occ r other) - (occ r seen - occ r other))%nat.
Proof.
  revert seen. induction rows as [|x rows IH]; intros seen; cbn [rows_diff].
  - rewrite occ_nil. lia.
  - rewrite occ_app, IH, occ_cons.
    assert (forall y, occ y (seen ++ [x]) = (occ y seen + if decide (y = x) then 1 else 0)%nat) as Hs
      by (intros y; rewrite occ_app, occ_cons, occ_nil; case_decide; lia).
    rewrite !Hs. destruct (Nat.ltb_spec (occ x other) (occ x seen + (if decide (x = x) then 1 else 0))) as [Hlt|Hge];
      rewrite ?occ_cons, ?occ_nil; rewrite decide_True in * by done; case_decide; subst; lia.
Qed.

(** ** The listed rows determine the record *)

(** The rows of a record, before they are formatted. *)
Inductive listed_row :=
| LEntry (e : ManifestEntry)
| LStats (i : nat) (s : Stats).

#[export] Instance listed_row_eq_dec : EqDecision listed_row.
Proof. solve_decision. Defined.

Definition record_rows (m : Manifest) : list listed_row :=
  (LEntry <$> canonicalEntries (mf_Entries m)) ++ imap (fun i s => LStats (S i) s) (canonicalStats (mf_Stats m)).

Lemma record_rows_entry m e : occ (LEntry e) (record_rows m) = occ e (canonicalEntries (mf_Entries m)).
Proof.
  unfold record_rows. rewrite occ_app. generalize (canonicalEntries (mf_Entries m)) as l.
  assert (occ (LEntry e) (imap (fun i s => LStats (S i) s) (canonicalStats (mf_Stats m))) = 0%nat) as ->.
  { apply occ_zero. by intros (? & ? & ? & ?)%elem_of_lookup_imap. }
  intros l. rewrite Nat.add_0_r. induction l as [|x l IH]; [done|]. csimpl. rewrite !occ_cons, IH.
  by repeat case_decide; simplify_eq.
Qed.

Lemma record_rows_stats m i s : LStats (S i) s ∈ record_rows m <-> canonicalStats (mf_Stats m) !! i = Some s.
Proof.
  unfold record_rows. rewrite elem_of_app, list_elem_of_fmap, elem_of_lookup_imap. split.
  - by intros [(? & ? & _)|(j & t & [= -> ->] & Hj)].
  - intros Hi. right. by exists i, s.
Qed.

Lemma record_rows_Permutation m1 m2 :
  record_rows m1 ≡ₚ record_rows m2 ->
  mf_Entries m1 ≡ₚ mf_Entries m2 /\ canonicalStats (mf_Stats m1) = canonicalStats (mf_Stats m2).
Proof.
  intros Hp. split.
  - rewrite <- (canonicalEntries_perm (mf_Entries m1)), <- (canonicalEntries_perm (mf_Entries m2)).
    apply occ_Permutation. intros e. rewrite <- !record_rows_entry. by apply occ_perm.
  - apply list_eq. intros i. apply option_eq. intros s. rewrite <- !record_rows_stats. by rewrite Hp.
Qed.

(** A text without the character [c]. *)
Definition free (c : ascii) (s : string) : bool := forallb (fun d => negb (bool_decide (d = c))) (bytes_of s).

Lemma upto c a b x y : free c a = true -> free c b = true -> a +:+ String c x = b +:+ String c y -> a = b /\ x = y.
Proof.
  revert b. induction a as [|d a IH]; intros [|e b]; cbn; rewrite ?andb_true_iff, ?negb_true_iff, ?bool_decide_eq_false.
  - by intros _ _ [= ->].
  - intros _ [He _] [= ->]. done.
  - intros [Hd _] _ [= ->]. done.
  - intros [_ Ha] [_ Hb] [= -> Heq]. by destruct (IH b Ha Hb Heq) as [-> ->].
Qed.

Lemma Itoa_free c n : number_char c = false -> free c (Itoa n) = true.
Proof.
  intros Hc. apply forallb_forall. intros d Hd%list_elem_of_In. apply negb_true_iff, bool_decide_eq_false. intros ->.
  pose proof (Itoa_chars n) as Hn. rewrite Forall_forall in Hn. apply Hn in Hd. congruence.
Qed.

Lemma Itoa_inj n m : Itoa n = Itoa m -> n = m.
Proof. intros Heq. by apply (Itoa_unique n m [] []); [..|rewrite Heq]. Qed.

Section matching.
Context `{GoQuote}.

(** Quoted texts end where they say: a Go string literal ends at its first
    quotation mark that is not escaped. *)
Definition self_delimiting : Prop := forall s t x y, go_quote s +:+ x = go_quote t +:+ y -> s = t /\ x = y.

Definition row_text (r : listed_row) : string := match r with LEntry e => entry_row e | LStats i s => stats_row i s end.

Lemma describe_rows m : describe m = row_text <$> record_rows m.
Proof. unfold describe, record_rows. rewrite fmap_app, <- list_fmap_compose, fmap_imap. done. Qed.

(** The fields that are not quoted have no spaces, as the table's checks say. *)
Definition plain_row (r : listed_row) : bool :=
  match r with
  | LEntry e => free " " (m_Role e) && free " " (m_CacheKey e) && free " " (m_ResultDigest e)
  | LStats _ s => free " " (s_Mode s) && json_utf8 (models_json (s_Models s))
  end.
Definition plain_record (m : Manifest) : bool := forallb plain_row (record_rows m).

Lemma entry_row_inj e e' :
  self_delimiting -> plain_row (LEntry e) = true -> plain_row (LEntry e') = true -> entry_row e = entry_row e' -> e = e'.
Proof.
  intros Hq. cbn [plain_row]. rewrite !andb_true_iff. intros [[Hr Hk] Hd] [[Hr' Hk'] Hd']. unfold entry_row.
  intros Heq%string_app_inv. apply Hq in Heq as [Ht Heq]. apply string_app_inv in Heq.
  apply (upto " " _ _ ("key=" +:+ _) ("key=" +:+ _) Hr Hr') in Heq as [Hro Heq]. apply string_app_inv in Heq.
  apply (upto " " _ _ ("digest=" +:+ _) ("digest=" +:+ _) Hk Hk') in Heq as [Hke Heq]. apply string_app_inv in Heq.
  apply (upto " " _ _ ("producer=" +:+ _) ("producer=" +:+ _) Hd Hd') in Heq as [Hdi Heq]. apply string_app_inv in Heq.
  apply Hq in Heq as [Hp _]. destruct e, e'. cbn in *. congruence.
Qed.

Lemma app_last a b c : a +:+ String c "" = b +:+ String c "" -> a = b.
Proof.
  revert b. induction a as [|d a IH]; intros [|e b]; cbn; [done|intros [= -> Heq]; by destruct b|intros [= -> Heq]; by destruct a|].
  intros [= -> Heq]. by rewrite (IH b).
Qed.

Lemma stats_row_inj i i' m1 m2 s s' :
  canonicalStats m1 !! i = Some s -> canonicalStats m2 !! i' = Some s' ->
  self_delimiting -> plain_row (LStats (S i) s) = true -> plain_row (LStats (S i') s') = true -> stats_row (S i) s = stats_row (S i') s' -> i = i' /\ s = s'.
Proof.
  intros Hs Hs' Hq. cbn [plain_row]. rewrite !andb_true_iff. intros [Hm Hu] [Hm' Hu']. unfold stats_row.
  assert (forall n, free " " (Itoa n) = true) as Hn by (intros n; by apply Itoa_free).
  assert (forall n, free "(" (Itoa n) = true) as Hn' by (intros n; by apply Itoa_free).
  intros Heq%string_app_inv. apply (upto "(" _ _ ("mode=" +:+ _) ("mode=" +:+ _) (Hn' _) (Hn' _)) in Heq as [Hi%Itoa_inj Heq]. apply string_app_inv in Heq.
  apply (upto " " _ _ ("reason=" +:+ _) ("reason=" +:+ _) Hm Hm') in Heq as [Hmo Heq]. apply string_app_inv in Heq.
  apply Hq in Heq as [Hre Heq]. apply string_app_inv in Heq.
  apply (upto " " _ _ ("hits=" +:+ _) ("hits=" +:+ _) (Hn _) (Hn _)) in Heq as [Hta%Itoa_inj Heq]. apply string_app_inv in Heq.
  apply (upto " " _ _ ("dispatched=" +:+ _) ("dispatched=" +:+ _) (Hn _) (Hn _)) in Heq as [Hhi%Itoa_inj Heq]. apply string_app_inv in Heq.
  apply (upto " " _ _ ("models=" +:+ _) ("models=" +:+ _) (Hn _) (Hn _)) in Heq as [Hdi%Itoa_inj Heq]. apply string_app_inv in Heq.
  apply app_last, Marshal_inj in Heq; [|done..]. split; [lia|].
  apply list_lookup_fmap_Some in Hs as (s0 & -> & _), Hs' as (s1 & -> & _). cbn in *. apply models_json_inj in Heq. unfold canonical_stats. congruence.
Qed.

Lemma row_text_inj m1 m2 r r' :
  self_delimiting -> plain_record m1 = true -> plain_record m2 = true -> r ∈ record_rows m1 -> r' ∈ record_rows m2 -> row_text r = row_text r' -> r = r'.
Proof.
  unfold plain_record. rewrite !forallb_forall. intros Hq Hp1 Hp2 Hr Hr'.
  pose proof (Hp1 r ltac:(by apply list_elem_of_In)) as H1. pose proof (Hp2 r' ltac:(by apply list_elem_of_In)) as H2.
  unfold record_rows in Hr, Hr'. rewrite elem_of_app, list_elem_of_fmap, elem_of_lookup_imap in Hr, Hr'.
  destruct Hr as [(e & -> & _)|(i & s & -> & Hs)], Hr' as [(e' & -> & _)|(i' & s' & -> & Hs')]; cbn [row_text]; [|done..|].
  - intros Heq. f_equal. by apply entry_row_inj.
  - intros Heq. by destruct (stats_row_inj _ _ _ _ _ _ Hs Hs' Hq H1 H2 Heq) as [-> ->].
Qed.

Lemma occ_row_text m1 m2 r :
  self_delimiting -> plain_record m1 = true -> plain_record m2 = true -> r ∈ record_rows m1 ->
  occ (row_text r) (describe m2) = occ r (record_rows m2).
Proof.
  intros Hq H1 H2 Hr. rewrite describe_rows. pose proof (row_text_inj m1 m2) as Hinj. unfold plain_record in *.
  assert (forall l, (forall x, x ∈ l -> x ∈ record_rows m2) -> occ (row_text r) (row_text <$> l) = occ r l) as Hocc; [|by apply Hocc].
  induction l as [|x l IH]; intros Hl; [done|]. csimpl. rewrite !occ_cons, IH by (intros y Hy; apply Hl; by right).
  pose proof (Hl x ltac:(left)) as Hx. f_equal. destruct (decide (r = x)) as [->|Hne]; [by rewrite decide_True|].
  rewrite decide_False; [done|]. intros Heq. apply Hne. by apply (Hinj r x).
Qed.

Lemma describe_Permutation m1 m2 :
  self_delimiting -> plain_record m1 = true -> plain_record m2 = true -> describe m1 ≡ₚ describe m2 ->
  mf_Entries m1 ≡ₚ mf_Entries m2 /\ canonicalStats (mf_Stats m1) = canonicalStats (mf_Stats m2).
Proof.
  intros Hq H1 H2 Hp. apply record_rows_Permutation, occ_Permutation. intros r.
  destruct (decide (r ∈ record_rows m1)) as [Hr|Hr].
  - rewrite <- (occ_row_text m1 m1 r), <- (occ_row_text m1 m2 r) by done. by apply occ_perm.
  - rewrite (proj2 (occ_zero r _) Hr). symmetry. apply occ_zero. intros Hr'.
    assert (row_text r ∈ describe m1) as Hin by (rewrite Hp, describe_rows; by apply list_elem_of_fmap_2).
    apply occ_pos in Hin. rewrite (occ_row_text m2 m1 r), occ_pos in Hin by done. done.
Qed.

Lemma rows_diff_sublist seen rows other : rows_diff seen rows other `sublist_of` rows.
Proof.
  revert seen. induction rows as [|r rows IH]; intros seen; cbn [rows_diff]; [done|]. destruct (_ <? _)%nat; cbn [app]; [apply sublist_skip, IH|apply sublist_cons, IH].
Qed.

(** C27. [MatchRecord] accepts the database's rows exactly when they are the
    attempt's record: the same tenant, job, analyzer and attempt, the same
    entries in any order and the same stats in order (or the two records are
    a SHA-256 collision). When it refuses, its message lists the surplus of
    each side: of the formatted rows, those that occur more often there than on
    the other side, that many times more, in order; the first twenty of each
    list are written out and the rest counted. Unless a name differs, one list
    is not empty (for rows the table's checks allow, and a %q that delimits
    what it quotes). *)
Theorem MatchRecord_correct expected stored :
  manifest_utf8 expected = true -> manifest_utf8 stored = true ->
  (MatchRecord expected stored = None <->
     same_record expected stored \/ collides (manifest_text expected) (manifest_text stored)) /\
  forall text, MatchRecord expected stored = Some text ->
    exists surplus lacking, text = mismatch_text expected stored surplus lacking /\
      surplus `sublist_of` describe stored /\ lacking `sublist_of` describe expected /\
      (forall r, occ r surplus = (occ r (describe stored) - occ r (describe expected))%nat) /\
      (forall r, occ r lacking = (occ r (describe expected) - occ r (describe stored))%nat) /\
      (self_delimiting -> plain_record expected = true -> plain_record stored = true -> same_names expected stored ->
       surplus <> [] \/ lacking <> []).
Proof.
  intros He Hs. unfold MatchRecord. split.
  { case_bool_decide as Hd; split; try done.
    - intros _. by apply Digest_binds.
    - intros [Hsame%same_record_Digest|[_ Hc]]; [done|]. destruct Hd. unfold Digest, hex_sum. by rewrite Hc. }
  intros text. case_bool_decide as Hd; [done|]. intros [= <-]. cbv zeta.
  assert (forall r a b, occ r (rows_diff [] a b) = (occ r a - occ r b)%nat) as Hocc
    by (intros; rewrite rows_diff_occ, occ_nil; lia).
  eexists _, _. split; [reflexivity|]. split_and!; [apply rows_diff_sublist..|intros; apply Hocc|intros; apply Hocc|].
  intros Hq H1 H2 (Ht & Hj & Ha & Hat).
  destruct (rows_diff [] (describe stored) (describe expected)) eqn:E1; [|by left].
  destruct (rows_diff [] (describe expected) (describe stored)) eqn:E2; [|by right].
  destruct Hd. apply same_record_Digest. assert (describe expected ≡ₚ describe stored) as Hp.
  { apply occ_Permutation. intros r. pose proof (Hocc r (describe stored) (describe expected)) as Ho1.
    pose proof (Hocc r (describe expected) (describe stored)) as Ho2. rewrite E1, E2, !occ_nil in *. lia. }
  destruct (describe_Permutation _ _ Hq H1 H2 Hp). by split_and!.
Qed.
End matching.

(** * Verification of a cached row *)

Lemma Verify_Ok s key signed h :
  Verify s key signed = Ok h <->
  sn_hits s !! key = Some h /\ foreign_attempt s h signed = false /\
  exists m, signed !! producer_ref s h = Some (Digest m) /\ sn_manifests s !! producer_ref s h = Some m /\
    ResultDigest (hit_Result h) ∈ written m key.
Proof.
  unfold Verify. split.
  - destruct (sn_hits s !! key) as [h'|]; [|done]. destruct (foreign_attempt s h' signed) eqn:Hf; [done|].
    destruct (signed !! producer_ref s h') as [d|] eqn:Hsg; [|done].
    destruct (sn_manifests s !! producer_ref s h') as [m|] eqn:Hm; [|done].
    case_bool_decide as Hd; [|done]. case_bool_decide as Hw; [|done]. cbn. intros [= <-].
    split_and!; [done..|]. exists m. by subst d.
  - intros (-> & -> & m & -> & -> & Hw). by rewrite !bool_decide_eq_true_2.
Qed.

Lemma elem_of_written m key d :
  d ∈ written m key <->
  exists e, e ∈ mf_Entries m /\ m_Role e = RoleWrite /\ m_CacheKey e = key /\ m_ResultDigest e = d.
Proof.
  unfold written. rewrite list_elem_of_fmap. setoid_rewrite list_elem_of_filter. naive_solver.
Qed.

(** The results a sealed run stored: [stored] holds a key and bytes for every
    write entry of its record. *)
Definition records_writes (m : Manifest) (stored : list (string * string)) : Prop :=
  forall e, e ∈ mf_Entries m -> m_Role e = RoleWrite ->
    exists data, (m_CacheKey e, data) ∈ stored /\ m_ResultDigest e = ResultDigest data.

Lemma Verify_authentic s key signed h m m0 stored :
  Verify s key signed = Ok h ->
  signed !! producer_ref s h = Some (Digest m0) -> sn_manifests s !! producer_ref s h = Some m ->
  manifest_utf8 m0 = true -> manifest_utf8 m = true -> records_writes m0 stored ->
  (key, hit_Result h) ∈ stored \/
  collides (manifest_text m0) (manifest_text m) \/
  exists data, (key, data) ∈ stored /\ collides (hit_Result h) data.
Proof.
  intros (_ & _ & m' & Hs & Hm & Hw)%Verify_Ok Hs0 Hm' Hu0 Hu Hrec.
  assert (m' = m) as -> by congruence. assert (Digest m0 = Digest m) as Hd by congruence.
  apply Digest_binds in Hd as [(_ & _ & _ & _ & Hp & _)|Hc]; [|by right; left|done|done].
  apply elem_of_written in Hw as (e & He & Hrole & Hkey & Hdig).
  rewrite <- Hp in He. destruct (Hrec e He Hrole) as (data & Hin & Hdd).
  rewrite Hkey in Hin. rewrite Hdig in Hdd.
  apply ResultDigest_binds in Hdd as [->|Hc]; [by left|]. right. right. by exists data.
Qed.

(** Integrity of reuse: whatever rows the snapshot holds, a result that
    [Verify] returns for [key] is, byte for byte, one the signed run stored
    under [key]. [m0] is the record the producing run had signed and [stored]
    what it stored; the alternatives are SHA-256 collisions of the record or
    of the result itself. *)
Theorem verified_result_is_authentic s key signed h m m0 stored :
  Verify s key signed = Ok h ->
  signed !! producer_ref s h = Some (Digest m0) -> sn_manifests s !! producer_ref s h = Some m ->
  manifest_utf8 m0 = true -> manifest_utf8 m = true -> records_writes m0 stored ->
  (key, hit_Result h) ∈ stored \/
  collides (manifest_text m0) (manifest_text m) \/
  exists data, (key, data) ∈ stored /\ collides (hit_Result h) data.
Proof. apply Verify_authentic. Qed.

Definition sample_run : Manifest :=
  mkManifest "acme" "job-1" "classify" "a1"
    [mkManifestEntry "t1" RoleWrite "k" (ResultDigest "{}") ""] [].

Definition sample_snapshot : Snapshot :=
  NewSnapshot "classify" {[ "k" := mkHit "k" "{}" "gpt" "job-1" "a1" ]}
    {[ mkRef "job-1" "classify" "a1" := sample_run ]}.

Lemma verified_result_is_authentic_witness :
  let h := mkHit "k" "{}" "gpt" "job-1" "a1" in
  let stored := [("k", "{}")] in
  ("k", hit_Result h) ∈ stored \/ collides (manifest_text sample_run) (manifest_text sample_run) \/
  exists data, ("k", data) ∈ stored /\ collides (hit_Result h) data.
Proof.
  apply (verified_result_is_authentic sample_snapshot "k" {[ mkRef "job-1" "classify" "a1" := Digest sample_run ]}
           (mkHit "k" "{}" "gpt" "job-1" "a1") sample_run sample_run [("k", "{}")]).
  - vm_compute. reflexivity.
  - vm_compute. reflexivity.
  - vm_compute. reflexivity.
  - vm_compute. reflexivity.
  - vm_compute. reflexivity.
  - intros e [->|[]%not_elem_of_nil]%elem_of_cons _. exists "{}". split; [by left|done].
Defined.

(** A %q that escapes quotation marks and backslashes. *)
Definition quotation : ascii := Ascii false true false false false true false false.
Definition backslash : ascii := Ascii false false true true true false true false.
Fixpoint escape_marks (s : string) : string :=
  match s with
  | "" => String quotation ""
  | String c s => if bool_decide (c = quotation \/ c = backslash) then String backslash (String c (escape_marks s)) else String c (escape_marks s)
  end.
#[local] Instance marks_quote : GoQuote := {| go_quote s := String quotation (escape_marks s) |}.

Lemma escape_marks_delimits s t x y : escape_marks s +:+ x = escape_marks t +:+ y -> s = t /\ x = y.
Proof.
  revert t. induction s as [|c s IH]; intros [|d t]; cbn [escape_marks]; try case_bool_decide as Hc; try case_bool_decide as Hd; simpl.
  - intros [= Heq]. by split.
  - intros [=].
  - intros [= <- _]. destruct Hc. by left.
  - intros [=].
  - intros [= -> _]. destruct Hc. by left.
  - intros [= -> Heq]. by destruct (IH t Heq) as [-> ->].
  - intros [= <- _]. destruct Hd. by right.
  - intros [= -> _]. destruct Hc. by right.
  - intros [= -> Heq]. by destruct (IH t Heq) as [-> ->].
Qed.

Lemma marks_delimit : self_delimiting.
Proof. intros s t x y [= Heq]. by apply escape_marks_delimits. Qed.

(** Twenty-two rows the stage did not record, and without the one it did. *)
Definition forged_run : Manifest :=
  mkManifest "acme" "job-1" "classify" "a1" ((fun i => mkManifestEntry (Itoa (Z.of_nat i)) "hit" "k" "d" "j") <$> seq 1 22) [].

Lemma MatchRecord_correct_witness :
  (MatchRecord sample_run sample_run = None <->
     same_record sample_run sample_run \/ collides (manifest_text sample_run) (manifest_text sample_run)) /\
  exists surplus lacking, MatchRecord sample_run forged_run = Some (mismatch_text sample_run forged_run surplus lacking) /\
    surplus `sublist_of` describe forged_run /\
    (forall r, occ r surplus = (occ r (describe forged_run) - occ r (describe sample_run))%nat) /\
    (forall r, occ r lacking = (occ r (describe sample_run) - occ r (describe forged_run))%nat) /\
    (surplus <> [] \/ lacking <> []).
Proof.
  split; [apply (MatchRecord_correct sample_run sample_run); vm_compute; reflexivity|].
  destruct (MatchRecord sample_run forged_run) as [text|] eqn:Hm; [|exfalso; vm_compute in Hm; discriminate Hm].
  destruct (proj2 (MatchRecord_correct sample_run forged_run ltac:(vm_compute; reflexivity) ltac:(vm_compute; reflexivity)) text Hm)
    as (surplus & lacking & Ht & Hsub & _ & Hs & Hl & Hor).
  exists surplus, lacking. split; [by rewrite Ht|]. split; [exact Hsub|]. split; [exact Hs|]. split; [exact Hl|].
  apply Hor; [exact marks_delimit|vm_compute; reflexivity|vm_compute; reflexivity|by split_and!].
Defined.

(** Twenty of the rows are written out, and two counted. *)
Example forged_rows_listed :
  Some (list_rows (rows_diff [] (describe forged_run) (describe sample_run))) =
    (fun rows => join ", " (take 20 rows) +:+ ", and 2 more") <$> Some (describe forged_run).
Proof. vm_compute. reflexivity. Qed.

(** From here on digests are compared, never computed, in proofs. *)
#[global] Opaque Digest ResultDigest Key.
