(* ===== verification/Cachestore.v ===== *)
(** An in-memory result cache store: [pkg/resultcache/resultcachetest/fake.go],
    the executable reference of the [resultcache.Store] contract.

    Every operation holds the store's mutex (and the job's row lock) from its
    first read to its last write, so it is one step. [Checkpoint] compares the
    attempt's rows with the caller's record before it calls [seal], and [seal]
    may not call the store. The hooks that let a test script a method are left
    out. *)

From S2P Require Import Prelude Float64 Gostrings Tenant Sha256 Json Jsonread Errors Llm Resultcache ResultcacheFacts.
Local Open Scope Z_scope.

(** * Definitions *)

Definition ErrTenantRequired : sentinel := "db.ErrTenantRequired".
Definition ErrUnknownParent : sentinel := "resultcachetest.ErrUnknownParent".

Definition jobRunning : string := "running".

Record rowKey := mkRowKey { rk_tenant : string; rk_analyzer : string; rk_key : string }.
#[export] Instance rowKey_eq_dec : EqDecision rowKey.
Proof. solve_decision. Defined.
#[export] Instance rowKey_countable : Countable rowKey.
Proof.
  refine (inj_countable' (fun k => (rk_tenant k, rk_analyzer k, rk_key k)) (fun '(t, a, k) => mkRowKey t a k) _).
  by intros [].
Defined.

Record row := mkRow {
  row_result : string;
  row_model : string;
  row_job : string;
  row_attempt : string;
  row_source : string;
  row_target : string;
}.

Record entryKey := mkEntryKey {
  ek_tenant : string;
  ek_job : string;
  ek_analyzer : string;
  ek_attempt : string;
  ek_entry : ManifestEntry;
}.
#[export] Instance entryKey_eq_dec : EqDecision entryKey.
Proof. solve_decision. Defined.
#[export] Instance entryKey_countable : Countable entryKey.
Proof.
  refine (inj_countable' (fun e => (ek_tenant e, ek_job e, ek_analyzer e, ek_attempt e, ek_entry e))
            (fun '(t, j, a, s, e) => mkEntryKey t j a s e) _).
  by intros [].
Defined.

Record statsRow := mkStatsRow {
  sr_tenant : string;
  sr_job : string;
  sr_analyzer : string;
  sr_attempt : string;
  sr_stats : Stats;
}.

Record Fake := mkFake {
  f_jobs : gmap (string * string) string;
  f_catalogs : gset (string * string);
  f_rows : gmap rowKey row;
  f_entries : gset entryKey;
  f_stats : list statsRow;
}.

Definition empty_fake : Fake := mkFake ∅ ∅ ∅ ∅ [].

Definition SetJobStatus (tenantID jobID status : string) (f : Fake) : Fake :=
  mkFake (<[(tenantID, jobID) := status]> (f_jobs f)) (f_catalogs f) (f_rows f) (f_entries f) (f_stats f).

Definition AddJob (tenantID jobID : string) (f : Fake) : Fake := SetJobStatus tenantID jobID jobRunning f.

Definition AddCatalog (tenantID catalogID : string) (f : Fake) : Fake :=
  mkFake (f_jobs f) ({[(tenantID, catalogID)]} ∪ f_catalogs f) (f_rows f) (f_entries f) (f_stats f).

(** A job's status; "" for a job that was never added. *)
Definition job_status (f : Fake) (tenantID jobID : string) : string := default "" (f_jobs f !! (tenantID, jobID)).

Definition checkRunning (f : Fake) (tenantID jobID : string) : failure :=
  if bool_decide (job_status f tenantID jobID <> jobRunning) then Some [ErrJobNotRunning] else None.

Definition tenantOf (ctx : context) : result error string :=
  map_err (fun _ => [ErrTenantRequired]) (FromContext ctx).

Definition hits (f : Fake) (tenantID analyzerName : string) (keys : list string) : gmap string Hit :=
  foldl (fun m key =>
    match f_rows f !! mkRowKey tenantID analyzerName key with
    | Some r => <[key := mkHit key (row_result r) (row_model r) (row_job r) (row_attempt r)]> m
    | None => m
    end) ∅ keys.

Definition Producers (ctx : context) (analyzerName : string) (keys : list string) (f : Fake) : result error (gmap string string) :=
  tenantID ← tenantOf ctx;
  Ok (hit_ProducerJobID <$> hits f tenantID analyzerName keys).

Definition manifest (f : Fake) (tenantID jobID analyzerName attempt : string) : Manifest :=
  mkManifest tenantID jobID analyzerName attempt
    (canonicalEntries (ek_entry <$> filter (fun ek => ek_tenant ek = tenantID /\ ek_job ek = jobID /\
       ek_analyzer ek = analyzerName /\ ek_attempt ek = attempt) (elements (f_entries f))))
    (sr_stats <$> filter (fun s => sr_tenant s = tenantID /\ sr_job s = jobID /\
       sr_analyzer s = analyzerName /\ sr_attempt s = attempt) (f_stats f)).

(** The job that stored one of [hs]. *)
Definition is_producer (hs : gmap string Hit) (jobID : string) : bool :=
  existsb (fun h => bool_decide (hit_ProducerJobID h.2 = jobID)) (map_to_list hs).

Definition LookupVerifiable (ctx : context) (analyzerName : string) (keys : list string) (attempts : list AttemptRef)
    (f : Fake) : result error Snapshot :=
  tenantID ← tenantOf ctx;
  match ValidAttemptRefs analyzerName attempts with
  | Some e => Err e
  | None =>
      let hs := hits f tenantID analyzerName keys in
      let manifests :=
        foldl (fun m r =>
          if is_producer hs (ref_JobID r)
          then <[r := manifest f tenantID (ref_JobID r) analyzerName (ref_Attempt r)]> m else m) ∅ attempts in
      Ok (NewSnapshot analyzerName hs manifests)
  end.

Definition write_entry (e : Entry) : ManifestEntry :=
  mkManifestEntry (e_TaskID e) RoleWrite (e_CacheKey e) (ResultDigest (e_Result e)) "".

Definition hit_entry (h : HitEntry) : ManifestEntry :=
  mkManifestEntry (h_TaskID h) RoleHit (h_CacheKey h) (h_ResultDigest h) (h_ProducerJobID h).

Definition Put (ctx : context) (e : Entry) (f : Fake) : failure * Fake :=
  match tenantOf ctx with
  | Err err => (Some err, f)
  | Ok tenantID =>
      match Entry_Validate e with
      | Some err => (Some err, f)
      | None =>
          if bool_decide (job_status f tenantID (e_JobID e) = "" \/
               (tenantID, e_SourceCatalogID e) ∉ f_catalogs f \/ (tenantID, e_TargetCatalogID e) ∉ f_catalogs f)
          then (Some [ErrUnknownParent], f)
          else
            match checkRunning f tenantID (e_JobID e) with
            | Some err => (Some err, f)
            | None =>
                (None,
                 mkFake (f_jobs f) (f_catalogs f)
                   (<[mkRowKey tenantID (e_Analyzer e) (e_CacheKey e) :=
                        mkRow (e_Result e) (e_ResponseModel e) (e_JobID e) (e_Attempt e)
                          (e_SourceCatalogID e) (e_TargetCatalogID e)]> (f_rows f))
                   ({[mkEntryKey tenantID (e_JobID e) (e_Analyzer e) (e_Attempt e) (write_entry e)]} ∪ f_entries f)
                   (f_stats f))
            end
      end
  end.

Definition RecordStage (ctx : context) (rec : StageRecord) (f : Fake) : failure * Fake :=
  match tenantOf ctx with
  | Err err => (Some err, f)
  | Ok tenantID =>
      match StageRecord_Validate rec with
      | Some err => (Some err, f)
      | None =>
          if bool_decide (job_status f tenantID (r_JobID rec) = "") then (Some [ErrUnknownJob], f)
          else
            match checkRunning f tenantID (r_JobID rec) with
            | Some err => (Some err, f)
            | None =>
                (None,
                 mkFake (f_jobs f) (f_catalogs f) (f_rows f)
                   (list_to_set ((fun h => mkEntryKey tenantID (r_JobID rec) (r_Analyzer rec) (r_Attempt rec) (hit_entry h))
                      <$> r_Hits rec) ∪ f_entries f)
                   (f_stats f ++ [mkStatsRow tenantID (r_JobID rec) (r_Analyzer rec) (r_Attempt rec) (r_Stats rec)]))
            end
      end
  end.

Definition read_Manifest (ctx : context) (jobID analyzerName attempt : string) (f : Fake) : result error Manifest :=
  tenantID ← tenantOf ctx;
  match ValidAttempt attempt with
  | Some e => Err e
  | None => Ok (manifest f tenantID jobID analyzerName attempt)
  end.

(** [seal] is called at most once, with the record's digest. *)
Definition Checkpoint `{GoQuote} (ctx : context) (expected : Manifest) (seal : string -> failure) (f : Fake) : failure :=
  match tenantOf ctx with
  | Err err => Some err
  | Ok tenantID =>
      match ValidCheckpoint tenantID expected with
      | Some err => Some err
      | None =>
          if bool_decide (job_status f tenantID (mf_JobID expected) = "") then Some [ErrUnknownJob]
          else
            let stored := manifest f tenantID (mf_JobID expected) (mf_Analyzer expected) (mf_Attempt expected) in
            match MatchRecord expected stored with
            | Some _ => Some [ErrCorrupt]
            | None => seal (Digest expected)
            end
      end
  end.

Definition VerifiedSummaries (ctx : context) (jobID : string) (signed : gmap string SignedAttempt) (f : Fake)
    : result error (list Summary) :=
  tenantID ← tenantOf ctx;
  if existsb (fun e => bool_decide (ValidAttempt (sa_Attempt e.2) <> None)) (map_to_list signed)
  then Err [ErrInvalidEntry]
  else Ok (SummarizeSigned (map_imap (fun a sa => Some (manifest f tenantID jobID a (sa_Attempt sa))) signed) signed).

(** * The store's contract *)

Inductive store_op :=
| OpStatus (tenantID jobID status : string)
| OpCatalog (tenantID catalogID : string)
| OpPut (ctx : context) (e : Entry)
| OpRecord (ctx : context) (rec : StageRecord).

Definition apply_op (f : Fake) (op : store_op) : Fake :=
  match op with
  | OpStatus t j s => SetJobStatus t j s f
  | OpCatalog t c => AddCatalog t c f
  | OpPut ctx e => (Put ctx e f).2
  | OpRecord ctx rec => (RecordStage ctx rec f).2
  end.

Definition run_ops (ops : list store_op) : Fake := foldl apply_op empty_fake ops.

Definition op_tenant (op : store_op) : option string :=
  match op with
  | OpStatus t _ _ | OpCatalog t _ => Some t
  | OpPut ctx _ | OpRecord ctx _ => match FromContext ctx with Ok t => Some t | Err _ => None end
  end.

(** The key under which the write entry of a row is recorded. *)
Definition row_write (k : rowKey) (r : row) (taskID : string) : entryKey :=
  mkEntryKey (rk_tenant k) (row_job r) (rk_analyzer k) (row_attempt r)
    (mkManifestEntry taskID RoleWrite (rk_key k) (ResultDigest (row_result r)) "").

(** No cache row without the write entry its verification needs. *)
Definition rows_recorded (f : Fake) : Prop :=
  forall k r, f_rows f !! k = Some r -> exists taskID, row_write k r taskID ∈ f_entries f.

(** What [Put] and [RecordStage] do when they accept. *)
Lemma Put_cases ctx e f :
  (exists err, Put ctx e f = (Some err, f)) \/
  exists t, FromContext ctx = Ok t /\ Entry_Validate e = None /\ job_status f t (e_JobID e) = jobRunning /\
    Put ctx e f =
      (None, mkFake (f_jobs f) (f_catalogs f)
         (<[mkRowKey t (e_Analyzer e) (e_CacheKey e) :=
              mkRow (e_Result e) (e_ResponseModel e) (e_JobID e) (e_Attempt e) (e_SourceCatalogID e) (e_TargetCatalogID e)]> (f_rows f))
         ({[mkEntryKey t (e_JobID e) (e_Analyzer e) (e_Attempt e) (write_entry e)]} ∪ f_entries f) (f_stats f)).
Proof.
  unfold Put, tenantOf. destruct (FromContext ctx) as [t|]; cbn; [|by left; eexists].
  destruct (Entry_Validate e); [by left; eexists|].
  case_bool_decide; [by left; eexists|]. unfold checkRunning. case_bool_decide as Hr; [by left; eexists|].
  right. exists t. split_and!; try done; by apply dec_stable.
Qed.

Lemma RecordStage_cases ctx rec f :
  (exists err, RecordStage ctx rec f = (Some err, f)) \/
  exists t, FromContext ctx = Ok t /\ StageRecord_Validate rec = None /\ job_status f t (r_JobID rec) = jobRunning /\
    RecordStage ctx rec f =
      (None, mkFake (f_jobs f) (f_catalogs f) (f_rows f)
         (list_to_set ((fun h => mkEntryKey t (r_JobID rec) (r_Analyzer rec) (r_Attempt rec) (hit_entry h)) <$> r_Hits rec) ∪ f_entries f)
         (f_stats f ++ [mkStatsRow t (r_JobID rec) (r_Analyzer rec) (r_Attempt rec) (r_Stats rec)])).
Proof.
  unfold RecordStage, tenantOf. destruct (FromContext ctx) as [t|]; cbn; [|by left; eexists].
  destruct (StageRecord_Validate rec); [by left; eexists|].
  case_bool_decide; [by left; eexists|]. unfold checkRunning. case_bool_decide as Hr; [by left; eexists|].
  right. exists t. split_and!; try done; by apply dec_stable.
Qed.

Lemma rows_recorded_step f op : rows_recorded f -> rows_recorded (apply_op f op).
Proof.
  intros Hinv. destruct op as [t j s|t c|ctx e|ctx rec]; try done; cbn.
  - destruct (Put_cases ctx e f) as [[err ->]|(t & _ & _ & _ & ->)]; [done|].
    intros k r. cbn. rewrite lookup_insert_Some. intros [[<- <-]|[_ Hr]].
    + exists (e_TaskID e). apply elem_of_union_l, elem_of_singleton. done.
    + destruct (Hinv k r Hr) as [tid Hin]. exists tid. by apply elem_of_union_r.
  - destruct (RecordStage_cases ctx rec f) as [[err ->]|(t & _ & _ & _ & ->)]; [done|].
    intros k r Hr. destruct (Hinv k r Hr) as [tid Hin]. exists tid. by apply elem_of_union_r.
Qed.

Lemma rows_recorded_run ops : rows_recorded (run_ops ops).
Proof.
  unfold run_ops. assert (rows_recorded empty_fake) as H0 by done. revert H0. generalize empty_fake.
  induction ops as [|op ops IH]; intros f Hf; [done|]. by apply IH, rows_recorded_step.
Qed.

(** The rows of one attempt depend on the entries and stats recorded for it. *)
Lemma manifest_ext f f' t j a s :
  (forall e, mkEntryKey t j a s e ∈ f_entries f <-> mkEntryKey t j a s e ∈ f_entries f') ->
  filter (fun x => sr_tenant x = t /\ sr_job x = j /\ sr_analyzer x = a /\ sr_attempt x = s) (f_stats f) =
  filter (fun x => sr_tenant x = t /\ sr_job x = j /\ sr_analyzer x = a /\ sr_attempt x = s) (f_stats f') ->
  manifest f t j a s = manifest f' t j a s.
Proof.
  intros He Hs. unfold manifest. rewrite Hs. f_equal. apply canonicalEntries_unique.
  f_equiv. apply NoDup_Permutation; try apply NoDup_filter, NoDup_elements.
  intros [t' j' a' s' e]. rewrite !list_elem_of_filter, !elem_of_elements. cbn.
  split; intros [(-> & -> & -> & ->) Hin]; (split; [done|]); by apply He.
Qed.

(** What an operation can change: the manifests of a running job, by an
    operation of its own tenant. *)
Lemma manifest_step f op t j a s :
  manifest (apply_op f op) t j a s = manifest f t j a s \/
  (op_tenant op = Some t /\ job_status f t j = jobRunning /\
   match op with
   | OpPut _ e => e_JobID e = j /\ e_Analyzer e = a /\ e_Attempt e = s
   | OpRecord _ r => r_JobID r = j /\ r_Analyzer r = a /\ r_Attempt r = s
   | _ => False
   end).
Proof.
  destruct op as [t' j' s'|t' c|ctx e|ctx rec]; cbn; try (left; by apply manifest_ext).
  - destruct (Put_cases ctx e f) as [[err ->]|(t' & -> & _ & Hrun & ->)]; [by left|].
    destruct (decide (t' = t /\ e_JobID e = j /\ e_Analyzer e = a /\ e_Attempt e = s)) as [(-> & <- & <- & <-)|Hne]; [by right|].
    left. apply manifest_ext; [|done]. intros m. cbn. rewrite elem_of_union, elem_of_singleton.
    split; [|by right]. intros [[= -> -> -> -> _]|?]; [by destruct Hne|done].
  - destruct (RecordStage_cases ctx rec f) as [[err ->]|(t' & -> & _ & Hrun & ->)]; [by left|].
    destruct (decide (t' = t /\ r_JobID rec = j /\ r_Analyzer rec = a /\ r_Attempt rec = s)) as [(-> & <- & <- & <-)|Hne]; [by right|].
    left. apply manifest_ext; cbn.
    + intros m. rewrite elem_of_union, elem_of_list_to_set, list_elem_of_fmap.
      split; [|by right]. intros [(h & [= -> -> -> -> _] & _)|?]; [by destruct Hne|done].
    + rewrite filter_app, filter_cons_False, filter_nil, app_nil_r; [done|]. cbn. naive_solver.
Qed.

Definition row_hit (key : string) (r : row) : Hit := mkHit key (row_result r) (row_model r) (row_job r) (row_attempt r).

Lemma hits_lookup f t a keys k :
  hits f t a keys !! k = if decide (k ∈ keys) then row_hit k <$> f_rows f !! mkRowKey t a k else None.
Proof.
  unfold hits.
  assert (forall m : gmap string Hit, foldl (fun (m : gmap string Hit) key => match f_rows f !! mkRowKey t a key with
      | Some r => <[key := mkHit key (row_result r) (row_model r) (row_job r) (row_attempt r)]> m | None => m end) m keys !! k =
    match (if decide (k ∈ keys) then row_hit k <$> f_rows f !! mkRowKey t a k else None) with Some h => Some h | None => m !! k end) as Hf.
  { induction keys as [|x keys IH]; intros m; cbn [foldl]; [by rewrite decide_False by apply not_elem_of_nil|].
    rewrite IH. destruct (decide (k = x)) as [<-|Hne].
    - rewrite (decide_True (P := k ∈ k :: keys)) by left. destruct (f_rows f !! mkRowKey t a k) as [r|] eqn:Hr; cbn.
      + rewrite lookup_insert_eq. by case_decide.
      + by case_decide.
    - rewrite (decide_ext (k ∈ x :: keys) (k ∈ keys)) by (rewrite elem_of_cons; naive_solver).
      destruct (f_rows f !! mkRowKey t a x); [by rewrite lookup_insert_ne by done|done]. }
  rewrite Hf, lookup_empty. by case_match.
Qed.

Lemma hits_step f op t a keys : op_tenant op <> Some t -> hits (apply_op f op) t a keys = hits f t a keys.
Proof.
  intros Hne. apply map_eq. intros k. rewrite !hits_lookup. case_decide; [|done]. f_equal.
  destruct op as [t' j s|t' c|ctx e|ctx rec]; cbn; try done.
  - destruct (Put_cases ctx e f) as [[err ->]|(t' & Ht & _ & _ & ->)]; [done|]. cbn in *. rewrite Ht in Hne.
    apply lookup_insert_ne. congruence.
  - by destruct (RecordStage_cases ctx rec f) as [[err ->]|(t' & Ht & _ & _ & ->)].
Qed.

(** C25. The store keeps its contract under any operations: every cached row
    has the write entry its verification needs; an operation changes nothing
    another tenant can read; and the record of a job that is not running is
    frozen. *)
Theorem store_contract ops op (f := run_ops ops) :
  rows_recorded f /\
  (forall t j a s keys, op_tenant op <> Some t ->
     manifest (apply_op f op) t j a s = manifest f t j a s /\ hits (apply_op f op) t a keys = hits f t a keys) /\
  (forall t j a s, job_status f t j <> jobRunning -> manifest (apply_op f op) t j a s = manifest f t j a s).
Proof.
  split_and!; [apply rows_recorded_run|..].
  - intros t j a s keys Hne. split; [|by apply hits_step]. by destruct (manifest_step f op t j a s) as [?|[? _]].
  - intros t j a s Hne. by destruct (manifest_step f op t j a s) as [?|(_ & ? & _)].
Qed.

(** The operation records something under this attempt. *)
Definition records_under (t j a s : string) (op : store_op) : bool :=
  match op with
  | OpPut ctx e => bool_decide (op_tenant op = Some t /\ e_JobID e = j /\ e_Analyzer e = a /\ e_Attempt e = s)
  | OpRecord ctx r => bool_decide (op_tenant op = Some t /\ r_JobID r = j /\ r_Analyzer r = a /\ r_Attempt r = s)
  | _ => false
  end.

Lemma manifest_ops f ops t j a s :
  Forall (fun op => records_under t j a s op = false) ops ->
  manifest (foldl apply_op f ops) t j a s = manifest f t j a s.
Proof.
  revert f. induction ops as [|op ops IH]; intros f Hops; [done|]. apply Forall_cons in Hops as [Hop Hops].
  cbn. rewrite IH by done. destruct (manifest_step f op t j a s) as [?|(Ht & _ & Hm)]; [done|].
  destruct op; try done; cbn [records_under] in Hop; rewrite bool_decide_eq_false in Hop; by destruct Hop.
Qed.

Lemma Checkpoint_sealed `{GoQuote} ctx expected seal f :
  Checkpoint ctx expected seal f = None ->
  exists t, FromContext ctx = Ok t /\ mf_TenantID expected = t /\
    Digest expected = Digest (manifest f t (mf_JobID expected) (mf_Analyzer expected) (mf_Attempt expected)) /\
    seal (Digest expected) = None.
Proof.
  unfold Checkpoint, tenantOf. destruct (FromContext ctx) as [t|]; [|done]. cbn.
  unfold ValidCheckpoint. case_bool_decide as Ht; [|done]. destruct (invalid _); [done|]. case_bool_decide; [done|].
  unfold MatchRecord. case_bool_decide as Hd; [|done]. intros Hs. exists t. by split_and!.
Qed.

Lemma manifests_lookup f t a (hs : gmap string Hit) refs r :
  r ∈ refs -> is_producer hs (ref_JobID r) = true ->
  foldl (fun (m : gmap AttemptRef Manifest) r => if is_producer hs (ref_JobID r)
    then <[r := manifest f t (ref_JobID r) a (ref_Attempt r)]> m else m) ∅ refs !! r =
  Some (manifest f t (ref_JobID r) a (ref_Attempt r)).
Proof.
  intros Hin Hp. set (g := fun (m : gmap AttemptRef Manifest) r => _).
  assert (forall l m, m !! r = Some (manifest f t (ref_JobID r) a (ref_Attempt r)) ->
    foldl g m l !! r = Some (manifest f t (ref_JobID r) a (ref_Attempt r))) as Hkeep.
  { induction l as [|x l IH]; intros m Hm; [done|]. cbn. apply IH. unfold g. case_match; [|done].
    destruct (decide (x = r)) as [->|]; [by rewrite lookup_insert_eq|by rewrite lookup_insert_ne]. }
  generalize (∅ : gmap AttemptRef Manifest). induction refs as [|x refs IH]; intros m; [by apply not_elem_of_nil in Hin|].
  apply elem_of_cons in Hin as [<-|Hin]; cbn; [|by apply IH].
  apply Hkeep. unfold g. rewrite Hp. apply lookup_insert_eq.
Qed.

(** C26. A row of a sealed run stays reusable. Once [Checkpoint] has accepted an
    attempt's record, and as long as nothing more is recorded under that
    attempt, then whatever the store's operations do, a row that the table
    still has from that attempt is returned by a lookup, and verifies against
    the signed digest. (The row of a key is the last attempt's that put it: a
    later Put of another attempt replaces it, and that attempt's record is then
    the one to verify it against.) The lookup names valid attempts, this one
    among them, and the digests signed for this analyzer. *)
Theorem sealed_results_reusable `{GoQuote} ops0 ops1 ctx expected seal key keys refs signed r
    (t := mf_TenantID expected) (j := mf_JobID expected) (a := mf_Analyzer expected) (s := mf_Attempt expected)
    (f := foldl apply_op (run_ops ops0) ops1) :
  Checkpoint ctx expected seal (run_ops ops0) = None ->
  Forall (fun op => records_under t j a s op = false) ops1 ->
  f_rows f !! mkRowKey t a key = Some r -> row_job r = j -> row_attempt r = s ->
  key ∈ keys -> ValidAttemptRefs a refs = None -> mkRef j a s ∈ refs ->
  signed !! mkRef j a s = Some (Digest expected) ->
  (forall ref, is_Some (signed !! ref) -> ref_Analyzer ref = a) ->
  exists snap, LookupVerifiable ctx a keys refs f = Ok snap /\ Verify snap key signed = Ok (row_hit key r).
Proof.
  intros (t' & Hctx & Ht & Hd & _)%Checkpoint_sealed Hops Hrow Hj Hs Hkey Hrefs Href Hsig Hsame.
  assert (t' = t) as -> by done. unfold LookupVerifiable, tenantOf. rewrite Hctx. cbn. rewrite Hrefs.
  eexists. split; [done|].
  assert (hits f t a keys !! key = Some (row_hit key r)) as Hhit by (rewrite hits_lookup, decide_True, Hrow by done; done).
  set (m := manifest f t j a s).
  assert (Digest expected = Digest m) as Hdm.
  { etrans; [exact Hd|]. apply (f_equal Digest). symmetry. exact (manifest_ops (run_ops ops0) ops1 t j a s Hops). }
  apply Verify_Ok. split; [exact Hhit|].
  split.
  - unfold foreign_attempt. apply not_true_iff_false. rewrite existsb_exists.
    intros ([ref d] & Hin & [_ Hf]%bool_decide_eq_true). apply Hf. cbn in *. apply Hsame.
    exists d. by apply elem_of_map_to_list, list_elem_of_In.
  - exists m.
    unfold producer_ref, NewSnapshot, row_hit. cbn [sn_analyzer sn_manifests hit_ProducerJobID hit_ProducerAttempt hit_Result].
    rewrite Hj, Hs, Hsig, Hdm. split; [reflexivity|]. split.
    + apply (manifests_lookup f t a _ refs (mkRef j a s) Href). unfold is_producer. rewrite existsb_exists.
      exists (key, row_hit key r). split; [by apply list_elem_of_In, elem_of_map_to_list|by apply bool_decide_eq_true].
    + apply elem_of_written.
      assert (rows_recorded f) as Hrec by (unfold f, run_ops; rewrite <- foldl_app; apply rows_recorded_run).
      destruct (Hrec _ _ Hrow) as [tid Hin]. unfold row_write in Hin. cbn in Hin. rewrite Hj, Hs in Hin.
      exists (mkManifestEntry tid RoleWrite key (ResultDigest (row_result r)) EmptyString).
      split; [|split; [reflexivity|split; reflexivity]].
      unfold m, manifest. cbn [mf_Entries]. rewrite canonicalEntries_perm. apply list_elem_of_fmap.
      eexists. split; [|apply list_elem_of_filter; split; [|apply elem_of_elements; exact Hin]]; [reflexivity|by split_and!].
Qed.

Definition sample_ctx : context := mkContext (Some "acme") None.
Definition sample_key : string := hex_sum "request".
Definition sample_result : string := with_quotes "{'model':'gpt','response':'yes'}".
Definition sample_entry : Entry :=
  mkEntry "job-1" "classify" "a1" "t1" sample_key sample_result "gpt" "cat" "cat".
Definition sample_ops : list store_op :=
  [OpStatus "acme" "job-1" jobRunning; OpCatalog "acme" "cat"; OpPut sample_ctx sample_entry].
Definition sample_expected : Manifest :=
  mkManifest "acme" "job-1" "classify" "a1" [mkManifestEntry "t1" RoleWrite sample_key (ResultDigest sample_result) ""] [].

#[local] Instance plain_quote : GoQuote := {| go_quote s := s |}.

Lemma sealed_results_reusable_witness :
  exists snap,
    LookupVerifiable sample_ctx "classify" [sample_key] [mkRef "job-1" "classify" "a1"]
      (foldl apply_op (run_ops sample_ops) [OpStatus "acme" "job-1" "completed"]) = Ok snap /\
    Verify snap sample_key {[ mkRef "job-1" "classify" "a1" := Digest sample_expected ]} =
      Ok (row_hit sample_key (mkRow sample_result "gpt" "job-1" "a1" "cat" "cat")).
Proof.
  apply (sealed_results_reusable sample_ops [OpStatus "acme" "job-1" "completed"] sample_ctx sample_expected (fun _ => None)
           sample_key [sample_key] [mkRef "job-1" "classify" "a1"] {[ mkRef "job-1" "classify" "a1" := Digest sample_expected ]}
           (mkRow sample_result "gpt" "job-1" "a1" "cat" "cat")).
  - vm_compute. reflexivity.
  - by repeat constructor.
  - vm_compute. reflexivity.
  - reflexivity.
  - reflexivity.
  - left.
  - vm_compute. reflexivity.
  - left.
  - apply lookup_singleton_eq.
  - intros ref [d Hd]. by apply lookup_singleton_Some in Hd as [<- _].
Defined.
