(* ===== verification/Stagecache.v ===== *)
(** One stage's use of the result cache: [internal/analysis/cache.go].

    A stage run plans which of its tasks may be looked up and stored
    ([planCache]), reuses verified results ([lookupCached]), stores new ones
    ([putResults]), writes its audit rows ([recordStage]) and has the whole
    record signed ([seal]). The store, the checkpoint signer, the collector,
    the dispatcher, the reporter and the analyzers are the outside
    ([EngineWorld]); each call to them is an [effect]. Of the metrics only the
    integrity failures and the refused or failed puts are kept; log lines and
    the text of errors are left out. *)

From S2P Require Import Prelude Float64 Floatfmt Gostrings Tenant Sha256 Json Jsonread Errors Effects Llm Resultcache.
Local Open Scope Z_scope.

(** * Definitions *)

(** ** Tasks and requests *)

Definition ErrNoTenant : sentinel := "analysis.ErrNoTenant".
Definition ErrAnalyzerFailed : sentinel := "analysis.ErrAnalyzerFailed".
Definition ErrOutputTruncated : sentinel := "llmclient.ErrOutputTruncated".
Definition ErrResultCacheNotWired : sentinel := "analysis.ErrResultCacheNotWired".
Definition ErrInvalidCacheRequest : sentinel := "analysis.ErrInvalidCacheRequest".
Definition errSealFailed : sentinel := "analysis.errSealFailed".

(** The fields of [*pb.Control] the engine reads. *)
Record Control := mkControl { ControlId : string; Identifier : string; CatalogId : string }.

(** A [proto.Message]: a [*structpb.Struct], possibly nil, a control, or
    another type. *)
Inductive message `{StructPB} :=
| MStruct (s : option (gmap string Value))
| MControl (c : Control)
| MOther (type_name : string) (bytes : string).

Section tasks.
Context `{StructPB}.

Record Task := mkTask {
  TaskID : string;
  tk_TaskType : string;
  Payload : message;
  PreBuiltResult : bool;
}.

Record TaskResult := mkTaskResult {
  res_TaskID : string;
  res_TaskType : string;
  res_Result : option message;
  res_Error : failure;
}.
End tasks.

Record Output := mkOutput {
  out_AnalyzerName : string;
  out_Metadata : gmap string string;
  out_Data : string;
}.

(** What travels in the context to the analyzers. *)
Record actx := mkActx {
  base : context;
  catalogID : option string;
  controlCatalogs : option (gmap string string);
}.

Record ModelUse := mkModelUse { mu_Alias : string; mu_Kind : string }.
#[export] Instance ModelUse_eq_dec : EqDecision ModelUse.
Proof. solve_decision. Defined.
#[export] Instance ModelUse_countable : Countable ModelUse.
Proof.
  refine (inj_countable' (fun u => (mu_Alias u, mu_Kind u)) (fun '(a, k) => mkModelUse a k) _). by intros [].
Defined.

Record CacheRequest := mkCacheRequest {
  cr_Identity : Identity;
  cr_SourceControlID : string;
  cr_TargetControlID : string;
}.

Record CacheModel := mkCacheModel {
  cm_Alias : string;
  cm_Observed : string;
  cm_Deployment : string;
  cm_Revision : string;
  cm_Reason : string;
}.

Record Cacheable `{StructPB} := mkCacheable {
  CacheModels : list ModelUse;
  CacheIdentity : Task -> option CacheRequest;
  CacheableResult : gmap string Value -> failure;
}.

(** [set_Checkpoints] says whether a signer is set; the signer itself is part
    of the outside. *)
Record CacheSettings := mkSettings {
  set_Mode : Mode;
  set_Models : gmap ModelUse CacheModel;
  set_LookupBatchSize : Z;
  set_ControlCatalogs : gmap string string;
  set_NoCacheCommand : string;
  set_Checkpoints : bool;
}.

Record ExecutionRequest `{StructPB} := mkExecution {
  JobID : string;
  AnalyzerNames : list string;
  Input : option message;
  Controls : option (list Control);      (* None: the nil slice *)
  CatalogID : string;
  CompletedOutputs : gmap string Output;
  Cache : CacheSettings;
}.

Record VerifiedCheckpoints := mkVerified {
  Signed : gmap AttemptRef string;
  Untrusted : list string;
}.

(** ** The outside *)

Inductive effect `{StructPB} :=
| EStarted (name : string)
| ECompleted (name : string) (output : Output)
| EFailed (name : string) (err : error)
| EGenerate (name : string) (input : message)
| EAggregate (name : string) (results : list TaskResult)
| EPrepare (name : string) (tasks : list Task)
| EDispatch (name : string) (tasks : list Task) (collectionID : string)
| EAwait (name : string) (collectionID : string)
| ERelease (collectionID : string)
| EAbandon (collectionID : string)
| EProducers (analyzer : string) (keys : list string)
| EVerified (analyzer : string) (producers : list string)
| ELookup (analyzer : string) (keys : list string) (refs : list AttemptRef)
| EPut (e : Entry)
| ERecord (rec : StageRecord)
| ECheckpoint (expected : Manifest)
| ESign (ref : AttemptRef) (digest : string)
| EStoreCheckpoint (ref : AttemptRef) (signed : string)
| EIntegrity (analyzer reason : string) (n : nat)
| EPutRefused (analyzer taskID reason : string)
| EPutFailed (analyzer taskID : string).

(** What the outside answers, given the calls so far. [w_Checkpoint] is the
    store's refusal before it calls [seal], [w_Commit] its failure after. *)
Class EngineWorld := {
  world_pb :: StructPB;
  world_json :: StructJSON;
  w_ctx_err : list effect -> bool;
  w_uuid : list effect -> string;
  w_quote : string -> string;                       (* fmt's %q *)
  w_Started : list effect -> string -> failure;
  w_Completed : list effect -> string -> Output -> failure;
  w_Generate : list effect -> actx -> string -> message -> result error (list Task);
  w_Aggregate : list effect -> actx -> string -> list TaskResult -> result error Output;
  w_Cacheable : string -> option Cacheable;
  w_Prepare : list effect -> string -> list Task -> result error string;
  w_Dispatch : list effect -> string -> list Task -> string -> failure;
  w_Await : list effect -> string -> list TaskResult * failure;
  w_Producers : list effect -> string -> list string -> result error (gmap string string);
  w_Verified : list effect -> string -> list string -> result error VerifiedCheckpoints;
  w_Lookup : list effect -> string -> list string -> list AttemptRef -> result error Snapshot;
  w_Put : list effect -> Entry -> failure;
  w_Record : list effect -> StageRecord -> failure;
  w_Checkpoint : list effect -> Manifest -> failure;
  w_Sign : list effect -> AttemptRef -> string -> result error string;
  w_Commit : list effect -> Manifest -> failure;
  w_StoreCheckpoint : list effect -> AttemptRef -> string -> failure;
}.

(** ** The stage's record *)

Record cachedTask := mkCached {
  ct_request : CacheRequest;
  ct_model : CacheModel;
  ct_lookupKey : string;
  ct_source : string;
  ct_target : string;
}.

Record stageCache `{StructPB} := mkStage {
  sc_name : string;
  sc_tenantID : string;
  sc_jobID : string;
  sc_attempt : string;
  sc_settings : CacheSettings;
  sc_cacheable : option Cacheable;       (* Some: [cacheable] and its analyzer *)
  sc_byTask : gmap string cachedTask;
  sc_stats : Stats;
  sc_hits : list HitEntry;
  sc_writes : list ManifestEntry;
  sc_recorded : bool;
  sc_uncertain : bool;
}.

Section stagecache.
Context `{W : EngineWorld} {rt : GoRuntime}.

Abbreviation eM := (M effect).

Definition set_stats (sc : stageCache) (s : Stats) : stageCache :=
  mkStage _ (sc_name sc) (sc_tenantID sc) (sc_jobID sc) (sc_attempt sc) (sc_settings sc) (sc_cacheable sc) (sc_byTask sc)
    s (sc_hits sc) (sc_writes sc) (sc_recorded sc) (sc_uncertain sc).
Definition set_hits (sc : stageCache) (hits : list HitEntry) : stageCache :=
  mkStage _ (sc_name sc) (sc_tenantID sc) (sc_jobID sc) (sc_attempt sc) (sc_settings sc) (sc_cacheable sc) (sc_byTask sc)
    (sc_stats sc) hits (sc_writes sc) (sc_recorded sc) (sc_uncertain sc).
Definition add_write (sc : stageCache) (e : ManifestEntry) : stageCache :=
  mkStage _ (sc_name sc) (sc_tenantID sc) (sc_jobID sc) (sc_attempt sc) (sc_settings sc) (sc_cacheable sc) (sc_byTask sc)
    (sc_stats sc) (sc_hits sc) (sc_writes sc ++ [e]) (sc_recorded sc) (sc_uncertain sc).
Definition set_recorded (sc : stageCache) : stageCache :=
  mkStage _ (sc_name sc) (sc_tenantID sc) (sc_jobID sc) (sc_attempt sc) (sc_settings sc) (sc_cacheable sc) (sc_byTask sc)
    (sc_stats sc) (sc_hits sc) (sc_writes sc) true (sc_uncertain sc).
Definition set_uncertain (sc : stageCache) : stageCache :=
  mkStage _ (sc_name sc) (sc_tenantID sc) (sc_jobID sc) (sc_attempt sc) (sc_settings sc) (sc_cacheable sc) (sc_byTask sc)
    (sc_stats sc) (sc_hits sc) (sc_writes sc) (sc_recorded sc) true.

(** The methods that may be called on a nil stage. *)
Definition records (sc : option stageCache) : bool :=
  match sc with Some sc => negb (bool_decide (set_Mode (sc_settings sc) = ModeDisabled)) | None => false end.

Definition is_cacheable (sc : stageCache) : bool := match sc_cacheable sc with Some _ => true | None => false end.

Definition lookups (sc : option stageCache) : bool :=
  match sc with
  | Some sc => is_cacheable sc && bool_decide (set_Mode (sc_settings sc) = ModeEnabled) && negb (bool_decide (sc_byTask sc = ∅))
  | None => false
  end.

Definition puts (sc : option stageCache) : bool :=
  match sc with Some sc => is_cacheable sc && negb (bool_decide (sc_byTask sc = ∅)) | None => false end.

Definition ref (sc : stageCache) : AttemptRef := mkRef (sc_jobID sc) (sc_name sc) (sc_attempt sc).

Definition hit_row (h : HitEntry) : ManifestEntry :=
  mkManifestEntry (h_TaskID h) RoleHit (h_CacheKey h) (h_ResultDigest h) (h_ProducerJobID h).

Definition expected (sc : stageCache) : Manifest :=
  mkManifest (sc_tenantID sc) (sc_jobID sc) (sc_name sc) (sc_attempt sc)
    (sc_writes sc ++ (if sc_recorded sc then hit_row <$> sc_hits sc else []))
    (if sc_recorded sc then [sc_stats sc] else []).

(** A store refusal that wrote nothing. *)
Definition definite (err : error) : bool := Is err ErrInvalidEntry || Is err ErrJobNotRunning || Is err ErrUnknownJob.

Definition tasksNotCached (n : Z) (why : string) : string :=
  if n =? 1 then "1 task was not cached: " +:+ why else Itoa n +:+ " tasks were not cached: " +:+ why.

(** ** Settings *)

(** [wired]: the engine has a store. *)
Definition validateCache (wired : bool) (c : CacheSettings) : failure :=
  if bool_decide (set_Mode c = "" \/ set_Mode c = ModeDisabled) then None
  else if negb (bool_decide (set_Mode c = ModeEnabled \/ set_Mode c = ModeBypassed)) then Some [ErrInvalidCacheRequest]
  else if negb wired then Some [ErrResultCacheNotWired]
  else if negb (set_Checkpoints c) || bool_decide (set_NoCacheCommand c = "")
          || (bool_decide (set_Mode c = ModeEnabled) && (set_LookupBatchSize c <? 1))
  then Some [ErrInvalidCacheRequest]
  else None.

(** ** Planning *)

(** [slices.Compact]. *)
Fixpoint compact (l : list string) : list string :=
  match l with
  | x :: ((y :: _) as r) => if String.eqb x y then compact r else x :: compact r
  | _ => l
  end.

Definition model_identity (cm : CacheModel) : ModelIdentity :=
  mkModelIdentity (cm_Observed cm) (cm_Deployment cm) (cm_Revision cm).

(** The loop over the models an analyzer names: the uses by alias, the models
    of the stats row, the reasons, and whether any model was observed. *)
Definition plan_use (settings : CacheSettings)
    (acc : gmap string ModelUse * gmap string ModelIdentity * list string * bool) (use : ModelUse)
  : gmap string ModelUse * gmap string ModelIdentity * list string * bool :=
  let '(uses, models, reasons, observed) := acc in
  let uses := <[mu_Alias use := use]> uses in
  match set_Models settings !! use with
  | None => (uses, models, reasons ++ ["alias " +:+ w_quote (mu_Alias use) +:+ " was not probed for this job"], observed)
  | Some cm =>
      let models := <[cm_Alias cm := model_identity cm]> models in
      if bool_decide (cm_Observed cm = "") then (uses, models, reasons ++ [cm_Reason cm], observed)
      else (uses, models, reasons, true)
  end.

(** The catalogs of the controls a task's request carries. *)
Definition taskCatalogs (cr : CacheRequest) (origin : option Control) (catalogs : gmap string string) : option (string * string) :=
  let look id := default "" (catalogs !! id) in
  let by_id :=
    let source := look (cr_SourceControlID cr) in
    let target := look (cr_TargetControlID cr) in
    if bool_decide (source <> "" /\ target <> "") then Some (source, target) else None in
  match origin with
  | Some o =>
      if bool_decide (CatalogId o <> "" /\ cr_SourceControlID cr = cr_TargetControlID cr /\
           (cr_SourceControlID cr = ControlId o \/ cr_SourceControlID cr = Identifier o))
      then Some (CatalogId o, CatalogId o) else by_id
  | None => by_id
  end.

(** Whether one task is cached; the counts of duplicates and of tasks without
    a catalog. *)
Definition plan_task (c : Cacheable) (name : string) (settings : CacheSettings) (origins : gmap string Control)
    (uses : gmap string ModelUse) (tasks : list Task)
    (acc : gmap string cachedTask * Z * Z) (t : Task) : gmap string cachedTask * Z * Z :=
  let '(byTask, duplicates, uncataloged) := acc in
  if PreBuiltResult t then acc
  else if (1 <? occ (TaskID t) (TaskID <$> tasks))%nat then (byTask, duplicates + 1, uncataloged)
  else
    match CacheIdentity c t with
    | None => acc
    | Some cr =>
        match uses !! ModelAlias (cr_Identity cr) with
        | None => acc
        | Some use =>
            let cm := default (mkCacheModel "" "" "" "" "") (set_Models settings !! use) in
            if bool_decide (cm_Observed cm = "") then acc
            else
              match taskCatalogs cr (origins !! TaskID t) (set_ControlCatalogs settings) with
              | None => (byTask, duplicates, uncataloged + 1)
              | Some (source, target) =>
                  (<[TaskID t := mkCached cr cm (Key name (cr_Identity cr) (model_identity cm)) source target]> byTask,
                   duplicates, uncataloged)
              end
        end
    end.

Definition skipped_stage (name tenantID jobID attempt : string) (settings : CacheSettings)
    (mode : Mode) (models : gmap string ModelIdentity) (reason : string) : stageCache :=
  mkStage _ name tenantID jobID attempt settings None ∅ (mkStats mode reason (Some models) 0 0 0) [] [] false false.

Definition plan_reasons (reasons : list string) (uncataloged duplicates : Z) : string :=
  join "; "
    (reasons
     ++ (if 0 <? uncataloged then [tasksNotCached uncataloged "no catalog is known for its controls"] else [])
     ++ (if 0 <? duplicates then [tasksNotCached duplicates "their task ID is not unique in the stage"] else [])).

Definition planCache (ctx : context) (name : string) (req : ExecutionRequest) (tasks : list Task)
    (origins : gmap string Control) : eM (result error (option stageCache)) :=
  let settings := Cache req in
  if bool_decide (set_Mode settings = "") then mret (Ok None)
  else
    match FromContext ctx with
    | Err _ => mret (Err [ErrNoTenant])
    | Ok tenantID =>
        attempt ← ask w_uuid;
        if bool_decide (set_Mode settings = ModeDisabled) then
          mret (Ok (Some (skipped_stage name tenantID (JobID req) attempt settings ModeDisabled ∅
            "analysis.result_cache.enabled is false for this tenant, so nothing was looked up or stored")))
        else
          match w_Cacheable name with
          | None =>
              mret (Ok (Some (skipped_stage name tenantID (JobID req) attempt settings ModeSkipped ∅
                "the analyzer does not opt in to result reuse (it does not implement analyzer.Cacheable)")))
          | Some c =>
              let '(uses, models, reasons, observed) := foldl (plan_use settings) (∅, ∅, [], false) (CacheModels c) in
              let reasons := compact (sort_strings reasons) in
              if negb observed then
                mret (Ok (Some (skipped_stage name tenantID (JobID req) attempt settings ModeSkipped models
                  (join "; " (if bool_decide (reasons = []) then ["the analyzer names no model"] else reasons)))))
              else
                let reasons :=
                  if bool_decide (set_Mode settings = ModeBypassed)
                  then "the job was started with --no-cache, so nothing was looked up" :: reasons else reasons in
                let '(byTask, duplicates, uncataloged) := foldl (plan_task c name settings origins uses tasks) (∅, 0, 0) tasks in
                mret (Ok (Some (mkStage _ name tenantID (JobID req) attempt settings (Some c) byTask
                  (mkStats (set_Mode settings) (plan_reasons reasons uncataloged duplicates) (Some models) 0 0 0)
                  [] [] false false)))
          end
    end.

(** ** Looking up *)

(** The errors of a stopped stage: each unwraps to its class sentinel only. *)
Definition cacheUnavailable : error := [ErrUnavailable].
Definition cacheCorrupt : error := [ErrCorrupt].

Record lookup_state := mkLookup {
  lk_signed : gmap AttemptRef string;
  lk_verified : gset string;
  lk_found : gmap string Hit;
  lk_decoded : gmap string (gmap string Value);
}.

(** The producers' checkpoints this batch is the first to need. *)
Definition load_checkpoints (name : string) (st : lookup_state) (unverified : list string)
  : eM (result error (gmap AttemptRef string)) :=
  match unverified with
  | [] => mret (Ok (lk_signed st))
  | _ =>
      vc ← perform (EVerified name unverified) (fun h => w_Verified h name unverified);
      match vc with
      | Err err =>
          if Is err ErrCorrupt then (_ ← emit (EIntegrity name "checkpoint" 1); mret (Err cacheCorrupt))
          else mret (Err cacheUnavailable)
      | Ok vc =>
          _ ← (if bool_decide (Untrusted vc = []) then mret tt
               else emit (EIntegrity name "untrusted_key" (length (Untrusted vc))));
          mret (Ok (Signed vc ∪ lk_signed st))
      end
  end.

(** What the loop over a snapshot's keys does with one key. *)
Inductive key_outcome :=
| KeyHit (h : Hit) (s : gmap string Value)
| KeyMiss
| KeyBad
| KeyBug.

Definition check_key (snap : Snapshot) (signed : gmap AttemptRef string) (key : string) : key_outcome :=
  let classify (err : error) :=
    if Is err ErrUntrusted then KeyMiss else if Is err ErrCorrupt then KeyBad else KeyBug in
  match Verify snap key signed with
  | Ok h => match DecodeResult (hit_Result h) with Ok s => KeyHit h s | Err err => classify err end
  | Err err => classify err
  end.

(** The keys in order: the hits found and the bad keys, or [None] at the first
    key the snapshot could not verify. *)
Fixpoint check_keys (snap : Snapshot) (signed : gmap AttemptRef string) (keys : list string)
    (found : gmap string Hit) (decoded : gmap string (gmap string Value)) (bad : list string)
  : option (gmap string Hit * gmap string (gmap string Value) * list string) :=
  match keys with
  | [] => Some (found, decoded, bad)
  | key :: rest =>
      match check_key snap signed key with
      | KeyHit h s => check_keys snap signed rest (<[key := h]> found) (<[key := s]> decoded) bad
      | KeyMiss => check_keys snap signed rest found decoded bad
      | KeyBad => check_keys snap signed rest found decoded (bad ++ [key])
      | KeyBug => None
      end
  end.

Definition ref_sort_key (r : AttemptRef) : string := ref_JobID r +:+ String.String (byte_of 0) (ref_Attempt r).

Definition lookup_batch (name : string) (acc : result error lookup_state) (batch : list string)
  : eM (result error lookup_state) :=
  match acc with
  | Err err => mret (Err err)
  | Ok st =>
      producers ← perform (EProducers name batch) (fun h => w_Producers h name batch);
      match producers with
      | Err _ => mret (Err cacheUnavailable)
      | Ok producers =>
          let batchProducers : gset string := list_to_set ((map_to_list producers).*2) in
          let unverified := sort_strings (elements (batchProducers ∖ lk_verified st)) in
          signed ← load_checkpoints name st unverified;
          match signed with
          | Err err => mret (Err err)
          | Ok signed =>
              let st := mkLookup signed (batchProducers ∪ lk_verified st) (lk_found st) (lk_decoded st) in
              let batchSigned := filter (fun e => ref_JobID e.1 ∈ batchProducers) signed in
              if bool_decide (batchSigned = ∅) then mret (Ok st)
              else
                let refs := slice_sort (fun a b => String.ltb (ref_sort_key a) (ref_sort_key b))
                              ((map_range 20 batchSigned).*1) in
                snap ← perform (ELookup name batch refs) (fun h => w_Lookup h name batch refs);
                match snap with
                | Err err =>
                    if Is err ErrCorrupt then (_ ← emit (EIntegrity name "snapshot" 1); mret (Err cacheCorrupt))
                    else mret (Err cacheUnavailable)
                | Ok snap =>
                    match check_keys snap batchSigned (Keys snap) (lk_found st) (lk_decoded st) [] with
                    | None => mret (Err cacheUnavailable)
                    | Some (found, decoded, []) => mret (Ok (mkLookup signed (lk_verified st) found decoded))
                    | Some (_, _, bad) => _ ← emit (EIntegrity name "result" (length bad)); mret (Err cacheCorrupt)
                    end
                end
          end
      end
  end.

(** The keys of the stage, each once, in order. *)
Definition lookup_keys (sc : stageCache) : list string :=
  sort_strings (elements (list_to_set (C := gset string) (ct_lookupKey <$> (map_to_list (sc_byTask sc)).*2))).

Definition key_batches (sc : stageCache) : list (list string) :=
  let keys := lookup_keys sc in chunks (length keys) (Z.to_nat (set_LookupBatchSize (sc_settings sc))) keys.

(** The hits the found results give the stage's tasks, by task ID. *)
Definition task_hits (sc : stageCache) (st : lookup_state) : list (HitEntry * gmap string Value) :=
  omap (fun taskID =>
    ct ← sc_byTask sc !! taskID;
    s ← lk_decoded st !! ct_lookupKey ct;
    let h := default (mkHit "" "" "" "" "") (lk_found st !! ct_lookupKey ct) in
    Some (mkHitEntry taskID (ct_lookupKey ct) (ResultDigest (hit_Result h)) (hit_ProducerJobID h), s))
  (sort_strings ((map_to_list (sc_byTask sc)).*1)).

Definition lookupCached (sc : stageCache) : eM (result error (stageCache * gmap string (gmap string Value))) :=
  st ← foldM (lookup_batch (sc_name sc)) (key_batches sc) (Ok (mkLookup ∅ ∅ ∅ ∅));
  match st with
  | Err err => mret (Err err)
  | Ok st =>
      let hs := task_hits sc st in
      mret (Ok (set_hits sc (sc_hits sc ++ hs.*1), list_to_map ((fun '(h, s) => (h_TaskID h, s)) <$> hs)))
  end.

(** ** Storing *)

Definition put_entry (sc : stageCache) (ct : cachedTask) (taskID data respModel : string) : Entry :=
  mkEntry (sc_jobID sc) (sc_name sc) (sc_attempt sc) taskID (ct_lookupKey ct) data respModel (ct_source ct) (ct_target ct).

(** The result of a task that [putResults] considers: a struct naming a model. *)
Definition put_candidate (sc : stageCache) (r : TaskResult) : option (cachedTask * gmap string Value) :=
  ct ← sc_byTask sc !! res_TaskID r;
  match res_Error r, res_Result r with
  | None, Some (MStruct (Some s)) => if bool_decide (string_field s "model" = "") then None else Some (ct, s)
  | _, _ => None
  end.

Definition put_result (sc : stageCache) (r : TaskResult) : eM stageCache :=
  match put_candidate sc r, sc_cacheable sc with
  | Some (ct, s), Some c =>
      let id := res_TaskID r in
      let respModel := string_field s "model" in
      if negb (bool_decide (respModel = cm_Observed (ct_model ct))) then
        _ ← emit (EPutRefused (sc_name sc) id "model_mismatch"); mret sc
      else if negb (bool_decide (string_field s "deployment" = cm_Deployment (ct_model ct))) then
        _ ← emit (EPutRefused (sc_name sc) id "deployment_mismatch"); mret sc
      else
        match CacheableResult c s with
        | Some _ => _ ← emit (EPutRefused (sc_name sc) id "unusable_result"); mret sc
        | None =>
            match EncodeResult (Some s) with
            | Err _ => _ ← emit (EPutFailed (sc_name sc) id); mret sc
            | Ok data =>
                let e := put_entry sc ct id data respModel in
                err ← perform (EPut e) (fun h => w_Put h e);
                match err with
                | Some err =>
                    _ ← emit (EPutFailed (sc_name sc) id);
                    mret (if definite err then sc else set_uncertain sc)
                | None =>
                    mret (add_write sc (mkManifestEntry id RoleWrite (ct_lookupKey ct) (ResultDigest data) ""))
                end
            end
        end
  | _, _ => mret sc
  end.

Definition putResults (sc : stageCache) (results : list TaskResult) : eM stageCache := foldM put_result results sc.

(** ** Recording and sealing *)

(** A cut of [v] to at most [maxLoggedBytes] bytes, between characters. *)
Definition maxLoggedBytes : nat := 256.

Fixpoint rune_boundary (n : nat) (v : list ascii) : nat :=
  match n with
  | O => O
  | S n' => match v !! n with Some c => if RuneStart c then n else rune_boundary n' v | None => n end
  end.

Definition boundLogged (v : string) : string :=
  if (String.length v <=? maxLoggedBytes)%nat then v
  else string_of (take (rune_boundary maxLoggedBytes (bytes_of v)) (bytes_of v))
       +:+ string_of (utf8_encode 8230) +:+ "(cut from " +:+ Itoa (Z.of_nat (String.length v)) +:+ " bytes)".

Definition recordStage (sc : stageCache) : eM (stageCache * failure) :=
  let sc := set_hits sc (slice_sort (fun a b => String.ltb (h_TaskID a) (h_TaskID b)) (sc_hits sc)) in
  let rec := mkStageRecord (sc_jobID sc) (sc_name sc) (sc_attempt sc) (sc_hits sc) (sc_stats sc) in
  err ← perform (ERecord rec) (fun h => w_Record h rec);
  match err with
  | Some err => mret (if definite err then sc else set_uncertain sc, Some err)
  | None => mret (set_recorded sc, None)
  end.

(** [Store.Checkpoint] with the engine's seal callback, then the storing of
    the signed checkpoint. *)
Definition seal (sc : stageCache) : eM failure :=
  let m := expected sc in
  refused ← perform (ECheckpoint m) (fun h => w_Checkpoint h m);
  match refused with
  | Some err => mret (Some err)
  | None =>
      signed ← perform (ESign (ref sc) (Digest m)) (fun h => w_Sign h (ref sc) (Digest m));
      match signed with
      | Err err => mret (Some (errSealFailed :: err))
      | Ok signed =>
          committed ← ask (fun h => w_Commit h m);
          match committed with
          | Some err => mret (Some err)
          | None =>
              stored ← perform (EStoreCheckpoint (ref sc) signed) (fun h => w_StoreCheckpoint h (ref sc) signed);
              match stored with
              | Some err => mret (Some (errSealFailed :: err))
              | None => mret None
              end
          end
      end
  end.

Definition mismatch (err : error) : bool := negb (Is err errSealFailed) && Is err ErrCorrupt.

Definition mismatchReason (sc : stageCache) : string :=
  if sc_uncertain sc then "stage_record_uncertain" else "stage_record".

(** Whether it sealed. *)
Definition sealAfterFailure (sc : option stageCache) : eM bool :=
  match sc with
  | Some sc =>
      if negb (records (Some sc)) || bool_decide (sc_writes sc = []) then mret false
      else
        cancelled ← ask w_ctx_err;
        if cancelled : bool then mret false
        else
          err ← seal sc;
          match err with
          | None => mret true
          | Some err =>
              _ ← (if mismatch err then emit (EIntegrity (sc_name sc) (mismatchReason sc) 1) else mret tt);
              mret false
          end
  | None => mret false
  end.

Definition recordFailed : error := [ErrUnavailable].

Definition checkpointFailed (sc : stageCache) (cause : error) : eM error :=
  if mismatch cause then
    _ ← emit (EIntegrity (sc_name sc) (mismatchReason sc) 1);
    mret (if sc_uncertain sc then [ErrUnavailable] else [ErrCorrupt])
  else mret [ErrUnavailable].
End stagecache.
