(* ===== verification/Engine.v ===== *)
(** The analysis engine: [internal/analysis/engine.go].

    [Execute] validates a request, builds the DAG of the requested analyzers
    and runs its levels in order; [executeAnalyzer] takes one analyzer from
    its dependency check through work generation, cache lookup, dispatch,
    collection and aggregation to the report of its completion.

    The analyzers of one level run concurrently. None of them reads what
    another of its level writes ([executeAnalyzer] looks up only its own name
    and its dependencies, which are in lower levels), and what the outside
    answers each of them is arbitrary, so a level is a run of its analyzers in
    an order the runtime picks ([map_range] of the level's names). Spans,
    metrics and log lines are left out. *)

From S2P Require Import Prelude Float64 Gostrings Tenant Sha256 Json Jsonread Errors Effects Llm Dag Resultcache Stagecache.
Local Open Scope Z_scope.

(** * Definitions *)

Definition ErrEmptyJobID : sentinel := "analysis.ErrEmptyJobID".
Definition ErrNilInput : sentinel := "analysis.ErrNilInput".
Definition ErrUnknownTaskType : sentinel := "analysis.ErrUnknownTaskType".
(** The wrapped [ctx.Err()]: [context.Canceled] or [context.DeadlineExceeded]. *)
Definition context_error : sentinel := "ctx.Err()".

Definition MetadataCacheAttempt : string := "result_cache.attempt".

(** [ExecutionResult], which [executionState] guards with its mutex. *)
Record ExecutionResult := mkExecutionResult {
  Outputs : gmap string Output;
  Errors : gmap string error;
  Completed : list string;
  Failed : list string;
  Skipped : list string;
  CacheStats : gmap string Stats;
}.

Definition empty_result : ExecutionResult := mkExecutionResult ∅ ∅ [] [] [] ∅.

Section engine.
Context `{W : EngineWorld} {rt : GoRuntime}.

Abbreviation eM := (M effect).

Definition complete (name : string) (output : Output) (sc : option stageCache) (s : ExecutionResult) : ExecutionResult :=
  mkExecutionResult (<[name := output]> (Outputs s)) (Errors s) (Completed s ++ [name]) (Failed s) (Skipped s)
    (match sc with Some sc => <[name := sc_stats sc]> (CacheStats s) | None => CacheStats s end).

Definition fail (name : string) (err : error) (s : ExecutionResult) : ExecutionResult :=
  mkExecutionResult (Outputs s) (<[name := err]> (Errors s)) (Completed s) (Failed s ++ [name]) (Skipped s) (CacheStats s).

Definition skip (name : string) (s : ExecutionResult) : ExecutionResult :=
  mkExecutionResult (Outputs s) (Errors s) (Completed s) (Failed s) (Skipped s ++ [name]) (CacheStats s).

Definition isCompleted (name : string) (s : ExecutionResult) : bool := bool_decide (name ∈ Completed s).

(** ** One analyzer *)

(** How a run of [executeAnalyzer] ends. *)
Inductive outcome :=
| AlreadyCompleted
| ODone (output : Output) (sc : option stageCache)
| OFail (err : error)
| OSkip.

(** The context the analyzers see. *)
Definition with_catalogs (ctx : context) (req : ExecutionRequest) : actx :=
  mkActx ctx
    (if bool_decide (CatalogID req = "") then None else Some (CatalogID req))
    (match Controls req with
     | Some controls =>
         Some (foldl (fun m c => if bool_decide (CatalogId c = "") then m else <[ControlId c := CatalogId c]> m) ∅ controls)
     | None => None
     end).

Fixpoint generate_controls (ctx : actx) (name : string) (controls : list Control)
    (tasks : list Task) (origins : gmap string Control) : eM (result error (list Task * gmap string Control)) :=
  match controls with
  | [] => mret (Ok (tasks, origins))
  | c :: rest =>
      r ← perform (EGenerate name (MControl c)) (fun h => w_Generate h ctx name (MControl c));
      match r with
      | Err err => mret (Err (ErrAnalyzerFailed :: err))
      | Ok ts => generate_controls ctx name rest (tasks ++ ts) (foldl (fun m t => <[TaskID t := c]> m) origins ts)
      end
  end.

Definition generate (ctx : actx) (name : string) (req : ExecutionRequest)
  : eM (result error (list Task * gmap string Control)) :=
  match Controls req with
  | Some controls => generate_controls ctx name controls [] ∅
  | None =>
      let input := default (MOther "" "") (Input req) in
      r ← perform (EGenerate name input) (fun h => w_Generate h ctx name input);
      match r with
      | Err err => mret (Err (ErrAnalyzerFailed :: err))
      | Ok ts => mret (Ok (ts, ∅))
      end
  end.

(** The tasks to dispatch, and the results of those that carry theirs. *)
Definition dispatchable (tasks : list Task) : list Task := filter (fun t => PreBuiltResult t = false) tasks.
Definition preBuilt (tasks : list Task) : list TaskResult :=
  (fun t => mkTaskResult (TaskID t) (tk_TaskType t) (Some (Payload t)) None) <$> filter (fun t => PreBuiltResult t = true) tasks.

Definition remaining (cached : gmap string (gmap string Value)) (tasks : list Task) : list Task :=
  filter (fun t => cached !! TaskID t = None) tasks.
Definition reused (cached : gmap string (gmap string Value)) (tasks : list Task) : list TaskResult :=
  omap (fun t => s ← cached !! TaskID t; Some (mkTaskResult (TaskID t) (tk_TaskType t) (Some (MStruct (Some s))) None)) tasks.

(** The cache lookup of a stage: the tasks left to dispatch, the results that
    need none. *)
Definition reuse (sc : option stageCache) (dispatch : list Task) (pre : list TaskResult)
  : eM (result error (option stageCache * list Task * list TaskResult)) :=
  match sc with
  | Some s =>
      if lookups sc then
        r ← lookupCached s;
        match r with
        | Err err => mret (Err err)
        | Ok (s, cached) => mret (Ok (Some s, remaining cached dispatch, pre ++ reused cached dispatch))
        end
      else mret (Ok (sc, dispatch, pre))
  | None => mret (Ok (None, dispatch, pre))
  end.

Definition count_tasks (tasks dispatch : list Task) (sc : stageCache) : stageCache :=
  let st := sc_stats sc in
  set_stats sc (mkStats (s_Mode st) (s_Reason st) (s_Models st) (Z.of_nat (length tasks))
                  (Z.of_nat (length (sc_hits sc))) (Z.of_nat (length dispatch))).

Definition put_if (store : bool) (sc : option stageCache) (results : list TaskResult) : eM (option stageCache) :=
  match sc with
  | Some s => if store && puts sc then (s ← putResults s results; mret (Some s)) else mret sc
  | None => mret None
  end.

(** PrepareCollect, Dispatch and AwaitResults, in that order. *)
Definition collect (name : string) (sc : option stageCache) (dispatch : list Task)
  : eM (option stageCache * result error (list TaskResult)) :=
  match dispatch with
  | [] => mret (sc, Ok [])
  | _ =>
      handle ← perform (EPrepare name dispatch) (fun h => w_Prepare h name dispatch);
      match handle with
      | Err err => mret (sc, Err (ErrAnalyzerFailed :: err))
      | Ok cid =>
          sent ← perform (EDispatch name dispatch cid) (fun h => w_Dispatch h name dispatch cid);
          match sent with
          | Some err =>
              _ ← emit (ERelease cid); _ ← emit (EAbandon cid);
              mret (sc, Err (ErrAnalyzerFailed :: err))
          | None =>
              '(collected, err) ← perform (EAwait name cid) (fun h => w_Await h cid);
              match err with
              | Some err =>
                  cancelled ← ask w_ctx_err;
                  sc ← put_if (negb cancelled) sc collected;
                  mret (sc, Err (ErrAnalyzerFailed :: err))
              | None =>
                  sc ← put_if true sc collected;
                  mret (sc, Ok collected)
              end
          end
      end
  end.

(** [first] aside, whether some task's model gave no answer within its budget. *)
Definition outputTruncated (results : list TaskResult) : failure :=
  if existsb (fun r => match res_Error r with Some err => Is err ErrOutputTruncated | None => false end) results
  then Some [ErrOutputTruncated] else None.

Definition succeeded (r : TaskResult) : bool := match res_Error r with None => true | Some _ => false end.
Definition successes (results : list TaskResult) : list TaskResult := List.filter succeeded results.
Definition failures (results : list TaskResult) : Z := Z.of_nat (countb (fun r => negb (succeeded r)) results).

(** ** The ends of a stage *)

Definition finish_fail (name : string) (err : error) (report : bool) : eM outcome :=
  _ ← (if report then emit (EFailed name err) else mret tt); mret (OFail err).

Definition stop (name : string) (sc : option stageCache) (err : error) : eM outcome :=
  _ ← sealAfterFailure sc; finish_fail name err true.

(** The closure [complete]: record and seal the stage's cache use. The error
    is that of a stage that could not be. *)
Definition complete_cache (sc : option stageCache) (output : Output)
  : eM (option stageCache * result error Output) :=
  match sc with
  | Some s =>
      if negb (records sc) then mret (sc, Ok output)
      else
        '(s, err) ← recordStage s;
        match err with
        | Some _ => _ ← sealAfterFailure (Some s); mret (Some s, Err recordFailed)
        | None =>
            err ← seal s;
            match err with
            | Some cause => e ← checkpointFailed s cause; mret (Some s, Err e)
            | None =>
                mret (Some s, Ok (mkOutput (out_AnalyzerName output)
                  (<[MetadataCacheAttempt := sc_attempt s]> (out_Metadata output)) (out_Data output)))
            end
        end
  | None => mret (None, Ok output)
  end.

(** Seal, persist the completion, and only then complete. *)
Definition finish (name : string) (sc : option stageCache) (output : Output) : eM outcome :=
  '(sc, sealed) ← complete_cache sc output;
  match sealed with
  | Err err => finish_fail name err true
  | Ok output =>
      err ← perform (ECompleted name output) (fun h => w_Completed h name output);
      match err with
      | Some err => finish_fail name (ErrAnalyzerFailed :: err) false
      | None => mret (ODone output sc)
      end
  end.

Definition flag_partial (n : Z) (output : Output) : Output :=
  if 0 <? n then
    mkOutput (out_AnalyzerName output)
      (<["failed_tasks" := Itoa n]> (<["incomplete" := "true"]> (out_Metadata output))) (out_Data output)
  else output.

Definition aggregate (ctx : actx) (name : string) (sc : option stageCache) (results : list TaskResult) : eM outcome :=
  let ok := successes results in
  let n := failures results in
  if bool_decide (ok = []) && (0 <? n) then stop name sc [ErrAnalyzerFailed]
  else
    let input := if 0 <? n then ok else results in
    r ← perform (EAggregate name input) (fun h => w_Aggregate h ctx name input);
    match r with
    | Err err => stop name sc (ErrAnalyzerFailed :: err)
    | Ok output => finish name sc (flag_partial n output)
    end.

(** From the planned cache use to the end. *)
Definition run_tasks (ctx : actx) (name : string) (sc : option stageCache) (tasks : list Task) : eM outcome :=
  r ← reuse sc (dispatchable tasks) (preBuilt tasks);
  match r with
  | Err err => finish_fail name err true
  | Ok (sc, dispatch, pre) =>
      let sc := count_tasks tasks dispatch <$> sc in
      if bool_decide (dispatch = []) && bool_decide (pre = []) then
        finish name sc (mkOutput name {["tasks" := "0"]} "")
      else
        '(sc, r) ← collect name sc dispatch;
        match r with
        | Err err => stop name sc err
        | Ok results =>
            match outputTruncated results with
            | Some err => stop name sc err
            | None => aggregate ctx name sc (results ++ pre)
            end
        end
  end.

Definition executeAnalyzer (reg : Registry) (ctx : context) (name : string) (req : ExecutionRequest)
    (st : ExecutionResult) : eM outcome :=
  if isCompleted name st then mret AlreadyCompleted
  else
    match Get reg name with
    | Err _ => mret (OFail [ErrAnalyzerFailed])
    | Ok ra =>
        if existsb (fun dep => negb (isCompleted dep st)) (DependsOn ra) then mret OSkip
        else
          _ ← perform (EStarted name) (fun h => w_Started h name);
          let actx := with_catalogs ctx req in
          r ← generate actx name req;
          match r with
          | Err err => finish_fail name err true
          | Ok (tasks, origins) =>
              sc ← planCache ctx name req tasks origins;
              match sc with
              | Err err => finish_fail name (ErrAnalyzerFailed :: err) true
              | Ok sc => run_tasks actx name sc tasks
              end
          end
    end.

Definition apply_outcome (name : string) (o : outcome) (st : ExecutionResult) : ExecutionResult :=
  match o with
  | AlreadyCompleted => st
  | ODone output sc => complete name output sc st
  | OFail err => fail name err st
  | OSkip => skip name st
  end.

(** ** Levels *)

Definition run_analyzer (reg : Registry) (ctx : context) (req : ExecutionRequest) (st : ExecutionResult) (name : string)
  : eM ExecutionResult :=
  o ← executeAnalyzer reg ctx name req st; mret (apply_outcome name o st).

(** The order in which the runtime runs the goroutines of level [i]. *)
Definition level_order (i : nat) (level : list string) : list string :=
  (map_range (100 + i) (set_to_map (fun n => (n, tt)) (list_to_set (C := gset string) level))).*1.

Definition executeLevel (reg : Registry) (ctx : context) (req : ExecutionRequest) (i : nat) (level : list string)
    (st : ExecutionResult) : eM ExecutionResult :=
  foldM (run_analyzer reg ctx req) (level_order i level) st.

Fixpoint run_levels (reg : Registry) (ctx : context) (req : ExecutionRequest) (i : nat) (lvls : list (list string))
    (st : ExecutionResult) : eM (ExecutionResult * failure) :=
  match lvls with
  | [] => mret (st, None)
  | level :: rest =>
      st ← executeLevel reg ctx req i level st;
      cancelled ← ask w_ctx_err;
      if cancelled : bool then mret (foldl (fun st name => skip name st) st (concat rest), Some [context_error])
      else run_levels reg ctx req (S i) rest st
  end.

(** ** Execute *)

Definition buildDAG (reg : Registry) (req : ExecutionRequest) : option (result analyzer_error DAG) :=
  full ← BuildDAG reg;
  match full with
  | Err err => Some (Err err)
  | Ok dag => match AnalyzerNames req with [] => Some (Ok dag) | names => Subset dag names end
  end.

(** A Go error of the registry's package. *)
Definition dag_error (err : analyzer_error) : error :=
  [match err with
   | Dag.ErrInvalidName _ => "analyzer.ErrInvalidName"
   | ErrAlreadyRegistered _ => "analyzer.ErrAlreadyRegistered"
   | ErrNotFound _ => "analyzer.ErrNotFound"
   | ErrMissingDependency _ _ => "analyzer.ErrMissingDependency"
   | ErrCycleDetected _ => "analyzer.ErrCycleDetected"
   end].

(** The checks before any work, in order. *)
Definition validate (wired : bool) (ctx : context) (req : ExecutionRequest) : failure :=
  match FromContext ctx with
  | Err _ => Some [ErrNoTenant]
  | Ok _ =>
      if bool_decide (JobID req = "") then Some [ErrEmptyJobID]
      else if bool_decide (Input req = None) && bool_decide (default [] (Controls req) = []) then Some [ErrNilInput]
      else validateCache wired (Cache req)
  end.

(** The DAG to run, if the request is one the engine can run. *)
Definition admit_request (reg : Registry) (wired : bool) (taskTypes : gmap string string) (ctx : context)
    (req : ExecutionRequest) : option (result error DAG) :=
  match validate wired ctx req with
  | Some err => Some (Err err)
  | None =>
      dag ← buildDAG reg req;
      match dag with
      | Err err => Some (Err (dag_error err))
      | Ok dag =>
          if existsb (fun a => bool_decide (taskTypes !! Name a = None)) (Analyzers dag)
          then Some (Err [ErrUnknownTaskType]) else Some (Ok dag)
      end
  end.

Definition seed (req : ExecutionRequest) : ExecutionResult :=
  foldl (fun st '(name, output) => complete name output None st) empty_result (map_range 30 (CompletedOutputs req)).

(** [None] only if the model of the DAG construction runs out of fuel. The
    second component is the error returned with the result. *)
Definition Execute (reg : Registry) (wired : bool) (taskTypes : gmap string string) (ctx : context) (req : ExecutionRequest)
  : option (eM (result error (ExecutionResult * failure))) :=
  dag ← admit_request reg wired taskTypes ctx req;
  match dag with
  | Err err => Some (mret (Err err))
  | Ok dag => Some (r ← run_levels reg ctx req 0 (Levels dag) (seed req); mret (Ok r))
  end.
End engine.

(** * A world for examples *)

(** [structpb] with a value kept as the [any] it stands for. *)
Definition any_pb : StructPB := {|
  Value := any;
  GetStringValue v := as_string v;
  GetNumberValue v := match v with ANumber x => x | _ => Fin false 0 end;
  GetListValue v := match v with AList l => Some l | _ => None end;
  GetStructValue v := match v with AMap l => Some (list_to_map l) | _ => None end;
|}.

Definition any_json : @StructJSON any_pb :=
  @Build_StructJSON any_pb (fun v : any => v) (fun l : list (string * any) => Some (list_to_map l)).

(** Every call succeeds; work generation and the store are given. *)
Definition obliging_world (generate : string -> list (@Task any_pb))
    (await : list (@effect any_pb) -> string -> list (@TaskResult any_pb) * failure)
    (producers : string -> gmap string string) (verified : gmap AttemptRef string) (snapshot : string -> Snapshot) : EngineWorld := {|
  world_pb := any_pb;
  world_json := any_json;
  w_ctx_err _ := false;
  w_uuid _ := "a1";
  w_quote s := s;
  w_Started _ _ := None;
  w_Completed _ _ _ := None;
  w_Generate _ _ n _ := Ok (generate n);
  w_Aggregate _ _ n _ := Ok (mkOutput n ∅ "");
  w_Cacheable _ := None;
  w_Prepare _ _ _ := Ok "c1";
  w_Dispatch _ _ _ _ := None;
  w_Await := await;
  w_Producers _ n _ := Ok (producers n);
  w_Verified _ _ _ := Ok (mkVerified verified []);
  w_Lookup _ n _ _ := Ok (snapshot n);
  w_Put _ _ := None;
  w_Record _ _ := None;
  w_Checkpoint _ _ := None;
  w_Sign _ _ d := Ok d;
  w_Commit _ _ := None;
  w_StoreCheckpoint _ _ _ := None;
|}.

Definition no_cache : CacheSettings := mkSettings "" ∅ 0 ∅ "" false.
