(* ===== verification/EngineFacts.v ===== *)
(** What [Execute] guarantees about the analyzers it runs. *)

From S2P Require Import Prelude Float64 Gostrings Tenant Sha256 Json Jsonread Errors Effects Llm Dag DagFacts Resultcache Stagecache Engine.

(** * The DAG of a request *)

(** The declared dependencies of a registered analyzer. *)
Definition declared (reg : Registry) (n : string) : list string := deps_of (declared_edges (analyzers reg)) n.

Lemma declared_Some reg n a : analyzers reg !! n = Some a -> declared reg n = DependsOn a.
Proof. intros Ha. unfold declared, deps_of, declared_edges. by rewrite lookup_fmap, Ha. Qed.

Section facts.
Context `{W : EngineWorld} {rt : GoRuntime}.

(** The DAG holds registered analyzers with their declared dependencies. *)
Definition plan_of (reg : Registry) (dag : DAG) : Prop :=
  dag_ok dag /\ forall n, n ∈ Order dag -> is_Some (analyzers reg !! n) /\ deps_of (edges dag) n = declared reg n.

Lemma buildDAG_plan reg req dag : buildDAG reg req = Some (Ok dag) -> plan_of reg dag.
Proof.
  unfold buildDAG. destruct (BuildDAG reg) as [[full|err]|] eqn:HB; [|done|done]. cbn.
  destruct (BuildDAG_ok _ _ HB) as (Hn & He & Hok).
  assert (plan_of reg full) as Hfull.
  { split; [done|]. intros n Hin. unfold declared. rewrite He. split; [|done].
    rewrite (do_all _ Hok), elem_of_elements, elem_of_dom, Hn in Hin. done. }
  destruct (AnalyzerNames req) as [|n0 names0]; [by intros [= <-]|].
  set (names := n0 :: names0). clearbody names. intros HS.
  assert (Forall (fun n => is_Some (nodes full !! n)) names) as Hnames.
  { unfold Subset in HS. destruct (filter _ _) as [|x l] eqn:Hf; [|done].
    apply Forall_forall. intros x Hx. destruct (nodes full !! x) eqn:Hnx; [done|].
    assert (x ∈ filter (fun name => nodes full !! name = None) names) as Hin by (by apply list_elem_of_filter).
    rewrite Hf in Hin. by apply not_elem_of_nil in Hin. }
  destruct (Subset_needed full names Hok Hnames) as (d' & HS' & Hok' & _ & Hkeep).
  assert (d' = dag) as -> by congruence. split; [done|]. intros n Hin.
  destruct (Hkeep n Hin) as [Hnd Hed]. destruct Hfull as [_ Hfull].
  assert (n ∈ Order full) as Hinf.
  { rewrite (do_all _ Hok), elem_of_elements, elem_of_dom, <- Hnd, <- elem_of_dom, <- elem_of_elements.
    by rewrite <- (do_all _ Hok'). }
  destruct (Hfull n Hinf) as [Ha Hd]. split; [done|]. rewrite <- Hd. unfold deps_of. by rewrite Hed.
Qed.

(** * How an analyzer's run ends *)

(** The analyzer ran: its run ended in completion or failure. *)
Definition ran (o : outcome) : Prop := match o with ODone _ _ | OFail _ => True | _ => False end.

Lemma finish_fail_ran name err b : returns (finish_fail name err b) ran.
Proof. run_step. by apply returns_ret. Qed.

Lemma stop_ran name sc err : returns (stop name sc err) ran.
Proof. run_step. apply finish_fail_ran. Qed.

Lemma finish_ran name sc output : returns (finish name sc output) ran.
Proof.
  run_step. destruct a as [sc' [out|err]]; [|apply finish_fail_ran].
  run_step. destruct a as [err|]; [apply finish_fail_ran|by apply returns_ret].
Qed.

Lemma aggregate_ran ctx name sc results : returns (aggregate ctx name sc results) ran.
Proof.
  unfold aggregate. destruct (_ && _); [apply stop_ran|].
  run_step. destruct a; [apply finish_ran|apply stop_ran].
Qed.

Lemma run_tasks_ran ctx name sc tasks : returns (run_tasks ctx name sc tasks) ran.
Proof.
  run_step. destruct a as [[[sc' dispatch] pre]|err]; [|apply finish_fail_ran].
  destruct (_ && _); [apply finish_ran|]. run_step. destruct a as [sc'' [results|err]]; [|apply stop_ran].
  destruct (outputTruncated results); [apply stop_ran|apply aggregate_ran].
Qed.

(** What the outcome says of the state the analyzer started in. *)
Definition outcome_ok (reg : Registry) (n : string) (st : ExecutionResult) (o : outcome) : Prop :=
  match o with
  | AlreadyCompleted => n ∈ Completed st
  | OSkip => n ∉ Completed st /\ exists dep, dep ∈ declared reg n /\ dep ∉ Completed st
  | _ => n ∉ Completed st /\ forall dep, dep ∈ declared reg n -> dep ∈ Completed st
  end.

Lemma executeAnalyzer_outcome reg ctx n req st :
  is_Some (analyzers reg !! n) -> returns (executeAnalyzer reg ctx n req st) (outcome_ok reg n st).
Proof.
  intros [a Ha]. unfold executeAnalyzer, isCompleted, Get. case_bool_decide as Hc; [by apply returns_ret|].
  rewrite Ha. destruct (existsb _ (DependsOn a)) eqn:He.
  { apply returns_ret. split; [done|]. apply existsb_exists in He as (dep & Hin & Hd).
    exists dep. rewrite (declared_Some _ _ _ Ha). split; [by apply list_elem_of_In|]. by case_bool_decide. }
  assert (forall dep, dep ∈ declared reg n -> dep ∈ Completed st) as Hdeps.
  { intros dep Hdep. rewrite (declared_Some _ _ _ Ha) in Hdep. apply list_elem_of_In in Hdep.
    assert (existsb (fun dep => negb (bool_decide (dep ∈ Completed st))) (DependsOn a) = false) as Hx by done.
    case (decide (dep ∈ Completed st)); [done|]. intros Hno. exfalso.
    apply not_true_iff_false in Hx. apply Hx, existsb_exists. exists dep. split; [done|]. by rewrite bool_decide_eq_false_2. }
  assert (forall m : M effect outcome, returns m ran -> returns m (outcome_ok reg n st)) as Hran.
  { intros m Hm h. specialize (Hm h). destruct (m h).1; done. }
  apply Hran. run_step. run_step. destruct a1 as [[tasks origins]|err]; [|apply finish_fail_ran].
  run_step. destruct a1; [apply run_tasks_ran|apply finish_fail_ran].
Qed.

(** * The invariant of a run *)

(** After the analyzers [dn] have been visited; [seeds] were complete before. *)
Record run_inv (reg : Registry) (seeds dn : list string) (st : ExecutionResult) : Prop := {
  ri_parts : exists C, Completed st = seeds ++ C /\ C ++ Failed st ++ Skipped st ≡ₚ filter (.∉ seeds) dn;
  ri_completed : forall n, n ∈ Completed st -> n ∉ seeds -> forall dep, dep ∈ declared reg n -> dep ∈ Completed st;
  ri_failed : forall n, n ∈ Failed st -> is_Some (Errors st !! n) /\ forall dep, dep ∈ declared reg n -> dep ∈ Completed st;
  ri_skipped : forall n, n ∈ Skipped st -> exists dep, dep ∈ declared reg n /\ dep ∈ dn /\ dep ∉ Completed st;
  ri_outputs : forall n, n ∈ Completed st -> is_Some (Outputs st !! n);
}.

Lemma apply_outcome_inv reg seeds dn st n o :
  run_inv reg seeds dn st -> n ∉ dn -> (forall dep, dep ∈ declared reg n -> dep ∈ dn) ->
  outcome_ok reg n st o -> run_inv reg seeds (dn ++ [n]) (apply_outcome n o st).
Proof.
  intros [(C & HC & Hp) Hc Hf Hs Ho] Hn Hdeps Hok.
  assert (n ∈ Completed st <-> n ∈ seeds) as Hseed.
  { rewrite HC, elem_of_app. split; [|by left]. intros [?|Hin]; [done|].
    assert (n ∈ filter (.∉ seeds) dn) as [_ ?]%list_elem_of_filter by (rewrite <- Hp; set_solver). done. }
  assert (filter (.∉ seeds) (dn ++ [n]) = filter (.∉ seeds) dn ++ (if decide (n ∈ seeds) then [] else [n])) as Hfil.
  { rewrite filter_app. f_equal. rewrite filter_cons, filter_nil. by repeat case_decide. }
  destruct o as [|output sc|err|]; cbn [outcome_ok apply_outcome] in *.
  - split; cbn; try done.
    + exists C. rewrite Hfil, decide_True, app_nil_r by (by apply Hseed). done.
    + intros m Hm. destruct (Hs m Hm) as (dep & ? & ? & ?). exists dep. set_solver.
  - destruct Hok as [Hno Hall]. split; cbn.
    + exists (C ++ [n]). rewrite Hfil, decide_False, HC, app_assoc by (by rewrite <- Hseed). split; [done|].
      rewrite <- Hp. rewrite <- app_assoc. rewrite (Permutation_app_comm [n]). by rewrite <- !app_assoc.
    + intros m [Hm| ->%list_elem_of_singleton]%elem_of_app Hms dep Hdep; apply elem_of_app; left; [by eapply Hc|by apply Hall].
    + intros m Hm. destruct (Hf m Hm) as [? Hd]. split; [done|]. intros dep Hdep. apply elem_of_app. left. by apply Hd.
    + intros m Hm. destruct (Hs m Hm) as (dep & ? & ? & ?). exists dep. split; [done|]. split; [by apply elem_of_app; left|].
      intros [?| ->%list_elem_of_singleton]%elem_of_app; done.
    + intros m [Hm| ->%list_elem_of_singleton]%elem_of_app; [|by rewrite lookup_insert_eq].
      destruct (decide (m = n)) as [->|]; [by rewrite lookup_insert_eq|rewrite lookup_insert_ne; auto].
  - destruct Hok as [Hno Hall]. split; cbn; try done.
    + exists C. rewrite Hfil, decide_False by (by rewrite <- Hseed). split; [done|].
      rewrite <- Hp. rewrite <- !app_assoc. do 2 f_equiv. apply Permutation_app_comm.
    + intros m [Hm| ->%list_elem_of_singleton]%elem_of_app; [|by rewrite lookup_insert_eq].
      destruct (Hf m Hm) as [? Hd]. split; [|done].
      destruct (decide (m = n)) as [->|]; [by rewrite lookup_insert_eq|by rewrite lookup_insert_ne].
    + intros m Hm. destruct (Hs m Hm) as (dep & ? & ? & ?). exists dep. set_solver.
  - destruct Hok as [Hno (dep & Hdep & Hdno)]. split; cbn; try done.
    + exists C. rewrite Hfil, decide_False by (by rewrite <- Hseed). split; [done|].
      rewrite <- Hp. by rewrite <- !app_assoc.
    + intros m [Hm| ->%list_elem_of_singleton]%elem_of_app.
      * destruct (Hs m Hm) as (d & ? & ? & ?). exists d. set_solver.
      * exists dep. specialize (Hdeps dep Hdep). set_solver.
Qed.

Lemma run_inv_perm reg seeds dn dn' st : dn ≡ₚ dn' -> run_inv reg seeds dn st -> run_inv reg seeds dn' st.
Proof.
  intros Hp [(C & HC & HP) Hc Hf Hs Ho]. split; try done.
  - exists C. split; [done|]. by rewrite HP, Hp.
  - intros n Hn. destruct (Hs n Hn) as (dep & ? & Hin & ?). exists dep. rewrite <- Hp. done.
Qed.

Lemma run_list_inv reg ctx req seeds l dn st :
  NoDup (dn ++ l) ->
  (forall n, n ∈ l -> is_Some (analyzers reg !! n) /\ forall dep, dep ∈ declared reg n -> dep ∈ dn) ->
  run_inv reg seeds dn st -> returns (foldM (run_analyzer reg ctx req) l st) (run_inv reg seeds (dn ++ l)).
Proof.
  revert dn st. induction l as [|n l IH]; intros dn st Hnd Hl Hinv; cbn.
  - apply returns_ret. by rewrite app_nil_r.
  - destruct (Hl n ltac:(left)) as [Hreg Hdeps].
    eapply returns_bind with (P := run_inv reg seeds (dn ++ [n])).
    + unfold run_analyzer. eapply returns_bind; [by apply executeAnalyzer_outcome|].
      intros o Ho. apply returns_ret. apply apply_outcome_inv; try done.
      intros Hin. apply NoDup_app in Hnd as (_ & Hnd & _). apply (Hnd n Hin). left.
    + intros st' Hinv'. replace (dn ++ n :: l) with ((dn ++ [n]) ++ l) by (by rewrite <- app_assoc). apply IH; [by rewrite <- app_assoc| |done].
      intros m Hm. destruct (Hl m ltac:(by right)) as [? Hd]. split; [done|].
      intros dep Hdep. apply elem_of_app. left. by apply Hd.
Qed.

Lemma level_order_perm i level : NoDup level -> level_order i level ≡ₚ level.
Proof.
  intros Hnd. unfold level_order. rewrite map_range_perm.
  apply NoDup_Permutation; [apply NoDup_fst_map_to_list|done|]. intros n.
  rewrite list_elem_of_fmap. split.
  - intros ([m []] & -> & Hin). cbn. apply elem_of_map_to_list in Hin.
    apply lookup_set_to_map in Hin as (y & Hy & [= ->]); [|done]. by apply elem_of_list_to_set in Hy.
  - intros Hin. exists (n, tt). split; [done|]. apply elem_of_map_to_list, lookup_set_to_map; [done|].
    exists n. split; [by apply elem_of_list_to_set|done].
Qed.

(** The levels still to run come after [dn] and depend on what is before. *)
Definition levels_after (reg : Registry) (dn : list string) (lvls : list (list string)) : Prop :=
  NoDup (dn ++ concat lvls) /\
  forall i L n, lvls !! i = Some L -> n ∈ L ->
    is_Some (analyzers reg !! n) /\ forall dep, dep ∈ declared reg n -> dep ∈ dn ++ concat (take i lvls).

Definition run_result (reg : Registry) (seeds all : list string) (r : ExecutionResult * failure) : Prop :=
  match r.2 with
  | None => run_inv reg seeds all r.1
  | Some err => err = [context_error] /\ exists visited rest st0,
      all = visited ++ rest /\ run_inv reg seeds visited st0 /\ r.1 = foldl (fun st n => skip n st) st0 rest
  end.

Lemma run_levels_inv reg ctx req seeds i lvls dn st :
  levels_after reg dn lvls -> run_inv reg seeds dn st ->
  returns (run_levels reg ctx req i lvls st) (run_result reg seeds (dn ++ concat lvls)).
Proof.
  revert i dn st. induction lvls as [|L lvls IH]; intros i dn st [Hnd Hlv] Hinv; cbn.
  - apply returns_ret. unfold run_result. cbn. by rewrite app_nil_r.
  - cbn in Hnd. assert (NoDup L) as HndL by (apply NoDup_app in Hnd as (_ & _ & [HL _]%NoDup_app); done).
    pose proof (level_order_perm i L HndL) as Hperm.
    rewrite app_assoc. eapply returns_bind with (P := run_inv reg seeds (dn ++ L)).
    + intros h. apply (run_inv_perm reg seeds (dn ++ level_order i L)); [by rewrite Hperm|].
      apply (run_list_inv reg ctx req seeds (level_order i L) dn st); [| |done].
      * rewrite Hperm. rewrite app_assoc in Hnd. by apply NoDup_app in Hnd as [? _].
      * intros n Hn. rewrite Hperm in Hn. destruct (Hlv 0%nat L n eq_refl Hn) as [? Hd]. split; [done|].
        intros dep Hdep. specialize (Hd dep Hdep). cbn in Hd. by rewrite app_nil_r in Hd.
    + intros st' Hinv'. eapply returns_bind; [apply returns_any|]. intros [] _.
      * apply returns_ret. unfold run_result. cbn. split; [done|]. by exists (dn ++ L), (concat lvls), st'.
      * apply IH; [|done]. split; [by rewrite <- app_assoc|]. intros j L' n HL' Hn.
        destruct (Hlv (S j) L' n HL' Hn) as [? Hd]. split; [done|]. cbn in Hd. by rewrite <- app_assoc.
Qed.

Lemma seed_completed req : Completed (seed req) = (map_range 30 (CompletedOutputs req)).*1 /\
  Failed (seed req) = [] /\ Skipped (seed req) = [] /\ forall n, n ∈ Completed (seed req) -> is_Some (Outputs (seed req) !! n).
Proof.
  unfold seed. assert (forall l st, (forall n, n ∈ Completed st -> is_Some (Outputs st !! n)) ->
    let st' := foldl (fun st '(name, output) => complete name output None st) st l in
    Completed st' = Completed st ++ l.*1 /\ Failed st' = Failed st /\ Skipped st' = Skipped st /\
    forall n, n ∈ Completed st' -> is_Some (Outputs st' !! n)) as H.
  { induction l as [|[k o] l IH]; intros st Hst; cbn; [by rewrite app_nil_r|].
    destruct (IH (complete k o None st)) as (HC & HF & HS & Ho);
      [|cbn in *; split_and!; [by rewrite HC, <- app_assoc|by rewrite HF|by rewrite HS|exact Ho]].
    intros n [Hn| ->%list_elem_of_singleton]%elem_of_app; cbn; [|by rewrite lookup_insert_eq].
    destruct (decide (n = k)) as [->|]; [by rewrite lookup_insert_eq|rewrite lookup_insert_ne; auto]. }
  apply (H _ empty_result). by intros n ?%not_elem_of_nil.
Qed.

Lemma seed_inv reg req : run_inv reg ((map_range 30 (CompletedOutputs req)).*1) [] (seed req).
Proof.
  destruct (seed_completed req) as (HC & HF & HS & Ho). split; try done; rewrite ?HF, ?HS; try by intros n ?%not_elem_of_nil.
  - exists []. rewrite HC, app_nil_r. done.
  - intros n Hn. by rewrite HC in Hn.
Qed.

Lemma dag_levels_after reg dag : plan_of reg dag -> levels_after reg [] (Levels dag).
Proof.
  intros [Hok Hplan]. split; cbn.
  - rewrite <- (do_concat _ Hok), (do_all _ Hok). apply NoDup_elements.
  - intros i L n HL Hn.
    assert (n ∈ Order dag) as Hin by (rewrite (do_concat _ Hok); apply elem_of_concat_levels; exists i, L; done).
    destruct (Hplan n Hin) as [? Hd]. split; [done|]. intros dep Hdep.
    destruct (do_earlier _ Hok i n dep) as (j & Hj & L' & HL' & Hin'); [by exists L|unfold depends; by rewrite Hd|].
    apply elem_of_concat_levels. exists j, L'. rewrite lookup_take_lt by done. done.
Qed.

Lemma Execute_run reg wired tt ctx req m h r h' :
  Execute reg wired tt ctx req = Some m -> m h = (Ok r, h') ->
  exists dag, plan_of reg dag /\ buildDAG reg req = Some (Ok dag) /\ validate wired ctx req = None /\
    run_result reg ((map_range 30 (CompletedOutputs req)).*1) (Order dag) r.
Proof.
  unfold Execute, admit_request. destruct (validate wired ctx req); [by intros [= <-]|].
  destruct (buildDAG reg req) as [[dag|err]|] eqn:HB; cbn; [|by intros [= <-]|done].
  destruct (existsb _ _); cbn; [by intros [= <-]|]. intros [= <-] Hr.
  pose proof (buildDAG_plan _ _ _ HB) as Hplan. exists dag. split_and!; try done.
  pose proof (run_levels_inv reg ctx req _ 0%nat (Levels dag) [] (seed req) (dag_levels_after _ _ Hplan) (seed_inv reg req) h) as Hinv.
  unfold mbind, M_bind in Hr. destruct (run_levels _ _ _ _ _ _ h) as [r0 h0]. cbn in Hinv, Hr.
  injection Hr as -> _. destruct Hplan as [Hok _]. by rewrite (do_concat _ Hok).
Qed.

Lemma foldl_skip rest st :
  let st' := foldl (fun st n => skip n st) st rest in
  Skipped st' = Skipped st ++ rest /\ Completed st' = Completed st /\ Failed st' = Failed st.
Proof.
  revert st. induction rest as [|n rest IH]; intros st; cbn; [by rewrite app_nil_r|].
  destruct (IH (skip n st)) as (-> & -> & ->). cbn. by rewrite <- app_assoc.
Qed.

(** C1. [Execute] accounts for every analyzer of its DAG. On a run that is not
    cancelled, every analyzer that was not already complete ends in exactly
    one of Completed, Failed and Skipped, once; it is skipped exactly when one
    of its dependencies did not complete, so no analyzer runs before all it
    depends on has completed; every completed one has an output and every
    failed one an error. A cancelled run returns the context's error and still
    lists every analyzer. *)
Theorem Execute_outcomes reg wired taskTypes ctx req m h st err h' :
  Execute reg wired taskTypes ctx req = Some m -> m h = (Ok (st, err), h') ->
  exists dag, buildDAG reg req = Some (Ok dag) /\
    match err with
    | None =>
        (exists C, Completed st ≡ₚ elements (dom (CompletedOutputs req)) ++ C /\
           C ++ Failed st ++ Skipped st ≡ₚ filter (.∉ dom (CompletedOutputs req)) (Order dag)) /\
        (forall n, n ∈ Order dag -> n ∉ dom (CompletedOutputs req) ->
           (n ∈ Skipped st <-> exists dep, dep ∈ declared reg n /\ dep ∉ Completed st)) /\
        (forall n, n ∈ Completed st -> is_Some (Outputs st !! n)) /\
        (forall n, n ∈ Failed st -> is_Some (Errors st !! n))
    | Some e => e = [context_error] /\ forall n, n ∈ Order dag -> n ∈ Completed st ++ Failed st ++ Skipped st
    end.
Proof.
  intros HE Hm. destruct (Execute_run _ _ _ _ _ _ _ _ _ HE Hm) as (dag & _ & HB & _ & Hr).
  exists dag. split; [done|]. unfold run_result in Hr. cbn in Hr.
  set (seeds := (map_range 30 (CompletedOutputs req)).*1) in Hr.
  assert (seeds ≡ₚ elements (dom (CompletedOutputs req))) as Hseeds.
  { apply NoDup_Permutation; [apply map_range_NoDup|apply NoDup_elements|].
    intros n. rewrite elem_of_elements. apply elem_of_map_range_keys. }
  assert (forall n, n ∈ seeds <-> n ∈ dom (CompletedOutputs req)) as Hin
    by (intros n; by rewrite Hseeds, elem_of_elements).
  destruct err as [e|].
  - destruct Hr as (-> & visited & rest & st0 & Hord & [(C & HC & HP) _ _ _ _] & ->). split; [done|].
    destruct (foldl_skip rest st0) as (-> & -> & ->). intros n Hn. rewrite Hord in Hn.
    rewrite !elem_of_app.
    apply elem_of_app in Hn as [Hn|Hn]; [|by do 3 right].
    destruct (decide (n ∈ seeds)); [left; rewrite HC; apply elem_of_app; by left|].
    assert (n ∈ C ++ Failed st0 ++ Skipped st0) as Hc by (rewrite HP; by apply list_elem_of_filter).
    rewrite HC, elem_of_app. rewrite !elem_of_app in Hc. naive_solver.
  - destruct Hr as [(C & HC & HP) Hc Hf Hs Ho].
    assert (filter (.∉ seeds) (Order dag) = filter (.∉ dom (CompletedOutputs req)) (Order dag)) as Hfil
      by (apply filter_ext_in; intros n _; by rewrite Hin).
    split_and!; try done.
    + exists C. rewrite HC, Hseeds, <- Hfil. done.
    + intros n Hn Hns. split; [intros Hsk; destruct (Hs n Hsk) as (dep & ? & _ & ?); by exists dep|].
      intros (dep & Hdep & Hno).
      assert (n ∈ C ++ Failed st ++ Skipped st) as Hcase by (rewrite HP; apply list_elem_of_filter; by rewrite Hin).
      apply elem_of_app in Hcase as [Hcase|[Hcase|Hcase]%elem_of_app]; [| |done].
      * destruct Hno. apply (Hc n); [rewrite HC; apply elem_of_app; by right|by rewrite Hin|done].
      * destruct Hno. by apply (Hf n).
    + intros n Hn. by apply Hf.
Qed.
End facts.

(** * Witness *)

(** Analyzer "classification" has no tasks; "artifacts" fails to collect, so
    nothing that depends on it runs. *)
Definition small_registry : Registry := mkRegistry (list_to_map ((fun a => (Name a, a)) <$>
  [mkAnalyzer "classification" []; mkAnalyzer "artifacts" []; mkAnalyzer "requires" ["artifacts"]])).

Definition small_world : EngineWorld :=
  obliging_world (fun n => if bool_decide (n = "artifacts") then [mkTask "t" n (MOther "" "") false] else [])
    (fun _ _ => ([], Some ["analysis.ErrTaskTimeout"])) (fun _ => ∅) ∅ (fun n => NewSnapshot n ∅ ∅).

Definition small_request : @ExecutionRequest any_pb :=
  mkExecution _ "job-1" [] (Some (MOther "" "")) None "" ∅ no_cache.

Definition small_ctx : context := mkContext (Some "acme") None.

Definition small_run : option (M effect (result error (ExecutionResult * failure))) :=
  @Execute small_world forward_runtime small_registry false
    (list_to_map [("classification", "classify"); ("artifacts", "artifacts"); ("requires", "requires")]) small_ctx small_request.

Definition small_result : ExecutionResult :=
  match small_run with
  | Some m => match (m []).1 with Ok (st, _) => st | Err _ => empty_result end
  | None => empty_result
  end.

Lemma Execute_outcomes_witness :
  (Completed small_result, Failed small_result, Skipped small_result) = (["classification"], ["artifacts"], ["requires"]) /\
  exists dag, @buildDAG small_world forward_runtime small_registry small_request = Some (Ok dag) /\
    (exists C, Completed small_result ≡ₚ elements (dom (CompletedOutputs small_request)) ++ C /\
       C ++ Failed small_result ++ Skipped small_result ≡ₚ filter (.∉ dom (CompletedOutputs small_request)) (Order dag)) /\
    (forall n, n ∈ Order dag -> n ∉ dom (CompletedOutputs small_request) ->
       (n ∈ Skipped small_result <-> exists dep, dep ∈ declared small_registry n /\ dep ∉ Completed small_result)) /\
    (forall n, n ∈ Completed small_result -> is_Some (Outputs small_result !! n)) /\
    (forall n, n ∈ Failed small_result -> is_Some (Errors small_result !! n)).
Proof.
  split; [vm_compute; reflexivity|].
  assert (match small_run with Some m => (m []).1 | None => Err [] end = Ok (small_result, None)) as Hx
    by (vm_compute; reflexivity).
  destruct small_run as [m|] eqn:Hm; [|discriminate Hx].
  destruct (m []) as [r h'] eqn:Hr. cbn [fst] in Hx. rewrite Hx in Hr. unfold small_run in Hm.
  exact (@Execute_outcomes small_world forward_runtime small_registry false _ small_ctx small_request m [] small_result None h' Hm Hr).
Defined.
