(* ===== verification/StageFacts.v ===== *)
(** What one stage writes, signs and reports, whatever the outside answers. *)

From S2P Require Import Prelude Float64 Gostrings Tenant Sha256 Json Jsonread Errors Effects Llm Dag Resultcache ResultcacheFacts Stagecache Engine.
Local Open Scope Z_scope.

Section stage.
Context `{W : EngineWorld} {rt : GoRuntime}.

(** One run of [executeAnalyzer] for [name], begun at history [h0]. *)
Context (ctx : context) (req : ExecutionRequest) (name : string) (h0 : list effect).

(** * What the outside has accepted so far *)

Definition put_row (e : Entry) : ManifestEntry :=
  mkManifestEntry (e_TaskID e) RoleWrite (e_CacheKey e) (ResultDigest (e_Result e)) "".

Definition accepted_write (h : list effect) (e : effect) : list ManifestEntry :=
  match e with EPut en => match w_Put h en with None => [put_row en] | Some _ => [] end | _ => [] end.

Definition accepted_record (h : list effect) (e : effect) : list StageRecord :=
  match e with ERecord rec => match w_Record h rec with None => [rec] | Some _ => [] end | _ => [] end.

(** The rows the store has accepted from the stage after the calls [log]. *)
Definition accepted_manifest (tenantID attempt : string) (log : list effect) : Manifest :=
  mkManifest tenantID (JobID req) name attempt
    (picked accepted_write h0 log ++ (picked accepted_record h0 log ≫= fun rec => hit_row <$> r_Hits rec))
    (r_Stats <$> picked accepted_record h0 log).

(** The request uses the cache's records at all. *)
Definition caching : Prop := set_Mode (Cache req) <> "" /\ set_Mode (Cache req) <> ModeDisabled.

(** A result the collector returned to this stage. *)
Definition awaited (r : TaskResult) (log : list effect) : Prop :=
  exists l1 cid l2, log = l1 ++ EAwait name cid :: l2 /\ r ∈ (w_Await (h0 ++ l1) cid).1.

(** An entry that may be stored: a result of this stage without error, whose
    model and deployment are the ones the job's probe observed for the alias
    of the task's request, stored under that request's key, and which the
    analyzer would use. *)
Definition storable (log : list effect) (en : Entry) : Prop :=
  exists c use cm cr t s r,
    w_Cacheable name = Some c /\ TaskID t = e_TaskID en /\ PreBuiltResult t = false /\ CacheIdentity c t = Some cr /\
    set_Models (Cache req) !! use = Some cm /\ cm_Observed cm <> "" /\
    e_JobID en = JobID req /\ e_Analyzer en = name /\
    e_CacheKey en = Key name (cr_Identity cr) (model_identity cm) /\
    e_ResponseModel en = cm_Observed cm /\ string_field s "model" = cm_Observed cm /\
    string_field s "deployment" = cm_Deployment cm /\
    CacheableResult c s = None /\ EncodeResult (Some s) = Ok (e_Result en) /\
    awaited r log /\ res_TaskID r = e_TaskID en /\ res_Error r = None /\ res_Result r = Some (MStruct (Some s)).

(** The checkpoint of an attempt was stored by the last of [log]. *)
Definition just_sealed (attempt : string) (log : list effect) : Prop :=
  exists l signed, log = l ++ [EStoreCheckpoint (mkRef (JobID req) name attempt) signed] /\
    w_StoreCheckpoint (h0 ++ l) (mkRef (JobID req) name attempt) signed = None.

(** The collector has just prepared a collection of exactly [tasks]. *)
Definition prepared (tasks : list Task) (cid : string) (log : list effect) : Prop :=
  exists l, log = l ++ [EPrepare name tasks] /\ w_Prepare (h0 ++ l) name tasks = Ok cid.

(** The tasks of that collection have just been dispatched, without an error. *)
Definition dispatched (cid : string) (log : list effect) : Prop :=
  exists l tasks, log = l ++ [EDispatch name tasks cid] /\ w_Dispatch (h0 ++ l) name tasks cid = None.

(** The calls a stage may make after the calls [log]. *)
Definition call_rule (log : list effect) (e : effect) : Prop :=
  match e with
  | EProducers _ _ | EVerified _ _ | ELookup _ _ _ => set_Mode (Cache req) = ModeEnabled
  | EDispatch n tasks cid => n = name /\ prepared tasks cid log
  | EAwait n cid => n = name /\ dispatched cid log
  | EPut en => caching /\ storable log en
  | ERecord rec => caching /\ r_JobID rec = JobID req /\ r_Analyzer rec = name
  | ECheckpoint m => caching /\ exists t a, FromContext ctx = Ok t /\ m = accepted_manifest t a log
  | ESign r d => caching /\ exists t a, FromContext ctx = Ok t /\ r = mkRef (JobID req) name a /\
      d = Digest (accepted_manifest t a log)
  | EStoreCheckpoint r signed => caching /\ exists l d, log = l ++ [ESign r d] /\ w_Sign (h0 ++ l) r d = Ok signed
  | ECompleted n output => n = name /\
      (caching -> exists a, just_sealed a log /\ out_Metadata output !! MetadataCacheAttempt = Some a)
  | _ => True
  end.

Definition rule (h : list effect) (e : effect) : Prop := forall log, h = h0 ++ log -> call_rule log e.

(** * The invariant of the stage's record *)

Definition byTask_ok (sc : stageCache) : Prop :=
  forall id ct, sc_byTask sc !! id = Some ct ->
    exists use c t, sc_cacheable sc = Some c /\ TaskID t = id /\ PreBuiltResult t = false /\
      CacheIdentity c t = Some (ct_request ct) /\
      set_Models (Cache req) !! use = Some (ct_model ct) /\ cm_Observed (ct_model ct) <> "" /\
      ct_lookupKey ct = Key name (cr_Identity (ct_request ct)) (model_identity (ct_model ct)).

Record stage_inv (sc : stageCache) (log : list effect) : Prop := {
  si_name : sc_name sc = name;
  si_tenant : FromContext ctx = Ok (sc_tenantID sc);
  si_job : sc_jobID sc = JobID req;
  si_settings : sc_settings sc = Cache req;
  si_mode : set_Mode (Cache req) <> "";
  si_cacheable : forall c, sc_cacheable sc = Some c -> w_Cacheable name = Some c /\ set_Mode (Cache req) <> ModeDisabled;
  si_tasks : byTask_ok sc;
  si_writes : sc_writes sc = picked accepted_write h0 log;
  si_record : picked accepted_record h0 log =
    if sc_recorded sc then [mkStageRecord (JobID req) name (sc_attempt sc) (sc_hits sc) (sc_stats sc)] else [];
}.

(** The program has reached [h0 ++ log] with [phi log]. *)
Definition at_log (phi : list effect -> Prop) (h : list effect) : Prop := exists log, h = h0 ++ log /\ phi log.

Definition opt_inv (sc : option stageCache) (log : list effect) : Prop :=
  match sc with Some sc => stage_inv sc log | None => set_Mode (Cache req) = "" end.

(** Before the stage record is written. *)
Definition live (sc : stageCache) (log : list effect) : Prop := stage_inv sc log /\ sc_recorded sc = false.
Definition opt_live (sc : option stageCache) (log : list effect) : Prop :=
  match sc with Some sc => live sc log | None => set_Mode (Cache req) = "" end.

Lemma opt_live_inv sc log : opt_live sc log -> opt_inv sc log.
Proof. destruct sc; [by intros []|done]. Qed.

Lemma expected_accepted sc log : stage_inv sc log -> expected sc = accepted_manifest (sc_tenantID sc) (sc_attempt sc) log.
Proof.
  intros [Hn _ Hj _ _ _ _ Hw Hr]. unfold expected, accepted_manifest. rewrite Hn, Hj, Hw, Hr.
  destruct (sc_recorded sc); cbn; by rewrite ?app_nil_r.
Qed.

(** Calls that write nothing to the store. *)
Definition quiet (e : effect) : bool := match e with EPut _ | ERecord _ => false | _ => true end.

Lemma stage_inv_quiet sc log e : quiet e = true -> stage_inv sc log -> stage_inv sc (log ++ [e]).
Proof.
  intros Hq [H1 H2 H3 H4 H5 H6 H7 Hw Hr]. split; try done; rewrite picked_snoc, ?Hw, ?Hr;
    by destruct e; cbn in *; rewrite ?app_nil_r.
Qed.

Lemma opt_inv_quiet sc log e : quiet e = true -> opt_inv sc log -> opt_inv sc (log ++ [e]).
Proof. destruct sc; [apply stage_inv_quiet|done]. Qed.

Lemma opt_live_quiet sc log e : quiet e = true -> opt_live sc log -> opt_live sc (log ++ [e]).
Proof. intros Hq. destruct sc; [|done]. intros [? ?]. split; [by apply stage_inv_quiet|done]. Qed.

Lemma rule_at log e : rule (h0 ++ log) e <-> call_rule log e.
Proof. unfold rule. split; [by intros H; apply H|]. by intros H log' <-%app_inv_head. Qed.

(** One call: it is allowed, and it keeps what is known of the log. *)
Lemma hoare_call {A} phi e (f : list effect -> A) (post : A -> list effect -> Prop) :
  (forall log, phi log -> call_rule log e /\ post (f (h0 ++ log)) (log ++ [e])) ->
  hoare rule (at_log phi) (perform e f) (fun a => at_log (post a)).
Proof.
  intros H. apply hoare_perform. intros h (log & -> & Hp). destruct (H log Hp) as [Hr Hpost].
  split; [by apply rule_at|]. exists (log ++ [e]). by rewrite app_assoc.
Qed.

Lemma hoare_done {A} phi (a : A) (post : A -> list effect -> Prop) :
  (forall log, phi log -> post a log) -> hoare rule (at_log phi) (mret a) (fun a => at_log (post a)).
Proof. intros H. apply hoare_ret. intros h (log & -> & Hp). exists log. auto. Qed.

Lemma hoare_read {A} phi (f : list effect -> A) (post : A -> list effect -> Prop) :
  (forall log, phi log -> post (f (h0 ++ log)) log) -> hoare rule (at_log phi) (ask f) (fun a => at_log (post a)).
Proof. intros H. apply hoare_ask. intros h (log & -> & Hp). exists log. auto. Qed.

Lemma hoare_weaken {A} (phi phi' : list effect -> Prop) (m : M effect A) (post post' : A -> list effect -> Prop) :
  hoare rule (at_log phi) m (fun a => at_log (post a)) ->
  (forall log, phi' log -> phi log) -> (forall a log, post a log -> post' a log) ->
  hoare rule (at_log phi') m (fun a => at_log (post' a)).
Proof.
  intros Hm Hpre Hpost. eapply hoare_conseq; [exact Hm| |].
  - intros h (log & -> & Hp). exists log. auto.
  - intros a h (log & -> & Hp). exists log. auto.
Qed.

Lemma hoare_emit_then {A} phi psi e (m : M effect A) (post : A -> list effect -> Prop) :
  (forall log, phi log -> call_rule log e /\ psi (log ++ [e])) ->
  hoare rule (at_log psi) m (fun a => at_log (post a)) ->
  hoare rule (at_log phi) (_ ← emit e; m) (fun a => at_log (post a)).
Proof.
  intros He Hm. eapply hoare_bind with (mid := fun _ => at_log psi); [|done].
  apply (hoare_call phi e (fun _ => tt) (fun _ => psi)). auto.
Qed.

Lemma hoare_seq {A B} phi psi (m : M effect A) (f : A -> M effect B) (post : B -> list effect -> Prop) :
  hoare rule (at_log phi) m (fun a => at_log (psi a)) ->
  (forall a, hoare rule (at_log (psi a)) (f a) (fun b => at_log (post b))) ->
  hoare rule (at_log phi) (m ≫= f) (fun b => at_log (post b)).
Proof. intros Hm Hf. by eapply hoare_bind. Qed.

(** * Storing results *)

Lemma caching_of sc log c : stage_inv sc log -> sc_cacheable sc = Some c -> caching.
Proof. intros Hi Hc. split; [by apply (si_mode _ _ Hi)|]. by apply (si_cacheable _ _ Hi) in Hc as []. Qed.

Lemma awaited_mono r log l : awaited r log -> awaited r (log ++ l).
Proof.
  intros (l1 & cid & l2 & -> & Hr). exists l1, cid, (l2 ++ l). split; [|done]. by rewrite <- !app_assoc.
Qed.

Lemma put_candidate_Some sc r ct s :
  put_candidate sc r = Some (ct, s) ->
  sc_byTask sc !! res_TaskID r = Some ct /\ res_Error r = None /\ res_Result r = Some (MStruct (Some s)) /\
  string_field s "model" <> "".
Proof.
  unfold put_candidate. destruct (sc_byTask sc !! res_TaskID r) as [ct'|]; [|done]. cbn.
  destruct (res_Error r), (res_Result r) as [[[s'|]| |]|]; try done. case_bool_decide; [done|].
  intros [= -> ->]. done.
Qed.

Lemma put_result_spec sc r :
  hoare rule (at_log (fun log => live sc log /\ awaited r log)) (put_result sc r) (fun sc' => at_log (live sc')).
Proof.
  unfold put_result. destruct (put_candidate sc r) as [[ct s]|] eqn:Hcand; [|by apply hoare_done; intros log [? _]].
  destruct (sc_cacheable sc) as [c|] eqn:Hc; [|by apply hoare_done; intros log [? _]].
  apply put_candidate_Some in Hcand as (Hct & Herr & Hres & Hmodel).
  assert (forall reason, hoare rule (at_log (fun log => live sc log /\ awaited r log))
    (_ ← emit (EPutRefused (sc_name sc) (res_TaskID r) reason); mret sc) (fun sc' => at_log (live sc'))) as Hrefuse.
  { intros reason. refine (hoare_emit_then _ (live sc) _ _ live _ _); [|by apply hoare_done].
    intros log [[Hi Hrec] _]. split; [done|]. split; [by apply stage_inv_quiet|done]. }
  case_bool_decide as Hm; [|apply Hrefuse]. case_bool_decide as Hd; [|apply Hrefuse]. cbn [negb].
  destruct (CacheableResult c s) eqn:Hu; [apply Hrefuse|].
  destruct (EncodeResult (Some s)) as [data|err] eqn:Henc.
  2: { refine (hoare_emit_then _ (live sc) _ _ live _ _); [|by apply hoare_done].
       intros log [[Hi Hrec] _]. split; [done|]. split; [by apply stage_inv_quiet|done]. }
  set (en := put_entry sc ct (res_TaskID r) data (string_field s "model")).
  eapply hoare_seq.
  - apply (hoare_call _ _ _ (fun err log => match err with
      | None => live (add_write sc (put_row en)) log
      | Some _ => live sc log end)).
    intros log [[Hi Hrec] Haw]. split.
    + split; [by eapply caching_of|]. destruct (si_tasks _ _ Hi _ _ Hct) as (use & c' & t & Hc' & Ht & Hpre & Hid & Huse & Hobs & Hkey).
      assert (c' = c) as -> by congruence. apply (si_cacheable _ _ Hi) in Hc as [Hc _].
      exists c, use, (ct_model ct), (ct_request ct), t, s, r. unfold en, put_entry; cbn.
      split_and!; try done; by rewrite ?(si_job _ _ Hi), ?(si_name _ _ Hi).
    + destruct (w_Put (h0 ++ log) en) as [err|] eqn:Hp.
      * split; [|done]. destruct Hi as [H1 H2 H3 H4 H5 H6 H7 Hw Hr]. split; try done; rewrite picked_snoc; cbn;
          rewrite ?Hp, ?app_nil_r; done.
      * split; [|done]. destruct Hi as [H1 H2 H3 H4 H5 H6 H7 Hw Hr]. split; try done; rewrite picked_snoc; cbn;
          rewrite ?Hp, ?Hw, ?Hr, ?app_nil_r; done.
  - intros [err|]; [|by apply hoare_done].
    refine (hoare_emit_then _ (live sc) _ _ live _ _).
    { intros log [Hi Hrec]. split; [done|]. split; [by apply stage_inv_quiet|done]. }
    apply hoare_done. intros log [Hi Hrec]. case_match; [done|]. split; [|done]. destruct Hi. by split.
Qed.

Lemma putResults_spec sc results :
  hoare rule (at_log (fun log => live sc log /\ Forall (fun r => awaited r log) results)) (putResults sc results)
    (fun sc' => at_log (live sc')).
Proof.
  unfold putResults. revert sc. induction results as [|r results IH]; intros sc; cbn.
  - by apply hoare_done; intros log [? _].
  - intros h (log & -> & Hl & Haw). apply Forall_cons in Haw as [Hr Haw].
    destruct (put_result_spec sc r (h0 ++ log)) as (l1 & E1 & A1 & (log1 & Heq & P1)); [by exists log|].
    unfold mbind, M_bind. destruct (put_result sc r (h0 ++ log)) as [sc1 h1]. cbn in *. subst h1.
    rewrite <- app_assoc in Heq. apply app_inv_head in Heq as <-.
    destruct (IH sc1 (h0 ++ log ++ l1)) as (l2 & E2 & A2 & P2).
    { exists (log ++ l1). split; [done|]. split; [done|]. eapply Forall_impl; [exact Haw|]. intros. by apply awaited_mono. }
    exists (l1 ++ l2). rewrite <- app_assoc. rewrite E2. split; [by rewrite !app_assoc|].
    split; [apply allowed_app; split; [done|by rewrite <- app_assoc]|]. by rewrite !app_assoc in *.
Qed.

(** * Recording and sealing *)

Lemma live_set_hits sc hits log : live sc log -> live (set_hits sc hits) log.
Proof. intros [[] Hrec]. split; [|done]. split; try done. cbn in *. by rewrite Hrec in *. Qed.

Lemma live_set_stats sc st log : live sc log -> live (set_stats sc st) log.
Proof. intros [[] Hrec]. split; [|done]. split; try done. cbn in *. by rewrite Hrec in *. Qed.

Lemma recordStage_spec sc :
  hoare rule (at_log (fun log => live sc log /\ caching)) (recordStage sc)
    (fun r => at_log (fun log => stage_inv r.1 log /\ caching)).
Proof.
  unfold recordStage. set (sc1 := set_hits sc _). set (rec := mkStageRecord _ _ _ _ _).
  eapply hoare_seq.
  - apply (hoare_call _ _ _ (fun err log => caching /\ match err with
      | None => stage_inv (set_recorded sc1) log
      | Some _ => stage_inv sc1 log /\ sc_recorded sc1 = false end)).
    intros log [Hl Hca]. apply (live_set_hits _ (sc_hits sc1)) in Hl. change (set_hits sc (sc_hits sc1)) with sc1 in Hl.
    destruct Hl as [[H1 H2 H3 H4 H5 H6 H7 Hw Hr] Hrec]. split.
    { split; [done|]. unfold rec; cbn. split; [apply H3|apply H1]. }
    split; [done|]. destruct (w_Record (h0 ++ log) rec) as [err|] eqn:Hre.
    + split; [|done]. split; try done; rewrite picked_snoc; cbn; rewrite ?Hre, ?app_nil_r; done.
    + split; try done; rewrite picked_snoc; cbn; rewrite ?Hre, ?app_nil_r; [done|].
      rewrite Hr, Hrec. cbn. unfold rec. by rewrite <- H3, <- H1.
  - intros [err|].
    + apply hoare_done. intros log (Hca & Hi & Hrec). split; [|done]. cbn. case_match; [done|]. destruct Hi. by split.
    + apply hoare_done. intros log [Hca Hi]. done.
Qed.

Lemma just_sealed_intro sc log signed :
  stage_inv sc log -> w_StoreCheckpoint (h0 ++ log) (ref sc) signed = None ->
  just_sealed (sc_attempt sc) (log ++ [EStoreCheckpoint (ref sc) signed]).
Proof.
  intros Hi Hs. unfold ref in *. rewrite (si_name _ _ Hi), (si_job _ _ Hi) in *. by exists log, signed.
Qed.

Lemma seal_spec sc :
  hoare rule (at_log (fun log => stage_inv sc log /\ caching)) (seal sc)
    (fun err => at_log (fun log => stage_inv sc log /\ (err = None -> just_sealed (sc_attempt sc) log))).
Proof.
  unfold seal. eapply hoare_seq.
  { apply (hoare_call _ _ _ (fun err log => stage_inv sc log /\ caching)). intros log [Hi Hca].
    split; [|split; [by apply stage_inv_quiet|done]]. split; [done|].
    exists (sc_tenantID sc), (sc_attempt sc). split; [apply Hi|by apply expected_accepted]. }
  intros [err|]; [by apply hoare_done; intros log [? _]|].
  eapply hoare_seq.
  { apply (hoare_call _ _ _ (fun r log => stage_inv sc log /\ caching /\ forall signed, r = Ok signed ->
      exists l, log = l ++ [ESign (ref sc) (Digest (expected sc))] /\ w_Sign (h0 ++ l) (ref sc) (Digest (expected sc)) = Ok signed)).
    intros log [Hi Hca]. split.
    - split; [done|]. exists (sc_tenantID sc), (sc_attempt sc). split; [apply Hi|].
      split; [unfold ref; by rewrite (si_name _ _ Hi), (si_job _ _ Hi)|]. by rewrite (expected_accepted sc log).
    - split; [by apply stage_inv_quiet|]. split; [done|]. intros signed Hs. by exists log. }
  intros [signed|err]; [|by apply hoare_done; intros log (? & _)].
  eapply hoare_seq.
  { apply (hoare_read _ _ (fun r log => stage_inv sc log /\ caching /\
      exists l, log = l ++ [ESign (ref sc) (Digest (expected sc))] /\ w_Sign (h0 ++ l) (ref sc) (Digest (expected sc)) = Ok signed)).
    intros log (Hi & Hca & Hs). split_and!; [done..|]. by apply Hs. }
  intros [err|]; [by apply hoare_done; intros log (? & _)|].
  eapply hoare_seq.
  { apply (hoare_call _ _ _ (fun err log => stage_inv sc log /\ (err = None -> just_sealed (sc_attempt sc) log))).
    intros log (Hi & Hca & l & Hl & Hw). split.
    - split; [done|]. exists l. by eexists.
    - split; [by apply stage_inv_quiet|]. intros Hst. by apply just_sealed_intro. }
  intros [err|]; apply hoare_done; intros log [Hi Hs]; (split; [exact Hi|]); [done|intros _; by apply Hs].
Qed.

Lemma records_caching sc log : stage_inv sc log -> records (Some sc) = true <-> caching.
Proof.
  intros Hi. unfold records, caching. rewrite (si_settings _ _ Hi), negb_true_iff, bool_decide_eq_false.
  pose proof (si_mode _ _ Hi). naive_solver.
Qed.

Lemma sealAfterFailure_spec sc :
  hoare rule (at_log (opt_inv sc)) (sealAfterFailure sc) (fun _ => at_log (opt_inv sc)).
Proof.
  destruct sc as [sc|]; cbn [sealAfterFailure opt_inv]; [|by apply hoare_done].
  destruct (records (Some sc)) eqn:Hr; [|by apply hoare_done].
  destruct (bool_decide _); [by apply hoare_done|]. cbn [negb orb].
  eapply hoare_seq; [by apply (hoare_read _ _ (fun _ => stage_inv sc))|]. intros []; [by apply hoare_done|].
  eapply hoare_seq.
  { eapply hoare_weaken; [apply seal_spec| |].
    - intros log Hi. split; [done|]. by apply (records_caching sc log).
    - intros err log [Hi _]. exact Hi. }
  intros [err|]; [|by apply hoare_done].
  apply hoare_seq with (psi := fun _ => stage_inv sc); [|by intros; apply hoare_done].
  destruct (mismatch err); [|by apply hoare_done].
  apply (hoare_call _ _ (fun _ => tt) (fun _ => stage_inv sc)). intros log Hi. split; [done|]. by apply stage_inv_quiet.
Qed.

(** * The ends of a stage *)

Lemma finish_fail_spec phi err b :
  hoare rule (at_log phi) (finish_fail name err b) (fun _ => at_log (fun _ => True)).
Proof.
  unfold finish_fail. apply hoare_seq with (psi := fun _ _ => True); [|by intros; apply hoare_done].
  destruct b; [by apply hoare_call|by apply hoare_done].
Qed.

Lemma stop_spec sc err : hoare rule (at_log (opt_inv sc)) (stop name sc err) (fun _ => at_log (fun _ => True)).
Proof.
  unfold stop. eapply hoare_seq; [apply sealAfterFailure_spec|]. intros ?. apply finish_fail_spec.
Qed.

Lemma complete_cache_spec sc output :
  hoare rule (at_log (opt_live sc)) (complete_cache sc output)
    (fun r => at_log (fun log => forall out, r.2 = Ok out ->
       caching -> exists a, just_sealed a log /\ out_Metadata out !! MetadataCacheAttempt = Some a)).
Proof.
  destruct sc as [sc|]; cbn [complete_cache opt_live]; [|by apply hoare_done; intros log Hm out _ [? _]].
  destruct (records (Some sc)) eqn:Hr; cbn [negb].
  2: { apply hoare_done. intros log [Hi _] out _ Hca. apply (records_caching sc log) in Hca; [congruence|done]. }
  eapply hoare_seq.
  { eapply hoare_weaken; [apply (recordStage_spec sc)| |by intros a log Hp; exact Hp].
    intros log Hl. split; [done|]. destruct Hl as [Hi _]. by apply (records_caching sc log). }
  intros [sc1 [err|]]; cbn [fst snd].
  { apply hoare_seq with (psi := fun _ _ => True); [|by intros; apply hoare_done].
    eapply hoare_weaken; [apply (sealAfterFailure_spec (Some sc1))| |done]. by intros log [? _]. }
  eapply hoare_seq; [apply seal_spec|]. intros [cause|].
  - apply hoare_seq with (psi := fun _ _ => True); [|by intros; apply hoare_done].
    unfold checkpointFailed. destruct (mismatch cause); [|by apply hoare_done].
    apply hoare_seq with (psi := fun _ _ => True); [by apply hoare_call|by intros; apply hoare_done].
  - apply hoare_done. intros log [Hi Hs] out [= <-] _. exists (sc_attempt sc1). split; [by apply Hs|].
    apply lookup_insert_eq.
Qed.

Lemma finish_spec sc output : hoare rule (at_log (opt_live sc)) (finish name sc output) (fun _ => at_log (fun _ => True)).
Proof.
  unfold finish. eapply hoare_seq; [apply complete_cache_spec|]. intros [sc1 [out|err]]; [|apply finish_fail_spec].
  apply hoare_seq with (psi := fun _ _ => True).
  - apply hoare_call. intros log Hl. split; [|done]. split; [done|]. by apply Hl.
  - intros [err|]; [apply finish_fail_spec|by apply hoare_done].
Qed.

Lemma aggregate_spec actx sc results :
  hoare rule (at_log (opt_live sc)) (aggregate actx name sc results) (fun _ => at_log (fun _ => True)).
Proof.
  unfold aggregate. destruct (_ && _).
  { eapply hoare_weaken; [apply stop_spec|apply opt_live_inv|done]. }
  eapply hoare_seq; [apply (hoare_call _ _ _ (fun _ => opt_live sc)); intros log Hl; split; [done|by apply opt_live_quiet]|].
  intros [out|err]; [apply finish_spec|]. eapply hoare_weaken; [apply stop_spec|apply opt_live_inv|done].
Qed.

(** * Looking up *)

Lemma lookups_spec sc log : live sc log -> lookups (Some sc) = true -> set_Mode (Cache req) = ModeEnabled.
Proof.
  intros [Hi _]. unfold lookups. rewrite (si_settings _ _ Hi), !andb_true_iff, bool_decide_eq_true. by intros [[_ ?] _].
Qed.

Section lookup.
Hypothesis enabled : set_Mode (Cache req) = ModeEnabled.
Context (sc : stageCache).

Lemma call_quiet {A} e (f : list effect -> A) :
  quiet e = true -> (forall log, call_rule log e) ->
  hoare rule (at_log (live sc)) (perform e f) (fun _ => at_log (live sc)).
Proof.
  intros Hq He. apply (hoare_call _ _ _ (fun _ => live sc)). intros log [Hi Hr]. split; [apply He|].
  split; [by apply stage_inv_quiet|done].
Qed.

Lemma load_checkpoints_spec n st unverified :
  hoare rule (at_log (live sc)) (load_checkpoints n st unverified) (fun _ => at_log (live sc)).
Proof.
  unfold load_checkpoints. destruct unverified; [by apply hoare_done|].
  eapply hoare_seq; [by apply call_quiet|]. intros [vc|err].
  - apply hoare_seq with (psi := fun _ => live sc); [|by intros; apply hoare_done].
    case_bool_decide; [by apply hoare_done|by apply call_quiet].
  - destruct (Is err ErrCorrupt); [|by apply hoare_done].
    apply hoare_seq with (psi := fun _ => live sc); [by apply call_quiet|by intros; apply hoare_done].
Qed.

Lemma lookup_batch_spec n acc batch :
  hoare rule (at_log (live sc)) (lookup_batch n acc batch) (fun _ => at_log (live sc)).
Proof.
  unfold lookup_batch. destruct acc as [st|err]; [|by apply hoare_done].
  eapply hoare_seq; [by apply call_quiet|]. intros [producers|err]; [|by apply hoare_done].
  eapply hoare_seq; [apply load_checkpoints_spec|]. intros [signed|err]; [|by apply hoare_done]. cbn beta zeta.
  case_bool_decide; [by apply hoare_done|].
  eapply hoare_seq; [by apply call_quiet|]. intros [snap|err].
  - destruct (check_keys _ _ _ _ _ _) as [[[found decoded] [|b bad]]|]; try by apply hoare_done.
    apply hoare_seq with (psi := fun _ => live sc); [by apply call_quiet|by intros; apply hoare_done].
  - destruct (Is err ErrCorrupt); [|by apply hoare_done].
    apply hoare_seq with (psi := fun _ => live sc); [by apply call_quiet|by intros; apply hoare_done].
Qed.

Lemma lookupCached_spec :
  hoare rule (at_log (live sc)) (lookupCached sc)
    (fun r => at_log (fun log => match r with Ok (sc', _) => live sc' log | Err _ => True end)).
Proof.
  unfold lookupCached. apply hoare_seq with (psi := fun _ => live sc).
  - apply (hoare_foldM rule (lookup_batch (sc_name sc)) _ _ (fun _ => at_log (live sc))). intros. apply lookup_batch_spec.
  - intros [st|err]; apply hoare_done; [|done]. intros log Hl. cbn. by apply live_set_hits.
Qed.
End lookup.

Lemma reuse_spec sc dispatch pre :
  hoare rule (at_log (opt_live sc)) (reuse sc dispatch pre)
    (fun r => at_log (fun log => match r with Ok (sc', _, _) => opt_live sc' log | Err _ => True end)).
Proof.
  destruct sc as [sc|]; cbn [reuse]; [|by apply hoare_done].
  destruct (lookups (Some sc)) eqn:Hl; [|by apply hoare_done].
  intros h Hh. assert (set_Mode (Cache req) = ModeEnabled) as Hen by (destruct Hh as (log & _ & Hlive); by eapply lookups_spec).
  revert h Hh. change (hoare rule (at_log (live sc)) (r ← lookupCached sc;
    match r with Ok (s, cached) => mret (Ok (Some s, remaining cached dispatch, pre ++ reused cached dispatch)) | Err err => mret (Err err) end)
    (fun r => at_log (fun log => match r with Ok (sc', _, _) => opt_live sc' log | Err _ => True end))).
  eapply hoare_seq; [by apply lookupCached_spec|]. intros [[s cached]|err]; by apply hoare_done.
Qed.

(** * Collecting *)

Lemma put_if_spec b sc results :
  hoare rule (at_log (fun log => opt_live sc log /\ Forall (fun r => awaited r log) results)) (put_if b sc results)
    (fun sc' => at_log (opt_live sc')).
Proof.
  destruct sc as [sc|]; cbn [put_if opt_live]; [|by apply hoare_done; intros log [? _]].
  destruct (b && puts (Some sc)); [|by apply hoare_done; intros log [? _]].
  eapply hoare_seq; [apply putResults_spec|]. intros sc1. by apply hoare_done.
Qed.

Lemma await_results sc cid :
  hoare rule (at_log (fun log => opt_live sc log /\ dispatched cid log)) (perform (EAwait name cid) (fun h => w_Await h cid))
    (fun r => at_log (fun log => opt_live sc log /\ Forall (fun x => awaited x log) r.1)).
Proof.
  apply hoare_call. intros log [Hl Hd]. split; [done|]. split; [by apply opt_live_quiet|].
  apply Forall_forall. intros x Hx. by exists log, cid, [].
Qed.

Lemma collect_spec sc dispatch :
  hoare rule (at_log (opt_live sc)) (collect name sc dispatch) (fun r => at_log (opt_live r.1)).
Proof.
  unfold collect. destruct dispatch as [|t ts]; [by apply hoare_done|]. set (tasks := t :: ts).
  assert (forall A e (f : list effect -> A), quiet e = true -> (forall log, call_rule log e) ->
    hoare rule (at_log (opt_live sc)) (perform e f) (fun _ => at_log (opt_live sc))) as Hcall.
  { intros A e f Hq He. apply (hoare_call _ _ _ (fun _ => opt_live sc)). intros log Hl. split; [apply He|by apply opt_live_quiet]. }
  eapply hoare_seq.
  { apply (hoare_call _ _ _ (fun r log => opt_live sc log /\ forall cid, r = Ok cid -> prepared tasks cid log)). intros log Hl.
    split; [done|]. split; [by apply opt_live_quiet|]. intros cid Hp. by exists log. }
  intros [cid|err]; [|by apply hoare_done; intros log [? _]].
  eapply hoare_seq.
  { apply (hoare_call _ _ _ (fun r log => opt_live sc log /\ (r = None -> dispatched cid log))). intros log [Hl Hp].
    split; [split; [done|by apply Hp]|]. split; [by apply opt_live_quiet|]. intros Hd. by exists log, tasks. }
  intros [err|].
  { eapply hoare_weaken with (phi := opt_live sc) (post := fun r => opt_live r.1); [|by intros log [? _]|done]. apply hoare_seq with (psi := fun _ => opt_live sc); [by apply Hcall|]. intros _.
    apply hoare_seq with (psi := fun _ => opt_live sc); [by apply Hcall|]. intros _. by apply hoare_done. }
  eapply hoare_seq.
  { eapply hoare_weaken; [apply (await_results sc cid)|intros log [Hl Hd]; split; [done|by apply Hd]|intros r log Hl; exact Hl]. }
  intros [collected [err|]]; cbn [fst].
  - eapply hoare_seq; [by apply (hoare_read _ _ (fun _ log => opt_live sc log /\ Forall (fun x => awaited x log) collected))|].
    intros b. eapply hoare_seq; [apply put_if_spec|]. intros sc1. by apply hoare_done.
  - eapply hoare_seq; [apply put_if_spec|]. intros sc1. by apply hoare_done.
Qed.

Lemma opt_live_count tasks dispatch sc log : opt_live sc log -> opt_live (count_tasks tasks dispatch <$> sc) log.
Proof. destruct sc as [sc|]; [|done]. cbn. by apply live_set_stats. Qed.

Lemma run_tasks_spec actx sc tasks :
  hoare rule (at_log (opt_live sc)) (run_tasks actx name sc tasks) (fun _ => at_log (fun _ => True)).
Proof.
  unfold run_tasks. eapply hoare_seq; [apply reuse_spec|]. intros [[[sc1 dispatch] pre]|err]; [|apply finish_fail_spec].
  cbn beta iota zeta. destruct (_ && _).
  { eapply hoare_weaken; [apply finish_spec|intros log Hl; by apply opt_live_count|done]. }
  eapply hoare_seq.
  { eapply hoare_weaken; [apply collect_spec|intros log Hl; by apply opt_live_count|intros a log Hl; exact Hl]. }
  intros [sc2 [results|err]]; cbn [fst].
  - destruct (outputTruncated results); [|apply aggregate_spec].
    eapply hoare_weaken; [apply stop_spec|apply opt_live_inv|done].
  - eapply hoare_weaken; [apply stop_spec|apply opt_live_inv|done].
Qed.

(** * Planning and the whole run *)

Definition nothing_yet (log : list effect) : Prop :=
  picked accepted_write h0 log = [] /\ picked accepted_record h0 log = [].

Lemma nothing_quiet log e : quiet e = true -> nothing_yet log -> nothing_yet (log ++ [e]).
Proof. intros Hq [H1 H2]. split; rewrite picked_snoc, ?H1, ?H2; by destruct e. Qed.

Lemma generate_controls_spec actx controls tasks origins :
  hoare rule (at_log nothing_yet) (generate_controls actx name controls tasks origins) (fun _ => at_log nothing_yet).
Proof.
  revert tasks origins. induction controls as [|c controls IH]; intros tasks origins; cbn; [by apply hoare_done|].
  apply hoare_seq with (psi := fun _ => nothing_yet).
  - apply (hoare_call _ _ _ (fun _ => nothing_yet)). intros log Hn. split; [done|by apply nothing_quiet].
  - intros [ts|err]; [apply IH|by apply hoare_done].
Qed.

Lemma generate_spec actx : hoare rule (at_log nothing_yet) (generate actx name req) (fun _ => at_log nothing_yet).
Proof.
  unfold generate. destruct (Controls req); [apply generate_controls_spec|].
  apply hoare_seq with (psi := fun _ => nothing_yet).
  - apply (hoare_call _ _ _ (fun _ => nothing_yet)). intros log Hn. split; [done|by apply nothing_quiet].
  - intros [ts|err]; by apply hoare_done.
Qed.

Lemma plan_tasks_ok c origins uses tasks all acc :
  (forall id ct, acc.1.1 !! id = Some ct -> exists use t, TaskID t = id /\ PreBuiltResult t = false /\
      CacheIdentity c t = Some (ct_request ct) /\ set_Models (Cache req) !! use = Some (ct_model ct) /\
      cm_Observed (ct_model ct) <> "" /\ ct_lookupKey ct = Key name (cr_Identity (ct_request ct)) (model_identity (ct_model ct))) ->
  forall id ct, (foldl (plan_task c name (Cache req) origins uses all) acc tasks).1.1 !! id = Some ct ->
    exists use t, TaskID t = id /\ PreBuiltResult t = false /\
      CacheIdentity c t = Some (ct_request ct) /\ set_Models (Cache req) !! use = Some (ct_model ct) /\
      cm_Observed (ct_model ct) <> "" /\ ct_lookupKey ct = Key name (cr_Identity (ct_request ct)) (model_identity (ct_model ct)).
Proof.
  revert acc. induction tasks as [|t tasks IH]; intros acc Hacc; [done|]. cbn [foldl]. apply IH.
  destruct acc as [[byTask dup] unc]. unfold plan_task. cbn [fst] in *.
  destruct (PreBuiltResult t) eqn:Hpre; [done|]. destruct (1 <? _)%nat; [done|].
  destruct (CacheIdentity c t) as [cr|] eqn:Hid; [|done]. destruct (uses !! _) as [use|]; [|done].
  destruct (set_Models (Cache req) !! use) as [cm|] eqn:Hcm; cbn [default]; [|done].
  case_bool_decide as Hobs; [done|]. destruct (taskCatalogs _ _ _) as [[src tgt]|]; [|done].
  intros id ct. cbn [fst]. rewrite lookup_insert_Some. intros [[<- <-]|[_ Hct]]; [|by apply Hacc].
  exists use, t. done.
Qed.

Lemma planCache_spec tasks origins :
  hoare rule (at_log nothing_yet) (planCache ctx name req tasks origins)
    (fun r => at_log (fun log => match r with Ok sc => opt_live sc log | Err _ => True end)).
Proof.
  unfold planCache. case_bool_decide as Hm; [by apply hoare_done|].
  destruct (FromContext ctx) as [t|] eqn:Ht; [|by apply hoare_done].
  apply hoare_seq with (psi := fun _ => nothing_yet); [by apply hoare_read|]. intros attempt.
  assert (forall mode models reason log, nothing_yet log ->
    live (skipped_stage name t (JobID req) attempt (Cache req) mode models reason) log) as Hskip.
  { intros mode models reason log [H1 H2]. split; [|done]. split; try done. }
  case_bool_decide as Hd; [by apply hoare_done; intros log ?; apply Hskip|].
  destruct (w_Cacheable name) as [c|] eqn:Hc; [|by apply hoare_done; intros log ?; apply Hskip].
  destruct (foldl (plan_use _) _ _) as [[[uses models] reasons] observed].
  destruct observed; cbn [negb]; [|by apply hoare_done; intros log ?; apply Hskip].
  destruct (foldl (plan_task _ _ _ _ _ _) _ _) as [[byTask dup] unc] eqn:Hf.
  apply hoare_done. intros log [H1 H2]. split; [|done]. split; try done.
  - intros c' [= <-]. done.
  - intros id ct Hct. cbn in Hct.
    destruct (plan_tasks_ok c origins uses tasks tasks (∅, 0, 0)) with (id := id) (ct := ct) as (use & tk & ?).
    { intros id' ct' Hx. cbn in Hx. by rewrite lookup_empty in Hx. }
    { by rewrite Hf. }
    exists use, c, tk. done.
Qed.

Lemma executeAnalyzer_spec reg st :
  hoare rule (at_log nothing_yet) (executeAnalyzer reg ctx name req st) (fun _ => at_log (fun _ => True)).
Proof.
  unfold executeAnalyzer. destruct (isCompleted name st); [by apply hoare_done|].
  destruct (Get reg name) as [ra|]; [|by apply hoare_done]. destruct (existsb _ _); [by apply hoare_done|].
  apply hoare_seq with (psi := fun _ => nothing_yet).
  { apply (hoare_call _ _ _ (fun _ => nothing_yet)). intros log Hn. split; [done|by apply nothing_quiet]. }
  intros _. eapply hoare_seq; [apply generate_spec|]. intros [[tasks origins]|err]; [|apply finish_fail_spec].
  eapply hoare_seq; [apply planCache_spec|]. intros [sc|err]; [apply run_tasks_spec|apply finish_fail_spec].
Qed.
End stage.

(** C13. What a stage may do, whatever the store, the signer, the bus, the
    analyzers and other writers answer. Tasks are dispatched right after the
    collector prepared a collection of exactly those tasks, into that
    collection, and it is awaited right after their dispatch succeeded. A
    result is stored only if it is an error-free result the collector returned
    to this stage, of the very model and deployment the job's probe observed
    for the alias of the task's request, under that request's key, and one the
    analyzer would use. The only record it ever asks to have compared or signed
    is what the store accepted from this stage so far: exactly those rows,
    under its tenant, job, analyzer and attempt. It looks results up only in
    mode enabled and makes no store call at all when the cache is off. With the
    cache in use it reports completion (so the pipeline persists results) only
    after the checkpoint of the attempt named in the output was stored. *)
Theorem stage_discipline `{W : EngineWorld} {rt : GoRuntime} reg ctx name req st h0 :
  exists log, (executeAnalyzer reg ctx name req st h0).2 = h0 ++ log /\
    forall before e after, log = before ++ e :: after -> call_rule ctx req name h0 before e.
Proof.
  destruct (executeAnalyzer_spec ctx req name h0 reg st h0) as (log & E & Ha & _).
  { exists []. rewrite app_nil_r. done. }
  exists log. split; [done|]. intros before e after ->.
  apply allowed_app in Ha as [_ [He _]]. by apply rule_at in He.
Qed.

(** * Reused results *)

Section reused.
Context `{W : EngineWorld} {rt : GoRuntime}.
Context (sc : stageCache).

Definition signed_source (r : AttemptRef) (d : string) : Prop :=
  exists h producers vc, w_Verified h (sc_name sc) producers = Ok vc /\ Signed vc !! r = Some d.

Definition snapshot_source (snap : Snapshot) : Prop :=
  exists h keys refs, w_Lookup h (sc_name sc) keys refs = Ok snap.

(** A hit verified in a snapshot the store returned, against digests the
    signer returned. *)
Definition verified_hit (key : string) (hit : Hit) : Prop :=
  exists snap signed, snapshot_source snap /\ (forall r d, signed !! r = Some d -> signed_source r d) /\
    Verify snap key signed = Ok hit.

Record found_ok (found : gmap string Hit) (decoded : gmap string (gmap string Value)) : Prop := {
  fo_found : forall k h, found !! k = Some h -> verified_hit k h;
  fo_decoded : forall k s, decoded !! k = Some s -> exists h, found !! k = Some h /\ DecodeResult (hit_Result h) = Ok s;
}.

Lemma check_keys_ok snap signed keys found decoded bad found' decoded' bad' :
  snapshot_source snap -> (forall r d, signed !! r = Some d -> signed_source r d) ->
  found_ok found decoded -> check_keys snap signed keys found decoded bad = Some (found', decoded', bad') ->
  found_ok found' decoded'.
Proof.
  intros Hsnap Hsig. revert found decoded bad. induction keys as [|k keys IH]; intros found decoded bad Hok; cbn.
  - by intros [= <- <- _].
  - destruct (check_key snap signed k) as [h s| | |] eqn:Hk; [|by apply IH|by apply IH|done].
    apply IH. unfold check_key in Hk. destruct (Verify snap k signed) as [h'|err] eqn:Hv; [|by repeat case_match].
    destruct (DecodeResult (hit_Result h')) as [s'|err] eqn:Hd; [|by repeat case_match]. injection Hk as -> ->.
    destruct Hok as [Hf Hdec]. split.
    + intros k' h'. rewrite lookup_insert_Some. intros [[<- <-]|[_ Hx]]; [by exists snap, signed|by apply Hf].
    + intros k' s'. rewrite lookup_insert_Some. intros [[<- <-]|[Hne Hx]].
      * exists h. by rewrite lookup_insert_eq.
      * destruct (Hdec _ _ Hx) as (h' & ? & ?). exists h'. by rewrite lookup_insert_ne.
Qed.

Definition lookup_ok (acc : result error lookup_state) : Prop :=
  match acc with
  | Ok st => (forall r d, lk_signed st !! r = Some d -> signed_source r d) /\ found_ok (lk_found st) (lk_decoded st)
  | Err _ => True
  end.

Lemma lookup_batch_ok acc batch : lookup_ok acc -> returns (lookup_batch (sc_name sc) acc batch) lookup_ok.
Proof.
  intros Hacc. unfold lookup_batch. destruct acc as [st|err]; [|by apply returns_ret].
  destruct Hacc as [Hsig Hfo]. run_step. destruct a as [producers|err]; [|by apply returns_ret].
  eapply returns_bind with (P := fun r => match r with
    | Ok signed => forall r d, signed !! r = Some d -> signed_source r d | Err _ => True end).
  - unfold load_checkpoints. destruct (sort_strings _) as [|p ps]; [by apply returns_ret|].
    eapply returns_bind with (P := fun r => match r with
      | Ok vc => forall r d, Signed vc !! r = Some d -> signed_source r d | Err _ => True end).
    + apply returns_perform. intros h. destruct (w_Verified h (sc_name sc) (p :: ps)) as [vc|] eqn:Hv; [|done].
      intros r d Hrd. by exists h, (p :: ps), vc.
    + intros [vc|err] Hvc.
      * run_step. apply returns_ret. intros r d. rewrite lookup_union_Some_raw. intros [?|[_ ?]]; auto.
      * destruct (Is err ErrCorrupt); [run_step|]; by apply returns_ret.
  - intros [signed|err] Hs; [|by apply returns_ret]. cbn beta zeta.
    case_bool_decide; [by apply returns_ret|].
    eapply returns_bind with (P := fun r => match r with Ok snap => snapshot_source snap | Err _ => True end).
    + apply returns_perform. intros h. destruct (w_Lookup h _ _ _) as [snap|] eqn:Hl; [|done]. by eexists h, _, _.
    + intros [snap|err] Hsnap; [|destruct (Is err ErrCorrupt); [run_step|]; by apply returns_ret].
      destruct (check_keys _ _ _ _ _ _) as [[[found decoded] [|b bad]]|] eqn:Hck; [|run_step; by apply returns_ret|by apply returns_ret].
      apply returns_ret. split; [done|]. cbn.
      eapply check_keys_ok; [exact Hsnap| |exact Hfo|exact Hck].
      intros r d Hrd. apply map_lookup_filter_Some in Hrd as [? _]. auto.
Qed.

Lemma lookupCached_ok h sc' cached h' :
  lookupCached sc h = (Ok (sc', cached), h') ->
  exists st, lookup_ok (Ok st) /\ sc' = set_hits sc (sc_hits sc ++ (task_hits sc st).*1) /\
    cached = list_to_map ((fun '(h, s) => (h_TaskID h, s)) <$> task_hits sc st).
Proof.
  unfold lookupCached, mbind, M_bind. intros Hl.
  pose proof (returns_foldM (lookup_batch (sc_name sc)) (key_batches sc) (Ok (mkLookup ∅ ∅ ∅ ∅)) lookup_ok) as Hr.
  assert (lookup_ok (foldM (lookup_batch (sc_name sc)) (key_batches sc) (Ok (mkLookup ∅ ∅ ∅ ∅)) h).1) as Hok.
  { apply Hr; [|intros; by apply lookup_batch_ok]. split; [by intros r d Hx; cbn in Hx; rewrite lookup_empty in Hx|].
    split; by intros k x Hx; cbn in Hx; rewrite lookup_empty in Hx. }
  destruct (foldM _ _ _ h) as [[st|err] h1]; [|done]. injection Hl as <- <- _. by exists st.
Qed.

Lemma task_hits_ok st id s :
  lookup_ok (Ok st) -> (list_to_map ((fun '(h, s) => (h_TaskID h, s)) <$> task_hits sc st) : gmap string _) !! id = Some s ->
  exists ct hit, sc_byTask sc !! id = Some ct /\ verified_hit (ct_lookupKey ct) hit /\ DecodeResult (hit_Result hit) = Ok s /\
    mkHitEntry id (ct_lookupKey ct) (ResultDigest (hit_Result hit)) (hit_ProducerJobID hit) ∈ (task_hits sc st).*1.
Proof.
  intros [_ [Hf Hd]] Hid. apply elem_of_list_to_map_2, list_elem_of_fmap in Hid as ([he s'] & [= -> ->] & Hin).
  pose proof Hin as Hin'. unfold task_hits in Hin. apply list_elem_of_omap in Hin as (id & _ & Hx).
  destruct (sc_byTask sc !! id) as [ct|] eqn:Hct; [|done]. cbn in Hx.
  destruct (lk_decoded st !! ct_lookupKey ct) as [s1|] eqn:Hdec; [|done]. cbn in Hx. injection Hx as <- ->.
  destruct (Hd _ _ Hdec) as (hit & Hfound & Hdecode). rewrite Hfound in *. cbn in *.
  exists ct, hit. split_and!; try done; [by apply Hf|].
  apply list_elem_of_fmap. by eexists (_, _).
Qed.
End reused.

(** C14. End-to-end integrity of reuse. Suppose every digest the signer reports
    as verified is the digest of the record of a run that stored [stored ref].
    Then whatever rows the database returns, each result a stage reuses
    decodes from bytes that the attempt it is attributed to had itself stored
    under the very key of the task's request, or SHA-256 collides; and each is
    recorded as a hit of its task. *)
Theorem reused_results_authentic `{W : EngineWorld} {rt : GoRuntime} sc h sc' cached h' id s
    (record : AttemptRef -> Manifest) (stored : AttemptRef -> list (string * string)) :
  (forall h n producers vc r d, w_Verified h n producers = Ok vc -> Signed vc !! r = Some d ->
     d = Digest (record r) /\ manifest_utf8 (record r) = true /\ records_writes (record r) (stored r)) ->
  (forall h n keys refs snap r m, w_Lookup h n keys refs = Ok snap -> sn_manifests snap !! r = Some m -> manifest_utf8 m = true) ->
  lookupCached sc h = (Ok (sc', cached), h') -> cached !! id = Some s ->
  exists ct data r, sc_byTask sc !! id = Some ct /\ DecodeResult data = Ok s /\
    mkHitEntry id (ct_lookupKey ct) (ResultDigest data) (ref_JobID r) ∈ sc_hits sc' /\
    ((ct_lookupKey ct, data) ∈ stored r \/
     (exists m, collides (manifest_text (record r)) (manifest_text m)) \/
     exists data', (ct_lookupKey ct, data') ∈ stored r /\ collides data data').
Proof.
  intros Hsigner Hutf Hl Hid. destruct (lookupCached_ok sc h sc' cached h' Hl) as (st & Hst & -> & ->).
  destruct (task_hits_ok sc st id s Hst Hid) as (ct & hit & Hct & (snap & signed & (hs & ks & rs & Hsnap) & Hsrc & Hv) & Hdec & Hin).
  pose proof Hv as (_ & _ & m & Hs & Hm & _)%Verify_Ok. set (r := producer_ref snap hit) in *.
  destruct (Hsrc r _ Hs) as (h1 & ps & vc & Hvc & Hd). destruct (Hsigner _ _ _ _ _ _ Hvc Hd) as (Hdig & Hu0 & Hrec).
  exists ct, (hit_Result hit), r. split_and!; try done; [cbn; apply elem_of_app; by right|].
  destruct (Verify_authentic snap _ signed hit m (record r) (stored r) Hv) as [?|[?|?]]; try done.
  - unfold r in *. by rewrite Hs, Hdig.
  - by eapply Hutf.
  - by left.
  - right. left. by exists m.
  - right. by right.
Qed.

(** * Witness *)

(** Job "job-1" stored one result of "classify" under [reuse_key]; the stage
    of "job-2" has a task with the same key. *)
Definition reuse_key : string := hex_sum "request".
Definition reuse_data : string := with_quotes "{'model':'gpt','response':'yes'}".
Definition reuse_ref : AttemptRef := mkRef "job-1" "classify" "a1".
Definition reuse_run : Manifest :=
  mkManifest "acme" "job-1" "classify" "a1" [mkManifestEntry "t1" RoleWrite reuse_key (ResultDigest reuse_data) ""] [].

Definition reuse_world : EngineWorld :=
  obliging_world (fun _ => []) (fun _ _ => ([], None)) (fun _ => {[ reuse_key := "job-1" ]}) {[ reuse_ref := Digest reuse_run ]}
    (fun n => NewSnapshot n {[ reuse_key := mkHit reuse_key reuse_data "gpt" "job-1" "a1" ]} {[ reuse_ref := reuse_run ]}).

Definition reuse_stage : @stageCache any_pb :=
  mkStage any_pb "classify" "acme" "job-2" "b1" (mkSettings ModeEnabled ∅ 10 ∅ "--no-cache" true) None
    {[ "t2" := mkCached (mkCacheRequest (mkIdentity "llm" "fast" None 0 0 "c") "ac-1" "ac-2")
                 (mkCacheModel "fast" "gpt" "d" "" "") reuse_key "cat" "cat" ]}
    (mkStats ModeEnabled "" None 0 0 0) [] [] false false.

Definition reuse_struct : gmap string any := list_to_map [("model", AString "gpt"); ("response", AString "yes")].

Lemma reused_results_authentic_witness :
  exists ct data r, sc_byTask reuse_stage !! "t2" = Some ct /\ @DecodeResult any_pb any_json data = Ok reuse_struct /\
    mkHitEntry "t2" (ct_lookupKey ct) (ResultDigest data) (ref_JobID r) ∈ [mkHitEntry "t2" reuse_key (ResultDigest reuse_data) "job-1"] /\
    ((ct_lookupKey ct, data) ∈ [(reuse_key, reuse_data)] \/
     (exists m, collides (manifest_text reuse_run) (manifest_text m)) \/
     exists data', (ct_lookupKey ct, data') ∈ [(reuse_key, reuse_data)] /\ collides data data').
Proof.
  destruct (@lookupCached reuse_world forward_runtime reuse_stage []) as [r h'] eqn:Hl.
  assert (match r with
          | Ok (sc', cached) => sc_hits sc' = [mkHitEntry "t2" reuse_key (ResultDigest reuse_data) "job-1"] /\
              cached !! "t2" = Some reuse_struct
          | Err _ => False end) as Hr.
  { assert (r = (@lookupCached reuse_world forward_runtime reuse_stage []).1) as -> by exact (eq_sym (f_equal fst Hl)).
    clear Hl. vm_compute. split; reflexivity. }
  destruct r as [[sc' cached]|err]; [|destruct Hr]. destruct Hr as [<- Hid].
  refine (@reused_results_authentic reuse_world forward_runtime reuse_stage [] sc' cached h' "t2" reuse_struct
           (fun _ => reuse_run) (fun _ => [(reuse_key, reuse_data)]) _ _ Hl Hid).
  - intros h n ps vc ref d Hvc Hd. injection Hvc as <-. cbn [Signed] in Hd. apply lookup_singleton_Some in Hd as [_ <-].
    split; [reflexivity|]. split; [vm_compute; reflexivity|].
    intros e [->|[]%not_elem_of_nil]%elem_of_cons _. exists reuse_data. split; [by left|reflexivity].
  - intros h n ks refs snap ref m Hsnap Hm. injection Hsnap as <-. cbn [sn_manifests NewSnapshot] in Hm.
    apply lookup_singleton_Some in Hm as [_ <-]. vm_compute. reflexivity.
Defined.
