(* ===== verification/Jobconfig.v ===== *)
(** What a job runs over: its catalogs ([pkg/jobconfig/jobconfig.go]), its
    stages ([internal/pipeline/stages.go]), its record
    ([internal/pipeline/types.go]) and the commands its messages quote
    ([internal/pipeline/executor.go]).

    A stored config is decoded as [encoding/json] decodes a struct: members in
    order, names matched by case folding, a value of the wrong type an error.
    Times are nanoseconds. *)

From S2P Require Import Prelude Float64 Gostrings Tenant Sha256 Json Jsonread Errors.
Local Open Scope Z_scope.

(** * Definitions *)

(** ** Records *)

Definition JobStatus : Type := string.
Definition JobStatusPending : JobStatus := "pending".
Definition JobStatusRunning : JobStatus := "running".
Definition JobStatusCompleted : JobStatus := "completed".
Definition JobStatusFailed : JobStatus := "failed".
Definition JobStatusCancelled : JobStatus := "cancelled".

Definition StageStatus : Type := string.
Definition StageStatusPending : StageStatus := "pending".
Definition StageStatusRunning : StageStatus := "running".
Definition StageStatusCompleted : StageStatus := "completed".
Definition StageStatusFailed : StageStatus := "failed".
Definition StageStatusCancelled : StageStatus := "cancelled".

Record Job := mkJob {
  JobID : string;
  TenantID : string;
  Status : JobStatus;
  Config : string;
  CreatedBy : string;
  CreatedAt : Z;
  UpdatedAt : Z;
  ErrorMessage : string;
  ErrorClass : string;
}.

Record Stage := mkStage {
  st_JobID : string;
  StageName : string;
  st_Status : StageStatus;
  StartedAt : option Z;
  CompletedAt : option Z;
  RetryCount : Z;
  st_ErrorMessage : string;
  st_TenantID : string;
  CacheAttempt : string;
}.

Definition JobCreator (ctx : context) (tenantID : string) : string :=
  if bool_decide (UserFromContext ctx = "") then tenantID else UserFromContext ctx.

(** ** Decoding a struct *)

(** [foldName] of a member name, as far as an ASCII field name can tell: ASCII
    letters in upper case, and the two other runes that fold to one, U+017F
    (long s) and U+212A (Kelvin sign). *)
Definition upper_byte (c : ascii) : ascii := if in_range 97 122 c then byte_of (byte_val c - 32) else c.

Fixpoint fold_name (l : list ascii) : list ascii :=
  match l with
  | [] => []
  | a :: l1 =>
      match l1 with
      | b :: l2 =>
          if (byte_val a =? 197) && (byte_val b =? 191) then "S"%char :: fold_name l2
          else
            match l2 with
            | c :: l3 =>
                if (byte_val a =? 226) && (byte_val b =? 132) && (byte_val c =? 170) then "K"%char :: fold_name l3
                else upper_byte a :: fold_name l1
            | [] => upper_byte a :: fold_name l1
            end
      | [] => [upper_byte a]
      end
  end.

Definition is_field (field key : string) : bool := bool_decide (fold_name (bytes_of key) = fold_name (bytes_of field)).

(** A member stored in a Go field that holds [old]; [None] is a type error. *)
Definition into_string (old : string) (t : tree) : option string :=
  match t with TString s => Some s | TNull => Some old | _ => None end.
Definition into_bool (old : bool) (t : tree) : option bool :=
  match t with TBool b => Some b | TNull => Some old | _ => None end.

(** A struct: [set] stores one member. A null leaves it as it is. *)
Definition into_struct {A} (set : A -> string -> tree -> option A) (old : A) (t : tree) : option A :=
  match t with
  | TObject l => foldl (fun acc '(k, t) => a ← acc; set a k t) (Some old) l
  | TNull => Some old
  | _ => None
  end.

(** A pointer to a struct: a null makes it nil, an object is stored in the
    struct it points to, a new one if it is nil. *)
Definition into_pointer {A} (zero : A) (set : A -> string -> tree -> option A) (old : option A) (t : tree) : option (option A) :=
  match t with
  | TNull => Some None
  | _ => Some <$> into_struct set (default zero old) t
  end.

(** ** The catalogs of a config *)

Record Label := mkLabel { Name : string; Version : string; Recorded : bool }.
Definition no_label : Label := mkLabel "" "" false.

Record Catalogs := mkCatalogs {
  SourceID : string;
  TargetID : string;
  Bidirectional : bool;
  NoCache : bool;
  SourceLabel : Label;
  TargetLabel : Label;
}.

Record snapshot := mkSnap { sn_CatalogID : string; sn_Name : string; sn_Version : string }.

Definition snapshot_set (s : snapshot) (key : string) (t : tree) : option snapshot :=
  if is_field "catalog_id" key then (fun v => mkSnap v (sn_Name s) (sn_Version s)) <$> into_string (sn_CatalogID s) t
  else if is_field "name" key then (fun v => mkSnap (sn_CatalogID s) v (sn_Version s)) <$> into_string (sn_Name s) t
  else if is_field "version" key then (fun v => mkSnap (sn_CatalogID s) (sn_Name s) v) <$> into_string (sn_Version s) t
  else Some s.

Definition label (s : option snapshot) (catalogID : string) : Label :=
  match s with
  | Some s => if bool_decide (sn_CatalogID s = catalogID) then mkLabel (sn_Name s) (sn_Version s) true else no_label
  | None => no_label
  end.

Record stored_config := mkStored {
  cf_CatalogID : string;
  cf_TargetCatalogID : string;
  cf_Bidirectional : bool;
  cf_NoCache : bool;
  cf_SourceCatalog : option snapshot;
  cf_TargetCatalog : option snapshot;
}.

Definition stored_set (c : stored_config) (key : string) (t : tree) : option stored_config :=
  let '(mkStored cid tid bi nc src tgt) := c in
  let snap := into_pointer (mkSnap "" "" "") snapshot_set in
  if is_field "catalog_id" key then (fun v => mkStored v tid bi nc src tgt) <$> into_string cid t
  else if is_field "target_catalog_id" key then (fun v => mkStored cid v bi nc src tgt) <$> into_string tid t
  else if is_field "bidirectional" key then (fun v => mkStored cid tid v nc src tgt) <$> into_bool bi t
  else if is_field "no_cache" key then (fun v => mkStored cid tid bi v src tgt) <$> into_bool nc t
  else if is_field "source_catalog" key then (fun v => mkStored cid tid bi nc v tgt) <$> snap src t
  else if is_field "target_catalog" key then (fun v => mkStored cid tid bi nc src v) <$> snap tgt t
  else Some c.

Definition read_config (stored : string) : option stored_config :=
  t ← parse_text stored; into_struct stored_set (mkStored "" "" false false None None) t.

Definition ExtractCatalogs (stored : string) : option Catalogs :=
  cfg ← read_config stored;
  if bool_decide (cf_CatalogID cfg = "") then None
  else
    let source := cf_CatalogID cfg in
    let target := if bool_decide (cf_TargetCatalogID cfg = "") then source else cf_TargetCatalogID cfg in
    let sl := label (cf_SourceCatalog cfg) source in
    let cross := negb (bool_decide (source = target)) in
    Some (mkCatalogs source target (cross && cf_Bidirectional cfg) (cf_NoCache cfg) sl
            (if cross then label (cf_TargetCatalog cfg) target else sl)).

Definition CrossCatalog (c : Catalogs) : bool := negb (bool_decide (SourceID c = TargetID c)).

Definition CatalogIDs (c : Catalogs) : list string :=
  if CrossCatalog c then [SourceID c; TargetID c] else [SourceID c].

Definition LabelOf (c : Catalogs) (catalogID : string) : Label :=
  if bool_decide (catalogID = SourceID c) then SourceLabel c
  else if bool_decide (catalogID = TargetID c) then TargetLabel c else no_label.

(** ** Commands *)

Definition jobCommand (cats : Catalogs) (source target : string) : string :=
  "crosscodex run start --source " +:+ source +:+ " --target " +:+ target
  +:+ (if Bidirectional cats then " --bidirectional" else "") +:+ (if NoCache cats then " --no-cache" else "").

Definition newJobCommand (config : string) : string :=
  match ExtractCatalogs config with
  | None => "crosscodex run start --source <source-catalog-id> --target <target-catalog-id>"
  | Some cats => jobCommand cats (SourceID cats) (TargetID cats)
  end.

Definition noCacheCommand (config : string) : string :=
  match ExtractCatalogs config with
  | None => "crosscodex run start --source <source-catalog-id> --target <target-catalog-id> --no-cache"
  | Some cats =>
      jobCommand (mkCatalogs (SourceID cats) (TargetID cats) (Bidirectional cats) true (SourceLabel cats) (TargetLabel cats))
        (SourceID cats) (TargetID cats)
  end.

Definition retryHint (jobID config : string) : string :=
  "Then resume this job: crosscodex run retry --from-failure " +:+ jobID +:+ ", or start a new job: " +:+ newJobCommand config.

(** ** Stages *)

Definition candidateDependent (name : string) : bool := bool_decide (name = "requires" \/ name = "relationship").

Fixpoint stage_names (inserted : bool) (dagOrder : list string) : list string :=
  match dagOrder with
  | [] => ["synthesis"; "graph"]
  | name :: rest =>
      if candidateDependent name && negb inserted then "candidate_generation" :: name :: stage_names true rest
      else name :: stage_names inserted rest
  end.

Definition buildStageNames (dagOrder : list string) : list string := stage_names false dagOrder.

Definition pipelineStages : list string := ["candidate_generation"; "synthesis"; "graph"].

Definition IsAnalyzerStage (name : string) : bool := negb (bool_decide (name ∈ pipelineStages)).

(** [config.AnalyzerSetting]. *)
Definition analyzerSections : list (string * string) :=
  [("classify", "analysis.classification"); ("embedding", "analysis.embedding"); ("artifacts", "analysis.artifacts");
   ("requires", "analysis.requires"); ("relationship", "analysis.relationship")].

Definition AnalyzerSetting (analyzer setting : string) : option string :=
  (fun section => section +:+ "." +:+ setting) <$> get_key analyzer analyzerSections.

Section stages.
Context `{GoQuote}.

Definition analyzerSetting (name : string) : string :=
  default ("the setting enabling " +:+ go_quote name) (AnalyzerSetting name "enabled").

(** The analyzer stages the job was created with. *)
Definition created_analyzers (stages : list Stage) : gset string :=
  list_to_set (List.filter IsAnalyzerStage (StageName <$> stages)).

Definition removed_analyzers (stages : list Stage) (dagOrder : list string) : list string :=
  List.filter (fun n => negb (bool_decide (n ∈ dagOrder))) (sort_strings (elements (created_analyzers stages))).
Definition added_analyzers (stages : list Stage) (dagOrder : list string) : list string :=
  List.filter (fun n => negb (bool_decide (n ∈ created_analyzers stages))) dagOrder.

(** The message of the refusal, if the analyzers changed. *)
Definition checkJobAnalyzers (job : Job) (stages : list Stage) (dagOrder : list string) : option string :=
  let removed := removed_analyzers stages dagOrder in
  let added := added_analyzers stages dagOrder in
  let changes :=
    ((fun n => "analyzer " +:+ go_quote n +:+ " ran when the job was created, but " +:+ analyzerSetting n +:+ " is now false") <$> removed)
    ++ ((fun n => "analyzer " +:+ go_quote n +:+ " did not run when the job was created, but " +:+ analyzerSetting n +:+ " is now true") <$> added) in
  let restore := ((fun n => analyzerSetting n +:+ " to true") <$> removed) ++ ((fun n => analyzerSetting n +:+ " to false") <$> added) in
  if bool_decide (changes = []) then None
  else
    Some ("job " +:+ JobID job +:+ " cannot run: " +:+ join "; " changes
          +:+ ": the enabled analyzers changed since the job was created. "
          +:+ "The job is marked failed and is not resumed. Start a new job with the analyzers enabled now: " +:+ newJobCommand (Config job)
          +:+ ". To give the new job the analyzers this one was created with, first set " +:+ join " and " restore).
End stages.

(** [completedStageSet]. *)
Definition completedStageSet (stages : list Stage) : gset string :=
  list_to_set (StageName <$> List.filter (fun s => bool_decide (st_Status s = StageStatusCompleted)) stages).

(** * Lemmas *)

Lemma elem_of_completedStageSet stages n :
  n ∈ completedStageSet stages <-> exists s, s ∈ stages /\ StageName s = n /\ st_Status s = StageStatusCompleted.
Proof.
  unfold completedStageSet. rewrite elem_of_list_to_set, list_elem_of_fmap. split.
  - intros (s & -> & [Hin Hs]%list_elem_of_In%filter_In). exists s.
    split_and!; [by apply list_elem_of_In|done|by apply bool_decide_eq_true in Hs].
  - intros (s & Hin & <- & Hs). exists s. split; [done|].
    apply list_elem_of_In, filter_In. split; [by apply list_elem_of_In|by apply bool_decide_eq_true].
Qed.

Lemma filter_nil_iff {A} (f : A -> bool) l : List.filter f l = [] <-> forall x, x ∈ l -> f x = false.
Proof.
  induction l as [|a l IH]; cbn; [split; [by intros _ x []%not_elem_of_nil|done]|].
  setoid_rewrite elem_of_cons. destruct (f a) eqn:Ha; [split; [done|]|rewrite IH; naive_solver].
  intros Hx. by rewrite (Hx a (or_introl eq_refl)) in Ha.
Qed.

Lemma elem_of_stage_names n ins order :
  n ∈ stage_names ins order <->
  n ∈ order \/ n ∈ ["synthesis"; "graph"] \/
  (n = "candidate_generation" /\ ins = false /\ exists m, m ∈ order /\ candidateDependent m = true).
Proof.
  set (fixed := ["synthesis"; "graph"]).
  revert ins. induction order as [|m order IH]; intros ins; cbn [stage_names].
  - split; [by right; left|]. intros [[]%not_elem_of_nil|[?|(_ & _ & ? & []%not_elem_of_nil & _)]]. done.
  - assert ((exists k, k ∈ m :: order /\ candidateDependent k = true) <->
      candidateDependent m = true \/ exists k, k ∈ order /\ candidateDependent k = true) as ->
      by (setoid_rewrite elem_of_cons; naive_solver).
    rewrite (elem_of_cons order n m). generalize (exists k, k ∈ order /\ candidateDependent k = true) IH.
    clearbody fixed. clear IH. intros P IH.
    destruct (candidateDependent m) eqn:Hm, ins; cbn [negb andb]; rewrite ?elem_of_cons, IH; intuition congruence.
Qed.

Lemma elem_of_buildStageNames n order :
  n ∈ buildStageNames order <->
  n ∈ order \/ n ∈ ["synthesis"; "graph"] \/
  (n = "candidate_generation" /\ exists m, m ∈ order /\ candidateDependent m = true).
Proof. unfold buildStageNames. rewrite elem_of_stage_names. naive_solver. Qed.

Lemma IsAnalyzerStage_spec n : IsAnalyzerStage n = true <-> n ∉ pipelineStages.
Proof. unfold IsAnalyzerStage. rewrite negb_true_iff. apply bool_decide_eq_false. Qed.

Lemma stage_names_analyzer n order :
  IsAnalyzerStage n = true -> (n ∈ buildStageNames order <-> n ∈ order).
Proof.
  rewrite IsAnalyzerStage_spec, elem_of_buildStageNames. unfold pipelineStages. rewrite !elem_of_cons. naive_solver.
Qed.

(** Candidate generation comes right before the first analyzer that needs it. *)
Lemma stage_names_order order n :
  n ∈ order -> candidateDependent n = true ->
  exists l1 l2, buildStageNames order = l1 ++ "candidate_generation" :: l2 /\ n ∈ l2 /\
    forall m, m ∈ l1 -> m ∈ order /\ candidateDependent m = false.
Proof.
  unfold buildStageNames. induction order as [|m order IH]; [by intros []%not_elem_of_nil|].
  intros [->|Hn]%elem_of_cons Hc; cbn [stage_names].
  - rewrite Hc. cbn. exists [], (m :: stage_names true order). split_and!; [done|by left|by intros ? []%not_elem_of_nil].
  - destruct (candidateDependent m) eqn:Hm; cbn.
    + exists [], (m :: stage_names true order). split_and!; [done| |by intros ? []%not_elem_of_nil].
      right. apply elem_of_stage_names. by left.
    + destruct (IH Hn Hc) as (l1 & l2 & -> & ? & Hl). exists (m :: l1), l2.
      split_and!; [done|done|]. intros k [->|Hk]%elem_of_cons; [split; [by left|done]|].
      destruct (Hl k Hk). split; [by right|done].
Qed.

Section facts.
Context `{GoQuote}.

Lemma elem_of_created n stages :
  n ∈ created_analyzers stages <-> IsAnalyzerStage n = true /\ n ∈ StageName <$> stages.
Proof.
  unfold created_analyzers. rewrite elem_of_list_to_set, list_elem_of_In, filter_In, <- list_elem_of_In. naive_solver.
Qed.

Lemma removed_nil stages order :
  removed_analyzers stages order = [] <-> forall n, n ∈ created_analyzers stages -> n ∈ order.
Proof.
  unfold removed_analyzers. rewrite filter_nil_iff. setoid_rewrite elem_of_sort_strings. setoid_rewrite elem_of_elements.
  setoid_rewrite negb_false_iff. by setoid_rewrite bool_decide_eq_true.
Qed.

Lemma added_nil stages order :
  added_analyzers stages order = [] <-> forall n, n ∈ order -> n ∈ created_analyzers stages.
Proof.
  unfold added_analyzers. rewrite filter_nil_iff. setoid_rewrite negb_false_iff. by setoid_rewrite bool_decide_eq_true.
Qed.

Lemma checkJobAnalyzers_None job stages order :
  checkJobAnalyzers job stages order = None <-> forall n, n ∈ created_analyzers stages <-> n ∈ order.
Proof.
  unfold checkJobAnalyzers.
  transitivity (removed_analyzers stages order = [] /\ added_analyzers stages order = []).
  - destruct (removed_analyzers stages order), (added_analyzers stages order); cbn; naive_solver.
  - rewrite removed_nil, added_nil. naive_solver.
Qed.

(** A job runs the analyzers it was created with: [checkJobAnalyzers] lets
    a job run exactly when the analyzers its stages were created for are those
    the daemon runs now, in any order; and the stages are the analyzers, then
    synthesis and graph, with candidate generation right before the first
    analyzer that needs candidates, if there is one. *)
Theorem job_analyzers_fixed job stages order now :
  StageName <$> stages ≡ₚ buildStageNames order -> Forall (fun n => IsAnalyzerStage n = true) order ->
  (checkJobAnalyzers job stages now = None <-> forall n, n ∈ order <-> n ∈ now) /\
  (forall n, n ∈ StageName <$> stages <->
     n ∈ order \/ n ∈ ["synthesis"; "graph"] \/
     (n = "candidate_generation" /\ exists m, m ∈ order /\ candidateDependent m = true)) /\
  (forall n, n ∈ order -> candidateDependent n = true ->
     exists l1 l2, buildStageNames order = l1 ++ "candidate_generation" :: l2 /\ n ∈ l2 /\
       forall m, m ∈ l1 -> m ∈ order /\ candidateDependent m = false).
Proof.
  intros Hp Hall. rewrite Forall_forall in Hall. split_and!.
  - rewrite checkJobAnalyzers_None. setoid_rewrite elem_of_created.
    split; intros Heq n; rewrite <- Heq, Hp; [|clear Heq].
    + split; [intros Hn; split; [auto|]|intros [Ha Hn]]; by apply (stage_names_analyzer n order); auto.
    + split; [intros [Ha Hn]|intros Hn; split; [auto|]]; by apply (stage_names_analyzer n order); auto.
  - intros n. rewrite Hp. apply elem_of_buildStageNames.
  - intros n. apply stage_names_order.
Qed.
End facts.

Definition small_stages : list Stage :=
  (fun n => mkStage "job-1" n StageStatusPending None None 0 "" "acme" "") <$>
  ["artifacts"; "candidate_generation"; "classify"; "graph"; "requires"; "synthesis"].

Lemma job_analyzers_fixed_witness (q := Build_GoQuote (fun s => s)) :
  let job := mkJob "job-1" "acme" JobStatusRunning "{}" "u" 0 0 "" "" in
  (checkJobAnalyzers job small_stages ["classify"; "artifacts"; "requires"] = None <->
     forall n, n ∈ ["artifacts"; "classify"; "requires"] <-> n ∈ ["classify"; "artifacts"; "requires"]) /\
  (forall n, n ∈ StageName <$> small_stages <->
     n ∈ ["artifacts"; "classify"; "requires"] \/ n ∈ ["synthesis"; "graph"] \/
     (n = "candidate_generation" /\ exists m, m ∈ ["artifacts"; "classify"; "requires"] /\ candidateDependent m = true)) /\
  (forall n, n ∈ ["artifacts"; "classify"; "requires"] -> candidateDependent n = true ->
     exists l1 l2, buildStageNames ["artifacts"; "classify"; "requires"] = l1 ++ "candidate_generation" :: l2 /\ n ∈ l2 /\
       forall m, m ∈ l1 -> m ∈ ["artifacts"; "classify"; "requires"] /\ candidateDependent m = false).
Proof.
  intros job. apply (job_analyzers_fixed job small_stages ["artifacts"; "classify"; "requires"]).
  - rewrite <- (sort_strings_perm (StageName <$> small_stages)), <- (sort_strings_perm (buildStageNames _)).
    vm_compute. reflexivity.
  - repeat constructor.
Defined.
