(* ===== verification/Joberr.v ===== *)
(** What is recorded of a job's failure: [internal/pipeline/errors.go].

    An error is its tree, as [errors.Is] and a type switch see it: text,
    sentinels, what [fmt.Errorf] and [errors.Join] wrap, and the three error
    types of the pipeline. A sentinel is named by its text. *)

From S2P Require Import Prelude Errors Jobconfig.

(** * Definitions *)

(** ** Errors *)

Inductive goerr :=
| Plain (text : string)                                        (* wraps nothing: a driver's, a panic's *)
| Sentinel (s : sentinel)
| Wrap (text : string) (es : list goerr)                       (* fmt.Errorf with %w, errors.Join *)
| StageError (analyzer : string) (s cause : goerr) (message : string)
| TenantError (s : sentinel) (message : string)
| JobFailure (message : string) (err : goerr).

(** The text of an error. *)
Definition Error_text (e : goerr) : string :=
  match e with
  | Plain t | Wrap t _ => t
  | Sentinel s => s
  | StageError _ _ _ m | TenantError _ m | JobFailure m _ => m
  end.

(** [errors.Is]: a [StageError] unwraps to its sentinel only, never to its
    cause. *)
Fixpoint is_err (e : goerr) (s : sentinel) : bool :=
  match e with
  | Plain _ => false
  | Sentinel s' => String.eqb s' s
  | Wrap _ es => existsb (fun e => is_err e s) es
  | StageError _ e' _ _ => is_err e' s
  | TenantError s' _ => String.eqb s' s
  | JobFailure _ e' => is_err e' s
  end.

(** ** Sentinels and classes *)

Definition ErrAttestationInvalid : sentinel := "attestation does not verify".
Definition ErrAnalyzersChanged : sentinel := "the enabled analyzers changed since the job was created".
Definition ErrMissingCatalogID : sentinel :=
  "job config has no usable catalog_id (missing, empty, or a catalog field of the wrong type)".
Definition ErrEmptyTargetCatalog : sentinel := "target catalog has no control with a statement".
Definition ErrCacheCorrupt : sentinel := "cached result failed its integrity check".
Definition ErrCacheUnavailable : sentinel := "result cache unavailable".
Definition ErrLLMUnavailable : sentinel := "the model gateway did not complete a probe request before analysis".
Definition ErrLLMOutputTruncated : sentinel := "llmclient.ErrOutputTruncated".

Definition JobErrorClass : Type := string.
Definition JobErrorRetryable : JobErrorClass := "".
Definition JobErrorAttestationInvalid : JobErrorClass := "attestation_invalid".
Definition JobErrorAnalyzersChanged : JobErrorClass := "analyzers_changed".
Definition JobErrorMissingCatalog : JobErrorClass := "missing_catalog".
Definition JobErrorEmptyTargetCatalog : JobErrorClass := "empty_target_catalog".
Definition JobErrorResultCacheUnavailable : JobErrorClass := "result_cache_unavailable".
Definition JobErrorResultCacheCorrupt : JobErrorClass := "result_cache_corrupt".
Definition JobErrorLLMUnavailable : JobErrorClass := "llm_unavailable".
Definition JobErrorLLMOutputTruncated : JobErrorClass := "llm_output_truncated".

Definition classes : list (sentinel * JobErrorClass) :=
  [(ErrAttestationInvalid, JobErrorAttestationInvalid); (ErrAnalyzersChanged, JobErrorAnalyzersChanged);
   (ErrMissingCatalogID, JobErrorMissingCatalog); (ErrEmptyTargetCatalog, JobErrorEmptyTargetCatalog);
   (ErrCacheCorrupt, JobErrorResultCacheCorrupt); (ErrCacheUnavailable, JobErrorResultCacheUnavailable);
   (ErrLLMUnavailable, JobErrorLLMUnavailable); (ErrLLMOutputTruncated, JobErrorLLMOutputTruncated)].

Fixpoint first_class (cs : list (sentinel * JobErrorClass)) (e : goerr) : JobErrorClass :=
  match cs with
  | [] => JobErrorRetryable
  | (s, c) :: cs => if is_err e s then c else first_class cs e
  end.

(** [None] is a nil error. *)
Definition ClassifyJobError (err : option goerr) : JobErrorClass :=
  match err with Some e => first_class classes e | None => JobErrorRetryable end.

Definition retryRefusal (class : JobErrorClass) : string :=
  if bool_decide (class = JobErrorAttestationInvalid)
  then "its attestation does not verify, and a retry reads the same stored attestation"
  else if bool_decide (class = JobErrorAnalyzersChanged)
  then "the enabled analyzers changed since it was created, and a retry checks them again"
  else if bool_decide (class = JobErrorMissingCatalog) then "its config names no catalog to analyse"
  else if bool_decide (class = JobErrorEmptyTargetCatalog)
  then "its target catalog has no control with a statement, and a retry reads the same catalog"
  else if bool_decide (class = JobErrorResultCacheCorrupt)
  then "a cached result failed its integrity check, or a stage run's cache record did not match what the stage wrote, "
       +:+ "and a retry reads the same cache"
  else "".

Definition retryRemedy (class : JobErrorClass) (config : string) : string :=
  match ExtractCatalogs config with
  | Some cats =>
      if bool_decide (class = JobErrorEmptyTargetCatalog)
      then "Importing the target again with control statements gives it a new catalog ID, "
           +:+ "so start a new job with that catalog or another target: " +:+ jobCommand cats (SourceID cats) "<catalog-id>"
      else if bool_decide (class = JobErrorResultCacheCorrupt)
      then "Start a new job with --no-cache, which recomputes and replaces the cached results: " +:+ noCacheCommand config
      else "Start a new job: " +:+ newJobCommand config
  | None =>
      if bool_decide (class = JobErrorResultCacheCorrupt)
      then "Start a new job with --no-cache, which recomputes and replaces the cached results: " +:+ noCacheCommand config
      else "Start a new job: " +:+ newJobCommand config
  end.

(** ** Messages *)

(** The texts written for the tenant in an error's tree, in order. *)
Fixpoint tenantMessages (e : goerr) : list string :=
  match e with
  | Plain _ | Sentinel _ => []
  | Wrap _ es => concat (map tenantMessages es)
  | StageError _ _ _ m => [m]
  | TenantError _ m => [m]
  | JobFailure _ e' => tenantMessages e'
  end.

(** [traceID] is the trace of the context, empty when tracing is off. *)
Definition TraceReference (traceID jobID : string) : string :=
  if bool_decide (traceID = "") then "job ID " +:+ jobID +:+ " (tracing is off, so there is no trace ID)"
  else "trace ID " +:+ traceID.

Definition in_quotes (s : string) : string := String.String "034" (s +:+ String.String "034" EmptyString).

(** [config] is empty for a job that could not be loaded. *)
Definition tenantJobMessage (traceID jobID config : string) (err : goerr) : string :=
  match tenantMessages err with
  | [] =>
      let class := ClassifyJobError (Some err) in
      let '(head, remedy) :=
        if bool_decide (retryRefusal class = "") then
          ("job " +:+ jobID +:+ " failed because of an internal error (error class "
             +:+ (if bool_decide (class = JobErrorRetryable) then "retryable" else class) +:+ ").",
           "Resume it with " +:+ in_quotes ("crosscodex run retry --from-failure " +:+ jobID) +:+ ", which keeps its completed stages, "
             +:+ "or start a new job: " +:+ newJobCommand config +:+ ".")
        else
          ("job " +:+ jobID +:+ " failed because of an internal error (error class " +:+ class +:+ "), "
             +:+ "which a retry from its failure cannot fix.",
           retryRemedy class config +:+ ".") in
      head +:+ " " +:+ remedy +:+ " If it fails again, give your operator " +:+ TraceReference traceID jobID +:+ "."
  | msgs => join " " msgs
  end.

Definition tenantFailure (traceID jobID config : string) (err : goerr) : goerr :=
  JobFailure (tenantJobMessage traceID jobID config err) err.

(** * Lemmas *)

(** Induction with a hypothesis for every wrapped error. *)
Fixpoint goerr_nested_ind (P : goerr -> Prop)
    (HP : forall t, P (Plain t)) (HS : forall s, P (Sentinel s)) (HW : forall t es, Forall P es -> P (Wrap t es))
    (HE : forall a s c m, P s -> P (StageError a s c m)) (HT : forall s m, P (TenantError s m))
    (HJ : forall m e, P e -> P (JobFailure m e)) (e : goerr) : P e :=
  let rec := goerr_nested_ind P HP HS HW HE HT HJ in
  match e with
  | Plain t => HP t
  | Sentinel s => HS s
  | Wrap t es =>
      HW t es ((fix all l : Forall P l := match l with [] => Forall_nil_2 P | e :: l => Forall_cons_2 P e l (rec e) (all l) end) es)
  | StageError a s c m => HE a s c m (rec s)
  | TenantError s m => HT s m
  | JobFailure m e => HJ m e (rec e)
  end.

(** What of an error may be shown: its tree without the text of drivers,
    panics and wrappers, and without the causes of stage errors. *)
Fixpoint shape (e : goerr) : goerr :=
  match e with
  | Plain _ => Plain ""
  | Sentinel s => Sentinel s
  | Wrap _ es => Wrap "" (map shape es)
  | StageError _ s _ m => StageError "" (shape s) (Plain "") m
  | TenantError s m => TenantError s m
  | JobFailure _ e => JobFailure "" (shape e)
  end.

Definition same_shape (e1 e2 : goerr) : Prop := shape e1 = shape e2.

#[export] Instance same_shape_equiv : Equivalence same_shape.
Proof. split; unfold same_shape; [by intros ?|by intros ??|by intros ??? -> ->]. Qed.

Lemma is_err_shape e s : is_err (shape e) s = is_err e s.
Proof.
  induction e as [t|s'|t es IH|a s' c m IH|s' m|m e IH] using goerr_nested_ind; cbn; try done.
  induction IH as [|e es He _ IHes]; cbn; [done|]. by rewrite He, IHes.
Qed.

Lemma tenantMessages_shape e : tenantMessages (shape e) = tenantMessages e.
Proof.
  induction e as [t|s'|t es IH|a s' c m IH|s' m|m e IH] using goerr_nested_ind; cbn; try done.
  induction IH as [|e es He _ IHes]; cbn; [done|]. by rewrite He, IHes.
Qed.

#[export] Instance is_err_proper : Proper (same_shape ==> eq ==> eq) is_err.
Proof. intros e1 e2 He s ? <-. by rewrite <- is_err_shape, He, is_err_shape. Qed.

#[export] Instance tenantMessages_proper : Proper (same_shape ==> eq) tenantMessages.
Proof. intros e1 e2 He. by rewrite <- tenantMessages_shape, He, tenantMessages_shape. Qed.

#[export] Instance first_class_proper cs : Proper (same_shape ==> eq) (first_class cs).
Proof. intros e1 e2 He. induction cs as [|[s c] cs IH]; cbn; [done|]. by rewrite He, IH. Qed.

#[export] Instance tenantJobMessage_proper traceID jobID config : Proper (same_shape ==> eq) (tenantJobMessage traceID jobID config).
Proof. intros e1 e2 He. unfold tenantJobMessage. cbn [ClassifyJobError]. by rewrite (tenantMessages_proper _ _ He), (first_class_proper _ _ _ He). Qed.

Lemma first_class_JobFailure cs m e : first_class cs (JobFailure m e) = first_class cs e.
Proof. induction cs as [|[s c] cs IH]; cbn; [done|]. by rewrite IH. Qed.

Lemma tenantJobMessage_JobFailure traceID jobID config m e :
  tenantJobMessage traceID jobID config (JobFailure m e) = tenantJobMessage traceID jobID config e.
Proof. unfold tenantJobMessage. cbn [tenantMessages ClassifyJobError]. by rewrite first_class_JobFailure. Qed.

(** C24. What is recorded of a failure never depends on internal text: two
    failures that differ only in the text of drivers, panics and wrappers and
    in the causes of stage errors are recorded with the same message and the
    same class, so neither can carry such text to the tenant. Recording a
    failure keeps its class, and recording it again changes nothing. *)
Theorem tenant_failure_withholds_internals traceID jobID config e1 e2 :
  same_shape e1 e2 ->
  Error_text (tenantFailure traceID jobID config e1) = Error_text (tenantFailure traceID jobID config e2) /\
  ClassifyJobError (Some e1) = ClassifyJobError (Some e2) /\
  ClassifyJobError (Some (tenantFailure traceID jobID config e1)) = ClassifyJobError (Some e1) /\
  Error_text (tenantFailure traceID jobID config (tenantFailure traceID jobID config e1)) =
    Error_text (tenantFailure traceID jobID config e1).
Proof.
  intros He. cbn [Error_text tenantFailure ClassifyJobError]. split_and!.
  - by rewrite He.
  - by rewrite He.
  - apply first_class_JobFailure.
  - apply tenantJobMessage_JobFailure.
Qed.

Definition driver_error (text : string) : goerr :=
  Wrap ("loading stages: " +:+ text) [Wrap text [Sentinel ErrAttestationInvalid; Plain text]].

Lemma tenant_failure_withholds_internals_witness :
  let e1 := driver_error "pq: password authentication failed" in
  let e2 := driver_error "" in
  Error_text (tenantFailure "" "job-1" "" e1) = Error_text (tenantFailure "" "job-1" "" e2) /\
  ClassifyJobError (Some e1) = ClassifyJobError (Some e2) /\
  ClassifyJobError (Some (tenantFailure "" "job-1" "" e1)) = ClassifyJobError (Some e1) /\
  Error_text (tenantFailure "" "job-1" "" (tenantFailure "" "job-1" "" e1)) = Error_text (tenantFailure "" "job-1" "" e1).
Proof. apply (tenant_failure_withholds_internals "" "job-1" ""). reflexivity. Defined.
