(* ===== verification/Jobstore.v ===== *)
(** The pipeline's PostgreSQL store: [internal/pipeline/store.go] and
    [writeVoteSummaries] of [internal/pipeline/vote_summaries.go], over the
    tables, row policies and triggers of
    [pkg/db/migrations/001_initial_schema.up.sql] they run against.

    Every method is one transaction, so it is a function on the tables: it
    either answers and leaves the new tables, or fails and leaves them as they
    were. Connection failures are left to the callers. PostgreSQL's canonical
    text of a JSONB value and its sort orders are parameters. *)

From S2P Require Import Prelude Float64 Gostrings Tenant Jobconfig Joberr.
Local Open Scope Z_scope.

(** * Definitions *)

(** [jsonb] is the text a JSONB column gives back, if it accepts the value. *)
Class Postgres := {
  jsonb : string -> option string;
  order_by : forall {A : Type}, (A -> A -> bool) -> list A -> list A;
  order_by_perm : forall {A : Type} (less : A -> A -> bool) (l : list A), order_by less l ≡ₚ l;
  collate : string -> string -> bool;
}.

Inductive store_error :=
| ErrNoTenantInContext
| ErrBadTenantID
| ErrInvalidJobID
| ErrNotFound
| ErrStageNotFound (stage : string)
| ErrDatabase.                        (* a constraint, a policy or a trigger refused *)

Record vote_row := mkVoteRow { vr_consensus : string; vr_confidence : float64; vr_viability : float64; vr_tenant : string }.

Record db := mkDB {
  tenants : gmap string string;                                    (* tenant -> status *)
  jobs : gmap string Job;
  job_stages : gmap (string * string) Stage;                       (* job, stage *)
  analysis_results : gmap (string * string * string) string;       (* tenant, job, analyzer *)
  vote_summaries : gmap (string * string * string * string) vote_row;  (* job, source, target, analyzer *)
}.

Definition set_jobs (d : db) (js : gmap string Job) : db :=
  mkDB (tenants d) js (job_stages d) (analysis_results d) (vote_summaries d).
Definition set_stages (d : db) (ss : gmap (string * string) Stage) : db :=
  mkDB (tenants d) (jobs d) ss (analysis_results d) (vote_summaries d).
Definition set_results (d : db) (rs : gmap (string * string * string) string) : db :=
  mkDB (tenants d) (jobs d) (job_stages d) rs (vote_summaries d).
Definition set_votes (d : db) (vs : gmap (string * string * string * string) vote_row) : db :=
  mkDB (tenants d) (jobs d) (job_stages d) (analysis_results d) vs.

(** ** Transactions *)

(** The tenant and user of a transaction's row policies. *)
Record session := mkSession { se_tenant : string; se_user : string }.

Definition deleted (d : db) (tenantID : string) : bool := bool_decide (tenants d !! tenantID = Some "deleted").

(** [Begin] enters the context's tenant; the method then enters [tenantID]. *)
Definition enter (ctx : context) (tenantID : string) (d : db) : result store_error session :=
  match FromContext ctx with
  | Err _ => Err ErrNoTenantInContext
  | Ok t => if deleted d t || deleted d tenantID then Err ErrDatabase else Ok (mkSession tenantID (UserFromContext ctx))
  end.

Definition transaction {A} (ctx : context) (tenantID : string) (d : db) (body : session -> result store_error (A * db))
  : result store_error A * db :=
  match enter ctx tenantID d with
  | Err e => (Err e, d)
  | Ok s => match body s with Ok (a, d') => (Ok a, d') | Err e => (Err e, d) end
  end.

(** A method on the job [jobID] of the context's tenant. *)
Definition job_method {A} (ctx : context) (jobID : string) (d : db) (body : session -> result store_error (A * db))
  : result store_error A * db :=
  if bool_decide (jobID = "") then (Err ErrInvalidJobID, d)
  else
    match FromContext ctx with
    | Err _ => (Err ErrNoTenantInContext, d)
    | Ok t => transaction ctx t d body
    end.

(** The row policy of [jobs]. *)
Definition visible (s : session) (j : Job) : bool :=
  bool_decide (TenantID j = se_tenant s) && (bool_decide (se_user s = "") || bool_decide (CreatedBy j = se_user s)).

(** What the trigger on a job's child rows finds; it reads under the policies
    of the caller. *)
Definition parent_completed (s : session) (d : db) (jobID : string) : bool :=
  match jobs d !! jobID with
  | Some j => visible s j && bool_decide (Status j = JobStatusCompleted)
  | None => false
  end.

(** The foreign keys of a new child row of [jobID]. *)
Definition keys_exist (s : session) (d : db) (jobID : string) : bool :=
  bool_decide (is_Some (jobs d !! jobID)) && bool_decide (is_Some (tenants d !! se_tenant s)).

(** [UPDATE job_stages SET ... WHERE job_id AND stage_name AND tenant_id]. *)
Definition update_stage (s : session) (d : db) (jobID stageName : string) (f : Stage -> Stage) : result store_error (unit * db) :=
  match job_stages d !! (jobID, stageName) with
  | Some st =>
      if negb (bool_decide (st_TenantID st = se_tenant s)) then Ok (tt, d)
      else if parent_completed s d jobID then Err ErrDatabase
      else Ok (tt, set_stages d (<[(jobID, stageName) := f st]> (job_stages d)))
  | None => Ok (tt, d)
  end.

Section store.
Context `{Postgres}.

(** ** Jobs *)

Definition CreateJob (ctx : context) (job : Job) (d : db) : result store_error unit * db :=
  match ValidateTenantID (TenantID job) with
  | Err _ => (Err ErrBadTenantID, d)
  | Ok _ =>
      if bool_decide (JobID job = "") then (Err ErrInvalidJobID, d)
      else
        transaction ctx (TenantID job) d (fun s =>
          match jsonb (Config job) with
          | None => Err ErrDatabase
          | Some config =>
              let row := mkJob (JobID job) (TenantID job) (Status job) config (CreatedBy job) (CreatedAt job) (UpdatedAt job)
                           (ErrorMessage job) "" in
              if bool_decide (jobs d !! JobID job = None) && visible s row && bool_decide (is_Some (tenants d !! TenantID job))
              then Ok (tt, set_jobs d (<[JobID job := row]> (jobs d))) else Err ErrDatabase
          end)
  end.

Definition GetJob (ctx : context) (jobID : string) (d : db) : result store_error Job * db :=
  job_method ctx jobID d (fun s =>
    match jobs d !! jobID with
    | Some j => if visible s j then Ok (j, d) else Err ErrNotFound
    | None => Err ErrNotFound
    end).

Record JobFilter := mkFilter { fl_Status : JobStatus; fl_Limit : Z; fl_Offset : Z }.

Definition ListJobs (ctx : context) (tenantID : string) (f : JobFilter) (d : db) : result store_error (list Job * Z) * db :=
  match ValidateTenantID tenantID with
  | Err _ => (Err ErrBadTenantID, d)
  | Ok _ =>
      transaction ctx tenantID d (fun s =>
        let found := List.filter (fun j => visible s j && (bool_decide (fl_Status f = "") || bool_decide (Status j = fl_Status f)))
                       (map_to_list (jobs d)).*2 in
        let sorted := order_by (fun a b => CreatedAt b <? CreatedAt a) found in
        let rest := drop (Z.to_nat (fl_Offset f)) sorted in
        Ok (if 0 <? fl_Limit f then take (Z.to_nat (fl_Limit f)) rest else rest, Z.of_nat (length found), d))
  end.

Definition UpdateJobStatus (now : Z) (ctx : context) (jobID : string) (status : JobStatus) (jobErr : option goerr) (d : db)
  : result store_error unit * db :=
  job_method ctx jobID d (fun s =>
    match jobs d !! jobID with
    | Some j =>
        if negb (visible s j) then Ok (tt, d)
        else if bool_decide (Status j = JobStatusCompleted) then Err ErrDatabase
        else
          let j' := mkJob (JobID j) (TenantID j) status (Config j) (CreatedBy j) (CreatedAt j) now
                      (match jobErr with Some e => Error_text e | None => "" end) (ClassifyJobError jobErr) in
          Ok (tt, set_jobs d (<[jobID := j']> (jobs d)))
    | None => Ok (tt, d)
    end).

Definition GetResumableJobs (d : db) : list Job :=
  order_by (fun a b => CreatedAt a <? CreatedAt b)
    (List.filter (fun j => bool_decide (Status j = JobStatusRunning) &&
         match tenants d !! TenantID j with Some st => negb (bool_decide (st = "deleted")) | None => false end)
       (map_to_list (jobs d)).*2).

Definition JobsCreatedBy (ctx : context) (jobIDs : list string) (user : string) (d : db) : result store_error (list string) * db :=
  if bool_decide (user = "") || bool_decide (jobIDs = []) then (Ok [], d)
  else
    match FromContext ctx with
    | Err _ => (Err ErrNoTenantInContext, d)
    | Ok t =>
        transaction ctx t d (fun s =>
          Ok (order_by collate (JobID <$> List.filter (fun j => visible s j && bool_decide (CreatedBy j = user)
                && bool_decide (JobID j ∈ jobIDs)) (map_to_list (jobs d)).*2), d))
    end.

(** ** Stages *)

Fixpoint insert_stages (s : session) (jobID : string) (names : list string) (d : db) : result store_error (unit * db) :=
  match names with
  | [] => Ok (tt, d)
  | n :: rest =>
      if bool_decide (job_stages d !! (jobID, n) = None) && keys_exist s d jobID
      then insert_stages s jobID rest (set_stages d
             (<[(jobID, n) := mkStage jobID n StageStatusPending None None 0 "" (se_tenant s) ""]> (job_stages d)))
      else Err ErrDatabase
  end.

Definition CreateStages (ctx : context) (jobID : string) (stageNames : list string) (d : db) : result store_error unit * db :=
  job_method ctx jobID d (fun s => insert_stages s jobID stageNames d).

(** The columns a new status sets. *)
Definition with_status (now : Z) (status : StageStatus) (st : Stage) : Stage :=
  let ended := bool_decide (status = StageStatusCompleted \/ status = StageStatusFailed \/ status = StageStatusCancelled) in
  mkStage (st_JobID st) (StageName st) status
    (if bool_decide (status = StageStatusRunning) then Some now else StartedAt st)
    (if ended then Some now else CompletedAt st)
    (RetryCount st) (st_ErrorMessage st) (st_TenantID st) (CacheAttempt st).

Definition UpdateStageStatus (now : Z) (ctx : context) (jobID stageName : string) (status : StageStatus) (d : db)
  : result store_error unit * db :=
  job_method ctx jobID d (fun s => update_stage s d jobID stageName (with_status now status)).

Definition with_error (now : Z) (stageErr : option goerr) (st : Stage) : Stage :=
  mkStage (st_JobID st) (StageName st) StageStatusFailed (StartedAt st) (Some now) (RetryCount st)
    (match stageErr with Some e => Error_text e | None => "" end) (st_TenantID st) (CacheAttempt st).

Definition UpdateStageError (now : Z) (ctx : context) (jobID stageName : string) (stageErr : option goerr) (d : db)
  : result store_error unit * db :=
  job_method ctx jobID d (fun s => update_stage s d jobID stageName (with_error now stageErr)).

Definition GetStages (ctx : context) (jobID : string) (d : db) : result store_error (list Stage) * db :=
  job_method ctx jobID d (fun s =>
    Ok (order_by (fun a b => collate (StageName a) (StageName b))
          (List.filter (fun st => bool_decide (st_JobID st = jobID /\ st_TenantID st = se_tenant s)) (map_to_list (job_stages d)).*2), d)).

Definition reset (st : Stage) : Stage :=
  mkStage (st_JobID st) (StageName st) StageStatusPending None None (RetryCount st + 1) "" (st_TenantID st) "".

Fixpoint reset_stages (s : session) (jobID : string) (names : list string) (d : db) : result store_error (unit * db) :=
  match names with
  | [] => Ok (tt, d)
  | n :: rest =>
      match update_stage s d jobID n reset with
      | Ok (_, d') => reset_stages s jobID rest d'
      | Err e => Err e
      end
  end.

(** The stages from the first occurrence of [fromStage] on. *)
Fixpoint stages_from (fromStage : string) (allStages : list string) : option (list string) :=
  match allStages with
  | [] => None
  | n :: rest => if bool_decide (n = fromStage) then Some allStages else stages_from fromStage rest
  end.

Definition ResetStagesFrom (ctx : context) (jobID fromStage : string) (allStages : list string) (d : db)
  : result store_error unit * db :=
  if bool_decide (jobID = "") then (Err ErrInvalidJobID, d)
  else
    match FromContext ctx with
    | Err _ => (Err ErrNoTenantInContext, d)
    | Ok t =>
        match stages_from fromStage allStages with
        | None => (Err (ErrStageNotFound fromStage), d)
        | Some names => transaction ctx t d (fun s => reset_stages s jobID names d)
        end
    end.

(** ** Results *)

Definition completed_by (now : Z) (cacheAttempt : string) (st : Stage) : Stage :=
  mkStage (st_JobID st) (StageName st) StageStatusCompleted (StartedAt st) (Some now) (RetryCount st)
    (st_ErrorMessage st) (st_TenantID st) cacheAttempt.

Definition CompleteAnalysisStage (now : Z) (ctx : context) (jobID analyzerName resultData cacheAttempt : string) (d : db)
  : result store_error unit * db :=
  job_method ctx jobID d (fun s =>
    match jsonb resultData with
    | None => Err ErrDatabase
    | Some data =>
        if negb (keys_exist s d jobID) then Err ErrDatabase
        else update_stage s (set_results d (<[(se_tenant s, jobID, analyzerName) := data]> (analysis_results d)))
               jobID analyzerName (completed_by now cacheAttempt)
    end).

(** The results found, by analyzer. *)
Definition GetCompletedAnalysisResults (ctx : context) (jobID : string) (analyzerNames : list string) (d : db)
  : result store_error (gmap string string) * db :=
  if bool_decide (jobID = "") then (Err ErrInvalidJobID, d)
  else if bool_decide (analyzerNames = []) then (Ok ∅, d)
  else
    job_method ctx jobID d (fun s =>
      Ok (list_to_map (omap (fun n => data ← analysis_results d !! (se_tenant s, jobID, n); Some (n, data)) analyzerNames), d)).

Record VoteSummaryPair := mkPair {
  vp_SourceID : string;
  vp_TargetID : string;
  vp_Analyzer : string;
  vp_Consensus : string;
  vp_Confidence : float64;
}.

Fixpoint insert_votes (s : session) (jobID : string) (pairs : list VoteSummaryPair) (d : db) : result store_error (unit * db) :=
  match pairs with
  | [] => Ok (tt, d)
  | p :: rest =>
      if bool_decide (vp_Analyzer p = "") || negb (keys_exist s d jobID) then Err ErrDatabase
      else
        let key := (jobID, vp_SourceID p, vp_TargetID p, vp_Analyzer p) in
        match vote_summaries d !! key with
        | Some _ => insert_votes s jobID rest d
        | None =>
            insert_votes s jobID rest
              (set_votes d (<[key := mkVoteRow (vp_Consensus p) (vp_Confidence p) fzero (se_tenant s)]> (vote_summaries d)))
        end
  end.

Definition WriteVoteSummaries (ctx : context) (tenantID jobID : string) (pairs : list VoteSummaryPair) (d : db)
  : result store_error unit * db :=
  match ValidateTenantID tenantID with
  | Err _ => (Err ErrBadTenantID, d)
  | Ok _ =>
      if bool_decide (pairs = []) then (Ok tt, d)
      else transaction ctx tenantID d (fun s => insert_votes s jobID pairs d)
  end.
End store.

(** * Operations *)

Inductive db_op :=
| OpCreateJob (ctx : context) (job : Job)
| OpJobStatus (now : Z) (ctx : context) (jobID : string) (status : JobStatus) (err : option goerr)
| OpCreateStages (ctx : context) (jobID : string) (names : list string)
| OpStageStatus (now : Z) (ctx : context) (jobID stage : string) (status : StageStatus)
| OpStageError (now : Z) (ctx : context) (jobID stage : string) (err : option goerr)
| OpReset (ctx : context) (jobID from : string) (all : list string)
| OpComplete (now : Z) (ctx : context) (jobID analyzer data attempt : string)
| OpVotes (ctx : context) (tenantID jobID : string) (pairs : list VoteSummaryPair).

Definition apply_op `{Postgres} (d : db) (op : db_op) : db :=
  match op with
  | OpCreateJob ctx job => (CreateJob ctx job d).2
  | OpJobStatus now ctx j st err => (UpdateJobStatus now ctx j st err d).2
  | OpCreateStages ctx j names => (CreateStages ctx j names d).2
  | OpStageStatus now ctx j n st => (UpdateStageStatus now ctx j n st d).2
  | OpStageError now ctx j n err => (UpdateStageError now ctx j n err d).2
  | OpReset ctx j from all => (ResetStagesFrom ctx j from all d).2
  | OpComplete now ctx j n data a => (CompleteAnalysisStage now ctx j n data a d).2
  | OpVotes ctx t j pairs => (WriteVoteSummaries ctx t j pairs d).2
  end.

(** The tenant and user an operation runs as. *)
Definition op_session (op : db_op) : option session :=
  match op with
  | OpCreateJob ctx job => Some (mkSession (TenantID job) (UserFromContext ctx))
  | OpVotes ctx t _ _ => Some (mkSession t (UserFromContext ctx))
  | OpJobStatus _ ctx _ _ _ | OpCreateStages ctx _ _ | OpStageStatus _ ctx _ _ _ | OpStageError _ ctx _ _ _
  | OpReset ctx _ _ _ | OpComplete _ ctx _ _ _ _ =>
      match FromContext ctx with Ok t => Some (mkSession t (UserFromContext ctx)) | Err _ => None end
  end.

(** * What an operation may write *)

(** The rows a session's transaction may have written. *)
Record frame (s : session) (d d' : db) : Prop := {
  fr_tenants : tenants d' = tenants d;
  fr_jobs : forall j, jobs d' !! j = jobs d !! j \/
    ((jobs d !! j = None \/ exists old, jobs d !! j = Some old /\ visible s old = true /\ Status old <> JobStatusCompleted) /\
     exists new, jobs d' !! j = Some new /\ TenantID new = se_tenant s);
  fr_stages : forall k, job_stages d' !! k = job_stages d !! k \/
    ((job_stages d !! k = None \/
      exists old, job_stages d !! k = Some old /\ st_TenantID old = se_tenant s /\ parent_completed s d k.1 = false) /\
     exists new, job_stages d' !! k = Some new /\ st_TenantID new = se_tenant s);
  fr_results : forall t j a, analysis_results d' !! (t, j, a) = analysis_results d !! (t, j, a) \/
    (t = se_tenant s /\
     forall st, job_stages d !! (j, a) = Some st -> st_TenantID st = se_tenant s -> parent_completed s d j = false);
  fr_votes : forall k, vote_summaries d' !! k = vote_summaries d !! k \/
    (vote_summaries d !! k = None /\ exists new, vote_summaries d' !! k = Some new /\ vr_tenant new = se_tenant s);
}.

Lemma frame_refl s d : frame s d d.
Proof. split; auto. Qed.

Lemma parent_completed_jobs s d d' j : jobs d' = jobs d -> parent_completed s d' j = parent_completed s d j.
Proof. unfold parent_completed. by intros ->. Qed.

Lemma frame_set_stage s d k new :
  st_TenantID new = se_tenant s ->
  (job_stages d !! k = None \/
   exists old, job_stages d !! k = Some old /\ st_TenantID old = se_tenant s /\ parent_completed s d k.1 = false) ->
  frame s d (set_stages d (<[k := new]> (job_stages d))).
Proof.
  intros Hn Hold. split; cbn; auto. intros k'. destruct (decide (k = k')) as [<-|Hne].
  - right. split; [done|]. exists new. by rewrite lookup_insert_eq.
  - left. by rewrite lookup_insert_ne.
Qed.

(** The stage methods touch nothing else. *)
Definition only_stages (d d' : db) : Prop := exists ss, d' = set_stages d ss.

Lemma only_stages_refl d : only_stages d d.
Proof. exists (job_stages d). by destruct d. Qed.

Lemma only_stages_trans d d1 d2 : only_stages d d1 -> only_stages d1 d2 -> only_stages d d2.
Proof. intros [s1 ->] [s2 ->]. by exists s2. Qed.

Lemma frame_stages_trans s d d1 d2 : frame s d d1 -> only_stages d d1 -> frame s d1 d2 -> only_stages d1 d2 -> frame s d d2.
Proof.
  intros [_ _ Hs _ _] [s1 ->] [_ _ Hs' _ _] [s2 ->]. split; cbn in *; auto.
  intros k. specialize (Hs k). specialize (Hs' k). cbn in *.
  destruct Hs' as [->|[Hold Hnew]]; [done|]. right. split; [|done].
  destruct Hs as [<-|[Hold' _]]; [|done]. destruct Hold as [?|(old & ? & ? & ?)]; [by left|right; by exists old].
Qed.

Lemma update_stage_cases s d j n f u d' :
  (forall st, st_TenantID (f st) = st_TenantID st) -> update_stage s d j n f = Ok (u, d') ->
  d' = d \/ exists st, job_stages d !! (j, n) = Some st /\ st_TenantID st = se_tenant s /\ parent_completed s d j = false /\
    d' = set_stages d (<[(j, n) := f st]> (job_stages d)).
Proof.
  intros Hf. unfold update_stage. destruct (job_stages d !! (j, n)) as [st|] eqn:Hst; [|intros [= _ <-]; by left].
  case_bool_decide as Ht; cbn; [|intros [= _ <-]; by left]. destruct (parent_completed s d j) eqn:Hp; [done|].
  intros [= _ <-]. right. by exists st.
Qed.

Lemma update_stage_frame s d j n f u d' :
  (forall st, st_TenantID (f st) = st_TenantID st) -> update_stage s d j n f = Ok (u, d') -> frame s d d'.
Proof.
  intros Hf [->|(st & Hst & Ht & Hp & ->)]%update_stage_cases; [apply frame_refl| |done].
  apply frame_set_stage; [by rewrite Hf|right; by exists st].
Qed.

Lemma update_stage_only s d j n f u d' :
  (forall st, st_TenantID (f st) = st_TenantID st) -> update_stage s d j n f = Ok (u, d') -> only_stages d d'.
Proof.
  intros Hf [->|(st & _ & _ & _ & ->)]%update_stage_cases; [apply only_stages_refl|by eexists|done].
Qed.

Lemma insert_stages_frame s j names d u d' :
  insert_stages s j names d = Ok (u, d') -> frame s d d' /\ only_stages d d'.
Proof.
  revert d. induction names as [|n names IH]; intros d; cbn.
  - intros [= _ <-]. split; [apply frame_refl|apply only_stages_refl].
  - case_bool_decide as Hn; [|done]. destruct (keys_exist s d j); [|done]. intros [Hf Ho]%IH.
    split; [|eapply only_stages_trans; [by eexists|exact Ho]].
    eapply frame_stages_trans; [|by eexists|exact Hf|exact Ho]. apply frame_set_stage; [done|by left].
Qed.

Lemma reset_stages_frame s j names d u d' :
  reset_stages s j names d = Ok (u, d') -> frame s d d' /\ only_stages d d'.
Proof.
  revert d. induction names as [|n names IH]; intros d; cbn.
  - intros [= _ <-]. split; [apply frame_refl|apply only_stages_refl].
  - destruct (update_stage s d j n reset) as [[u1 d1]|] eqn:Hu; [|done]. intros [Hf Ho]%IH.
    pose proof (fun H => update_stage_frame _ _ _ _ _ _ _ H Hu) as Hf1.
    pose proof (fun H => update_stage_only _ _ _ _ _ _ _ H Hu) as Ho1.
    specialize (Hf1 (fun _ => eq_refl)). specialize (Ho1 (fun _ => eq_refl)).
    split; [by eapply frame_stages_trans|by eapply only_stages_trans].
Qed.

Lemma insert_votes_frame s j pairs d u d' : insert_votes s j pairs d = Ok (u, d') -> frame s d d'.
Proof.
  assert (forall d0, (exists vs, d = set_votes d0 vs) -> frame s d0 d -> insert_votes s j pairs d = Ok (u, d') -> frame s d0 d') as Hx.
  { revert d. induction pairs as [|p pairs IH]; intros d d0 [vs ->] Hf; cbn; [by intros [= _ <-]|].
    destruct (_ || _); [done|]. destruct (vs !! _) eqn:Hv; intros Hi; (eapply IH; [| |exact Hi]); [by eexists|exact Hf|by eexists|].
    destruct Hf as [_ _ _ _ Hvs]. split; cbn; auto. intros k.
    destruct (decide (k = (j, vp_SourceID p, vp_TargetID p, vp_Analyzer p))) as [->|Hne].
      + right. destruct (Hvs (j, vp_SourceID p, vp_TargetID p, vp_Analyzer p)) as [He|[? _]]; cbn in *.
        * split; [congruence|]. eexists. by rewrite lookup_insert_eq.
        * split; [done|]. eexists. by rewrite lookup_insert_eq.
      + rewrite lookup_insert_ne by done. apply Hvs. }
  apply Hx; [exists (vote_summaries d); by destruct d|apply frame_refl].
Qed.

(** What holds of a transaction's body holds of the method. *)
Lemma transaction_ind {A} (R : db -> Prop) ctx t d (body : session -> result store_error (A * db)) :
  R d -> (forall a d', body (mkSession t (UserFromContext ctx)) = Ok (a, d') -> R d') -> R (transaction ctx t d body).2.
Proof.
  intros Hd Hb. unfold transaction, enter. destruct (FromContext ctx) as [t0|]; [|done].
  destruct (_ || _); [done|]. destruct (body _) as [[a d']|] eqn:E; [by eapply Hb|done].
Qed.

Lemma job_method_ind {A} (R : db -> Prop) ctx j d (body : session -> result store_error (A * db)) :
  R d -> (forall t a d', FromContext ctx = Ok t -> body (mkSession t (UserFromContext ctx)) = Ok (a, d') -> R d') ->
  R (job_method ctx j d body).2.
Proof.
  intros Hd Hb. unfold job_method. case_bool_decide; [done|]. destruct (FromContext ctx) as [t|] eqn:Hc; [|done].
  apply transaction_ind; [done|]. intros a d'. by apply Hb.
Qed.

Lemma create_frame s d k new :
  jobs d !! k = None -> TenantID new = se_tenant s -> frame s d (set_jobs d (<[k := new]> (jobs d))).
Proof.
  intros Hk Ht. split; cbn; auto. intros k'. destruct (decide (k = k')) as [<-|Hne].
  - right. split; [by left|]. exists new. by rewrite lookup_insert_eq.
  - left. by rewrite lookup_insert_ne.
Qed.

Lemma update_job_frame s d k old new :
  jobs d !! k = Some old -> visible s old = true -> Status old <> JobStatusCompleted -> TenantID new = se_tenant s ->
  frame s d (set_jobs d (<[k := new]> (jobs d))).
Proof.
  intros Hk Hv Hs Ht. split; cbn; auto. intros k'. destruct (decide (k = k')) as [<-|Hne].
  - right. split; [right; by exists old|]. exists new. by rewrite lookup_insert_eq.
  - left. by rewrite lookup_insert_ne.
Qed.

Lemma complete_frame s d j n data f u d' :
  (forall st, st_TenantID (f st) = st_TenantID st) ->
  update_stage s (set_results d (<[(se_tenant s, j, n) := data]> (analysis_results d))) j n f = Ok (u, d') -> frame s d d'.
Proof.
  intros Hf Hu.
  pose proof (update_stage_frame _ _ _ _ _ _ _ Hf Hu) as [Ht Hj Hs _ Hv].
  pose proof (update_stage_only _ _ _ _ _ _ _ Hf Hu) as [ss ->]. split; cbn in *; auto.
  intros t j' a. destruct (decide ((se_tenant s, j, n) = (t, j', a))) as [[= <- <- <-]|Hne];
    [|left; by rewrite lookup_insert_ne].
  right. split; [done|]. intros st Hst Htn. unfold update_stage in Hu. cbn in Hu.
  rewrite Hst, (bool_decide_eq_true_2 _ Htn) in Hu. cbn in Hu. rewrite (parent_completed_jobs _ d) in Hu by done.
  by destruct (parent_completed s d j).
Qed.

(** An operation leaves the tables alone or writes what its session may. *)
Lemma op_frame `{Postgres} d op : apply_op d op = d \/ exists s, op_session op = Some s /\ frame s d (apply_op d op).
Proof.
  destruct op as [ctx job|now ctx j st e|ctx j names|now ctx j n st|now ctx j n e|ctx j from all|now ctx j n data a|ctx t j pairs]; cbn.
  - unfold CreateJob. destruct (ValidateTenantID _); [|by left]. case_bool_decide; [by left|].
    apply transaction_ind; [by left|]. intros r d'. destruct (jsonb _) as [config|]; [|done].
    case_bool_decide as Hn; [|done]. destruct (visible _ _) eqn:Hv; [|done]. case_bool_decide; [|done].
    intros [= _ <-]. right. eexists. split; [done|]. by apply create_frame.
  - unfold UpdateJobStatus. apply job_method_ind; [by left|]. intros t r d' Hc. destruct (jobs d !! j) as [old|] eqn:Hj; [|intros [= _ <-]; by left].
    destruct (visible _ old) eqn:Hv; cbn; [|intros [= _ <-]; by left]. case_bool_decide; [done|].
    intros [= _ <-]. right. exists (mkSession t (UserFromContext ctx)). rewrite Hc. split; [done|].
    eapply update_job_frame; [done..|]. unfold visible in Hv. apply andb_true_iff in Hv as [Hv _].
    by apply bool_decide_eq_true in Hv.
  - unfold CreateStages. apply job_method_ind; [by left|]. intros t r d' Hc Hi. right. eexists. rewrite Hc. split; [done|].
    by apply insert_stages_frame in Hi as [? _].
  - unfold UpdateStageStatus. apply job_method_ind; [by left|]. intros t r d' Hc Hi. right. eexists. rewrite Hc. split; [done|].
    eapply update_stage_frame; [|exact Hi]; done.
  - unfold UpdateStageError. apply job_method_ind; [by left|]. intros t r d' Hc Hi. right. eexists. rewrite Hc. split; [done|].
    eapply update_stage_frame; [|exact Hi]; done.
  - unfold ResetStagesFrom. case_bool_decide; [by left|]. destruct (FromContext ctx) as [t|] eqn:Hc; [|by left].
    destruct (stages_from _ _) as [names|]; [|by left]. apply transaction_ind; [by left|]. intros r d' Hi.
    right. eexists. split; [done|]. by apply reset_stages_frame in Hi as [? _].
  - unfold CompleteAnalysisStage. apply job_method_ind; [by left|]. intros t u d' Hc. destruct (jsonb data) as [data'|]; [|done].
    destruct (keys_exist _ _ _); [|done]. intros Hi. right. eexists. rewrite Hc. split; [done|].
    eapply complete_frame; [|exact Hi]; done.
  - unfold WriteVoteSummaries. destruct (ValidateTenantID t); [|by left]. case_bool_decide; [by left|].
    apply transaction_ind; [by left|]. intros r d' Hi. right. eexists. split; [done|]. by eapply insert_votes_frame.
Qed.

Definition apply_ops `{Postgres} (d : db) (ops : list db_op) : db := foldl apply_op d ops.

(** A relation every frame of an allowed session extends holds of the tables a
    run of operations leaves. *)
Lemma ops_ind `{Postgres} (R : db -> Prop) (allowed : session -> Prop) d ops :
  (forall s d0 d1, allowed s -> frame s d0 d1 -> R d0 -> R d1) ->
  Forall (fun op => forall s, op_session op = Some s -> allowed s) ops -> R d -> R (apply_ops d ops).
Proof.
  intros Hstep Hops. revert d. induction Hops as [|op ops Hop Hops IH]; intros d Hd; [done|]. apply IH.
  destruct (op_frame d op) as [->|(s & Hs & Hf)]; [done|]. by eapply Hstep; [apply Hop| |].
Qed.

Lemma filter_unchanged `{Countable K} {A} (P : K * A -> Prop) `{!forall x, Decision (P x)} (m m' : gmap K A) :
  (forall k, m' !! k = m !! k \/ (forall x, m !! k = Some x -> ~ P (k, x)) /\ (forall x, m' !! k = Some x -> ~ P (k, x))) ->
  filter P m' = filter P m.
Proof.
  intros Hk. apply map_eq. intros k. apply option_eq. intros x. rewrite !map_lookup_filter_Some.
  destruct (Hk k) as [->|[Ho Hn]]; naive_solver.
Qed.

(** The rows of a tenant. *)
Definition rows_of (t : string) (d : db) :=
  (filter (fun '(_, j) => TenantID j = t) (jobs d), filter (fun '(_, st) => st_TenantID st = t) (job_stages d),
   filter (fun '((t', _, _), _) => t' = t) (analysis_results d), filter (fun '(_, v) => vr_tenant v = t) (vote_summaries d)).

Lemma frame_rows s d d' t : frame s d d' -> se_tenant s <> t -> rows_of t d' = rows_of t d.
Proof.
  intros [_ Hj Hs Hr Hv] Hne. unfold rows_of. f_equal; [f_equal; [f_equal|]|]; apply filter_unchanged; cbn.
  - intros k. destruct (Hj k) as [?|[Hold (new & Hnew & Ht)]]; [by left|right]. split; intros x Hx Hxt; cbn in *; [|congruence].
    destruct Hold as [?|(old & ? & Hvis & _)]; [congruence|]. simplify_eq. unfold visible in Hvis.
    apply andb_true_iff in Hvis as [Hvis%bool_decide_eq_true _]. congruence.
  - intros k. destruct (Hs k) as [?|[Hold (new & Hnew & Ht)]]; [by left|right]. split; intros x Hx Hxt; cbn in *; [|congruence].
    destruct Hold as [?|(old & ? & Ho & _)]; congruence.
  - intros [[t' j] a]. destruct (Hr t' j a) as [?|[-> _]]; [by left|right]. by split.
  - intros k. destruct (Hv k) as [?|[Hold (new & Hnew & Ht)]]; [by left|right]. split; intros x Hx Hxt; cbn in *; congruence.
Qed.

Lemma visible_row t u d j :
  match jobs d !! j with Some r => if visible (mkSession t u) r then Some r else None | None => None end =
  match (rows_of t d).1.1.1 !! j with Some r => if visible (mkSession t u) r then Some r else None | None => None end.
Proof.
  unfold rows_of. cbn. rewrite map_lookup_filter. destruct (jobs d !! j) as [r|]; [|done]. cbn.
  case_guard as Ht; cbn; [done|]. unfold visible. cbn. by rewrite bool_decide_eq_false_2.
Qed.

Lemma result_row t d j n : analysis_results d !! (t, j, n) = (rows_of t d).1.2 !! (t, j, n).
Proof.
  unfold rows_of. cbn. rewrite map_lookup_filter. destruct (analysis_results d !! (t, j, n)) as [r|]; [|done]. cbn.
  by case_guard.
Qed.

(** ** What the reads answer *)

(** Two answers that are the same failure, or are related. *)
Definition alike {A} (R : A -> A -> Prop) (r r' : result store_error A) : Prop :=
  match r, r' with Ok a, Ok a' => R a a' | Err e, Err e' => e = e' | _, _ => False end.

(** The page of the jobs [found], newest first. *)
Definition paged `{Postgres} (f : JobFilter) (found : list Job) : list Job :=
  let rest := drop (Z.to_nat (fl_Offset f)) (order_by (fun a b => CreatedAt b <? CreatedAt a) found) in
  if 0 <? fl_Limit f then take (Z.to_nat (fl_Limit f)) rest else rest.

(** Two pages of the same jobs, with the same total. SQL leaves open how jobs
    created at the same time are ordered. *)
Definition same_page `{Postgres} (f : JobFilter) (x y : list Job * Z) : Prop :=
  x.2 = y.2 /\ exists found found', found ≡ₚ found' /\ x.1 = paged f found /\ y.1 = paged f found'.

Lemma List_filter_fmap {A B} (f : A -> B) (p : B -> bool) l : List.filter p (f <$> l) = f <$> filter (fun x => p (f x) = true) l.
Proof.
  induction l as [|x l IH]; [done|]. rewrite fmap_cons, filter_cons. cbn. destruct (p (f x)); case_decide; try done. cbn. by rewrite IH.
Qed.

(** The values a query finds depend only on the rows it may find. *)
Lemma found_alike `{Countable K} {A} (P : K * A -> Prop) `{!forall x, Decision (P x)} (p : A -> bool) (m m' : gmap K A) :
  (forall k x, p x = true -> P (k, x)) -> filter P m = filter P m' ->
  List.filter p (map_to_list m).*2 ≡ₚ List.filter p (map_to_list m').*2.
Proof.
  intros HP Hm. rewrite !List_filter_fmap. apply fmap_Permutation. apply NoDup_Permutation; [apply NoDup_filter, NoDup_map_to_list..|].
  intros [k x]. rewrite !list_elem_of_filter, !elem_of_map_to_list. cbn.
  assert (p x = true -> m !! k = Some x <-> m' !! k = Some x) as Hk; [|tauto]. intros Hp.
  pose proof (f_equal (fun m => m !! k) Hm) as Hl. cbn in Hl.
  assert (forall n : gmap K A, n !! k = Some x <-> filter P n !! k = Some x) as Hf; [|by rewrite Hf, Hl, <- Hf].
  intros n. rewrite map_lookup_filter_Some. split; [|tauto]. intros Hn. split; [done|by apply HP].
Qed.

Lemma ListJobs_alike `{Postgres} ctx t f d d' :
  rows_of t d' = rows_of t d -> tenants d' = tenants d -> alike (same_page f) (ListJobs ctx t f d').1 (ListJobs ctx t f d).1.
Proof.
  intros [= Hj _ _ _] Ht. unfold ListJobs, transaction, enter, deleted. destruct (ValidateTenantID t); [|done].
  destruct (FromContext ctx); [|done]. rewrite Ht. destruct (_ || _); [done|]. cbn.
  set (p := fun j => visible _ j && _).
  assert (List.filter p (map_to_list (jobs d')).*2 ≡ₚ List.filter p (map_to_list (jobs d)).*2) as Hfound.
  { apply (found_alike (fun '(_, j) => TenantID j = t)); [|exact Hj]. intros k x. unfold p.
    by intros [[Hv%bool_decide_eq_true _]%andb_true_iff _]%andb_true_iff. }
  split; cbn; [by rewrite Hfound|]. eexists _, _. split; [exact Hfound|done].
Qed.

Lemma JobsCreatedBy_alike `{Postgres} ctx t ids user d d' :
  FromContext ctx = Ok t -> rows_of t d' = rows_of t d -> tenants d' = tenants d ->
  alike (≡ₚ) (JobsCreatedBy ctx ids user d').1 (JobsCreatedBy ctx ids user d).1.
Proof.
  intros Hc [= Hj _ _ _] Ht. unfold JobsCreatedBy, transaction, enter, deleted. destruct (_ || _); [exact (Permutation_refl _)|].
  rewrite Hc, Ht. destruct (_ || _); [done|]. cbn. rewrite !order_by_perm. apply fmap_Permutation.
  apply (found_alike (fun '(_, j) => TenantID j = t)); [|exact Hj].
  by intros k x [[[Hv%bool_decide_eq_true _]%andb_true_iff _]%andb_true_iff _]%andb_true_iff.
Qed.

Lemma GetStages_alike `{Postgres} ctx t j d d' :
  FromContext ctx = Ok t -> rows_of t d' = rows_of t d -> tenants d' = tenants d ->
  alike (≡ₚ) (GetStages ctx j d').1 (GetStages ctx j d).1.
Proof.
  intros Hc [= _ Hs _ _] Ht. unfold GetStages, job_method, transaction, enter, deleted. case_bool_decide; [done|].
  rewrite Hc, Ht. destruct (_ || _); [done|]. cbn. rewrite !order_by_perm.
  apply (found_alike (fun '(_, st) => st_TenantID st = t)); [|exact Hs]. by intros k x [_ ?]%bool_decide_eq_true.
Qed.

(** C23. Whatever the transactions of other tenants do, in whatever order, a
    tenant's jobs, stages, results and vote summaries stay exactly as they
    were, no row becomes the tenant's, and every read of the store under the
    tenant answers the same: GetJob and GetCompletedAnalysisResults exactly,
    GetStages and JobsCreatedBy the same rows, and ListJobs the same total and
    a page of the same jobs in the same order, up to the order of ties, which
    SQL leaves open. *)
Theorem store_isolates_tenants `{Postgres} d ops t :
  Forall (fun op => forall s, op_session op = Some s -> se_tenant s <> t) ops ->
  let d' := apply_ops d ops in
  rows_of t d' = rows_of t d /\
  (forall ctx f, alike (same_page f) (ListJobs ctx t f d').1 (ListJobs ctx t f d).1) /\
  forall ctx, FromContext ctx = Ok t ->
    (forall j, (GetJob ctx j d').1 = (GetJob ctx j d).1) /\
    (forall j names, (GetCompletedAnalysisResults ctx j names d').1 = (GetCompletedAnalysisResults ctx j names d).1) /\
    (forall j, alike (≡ₚ) (GetStages ctx j d').1 (GetStages ctx j d).1) /\
    forall ids user, alike (≡ₚ) (JobsCreatedBy ctx ids user d').1 (JobsCreatedBy ctx ids user d).1.
Proof.
  intros Hops d'. assert (rows_of t d' = rows_of t d /\ tenants d' = tenants d) as [Hrows Ht].
  { apply (ops_ind (fun x => rows_of t x = rows_of t d /\ tenants x = tenants d) (fun s => se_tenant s <> t)); [|done..].
    intros s d0 d1 Hs Hf [<- <-]. split; [by eapply frame_rows|apply Hf]. }
  split; [done|]. split; [intros; by apply ListJobs_alike|]. intros ctx Hc. split_and!.
  - intros j. unfold GetJob, job_method, transaction, enter, deleted. rewrite Hc, Ht. repeat case_bool_decide; cbn; try done.
    pose proof (visible_row t (UserFromContext ctx) d' j) as Hv. rewrite Hrows, <- visible_row in Hv.
    destruct (jobs d' !! j) as [r|], (jobs d !! j) as [r'|]; repeat case_match; by simplify_eq.
  - intros j names. unfold GetCompletedAnalysisResults, job_method, transaction, enter, deleted. rewrite Hc, Ht.
    repeat case_bool_decide; cbn; try done. f_equal. f_equal. apply list_omap_ext, Forall_Forall2_diag, Forall_true.
    intros n. by rewrite !result_row, Hrows.
  - intros j. by eapply GetStages_alike.
  - intros ids user. by eapply JobsCreatedBy_alike.
Qed.

(** C22. A completed job is final. No later transaction changes its row; and if
    every user of its tenant that runs one may see the job, its stages and the
    results of its analyzers stay as they were too. *)
Theorem completed_jobs_frozen `{Postgres} d ops j job :
  jobs d !! j = Some job -> Status job = JobStatusCompleted ->
  jobs (apply_ops d ops) !! j = Some job /\
  (Forall (fun op => forall s, op_session op = Some s -> se_tenant s = TenantID job -> visible s job = true) ops ->
   forall n st, job_stages d !! (j, n) = Some st -> st_TenantID st = TenantID job ->
     job_stages (apply_ops d ops) !! (j, n) = Some st /\
     analysis_results (apply_ops d ops) !! (TenantID job, j, n) = analysis_results d !! (TenantID job, j, n)).
Proof.
  intros Hj Hs.
  assert (forall s d0 d1, frame s d0 d1 -> jobs d0 !! j = Some job -> jobs d1 !! j = Some job) as Hjob.
  { intros s d0 d1 Hf Hj0. destruct (fr_jobs _ _ _ Hf j) as [->|[Hold _]]; [done|].
    destruct Hold as [?|(old & ? & _ & ?)]; congruence. }
  split.
  { apply (ops_ind (fun d => jobs d !! j = Some job) (fun _ => True)); [eauto|by apply Forall_true|done]. }
  intros Hops n st Hst Ht.
  set (R := fun d' => jobs d' !! j = Some job /\ job_stages d' !! (j, n) = Some st /\
    analysis_results d' !! (TenantID job, j, n) = analysis_results d !! (TenantID job, j, n)).
  enough (R (apply_ops d ops)) as (_ & ? & ?) by done.
  apply (ops_ind R (fun s => se_tenant s = TenantID job -> visible s job = true)); [|done..].
  intros s d0 d1 Hvis Hf (Hj0 & Hs0 & Hr0).
  assert (se_tenant s = TenantID job -> parent_completed s d0 j = true) as Hp.
  { intros He. unfold parent_completed. by rewrite Hj0, Hvis, Hs by done. }
  split; [by eapply Hjob|split].
  - destruct (fr_stages _ _ _ Hf (j, n)) as [->|[Hold _]]; [done|]. cbn in Hold.
    destruct Hold as [?|(old & ? & ? & ?)]; [congruence|]. assert (old = st) as -> by congruence.
    rewrite Hp in * by congruence. done.
  - destruct (fr_results _ _ _ Hf (TenantID job) j n) as [->|[He Hc]]; [done|].
    specialize (Hc st Hs0). rewrite Hp in Hc by done. exfalso. assert (true = false) by (apply Hc; congruence). done.
Qed.

(** ** Completed analyzer stages have results *)

Definition results_stored (d : db) : Prop :=
  forall j n st, job_stages d !! (j, n) = Some st -> IsAnalyzerStage n = true -> st_Status st = StageStatusCompleted ->
    is_Some (analysis_results d !! (st_TenantID st, j, n)).

Lemma results_stored_stage d j n st :
  results_stored d ->
  (IsAnalyzerStage n = true -> st_Status st = StageStatusCompleted -> is_Some (analysis_results d !! (st_TenantID st, j, n))) ->
  results_stored (set_stages d (<[(j, n) := st]> (job_stages d))).
Proof.
  intros Hd Hst j' n' st'. cbn. destruct (decide ((j, n) = (j', n'))) as [[= <- <-]|Hne].
  - rewrite lookup_insert_eq. intros [= <-]. done.
  - rewrite lookup_insert_ne by done. apply Hd.
Qed.

Lemma results_stored_update s d j n f u d' :
  (forall st, st_TenantID (f st) = st_TenantID st) -> results_stored d ->
  (IsAnalyzerStage n = true -> forall st, st_Status (f st) = StageStatusCompleted -> is_Some (analysis_results d !! (se_tenant s, j, n))) ->
  update_stage s d j n f = Ok (u, d') -> results_stored d'.
Proof.
  intros Hf Hd Hn [->|(st & Hst & Ht & Hp & ->)]%update_stage_cases; [done| |done].
  apply results_stored_stage; [done|]. intros Ha Hc. rewrite Hf, Ht. by eapply Hn.
Qed.

Lemma results_stored_other d d' :
  job_stages d' = job_stages d -> (forall k, is_Some (analysis_results d !! k) -> is_Some (analysis_results d' !! k)) ->
  results_stored d -> results_stored d'.
Proof. intros Hs Hr Hd j n st. rewrite Hs. intros. by eapply Hr, Hd. Qed.

Lemma insert_stages_results s j names d u d' :
  results_stored d -> insert_stages s j names d = Ok (u, d') -> results_stored d'.
Proof.
  revert d. induction names as [|n names IH]; intros d Hd; cbn; [by intros [= _ <-]|].
  destruct (_ && keys_exist _ _ _); [|done]. apply IH. by apply results_stored_stage.
Qed.

Lemma reset_stages_results s j names d u d' :
  results_stored d -> reset_stages s j names d = Ok (u, d') -> results_stored d'.
Proof.
  revert d. induction names as [|n names IH]; intros d Hd; cbn; [by intros [= _ <-]|].
  destruct (update_stage s d j n reset) as [[u1 d1]|] eqn:Hu; [|done]. apply IH.
  eapply results_stored_update; [..|exact Hu]; done.
Qed.

Lemma insert_votes_same s j pairs d u d' :
  insert_votes s j pairs d = Ok (u, d') -> job_stages d' = job_stages d /\ analysis_results d' = analysis_results d.
Proof.
  revert d. induction pairs as [|p pairs IH]; intros d; cbn; [by intros [= _ <-]|].
  destruct (_ || negb _); [done|]. destruct (vote_summaries d !! _); [apply IH|]. intros [-> ->]%IH. done.
Qed.

(** The one status write that could break it: the stage of an analyzer is
    completed by [CompleteAnalysisStage]. *)
Definition completes_by_result (op : db_op) : Prop :=
  match op with
  | OpStageStatus _ _ _ n st => IsAnalyzerStage n = true -> st <> StageStatusCompleted
  | _ => True
  end.

Lemma op_results_stored `{Postgres} d op : completes_by_result op -> results_stored d -> results_stored (apply_op d op).
Proof.
  intros Hop Hd.
  destruct op as [ctx job|now ctx j st e|ctx j names|now ctx j n st|now ctx j n e|ctx j from all|now ctx j n data a|ctx t j pairs];
    cbn in *.
  - unfold CreateJob. destruct (ValidateTenantID _); [|done]. case_bool_decide; [done|]. apply transaction_ind; [done|]. intros r d'.
    repeat case_match; intros [= _ <-]; done.
  - unfold UpdateJobStatus. apply job_method_ind; [done|]. intros t r d' _. repeat case_match; intros [= _ <-]; done.
  - unfold CreateStages. apply job_method_ind; [done|]. intros t r d' _. by apply insert_stages_results.
  - unfold UpdateStageStatus. apply job_method_ind; [done|]. intros t r d' _.
    apply results_stored_update; [done..|]. intros Ha st0 Hs. by destruct (Hop Ha).
  - unfold UpdateStageError. apply job_method_ind; [done|]. intros t r d' _. by apply results_stored_update.
  - unfold ResetStagesFrom. case_bool_decide; [done|]. destruct (FromContext ctx); [|done].
    destruct (stages_from _ _); [|done]. apply transaction_ind; [done|]. intros r d'.
    by apply reset_stages_results.
  - unfold CompleteAnalysisStage. apply job_method_ind; [done|]. intros t r d' _. destruct (jsonb data) as [data'|]; [|done].
    destruct (keys_exist _ _ _); [|done]. apply results_stored_update; [done|..].
    + apply (results_stored_other d); [done| |done]. intros k Hk. cbn. by apply lookup_insert_is_Some'; right.
    + intros _ _ _. cbn. rewrite lookup_insert_eq. by eexists.
  - unfold WriteVoteSummaries. destruct (ValidateTenantID _); [|done]. case_bool_decide; [done|]. apply transaction_ind; [done|]. intros r d'.
    intros [Hs Hr]%insert_votes_same. apply (results_stored_other d); [done| |done]. by rewrite Hr.
Qed.

(** An analyzer stage recorded as completed has its result stored, for the
    stage's tenant, whatever order the transactions come in: statuses,
    failures, resets and completions of any jobs. The status of an analyzer
    stage is written by [CompleteAnalysisStage] alone. *)
Theorem completed_stage_has_result `{Postgres} d ops :
  results_stored d -> Forall completes_by_result ops -> results_stored (apply_ops d ops).
Proof.
  intros Hd Hops. revert d Hd. induction Hops as [|op ops Hop Hops IH]; intros d Hd; [done|]. by apply IH, op_results_stored.
Qed.

Lemma reset_list s j names d u d' :
  reset_stages s j names d = Ok (u, d') -> NoDup names -> parent_completed s d j = false ->
  forall n st, job_stages d !! (j, n) = Some st -> st_TenantID st = se_tenant s ->
    job_stages d' !! (j, n) = Some (if bool_decide (n ∈ names) then reset st else st).
Proof.
  revert d. induction names as [|m names IH]; intros d; cbn.
  { intros [= _ <-] _ _ n st Hst _. by rewrite bool_decide_eq_false_2 by set_solver. }
  destruct (update_stage s d j m reset) as [[u1 d1]|] eqn:Hu; [|done]. intros Hr [Hm Hnd]%NoDup_cons Hp n st Hst Ht.
  assert (parent_completed s d1 j = false) as Hp1.
  { pose proof (fun H => update_stage_only _ _ _ _ _ _ _ H Hu) as Ho. specialize (Ho (fun _ => eq_refl)).
    rewrite (parent_completed_jobs _ d); [done|]. by destruct Ho as [ss ->]. }
  pose proof (IH _ Hr Hnd Hp1 n) as Hn. unfold update_stage in Hu. destruct (decide (m = n)) as [->|Hne].
  - rewrite Hst, (bool_decide_eq_true_2 _ Ht), Hp in Hu. cbn in Hu. injection Hu as _ <-. cbn in Hn.
    rewrite (Hn (reset st)) by (rewrite ?lookup_insert_eq; done). rewrite bool_decide_eq_false_2, bool_decide_eq_true_2 by set_solver. done.
  - rewrite Hp in Hu. rewrite (Hn st); [|destruct (job_stages d !! (j, m)) as [st'|]; [destruct (negb _)|];
      injection Hu as _ <-; cbn; by rewrite ?lookup_insert_ne by congruence|done].
    by rewrite (bool_decide_ext (n ∈ m :: names) (n ∈ names)) by set_solver.
Qed.

Lemma reset_stages_ok s j names d : parent_completed s d j = false -> exists d', reset_stages s j names d = Ok (tt, d').
Proof.
  revert d. induction names as [|n names IH]; intros d Hp; cbn; [by eexists|]. unfold update_stage.
  destruct (job_stages d !! (j, n)) as [st|]; [|by apply IH]. destruct (negb _); [by apply IH|]. rewrite Hp. by apply IH.
Qed.

Lemma stages_from_split from earlier later :
  from ∉ earlier -> stages_from from (earlier ++ from :: later) = Some (from :: later).
Proof.
  induction earlier as [|n earlier IH]; cbn; intros Hn.
  - by rewrite bool_decide_eq_true_2.
  - rewrite bool_decide_eq_false_2 by set_solver. apply IH. set_solver.
Qed.

(** Resetting a job from a stage sends that stage and every later one back
    to pending, one attempt more, with no times, error or cache attempt, and
    leaves the earlier ones, completed or not, exactly as they were: "later"
    and "earlier" in the list of stages passed. It succeeds whenever the job
    is not completed. *)
Theorem reset_resumes_at_stage ctx t jobID from earlier later d :
  FromContext ctx = Ok t -> deleted d t = false -> jobID <> "" -> NoDup (earlier ++ from :: later) ->
  parent_completed (mkSession t (UserFromContext ctx)) d jobID = false ->
  exists d', ResetStagesFrom ctx jobID from (earlier ++ from :: later) d = (Ok tt, d') /\
    forall n st, job_stages d !! (jobID, n) = Some st -> st_TenantID st = t ->
      job_stages d' !! (jobID, n) = Some (if bool_decide (n ∈ from :: later) then reset st else st).
Proof.
  intros Hc Hdel Hid Hnd Hp. unfold ResetStagesFrom, transaction, enter. rewrite bool_decide_eq_false_2 by done.
  rewrite Hc, Hdel. assert (from ∉ earlier) as Hfrom. { apply NoDup_app in Hnd as (_ & Hn & _). intros He. apply (Hn _ He). set_solver. }
  rewrite stages_from_split by done. cbn [orb]. apply NoDup_app in Hnd as (_ & _ & Hnd).
  destruct (reset_stages_ok (mkSession t (UserFromContext ctx)) jobID (from :: later) d Hp) as [d' Hd]. rewrite Hd.
  exists d'. split; [done|]. intros n st Hst Ht. by eapply (reset_list (mkSession t (UserFromContext ctx))).
Qed.

(** * A store for examples *)

Definition plain_postgres : Postgres := {|
  jsonb := Some;
  order_by := fun _ _ l => l;
  order_by_perm := fun _ _ l => Permutation_refl l;
  collate := fun a b => match String.compare a b with Lt => true | _ => false end;
|}.

Definition example_ctx (tenantID : string) : context := mkContext (Some tenantID) None.

Definition example_job (tenantID jobID : string) (status : JobStatus) : Job :=
  mkJob jobID tenantID status "{}" tenantID 1 1 "" "".

(** A tenant with a job that ran, a second tenant, and a transaction of each
    kind by one of them. *)
Definition example_db : db := {|
  tenants := {[ "acme" := "active"; "globex" := "active" ]};
  jobs := {[ "j1" := example_job "acme" "j1" JobStatusCompleted; "j2" := example_job "acme" "j2" JobStatusRunning ]};
  job_stages := {[ ("j1", "classify") := mkStage "j1" "classify" StageStatusCompleted None None 0 "" "acme" "";
                   ("j2", "classify") := mkStage "j2" "classify" StageStatusCompleted None None 0 "" "acme" "";
                   ("j2", "synthesis") := mkStage "j2" "synthesis" StageStatusFailed None None 0 "" "acme" "" ]};
  analysis_results := {[ ("acme", "j1", "classify") := "{}"; ("acme", "j2", "classify") := "{}" ]};
  vote_summaries := ∅;
|}.

Definition example_ops (tenantID jobID : string) : list db_op :=
  let ctx := example_ctx tenantID in
  [OpCreateJob ctx (example_job tenantID jobID JobStatusRunning); OpCreateStages ctx jobID ["classify"];
   OpJobStatus 5 ctx jobID JobStatusFailed None; OpStageStatus 5 ctx jobID "classify" StageStatusRunning;
   OpStageError 5 ctx jobID "classify" None; OpReset ctx jobID "classify" ["classify"];
   OpComplete 5 ctx jobID "classify" "{}" "a"; OpVotes ctx tenantID jobID [mkPair "s" "t" "classify" "equal" fzero]].

Lemma store_isolates_tenants_witness :
  let d' := @apply_ops plain_postgres example_db (example_ops "globex" "j2" ++ example_ops "globex" "j3") in
  rows_of "acme" d' = rows_of "acme" example_db /\
  (@apply_ops plain_postgres example_db (example_ops "globex" "j3") : db) <> example_db.
Proof.
  split.
  - apply (@store_isolates_tenants plain_postgres). repeat constructor; by intros s [= <-].
  - intros He. apply (f_equal (fun d => jobs d !! "j3")) in He. vm_compute in He. discriminate.
Defined.

Lemma completed_jobs_frozen_witness :
  let d' := @apply_ops plain_postgres example_db (example_ops "acme" "j1") in
  jobs d' !! "j1" = Some (example_job "acme" "j1" JobStatusCompleted) /\
  job_stages d' !! ("j1", "classify") = job_stages example_db !! ("j1", "classify").
Proof.
  destruct (@completed_jobs_frozen plain_postgres example_db (example_ops "acme" "j1") "j1"
    (example_job "acme" "j1" JobStatusCompleted) eq_refl eq_refl) as [Hj Hs].
  split; [exact Hj|]. refine (proj1 (Hs _ "classify" _ eq_refl eq_refl)).
  repeat constructor; by intros s [= <-].
Defined.

Lemma completed_stage_has_result_witness :
  results_stored (@apply_ops plain_postgres example_db (example_ops "acme" "j2" ++ example_ops "globex" "j3")).
Proof.
  apply (@completed_stage_has_result plain_postgres).
  - intros j n st Hst. unfold example_db in *. cbn in *.
    repeat (apply lookup_insert_Some in Hst as [[[= <- <-] <-]|[_ Hst]]; [vm_compute; eauto|]).
    by apply lookup_singleton_Some in Hst as [[= <- <-] <-].
  - repeat constructor; done.
Defined.

Lemma reset_resumes_at_stage_witness :
  exists d', ResetStagesFrom (example_ctx "acme") "j2" "synthesis" ["classify"; "synthesis"; "graph"] example_db = (Ok tt, d') /\
    st_Status <$> job_stages d' !! ("j2", "classify") = Some StageStatusCompleted /\
    (fun st => (st_Status st, RetryCount st)) <$> job_stages d' !! ("j2", "synthesis") = Some (StageStatusPending, 1).
Proof.
  destruct (reset_resumes_at_stage (example_ctx "acme") "acme" "j2" "synthesis" ["classify"] ["graph"] example_db)
    as (d' & Hd & Hs); try done.
  - by apply (bool_decide_unpack _).
  - exists d'. split; [exact Hd|]. split; [rewrite (Hs "classify" _ eq_refl eq_refl)|rewrite (Hs "synthesis" _ eq_refl eq_refl)];
      reflexivity.
Defined.
