(* ===== verification/Attest.v ===== *)
(** Attestation of a run: [pkg/attestation/generator.go], [convert.go] and
    [manifest.go], and the layout of a DAG
    ([internal/pipeline/attestation/converter.go]).

    A layout names the steps of a run with the artifacts each consumes and
    produces; a link is one step's signed record of them. [VerifyChain] checks
    a layout and one link per step against each other. Signing, the in-toto
    and DSSE envelopes and their parsers are a library's: [InToto]. The order
    in which a map of artifacts is read back is the runtime's. *)

From S2P Require Import Prelude Float64 Gostrings Sha256 Json Jsonread Errors Dag.
Local Open Scope Z_scope.

(** * Definitions *)

(** ** Types *)

Record Artifact := mkArtifact { URI : string; Digest : string }.
#[export] Instance Artifact_eq_dec : EqDecision Artifact.
Proof. solve_decision. Defined.

Record Step := mkStep {
  Step_Name : string;
  ExpectedMaterials : list string;
  ExpectedProducts : list string;
  Command : list string;
  Threshold : Z;
}.
Record Inspection := mkInspection { Inspection_Name : string; Run : list string; Passes : list string }.

Record LayoutOptions := mkOptions { Steps : list Step; Inspections : list Inspection; ExpiresIn : Z }.
Record SignedLayout := mkLayout { ly_Raw : string; Expires : Z }.
Record SignedLink := mkLink {
  Raw : string;
  ln_Step : string;
  TraceID : string;
  Materials : list Artifact;
  Products : list Artifact;
}.
Record VerifiedLayout := mkVerifiedLayout {
  vy_Steps : list Step;
  vy_Inspections : list Inspection;
  vy_Expires : Z;
  KeyIDs : list string;
}.
Record VerifiedLink := mkVerifiedLink {
  vl_Step : string;
  vl_Materials : list Artifact;
  vl_Products : list Artifact;
  vl_ByProducts : gmap string string;
}.
Record VerifiedChain := mkChain { ch_Layout : VerifiedLayout; ch_Subject : Artifact }.

Definition ErrInvalidLayout : sentinel := "attestation.ErrInvalidLayout".
Definition ErrSignatureFailed : sentinel := "attestation.ErrSignatureFailed".
Definition ErrVerificationFailed : sentinel := "attestation.ErrVerificationFailed".
Definition ErrUntrustedKey : sentinel := "attestation.ErrUntrustedKey".
Definition ErrExpired : sentinel := "attestation.ErrExpired".
Definition ErrChainBroken : sentinel := "attestation.ErrChainBroken".
Definition ErrMissingLink : sentinel := "attestation.ErrMissingLink".
Definition ErrUnexpectedLink : sentinel := "attestation.ErrUnexpectedLink".
Definition ErrSubjectMismatch : sentinel := "attestation.ErrSubjectMismatch".
Definition ErrInvalidBundle : sentinel := "attestation.ErrInvalidBundle".

(** ** The library's forms *)

(** A [HashObj] by algorithm; artifacts by URI. *)
Notation HashObj := (gmap string string).

Record in_toto_link := mkInTotoLink {
  it_Name : string;
  it_Materials : gmap string HashObj;
  it_Products : gmap string HashObj;
  it_ByProducts : gmap string string;
}.

(** An expectation is a rule: a list of words. *)
Record in_toto_step := mkInTotoStep {
  is_Name : string;
  is_Materials : list (list string);
  is_Products : list (list string);
  is_Command : list string;
  is_Threshold : Z;
}.
Record in_toto_inspection := mkInTotoInspection { ii_Name : string; ii_Run : list string }.
Record in_toto_layout := mkInTotoLayout {
  il_Steps : list in_toto_step;
  il_Inspect : list in_toto_inspection;
  il_Expires : string;
}.

(** The library and the keys. [trusted] is the key provider's verification
    key ID; [parse_date] is [time.Parse] with the library's schema. *)
Class InToto := {
  trusted : result error string;
  sign_link : in_toto_link -> result error string;
  sign_layout : in_toto_layout -> result error string;
  format_date : Z -> string;
  parse_date : string -> option Z;
  envelope : Type;
  load_envelope : string -> option envelope;
  signature_ok : envelope -> bool;
  signature_keys : envelope -> list string;
  link_payload : envelope -> option in_toto_link;
  dsse : Type;
  parse_dsse : string -> option dsse;
  dsse_signers : dsse -> option (list string);
  dsse_payload : dsse -> option string;
  read_layout : string -> option in_toto_layout;
}.

(** [fixCanonicalJSONNewlines]: escape the newlines inside strings. *)
Fixpoint fix_newlines (inString escaped : bool) (l : list ascii) : list ascii :=
  match l with
  | [] => []
  | b :: rest =>
      if escaped then b :: fix_newlines inString false rest
      else if Ascii.eqb b "092" && inString then b :: fix_newlines inString true rest
      else if Ascii.eqb b "034" then b :: fix_newlines (negb inString) false rest
      else if Ascii.eqb b "010" && inString then "092"%char :: "n"%char :: fix_newlines inString false rest
      else b :: fix_newlines inString false rest
  end.

Definition fixCanonicalJSONNewlines (data : string) : string :=
  String.string_of_list_ascii (fix_newlines false false (String.list_ascii_of_string data)).

Definition artifactsToHashObj (artifacts : list Artifact) : gmap string HashObj :=
  foldl (fun m a => <[URI a := {["sha256" := Digest a]}]> m) ∅ artifacts.

Definition stepToInToto (s : Step) : in_toto_step :=
  mkInTotoStep (Step_Name s)
    ((fun m => ["MATCH"; m; "WITH"; "PRODUCTS"; "FROM"; Step_Name s]) <$> ExpectedMaterials s)
    ((fun p => ["MATCH"; p; "WITH"; "MATERIALS"; "FROM"; Step_Name s]) <$> ExpectedProducts s)
    (Command s)
    (if Threshold s <? 1 then 1 else Threshold s).
Definition stepsToInToto (steps : list Step) : list in_toto_step := stepToInToto <$> steps.

Definition inspectionsToInToto (inspections : list Inspection) : list in_toto_inspection :=
  (fun i => mkInTotoInspection (Inspection_Name i) (Run i)) <$> inspections.
Definition inTotoInspectionsToInspections (inspections : list in_toto_inspection) : list Inspection :=
  (fun i => mkInspection (ii_Name i) (ii_Run i) []) <$> inspections.

(** The name a rule matches, its second word. *)
Definition rule_name (rule : list string) : option string := rule !! 1%nat.

Definition inTotoStepToStep (s : in_toto_step) : Step :=
  mkStep (is_Name s) (omap rule_name (is_Materials s)) (omap rule_name (is_Products s)) (is_Command s) (is_Threshold s).
Definition inTotoStepsToSteps (steps : list in_toto_step) : list Step := inTotoStepToStep <$> steps.

(** The step that produced an artifact, and its digest. *)
Notation producer := (string * string)%type.

Section generator.
Context `{R : GoRuntime} `{InToto}.

Definition hash_digest (hashes : HashObj) : string :=
  let digest := default "" (hashes !! "sha256") in
  if bool_decide (digest = "") then default "" (head (map_range 1 hashes).*2) else digest.

Definition hashObjToArtifacts (hashObjs : gmap string HashObj) : list Artifact :=
  (fun '(uri, hashes) => mkArtifact uri (hash_digest hashes)) <$> map_range 0 hashObjs.

(** ** Signing *)

Definition CreateLayout (now : Z) (opts : LayoutOptions) : result error SignedLayout :=
  if bool_decide (Steps opts = []) then Err [ErrInvalidLayout]
  else
    let expires := now + ExpiresIn opts in
    match sign_layout (mkInTotoLayout (stepsToInToto (Steps opts)) (inspectionsToInToto (Inspections opts)) (format_date expires)) with
    | Err e => Err e
    | Ok raw => Ok (mkLayout raw expires)
    end.

(** The caller's byproducts join the link's own; the trace is the link's. *)
Definition link_byproducts (own extra : gmap string string) : gmap string string :=
  filter (fun '(k, _) => k <> "trace_id" /\ k <> "span_id") extra ∪ own.

(** [own] is the trace and, when configured, the host the link is signed on. *)
Definition CreateLink (own : gmap string string) (step : string) (materials products : list Artifact) (extra : gmap string string)
  : result error SignedLink :=
  match sign_link (mkInTotoLink step (artifactsToHashObj materials) (artifactsToHashObj products) (link_byproducts own extra)) with
  | Err e => Err e
  | Ok raw => Ok (mkLink raw step (default "" (own !! "trace_id")) materials products)
  end.

(** ** Verification *)

Definition Verify (data : string) : result error VerifiedLink :=
  match trusted with
  | Err e => Err e
  | Ok keyID =>
      match load_envelope data with
      | None => Err [ErrVerificationFailed]
      | Some env =>
          if negb (signature_ok env)
          then Err (if bool_decide (keyID ∈ signature_keys env) then [ErrVerificationFailed]
                    else [ErrUntrustedKey; ErrVerificationFailed])
          else
            match link_payload env with
            | None => Err [ErrVerificationFailed]
            | Some link =>
                Ok (mkVerifiedLink (it_Name link) (hashObjToArtifacts (it_Materials link)) (hashObjToArtifacts (it_Products link))
                  (it_ByProducts link))
            end
      end
  end.

Definition VerifyLayout (now : Z) (data : string) : result error VerifiedLayout :=
  match parse_dsse data with
  | None => Err [ErrVerificationFailed]
  | Some env =>
      match trusted with
      | Err e => Err e
      | Ok _ =>
          match dsse_signers env with
          | None => Err [ErrVerificationFailed]
          | Some keyIDs =>
              match (payload ← dsse_payload env; read_layout (fixCanonicalJSONNewlines payload)) with
              | None => Err [ErrVerificationFailed]
              | Some layout =>
                  match parse_date (il_Expires layout) with
                  | None => Err [ErrVerificationFailed]
                  | Some expires =>
                      if expires <? now then Err [ErrExpired]
                      else Ok (mkVerifiedLayout (inTotoStepsToSteps (il_Steps layout)) (inTotoInspectionsToInspections (il_Inspect layout))
                               expires keyIDs)
                  end
              end
          end
      end
  end.

(** ** Chains *)

Fixpoint artifactDigest (artifacts : list Artifact) (uri : string) : option string :=
  match artifacts with
  | [] => None
  | a :: rest => if bool_decide (URI a = uri) then Some (Digest a) else artifactDigest rest uri
  end.

Definition firstMissing (want : list string) (have : list Artifact) : option string :=
  head (filter (fun uri => uri ∉ URI <$> have) want).

(** The verified links by step. *)
Fixpoint links_by_step (declared : list string) (byStep : gmap string VerifiedLink) (links : list (option SignedLink))
  : result error (gmap string VerifiedLink) :=
  match links with
  | [] => Ok byStep
  | None :: _ => Err [ErrVerificationFailed]
  | Some link :: rest =>
      match Verify (Raw link) with
      | Err e => Err e
      | Ok verified =>
          if bool_decide (vl_Step verified ∉ declared) then Err [ErrUnexpectedLink]
          else if bool_decide (is_Some (byStep !! vl_Step verified)) then Err [ErrUnexpectedLink]
          else links_by_step declared (<[vl_Step verified := verified]> byStep) rest
      end
  end.

Definition add_product (step : string) (producedBy : gmap string producer) (p : Artifact) : gmap string producer :=
  match producedBy !! URI p with
  | Some _ => producedBy
  | None => <[URI p := (step, Digest p)]> producedBy
  end.

Fixpoint products_by_uri (byStep : gmap string VerifiedLink) (producedBy : gmap string producer) (steps : list Step)
  : result error (gmap string producer) :=
  match steps with
  | [] => Ok producedBy
  | s :: rest =>
      match byStep !! Step_Name s with
      | None => Err [ErrMissingLink]
      | Some v => products_by_uri byStep (foldl (add_product (Step_Name s)) producedBy (vl_Products v)) rest
      end
  end.

Definition broken (producedBy : gmap string producer) (step : string) (m : Artifact) : bool :=
  match producedBy !! URI m with
  | Some (by_step, digest) => negb (bool_decide (by_step = step)) && negb (bool_decide (digest = Digest m))
  | None => false
  end.

(** One step; the digest of the subject recorded so far comes back. *)
Definition check_step (producedBy : gmap string producer) (uri recorded : string) (s : Step) (v : VerifiedLink)
  : result error string :=
  if bool_decide (uri ∉ ExpectedMaterials s) then Err [ErrSubjectMismatch]
  else
    match artifactDigest (vl_Materials v) uri with
    | None => Err [ErrSubjectMismatch]
    | Some got =>
        let recorded := if bool_decide (recorded = "") then got else recorded in
        if negb (bool_decide (got = recorded)) then Err [ErrSubjectMismatch]
        else
          match firstMissing (ExpectedMaterials s) (vl_Materials v), firstMissing (ExpectedProducts s) (vl_Products v) with
          | Some _, _ | None, Some _ => Err [ErrChainBroken]
          | None, None =>
              if existsb (broken producedBy (Step_Name s)) (vl_Materials v) then Err [ErrChainBroken] else Ok recorded
          end
    end.

(** Every step has a link here ([products_by_uri] ran); a missing one would be
    a nil pointer. *)
Fixpoint check_steps (byStep : gmap string VerifiedLink) (producedBy : gmap string producer) (uri recorded : string)
    (steps : list Step) : result error string :=
  match steps with
  | [] => Ok recorded
  | s :: rest =>
      match byStep !! Step_Name s with
      | None => Err []
      | Some v =>
          match check_step producedBy uri recorded s v with
          | Err e => Err e
          | Ok recorded => check_steps byStep producedBy uri recorded rest
          end
      end
  end.

Definition VerifyChain (now : Z) (layout : option SignedLayout) (links : list (option SignedLink)) (subject : Artifact)
  : result error VerifiedChain :=
  if bool_decide (URI subject = "") then Err [ErrSubjectMismatch]
  else
    match layout with
    | None => Err [ErrInvalidLayout]
    | Some layout =>
        if bool_decide (ly_Raw layout = "") then Err [ErrInvalidLayout]
        else
          match VerifyLayout now (ly_Raw layout) with
          | Err e => Err e
          | Ok verified =>
              match links_by_step (Step_Name <$> vy_Steps verified) ∅ links with
              | Err e => Err e
              | Ok byStep =>
                  match products_by_uri byStep ∅ (vy_Steps verified) with
                  | Err e => Err e
                  | Ok producedBy =>
                      match check_steps byStep producedBy (URI subject) (Digest subject) (vy_Steps verified) with
                      | Err e => Err e
                      | Ok recorded => Ok (mkChain verified (mkArtifact (URI subject) recorded))
                      end
                  end
              end
          end
    end.

(** ** Manifests and layouts *)

Definition manifest_line (a : Artifact) : string := Digest a +:+ "  " +:+ URI a +:+ String.String "010" "".

Definition GenerateManifest (artifacts : list Artifact) : string :=
  join "" (manifest_line <$> slice_sort (fun a b => String.ltb (URI a) (URI b)) artifacts).
End generator.

(** ** Bundles *)

(** How [json.Marshal] copies a raw message: without the white space between
    tokens, and with the characters it escapes for HTML escaped. *)
Fixpoint compact (skip : nat) (inString escaped : bool) (l : list ascii) : list ascii :=
  match l with
  | [] => []
  | c :: rest =>
      match skip with
      | S skip => compact skip inString false rest
      | O =>
          let inString' := if escaped then inString else if Ascii.eqb c quote_char then negb inString else inString in
          let escaped' := inString && negb escaped && Ascii.eqb c backslash in
          match separator_rune l with
          | Some d => lit "\u202" ++ [hex_digit d] ++ compact 2 inString false rest
          | None =>
              if Ascii.eqb c "<" then lit "\u003c" ++ compact 0 inString' escaped' rest
              else if Ascii.eqb c ">" then lit "\u003e" ++ compact 0 inString' escaped' rest
              else if Ascii.eqb c "&" then lit "\u0026" ++ compact 0 inString' escaped' rest
              else if negb inString && is_space c then compact 0 inString' escaped' rest
              else c :: compact 0 inString' escaped' rest
          end
      end
  end.

(** A raw message in the output; [None] if it is not JSON. *)
Definition raw_json (raw : string) : option (list ascii) :=
  match parse_text raw with Some _ => Some (compact 0 false false (bytes_of raw)) | None => None end.

Definition MarshalBundle (layout : option SignedLayout) (links : list (option SignedLink)) : result error string :=
  match layout with
  | None => Err [ErrInvalidBundle]
  | Some layout =>
      if bool_decide (ly_Raw layout = "") || bool_decide (links = []) then Err [ErrInvalidBundle]
      else
        match mapM (fun l => l ← l; if bool_decide (Raw l = "") then None else Some (Raw l)) links with
        | None => Err [ErrInvalidBundle]
        | Some raws =>
            match raw_json (ly_Raw layout), mapM raw_json raws with
            | Some ly, Some ls =>
                Ok (string_of (lit "{" ++ quoted "layout" ++ lit ":" ++ ly ++ lit "," ++ quoted "links" ++ lit ":["
                      ++ commas ls ++ lit "]}"))
            | _, _ => Err [ErrInvalidBundle]
            end
        end
  end.

(** A DAG's layout: one step per analyzer, expecting the outputs of its
    dependencies. The caller sets the expiry. *)
Definition step_of (a : RegisteredAnalyzer) : Step :=
  mkStep (Name a) ((fun dep => dep +:+ ".output") <$> DependsOn a) [Name a +:+ ".output"] [] 1.
Definition Convert (dag : DAG) : LayoutOptions := mkOptions (step_of <$> Analyzers dag) [] 0.
