(* ===== verification/AttestFacts.v ===== *)
(** What [VerifyChain] accepts, and what signing and reading back preserves
    ([Attest]). *)

From S2P Require Import Prelude Gostrings Json Errors Dag Attest.
Local Open Scope Z_scope.

(** * Definitions *)

Section chains.
Context `{R : GoRuntime} `{InToto}.

(** What a layout's steps and the verified links of a run must satisfy. *)
Record chain_ok (steps : list Step) (L : list VerifiedLink) (subject : Artifact) : Prop := {
  ok_once : NoDup (vl_Step <$> L);
  ok_steps : forall n, n ∈ vl_Step <$> L <-> n ∈ Step_Name <$> steps;
  ok_subject : forall s v, s ∈ steps -> v ∈ L -> vl_Step v = Step_Name s ->
    URI subject ∈ ExpectedMaterials s /\ subject ∈ vl_Materials v;
  ok_materials : forall s v, s ∈ steps -> v ∈ L -> vl_Step v = Step_Name s -> ExpectedMaterials s ⊆ URI <$> vl_Materials v;
  ok_products : forall s v, s ∈ steps -> v ∈ L -> vl_Step v = Step_Name s -> ExpectedProducts s ⊆ URI <$> vl_Products v;
  ok_digests : forall v v' m p, v ∈ L -> v' ∈ L -> vl_Step v <> vl_Step v' ->
    m ∈ vl_Materials v -> p ∈ vl_Products v' -> URI m = URI p -> Digest m = Digest p;
}.

(** No artifact is the product of two steps. *)
Definition single_producers (L : list VerifiedLink) : Prop :=
  forall v v' p p', v ∈ L -> v' ∈ L -> p ∈ vl_Products v -> p' ∈ vl_Products v' -> URI p = URI p' -> vl_Step v = vl_Step v'.

Definition reads_as (link : option SignedLink) (v : VerifiedLink) : Prop :=
  exists l, link = Some l /\ Verify (Raw l) = Ok v.

(** * Lemmas *)

Lemma hashObjToArtifacts_URI m : URI <$> hashObjToArtifacts m = (map_range 0 m).*1.
Proof. unfold hashObjToArtifacts. rewrite <- list_fmap_compose. apply list_fmap_ext. by intros _ [uri hashes] _. Qed.

Lemma Verify_NoDup data v :
  Verify data = Ok v -> NoDup (URI <$> vl_Materials v) /\ NoDup (URI <$> vl_Products v).
Proof.
  unfold Verify. destruct trusted as [keyID|]; [|done]. destruct (load_envelope data) as [env|]; [|done].
  destruct (negb _); [done|]. destruct (link_payload env) as [link|]; [|done]. intros [= <-]. cbn.
  rewrite !hashObjToArtifacts_URI. split; apply map_range_NoDup.
Qed.

Lemma artifactDigest_elem l uri d : NoDup (URI <$> l) -> artifactDigest l uri = Some d <-> mkArtifact uri d ∈ l.
Proof.
  induction l as [|[u e] l IH]; cbn; intros Hnd; [split; [done|by intros ?%not_elem_of_nil]|].
  apply NoDup_cons in Hnd as [Hu Hnd]. rewrite elem_of_cons. case_bool_decide as He; subst.
  - split; [intros [= <-]; by left|]. intros [[= <-]|Hin]; [done|]. destruct Hu.
    by apply (list_elem_of_fmap_2 URI) in Hin.
  - rewrite IH by done. naive_solver.
Qed.

Lemma artifactDigest_URI l uri : is_Some (artifactDigest l uri) <-> uri ∈ URI <$> l.
Proof.
  induction l as [|a l IH]; cbn; [split; [by intros [? ?]|by intros ?%not_elem_of_nil]|].
  rewrite elem_of_cons, <- IH. case_bool_decide; [naive_solver|]. naive_solver.
Qed.

Lemma firstMissing_None want have : firstMissing want have = None <-> want ⊆ URI <$> have.
Proof.
  unfold firstMissing. split.
  - intros Hh u Hu. destruct (decide (u ∈ URI <$> have)) as [|Hn]; [done|].
    assert (u ∈ filter (fun uri => uri ∉ URI <$> have) want) as Hin by by apply list_elem_of_filter.
    destruct (filter _ want); [by apply not_elem_of_nil in Hin|done].
  - intros Hs. destruct (filter _ want) as [|u l] eqn:E; [done|].
    assert (u ∈ filter (fun uri => uri ∉ URI <$> have) want) as [Hn Hin]%list_elem_of_filter by (rewrite E; by left).
    by destruct Hn; apply Hs.
Qed.

(** ** The links of each step *)

Definition index (by0 : gmap string VerifiedLink) (L : list VerifiedLink) : gmap string VerifiedLink :=
  foldl (fun m v => <[vl_Step v := v]> m) by0 L.

Lemma links_by_step_Ok declared by0 links by1 :
  links_by_step declared by0 links = Ok by1 <->
  exists L, Forall2 reads_as links L /\ Forall (fun v => vl_Step v ∈ declared) L /\ NoDup (vl_Step <$> L) /\
    Forall (fun v => by0 !! vl_Step v = None) L /\ by1 = index by0 L.
Proof.
  revert by0. induction links as [|[l|] links IH]; intros by0; cbn.
  - split; [intros [= <-]; exists []; repeat constructor|]. intros (L & HL & _ & _ & _ & ->). by inversion HL.
  - transitivity (exists v, Verify (Raw l) = Ok v /\ vl_Step v ∈ declared /\ by0 !! vl_Step v = None /\
      links_by_step declared (<[vl_Step v := v]> by0) links = Ok by1).
    { destruct (Verify (Raw l)) as [v|e]; [|naive_solver].
      destruct (decide (vl_Step v ∈ declared)) as [Hd|Hd]; [|rewrite bool_decide_eq_true_2 by done; naive_solver].
      rewrite bool_decide_eq_false_2 by (by intros ?). case_bool_decide as Hs.
      - split; [done|]. intros (v' & [= <-] & _ & Hn & _). rewrite Hn in Hs. by destruct Hs.
      - apply eq_None_not_Some in Hs. naive_solver. }
    split.
    + intros (v & Hv & Hd & Hn & (L & HL & HLd & Hnd & Hn' & ->)%IH). exists (v :: L).
      assert (Forall (fun w => vl_Step w <> vl_Step v /\ by0 !! vl_Step w = None) L) as Hw.
      { eapply Forall_impl; [exact Hn'|]. cbn. intros w [? ?]%lookup_insert_None. auto. }
      apply Forall_and in Hw as [Hw1 Hw2]. split_and!; try constructor; try done.
      * by exists l.
      * intros (w & Hw & Hin)%list_elem_of_fmap. rewrite Forall_forall in Hw1. by destruct (Hw1 w Hin).
    + intros (L & HL & HLd & Hnd & Hn & ->). inversion HL as [|? v ? L' (l' & Heq & Hv) HL' E1]; subst. injection Heq as <-.
      apply Forall_cons in HLd as [Hd HLd], Hn as [Hn HLn]. apply NoDup_cons in Hnd as [Hv' Hnd].
      exists v. split_and!; [done..|]. apply IH. exists L'. split_and!; try done.
      apply Forall_forall. intros w Hw. rewrite Forall_forall in HLn. apply lookup_insert_None. split; [by apply HLn|].
      intros He. destruct Hv'. rewrite He. by apply list_elem_of_fmap_2.
  - split; [done|]. intros (L & HL & _). by inversion HL as [|? ? ? ? (? & ? & _)].
Qed.

Lemma index_lookup by0 L n :
  NoDup (vl_Step <$> L) -> Forall (fun v => by0 !! vl_Step v = None) L ->
  forall v, index by0 L !! n = Some v <-> (v ∈ L /\ vl_Step v = n) \/ by0 !! n = Some v.
Proof.
  revert by0. induction L as [|w L IH]; intros by0 Hnd Hn v; cbn.
  { split; [by right|]. intros [[?%not_elem_of_nil _]|?]; done. }
  apply NoDup_cons in Hnd as [Hw Hnd]. apply Forall_cons in Hn as [Hn HL].
  fold (index (<[vl_Step w := w]> by0) L). rewrite IH, lookup_insert_Some, elem_of_cons; [naive_solver|done|].
  apply Forall_forall. intros u Hu. rewrite Forall_forall in HL. apply lookup_insert_None. split; [by apply HL|].
  intros He. destruct Hw. rewrite He. by apply list_elem_of_fmap_2.
Qed.

Lemma index_empty L n v : NoDup (vl_Step <$> L) -> index ∅ L !! n = Some v <-> v ∈ L /\ vl_Step v = n.
Proof.
  intros Hnd. rewrite index_lookup; [rewrite lookup_empty; naive_solver|done|]. by apply Forall_forall.
Qed.

(** ** Products by URI *)

Lemma add_product_lookup step m p u by_step d :
  add_product step m p !! u = Some (by_step, d) <->
  m !! u = Some (by_step, d) \/ (m !! u = None /\ URI p = u /\ by_step = step /\ d = Digest p).
Proof.
  unfold add_product. destruct (m !! URI p) as [x|] eqn:Hp; [naive_solver|].
  destruct (decide (URI p = u)) as [<-|Hne].
  - rewrite lookup_insert_eq, Hp. split; [intros [= -> ->]; by right|]. intros [?|(_ & _ & -> & ->)]; congruence.
  - rewrite lookup_insert_ne by done. split; [by left|]. intros [?|(_ & ? & _)]; congruence.
Qed.

(** Every product recorded is one of the links', every link's product is
    recorded. *)
Definition produced (steps : list Step) (byStep : gmap string VerifiedLink) (m0 m : gmap string producer) : Prop :=
  (forall u st d, m !! u = Some (st, d) -> m0 !! u = Some (st, d) \/
     exists v p, byStep !! st = Some v /\ st ∈ Step_Name <$> steps /\ p ∈ vl_Products v /\ URI p = u /\ Digest p = d) /\
  (forall u, is_Some (m0 !! u) -> is_Some (m !! u)) /\
  (forall s v p, s ∈ steps -> byStep !! Step_Name s = Some v -> p ∈ vl_Products v -> is_Some (m !! URI p)).

Lemma add_products_spec step m products :
  let m' := foldl (add_product step) m products in
  (forall u st d, m' !! u = Some (st, d) -> m !! u = Some (st, d) \/ (st = step /\ exists p, p ∈ products /\ URI p = u /\ Digest p = d)) /\
  (forall u, is_Some (m !! u) -> is_Some (m' !! u)) /\ (forall p, p ∈ products -> is_Some (m' !! URI p)).
Proof.
  revert m. induction products as [|p products IH]; intros m; cbn.
  { split_and!; auto. by intros p ?%not_elem_of_nil. }
  destruct (IH (add_product step m p)) as (H1 & H2 & H3).
  assert (forall u, is_Some (m !! u) -> is_Some (add_product step m p !! u)) as Hm.
  { intros u [[st d] Hu]. exists (st, d). apply add_product_lookup. by left. }
  split_and!.
  - intros u st d Hu. destruct (H1 _ _ _ Hu) as [[?|(_ & <- & -> & ->)]%add_product_lookup|(-> & q & ? & ? & ?)]; [by left| |].
    + right. split; [done|]. exists p. split; [by left|done].
    + right. split; [done|]. exists q. split; [by right|done].
  - auto.
  - intros q [->|Hq]%elem_of_cons; [|auto]. apply H2. unfold add_product. destruct (m !! URI p) eqn:E; [by eexists|].
    rewrite lookup_insert_eq. by eexists.
Qed.

Lemma products_by_uri_Ok byStep m0 steps :
  (forall s, s ∈ steps -> is_Some (byStep !! Step_Name s)) ->
  exists m, products_by_uri byStep m0 steps = Ok m /\ produced steps byStep m0 m.
Proof.
  revert m0. induction steps as [|s steps IH]; intros m0 Hs; cbn.
  { exists m0. split; [done|]. split_and!; auto. by intros s v p ?%not_elem_of_nil. }
  destruct (Hs s) as [v Hv]; [by left|]. rewrite Hv.
  destruct (add_products_spec (Step_Name s) m0 (vl_Products v)) as (H1 & H2 & H3).
  destruct (IH (foldl (add_product (Step_Name s)) m0 (vl_Products v))) as (m & Hm & P1 & P2 & P3).
  { intros t Ht. apply Hs. by right. }
  exists m. split; [done|]. split_and!.
  - intros u st d Hu. destruct (P1 _ _ _ Hu) as [Hu'|(w & p & ? & ? & ? & ? & ?)].
    + destruct (H1 _ _ _ Hu') as [?|(-> & p & ? & ? & ?)]; [by left|]. right. exists v, p. split_and!; try done. by left.
    + right. exists w, p. split_and!; try done. cbn. by right.
  - auto.
  - intros t w p [->|Ht]%elem_of_cons Hw Hp; [|by eapply P3]. apply P2. assert (w = v) as -> by congruence. auto.
Qed.

Lemma products_by_uri_missing byStep m0 steps m :
  products_by_uri byStep m0 steps = Ok m -> forall s, s ∈ steps -> is_Some (byStep !! Step_Name s).
Proof.
  revert m0. induction steps as [|s steps IH]; intros m0; cbn; [by intros _ s ?%not_elem_of_nil|].
  destruct (byStep !! Step_Name s) as [v|] eqn:Hv; [|done]. intros Hm t [->|Ht]%elem_of_cons; [by eexists|eauto].
Qed.

(** ** The steps *)

Definition step_ok (m : gmap string producer) (uri recorded : string) (s : Step) (v : VerifiedLink) : Prop :=
  uri ∈ ExpectedMaterials s /\ artifactDigest (vl_Materials v) uri = Some recorded /\
  ExpectedMaterials s ⊆ URI <$> vl_Materials v /\ ExpectedProducts s ⊆ URI <$> vl_Products v /\
  forall a, a ∈ vl_Materials v -> broken m (Step_Name s) a = false.

Lemma check_step_Ok m uri recorded s v r :
  recorded <> "" -> check_step m uri recorded s v = Ok r <-> r = recorded /\ step_ok m uri recorded s v.
Proof.
  intros Hne. unfold check_step, step_ok.
  destruct (decide (uri ∈ ExpectedMaterials s)) as [Hu|Hu].
  2: { rewrite bool_decide_eq_true_2 by done. split; [done|]. by intros (_ & ? & _). }
  rewrite bool_decide_eq_false_2 by (by intros ?).
  destruct (artifactDigest _ _) as [got|]; [|split; [done|]; by intros (_ & _ & ? & _)].
  rewrite (bool_decide_eq_false_2 (recorded = "")) by done.
  case_bool_decide as Hg; cbn; [subst|split; [done|]; intros (_ & _ & ? & _); congruence].
  rewrite <- !firstMissing_None.
  destruct (firstMissing (ExpectedMaterials s) _); [split; [done|]; by intros (_ & _ & _ & ? & _)|].
  destruct (firstMissing (ExpectedProducts s) _); [split; [done|]; by intros (_ & _ & _ & _ & ? & _)|].
  destruct (existsb _ _) eqn:E.
  - split; [done|]. intros (_ & _ & _ & _ & _ & Hb). apply existsb_exists in E as (a & Ha%list_elem_of_In & Hba).
    by rewrite (Hb a Ha) in Hba.
  - split; [|by intros [-> _]]. intros [= <-]. split_and!; try done. intros a Ha.
    destruct (broken m (Step_Name s) a) eqn:Hb; [|done]. rewrite <- E. symmetry. apply existsb_exists.
    exists a. split; [by apply list_elem_of_In|done].
Qed.

Lemma check_steps_Ok byStep m uri recorded steps r :
  recorded <> "" -> check_steps byStep m uri recorded steps = Ok r <->
  r = recorded /\ forall s, s ∈ steps -> exists v, byStep !! Step_Name s = Some v /\ step_ok m uri recorded s v.
Proof.
  intros Hne. induction steps as [|s steps IH]; cbn; [split; [intros [= <-]; split; [done|by intros s ?%not_elem_of_nil]|by intros [-> _]]|].
  setoid_rewrite elem_of_cons. destruct (byStep !! Step_Name s) as [v|] eqn:Hv.
  - destruct (check_step m uri recorded s v) as [r'|] eqn:Hc.
    + apply check_step_Ok in Hc as [-> Hs]; [|done]. rewrite IH. split.
      * intros [-> Hall]. split; [done|]. intros t [->|Ht]; [by exists v|auto].
      * intros [-> Hall]. split; [done|]. intros t Ht. apply Hall. by right.
    + split; [done|]. intros [-> Hall]. destruct (Hall s (or_introl eq_refl)) as (w & Hw & Hs).
      assert (w = v) as -> by congruence. by rewrite (proj2 (check_step_Ok _ _ _ _ _ _ Hne) (conj eq_refl Hs)) in Hc.
  - split; [done|]. intros [-> Hall]. destruct (Hall s (or_introl eq_refl)) as (w & Hw & _). congruence.
Qed.
Lemma broken_false m step a :
  broken m step a = false <-> forall st d, m !! URI a = Some (st, d) -> st <> step -> d = Digest a.
Proof.
  unfold broken. destruct (m !! URI a) as [[st d]|]; [|split; [done|done]].
  split.
  - intros Hb st' d' [= <- <-] Hne. rewrite (bool_decide_eq_false_2 (st = step)) in Hb by done. cbn in Hb.
    apply negb_false_iff, bool_decide_eq_true in Hb. done.
  - intros Hall. apply andb_false_iff. destruct (decide (st = step)) as [->|Hne]; [left; by rewrite bool_decide_eq_true_2|].
    right. rewrite (Hall st d eq_refl Hne). by rewrite bool_decide_eq_true_2.
Qed.

Definition distinct_artifacts (v : VerifiedLink) : Prop := NoDup (URI <$> vl_Materials v) /\ NoDup (URI <$> vl_Products v).

(** What the loops accept, for links read as [L]. *)
Lemma steps_accept steps L subject :
  Digest subject <> "" -> single_producers L ->
  Forall distinct_artifacts L -> NoDup (vl_Step <$> L) ->
  (exists m, products_by_uri (index ∅ L) ∅ steps = Ok m /\
     exists r, check_steps (index ∅ L) m (URI subject) (Digest subject) steps = Ok r) ->
  Forall (fun v => vl_Step v ∈ Step_Name <$> steps) L -> chain_ok steps L subject.
Proof.
  intros Hd Hsp Hnd Hn (m & Hm & r & Hr) Hdecl.
  pose proof (products_by_uri_missing _ _ _ _ Hm) as Hall.
  destruct (products_by_uri_Ok (index ∅ L) ∅ steps Hall) as (m' & Hm' & P1 & _ & P3).
  assert (m' = m) as -> by congruence. apply check_steps_Ok in Hr as [-> Hok]; [|done].
  rewrite Forall_forall in Hnd, Hdecl.
  assert (forall s v, s ∈ steps -> v ∈ L -> vl_Step v = Step_Name s -> step_ok m (URI subject) (Digest subject) s v) as Hsv.
  { intros s v Hs Hv He. destruct (Hok s Hs) as (w & [Hw Hws]%index_empty & Hsok); [|done].
    assert (w = v) as <-; [|done]. eapply (NoDup_fmap_inj vl_Step); [exact Hn|done..|congruence]. }
  split; [done|..].
  - intros n. split.
    + intros (v & -> & Hv)%list_elem_of_fmap. by apply Hdecl.
    + intros (s & -> & Hs)%list_elem_of_fmap. destruct (Hall s Hs) as [v [Hv He]%index_empty]; [|done].
      rewrite <- He. by apply list_elem_of_fmap_2.
  - intros s v Hs Hv He. destruct (Hsv s v Hs Hv He) as (Hu & Had & _). split; [done|].
    apply artifactDigest_elem in Had; [by destruct subject|by apply Hnd].
  - intros s v Hs Hv He. apply (Hsv s v Hs Hv He).
  - intros s v Hs Hv He. apply (Hsv s v Hs Hv He).
  - intros v v' a p Hv Hv' Hne Ha Hp He.
    destruct (list_elem_of_fmap_1 _ _ _ (Hdecl v Hv)) as (s & Hs & Hsin).
    destruct (list_elem_of_fmap_1 _ _ _ (Hdecl v' Hv')) as (s' & Hs' & Hsin').
    destruct (P3 s' v' p Hsin') as [[st d] Hst]; [by apply index_empty|done|].
    destruct (Hsv s v Hsin Hv Hs) as (_ & _ & _ & _ & Hb). specialize (Hb a Ha). rewrite broken_false in Hb.
    rewrite He in Hb. assert (st = vl_Step v' /\ d = Digest p) as [-> ->].
    { destruct (P1 _ _ _ Hst) as [?|(w & q & [Hw <-]%index_empty & _ & Hq & Hqu & <-)]; [by rewrite lookup_empty in *| |done].
      pose proof (Hsp w v' q p Hw Hv' Hq Hp Hqu) as Hws. assert (w = v') as ->.
      { eapply (NoDup_fmap_inj vl_Step); [exact Hn|done..]. }
      split; [done|]. f_equal. eapply (NoDup_fmap_inj URI); [apply (Hnd v' Hv')|exact Hq|exact Hp|exact Hqu]. }
    symmetry. eapply Hb; [exact Hst|congruence].
Qed.
Lemma accept_steps steps L subject :
  Digest subject <> "" -> Forall distinct_artifacts L -> chain_ok steps L subject ->
  exists m, products_by_uri (index ∅ L) ∅ steps = Ok m /\
    check_steps (index ∅ L) m (URI subject) (Digest subject) steps = Ok (Digest subject).
Proof.
  intros Hd Hnd [Hn Hst Hsub Hmat Hprod Hdig].
  assert (forall s, s ∈ steps -> exists v, index ∅ L !! Step_Name s = Some v /\ v ∈ L /\ vl_Step v = Step_Name s) as Hix.
  { intros s Hs. apply (list_elem_of_fmap_2 Step_Name), Hst, list_elem_of_fmap in Hs as (v & He & Hv).
    exists v. split; [by apply index_empty|done]. }
  destruct (products_by_uri_Ok (index ∅ L) ∅ steps) as (m & Hm & P1 & _ & _).
  { intros s Hs. destruct (Hix s Hs) as (v & Hv & _). by exists v. }
  exists m. split; [done|]. apply check_steps_Ok; [done|]. split; [done|]. intros s Hs.
  destruct (Hix s Hs) as (v & Hv & Hin & He). exists v. split; [done|].
  rewrite Forall_forall in Hnd. destruct (Hsub s v Hs Hin He) as [Hu Hsv]. split_and!; auto.
  - apply artifactDigest_elem; [apply (Hnd v Hin)|by destruct subject].
  - intros a Ha. apply broken_false. intros st d Hst' Hne.
    destruct (P1 _ _ _ Hst') as [?|(w & p & [Hw <-]%index_empty & _ & Hp & Hpu & <-)]; [by rewrite lookup_empty in *| |done].
    symmetry. apply (Hdig v w a p); try done. congruence.
Qed.

Lemma reads_as_distinct links L : Forall2 reads_as links L -> Forall distinct_artifacts L.
Proof. induction 1 as [|? v ? ? (l & _ & Hv) _ IH]; constructor; [by eapply Verify_NoDup|done]. Qed.

Lemma reads_as_functional links L L' : Forall2 reads_as links L -> Forall2 reads_as links L' -> L = L'.
Proof.
  intros HL. revert L'. induction HL as [|? v ? ? (l & -> & Hv) _ IH]; intros L1 HL1;
    inversion HL1 as [|? w ? L2 (k & Hk & Hw) HL2]; subst; [done|].
  f_equal; [congruence|by apply IH].
Qed.

(** [VerifyChain] accepts exactly a layout that verifies and has not
    expired with one verified link per step, no more, in any order, whose
    links all record the subject with its digest and every artifact their step
    expects, and agree on the digest of every artifact that one step consumes
    and another produces. For artifacts that several steps produce it compares
    the first producer only, so none is assumed here. *)
Theorem VerifyChain_exact now layout links subject :
  URI subject <> "" -> Digest subject <> "" -> ly_Raw layout <> "" ->
  (forall L, Forall2 reads_as links L -> single_producers L) ->
  is_ok (VerifyChain now (Some layout) links subject) = true <->
  exists vy L, VerifyLayout now (ly_Raw layout) = Ok vy /\ Forall2 reads_as links L /\ chain_ok (vy_Steps vy) L subject.
Proof.
  intros Hu Hd Hr Hsp. unfold VerifyChain. rewrite !bool_decide_eq_false_2 by done.
  destruct (VerifyLayout now _) as [vy|] eqn:Hvy; [|split; [done|by intros (? & ? & ? & _)]].
  destruct (links_by_step _ _ links) as [by1|] eqn:Hl.
  - apply links_by_step_Ok in Hl as (L & HL & Hdecl & Hn & _ & ->).
    transitivity (exists m, products_by_uri (index ∅ L) ∅ (vy_Steps vy) = Ok m /\
      exists r, check_steps (index ∅ L) m (URI subject) (Digest subject) (vy_Steps vy) = Ok r).
    { destruct (products_by_uri _ _ _) as [m|]; [|split; [done|by intros (? & ? & _)]].
      destruct (check_steps _ _ _ _ _) as [r|] eqn:Hc; split; intros Hx; try done; [exists m; split; [done|by exists r]|].
      destruct Hx as (m' & [= <-] & r & Hr'). congruence. }
    split.
    + intros Hx. exists vy, L. split_and!; [done..|]. apply steps_accept; try done; [by apply Hsp|by eapply reads_as_distinct].
    + intros (vy' & L' & [= <-] & HL' & Hok). assert (L' = L) as -> by by eapply reads_as_functional.
      destruct (accept_steps (vy_Steps vy) L subject) as (m & Hm & Hc); [done|by eapply reads_as_distinct|done|].
      exists m. split; [done|by eexists].
  - split; [done|]. intros (vy' & L & [= <-] & HL & [Hn Hst _ _ _ _]).
    assert (links_by_step (Step_Name <$> vy_Steps vy) ∅ links = Ok (index ∅ L)) as Hx; [|congruence].
    apply links_by_step_Ok. exists L. split_and!; try done.
    + apply Forall_forall. intros v Hv. apply Hst. by apply list_elem_of_fmap_2.
    + by apply Forall_forall.
Qed.
(** ** Reading back what was signed *)

(** Canonical JSON writes control characters as they are, and the parsers
    refuse them and rewrite text that is not UTF-8; the newlines of a layout
    are escaped again before it is parsed ([fixCanonicalJSONNewlines]). *)
Definition legible (newlines : bool) (s : string) : bool :=
  utf8_Valid s && forallb (fun c => (32 <=? nat_of_ascii c)%nat || (newlines && Ascii.eqb c "010")) (String.list_ascii_of_string s).

Definition legible_artifacts (m : gmap string HashObj) : bool :=
  forallb (fun '(uri, hashes) => legible false uri && forallb (fun '(k, v) => legible false k && legible false v) (map_to_list hashes))
    (map_to_list m).
Definition legible_link (l : in_toto_link) : bool :=
  legible false (it_Name l) && legible_artifacts (it_Materials l) && legible_artifacts (it_Products l) &&
  forallb (fun '(k, v) => legible false k && legible false v) (map_to_list (it_ByProducts l)).
Definition legible_step (s : in_toto_step) : bool :=
  legible true (is_Name s) && forallb (forallb (legible true)) (is_Materials s) && forallb (forallb (legible true)) (is_Products s) &&
  forallb (legible true) (is_Command s).
Definition legible_layout (l : in_toto_layout) : bool :=
  forallb legible_step (il_Steps l) &&
  forallb (fun i => legible true (ii_Name i) && forallb (legible true) (ii_Run i)) (il_Inspect l) && legible true (il_Expires l).

(** The years a four-digit date can name. *)
Definition datable (t : Z) : Prop := 0 <= t < 253402300800 * 1000000000.

(** What signing and the envelope parsers promise: what is legible and was
    signed with the configured key verifies and reads back, and dates lose less
    than a second. *)
Record honest_library : Prop := {
  lib_key : exists k, trusted = Ok k;
  lib_link : forall l raw, legible_link l = true -> sign_link l = Ok raw ->
    exists env, load_envelope raw = Some env /\ signature_ok env = true /\ link_payload env = Some l;
  lib_layout : forall l raw, legible_layout l = true -> sign_layout l = Ok raw ->
    raw <> "" /\ exists env keys payload, parse_dsse raw = Some env /\ dsse_signers env = Some keys /\
      dsse_payload env = Some payload /\ read_layout (fixCanonicalJSONNewlines payload) = Some l;
  lib_date : forall t, datable t -> exists t', parse_date (format_date t) = Some t' /\ t' <= t < t' + 1000000000;
}.

(** What [CreateLink] signs for a link read as [v], and [CreateLayout] for a
    layout. *)
Definition signed_link (own extra : gmap string string) (v : VerifiedLink) : in_toto_link :=
  mkInTotoLink (vl_Step v) (artifactsToHashObj (vl_Materials v)) (artifactsToHashObj (vl_Products v)) (link_byproducts own extra).
Definition signed_layout (now : Z) (opts : LayoutOptions) : in_toto_layout :=
  mkInTotoLayout (stepsToInToto (Steps opts)) (inspectionsToInToto (Inspections opts)) (format_date (now + ExpiresIn opts)).

Lemma hash_digest_singleton d : hash_digest {["sha256" := d]} = d.
Proof.
  unfold hash_digest. rewrite lookup_singleton_eq. cbn. case_bool_decide as Hd; [subst|done].
  destruct (map_range 1 _) as [|[k v] l] eqn:E; [done|].
  assert ((k, v) ∈ map_range 1 {["sha256" := ""]}) as Hin by (rewrite E; by left).
  apply map_range_elem, lookup_singleton_Some in Hin as [_ <-]. done.
Qed.

Lemma artifactsToHashObj_lookup l u h :
  NoDup (URI <$> l) -> artifactsToHashObj l !! u = Some h <-> exists d, mkArtifact u d ∈ l /\ h = {["sha256" := d]}.
Proof.
  unfold artifactsToHashObj. enough (forall m : gmap string HashObj, NoDup (URI <$> l) -> (forall a, a ∈ l -> m !! URI a = None) ->
    foldl (fun m a => <[URI a := {["sha256" := Digest a]}]> m) m l !! u = Some h <->
    m !! u = Some h \/ exists d, mkArtifact u d ∈ l /\ h = {["sha256" := d]}) as Hx.
  { intros Hnd. rewrite Hx by done. rewrite lookup_empty. naive_solver. }
  induction l as [|[v e] l IH]; intros m Hnd Hm; cbn.
  - split; [by left|]. intros [?|(d & ?%not_elem_of_nil & _)]; done.
  - apply NoDup_cons in Hnd as [Hv Hnd]. rewrite IH; [|done|].
    + rewrite lookup_insert_Some. setoid_rewrite elem_of_cons. specialize (Hm (mkArtifact v e) ltac:(by left)). cbn in Hm.
      split.
      * intros [[[-> <-]|[Hne ?]]|(d & Hd & ->)]; [right; exists e; auto|by left|right; exists d; auto].
      * intros [Hu|(d & [[= -> ->]|Hd] & ->)]; [left; right; split; [congruence|done]|by left; left|right; by exists d].
    + intros a Ha. rewrite lookup_insert_ne; [apply Hm; by right|]. intros He. destruct Hv. cbn in *. subst v.
      by apply (list_elem_of_fmap_2 URI).
Qed.

Lemma hashObj_roundtrip l : NoDup (URI <$> l) -> hashObjToArtifacts (artifactsToHashObj l) ≡ₚ l.
Proof.
  intros Hnd. apply NoDup_Permutation.
  - apply (NoDup_fmap_1 URI). rewrite hashObjToArtifacts_URI. apply map_range_NoDup.
  - by apply (NoDup_fmap_1 URI).
  - intros [u d]. unfold hashObjToArtifacts. rewrite list_elem_of_fmap. split.
    + intros ([v h] & Heq & Hin). apply map_range_elem, artifactsToHashObj_lookup in Hin as (e & He & ->); [|done].
      rewrite hash_digest_singleton in Heq. congruence.
    + intros Hin. exists (u, {["sha256" := d]}). rewrite hash_digest_singleton. split; [done|].
      apply map_range_elem, artifactsToHashObj_lookup; [done|]. by exists d.
Qed.

(** A threshold below one is signed as one. *)
Definition signed_step (s : Step) : Step :=
  mkStep (Step_Name s) (ExpectedMaterials s) (ExpectedProducts s) (Command s) (Z.max 1 (Threshold s)).

Lemma omap_rule (f : string -> list string) (l : list string) : (forall x, rule_name (f x) = Some x) -> omap rule_name (f <$> l) = l.
Proof. intros Hf. induction l as [|x l IH]; cbn; [done|]. by rewrite Hf, IH. Qed.

Lemma steps_roundtrip steps : inTotoStepsToSteps (stepsToInToto steps) = signed_step <$> steps.
Proof.
  unfold inTotoStepsToSteps, stepsToInToto. rewrite <- list_fmap_compose. apply list_fmap_ext. intros _ s _.
  unfold compose, inTotoStepToStep, stepToInToto, signed_step. cbn. rewrite !omap_rule by done. f_equal.
  destruct (Z.ltb_spec (Threshold s) 1); lia.
Qed.

Lemma CreateLink_Verify own extra w l :
  honest_library -> legible_link (signed_link own extra w) = true ->
  CreateLink own (vl_Step w) (vl_Materials w) (vl_Products w) extra = Ok l -> distinct_artifacts w ->
  exists v, Verify (Raw l) = Ok v /\ vl_Step v = vl_Step w /\ vl_Materials v ≡ₚ vl_Materials w /\ vl_Products v ≡ₚ vl_Products w /\
    vl_ByProducts v = link_byproducts own extra.
Proof.
  intros [[k Hk] Hl _ _] Hleg Hc [Hm Hp]. unfold CreateLink in Hc. fold (signed_link own extra w) in Hc.
  destruct (sign_link _) as [raw|] eqn:Hs; [|done].
  injection Hc as <-. apply Hl in Hs as (env & He & Hok & Hpl); [|done]. unfold Verify. cbn. rewrite Hk, He, Hok, Hpl. cbn.
  eexists. split; [done|]. cbn. split_and!; [done|by apply hashObj_roundtrip..|done].
Qed.

Lemma CreateLayout_VerifyLayout now opts ly now' :
  honest_library -> legible_layout (signed_layout now opts) = true -> datable (now + ExpiresIn opts) ->
  CreateLayout now opts = Ok ly -> now' + 1000000000 <= now + ExpiresIn opts ->
  ly_Raw ly <> "" /\ exists vy, VerifyLayout now' (ly_Raw ly) = Ok vy /\ vy_Steps vy = signed_step <$> Steps opts.
Proof.
  intros [[k Hk] _ Hl Hd] Hleg Hdate Hc Hexp. unfold CreateLayout in Hc. case_bool_decide; [done|].
  destruct (sign_layout _) as [raw|] eqn:Hs; [|done].
  injection Hc as <-. apply Hl in Hs as (Hne & env & keys & payload & He & Hks & Hp & Hr); [|done]. split; [done|].
  unfold VerifyLayout. cbn. rewrite He, Hk, Hks, Hp. cbn. rewrite Hr. cbn. destruct (Hd _ Hdate) as (t & Ht & Hb).
  rewrite Ht. destruct (Z.ltb_spec t now'); [lia|]. eexists. split; [done|]. cbn. apply steps_roundtrip.
Qed.
Definition same_link (v w : VerifiedLink) : Prop :=
  vl_Step v = vl_Step w /\ vl_Materials v ≡ₚ vl_Materials w /\ vl_Products v ≡ₚ vl_Products w.

Lemma same_links_steps L L' : Forall2 same_link L L' -> vl_Step <$> L = vl_Step <$> L'.
Proof. induction 1 as [|v w ? ? (? & _) _ IH]; cbn; [done|]. by f_equal. Qed.

Lemma chain_ok_same steps L L' subject :
  Forall2 same_link L L' -> chain_ok steps L' subject -> chain_ok (signed_step <$> steps) L subject.
Proof.
  intros Hs [Hn Hst Hsub Hmat Hprod Hdig].
  assert (forall v, v ∈ L -> exists w, w ∈ L' /\ same_link v w) as Hw.
  { intros v [i Hi]%list_elem_of_lookup. destruct (Forall2_lookup_l _ _ _ _ _ Hs Hi) as (w & Hwi & ?).
    exists w. split; [by eapply list_elem_of_lookup_2|done]. }
  assert (forall s v, s ∈ signed_step <$> steps -> v ∈ L -> vl_Step v = Step_Name s ->
    exists s' w, s' ∈ steps /\ s = signed_step s' /\ w ∈ L' /\ same_link v w /\ vl_Step w = Step_Name s') as Hsw.
  { intros s v (s' & -> & Hs')%list_elem_of_fmap Hv He. destruct (Hw v Hv) as (w & Hwin & Hvw). exists s', w.
    split_and!; try done. destruct Hvw as (<- & _). done. }
  assert (Step_Name <$> (signed_step <$> steps) = Step_Name <$> steps) as Hnames by (by rewrite <- list_fmap_compose).
  rewrite <- (same_links_steps _ _ Hs) in Hn, Hst.
  split; [done|by rewrite Hnames|..].
  - intros s v Hin Hv He. destruct (Hsw s v Hin Hv He) as (s' & w & Hs' & -> & Hwin & (_ & Hm & _) & Hws). rewrite Hm.
    cbn. by apply (Hsub s' w).
  - intros s v Hin Hv He. destruct (Hsw s v Hin Hv He) as (s' & w & Hs' & -> & Hwin & (_ & Hm & _) & Hws).
    intros u. rewrite Hm. cbn. by apply (Hmat s' w).
  - intros s v Hin Hv He. destruct (Hsw s v Hin Hv He) as (s' & w & Hs' & -> & Hwin & (_ & _ & Hp) & Hws).
    intros u. rewrite Hp. cbn. by apply (Hprod s' w).
  - intros v v' m p Hv Hv' Hne Hm Hp. destruct (Hw v Hv) as (w & Hwin & Hvs & Hvm & _), (Hw v' Hv') as (w' & Hwin' & Hvs' & _ & Hvp).
    rewrite Hvm in Hm. rewrite Hvp in Hp. apply (Hdig w w'); congruence.
Qed.

(** C35. Signing is faithful. Take the links of a run, each signed with
    [CreateLink] with no artifact URI twice among its materials or among its
    products, and a layout signed with [CreateLayout], and let the links fit the
    layout's steps ([chain_ok]): one link per step, each recording the subject
    with its digest and all the step expects, and equal digests wherever one
    step consumes what another produces. If the subject has a URI and a digest,
    every signed text is legible (UTF-8 without control characters, newlines
    allowed in the layout) and the expiry can be dated, then [VerifyChain]
    accepts the run under the same key until a second before the layout
    expires, and reports the subject it was given and the steps that were
    signed, with thresholds below one raised to one. *)
Theorem signed_chain_verifies now now' opts ly L links subject :
  honest_library -> URI subject <> "" -> Digest subject <> "" ->
  CreateLayout now opts = Ok ly -> legible_layout (signed_layout now opts) = true ->
  datable (now + ExpiresIn opts) -> now' + 1000000000 <= now + ExpiresIn opts ->
  Forall2 (fun v l => exists own extra, CreateLink own (vl_Step v) (vl_Materials v) (vl_Products v) extra = Ok l /\
    legible_link (signed_link own extra v) = true) L links ->
  Forall distinct_artifacts L -> chain_ok (Steps opts) L subject ->
  exists chain, VerifyChain now' (Some ly) (Some <$> links) subject = Ok chain /\ ch_Subject chain = subject /\
    vy_Steps (ch_Layout chain) = signed_step <$> Steps opts.
Proof.
  intros Hlib Hu Hd Hly Hleg Hdate Hexp Hlinks Hdist Hok.
  destruct (CreateLayout_VerifyLayout _ _ _ _ Hlib Hleg Hdate Hly Hexp) as (Hraw & vy & Hvy & Hsteps).
  assert (exists L', Forall2 reads_as (Some <$> links) L' /\ Forall2 same_link L' L) as (L' & HL' & Hsame).
  { clear -Hlib Hlinks Hdist. induction Hlinks as [|v l L links (own & extra & Hl & Hleg) _ IH]; [by exists []|].
    apply Forall_cons in Hdist as [Hv Hdist]. destruct (IH Hdist) as (L' & ? & ?).
    destruct (CreateLink_Verify _ _ _ _ Hlib Hleg Hl Hv) as (w & Hw & Hs & Hmm & Hpp & _). exists (w :: L').
    split; constructor; try done. by exists l. }
  apply (chain_ok_same _ L') in Hok; [|done]. rewrite <- Hsteps in Hok.
  destruct (accept_steps (vy_Steps vy) L' subject) as (m & Hm & Hc); [done|by eapply reads_as_distinct|done|].
  assert (links_by_step (Step_Name <$> vy_Steps vy) ∅ (Some <$> links) = Ok (index ∅ L')) as Hl.
  { destruct Hok as [Hn Hst _ _ _ _]. apply links_by_step_Ok. exists L'. split_and!; try done.
    - apply Forall_forall. intros v Hv. apply Hst. by apply list_elem_of_fmap_2.
    - by apply Forall_forall. }
  unfold VerifyChain. rewrite !bool_decide_eq_false_2, Hvy, Hl, Hm, Hc by done.
  eexists. split; [done|]. cbn. split; [by destruct subject|done].
Qed.
End chains.

(** * A library for examples *)

#[export] Instance in_toto_step_eq_dec : EqDecision in_toto_step.
Proof. solve_decision. Defined.
#[export] Instance in_toto_link_eq_dec : EqDecision in_toto_link.
Proof. solve_decision. Defined.

(** Seconds in unary. *)
Fixpoint ticks (n : nat) : string := match n with O => "" | S n => String.String "x" (ticks n) end.
Definition unary_date (t : Z) : string := String.String (if t <? 0 then "-"%char else "+"%char) (ticks (Z.abs_nat (t / 1000000000))).
Definition read_unary (s : string) : option Z :=
  match s with
  | String.String c rest =>
      let n := Z.of_nat (String.length rest) * 1000000000 in
      Some (if Ascii.eqb c "-" then - n else n)
  | EmptyString => None
  end.

Lemma unary_roundtrip t : exists t', read_unary (unary_date t) = Some t' /\ t' <= t < t' + 1000000000.
Proof.
  assert (forall n, String.length (ticks n) = n) as Hl by (induction n; cbn; congruence).
  pose proof (Z.div_mod t 1000000000 ltac:(lia)) as Hd. pose proof (Z.mod_pos_bound t 1000000000 ltac:(lia)) as Hm.
  unfold unary_date, read_unary. rewrite Hl, Zabs2Nat.id_abs. destruct (Z.ltb_spec t 0).
  - change (Ascii.eqb "-" "-") with true. rewrite Z.abs_neq by (apply Z.div_le_upper_bound; lia). eexists. split; [done|lia].
  - change (Ascii.eqb "+" "-") with false. rewrite Z.abs_eq by (apply Z.div_pos; lia). eexists. split; [done|lia].
Qed.

(** It can sign the links of a table, each under its name, and one layout. *)
Definition table_library (table : list (string * in_toto_link)) (layout : in_toto_layout) : InToto := {|
  trusted := Ok "k";
  sign_link l := match List.find (fun e => bool_decide (e.2 = l)) table with Some (raw, _) => Ok raw | None => Err [ErrSignatureFailed] end;
  sign_layout l :=
    if bool_decide (il_Steps l = il_Steps layout /\ il_Inspect l = [] /\ il_Expires l <> EmptyString /\
                    fixCanonicalJSONNewlines (il_Expires l) = il_Expires l)
    then Ok (il_Expires l) else Err [ErrSignatureFailed];
  format_date := unary_date;
  parse_date := read_unary;
  envelope := in_toto_link;
  load_envelope raw := snd <$> List.find (fun e => String.eqb e.1 raw) table;
  signature_ok _ := true;
  signature_keys _ := ["k"];
  link_payload l := Some l;
  dsse := string;
  parse_dsse s := Some s;
  dsse_signers _ := Some ["k"];
  dsse_payload s := Some s;
  read_layout s := Some (mkInTotoLayout (il_Steps layout) [] s);
|}.

Lemma table_library_honest `{R : GoRuntime} table layout :
  NoDup table.*1 -> @honest_library (table_library table layout).
Proof.
  intros Hnd. split; cbn.
  - by exists "k".
  - intros l raw _ Hf. destruct (List.find _ table) as [[raw' l']|] eqn:E; [|done]. injection Hf as ->.
    apply List.find_some in E as [Hin%list_elem_of_In He%bool_decide_eq_true]. cbn in He. subst l'. exists l. split_and!; try done.
    destruct (List.find (fun e => String.eqb e.1 raw) table) as [[raw2 l2]|] eqn:E; cbn.
    + apply List.find_some in E as [Hin2%list_elem_of_In He%String.eqb_eq]. cbn in He. subst raw2.
      f_equal. assert ((raw, l2) = (raw, l)) as [=]; [|done]. eapply (NoDup_fmap_inj fst); done.
    + pose proof (List.find_none _ _ E _ (proj1 (list_elem_of_In _ _) Hin)) as Hx. cbn in Hx. by rewrite String.eqb_refl in Hx.
  - intros l raw _. case_bool_decide as Hl; [|done]. destruct Hl as (Hs & Hi & Hne & Hfix). intros [= <-]. split; [done|].
    exists (il_Expires l), ["k"], (il_Expires l). split_and!; try done. rewrite Hfix, <- Hs, <- Hi. by destruct l.
  - intros t _. apply unary_roundtrip.
Qed.

Definition example_subject : Artifact := mkArtifact "job:acme/j1" "sha256:00".
Definition example_steps : list Step :=
  [mkStep "classify" ["job:acme/j1"] ["classify.output"] [] 1;
   mkStep "requires" ["job:acme/j1"; "classify.output"] ["requires.output"] [] 0].
Definition example_links : list VerifiedLink :=
  [mkVerifiedLink "requires" [example_subject; mkArtifact "classify.output" "sha256:aa"] [mkArtifact "requires.output" "sha256:bb"] ∅;
   mkVerifiedLink "classify" [example_subject] [mkArtifact "classify.output" "sha256:aa"] ∅].
Definition example_table : list (string * in_toto_link) :=
  (fun v => (vl_Step v, mkInTotoLink (vl_Step v) (artifactsToHashObj (vl_Materials v)) (artifactsToHashObj (vl_Products v)) ∅)) <$> example_links.
Definition example_library : InToto := table_library example_table (mkInTotoLayout (stepsToInToto example_steps) [] "").
Definition example_signed : list SignedLink :=
  (fun v => mkLink (vl_Step v) (vl_Step v) "" (vl_Materials v) (vl_Products v)) <$> example_links.

(** One goal per element of a concrete list. *)
Ltac each_in H := repeat (apply elem_of_cons in H as [->|H]); try (by apply not_elem_of_nil in H).

Lemma example_chain_ok : chain_ok example_steps example_links example_subject.
Proof.
  split.
  - by apply (bool_decide_unpack _).
  - intros n. unfold example_links, example_steps. cbn. set_solver.
  - intros s v Hs Hv He. unfold example_links, example_steps in *. each_in Hs; each_in Hv; try done; cbn; set_solver.
  - intros s v Hs Hv He. unfold example_links, example_steps in *. each_in Hs; each_in Hv; try done; cbn; set_solver.
  - intros s v Hs Hv He. unfold example_links, example_steps in *. each_in Hs; each_in Hv; try done; cbn; set_solver.
  - intros v v' m p Hv Hv' Hne Hm Hp He. unfold example_links in *.
    each_in Hv; each_in Hv'; try done; cbn in *; each_in Hm; each_in Hp; done.
Qed.

Definition example_layout : SignedLayout := mkLayout (unary_date 9000000000) 9000000000.

Lemma signed_chain_verifies_witness :
  exists chain,
    @VerifyChain forward_runtime example_library 5000000000 (Some example_layout) (Some <$> example_signed) example_subject = Ok chain /\
    ch_Subject chain = example_subject /\ vy_Steps (ch_Layout chain) = signed_step <$> example_steps.
Proof.
  apply (@signed_chain_verifies forward_runtime example_library 1000000000 5000000000 (mkOptions example_steps [] 8000000000)
           example_layout example_links example_signed).
  - apply (@table_library_honest forward_runtime). by apply (bool_decide_unpack _).
  - done.
  - done.
  - vm_compute. reflexivity.
  - vm_compute. reflexivity.
  - unfold datable. cbn. lia.
  - done.
  - repeat constructor; exists ∅, ∅; split; vm_compute; reflexivity.
  - repeat constructor; by apply (bool_decide_unpack _).
  - apply example_chain_ok.
Defined.

Lemma VerifyChain_exact_witness :
  is_ok (@VerifyChain forward_runtime example_library 5000000000 (Some example_layout) (Some <$> example_signed) example_subject) = true <->
  exists vy L, @VerifyLayout example_library 5000000000 (ly_Raw example_layout) = Ok vy /\
    Forall2 (@reads_as forward_runtime example_library) (Some <$> example_signed) L /\ chain_ok (vy_Steps vy) L example_subject.
Proof.
  apply (@VerifyChain_exact forward_runtime example_library); [done..|].
  intros L HL. assert (exists v1 v2, L = [v1; v2] /\ vl_Products v1 = [mkArtifact "requires.output" "sha256:bb"] /\
    vl_Products v2 = [mkArtifact "classify.output" "sha256:aa"]) as (v1 & v2 & -> & Hp1 & Hp2).
  { inversion HL as [|? v1 ? ? (l1 & Hl1 & Hv1) HL2]; subst. inversion HL2 as [|? v2 ? ? (l2 & Hl2 & Hv2) HL3]; subst.
    inversion HL3; subst. injection Hl1 as <-. injection Hl2 as <-. exists v1, v2. split; [done|].
    split; [apply (f_equal (fun r => match r with Ok v => vl_Products v | Err _ => [] end)) in Hv1; cbn [vl_Products] in Hv1; rewrite <- Hv1
      |apply (f_equal (fun r => match r with Ok v => vl_Products v | Err _ => [] end)) in Hv2; rewrite <- Hv2]; vm_compute; reflexivity. }
  intros v v' p p' Hv Hv' Hp Hp' He. each_in Hv; each_in Hv'; try done; exfalso; rewrite ?Hp1, ?Hp2 in *;
    each_in Hp; each_in Hp'; done.
Defined.

(** Why one producer is assumed: of two products under one URI the second is
    compared with nothing. *)
Definition doubled_links : list VerifiedLink :=
  let job := mkArtifact "job" "d" in
  [mkVerifiedLink "a" [job] [mkArtifact "x" "1"] ∅; mkVerifiedLink "b" [job] [mkArtifact "x" "2"] ∅;
   mkVerifiedLink "c" [job; mkArtifact "x" "1"] [] ∅].
Definition doubled_steps : list Step := [mkStep "a" ["job"] ["x"] [] 1; mkStep "b" ["job"] ["x"] [] 1; mkStep "c" ["job"; "x"] [] [] 1].

Lemma second_producer_unchecked :
  (exists m, products_by_uri (index ∅ doubled_links) ∅ doubled_steps = Ok m /\
     check_steps (index ∅ doubled_links) m "job" "d" doubled_steps = Ok "d") /\
  ~ chain_ok doubled_steps doubled_links (mkArtifact "job" "d").
Proof.
  split; [eexists; split; [vm_compute; reflexivity|vm_compute; reflexivity]|].
  intros [_ _ _ _ _ Hd]. assert ("1" = "2") as [=].
  apply (Hd (mkVerifiedLink "c" [mkArtifact "job" "d"; mkArtifact "x" "1"] [] ∅) (mkVerifiedLink "b" [mkArtifact "job" "d"] [mkArtifact "x" "2"] ∅)
    (mkArtifact "x" "1") (mkArtifact "x" "2")); try done; unfold doubled_links; cbn; set_solver.
Qed.
