(* ===== verification/Results.v ===== *)
(** What the pipeline reads back out of its analyzers' stored results:
    [pkg/analyzer/results/results.go], [buildVoteSummaryPairs]
    ([internal/pipeline/vote_summaries.go]), [buildSynthesisInputs]
    ([internal/pipeline/synthesis_inputs.go]) and [pairAnalyzerParameters]
    ([internal/pipeline/executor.go]).

    Results are decoded as [encoding/json] decodes a slice of structs. An
    integer's literal has no exponent in the texts [json.Marshal] and
    PostgreSQL write, so a number with one is not told apart from one without.
    The mean and variance of similarities are a library's. *)

From S2P Require Import Prelude Float64 Floatfmt Gostrings Tenant Sha256 Json Jsonread Errors Jobconfig Joberr Jobstore.
Local Open Scope Z_scope.

(** * Definitions *)

(** ** Decoding *)

Definition into_float (old : float64) (t : tree) : option float64 :=
  match t with TNumber neg c k => parse_decimal neg c k | TNull => Some old | _ => None end.

Definition into_int (old : Z) (t : tree) : option Z :=
  match t with
  | TNumber neg c k =>
      let n := if neg then - c else c in if (k =? 0) && in_int64 n then Some n else None
  | TNull => Some old
  | _ => None
  end.

(** A slice: the elements of an array, each decoded into a zero value. *)
Definition into_slice {A} (elem : tree -> option A) (old : list A) (t : tree) : option (list A) :=
  match t with TArray l => mapM elem l | TNull => Some [] | _ => None end.

(** A map of strings: members join the map, a later one over an earlier. *)
Definition into_strings (old : gmap string string) (t : tree) : option (gmap string string) :=
  match t with
  | TObject l => foldl (fun acc '(k, t) => m ← acc; v ← into_string "" t; Some (<[k := v]> m)) (Some old) l
  | TNull => Some ∅
  | _ => None
  end.

(** [json.Unmarshal] into a nil slice of structs. *)
Definition read_slice {A} (zero : A) (set : A -> string -> tree -> option A) (data : string) : option (list A) :=
  t ← parse_text data; into_slice (into_struct set zero) [] t.

(** ** Results *)

Definition RequiresAnalyzer : string := "requires".
Definition RelationshipAnalyzer : string := "relationship".
Definition SemanticMatchContributionTypeKey : string := "contribution_type".
Definition SemanticMatchUnanimousKey : string := "unanimous".

Record RequiresResult := mkRequires {
  rq_SourceID : string;
  rq_TargetID : string;
  rq_Confidence : float64;
  rq_Unanimous : bool;
  rq_ValidVotes : Z;
  rq_TotalVotes : Z;
  rq_Models : list string;
}.

Definition requires_set (r : RequiresResult) (key : string) (t : tree) : option RequiresResult :=
  let '(mkRequires s g c u v n m) := r in
  if is_field "source_id" key then (fun x => mkRequires x g c u v n m) <$> into_string s t
  else if is_field "target_id" key then (fun x => mkRequires s x c u v n m) <$> into_string g t
  else if is_field "confidence" key then (fun x => mkRequires s g x u v n m) <$> into_float c t
  else if is_field "unanimous" key then (fun x => mkRequires s g c x v n m) <$> into_bool u t
  else if is_field "valid_votes" key then (fun x => mkRequires s g c u x n m) <$> into_int v t
  else if is_field "total_votes" key then (fun x => mkRequires s g c u v x m) <$> into_int n t
  else if is_field "models" key then (fun x => mkRequires s g c u v n x) <$> into_slice (into_string "") m t
  else Some r.

Definition read_requires : string -> option (list RequiresResult) :=
  read_slice (mkRequires "" "" fzero false 0 0 []) requires_set.

Record SemanticMatchResult := mkMatch {
  sm_SourceID : string;
  sm_TargetID : string;
  sm_RelationshipType : string;
  sm_Confidence : float64;
  sm_Properties : gmap string string;
}.

Definition match_set (r : SemanticMatchResult) (key : string) (t : tree) : option SemanticMatchResult :=
  let '(mkMatch s g ty c p) := r in
  if is_field "source_id" key then (fun x => mkMatch x g ty c p) <$> into_string s t
  else if is_field "target_id" key then (fun x => mkMatch s x ty c p) <$> into_string g t
  else if is_field "relationship_type" key then (fun x => mkMatch s g x c p) <$> into_string ty t
  else if is_field "confidence" key then (fun x => mkMatch s g ty x p) <$> into_float c t
  else if is_field "properties" key then (fun x => mkMatch s g ty c x) <$> into_strings p t
  else Some r.

Definition read_matches : string -> option (list SemanticMatchResult) :=
  read_slice (mkMatch "" "" "" fzero ∅) match_set.

Record ClassifyResult := mkClassify { cl_ControlID : string; cl_Type : string; cl_Level : string }.

Definition classify_set (r : ClassifyResult) (key : string) (t : tree) : option ClassifyResult :=
  let '(mkClassify c ty l) := r in
  if is_field "control_id" key then (fun x => mkClassify x ty l) <$> into_string c t
  else if is_field "type" key then (fun x => mkClassify c x l) <$> into_string ty t
  else if is_field "level" key then (fun x => mkClassify c ty x) <$> into_string l t
  else Some r.

Definition read_classified : string -> option (list ClassifyResult) := read_slice (mkClassify "" "" "") classify_set.

(** The results of one analyzer; none without an output. *)
Definition results_of {A} (read : string -> option (list A)) (data : option string) : option (list A) :=
  match data with
  | None => Some []
  | Some data => if bool_decide (data = "") then Some [] else read data
  end.

(** ** Vote summaries *)

Definition ConsensusRequires : string := "requires".

(** A decode error of [encoding/json]; its text is not kept. *)
Definition json_error : goerr := Plain "json".

Definition vote_key (p : VoteSummaryPair) : string * string * string := (vp_SourceID p, vp_TargetID p, vp_Analyzer p).

Definition duplicate_pair (p : VoteSummaryPair) : goerr :=
  Plain ("buildVoteSummaryPairs: " +:+ vp_Analyzer p +:+ " results list pair " +:+ vp_SourceID p +:+ "--" +:+ vp_TargetID p
    +:+ " more than once, so the persisted analysis result is corrupt. "
    +:+ "Synthesis cannot rank a pair twice; create a new job to re-run the analysis instead of resuming this one").

Fixpoint add_pairs (seen : gset (string * string * string)) (pairs new : list VoteSummaryPair)
  : result goerr (gset (string * string * string) * list VoteSummaryPair) :=
  match new with
  | [] => Ok (seen, pairs)
  | p :: rest =>
      if bool_decide (vote_key p ∈ seen) then Err (duplicate_pair p)
      else add_pairs ({[vote_key p]} ∪ seen) (pairs ++ [p]) rest
  end.

Definition requires_pair (r : RequiresResult) : VoteSummaryPair :=
  mkPair (rq_SourceID r) (rq_TargetID r) RequiresAnalyzer ConsensusRequires (rq_Confidence r).
Definition match_pair (r : SemanticMatchResult) : VoteSummaryPair :=
  mkPair (sm_SourceID r) (sm_TargetID r) RelationshipAnalyzer (sm_RelationshipType r) (sm_Confidence r).

(** [outputs] is the result data of each analyzer. *)
Definition buildVoteSummaryPairs (outputs : gmap string string) : result goerr (list VoteSummaryPair) :=
  match results_of read_requires (outputs !! RequiresAnalyzer) with
  | None => Err (Wrap "buildVoteSummaryPairs: unmarshaling requires results" [json_error])
  | Some reqs =>
      match add_pairs ∅ [] (requires_pair <$> reqs) with
      | Err e => Err e
      | Ok (seen, pairs) =>
          match results_of read_matches (outputs !! RelationshipAnalyzer) with
          | None => Err (Wrap "buildVoteSummaryPairs: unmarshaling relationship results" [json_error])
          | Some rels =>
              match add_pairs seen pairs (match_pair <$> rels) with
              | Err e => Err e
              | Ok (_, pairs) => Ok pairs
              end
          end
      end
  end.

(** ** Synthesis inputs *)

Record Classification := mkClassification { cn_Type : string; cn_Level : string }.

Record SynthesisInput := mkInput {
  in_SourceID : string;
  in_TargetID : string;
  SimilarityScore : float64;
  SimilarityMedian : float64;
  SimilarityVar : float64;
  SimilarityCount : Z;
  in_ConsensusRelationship : string;
  in_Analyzer : string;
  in_ContributionType : string;
  in_ConfidenceFraction : float64;
  in_Unanimous : bool;
}.

(** Every value is a float32's. *)
Record similarityMatrix := mkMatrix { IDs : list string; Values : list (list float64) }.

(** gonum's [stat.Mean] and [stat.Variance], unweighted. *)
Class Stats := { stat_Mean : list float64 -> float64; stat_Variance : list float64 -> float64 }.

(** [sort.Float64s] puts NaN first. *)
Definition float_less (a b : float64) : bool := fltb a b || (is_nan a && negb (is_nan b)).

Section inputs.
Context `{GoQuote} `{Stats} `{R : GoRuntime}.

Definition conventionalMedian (sorted : list float64) : float64 :=
  let n := length sorted in
  if Nat.odd n then default NaN (sorted !! (n / 2)%nat)
  else ((default NaN (sorted !! (n / 2 - 1)%nat) + default NaN (sorted !! (n / 2)%nat)) / fof_Z 2)%float.

(** The last index of a control in a matrix. *)
Definition matrix_index (m : similarityMatrix) : gmap string nat :=
  list_to_map (reverse (zip (IDs m) (seq 0 (length (IDs m))))).

(** The similarities of a pair, by model name; [None] is an index out of
    range. *)
Fixpoint pair_values (models : list (string * similarityMatrix)) (src tgt : string) : option (list float64) :=
  match models with
  | [] => Some []
  | (_, m) :: rest =>
      match matrix_index m !! src, matrix_index m !! tgt with
      | Some si, Some ti => row ← Values m !! si; v ← row !! ti; vs ← pair_values rest src tgt; Some (v :: vs)
      | _, _ => pair_values rest src tgt
      end
  end.

Definition model_order (similarityByModel : gmap string similarityMatrix) : list (string * similarityMatrix) :=
  omap (fun name => m ← similarityByModel !! name; Some (name, m)) (sort_strings (map_range 0 similarityByModel).*1).

Definition similarityStats (models : list (string * similarityMatrix)) (src tgt : string)
  : option (float64 * float64 * float64 * Z) :=
  values ← pair_values models src tgt;
  if bool_decide (values = []) then Some (fzero, fzero, fzero, 0)
  else
    let sorted := slice_sort float_less values in
    Some (stat_Mean values, conventionalMedian sorted, if (1 <? length values)%nat then stat_Variance values else fzero,
          Z.of_nat (length values)).

(** [relationship.ParseContributionType(s).String()]. *)
Definition canonical_contribution (s : string) : string :=
  if bool_decide (s = "INTEGRAL_TO" \/ s = "EXAMPLE_OF") then s else "".

(** [strconv.ParseBool]. *)
Definition ParseBool (s : string) : option bool :=
  if bool_decide (s ∈ ["1"; "t"; "T"; "true"; "TRUE"; "True"]) then Some true
  else if bool_decide (s ∈ ["0"; "f"; "F"; "false"; "FALSE"; "False"]) then Some false
  else None.

Definition corrupt_result (r : SemanticMatchResult) (what : string) : goerr :=
  Plain ("buildSynthesisInputs: relationship result for pair " +:+ sm_SourceID r +:+ "--" +:+ sm_TargetID r +:+ " " +:+ what
    +:+ ", so the persisted analysis result is corrupt. "
    +:+ "Synthesis cannot weight the pair without it; create a new job to re-run the analysis instead of resuming this one").

Definition relationshipProperties (r : SemanticMatchResult) : result goerr (string * bool) :=
  match sm_Properties r !! SemanticMatchContributionTypeKey with
  | None => Err (corrupt_result r ("has no " +:+ go_quote SemanticMatchContributionTypeKey +:+ " property"))
  | Some contributionType =>
      if negb (bool_decide (canonical_contribution contributionType = contributionType))
      then Err (corrupt_result r ("has unknown " +:+ go_quote SemanticMatchContributionTypeKey +:+ " " +:+ go_quote contributionType
             +:+ " (want " +:+ go_quote "INTEGRAL_TO" +:+ ", " +:+ go_quote "EXAMPLE_OF" +:+ " or empty)"))
      else
        match sm_Properties r !! SemanticMatchUnanimousKey with
        | None => Err (corrupt_result r ("has no " +:+ go_quote SemanticMatchUnanimousKey +:+ " property"))
        | Some raw =>
            match ParseBool raw with
            | None => Err (corrupt_result r ("has non-boolean " +:+ go_quote SemanticMatchUnanimousKey +:+ " " +:+ go_quote raw))
            | Some unanimous => Ok (contributionType, unanimous)
            end
        end
  end.

(** [None] is a panic. *)
Fixpoint requires_inputs (models : list (string * similarityMatrix)) (rs : list RequiresResult) : option (list SynthesisInput) :=
  match rs with
  | [] => Some []
  | r :: rest =>
      '(mean, median, variance, count) ← similarityStats models (rq_SourceID r) (rq_TargetID r);
      inputs ← requires_inputs models rest;
      Some (mkInput (rq_SourceID r) (rq_TargetID r) mean median variance count ConsensusRequires RequiresAnalyzer ""
              (rq_Confidence r) (rq_Unanimous r) :: inputs)
  end.

Fixpoint match_inputs (models : list (string * similarityMatrix)) (rs : list SemanticMatchResult)
  : option (result goerr (list SynthesisInput)) :=
  match rs with
  | [] => Some (Ok [])
  | r :: rest =>
      match relationshipProperties r with
      | Err e => Some (Err e)
      | Ok (contributionType, unanimous) =>
          '(mean, median, variance, count) ← similarityStats models (sm_SourceID r) (sm_TargetID r);
          inputs ← match_inputs models rest;
          Some (match inputs with
                | Err e => Err e
                | Ok inputs =>
                    Ok (mkInput (sm_SourceID r) (sm_TargetID r) mean median variance count (sm_RelationshipType r)
                          RelationshipAnalyzer contributionType (sm_Confidence r) unanimous :: inputs)
                end)
      end
  end.

Definition classifications_of (rs : list ClassifyResult) : gmap string Classification :=
  foldl (fun m c => <[cl_ControlID c := mkClassification (cl_Type c) (cl_Level c)]> m) ∅ rs.

Definition buildSynthesisInputs (classifyResults : list ClassifyResult) (requiresResults : list RequiresResult)
    (relResults : list SemanticMatchResult) (similarityByModel : gmap string similarityMatrix)
  : option (result goerr (list SynthesisInput * gmap string Classification)) :=
  let models := model_order similarityByModel in
  reqs ← requires_inputs models requiresResults;
  rels ← match_inputs models relResults;
  Some (match rels with
        | Err e => Err e
        | Ok rels => Ok (reqs ++ rels, classifications_of classifyResults)
        end).
End inputs.

(** ** Parameters of the pair analyzers *)

(** The fields of [*pb.Control] the pipeline reads. *)
Record Control := mkControl {
  ControlId : string;
  ct_CatalogId : string;
  Statement : string;
  Parts : gmap string string;
}.

Definition both_ends (key id value : string) (params : gmap string string) : gmap string string :=
  <["target_" +:+ key +:+ id := value]> (<["source_" +:+ key +:+ id := value]> params).

Definition control_params (frameworks : gmap string string) (params : gmap string string) (c : Control) : gmap string string :=
  let id := ControlId c in
  both_ends "framework_" id (default "" (frameworks !! ct_CatalogId c))
    (both_ends "ancestor_" id (default "" (Parts c !! "ancestor_title"))
      (both_ends "text_" id (Statement c) params)).

Definition classify_params (params : gmap string string) (r : ClassifyResult) : gmap string string :=
  both_ends "level_" (cl_ControlID r) (cl_Level r) (both_ends "type_" (cl_ControlID r) (cl_Type r) params).

Definition pairAnalyzerParameters (jobID : string) (controls : list Control) (frameworks : gmap string string)
    (classify : option string) : result goerr (gmap string string) :=
  let params := foldl (control_params frameworks) {["job_id" := jobID]} controls in
  match results_of read_classified classify with
  | None => Err (Wrap "reading classify results for pair analyzers" [json_error])
  | Some classified => Ok (foldl classify_params params classified)
  end.
