(* ===== verification/Synthesis.v ===== *)
(** Synthesis: [internal/synthesis] (viability.go, ranker.go, assessor.go,
    types.go, service.go) and its configuration ([pkg/config/types.go]).

    [Execute] validates the inputs, ranks them, filters and caps the rows,
    assesses them and writes every row's viability back to its vote summary in
    one transaction on the tables of [Jobstore]. Arithmetic is float64, each
    operation rounded on its own as on amd64. The protobuf encoding whose hash
    identifies a report is a library's ([MetricsEncoding]). Telemetry and the
    texts of errors are left out; a connection never fails here. *)

From stdpp Require Import pretty.
From S2P Require Import Prelude Float64 Floatfmt Gostrings Tenant Sha256 Errors Jobconfig Joberr Jobstore Results.
Local Open Scope Z_scope.

(** * Definitions *)

(** ** Configuration *)

Record ViabilityConfig := mkViability { TypeMismatchFactor : float64; SkipLevelFactor : float64; IntegralToFactor : float64 }.

Record AssessmentConfig := mkAssessment {
  IQRGood : float64;
  IQRPoor : float64;
  NoRelHigh : float64;
  NoRelLow : float64;
  ContestedWarn : float64;
  ActionableWarn : float64;
}.

(** A nil field inherits. *)
Record SynthesisOverride := mkOverride {
  ov_ConfidenceThreshold : option float64;
  ov_MaxMappingsPerControl : option Z;
  ov_Viability : option ViabilityConfig;
  ov_Assessment : option AssessmentConfig;
}.

Record SynthesisTenantConfig := mkTenantConfig {
  Viability : ViabilityConfig;
  Assessment : AssessmentConfig;
  ConfidenceThreshold : float64;
  MaxMappingsPerControl : Z;
}.

(** The global values, and the overrides by tenant. *)
Record SynthesisConfig := mkSynthesis { sy_Global : SynthesisTenantConfig; TenantOverrides : gmap string SynthesisOverride }.

Definition ForTenant (c : SynthesisConfig) (tenantID : string) : SynthesisTenantConfig :=
  let g := sy_Global c in
  match TenantOverrides c !! tenantID with
  | None => g
  | Some o =>
      mkTenantConfig (default (Viability g) (ov_Viability o)) (default (Assessment g) (ov_Assessment o))
        (default (ConfidenceThreshold g) (ov_ConfidenceThreshold o)) (default (MaxMappingsPerControl g) (ov_MaxMappingsPerControl o))
  end.

(** ** Rows *)

Record SynthesisRow := mkRow {
  rw_JobID : string;
  rw_SourceID : string;
  rw_TargetID : string;
  SimilarityMean : float64;
  rw_SimilarityMedian : float64;
  rw_SimilarityVar : float64;
  rw_SimilarityCount : Z;
  SourceType : string;
  TargetType : string;
  SourceLevel : string;
  TargetLevel : string;
  ConsensusRelationship : string;
  ConfidenceFraction : float64;
  Unanimous : bool;
  rw_Analyzer : string;
  ContributionType : string;
  ViabilityWeight : float64;
}.

Definition GetType (c : Classification) : string := if bool_decide (cn_Type c = "") then "Unknown" else cn_Type c.
Definition GetLevel (c : Classification) : string := if bool_decide (cn_Level c = "") then "Tactical" else cn_Level c.

(** ** Viability *)

Definition abstractionIndex (level : string) : Z :=
  if bool_decide (level = "Strategic") then 0
  else if bool_decide (level = "Tactical") then 1
  else if bool_decide (level = "Operational") then 2
  else 1.

Definition typeFactor (srcType tgtType : string) (cfg : ViabilityConfig) : float64 :=
  if bool_decide (srcType = tgtType \/ srcType = "Both" \/ tgtType = "Both") then fone
  else if bool_decide (srcType = "Unknown" \/ tgtType = "Unknown" \/ srcType = "None" \/ tgtType = "None") then fconst 9 10
  else TypeMismatchFactor cfg.

Definition levelFactor (srcLevel tgtLevel : string) (cfg : ViabilityConfig) : float64 :=
  if Z.abs (abstractionIndex srcLevel - abstractionIndex tgtLevel) <=? 1 then fone else SkipLevelFactor cfg.

(** [math.Round]: to the nearest integer, halves away from zero. *)
Definition math_Round (x : float64) : float64 :=
  match x with Fin s m => Fin s ((2 * m + one_mag) / (2 * one_mag) * one_mag) | _ => x end.

Definition round2 (x : float64) : float64 := (math_Round (x * fof_Z 100) / fof_Z 100)%float.

Definition ComputeViability (score : float64) (srcType tgtType srcLevel tgtLevel : string) (cfg : ViabilityConfig) : float64 :=
  round2 (score * typeFactor srcType tgtType cfg * levelFactor srcLevel tgtLevel cfg)%float.

Definition ComputeViabilityWeight (score : float64) (srcType tgtType srcLevel tgtLevel contribType : string) (cfg : ViabilityConfig)
  : float64 :=
  let viability := ComputeViability score srcType tgtType srcLevel tgtLevel cfg in
  let factor := if bool_decide (contribType = "INTEGRAL_TO") then IntegralToFactor cfg else fone in
  round2 (viability * factor)%float.

(** ** Ranking *)

Definition lookupClassification (m : gmap string Classification) (id : string) : Classification :=
  default (mkClassification "" "") (m !! id).

Definition rank_row (cfg : ViabilityConfig) (jobID : string) (classifications : gmap string Classification) (i : SynthesisInput)
  : SynthesisRow :=
  let src := lookupClassification classifications (in_SourceID i) in
  let tgt := lookupClassification classifications (in_TargetID i) in
  mkRow jobID (in_SourceID i) (in_TargetID i) (SimilarityScore i) (SimilarityMedian i) (SimilarityVar i) (SimilarityCount i)
    (GetType src) (GetType tgt) (GetLevel src) (GetLevel tgt) (in_ConsensusRelationship i) (in_ConfidenceFraction i)
    (in_Unanimous i) (in_Analyzer i) (in_ContributionType i)
    (ComputeViabilityWeight (SimilarityScore i) (GetType src) (GetType tgt) (GetLevel src) (GetLevel tgt) (in_ContributionType i) cfg).

Definition Rank (cfg : ViabilityConfig) (jobID : string) (inputs : list SynthesisInput) (classifications : gmap string Classification)
  : list SynthesisRow := rank_row cfg jobID classifications <$> inputs.

(** ** Filtering and capping *)

Definition filterByConfidence (rows : list SynthesisRow) (threshold : float64) : list SynthesisRow :=
  filter (fun r => fleb threshold (ConfidenceFraction r) = true) rows.

Definition weight_greater (a b : SynthesisRow) : bool := fltb (ViabilityWeight b) (ViabilityWeight a).

Definition of_source (src : string) (rows : list SynthesisRow) : list SynthesisRow :=
  filter (fun r => rw_SourceID r = src) rows.

(** The sources in order of first occurrence. *)
Fixpoint sources (seen : list string) (rows : list SynthesisRow) : list string :=
  match rows with
  | [] => []
  | r :: rest =>
      if bool_decide (rw_SourceID r ∈ seen) then sources seen rest
      else rw_SourceID r :: sources (rw_SourceID r :: seen) rest
  end.

Section service.
Context `{R : GoRuntime}.

Definition cap_group (maxPerSource : Z) (group : list SynthesisRow) : list SynthesisRow :=
  if maxPerSource <? Z.of_nat (length group) then take (Z.to_nat maxPerSource) (slice_sort weight_greater group) else group.

Definition capMappingsPerSource (rows : list SynthesisRow) (maxPerSource : Z) : list SynthesisRow :=
  if maxPerSource <=? 0 then rows
  else sources [] rows ≫= fun src => cap_group maxPerSource (of_source src rows).

(** ** Assessment *)

Inductive DiagnosticSeverity := SeverityGood | SeverityWarn | SeverityPoor | SeverityCritical.

Record Diagnostic := mkDiagnostic { Category : string; Severity : DiagnosticSeverity; Message : string; Value : float64 }.

Record QualityReport := mkReport {
  TotalPairs : Z;
  ViablePairs : Z;
  AvgConfidence : float64;
  AvgViability : float64;
  RelationshipCounts : gmap string Z;
  Diagnostics : list Diagnostic;
}.

(** [%.<prec>f]. *)
Definition fmt_fixed (prec : nat) (x : float64) : string :=
  match x with
  | NaN => "NaN"
  | Inf neg => if neg then "-Inf" else "+Inf"
  | Fin neg m =>
      let n := rne (m * 10 ^ Z.of_nat prec) one_mag in
      let digits := pretty n in
      let digits := zeros (S prec - String.length digits) +:+ digits in
      let k := (String.length digits - prec)%nat in
      signed neg (String.substring 0 k digits +:+ "." +:+ String.substring k prec digits)
  end.

Definition pct_text (rate : float64) : string := fmt_fixed 1 (rate * fof_Z 100)%float +:+ "%".

(** [None] is a panic. An index outside [int] is not modelled: the only [p]s are
    1/4 and 3/4. *)
Definition percentile (sorted : list float64) (p : float64) : option float64 :=
  let n := length sorted in
  if bool_decide (n = 0%nat) then Some fzero
  else if bool_decide (n = 1%nat) then sorted !! 0%nat
  else
    let idx := (p * fof_Z (Z.of_nat n - 1))%float in
    lo ← fto_int idx;
    let hi := lo + 1 in
    if Z.of_nat n <=? hi then sorted !! (n - 1)%nat
    else
      let frac := (idx - fof_Z lo)%float in
      if lo <? 0 then None
      else
        a ← sorted !! Z.to_nat lo;
        b ← sorted !! Z.to_nat hi;
        Some (a + frac * (b - a))%float.

Definition diagnoseIQR (cfg : AssessmentConfig) (rows : list SynthesisRow) : option Diagnostic :=
  let n := length rows in
  if (n <? 4)%nat
  then Some (mkDiagnostic "embedding_spread" SeverityWarn ("insufficient data for IQR (n=" +:+ pretty (Z.of_nat n) +:+ ")") fzero)
  else
    let vals := slice_sort float_less (SimilarityMean <$> rows) in
    q3 ← percentile vals (fconst 3 4);
    q1 ← percentile vals (fconst 1 4);
    let iqr := (q3 - q1)%float in
    let '(severity, msg) :=
      if fleb (IQRGood cfg) iqr then (SeverityGood, "good embedding discrimination (IQR=" +:+ fmt_fixed 2 iqr +:+ ")")
      else if fltb iqr (IQRPoor cfg) then (SeverityPoor, "diluted averaged matrix (IQR=" +:+ fmt_fixed 2 iqr +:+ ")")
      else (SeverityWarn, "moderate embedding spread (IQR=" +:+ fmt_fixed 2 iqr +:+ ")") in
    Some (mkDiagnostic "embedding_spread" severity msg iqr).

Definition diagnoseNoRelRate (cfg : AssessmentConfig) (noRelCount total : Z) : Diagnostic :=
  let rate := (fof_Z noRelCount / fof_Z total)%float in
  let '(severity, msg) :=
    if fltb (NoRelHigh cfg) rate
    then (SeverityPoor, "candidate top_k may be too high: " +:+ pct_text rate
            +:+ " of pairs had NO_RELATIONSHIP; lower analysis.candidates.generators[].config.top_k")
    else if fltb rate (NoRelLow cfg)
    then (SeverityWarn, "candidate top_k may be too low: " +:+ pct_text rate
            +:+ " of pairs had NO_RELATIONSHIP; raise analysis.candidates.generators[].config.top_k")
    else (SeverityGood, "NO_RELATIONSHIP rate " +:+ pct_text rate +:+ " within expected range") in
  mkDiagnostic "no_relationship_rate" severity msg rate.

Definition diagnoseContested (cfg : AssessmentConfig) (contestedCount total : Z) : Diagnostic :=
  let fraction := (fof_Z contestedCount / fof_Z total)%float in
  let '(severity, msg) :=
    if fltb (ContestedWarn cfg) fraction then (SeverityWarn, pct_text fraction +:+ " of pairs contested (non-unanimous)")
    else (SeverityGood, pct_text fraction +:+ " of pairs contested") in
  mkDiagnostic "contested_pairs" severity msg fraction.

(** [NewAssessor]: the configured types, and always [ConsensusRequires]. *)
Definition actionable (actionableTypes : list string) (relationship : string) : bool :=
  bool_decide (relationship ∈ actionableTypes \/ relationship = ConsensusRequires).

Definition viable (r : SynthesisRow) : bool := fltb fzero (ViabilityWeight r).

Definition distinct (l : list string) : Z := Z.of_nat (size (list_to_set l : gset string)).

Definition diagnoseActionableCoverage (cfg : AssessmentConfig) (actionableTypes : list string) (rows : list SynthesisRow) : Diagnostic :=
  let allSources := distinct (rw_SourceID <$> rows) in
  let covered := distinct (rw_SourceID <$> List.filter (fun r => actionable actionableTypes (ConsensusRelationship r) && viable r) rows) in
  let coverage := if 0 <? allSources then (fof_Z covered / fof_Z allSources)%float else fzero in
  let '(severity, msg) :=
    if fltb coverage (ActionableWarn cfg) then (SeverityWarn, "low actionable coverage: " +:+ pct_text coverage)
    else (SeverityGood, "actionable coverage: " +:+ pct_text coverage) in
  mkDiagnostic "actionable_coverage" severity msg coverage.

Definition count_of (f : SynthesisRow -> bool) (rows : list SynthesisRow) : Z := Z.of_nat (length (List.filter f rows)).

Definition relationship_counts (rows : list SynthesisRow) : gmap string Z :=
  foldl (fun m r => <[ConsensusRelationship r := default 0 (m !! ConsensusRelationship r) + 1]> m) ∅ rows.

Definition Assess (cfg : AssessmentConfig) (actionableTypes : list string) (rows : list SynthesisRow) : option QualityReport :=
  if bool_decide (length rows = 0%nat) then Some (mkReport 0 0 fzero fzero ∅ [])
  else
    let total := Z.of_nat (length rows) in
    let n := fof_Z total in
    iqr ← diagnoseIQR cfg rows;
    Some (mkReport total (count_of viable rows)
      (foldl (fun s r => s + ConfidenceFraction r) fzero rows / n)%float
      (foldl (fun s r => s + ViabilityWeight r) fzero rows / n)%float
      (relationship_counts rows)
      [iqr;
       diagnoseNoRelRate cfg (count_of (fun r => bool_decide (ConsensusRelationship r = "NO_RELATIONSHIP")) rows) total;
       diagnoseContested cfg (count_of (fun r => negb (Unanimous r)) rows) total;
       diagnoseActionableCoverage cfg actionableTypes rows]).

(** ** The service *)

Definition ErrInvalidInput : sentinel := "synthesis.ErrInvalidInput".
Definition ErrInvalidJobID : sentinel := "synthesis.ErrInvalidJobID".
Definition ErrDBUpdate : sentinel := "synthesis.ErrDBUpdate".
Definition ErrDBNoRowsAffected : sentinel := "synthesis.ErrDBNoRowsAffected".
Definition ErrImmutabilityViolation : sentinel := "synthesis.ErrImmutabilityViolation".

Definition maxInputs : Z := 10000.
Definition maxIDLen : nat := 256.

Definition finite (x : float64) : bool := match x with Fin _ _ => true | _ => false end.

Definition invalid_input (i : SynthesisInput) : bool :=
  bool_decide (in_SourceID i = "") || (maxIDLen <? String.length (in_SourceID i))%nat
  || bool_decide (in_TargetID i = "") || (maxIDLen <? String.length (in_TargetID i))%nat
  || negb (finite (SimilarityScore i)) || fltb (SimilarityScore i) fzero
  || fltb (in_ConfidenceFraction i) fzero || fltb fone (in_ConfidenceFraction i).

Definition validateInputs (inputs : list SynthesisInput) : failure :=
  if maxInputs <? Z.of_nat (length inputs) then Some [ErrInvalidInput]
  else if existsb invalid_input inputs then Some [ErrInvalidInput]
  else None.

(** The batch [UPDATE]: the vote summaries of the rows get their weights. *)
Definition row_key (jobID : string) (r : SynthesisRow) : string * string * string * string :=
  (jobID, rw_SourceID r, rw_TargetID r, rw_Analyzer r).

Definition matching (s : session) (jobID : string) (rows : list SynthesisRow) (k : string * string * string * string) (v : vote_row)
  : option SynthesisRow :=
  if bool_decide (vr_tenant v = se_tenant s) then List.find (fun r => bool_decide (row_key jobID r = k)) rows else None.

Definition set_viability (s : session) (jobID : string) (rows : list SynthesisRow) (k : string * string * string * string) (v : vote_row)
  : vote_row :=
  match matching s jobID rows k v with
  | Some r => mkVoteRow (vr_consensus v) (vr_confidence v) (ViabilityWeight r) (vr_tenant v)
  | None => v
  end.

Definition updated_keys (s : session) (jobID : string) (rows : list SynthesisRow) (d : db) : list (string * string * string * string) :=
  (List.filter (fun '(k, v) => bool_decide (is_Some (matching s jobID rows k v))) (map_to_list (vote_summaries d))).*1.

(** What the transaction's body finds: the trigger's refusal, or the rows. *)
Inductive update_outcome := Blocked | Updated (n : Z).

Definition update_viability (s : session) (jobID : string) (rows : list SynthesisRow) (d : db) : update_outcome * db :=
  let keys := updated_keys s jobID rows d in
  if negb (bool_decide (keys = [])) && parent_completed s d jobID then (Blocked, d)
  else
    (Updated (Z.of_nat (length keys)),
     set_votes d (map_imap (fun k v => Some (set_viability s jobID rows k v)) (vote_summaries d))).

Definition persistViability (ctx : context) (rows : list SynthesisRow) (jobID tenantID : string) (d : db) : result error Z * db :=
  match enter ctx tenantID d with
  | Err _ => (Err [ErrDBUpdate], d)
  | Ok s =>
      match update_viability s jobID rows d with
      | (Blocked, _) => (Err [ErrImmutabilityViolation], d)
      | (Updated n, d') =>
          if n <? Z.of_nat (length rows) then (Err [ErrDBNoRowsAffected], d) else (Ok n, d')
      end
  end.

(** The message whose encoding is hashed. *)
Definition to_int32 (n : Z) : Z := (n + 2 ^ 31) mod 2 ^ 32 - 2 ^ 31.

(** [float32(x)], as the float64 it denotes. *)
Definition to_float32 (x : float64) : float64 :=
  match x with
  | Fin s m =>
      let e := Z.max (1074 - 149) (Z.log2 m - 23) in
      let r := rne m (2 ^ e) * 2 ^ e in
      if 2 ^ (1074 + 128) <=? r then Inf s else Fin s r
  | _ => x
  end.

Definition goSeverityToProto (s : DiagnosticSeverity) : Z :=
  match s with SeverityGood => 1 | SeverityWarn => 2 | SeverityPoor => 3 | SeverityCritical => 4 end.

Record QualityMetrics := mkMetrics {
  TotalMappings : Z;
  ViableMappings : Z;
  pb_AvgConfidence : float64;
  pb_AvgViability : float64;
  RelationshipTypeCounts : gmap string Z;
  pb_Diagnostics : list (string * Z * string * float64);
  CorrelationId : string;
}.

Class MetricsEncoding := { marshal_metrics : QualityMetrics -> option string }.
Context `{MetricsEncoding}.

Definition metrics_of (report : QualityReport) (traceID : string) : QualityMetrics :=
  mkMetrics (to_int32 (TotalPairs report)) (to_int32 (ViablePairs report)) (to_float32 (AvgConfidence report))
    (to_float32 (AvgViability report)) (to_int32 <$> RelationshipCounts report)
    ((fun d => (Category d, goSeverityToProto (Severity d), Message d, Value d)) <$> Diagnostics report) traceID.

Definition computeContentHash (report : QualityReport) (traceID : string) : option string :=
  data ← marshal_metrics (metrics_of report traceID); Some (hex_sum data).

Record ExecuteResult := mkExecuted { Rows : list SynthesisRow; Report : QualityReport; ContentHash : string }.

(** The rows of a run, ranked, filtered and capped. *)
Definition kept_rows (cfg : SynthesisTenantConfig) (jobID : string) (inputs : list SynthesisInput)
    (classifications : gmap string Classification) : list SynthesisRow :=
  let rows := Rank (Viability cfg) jobID inputs classifications in
  let rows := if fltb fzero (ConfidenceThreshold cfg) then filterByConfidence rows (ConfidenceThreshold cfg) else rows in
  if 0 <? MaxMappingsPerControl cfg then capMappingsPerSource rows (MaxMappingsPerControl cfg) else rows.

(** [None] is a panic. *)
Definition Execute (cfg : SynthesisConfig) (actionableTypes : list string) (ctx : context) (traceID jobID : string)
    (inputs : list SynthesisInput) (classifications : gmap string Classification) (d : db)
  : option (result error ExecuteResult * db) :=
  match FromContext ctx with
  | Err _ => Some (Err [], d)
  | Ok tenantID =>
      if bool_decide (jobID = "") then Some (Err [ErrInvalidJobID], d)
      else
        match validateInputs inputs with
        | Some e => Some (Err e, d)
        | None =>
            let tenantCfg := ForTenant cfg tenantID in
            let rows := kept_rows tenantCfg jobID inputs classifications in
            report ← Assess (Assessment tenantCfg) actionableTypes rows;
            Some (match persistViability ctx rows jobID tenantID d with
                  | (Err e, d) => (Err e, d)
                  | (Ok _, d) =>
                      match computeContentHash report traceID with
                      | None => (Err [], d)
                      | Some hash => (Ok (mkExecuted rows report hash), d)
                      end
                  end)
        end
  end.
End service.
