(* ===== verification/SynthesisFacts.v ===== *)
(** What synthesis promises ([Synthesis]): viability weights are ordered as the
    scores are, capping keeps the best rows of every source, and the rows of a
    run find the vote summaries the run wrote ([Results], [Jobstore]). *)

From S2P Require Import Prelude Float64 Floatfmt Gostrings Tenant Sha256 Json Errors Jobconfig Joberr Jobstore Results Synthesis.
Local Open Scope Z_scope.

(** * Arithmetic *)

(** [x <= y] for values that are not NaN. *)
Definition fle (x y : float64) : bool :=
  match x, y with
  | NaN, _ | _, NaN => false
  | _, Inf false => true
  | Inf false, _ => false
  | Inf true, _ => true
  | Fin _ _, Inf true => false
  | Fin s m, Fin t p => sval s m <=? sval t p
  end.

Lemma fle_fleb x y : fle x y = fleb x y.
Proof.
  unfold fleb. destruct x as [|[]|[] m], y as [|[]|[] p]; try reflexivity; cbn;
    apply Bool.eq_true_iff_eq; rewrite orb_true_iff, Z.leb_le, Z.ltb_lt, Z.eqb_eq; lia.
Qed.

Lemma fle_nonneg_fin m p : fle (Fin false m) (Fin false p) = true <-> m <= p.
Proof. apply Z.leb_le. Qed.

Lemma fle_round n1 d1 n2 d2 :
  0 <= n1 -> 0 < d1 -> 0 <= n2 -> 0 < d2 -> n1 * d2 <= n2 * d1 ->
  fle (round false n1 d1) (round false n2 d2) = true.
Proof.
  intros. pose proof (round_mag_mono n1 d1 n2 d2). unfold round.
  destruct (Z.leb_spec overflow_mag (round_mag n1 d1)), (Z.leb_spec overflow_mag (round_mag n2 d2)); try reflexivity; [lia|].
  apply Z.leb_le. auto.
Qed.

(** A non-negative value below another one, both without NaN. *)
Definition below (x y : float64) : Prop := nonneg x = true /\ nonneg y = true /\ fle x y = true.

Lemma below_cases x y :
  below x y <-> (nonneg x = true /\ y = Inf false) \/ exists m p, x = Fin false m /\ y = Fin false p /\ 0 <= m <= p.
Proof.
  unfold below. split.
  - intros (Hx & Hy & Hle). destruct y as [|[]|[] p]; try done; [by left|]. destruct x as [|[]|[] m]; try done.
    right. exists m, p. apply Z.leb_le in Hx, Hy. apply fle_nonneg_fin in Hle. done.
  - intros [[Hx ->]|(m & p & -> & -> & ?)]; [split_and!; try done; by destruct x as [|[]|[]]|].
    split_and!; apply Z.leb_le; cbn; lia.
Qed.

Lemma below_mul x y c : 0 < c -> below x y -> below (x * Fin false c)%float (y * Fin false c)%float.
Proof.
  intros Hc [[Hx ->]|(m & p & -> & -> & Hm)]%below_cases.
  - apply below_cases. left. unfold fmul. rewrite (proj2 (Z.eqb_neq c 0)) by lia. split; [|done].
    destruct x as [|[]|[] m]; try done. apply Z.leb_le in Hx. apply nonneg_round; [nia|apply one_mag_pos].
  - pose proof one_mag_pos. unfold fmul. cbn [xorb].
    unfold below.
    split_and!; [apply nonneg_round; nia..|]. apply fle_round; try nia. repeat apply Z.mul_le_mono_nonneg_r; lia.
Qed.

Lemma below_div x y c : 0 < c -> below x y -> below (x / Fin false c)%float (y / Fin false c)%float.
Proof.
  intros Hc [[Hx ->]|(m & p & -> & -> & Hm)]%below_cases.
  - apply below_cases. left. split; [by apply nonneg_fdiv|done].
  - pose proof one_mag_pos. unfold fdiv. rewrite (proj2 (Z.eqb_neq c 0)) by lia. cbn [xorb].
    unfold below.
    split_and!; [apply nonneg_round; nia..|]. apply fle_round; try nia. repeat apply Z.mul_le_mono_nonneg_r; lia.
Qed.

Lemma below_Round x y : below x y -> below (math_Round x) (math_Round y).
Proof.
  pose proof one_mag_pos as H1.
  assert (forall m, 0 <= m -> 0 <= (2 * m + one_mag) / (2 * one_mag) * one_mag) as Hn.
  { intros m Hm. pose proof (Z.div_pos (2 * m + one_mag) (2 * one_mag) ltac:(lia) ltac:(lia)). nia. }
  intros [[Hx ->]|(m & p & -> & -> & Hm)]%below_cases; apply below_cases.
  - left. split; [|done]. destruct x as [|[]|[] m]; try done. apply Z.leb_le, Hn. by apply Z.leb_le.
  - right. eexists _, _. split; [reflexivity|]. split; [reflexivity|]. split; [apply Hn; lia|].
    pose proof (Z.div_le_mono (2 * m + one_mag) (2 * p + one_mag) (2 * one_mag)). nia.
Qed.

Lemma below_round2 x y : below x y -> below (round2 x) (round2 y).
Proof.
  intros Hxy. unfold round2. rewrite (fof_Z_exact 100) by lia. pose proof one_mag_pos.
  apply below_div; [lia|]. apply below_Round, below_mul; [lia|done].
Qed.

(** A factor the configuration accepts. *)
Definition factor_ok (f : float64) : bool := match f with Fin false m => 0 <? m | _ => false end.

Definition viability_ok (cfg : ViabilityConfig) : bool :=
  factor_ok (TypeMismatchFactor cfg) && factor_ok (SkipLevelFactor cfg) && factor_ok (IntegralToFactor cfg).

Lemma below_factor x y f : factor_ok f = true -> below x y -> below (x * f)%float (y * f)%float.
Proof. destruct f as [|[]|[] c]; try done. intros Hc%Z.ltb_lt. by apply below_mul. Qed.

Lemma fone_ok : factor_ok fone = true.
Proof. apply Z.ltb_lt, one_mag_pos. Qed.

Lemma typeFactor_ok s t cfg : viability_ok cfg = true -> factor_ok (typeFactor s t cfg) = true.
Proof.
  intros [[H1 _]%andb_prop _]%andb_prop. unfold typeFactor. destruct (bool_decide _); [apply fone_ok|].
  destruct (bool_decide _); [by vm_compute|done].
Qed.

Lemma levelFactor_ok s t cfg : viability_ok cfg = true -> factor_ok (levelFactor s t cfg) = true.
Proof. intros [[_ H1]%andb_prop _]%andb_prop. unfold levelFactor. destruct (_ <=? _); [apply fone_ok|done]. Qed.

(** Viability weights keep the order of the scores: under a configuration
    with positive factors, of two pairs whose types, levels and contribution
    type are the same the one with the higher similarity never gets the lower
    weight, through all six roundings, and every weight of a non-negative
    score is non-negative and never NaN. *)
Theorem viability_monotone cfg score score' srcType tgtType srcLevel tgtLevel contribType :
  viability_ok cfg = true -> nonneg score = true -> nonneg score' = true -> fleb score score' = true ->
  let w := ComputeViabilityWeight score srcType tgtType srcLevel tgtLevel contribType cfg in
  let w' := ComputeViabilityWeight score' srcType tgtType srcLevel tgtLevel contribType cfg in
  fleb w w' = true /\ nonneg w = true /\ nonneg w' = true.
Proof.
  intros Hcfg Hs Hs' Hle. rewrite <- fle_fleb in Hle.
  enough (below (ComputeViabilityWeight score srcType tgtType srcLevel tgtLevel contribType cfg)
            (ComputeViabilityWeight score' srcType tgtType srcLevel tgtLevel contribType cfg)) as (? & ? & ?).
  { cbv zeta. rewrite <- fle_fleb. done. }
  unfold ComputeViabilityWeight, ComputeViability. apply below_round2, below_factor.
  { destruct (bool_decide _); [by apply andb_prop in Hcfg as [_ ?]|apply fone_ok]. }
  apply below_round2, below_factor; [by apply levelFactor_ok|]. apply below_factor; [by apply typeFactor_ok|]. done.
Qed.

Lemma viability_monotone_witness :
  let cfg := mkViability (fconst 8 10) (fconst 7 10) (fconst 11 10) in
  let w := ComputeViabilityWeight (fof_Z 72) "Technical" "Policy" "Strategic" "Operational" "INTEGRAL_TO" cfg in
  let w' := ComputeViabilityWeight (fof_Z 91) "Technical" "Policy" "Strategic" "Operational" "INTEGRAL_TO" cfg in
  (fleb w w' = true /\ nonneg w = true /\ nonneg w' = true) /\ w = fconst 4435 100 /\ w' = fconst 5606 100.
Proof.
  split; [apply (viability_monotone (mkViability (fconst 8 10) (fconst 7 10) (fconst 11 10)) (fof_Z 72) (fof_Z 91)); by vm_compute|].
  split; by vm_compute.
Defined.

(** The weight is not within [0, score]: the default factor of INTEGRAL_TO is
    above one, and rounding to two places goes up. *)
Lemma weight_above_score :
  let cfg := mkViability (fconst 8 10) (fconst 7 10) (fconst 11 10) in
  ComputeViabilityWeight (fof_Z 80) "a" "a" "" "" "INTEGRAL_TO" cfg = fof_Z 88 /\
  ComputeViabilityWeight (fconst 5 1000) "a" "a" "" "" "" cfg = fconst 1 100.
Proof. split; by vm_compute. Qed.

(** * Capping *)

Lemma filter_none {A} (P : A -> Prop) `{!forall x, Decision (P x)} (l : list A) : (forall x, x ∈ l -> ~ P x) -> filter P l = [].
Proof.
  intros Hn. destruct (filter P l) as [|x r] eqn:E; [done|]. assert (x ∈ filter P l) as [Hp Hx]%list_elem_of_filter.
  { rewrite E. by left. }
  by destruct (Hn x Hx).
Qed.

Lemma source_order_elem seen rows src : src ∈ sources seen rows <-> src ∈ rw_SourceID <$> rows /\ src ∉ seen.
Proof.
  revert seen. induction rows as [|r rows IH]; intros seen; cbn [sources fmap list_fmap].
  { split; [by intros ?%not_elem_of_nil|by intros [?%not_elem_of_nil _]]. }
  rewrite elem_of_cons. case_bool_decide as Hs; rewrite ?elem_of_cons, IH, ?not_elem_of_cons; [naive_solver|].
  destruct (decide (src = rw_SourceID r)) as [->|]; naive_solver.
Qed.

Lemma source_order_NoDup seen rows : NoDup (sources seen rows).
Proof.
  revert seen. induction rows as [|r rows IH]; intros seen; cbn; [constructor|]. case_bool_decide; [done|].
  constructor; [|done]. rewrite source_order_elem, not_elem_of_cons. naive_solver.
Qed.

Definition weighed (r : SynthesisRow) : Prop := is_nan (ViabilityWeight r) = false.

Lemma weight_greater_sw rows : Forall weighed rows -> strict_weak weight_greater rows.
Proof.
  unfold weighed. rewrite Forall_forall. intros Hn. split; unfold weight_greater.
  - intros a Ha. apply fltb_key_false; auto. lia.
  - intros a b c Ha Hb Hc. rewrite !fltb_key by auto. lia.
  - intros a b c Ha Hb Hc. rewrite !fltb_key_false by auto. lia.
Qed.

Section cap.
Context `{R : GoRuntime}.

(** What is kept of one source's rows: as many as the cap allows, and none
    of the rows dropped outweighs one kept. *)
Lemma cap_group_best n group :
  0 < n -> Forall weighed group -> exists dropped,
    group ≡ₚ cap_group n group ++ dropped /\ length (cap_group n group) = Nat.min (Z.to_nat n) (length group) /\
    forall a b, a ∈ cap_group n group -> b ∈ dropped -> fltb (ViabilityWeight a) (ViabilityWeight b) = false.
Proof.
  intros Hn Hw. unfold cap_group. destruct (Z.ltb_spec n (Z.of_nat (length group))).
  - set (sorted := slice_sort weight_greater group). exists (drop (Z.to_nat n) sorted).
    pose proof (slice_sort_sorted weight_greater group (weight_greater_sw _ Hw)) as Hs. fold sorted in Hs.
    split_and!; [unfold sorted; by rewrite take_drop, slice_sort_perm| |].
    + rewrite length_take. unfold sorted. by rewrite slice_sort_perm.
    + intros a b (i & Ha & Hi)%elem_of_take (j & Hb)%list_elem_of_lookup. rewrite lookup_drop in Hb.
      by apply (StronglySorted_lookup _ _ i (Z.to_nat n + j) a b Hs ltac:(lia)).
  - exists []. rewrite app_nil_r. split_and!; [done|lia|]. intros a b _ Hb. by apply not_elem_of_nil in Hb.
Qed.

Lemma cap_group_elem n group r : r ∈ cap_group n group -> r ∈ group.
Proof.
  unfold cap_group. destruct (_ <? _); [|done]. intros (i & Hi & _)%elem_of_take.
  apply list_elem_of_lookup_2 in Hi. by rewrite slice_sort_perm in Hi.
Qed.

Lemma of_source_cap n rows src :
  0 < n -> of_source src (capMappingsPerSource rows n) = cap_group n (of_source src rows).
Proof.
  intros Hn. unfold capMappingsPerSource. rewrite (proj2 (Z.leb_gt _ _)) by done. unfold of_source at 1. rewrite filter_bind.
  assert (forall s, filter (fun r => rw_SourceID r = src) (cap_group n (of_source s rows)) =
    if decide (s = src) then cap_group n (of_source s rows) else []) as Hf.
  { intros s. destruct (decide (s = src)) as [->|Hne].
    - apply list_filter_all, Forall_forall. intros r Hr%cap_group_elem. unfold of_source in Hr. by apply list_elem_of_filter in Hr as [? _].
    - apply filter_none. intros r Hr%cap_group_elem. unfold of_source in Hr.
      apply list_elem_of_filter in Hr as [<- _]. done. }
  destruct (decide (src ∈ sources [] rows)) as [Hin|Hout].
  - rewrite (bind_single _ _ src (source_order_NoDup _ _) Hin), Hf; [by rewrite decide_True|].
    intros s _ Hne. by rewrite Hf, decide_False.
  - rewrite bind_none.
    + symmetry. assert (of_source src rows = []) as ->; [|unfold cap_group; cbn; by rewrite (proj2 (Z.ltb_ge _ _)) by lia].
      unfold of_source. apply filter_none. intros r Hr He. apply Hout. apply source_order_elem.
      split; [|apply not_elem_of_nil]. subst src. by apply list_elem_of_fmap_2.
    + intros s Hs. rewrite Hf, decide_False; [done|]. by intros ->.
Qed.

(** Capping keeps the best of every source: with a positive cap [n] and
    weights that are numbers, the rows kept of each source are the smaller of
    [n] and their number, are rows of that source, and none of those dropped
    has a greater weight than one kept, whatever [sort.Slice] does with
    equals. *)
Theorem capMappingsPerSource_keeps_best n rows :
  0 < n -> Forall weighed rows -> forall src, exists dropped,
    let kept := of_source src (capMappingsPerSource rows n) in
    of_source src rows ≡ₚ kept ++ dropped /\ length kept = Nat.min (Z.to_nat n) (length (of_source src rows)) /\
    forall a b, a ∈ kept -> b ∈ dropped -> fltb (ViabilityWeight a) (ViabilityWeight b) = false.
Proof.
  intros Hn Hw src. destruct (cap_group_best n (of_source src rows)) as (dropped & ?); [done| |].
  - apply Forall_forall. intros r [_ Hr]%list_elem_of_filter. revert r Hr. by apply Forall_forall.
  - exists dropped. cbv zeta. by rewrite of_source_cap.
Qed.
End cap.

Definition example_row (source target : string) (weight : Z) : SynthesisRow :=
  mkRow "j1" source target fzero fzero fzero 0 "" "" "" "" "SUPERSEDES" fone true "relationship" "" (fof_Z weight).

Lemma capMappingsPerSource_keeps_best_witness :
  let rows := [example_row "a" "1" 10; example_row "b" "1" 5; example_row "a" "2" 30; example_row "a" "3" 20] in
  (exists dropped,
    let kept := of_source "a" (@capMappingsPerSource forward_runtime rows 2) in
    of_source "a" rows ≡ₚ kept ++ dropped /\ length kept = Nat.min (Z.to_nat 2) (length (of_source "a" rows)) /\
    forall a b, a ∈ kept -> b ∈ dropped -> fltb (ViabilityWeight a) (ViabilityWeight b) = false) /\
  @capMappingsPerSource forward_runtime rows 2 = [example_row "a" "2" 30; example_row "a" "3" 20; example_row "b" "1" 5].
Proof.
  split; [|by vm_compute]. apply (@capMappingsPerSource_keeps_best forward_runtime); [lia|].
  repeat constructor; by vm_compute.
Defined.

(** * Assessment *)

Lemma quartile_index k n :
  0 <= k <= 3 -> 0 <= n <= 10000 -> fto_int (fconst k 4 * fof_Z n)%float = Some (k * n / 4).
Proof.
  intros Hk Hn. rewrite fof_Z_exact by lia. assert (Z.max 0 k = k) as Hm by lia.
  assert (fconst k 4 = Fin false (k * 2 ^ 1072)) as ->.
  { assert (k = 0 \/ k = 1 \/ k = 2 \/ k = 3) as [-> | [-> | [-> | ->]]] by lia; by vm_compute. }
  assert (one_mag = 4 * 2 ^ 1072) as H1 by reflexivity. pose proof (Z.pow_pos_nonneg 2 1072 ltac:(lia) ltac:(lia)) as H2.
  assert ((Fin false (k * 2 ^ 1072) * Fin false (n * one_mag))%float = Fin false (k * n * 2 ^ 1072)) as ->.
  { unfold fmul. cbn [xorb]. replace (k * 2 ^ 1072 * (n * one_mag)) with (k * n * 2 ^ 1072 * one_mag) by lia.
    apply round_exact; [apply one_mag_pos|apply representable_mul; nia|].
    apply Z.le_lt_trans with (30000 * 2 ^ 1072); [nia|by vm_compute]. }
  unfold fto_int. rewrite H1, Z.div_mul_cancel_r by lia. cbn [sval].
  pose proof (Z.div_pos (k * n) 4 ltac:(nia) ltac:(lia)). pose proof (Z.div_le_upper_bound (k * n) 4 30000 ltac:(lia) ltac:(nia)).
  rewrite (proj2 (Z.leb_le _ _)), (proj2 (Z.ltb_lt _ _)) by lia. done.
Qed.

Lemma percentile_total k vals :
  0 <= k <= 3 -> (4 <= length vals)%nat -> Z.of_nat (length vals) <= 10001 -> is_Some (percentile vals (fconst k 4)).
Proof.
  intros Hk Hl Hu. unfold percentile. rewrite !bool_decide_eq_false_2 by lia. rewrite quartile_index by lia. cbn.
  set (n := Z.of_nat (length vals)) in *. pose proof (Z.div_pos (k * (n - 1)) 4 ltac:(nia) ltac:(lia)).
  assert (k * (n - 1) / 4 < n - 1) by (apply Z.div_lt_upper_bound; nia).
  rewrite (proj2 (Z.leb_gt _ _)), (proj2 (Z.ltb_ge _ _)) by lia.
  destruct (lookup_lt_is_Some_2 vals (Z.to_nat (k * (n - 1) / 4))) as [a ->]; [lia|].
  destruct (lookup_lt_is_Some_2 vals (Z.to_nat (k * (n - 1) / 4 + 1))) as [b ->]; [lia|]. cbn. by eexists.
Qed.

Lemma Assess_total `{R : GoRuntime} cfg types rows : Z.of_nat (length rows) <= 10001 -> is_Some (Assess cfg types rows).
Proof.
  intros Hl. unfold Assess. case_bool_decide; [by eexists|].
  assert (is_Some (diagnoseIQR cfg rows)) as [iqr ->]; [|by eexists].
  unfold diagnoseIQR. destruct (Nat.ltb_spec (length rows) 4); [by eexists|]. set (vals := slice_sort _ _).
  assert (length vals = length rows) as Hv by (unfold vals; rewrite slice_sort_perm; by rewrite length_fmap).
  destruct (percentile_total 3 vals) as [q3 ->]; [lia..|]. destruct (percentile_total 1 vals) as [q1 ->]; [lia..|]. cbn.
  destruct (if fleb _ _ then _ else _). by eexists.
Qed.

(** * Rows and vote summaries *)

Lemma add_pairs_Ok seen pairs new seen' pairs' :
  add_pairs seen pairs new = Ok (seen', pairs') ->
  pairs' = pairs ++ new /\ NoDup (vote_key <$> new) /\ (forall p, p ∈ new -> vote_key p ∉ seen) /\
  forall k, k ∈ seen' <-> k ∈ vote_key <$> new \/ k ∈ seen.
Proof.
  revert seen pairs. induction new as [|p new IH]; intros seen pairs; cbn [add_pairs fmap list_fmap].
  - intros [= <- <-]. rewrite app_nil_r. split_and!; [done|constructor|by intros p ?%not_elem_of_nil|].
    intros k. split; [by right|by intros [?%not_elem_of_nil|]].
  - case_bool_decide as Hp; [done|]. intros (-> & Hnd & Hn & Hs)%IH. split_and!.
    + by rewrite <- app_assoc.
    + constructor; [|done]. intros (q & He & Hq)%list_elem_of_fmap. apply (Hn q Hq). rewrite <- He. set_solver.
    + intros q [->|Hq]%elem_of_cons; [done|]. specialize (Hn q Hq). set_solver.
    + intros k. rewrite Hs, elem_of_cons. set_solver.
Qed.

Lemma buildVoteSummaryPairs_Ok outputs pairs reqs rels :
  buildVoteSummaryPairs outputs = Ok pairs ->
  results_of read_requires (outputs !! RequiresAnalyzer) = Some reqs ->
  results_of read_matches (outputs !! RelationshipAnalyzer) = Some rels ->
  pairs = (requires_pair <$> reqs) ++ (match_pair <$> rels) /\ NoDup (vote_key <$> pairs).
Proof.
  unfold buildVoteSummaryPairs. intros Hb Hq Hr. rewrite Hq in Hb.
  destruct (add_pairs ∅ [] _) as [[seen ps]|] eqn:H1; [|done]. rewrite Hr in Hb.
  destruct (add_pairs seen ps _) as [[seen' ps']|] eqn:H2; [|done]. injection Hb as ->.
  apply add_pairs_Ok in H1 as (-> & Hn1 & _ & Hs). apply add_pairs_Ok in H2 as (-> & Hn2 & Hd & _). split; [done|].
  rewrite fmap_app. apply NoDup_app. split_and!; [done| |done].
  intros k Hk (p & -> & Hp)%list_elem_of_fmap. apply (Hd p Hp). apply Hs. by left.
Qed.

Definition input_key (i : SynthesisInput) : string * string * string := (in_SourceID i, in_TargetID i, in_Analyzer i).

Section inputs.
Context `{GoQuote} `{Stats} `{R : GoRuntime}.

Lemma requires_inputs_keys models rs inputs :
  requires_inputs models rs = Some inputs -> input_key <$> inputs = vote_key <$> (requires_pair <$> rs).
Proof.
  revert inputs. induction rs as [|r rs IH]; intros inputs; cbn; [by intros [= <-]|].
  destruct (similarityStats _ _ _) as [[[[mean median] var] count]|]; [|done]. cbn.
  destruct (requires_inputs models rs) as [rest|]; [|done]. intros [= <-]. cbn. by rewrite (IH rest).
Qed.

Lemma match_inputs_keys models rs inputs :
  match_inputs models rs = Some (Ok inputs) -> input_key <$> inputs = vote_key <$> (match_pair <$> rs).
Proof.
  revert inputs. induction rs as [|r rs IH]; intros inputs; cbn; [by intros [= <-]|].
  destruct (relationshipProperties r) as [[ty un]|]; [|done].
  destruct (similarityStats _ _ _) as [[[[mean median] var] count]|]; [|done]. cbn.
  destruct (match_inputs models rs) as [[rest|]|]; [|done..]. intros [= <-]. cbn. by rewrite (IH rest).
Qed.

Lemma buildSynthesisInputs_keys cls reqs rels sims inputs classes :
  buildSynthesisInputs cls reqs rels sims = Some (Ok (inputs, classes)) ->
  input_key <$> inputs = vote_key <$> ((requires_pair <$> reqs) ++ (match_pair <$> rels)).
Proof.
  unfold buildSynthesisInputs. destruct (requires_inputs _ _) as [qs|] eqn:Hq; [|done]. cbn.
  destruct (match_inputs _ _) as [[ms|]|] eqn:Hm; [|done..]. cbn. intros [= <- _].
  rewrite !fmap_app. by rewrite (requires_inputs_keys _ _ _ Hq), (match_inputs_keys _ _ _ Hm).
Qed.
End inputs.

(** Every pair has a row after the insertion, and the rows added are the session's. *)
Lemma insert_votes_Ok s j pairs d u d' :
  insert_votes s j pairs d = Ok (u, d') ->
  d' = set_votes d (vote_summaries d') /\
  (forall p, p ∈ pairs -> is_Some (vote_summaries d' !! (j, vp_SourceID p, vp_TargetID p, vp_Analyzer p))) /\
  (forall k v, vote_summaries d !! k = Some v -> vote_summaries d' !! k = Some v) /\
  (forall k v, vote_summaries d' !! k = Some v -> vote_summaries d !! k = Some v \/ vr_tenant v = se_tenant s).
Proof.
  revert d. induction pairs as [|p pairs IH]; intros d; cbn [insert_votes].
  { intros [= _ <-]. split_and!; [by destruct d|by intros p ?%not_elem_of_nil|done|by left]. }
  destruct (_ || _); [done|]. set (key := (j, vp_SourceID p, vp_TargetID p, vp_Analyzer p)).
  destruct (vote_summaries d !! key) as [v0|] eqn:Hv0; intros (He & Hp & Hold & Hnew)%IH.
  - split_and!; [done| |done|done]. intros q [->|Hq]%elem_of_cons; [|by apply Hp]. exists v0. by apply Hold.
  - cbn [vote_summaries set_votes] in Hold, Hnew. split_and!.
    + rewrite He at 1. done.
    + intros q [->|Hq]%elem_of_cons; [|by apply Hp]. eexists. apply Hold. by rewrite lookup_insert_eq.
    + intros k v Hk. apply Hold. rewrite lookup_insert_ne; [done|]. intros <-. congruence.
    + intros k v [Hk|Ht]%Hnew; [|by right]. destruct (decide (key = k)) as [<-|Hne].
      * rewrite lookup_insert_eq in Hk. injection Hk as <-. by right.
      * rewrite lookup_insert_ne in Hk by done. by left.
Qed.

Section rows.
Context `{R : GoRuntime}.

Lemma cap_elem n rows r : r ∈ capMappingsPerSource rows n -> r ∈ rows.
Proof.
  unfold capMappingsPerSource. destruct (_ <=? _); [done|]. intros (s & Hr%cap_group_elem & _)%list_elem_of_bind.
  unfold of_source in Hr. by apply list_elem_of_filter in Hr as [_ ?].
Qed.

Lemma cap_group_NoDup n group : NoDup group -> NoDup (cap_group n group).
Proof.
  unfold cap_group. destruct (_ <? _); [|done]. intros Hn. apply (sublist_NoDup _ (slice_sort weight_greater group)).
  - by rewrite slice_sort_perm.
  - apply sublist_take.
Qed.

Lemma cap_NoDup n rows : NoDup rows -> NoDup (capMappingsPerSource rows n).
Proof.
  intros Hn. unfold capMappingsPerSource. destruct (_ <=? _); [done|]. apply NoDup_bind; [| |apply source_order_NoDup].
  - intros s s' r _ _ Hr%cap_group_elem Hr'%cap_group_elem. unfold of_source in *.
    apply list_elem_of_filter in Hr as [<- _], Hr' as [<- _]. done.
  - intros s _. apply cap_group_NoDup. by apply NoDup_filter.
Qed.

(** The rows kept are rows of the ranking, each once. *)
Lemma kept_rows_sub cfg j inputs classes :
  NoDup (input_key <$> inputs) -> let rows := kept_rows cfg j inputs classes in
  NoDup (row_key j <$> rows) /\ (length rows <= length inputs)%nat /\
  forall r, r ∈ rows -> r ∈ Rank (Viability cfg) j inputs classes.
Proof.
  intros Hn. set (ranked := Rank (Viability cfg) j inputs classes).
  assert (NoDup (row_key j <$> ranked)) as Hk.
  { unfold ranked, Rank. rewrite <- list_fmap_compose.
    assert (row_key j ∘ rank_row (Viability cfg) j classes <$> inputs =
      (fun k : string * string * string => (j, k.1.1, k.1.2, k.2)) <$> (input_key <$> inputs)) as ->.
    { rewrite <- list_fmap_compose. apply list_fmap_ext. by intros _ i _. }
    apply NoDup_fmap_2; [|done]. by intros [[a b] c] [[a' b'] c'] [= -> -> ->]. }
  assert (NoDup ranked) as Hr by by eapply NoDup_fmap_1.
  set (filtered := if fltb fzero (ConfidenceThreshold cfg) then filterByConfidence ranked (ConfidenceThreshold cfg) else ranked).
  assert (NoDup filtered /\ forall r, r ∈ filtered -> r ∈ ranked) as [Hf Hsub].
  { unfold filtered, filterByConfidence. destruct (fltb _ _); [|done]. split; [by apply NoDup_filter|].
    by intros r [_ ?]%list_elem_of_filter. }
  assert (NoDup (kept_rows cfg j inputs classes) /\ forall r, r ∈ kept_rows cfg j inputs classes -> r ∈ ranked) as [Hn' Hsub'].
  { unfold kept_rows. fold ranked. fold filtered. destruct (_ <? _); [|done]. split; [by apply cap_NoDup|].
    intros r ?%cap_elem. by apply Hsub. }
  split_and!; [|by trans (length ranked); [apply submseteq_length, NoDup_submseteq|unfold ranked, Rank; rewrite length_fmap]|done].
  apply NoDup_fmap_2_strong; [|done]. intros r r' Hin Hin' He. by eapply (NoDup_fmap_inj (row_key j)); [exact Hk|auto..].
Qed.
End rows.

(** * Persisting viability *)

Lemma matching_Some s j rows k v :
  is_Some (matching s j rows k v) <-> vr_tenant v = se_tenant s /\ k ∈ row_key j <$> rows.
Proof.
  unfold matching. case_bool_decide as Ht; [|split; [by intros [? ?]|by intros [? _]]]. split.
  - intros [r Hr]. apply List.find_some in Hr as [Hin%list_elem_of_In He%bool_decide_eq_true]. split; [done|].
    subst k. by apply list_elem_of_fmap_2.
  - intros [_ (r & -> & Hr%list_elem_of_In)%list_elem_of_fmap].
    destruct (List.find _ rows) as [r'|] eqn:E; [by eexists|]. pose proof (List.find_none _ _ E r Hr) as Hx. cbn in Hx.
    by rewrite bool_decide_eq_true_2 in Hx.
Qed.

Lemma matching_unique s j rows r v :
  NoDup (row_key j <$> rows) -> r ∈ rows -> vr_tenant v = se_tenant s -> matching s j rows (row_key j r) v = Some r.
Proof.
  intros Hn Hr Ht. assert (is_Some (matching s j rows (row_key j r) v)) as [r' Hm].
  { apply matching_Some. split; [done|]. by apply list_elem_of_fmap_2. }
  rewrite Hm. f_equal. unfold matching in Hm. rewrite bool_decide_eq_true_2 in Hm by done.
  apply List.find_some in Hm as [Hin%list_elem_of_In He%bool_decide_eq_true]. by apply (NoDup_fmap_inj (row_key j) rows).
Qed.

Lemma updated_keys_elem s j rows d k :
  k ∈ updated_keys s j rows d <-> exists v, vote_summaries d !! k = Some v /\ is_Some (matching s j rows k v).
Proof.
  unfold updated_keys. rewrite list_elem_of_fmap. split.
  - intros ([k' v] & -> & Hin%list_elem_of_In). apply List.filter_In in Hin as [Hin%list_elem_of_In Hm%bool_decide_eq_true].
    apply elem_of_map_to_list in Hin. cbn. by exists v.
  - intros (v & Hv & Hm). exists (k, v). split; [done|]. apply list_elem_of_In, List.filter_In.
    split; [by apply list_elem_of_In, elem_of_map_to_list|by apply bool_decide_eq_true].
Qed.

Lemma updated_keys_NoDup s j rows d : NoDup (updated_keys s j rows d).
Proof.
  unfold updated_keys. assert (forall l : list (string * string * string * string * vote_row), NoDup l.*1 ->
    NoDup (List.filter (fun '(k, v) => bool_decide (is_Some (matching s j rows k v))) l).*1) as Hx; [|apply Hx, NoDup_fst_map_to_list].
  induction l as [|[k v] l IH]; cbn; [done|]. intros [Hk Hl]%NoDup_cons. destruct (bool_decide _); [|by apply IH].
  cbn. constructor; [|by apply IH]. intros (x & He & Hx%list_elem_of_In)%list_elem_of_fmap.
  apply List.filter_In in Hx as [Hx%list_elem_of_In _]. apply Hk. rewrite He. by apply list_elem_of_fmap_2.
Qed.

(** When every row has its vote summary, the update reaches exactly those. *)
Lemma updated_all s j rows d :
  NoDup (row_key j <$> rows) ->
  (forall r, r ∈ rows -> exists v, vote_summaries d !! row_key j r = Some v /\ vr_tenant v = se_tenant s) ->
  length (updated_keys s j rows d) = length rows.
Proof.
  intros Hn Hr. rewrite <- (length_fmap (row_key j) rows). apply Permutation_length, NoDup_Permutation; [apply updated_keys_NoDup|done|].
  intros k. rewrite updated_keys_elem. split; [by intros (v & _ & [_ ?]%matching_Some)|].
  intros Hk. pose proof Hk as (r & -> & Hin)%list_elem_of_fmap. destruct (Hr r Hin) as (v & Hv & Ht). exists v.
  split; [done|]. by apply matching_Some.
Qed.

(** What writing the vote summaries of a job leaves. *)
Lemma written_votes ctx tenantID jobID pairs d d1 :
  FromContext ctx = Ok tenantID -> deleted d tenantID = false ->
  (forall k v, vote_summaries d !! k = Some v -> k.1.1.1 = jobID -> vr_tenant v = tenantID) ->
  WriteVoteSummaries ctx tenantID jobID pairs d = (Ok tt, d1) ->
  jobs d1 = jobs d /\ tenants d1 = tenants d /\
  forall p, p ∈ pairs ->
    exists v, vote_summaries d1 !! (jobID, vp_SourceID p, vp_TargetID p, vp_Analyzer p) = Some v /\ vr_tenant v = tenantID.
Proof.
  intros Ht Hdel Hown Hw. unfold WriteVoteSummaries in Hw. destruct (ValidateTenantID tenantID); [|done]. case_bool_decide as Hnil.
  { injection Hw as <-. rewrite Hnil. split_and!; [done..|]. by intros p ?%not_elem_of_nil. }
  unfold transaction, enter in Hw. rewrite Ht, Hdel in Hw. cbn in Hw.
  destruct (insert_votes _ _ _ _) as [[u d']|] eqn:Hins; [|done]. injection Hw as _ <-.
  apply insert_votes_Ok in Hins as (-> & Hall & _ & Hnew). split_and!; [done..|]. intros p [v Hpv]%Hall. cbn.
  exists v. split; [done|]. destruct (Hnew _ _ Hpv) as [Hold|]; [|done]. by apply (Hown _ _ Hold).
Qed.

Section execute.
Context `{GoQuote} `{Stats} `{R : GoRuntime} `{MetricsEncoding}.

(** C36. Synthesis completes what the analyzers' results started. Once the vote
    summaries built from the outputs of a run are written, in a job that is not
    completed, [Execute] over the inputs built from the same outputs never
    panics. If [validateInputs] refuses them (more than 10000 pairs, an
    identifier that is empty or over 256 bytes, a similarity that is negative or
    not finite, or a confidence outside [0, 1]), it answers that refusal and
    writes nothing. Otherwise every row kept finds its own vote summary, keyed
    by source, target and analyzer, and sets its viability to the row's weight;
    no other vote summary and no other table changes; and the answer is the
    rows and their assessment, unless the assessment's message cannot be
    encoded, which is an error after the viabilities are written. *)
Theorem synthesis_completes cfg types ctx traceID jobID tenantID outputs pairs reqs rels cls sims inputs classes d d1 :
  buildVoteSummaryPairs outputs = Ok pairs ->
  results_of read_requires (outputs !! RequiresAnalyzer) = Some reqs ->
  results_of read_matches (outputs !! RelationshipAnalyzer) = Some rels ->
  buildSynthesisInputs cls reqs rels sims = Some (Ok (inputs, classes)) ->
  jobID <> "" -> FromContext ctx = Ok tenantID ->
  deleted d tenantID = false -> parent_completed (mkSession tenantID (UserFromContext ctx)) d jobID = false ->
  (forall k v, vote_summaries d !! k = Some v -> k.1.1.1 = jobID -> vr_tenant v = tenantID) ->
  WriteVoteSummaries ctx tenantID jobID pairs d = (Ok tt, d1) ->
  let rows := kept_rows (ForTenant cfg tenantID) jobID inputs classes in
  exists answer d2, Execute cfg types ctx traceID jobID inputs classes d1 = Some (answer, d2) /\
    match validateInputs inputs with
    | Some e => answer = Err e /\ d2 = d1
    | None => exists report votes, Assess (Assessment (ForTenant cfg tenantID)) types rows = Some report /\
        answer = match computeContentHash report traceID with Some hash => Ok (mkExecuted rows report hash) | None => Err [] end /\
        d2 = set_votes d1 votes /\
        (forall r, r ∈ rows -> exists v, vote_summaries d1 !! row_key jobID r = Some v /\
           votes !! row_key jobID r = Some (mkVoteRow (vr_consensus v) (vr_confidence v) (ViabilityWeight r) tenantID)) /\
        (forall k, k ∉ row_key jobID <$> rows -> votes !! k = vote_summaries d1 !! k)
    end.
Proof.
  intros Hp Hq Hr Hi Hj Ht Hdel Hpc Hown Hw rows.
  unfold Execute. rewrite Ht, (bool_decide_eq_false_2 _ Hj). destruct (validateInputs inputs) as [e|] eqn:Hv; [by eexists _, _|].
  destruct (buildVoteSummaryPairs_Ok _ _ _ _ Hp Hq Hr) as [-> Hnd]. pose proof (buildSynthesisInputs_keys _ _ _ _ _ _ Hi) as Hkeys.
  rewrite <- Hkeys in Hnd. destruct (kept_rows_sub (ForTenant cfg tenantID) jobID inputs classes Hnd) as (Hrn & Hrl & Hrs).
  fold rows in Hrn, Hrl, Hrs. set (s := mkSession tenantID (UserFromContext ctx)) in *.
  destruct (written_votes _ _ _ _ _ _ Ht Hdel Hown Hw) as (Hjobs & Htenants & Hvotes).
  assert (forall r, r ∈ rows -> exists v, vote_summaries d1 !! row_key jobID r = Some v /\ vr_tenant v = tenantID) as Hfound.
  { intros r (i & -> & Hin)%Hrs%list_elem_of_fmap. apply (list_elem_of_fmap_2 input_key) in Hin. rewrite Hkeys in Hin.
    apply list_elem_of_fmap in Hin as (p & [= Hs Hg Ha] & Hin). destruct (Hvotes p Hin) as (v & Hpv & Htv). exists v.
    split; [|done]. unfold row_key. cbn. by rewrite Hs, Hg, Ha. }
  cbv zeta. fold rows.
  assert (Z.of_nat (length inputs) <= 10000) as Hlen.
  { unfold validateInputs, maxInputs in Hv. destruct (Z.ltb_spec 10000 (Z.of_nat (length inputs))); [done|lia]. }
  destruct (Assess_total (Assessment (ForTenant cfg tenantID)) types rows ltac:(lia)) as [report Hreport]. rewrite Hreport. cbn.
  unfold persistViability, enter. assert (deleted d1 tenantID = false) as Hdel1 by (unfold deleted; by rewrite Htenants).
  rewrite Ht, Hdel1. cbn. fold s. unfold update_viability. rewrite (parent_completed_jobs _ _ _ _ Hjobs), Hpc, andb_false_r.
  rewrite updated_all by done. rewrite Z.ltb_irrefl.
  exists (match computeContentHash report traceID with Some hash => Ok (mkExecuted rows report hash) | None => Err [] end),
    (set_votes d1 (map_imap (fun k v => Some (set_viability s jobID rows k v)) (vote_summaries d1))).
  split; [by destruct (computeContentHash report traceID)|]. eexists report, _. do 3 (split; [done|]). split.
  - intros r Hin. destruct (Hfound r Hin) as (v & Hkv & Htv). exists v. split; [done|].
    rewrite map_lookup_imap, Hkv. cbn. unfold set_viability. rewrite matching_unique by done. by rewrite <- Htv.
  - intros k Hk. rewrite map_lookup_imap. destruct (vote_summaries d1 !! k) as [v|] eqn:Hkv; [|done]. cbn. f_equal.
    unfold set_viability. destruct (matching s jobID rows k v) as [r|] eqn:Hm'; [|done].
    assert (is_Some (matching s jobID rows k v)) as [_ ?]%matching_Some by by eexists. done.
Qed.
End execute.

(** ** A run with one pair *)

Module Sample.
Definition member (key value : string) : list ascii := quoted key ++ lit ":" ++ lit value.
Definition text (key value : string) : list ascii := quoted key ++ lit ":" ++ quoted value.

Definition example_outputs : gmap string string :=
  {[RequiresAnalyzer := string_of (lit "[{" ++ text "source_id" "AC-1" ++ lit "," ++ text "target_id" "A.5.1" ++ lit ","
      ++ member "confidence" "1" ++ lit "," ++ member "unanimous" "true" ++ lit "}]")]}.
Definition example_reqs : list RequiresResult := [mkRequires "AC-1" "A.5.1" fone true 0 0 []].

Definition example_synthesis : SynthesisConfig :=
  mkSynthesis (mkTenantConfig (mkViability (fconst 8 10) (fconst 7 10) (fconst 11 10))
    (mkAssessment (fof_Z 20) (fof_Z 10) (fconst 97 100) (fconst 8 10) (fconst 2 10) (fconst 3 10)) (fconst 5 10) 3) ∅.
Definition example_db : db := mkDB {["acme" := "active"]} {["j1" := mkJob "j1" "acme" JobStatusRunning "{}" "" 0 0 "" ""]} ∅ ∅ ∅.
#[local] Instance example_stats : Stats := {| stat_Mean l := default fzero (head l); stat_Variance _ := fzero |}.
#[local] Instance example_encoding : MetricsEncoding := {| marshal_metrics _ := Some EmptyString |}.
#[local] Instance example_quote : GoQuote := Build_GoQuote (fun s => s).
#[local] Instance example_runtime : GoRuntime := forward_runtime.
Definition example_ctx : context := (WithTenant Background "acme").1.
Definition example_inputs : list SynthesisInput :=
  [mkInput "AC-1" "A.5.1" (fof_Z 80) (fof_Z 80) fzero 1 ConsensusRequires RequiresAnalyzer "" fone true].
Definition example_sims : gmap string similarityMatrix := {["m" := mkMatrix ["AC-1"; "A.5.1"] [[fone; fof_Z 80]; [fof_Z 80; fone]]]}.
Definition example_pairs : list VoteSummaryPair := requires_pair <$> example_reqs.
Definition example_written : db := (WriteVoteSummaries example_ctx "acme" "j1" example_pairs example_db).2.

Lemma synthesis_completes_witness :
  let rows := kept_rows (ForTenant example_synthesis "acme") "j1" example_inputs ∅ in
  (exists answer d2, Execute example_synthesis [] example_ctx "" "j1" example_inputs ∅ example_written = Some (answer, d2) /\
    match validateInputs example_inputs with
    | Some e => answer = Err e /\ d2 = example_written
    | None => exists report votes, Assess (Assessment (ForTenant example_synthesis "acme")) [] rows = Some report /\
        answer = match computeContentHash report "" with Some hash => Ok (mkExecuted rows report hash) | None => Err [] end /\
        d2 = set_votes example_written votes /\
        (forall r, r ∈ rows -> exists v, vote_summaries example_written !! row_key "j1" r = Some v /\
           votes !! row_key "j1" r = Some (mkVoteRow (vr_consensus v) (vr_confidence v) (ViabilityWeight r) "acme")) /\
        (forall k, k ∉ row_key "j1" <$> rows -> votes !! k = vote_summaries example_written !! k)
    end) /\
  validateInputs example_inputs = None /\ ViabilityWeight <$> rows = [fof_Z 80].
Proof.
  split; [|split; by vm_compute].
  apply (synthesis_completes example_synthesis [] example_ctx "" "j1" "acme" example_outputs example_pairs example_reqs [] []
    example_sims example_inputs ∅ example_db example_written); by vm_compute.
Defined.
End Sample.
