(* ===== verification/Panics.v ===== *)
(** Programs that can panic.

    A program of [Effects] whose value is optional: [None] is a panic that
    unwinds to the nearest [recovering]. Every call may panic; whether it does,
    like what it answers, is a function of the history. *)

From S2P Require Import Prelude Effects.

(** * Definitions *)

Definition X (E A : Type) : Type := M E (option A).

#[export] Instance X_ret E : MRet (X E) := fun A a h => (Some a, h).
#[export] Instance X_bind E : MBind (X E) := fun A B f m h =>
  match m h with (Some a, h') => f a h' | (None, h') => (None, h') end.

(** Make the call [e]. [panics] and [answer] see it as the last of the history. *)
Definition xcall {E A} (panics : list E -> bool) (e : E) (answer : list E -> A) : X E A := fun h =>
  let h' := h ++ [e] in (if panics h' then None else Some (answer h'), h').

(** [defer func() { if recover() != nil { handler } }()] *)
Definition recovering {E A} (m handler : X E A) : X E A := fun h =>
  match m h with (Some a, h') => (Some a, h') | (None, h') => handler h' end.

(** [defer last()]: it runs whether or not [m] panics. *)
Definition deferring {E A} (m : X E A) (last : X E unit) : X E A := fun h =>
  let '(r, h') := m h in
  match last h' with (Some _, h'') => (r, h'') | (None, h'') => (None, h'') end.

Fixpoint eachX {E A} (f : A -> X E unit) (l : list A) : X E unit :=
  match l with [] => mret tt | x :: l => f x ≫= fun _ => eachX f l end.

(** Errors returned as values: the rest runs on success. *)
Definition andthen {E F A B} (m : X E (result F A)) (k : A -> X E (result F B)) : X E (result F B) :=
  m ≫= fun r => match r with Ok a => k a | Err e => mret (Err e) end.

Notation "x ←! m ; k" := (andthen m (fun x => k)) (at level 20, m at level 100, k at level 200, format "x  ←!  m ;  '/' k").

(** [for _, x := range l { a, err = f(a, x); if err != nil { return err } }] *)
Fixpoint foldX {E F A B} (f : A -> B -> X E (result F A)) (l : list B) (a : A) : X E (result F A) :=
  match l with [] => mret (Ok a) | x :: l => andthen (f a x) (foldX f l) end.

(** * Reasoning *)

(** From a history that satisfies [pre], [m] makes only allowed calls; if it
    returns, its value and history satisfy [post], and if it panics the history
    satisfies [exc]. *)
Definition xhoare {E A} (P : list E -> E -> Prop) (pre : list E -> Prop) (m : X E A) (post : A -> list E -> Prop)
    (exc : list E -> Prop) : Prop :=
  hoare P pre m (fun r h => match r with Some a => post a h | None => exc h end).

Section rules.
Context {E : Type}.
Implicit Types (P : list E -> E -> Prop) (pre exc : list E -> Prop).

Lemma xhoare_ret {A} P pre (a : A) (post : A -> list E -> Prop) exc :
  (forall h, pre h -> post a h) -> xhoare P pre (mret a) post exc.
Proof. intros Hp h Hh. exists []. rewrite app_nil_r. cbn. auto. Qed.

Lemma xhoare_call {A} P pre panics e (f : list E -> A) (post : A -> list E -> Prop) exc :
  (forall h, pre h -> P h e /\ (panics (h ++ [e]) = false -> post (f (h ++ [e])) (h ++ [e])) /\
     (panics (h ++ [e]) = true -> exc (h ++ [e]))) ->
  xhoare P pre (xcall panics e f) post exc.
Proof.
  intros Hp h Hh. exists [e]. destruct (Hp h Hh) as (? & Hpost & Hexc). unfold xcall. cbn. split_and!; [done..|].
  destruct (panics (h ++ [e])); auto.
Qed.

Lemma xhoare_bind {A B} P pre (m : X E A) (f : A -> X E B) mid post exc :
  xhoare P pre m mid exc -> (forall a, xhoare P (mid a) (f a) post exc) -> xhoare P pre (m ≫= f) post exc.
Proof.
  intros Hm Hf h Hh. destruct (Hm h Hh) as (l1 & E1 & A1 & M1). unfold mbind, X_bind.
  destruct (m h) as [[a|] h1]; cbn in *; subst h1; [|by exists l1].
  destruct (Hf a (h ++ l1) M1) as (l2 & E2 & A2 & M2).
  exists (l1 ++ l2). rewrite app_assoc. split_and!; [done|by apply allowed_app|done].
Qed.

Lemma xhoare_conseq {A} P pre pre' (m : X E A) (post post' : A -> list E -> Prop) exc exc' :
  xhoare P pre m post exc -> (forall h, pre' h -> pre h) -> (forall a h, post a h -> post' a h) -> (forall h, exc h -> exc' h) ->
  xhoare P pre' m post' exc'.
Proof. intros Hm Hpre Hpost Hexc. eapply hoare_conseq; [exact Hm|done|]. intros [a|] h; auto. Qed.

Lemma xhoare_recovering {A} P pre (m handler : X E A) post exc exc' :
  xhoare P pre m post exc -> xhoare P exc handler post exc' -> xhoare P pre (recovering m handler) post exc'.
Proof.
  intros Hm Hh h Hpre. destruct (Hm h Hpre) as (l1 & E1 & A1 & M1). unfold recovering.
  destruct (m h) as [[a|] h1]; cbn in *; subst h1; [by exists l1|].
  destruct (Hh (h ++ l1) M1) as (l2 & E2 & A2 & M2).
  exists (l1 ++ l2). rewrite app_assoc. split_and!; [done|by apply allowed_app|done].
Qed.

Lemma xhoare_deferring {A} P pre (m : X E A) last mid mexc post exc :
  xhoare P pre m mid mexc ->
  (forall a, xhoare P (mid a) last (fun _ => post a) exc) -> xhoare P mexc last (fun _ => exc) exc ->
  xhoare P pre (deferring m last) post exc.
Proof.
  intros Hm Hl He h Hpre. destruct (Hm h Hpre) as (l1 & E1 & A1 & M1). unfold deferring.
  destruct (m h) as [[a|] h1]; cbn in *; subst h1.
  - destruct (Hl a (h ++ l1) M1) as (l2 & E2 & A2 & M2). exists (l1 ++ l2).
    rewrite app_assoc. destruct (last (h ++ l1)) as [[[]|] h2]; cbn in *; (split_and!; [done|by apply allowed_app|done]).
  - destruct (He (h ++ l1) M1) as (l2 & E2 & A2 & M2). exists (l1 ++ l2).
    rewrite app_assoc. destruct (last (h ++ l1)) as [[[]|] h2]; cbn in *; (split_and!; [done|by apply allowed_app|done]).
Qed.

Lemma xhoare_each {A} P (f : A -> X E unit) l (I : list E -> Prop) exc :
  (forall x, x ∈ l -> xhoare P I (f x) (fun _ => I) exc) -> xhoare P I (eachX f l) (fun _ => I) exc.
Proof.
  induction l as [|x l IH]; intros Hf; cbn; [by apply xhoare_ret|].
  eapply xhoare_bind; [apply Hf; left|]. intros ?. apply IH. intros y Hy. apply Hf. by right.
Qed.

Lemma xhoare_andthen {F A B} P pre (m : X E (result F A)) (k : A -> X E (result F B)) mid bad post exc :
  xhoare P pre m (fun r h => match r with Ok a => mid a h | Err e => bad e h end) exc ->
  (forall e h, bad e h -> post (Err e) h) -> (forall a, xhoare P (mid a) (k a) post exc) ->
  xhoare P pre (andthen m k) post exc.
Proof.
  intros Hm Hb Hk. eapply xhoare_bind; [exact Hm|]. intros [a|e]; [apply Hk|]. apply xhoare_ret. apply Hb.
Qed.

Lemma xhoare_fold {F A B} P (f : A -> B -> X E (result F A)) l a (I : A -> list E -> Prop) (bad : F -> list E -> Prop) exc :
  (forall a x, x ∈ l -> xhoare P (I a) (f a x) (fun r h => match r with Ok a => I a h | Err e => bad e h end) exc) ->
  xhoare P (I a) (foldX f l a) (fun r h => match r with Ok a => I a h | Err e => bad e h end) exc.
Proof.
  revert a. induction l as [|x l IH]; intros a Hf; cbn; [by apply xhoare_ret|].
  eapply xhoare_andthen; [apply Hf; left|done|]. intros b. apply IH. intros c y Hy. apply Hf. by right.
Qed.
End rules.

(** ** Stable facts *)

(** A fact that every allowed call preserves holds throughout. *)
Lemma xhoare_frame {E A} (P : list E -> E -> Prop) pre (m : X E A) post exc (J : list E -> Prop) :
  (forall h c, P h c -> J h -> J (h ++ [c])) -> xhoare P pre m post exc ->
  xhoare P (fun h => pre h /\ J h) m (fun a h => post a h /\ J h) (fun h => exc h /\ J h).
Proof.
  intros HJ Hm h [Hpre Hj]. destruct (Hm h Hpre) as (log & Hlog & Hall & Hpost). exists log. split_and!; [done..|].
  assert (J (h ++ log)) as Hj'.
  { clear Hlog Hpost Hpre. revert h Hj Hall. induction log as [|c log IH]; intros h Hj; cbn; [by rewrite app_nil_r|].
    intros [Hc Hl]. replace (h ++ c :: log) with ((h ++ [c]) ++ log) by (by rewrite <- app_assoc). apply IH; [|done]. by apply HJ. }
  by destruct (m h).1.
Qed.

Lemma xhoare_allow {E A} (P Q : list E -> E -> Prop) pre (m : X E A) post exc :
  (forall h c, P h c -> Q h c) -> xhoare P pre m post exc -> xhoare Q pre m post exc.
Proof.
  intros HPQ Hm h Hpre. destruct (Hm h Hpre) as (log & Hlog & Hall & Hpost). exists log. split_and!; [done| |done].
  by eapply allowed_impl.
Qed.

(** Allowed calls may depend on the stable fact. *)
Lemma xhoare_assume {E A} (P : list E -> E -> Prop) pre (m : X E A) post exc (J : list E -> Prop) :
  (forall h c, P h c -> J h -> J (h ++ [c])) -> xhoare P pre m post exc ->
  xhoare (fun h c => P h c /\ J h) (fun h => pre h /\ J h) m (fun a h => post a h /\ J h) (fun h => exc h /\ J h).
Proof.
  intros HJ Hm h [Hpre Hj]. destruct (Hm h Hpre) as (log & Hlog & Hall & Hpost). exists log. split; [done|].
  assert (allowed (fun h c => P h c /\ J h) h log /\ J (h ++ log)) as [? ?].
  { clear Hlog Hpost Hpre. revert h Hj Hall. induction log as [|c log IH]; intros h Hj; cbn; [by rewrite app_nil_r|].
    intros [Hc Hl]. replace (h ++ c :: log) with ((h ++ [c]) ++ log) by (by rewrite <- app_assoc). destruct (IH (h ++ [c]) (HJ h c Hc Hj) Hl) as [? ?].
    by split_and!. }
  split; [done|]. by destruct (m h).1.
Qed.

(** Two specifications of one program hold together. *)
Lemma xhoare_and {E A} (P P' : list E -> E -> Prop) pre pre' (m : X E A) post post' exc exc' :
  xhoare P pre m post exc -> xhoare P' pre' m post' exc' ->
  xhoare P (fun h => pre h /\ pre' h) m (fun a h => post a h /\ post' a h) (fun h => exc h /\ exc' h).
Proof.
  intros Hm Hm' h [Hpre Hpre']. destruct (Hm h Hpre) as (log & Hlog & Hall & Hpost). destruct (Hm' h Hpre') as (log' & Hlog' & _ & Hpost').
  rewrite Hlog in Hlog'. apply app_inv_head in Hlog'. subst log'. exists log. split_and!; [done..|]. by destruct (m h).1.
Qed.
