(* ===== verification/Executor.v ===== *)
(** The life of a job: [internal/pipeline/executor.go], with
    [internal/pipeline/attest_cache.go], [forTenant] of [attestors.go],
    [publishJobState] of [service_impl.go] and the store writes of
    [reporter.go].

    A run is a program that calls the outside ([Panics]): the job store, the
    bus, object storage, the engine, synthesis, the graph's candidates and the
    catalogs. Any call may fail, and any may panic. What they answer is a
    function of the calls made so far, so it covers what cancels the job, stops
    the service or changes the store meanwhile. Signing and verifying are those
    of [Attest], over the tenant's key and library. The context carries the
    run's tenant, so [tenant.FromContext] returns it. Logs, spans, metrics and
    time stamps are left out. *)

From stdpp Require Import pretty.
From S2P Require Import Prelude Float64 Gostrings Tenant Subjects Sha256 Resultcache Json Jsonread Errors Effects Panics Dag.
From S2P Require Import Jobconfig Joberr Jobstore Attest Results.
Local Open Scope Z_scope.

(** * Definitions *)

(** ** The outside *)

(** Why a job's context is done. *)
Inductive cause := ErrJobCancelled | errServiceStopping.

Inductive call :=
| CallGetJob
| CallJobStatus (status : JobStatus) (err : option goerr)
| CallGetStages
| CallStageStatus (stage : string) (status : StageStatus)
| CallStageError (stage : string) (err : goerr)
| CallGetResults (names : list string)
| CallWriteVotes (pairs : list VoteSummaryPair)
| CallPublishState (status : JobStatus)
| CallPublishStage (stage event : string)
| CallPublishAudit (bundle : string)
| CallBuildDAG
| CallSnapshot (catalogID : string)
| CallControls (catalogID : string)
| CallPrepareCache (names : list string)
| CallEngine (names : list string) (controls : option (list Control)) (params : gmap string (gmap string string))
    (completed : gmap string string)
| CallGenerate
| CallSimilarity (model : string)
| CallSynthesize (inputs : list SynthesisInput) (classifications : gmap string Classification)
| CallPut (key data : string)
| CallGet (key : string)
| CallStoredDigest (analyzer attempt : string)
| CallOwnCheckpoint (analyzer attempt : string)
| CallCheckpoints (analyzer : string)
| CallSummaries (analyzer attempt digest : string)
| CallSign                            (* the clock and trace of a signature *)
| CallVerify                          (* the clock of a verification *)
| CallWait                            (* the timer between attempts, or the context *)
| CallContext
| CallClaim
| CallRecover.                         (* the log line of a recovered panic *)

(** What an engine pass reports. *)
Record PassResult := mkPass {
  ps_Outputs : gmap string string;                (* result data, by analyzer *)
  ps_Attempts : gmap string string;               (* the outputs' cache attempts *)
  ps_Errors : gmap string goerr;
  ps_Completed : list string;
  ps_Failed : list string;
  ps_Stats : gmap string Resultcache.Stats;
}.

(** An answer is a function of the history, the call included. *)
Class World := {
  panics : list call -> bool;
  done_of : list call -> option cause;
  error_of : list call -> option goerr;
  job_of : list call -> result goerr Job;
  stages_of : list call -> result goerr (list Stage);
  results_answer : list call -> result goerr (gmap string string);
  dag_of : list call -> result goerr DAG;
  name_of : list call -> result goerr string;
  controls_of : list call -> result goerr (list Control);
  cache_of : list call -> result goerr bool;            (* whether the run checkpoints *)
  pass_of : list call -> result goerr PassResult;
  matrix_of : list call -> result goerr similarityMatrix;
  synthesis_of : list call -> result goerr (option string);   (* the result's JSON *)
  object_of : list call -> result goerr string;
  digest_of : list call -> option string;
  checkpoint_of : list call -> result goerr string;
  checkpoints_of : list call -> result goerr (list (string * string));   (* attempt, digest; sorted *)
  summaries_of : list call -> result goerr (list Summary);
  clock_of : list call -> Z;
  trace_of : list call -> gmap string string;           (* a link's own byproducts *)
  timer_of : list call -> bool;                         (* whether the timer fired first *)
}.

(** A done context stays done, for its first cause. *)
Definition done_stays `{World} : Prop := forall h l c, done_of h = Some c -> done_of (h ++ l) = Some c.

(** ** The service and a run's state *)

Record Attestor := mkAttestor { Generator : InToto; at_ExpiresIn : Z }.

Record Attestors := mkAttestors {
  Default : option Attestor;
  at_Tenants : gmap string (option Attestor);
  StorageRetries : nat;                                 (* validated not to be negative *)
}.

Definition forTenant (a : Attestors) (tenantID : string) : option Attestor :=
  match at_Tenants a !! tenantID with Some att => att | None => Default a end.

(** Which optional dependencies are wired. *)
Record Service := mkService {
  attestors : Attestors;
  sv_bus : bool;
  sv_catalogNames : bool;
  sv_catalogControls : bool;
  sv_candidateGen : bool;
  sv_embeddings : bool;
  sv_cacheStore : bool;
  sv_models : list string;
}.

Record analyzerCacheRun := mkCacheRun { cr_stats : option Resultcache.Stats; cr_attempt : string }.

Record analyzerCacheRecord := mkCacheRecord { rec_digest : string; rec_mode : string; rec_reason : string; rec_attempt : string }.

Record jobExecution := mkExec {
  ex_attestor : option Attestor;
  ex_subject : Artifact;
  ex_dag : option DAG;
  ex_layout : option SignedLayout;
  ex_links : list SignedLink;
  ex_checkpoints : bool;
  ex_cacheRuns : gmap string analyzerCacheRun;
}.

Definition set_dag (x : jobExecution) (d : DAG) : jobExecution :=
  mkExec (ex_attestor x) (ex_subject x) (Some d) (ex_layout x) (ex_links x) (ex_checkpoints x) (ex_cacheRuns x).
Definition set_layout (x : jobExecution) (l : SignedLayout) : jobExecution :=
  mkExec (ex_attestor x) (ex_subject x) (ex_dag x) (Some l) (ex_links x) (ex_checkpoints x) (ex_cacheRuns x).
Definition add_link (x : jobExecution) (l : SignedLink) : jobExecution :=
  mkExec (ex_attestor x) (ex_subject x) (ex_dag x) (ex_layout x) (ex_links x ++ [l]) (ex_checkpoints x) (ex_cacheRuns x).
Definition set_checkpoints (x : jobExecution) (b : bool) : jobExecution :=
  mkExec (ex_attestor x) (ex_subject x) (ex_dag x) (ex_layout x) (ex_links x) b (ex_cacheRuns x).
Definition set_cacheRuns (x : jobExecution) (m : gmap string analyzerCacheRun) : jobExecution :=
  mkExec (ex_attestor x) (ex_subject x) (ex_dag x) (ex_layout x) (ex_links x) (ex_checkpoints x) m.

(** ** Names and errors *)

Definition attestationKey (job : Job) (name : string) : string := "attestations/" +:+ TenantID job +:+ "/" +:+ JobID job +:+ "/" +:+ name.
Definition linkName (step : string) : string := "links/" +:+ step +:+ ".json".
Definition jobURI (tenantID jobID : string) : string := "job:" +:+ tenantID +:+ "/" +:+ jobID.
Definition contentDigest (data : string) : string := "sha256:" +:+ hex_sum data.
Definition jobSubject (job : Job) : Artifact := mkArtifact (jobURI (TenantID job) (JobID job)) (contentDigest (Config job)).
Definition cacheManifestURI (analyzerName : string) : string := analyzerName +:+ ".cache_manifest".
Definition maxAttestationObjectBytes : Z := 2 ^ 20.
Definition linkedPipelineStages : list string := ["synthesis"; "graph"].

Definition ErrAttestationSigning : sentinel := "attestation could not be signed".
Definition ErrAttestationStorage : sentinel := "attestation could not be stored".
Definition ErrCatalogNotFound : sentinel := "catalog not found for the tenant".
Definition ErrStorageNotFound : sentinel := "object not found".
Definition errAttestationTooLarge : sentinel := "the stored attestation object is larger than the limit".
Definition errInvalidAttempt : sentinel := "the attempt is not a canonical UUID".
Definition errCheckpointUnreadable : sentinel := "the cache checkpoint could not be read".
Definition errAttemptRecordChanged : sentinel := "the result-cache record does not match its checkpoint".

(** [fmt.Errorf("<what>: %w", err)] *)
Definition wrapf (what : string) (err : goerr) : goerr := Wrap (what +:+ ": " +:+ Error_text err) [err].
(** [fmt.Errorf("<what>: %w: %w. <then>", err, sentinel)] *)
Definition wrapf2 (what : string) (err : goerr) (s : sentinel) (rest : string) : goerr :=
  Wrap (what +:+ ": " +:+ Error_text err +:+ ": " +:+ s +:+ ". " +:+ rest) [err; Sentinel s].
(** [fmt.Errorf("<what>: %w. <then>", sentinel)] *)
Definition wraps (what : string) (s : sentinel) (rest : string) : goerr := Wrap (what +:+ ": " +:+ s +:+ ". " +:+ rest) [Sentinel s].

(** An error of [pkg/attestation]; its text is not kept. *)
Definition attestation_error (e : error) : goerr := Wrap "" (Sentinel <$> e).

Definition job_hint (job : Job) : string := retryHint (JobID job) (Config job).
Definition new_job (job : Job) : string := newJobCommand (Config job).

Section executor.
Context `{W : World} `{R : GoRuntime} `{GoQuote} `{Stats}.
Variable sv : Service.
Variables (tenantID jobID : string).
(** The trace of the run's context. *)
Variable trace : string.

Abbreviation XM := (X call).

Definition answer {A} (c : call) (f : list call -> A) : XM A := xcall panics c f.

(** ** Calls *)

Definition is_done : XM (option cause) := answer CallContext done_of.

(** A call that returns only an error. *)
Definition attempt (c : call) : XM (result goerr unit) :=
  answer c (fun h => match error_of h with Some e => Err e | None => Ok tt end).
Definition try_or_log (c : call) : XM unit := answer c (fun _ => tt).

(** What a failing call returns is wrapped. *)
Definition wrapping {A} (what : string) (m : XM (result goerr A)) : XM (result goerr A) :=
  r ← m; mret (match r with Ok a => Ok a | Err e => Err (wrapf what e) end).

Definition lift_panic {A} (o : option A) : XM A := fun h => (o, h).
Definition fail_with {A} (e : goerr) : XM (result goerr A) := mret (Err e).

Definition publishJobState (status : JobStatus) : XM unit :=
  if sv_bus sv then
    match PipelineStateSubject tenantID jobID with
    | Err _ => mret tt
    | Ok _ => try_or_log (CallPublishState status)
    end
  else mret tt.

Definition publishStageEvent (t j stage event : string) : XM unit :=
  if sv_bus sv then
    match PipelineStageSubject t j event with
    | Err _ => mret tt
    | Ok _ => try_or_log (CallPublishStage stage event)
    end
  else mret tt.

(** ** Ending a run *)

(** [end_] is applied to every stage still running; a panic is logged. *)
Definition endRunningStages (end_ : string -> XM unit) : XM unit :=
  recovering
    (stages ← answer CallGetStages stages_of;
     match stages with
     | Err _ => mret tt
     | Ok stages => eachX (fun st => end_ (StageName st)) (List.filter (fun st => bool_decide (st_Status st = StageStatusRunning)) stages)
     end)
    (mret tt).

Definition interruptJob : XM unit :=
  cause ← is_done;
  match cause with
  | Some ErrJobCancelled =>
      r ← attempt (CallJobStatus JobStatusCancelled None);
      match r with
      | Err _ => mret tt
      | Ok _ =>
          endRunningStages (fun stage => try_or_log (CallStageStatus stage StageStatusCancelled)) ≫= fun _ =>
          publishJobState JobStatusCancelled
      end
  | _ => mret tt
  end.

Definition job_config (job : option Job) : string := match job with Some j => Config j | None => "" end.

(** [failJob] past its check of the context. *)
Definition record_failure (job : option Job) (err : goerr) : XM unit :=
  let err := tenantFailure trace jobID (job_config job) err in
  r ← attempt (CallJobStatus JobStatusFailed (Some err));
  match r with
  | Err _ => publishJobState JobStatusFailed
  | Ok _ =>
      endRunningStages (fun stage => try_or_log (CallStageError stage (wrapf "did not finish: the job failed" err))) ≫= fun _ =>
      publishJobState JobStatusFailed
  end.

Definition failJob (job : option Job) (err : goerr) : XM unit :=
  cause ← is_done;
  match cause with Some _ => interruptJob | None => record_failure job err end.

Definition note (c : call) : XM unit := fun h => (Some tt, h ++ [c]).

(** The recovery: its context is detached from the job's, so never done. The
    panic's value, which the tenant's message withholds, is left out. *)
Definition recover_panic (job : option Job) : XM unit :=
  note CallRecover ≫= fun _ => record_failure job (Plain "panic during job execution").

(** [failPipelineStage] *)
Definition failPipelineStage (job : Job) (stage : string) (err : goerr) : XM unit :=
  cause ← is_done;
  match cause with
  | Some _ => mret tt
  | None =>
      try_or_log (CallStageError stage (tenantFailure trace jobID (Config job) err)) ≫= fun _ =>
      publishStageEvent (TenantID job) (JobID job) stage StageFailed
  end.

Definition claimCompletion : XM bool := answer CallClaim (fun h => match done_of h with Some _ => false | None => true end).

(** ** Storing attestations *)

Definition storing (what key : string) : string := "storing the attestation " +:+ what +:+ " at " +:+ go_quote key.

Fixpoint put_attempts (retries : nat) (job : Job) (what key data : string) : XM (result goerr unit) :=
  r ← attempt (CallPut key data);
  match r with
  | Ok _ => mret (Ok tt)
  | Err err =>
      cause ← is_done;
      match cause with
      | Some _ => fail_with (wrapf (storing what key) err)
      | None =>
          match retries with
          | O => fail_with (wrapf2 ("job " +:+ JobID job +:+ ": its attestation " +:+ what +:+ " could not be stored at " +:+ go_quote key
                   +:+ " after " +:+ pretty (S (StorageRetries (attestors sv))) +:+ " attempts") err ErrAttestationStorage
                   ("Check that object storage (storage.objects.base_path) is writable. " +:+ job_hint job))
          | S retries =>
              fired ← answer CallWait timer_of;
              if (fired : bool) then put_attempts retries job what key data
              else fail_with (wrapf (storing what key) (Plain "context canceled"))
          end
      end
  end.

Definition putAttestation (job : Job) (what key data : string) : XM (result goerr unit) :=
  put_attempts (StorageRetries (attestors sv)) job what key data.

(** [readAttestation]; the reader's errors are the storage's. *)
Definition readAttestation (key : string) : XM (result goerr string) :=
  r ← answer (CallGet key) object_of;
  mret (match r with
        | Err e => Err e
        | Ok raw => if maxAttestationObjectBytes <? Z.of_nat (String.length raw) then Err (Sentinel errAttestationTooLarge) else Ok raw
        end).

(** ** Layouts and links *)

Definition with_materials (f : Attest.Step -> list string) (s : Attest.Step) : Attest.Step :=
  mkStep (Step_Name s) (f s) (ExpectedProducts s) (Command s) (Threshold s).

(** The steps of a job's layout: one per analyzer, then the pipeline's own. *)
Definition layout_steps (subject : Artifact) (dag : DAG) : list Attest.Step :=
  let steps := with_materials (fun s => ExpectedMaterials s ++ [cacheManifestURI (Step_Name s)]) <$> Steps (Convert dag) in
  let analyzerOutputs := steps ≫= ExpectedProducts in
  let steps := steps ++ [mkStep "synthesis" analyzerOutputs ["synthesis.output"] [] 1; mkStep "graph" ["synthesis.output"] [] [] 1] in
  with_materials (fun s => URI subject :: ExpectedMaterials s) <$> steps.

Definition createLayout (att : Attestor) (job : Job) (x : jobExecution) (dag : DAG) : XM (result goerr SignedLayout) :=
  now ← answer CallSign clock_of;
  match @CreateLayout (Generator att) now (mkOptions (layout_steps (ex_subject x) dag) [] (at_ExpiresIn att)) with
  | Err e =>
      fail_with (wrapf2 ("job " +:+ JobID job +:+ " cannot start: its attestation layout could not be signed") (attestation_error e)
        ErrAttestationSigning ("No analyzer ran. Fix the attestation key pair (attestation.private_key_path and "
          +:+ "attestation.public_key_path, or the tenant's override) and restart crosscodexd. " +:+ job_hint job))
  | Ok layout =>
      _ ←! putAttestation job "layout" (attestationKey job "layout.json") (ly_Raw layout);
      mret (Ok layout)
  end.

Definition createLink (att : Attestor) (job : Job) (x : jobExecution) (stepName : string) (materials products : list Artifact)
    (extra : gmap string string) : XM (result goerr SignedLink) :=
  own ← answer CallSign trace_of;
  match @CreateLink (Generator att) own stepName (ex_subject x :: materials) products extra with
  | Err e =>
      fail_with (wrapf2 ("job " +:+ JobID job +:+ ": the attestation link for step " +:+ go_quote stepName +:+ " could not be signed")
        (attestation_error e) ErrAttestationSigning ("Fix the attestation key pair and restart crosscodexd. " +:+ job_hint job))
  | Ok link =>
      _ ←! putAttestation job ("link for step " +:+ go_quote stepName) (attestationKey job (linkName stepName)) (Raw link);
      mret (Ok link)
  end.

(** ** The result-cache record of a link *)

Definition byproductCacheMode : string := "result_cache.mode".
Definition byproductCacheReason : string := "result_cache.reason".
Definition byproductCacheAttempt : string := "result_cache.attempt".
Definition cacheModeOff : string := "off".
Definition cacheModeUnrecorded : string := "unrecorded".

Definition byProducts (r : analyzerCacheRecord) : gmap string string :=
  <[byproductCacheMode := rec_mode r]> (<[byproductCacheReason := rec_reason r]> {[byproductCacheAttempt := rec_attempt r]}).

Definition noCacheRecordDigest : string := Resultcache.Digest (mkManifest "" "" "" "" [] []).

Definition cacheNotWired (job : Job) (name : string) : goerr :=
  Plain ("job " +:+ JobID job +:+ ": analyzer " +:+ go_quote name +:+ " completed in an earlier run with the result cache, but this daemon has no "
    +:+ "result cache wired to verify that record. To resume it, configure analysis.result_cache and restart crosscodexd. " +:+ job_hint job).

Definition cacheRecordUnreadable (job : Job) (name : string) (err : goerr) : goerr :=
  wrapf2 ("job " +:+ JobID job +:+ ": the result-cache record of analyzer " +:+ go_quote name +:+ " could not be read to verify it") err
    ErrAttestationStorage ("Check that the database is reachable. " +:+ job_hint job).

(** The first signed attempt whose rows record a completed stage. *)
Fixpoint completed_attempt (name : string) (signed : list (string * string)) : XM (result goerr (option string)) :=
  match signed with
  | [] => mret (Ok None)
  | (attempt, digest) :: rest =>
      sums ← answer (CallSummaries name attempt digest) summaries_of;
      match sums with
      | Err err => mret (Err err)
      | Ok sums =>
          if existsb (fun s => bool_decide (su_Attempt s = attempt) && su_Attested s && negb (bool_decide (s_Mode (su_Stats s) = ""))) sums
          then mret (Ok (Some attempt)) else completed_attempt name rest
      end
  end.

Definition checkNoSignedCompletion (job : Job) (name : string) : XM (result goerr unit) :=
  vc ← answer (CallCheckpoints name) checkpoints_of;
  match vc with
  | Err err =>
      fail_with
        (if is_err err ErrCacheCorrupt
         then wrapf2 ("job " +:+ JobID job +:+ ": analyzer " +:+ go_quote name +:+ " completed in an earlier run that recorded no result-cache "
                +:+ "attempt, and one of its checkpoints does not verify") err ErrAttestationInvalid
                ("Its cache use cannot be attested; start a new job: " +:+ new_job job)
         else wrapf2 ("job " +:+ JobID job +:+ ": the result-cache checkpoints of analyzer " +:+ go_quote name +:+ " could not be read") err
                ErrAttestationStorage ("Check that object storage (storage.objects.base_path) is readable. " +:+ job_hint job))
  | Ok signed =>
      if bool_decide (length signed = 0%nat) then mret (Ok tt)
      else if negb (sv_cacheStore sv) then fail_with (cacheNotWired job name)
      else
        found ← completed_attempt name signed;
        match found with
        | Err err => fail_with (cacheRecordUnreadable job name err)
        | Ok None => mret (Ok tt)
        | Ok (Some attempt) =>
            fail_with (wraps ("job " +:+ JobID job +:+ ": analyzer " +:+ go_quote name +:+ " completed in an earlier run, but the stage's result-cache "
              +:+ "record pointer is missing although a signed record of its completion exists (attempt " +:+ attempt +:+ ")") ErrAttestationInvalid
              ("The stage's record was changed, so its cache use cannot be attested; start a new job: " +:+ new_job job))
        end
  end.

(** The record of a stage this run completed. *)
Definition run_record (job : Job) (x : jobExecution) (name : string) (run : analyzerCacheRun) : XM (result goerr analyzerCacheRecord) :=
  let mode := match cr_stats run with Some st => s_Mode st | None => "" end in
  let reason := match cr_stats run with Some st => s_Reason st | None => "" end in
  if bool_decide (cr_attempt run = "") then
    mret (Ok (match cr_stats run with
              | None => mkCacheRecord noCacheRecordDigest cacheModeOff "the result cache is not wired on this daemon" ""
              | Some _ => mkCacheRecord noCacheRecordDigest mode reason ""
              end))
  else
    stored ← (if ex_checkpoints x then answer (CallStoredDigest name (cr_attempt run)) digest_of else mret None);
    match stored with
    | Some digest => mret (Ok (mkCacheRecord digest mode reason (cr_attempt run)))
    | None =>
        fail_with (Plain ("job " +:+ JobID job +:+ ": analyzer " +:+ go_quote name +:+ " completed, sealed by result-cache attempt "
          +:+ cr_attempt run +:+ ", but this run stored no checkpoint for that attempt, so its link cannot pin it. " +:+ job_hint job))
    end.

Definition earlier_invalid (job : Job) (name attempt why : string) (err : goerr) : goerr :=
  wrapf2 ("job " +:+ JobID job +:+ ": analyzer " +:+ go_quote name +:+ " completed in an earlier run, sealed by result-cache attempt "
    +:+ go_quote attempt +:+ ", but " +:+ why) err ErrAttestationInvalid
    ("Its cache use cannot be attested; start a new job: " +:+ new_job job).

(** Without the key IDs of an untrusted key, which an error of [Attest] lacks. *)
Definition checkpoint_refusal (job : Job) (name attempt : string) (err : goerr) : goerr :=
  let invalid why := earlier_invalid job name attempt why err in
  if is_err err ErrUntrustedKey
  then invalid "its checkpoint is signed by a key that is not trusted now: the attestation key pair changed since that run"
  else if is_err err errInvalidAttempt then invalid "that attempt is not a canonical UUID, so the stage's record was changed"
  else if is_err err ErrStorageNotFound then invalid "that attempt has no stored checkpoint"
  else if is_err err errCheckpointUnreadable
  then wrapf2 ("job " +:+ JobID job +:+ ": the result-cache checkpoint of analyzer " +:+ go_quote name +:+ " could not be read") err
         ErrAttestationStorage ("Check that object storage (storage.objects.base_path) is readable. " +:+ job_hint job)
  else invalid "its checkpoint does not verify".

(** The record of a stage an earlier run completed, sealed by [attempt]. *)
Definition earlier_record (job : Job) (name attempt : string) : XM (result goerr analyzerCacheRecord) :=
  checkpoint ← answer (CallOwnCheckpoint name attempt) checkpoint_of;
  match checkpoint with
  | Err err => fail_with (checkpoint_refusal job name attempt err)
  | Ok digest =>
      if negb (sv_cacheStore sv) then fail_with (cacheNotWired job name)
      else
        sums ← answer (CallSummaries name attempt digest) summaries_of;
        match sums with
        | Err err => fail_with (cacheRecordUnreadable job name err)
        | Ok sums =>
            mret (match List.find (fun s => bool_decide (su_Analyzer s = name) && bool_decide (su_Attempt s = attempt)) sums with
                  | Some sum =>
                      if negb (su_Attested sum)
                      then Err (earlier_invalid job name attempt "the attempt's records changed after it was signed"
                             (Sentinel errAttemptRecordChanged))
                      else if bool_decide (s_Mode (su_Stats sum) = "")
                      then Err (earlier_invalid job name attempt
                             "that attempt did not complete the stage (its record has no stage statistics)" (Sentinel errAttemptRecordChanged))
                      else Ok (mkCacheRecord digest (s_Mode (su_Stats sum)) (s_Reason (su_Stats sum)) attempt)
                  | None =>
                      Err (Plain ("job " +:+ JobID job +:+ ": verifying the result-cache record of analyzer " +:+ go_quote name
                        +:+ " returned no summary for attempt " +:+ attempt +:+ ". " +:+ job_hint job))
                  end)
        end
  end.

Definition cacheRecordOf (job : Job) (x : jobExecution) (name : string) (stage : option Jobconfig.Stage)
  : XM (result goerr analyzerCacheRecord) :=
  match ex_cacheRuns x !! name with
  | Some run => run_record job x name run
  | None =>
      let attempt := match stage with Some st => CacheAttempt st | None => "" end in
      if bool_decide (attempt = "") then
        _ ←! checkNoSignedCompletion job name;
        mret (Ok (mkCacheRecord noCacheRecordDigest cacheModeUnrecorded
          ("the stage completed in an earlier run that recorded no result-cache attempt: " +:+ "the cache was disabled or off then") ""))
      else earlier_record job name attempt
  end.

(** ** Attesting the analyzers *)

(** A nil DAG or attestor would be dereferenced. *)
Definition the_dag (x : jobExecution) : XM DAG := lift_panic (ex_dag x).

Definition missing_result (job : Job) (name : string) : goerr :=
  wraps ("job " +:+ JobID job +:+ ": analyzer " +:+ go_quote name +:+ " has no stored result to attest") ErrAttestationInvalid
    ("Start a new job: " +:+ new_job job).

Fixpoint result_digests (job : Job) (stored : gmap string string) (digests : gmap string string) (order : list string)
  : result goerr (gmap string string) :=
  match order with
  | [] => Ok digests
  | name :: rest =>
      match stored !! name with
      | None => Err (missing_result job name)
      | Some data => result_digests job stored (<[name := contentDigest data]> digests) rest
      end
  end.

Definition stage_named (stages : list Jobconfig.Stage) (name : string) : option Jobconfig.Stage :=
  last (filter (fun st => StageName st = name) stages).

Definition output_artifact (digests : gmap string string) (name : string) : Artifact :=
  mkArtifact (name +:+ ".output") (default "" (digests !! name)).

Definition attest_analyzer (att : Attestor) (job : Job) (digests : gmap string string) (records : gmap string analyzerCacheRecord)
    (x : jobExecution) (a : RegisteredAnalyzer) : XM (result goerr jobExecution) :=
  let rec := default (mkCacheRecord "" "" "" "") (records !! Dag.Name a) in
  let materials := (output_artifact digests <$> DependsOn a) ++ [mkArtifact (cacheManifestURI (Dag.Name a)) (rec_digest rec)] in
  link ←! createLink att job x (Dag.Name a) materials [output_artifact digests (Dag.Name a)] (byProducts rec);
  mret (Ok (add_link x link)).

Definition attestAnalyzers (job : Job) (x : jobExecution) : XM (result goerr jobExecution) :=
  match ex_attestor x with
  | None => mret (Ok x)
  | Some att =>
      dag ← the_dag x;
      let order := Order dag in
      stored ←! wrapping "attesting analyzers: loading their stored results" (answer (CallGetResults order) results_answer);
      match result_digests job stored ∅ order with
      | Err e => fail_with e
      | Ok digests =>
          stages ←! wrapping "attesting analyzers: loading their stages" (answer CallGetStages stages_of);
          records ←! foldX (fun records name =>
              rec ←! cacheRecordOf job x name (stage_named stages name);
              mret (Ok (<[name := rec]> records))) order ∅;
          foldX (attest_analyzer att job digests records) (Analyzers dag) x
      end
  end.

(** ** Links of earlier runs *)

Definition stored_link (att : Attestor) (job : Job) (x : jobExecution) (step : string) : XM (result goerr jobExecution) :=
  let key := attestationKey job (linkName step) in
  let at_key := "step " +:+ go_quote step +:+ " at " +:+ go_quote key in
  r ← readAttestation key;
  match r with
  | Err err =>
      fail_with
        (if is_err err ErrStorageNotFound
         then wraps ("job " +:+ JobID job +:+ ": step " +:+ go_quote step +:+ " completed in an earlier run, but its attestation link "
                +:+ go_quote key +:+ " is missing") ErrAttestationInvalid
                ("Its results cannot be attested; start a new job: " +:+ new_job job)
         else if is_err err errAttestationTooLarge
         then wraps ("job " +:+ JobID job +:+ ": the stored attestation link of " +:+ at_key +:+ " is larger than the "
                +:+ pretty maxAttestationObjectBytes +:+ "-byte limit, so it was not read") ErrAttestationInvalid
                ("The pipeline's links are a few kilobytes, so the object was replaced after signing; check who can write to object storage. "
                 +:+ "Its results cannot be attested; start a new job: " +:+ new_job job)
         else wrapf2 ("job " +:+ JobID job +:+ ": reading the attestation link of " +:+ at_key) err ErrAttestationStorage
                ("Check that object storage (storage.objects.base_path) is readable. " +:+ job_hint job))
  | Ok raw =>
      let refuse err :=
        fail_with (wrapf2 ("job " +:+ JobID job +:+ ": the stored attestation link of " +:+ at_key +:+ " does not verify") err ErrAttestationInvalid
          ("It was modified, or signed with a key pair other than the one configured now; its results cannot be attested. Start a new job: "
           +:+ new_job job)) in
      match @Verify R (Generator att) raw with
      | Err e => refuse (attestation_error e)
      | Ok verified =>
          if negb (bool_decide (vl_Step verified = step)) then refuse (Plain ("it is signed for step " +:+ go_quote (vl_Step verified)))
          else if negb (bool_decide (ex_subject x ∈ vl_Materials verified))
          then refuse (Plain ("it is signed for another job, not " +:+ go_quote (URI (ex_subject x)) +:+ " with config digest "
                 +:+ go_quote (Attest.Digest (ex_subject x))))
          else mret (Ok (add_link x (mkLink raw (vl_Step verified) "" (vl_Materials verified) (vl_Products verified))))
      end
  end.

Definition loadStoredLinks (job : Job) (completed : gset string) (x : jobExecution) : XM (result goerr jobExecution) :=
  match ex_attestor x with
  | None => mret (Ok x)
  | Some att =>
      foldX (fun x step => if bool_decide (step ∈ completed) then stored_link att job x step else mret (Ok x)) linkedPipelineStages x
  end.

(** ** The bundle *)

Definition finalizeAttestation (job : Job) (x : jobExecution) : XM (result goerr unit) :=
  match ex_attestor x with
  | None => mret (Ok tt)
  | Some att =>
      now ← answer CallVerify clock_of;
      match @VerifyChain R (Generator att) now (ex_layout x) (Some <$> ex_links x) (ex_subject x) with
      | Err e =>
          fail_with (wrapf2 ("job " +:+ JobID job +:+ ": its attestation does not verify") (attestation_error e) ErrAttestationInvalid
            ("Its results are kept but cannot be attested. Check whether objects under " +:+ go_quote (attestationKey job "")
             +:+ " were modified or deleted, then start a new job: " +:+ new_job job))
      | Ok _ =>
          match MarshalBundle (ex_layout x) (Some <$> ex_links x) with
          | Err e =>
              fail_with (wrapf2 ("job " +:+ JobID job +:+ ": its attestation bundle could not be encoded") (attestation_error e)
                ErrAttestationSigning (job_hint job))
          | Ok bundle =>
              _ ←! putAttestation job "bundle" (attestationKey job "bundle.json") bundle;
              match AuditSubject (TenantID job) "events" (JobID job) with
              | Err _ => mret (Ok tt)
              | Ok _ => if sv_bus sv then (try_or_log (CallPublishAudit bundle) ≫= fun _ => mret (Ok tt)) else mret (Ok tt)
              end
          end
      end
  end.

(** ** Analysis *)

Definition missing_catalog (job : Job) : goerr :=
  TenantError ErrMissingCatalogID ("job " +:+ JobID job +:+ " cannot run: " +:+ ErrMissingCatalogID
    +:+ ". Analysis runs over imported catalogs; start a new analysis with " +:+ in_quotes (new_job job)).

Definition catalog_unreadable (job : Job) (cats : Catalogs) (catalogID : string) (err : goerr) : goerr :=
  let source := if bool_decide (SourceID cats = catalogID) then "<catalog-id>" else SourceID cats in
  let target := if bool_decide (TargetID cats = catalogID) then "<catalog-id>" else TargetID cats in
  if is_err err ErrCatalogNotFound
  then Wrap ("job " +:+ JobID job +:+ " cannot run: catalog " +:+ catalogID +:+ " was not found: " +:+ Error_text err
         +:+ ": it may have been deleted or purged. Import the same file again (it gets the same catalog ID) and resume this job: "
         +:+ "crosscodex run retry --from-failure " +:+ JobID job +:+ ", or start a new job with another catalog: "
         +:+ jobCommand cats source target) [err]
  else Wrap ("job " +:+ JobID job +:+ " cannot run: the name of catalog " +:+ catalogID +:+ " could not be read: " +:+ Error_text err
         +:+ ". Check that the database is reachable. " +:+ job_hint job) [err].

(** A catalog's name as the job recorded it, or its current one. *)
Definition framework (job : Job) (cats : Catalogs) (frameworks : gmap string string) (catalogID : string)
  : XM (result goerr (gmap string string)) :=
  r ← answer (CallSnapshot catalogID) name_of;
  match r with
  | Err err => fail_with (catalog_unreadable job cats catalogID err)
  | Ok current =>
      let label := LabelOf cats catalogID in
      mret (Ok (<[catalogID := if Recorded label then Jobconfig.Name label else current]> frameworks))
  end.

Definition classifySectionClass : string := "compliance-section".
Definition PropStatus : string := "status".
Definition PropStatusWithdrawn : string := "withdrawn".

Definition hasStatement (c : Control) : bool :=
  negb (bool_decide (default "" (Parts c !! "class") = classifySectionClass))
  && negb (bool_decide (default "" (Parts c !! PropStatus) = PropStatusWithdrawn))
  && negb (bool_decide (TrimSpace (Statement c) = "")).

Definition empty_target (job : Job) (cats : Catalogs) (catalogID : string) : goerr :=
  TenantError ErrEmptyTargetCatalog ("job " +:+ JobID job +:+ " cannot run: target catalog " +:+ catalogID
    +:+ " has no control with a statement, so no source control can be mapped onto it: " +:+ ErrEmptyTargetCatalog
    +:+ ". Check its controls with " +:+ in_quotes ("crosscodex catalog inspect " +:+ catalogID)
    +:+ ", then start a new job with another target: " +:+ jobCommand cats (SourceID cats) "<catalog-id>").

Definition catalog_controls (job : Job) (cats : Catalogs) (controls : list Control) (catalogID : string)
  : XM (result goerr (list Control)) :=
  fetched ←! wrapping ("runAnalysis: fetching controls of catalog " +:+ catalogID) (answer (CallControls catalogID) controls_of);
  if CrossCatalog cats && bool_decide (catalogID = TargetID cats) && negb (existsb hasStatement fetched)
  then fail_with (empty_target job cats catalogID)
  else mret (Ok (controls ++ fetched)).

(** The first [StageError] of an error's tree. *)
Fixpoint stage_error (e : goerr) : option goerr :=
  match e with
  | StageError _ _ _ _ => Some e
  | Wrap _ es => (fix first l := match l with [] => None | e :: l => match stage_error e with Some s => Some s | None => first l end end) es
  | JobFailure _ e => stage_error e
  | _ => None
  end.

Definition analysis_failed (p : PassResult) : goerr :=
  let failErr := Plain ("analysis failed: " +:+ pretty (length (ps_Failed p)) +:+ " analyzers failed: [" +:+ join " " (ps_Failed p) +:+ "]") in
  let stageErrs := omap (fun name => e ← ps_Errors p !! name; stage_error e) (ps_Failed p) in
  if bool_decide (length stageErrs = 0%nat) then failErr
  else
    let joined := Wrap (join (String.String "010" "") (Error_text <$> stageErrs)) stageErrs in
    Wrap (Error_text failErr +:+ ": " +:+ Error_text joined) [failErr; joined].

(** The cache use of the analyzers this pass itself completed. *)
Definition pass_runs (names : list string) (p : PassResult) (runs : gmap string analyzerCacheRun) : gmap string analyzerCacheRun :=
  foldl (fun runs name => <[name := mkCacheRun (ps_Stats p !! name) (default "" (ps_Attempts p !! name))]> runs) runs
    (filter (fun name => name ∈ names) (ps_Completed p)).

(** A pass is a call of the engine, with the outputs so far; the outputs and
    the run's state come back. *)
Definition runPass (names : list string) (controls : option (list Control)) (label : string)
    (params : gmap string (gmap string string)) (allOutputs : gmap string string) (x : jobExecution)
  : XM (result goerr (gmap string string * jobExecution)) :=
  if bool_decide (length names = 0%nat) then mret (Ok (allOutputs, x))
  else
    p ←! wrapping ("engine.Execute (" +:+ label +:+ ")") (answer (CallEngine names controls params allOutputs) pass_of);
    if bool_decide (length (ps_Failed p) = 0%nat)
    then mret (Ok (ps_Outputs p ∪ allOutputs, set_cacheRuns x (pass_runs names p (ex_cacheRuns x))))
    else fail_with (analysis_failed p).

(** A failed write of the completed status is only logged. *)
Definition generateCandidates (job : Job) : XM (result goerr unit) :=
  _ ←! wrapping "updating candidate_generation stage to running" (attempt (CallStageStatus "candidate_generation" StageStatusRunning));
  r ← attempt CallGenerate;
  match r with
  | Err genErr =>
      try_or_log (CallStageError "candidate_generation" (tenantFailure trace jobID (Config job) genErr)) ≫= fun _ =>
      fail_with (wrapf "candidate generation failed" genErr)
  | Ok _ => try_or_log (CallStageStatus "candidate_generation" StageStatusCompleted) ≫= fun _ => mret (Ok tt)
  end.

Definition valid_config (config : string) : bool :=
  match parse_text config with Some (TObject _) | Some TNull => true | _ => false end.

(** The analyzers of a pass and what they are given. *)
Definition analyze (job : Job) (cats : Catalogs) (completed : gset string) (incomplete done : list string) (dag : DAG) (x : jobExecution)
  : XM (result goerr jobExecution) :=
  if negb (valid_config (Config job)) then fail_with (wrapf "unmarshaling job config" json_error)
  else
    let prePass := List.filter (fun n => negb (candidateDependent n)) incomplete in
    let postPass := List.filter candidateDependent incomplete in
    let analyzerConfig : gmap string (gmap string string) := list_to_map ((fun n => (n, {["job_id" := JobID job]})) <$> Order dag) in
    frameworks ←! (if sv_catalogNames sv then foldX (framework job cats) (CatalogIDs cats) ∅ else mret (Ok ∅));
    controls ←! (if sv_catalogControls sv then foldX (catalog_controls job cats) (CatalogIDs cats) [] else mret (Ok []));
    checkpoints ←! answer (CallPrepareCache incomplete) cache_of;
    let x := set_checkpoints x checkpoints in
    allOutputs ←! wrapping "loading completed analysis results for resume" (answer (CallGetResults done) results_answer);
    pre ←! runPass prePass (Some controls) "pre-candidate pass" analyzerConfig allOutputs x;
    let '(allOutputs, x) := pre in
    _ ←! (if bool_decide (length postPass <> 0%nat /\ "candidate_generation" ∉ completed) && sv_candidateGen sv
          then generateCandidates job else mret (Ok tt));
    analyzerConfig ←!
      (if bool_decide (length postPass = 0%nat) then mret (Ok analyzerConfig)
       else match pairAnalyzerParameters (JobID job) controls frameworks (allOutputs !! "classify") with
            | Err e => fail_with (wrapf "runAnalysis" e)
            | Ok params => mret (Ok (foldl (fun m n => <[n := params]> m) analyzerConfig postPass))
            end);
    post ←! runPass postPass None "candidate-dependent pass" analyzerConfig allOutputs x;
    let '(allOutputs, x) := post in
    match buildVoteSummaryPairs allOutputs with
    | Err e => fail_with (wrapf "runAnalysis: building vote summary pairs" e)
    | Ok pairs =>
        _ ←! wrapping "runAnalysis: writing vote summaries" (attempt (CallWriteVotes pairs));
        mret (Ok x)
    end.

Definition runAnalysis (job : Job) (stages : list Jobconfig.Stage) (completed : gset string) (x : jobExecution)
  : XM (result goerr jobExecution) :=
  match ExtractCatalogs (Config job) with
  | None => fail_with (missing_catalog job)
  | Some cats =>
      dag ←! wrapping "building DAG" (answer CallBuildDAG dag_of);
      match checkJobAnalyzers job stages (Order dag) with
      | Some msg => fail_with (TenantError ErrAnalyzersChanged msg)
      | None =>
          let x := set_dag x dag in
          x ←! match ex_attestor x with
               | None => mret (Ok x)
               | Some att => layout ←! createLayout att job x dag; mret (Ok (set_layout x layout))
               end;
          let completedAnalyzers := filter (fun n => n ∈ completed) (Order dag) in
          let incompleteAnalyzers := filter (fun n => n ∉ completed) (Order dag) in
          if bool_decide (length incompleteAnalyzers = 0%nat) then mret (Ok x)
          else analyze job cats completed incompleteAnalyzers completedAnalyzers dag x
      end
  end.

(** ** Synthesis and graph *)

Definition synthesis_materials (dag : DAG) (links : list SignedLink) : list Artifact :=
  filter (fun l => ln_Step l ∈ Order dag) links ≫= Products.

Definition attestSynthesis (att : Attestor) (job : Job) (x : jobExecution) (encoded : option string) : XM (result goerr jobExecution) :=
  dag ← the_dag x;
  match encoded with
  | None =>
      fail_with (wrapf2 ("job " +:+ JobID job +:+ ": the synthesis result could not be encoded for its attestation link") json_error
        ErrAttestationSigning (job_hint job))
  | Some encoded =>
      link ←! createLink att job x "synthesis" (synthesis_materials dag (ex_links x))
                [mkArtifact "synthesis.output" (contentDigest encoded)] ∅;
      mret (Ok (add_link x link))
  end.

(** Where a stage's own link is stored before it is recorded as completed. *)
Definition link_stage (job : Job) (stage : string) (m : XM (result goerr jobExecution)) : XM (result goerr jobExecution) :=
  r ← m;
  match r with
  | Err e => failPipelineStage job stage e ≫= fun _ => fail_with e
  | Ok x => mret (Ok x)
  end.

Definition stage_completed (t j stage : string) (x : jobExecution) : XM (result goerr jobExecution) :=
  try_or_log (CallStageStatus stage StageStatusCompleted) ≫= fun _ =>
  publishStageEvent t j stage StageCompleted ≫= fun _ => mret (Ok x).

Definition similarities (cats : Catalogs) (m : gmap string similarityMatrix) (model : string) : XM (result goerr (gmap string similarityMatrix)) :=
  matrix ←! wrapping ("runSynthesis: reading similarity matrix for model " +:+ go_quote model) (answer (CallSimilarity model) matrix_of);
  mret (Ok (<[model := matrix]> m)).

Definition read_results {A} (what : string) (read : string -> option (list A)) (data : option string) : XM (result goerr (list A)) :=
  match results_of read data with
  | Some l => mret (Ok l)
  | None => fail_with (wrapf ("runSynthesis: unmarshaling " +:+ what +:+ " results") json_error)
  end.

Definition runSynthesis (job : Job) (x : jobExecution) : XM (result goerr jobExecution) :=
  _ ←! wrapping "updating synthesis stage to running" (attempt (CallStageStatus "synthesis" StageStatusRunning));
  publishStageEvent tenantID jobID "synthesis" StageStarted ≫= fun _ =>
  outputs ←! wrapping "runSynthesis: loading analysis results"
               (answer (CallGetResults ["classify"; "requires"; "relationship"]) results_answer);
  classifyResults ←! read_results "classify" read_classified (outputs !! "classify");
  requiresResults ←! read_results "requires" read_requires (outputs !! "requires");
  relResults ←! read_results "relationship" read_matches (outputs !! "relationship");
  sims ←! match ExtractCatalogs (Config job) with
          | Some cats => if sv_embeddings sv then foldX (similarities cats) (sv_models sv) ∅ else mret (Ok ∅)
          | None => mret (Ok ∅)
          end;
  inputs ← lift_panic (buildSynthesisInputs classifyResults requiresResults relResults sims);
  match inputs with
  | Err e => fail_with (wrapf "runSynthesis" e)
  | Ok (inputs, classifications) =>
      r ← answer (CallSynthesize inputs classifications) synthesis_of;
      match r with
      | Err e =>
          try_or_log (CallStageStatus "synthesis" StageStatusFailed) ≫= fun _ =>
          publishStageEvent tenantID jobID "synthesis" StageFailed ≫= fun _ => fail_with (wrapf "synthesis.Execute" e)
      | Ok encoded =>
          x ←! match ex_attestor x with
               | None => mret (Ok x)
               | Some att => link_stage job "synthesis" (attestSynthesis att job x encoded)
               end;
          stage_completed tenantID jobID "synthesis" x
      end
  end.

(** The products of the last synthesis link. *)
Definition synthesis_products (links : list SignedLink) : list Artifact :=
  match last (filter (fun l => ln_Step l = "synthesis") links) with Some l => Products l | None => [] end.

Definition graph_link (att : Attestor) (job : Job) (x : jobExecution) : XM (result goerr jobExecution) :=
  link ←! createLink att job x "graph" (synthesis_products (ex_links x)) [] ∅;
  mret (Ok (add_link x link)).

Definition runGraph (job : Job) (x : jobExecution) : XM (result goerr jobExecution) :=
  _ ←! wrapping "updating graph stage to running" (attempt (CallStageStatus "graph" StageStatusRunning));
  publishStageEvent (TenantID job) (JobID job) "graph" StageStarted ≫= fun _ =>
  x ←! match ex_attestor x with
       | None => mret (Ok x)
       | Some att => link_stage job "graph" (graph_link att job x)
       end;
  stage_completed (TenantID job) (JobID job) "graph" x.

(** ** A run *)

(** A phase that fails ends the run: interrupted if the context is done. *)
Definition or_end {A} (job : Job) (m : XM (result goerr A)) (k : A -> XM unit) : XM unit :=
  r ← m;
  match r with
  | Ok a => k a
  | Err e =>
      cause ← is_done;
      match cause with Some _ => interruptJob | None => failJob (Some job) e end
  end.

Definition complete_job : XM unit :=
  claimed ← claimCompletion;
  if (claimed : bool) then
    try_or_log (CallJobStatus JobStatusCompleted None) ≫= fun _ => publishJobState JobStatusCompleted
  else interruptJob.

Definition run_phases (job : Job) (stages : list Jobconfig.Stage) : XM unit :=
  let completed := completedStageSet stages in
  let x := mkExec (forTenant (attestors sv) tenantID) (jobSubject job) None None [] false ∅ in
  or_end job (loadStoredLinks job completed x) (fun x =>
  or_end job (runAnalysis job stages completed x) (fun x =>
  or_end job (attestAnalyzers job x) (fun x =>
  or_end job (if bool_decide ("synthesis" ∈ completed) then mret (Ok x) else runSynthesis job x) (fun x =>
  or_end job (if bool_decide ("graph" ∈ completed) then mret (Ok x) else runGraph job x) (fun x =>
  is_done ≫= fun cause =>
  match cause with
  | Some _ => interruptJob
  | None => or_end job (finalizeAttestation job x) (fun _ => complete_job)
  end))))).

(** From the job's record on. *)
Definition run_job (job : Job) : XM unit :=
  r ← attempt (CallJobStatus JobStatusRunning None);
  match r with
  | Err e => failJob (Some job) (wrapf "updating job status" e)
  | Ok _ =>
      publishJobState JobStatusRunning ≫= fun _ =>
      stages ← answer CallGetStages stages_of;
      match stages with
      | Err e => failJob (Some job) (wrapf "loading stages" e)
      | Ok stages => run_phases job stages
      end
  end.

(** Up to the job's record; [None] if the run has ended. *)
Definition load_job : XM (option Job) :=
  match ValidateTenantID tenantID with
  | Err _ => failJob None (wrapf "setting tenant context" (Plain "invalid tenant ID")) ≫= fun _ => mret None
  | Ok _ =>
      r ← answer CallGetJob job_of;
      match r with
      | Err e => failJob None (wrapf "loading job" e) ≫= fun _ => mret None
      | Ok job => mret (Some job)
      end
  end.

(** [None] is a panic that escapes the recovery. What releases the run's entry
    in the service's table comes after. *)
Definition executeJob : XM unit :=
  loaded ← recovering load_job (recover_panic None ≫= fun _ => mret None);
  match loaded with
  | None => mret tt
  | Some job => recovering (run_job job) (recover_panic (Some job))
  end.

(** ** The stage reporter *)

(** What the engine's reports write to the store ([DBStageReporter]). *)
Inductive report := Started (analyzer : string) | CompletedWith (analyzer data attempt : string) | FailedWith (analyzer : string) (err : goerr).

Definition report_write (now : Z) (ctx : context) (done : bool) (r : report) : option db_op :=
  match r with
  | Started n => Some (OpStageStatus now ctx jobID n StageStatusRunning)
  | CompletedWith n data attempt => Some (OpComplete now ctx jobID n (if bool_decide (data = "") then "null" else data) attempt)
  | FailedWith n err => if done then None else Some (OpStageError now ctx jobID n (Some (tenantFailure trace jobID "" err)))
  end.

(** What a call of a run writes to the store. *)
Definition call_write (now : Z) (ctx : context) (c : call) : option db_op :=
  match c with
  | CallJobStatus st err => Some (OpJobStatus now ctx jobID st err)
  | CallStageStatus n st => Some (OpStageStatus now ctx jobID n st)
  | CallStageError n err => Some (OpStageError now ctx jobID n (Some err))
  | CallWriteVotes pairs => Some (OpVotes ctx tenantID jobID pairs)
  | _ => None
  end.
End executor.
