(* ===== verification/ExecutorFacts.v ===== *)
(** What a run of a job may write, and when ([Executor]). *)

From S2P Require Import Prelude Float64 Gostrings Tenant Subjects Sha256 Resultcache Json Jsonread Errors Effects Panics Dag.
From S2P Require Import Jobconfig Joberr Jobstore Attest Results Executor.
Local Open Scope Z_scope.

(** * Definitions *)

Section facts.
Context `{W : World} `{R : GoRuntime} `{GoQuote} `{Stats}.
Variable sv : Service.
Variables (tenantID jobID : string).
Variable trace : string.

Implicit Types (h : list call) (c : call).

(** What the run has read and stored. *)
Definition loaded h (job : Job) : Prop := exists h1 h2, h = (h1 ++ [CallGetJob]) ++ h2 /\ job_of (h1 ++ [CallGetJob]) = Ok job.
Definition read_stages h (stages : list Jobconfig.Stage) : Prop :=
  exists h1 h2, h = (h1 ++ [CallGetStages]) ++ h2 /\ stages_of (h1 ++ [CallGetStages]) = Ok stages.
Definition stored h (key data : string) : Prop :=
  exists h1 h2, h = (h1 ++ [CallPut key data]) ++ h2 /\ error_of (h1 ++ [CallPut key data]) = None.

Definition attestor : option Attestor := forTenant (attestors sv) tenantID.

(** A layout signed for exactly the analyzers the job was created with. *)
Definition layout_of (att : Attestor) (job : Job) (stages : list Jobconfig.Stage) (ly : SignedLayout) : Prop :=
  exists dag now, checkJobAnalyzers job stages (Order dag) = None /\
    @CreateLayout (Generator att) now (mkOptions (layout_steps (jobSubject job) dag) [] (at_ExpiresIn att)) = Ok ly.

(** The whole attestation of the job verified, and its bundle is stored. *)
Definition attested (att : Attestor) (job : Job) (stages : list Jobconfig.Stage) h : Prop :=
  exists ly links now chain bundle, layout_of att job stages ly /\
    @VerifyChain R (Generator att) now (Some ly) (Some <$> links) (jobSubject job) = Ok chain /\
    MarshalBundle (Some ly) (Some <$> links) = Ok bundle /\ stored h (attestationKey job "bundle.json") bundle.

(** A link for [stage], signed over this job, is stored. *)
Definition linked (att : Attestor) (job : Job) (stage : string) h : Prop :=
  exists own materials products extra link,
    @CreateLink (Generator att) own stage (jobSubject job :: materials) products extra = Ok link /\
    stored h (attestationKey job (linkName stage)) (Raw link).

(** The engine ran analyzer [n] in a pass that it answered without a failed
    analyzer. *)
Definition passed h (n : string) : Prop :=
  exists names controls params outs p h1 h2, h = (h1 ++ [CallEngine names controls params outs]) ++ h2 /\
    pass_of (h1 ++ [CallEngine names controls params outs]) = Ok p /\ ps_Failed p = [] /\ n ∈ names.

(** Candidates were generated, without an error. *)
Definition generated h : Prop :=
  exists h1 h2, h = (h1 ++ [CallGenerate]) ++ h2 /\ error_of (h1 ++ [CallGenerate]) = None.

(** The synthesis was computed, without an error. *)
Definition synthesized h : Prop :=
  exists inputs classes encoded h1 h2, h = (h1 ++ [CallSynthesize inputs classes]) ++ h2 /\
    synthesis_of (h1 ++ [CallSynthesize inputs classes]) = Ok encoded.

(** The DAG of the run, built from the analyzers that are registered. *)
Definition built h (dag : DAG) : Prop :=
  exists h1 h2, h = (h1 ++ [CallBuildDAG]) ++ h2 /\ dag_of (h1 ++ [CallBuildDAG]) = Ok dag.

(** Every analyzer of the job is done, by an earlier run or by this one, and
    so are the candidates, if the run has analyzers that need them (and the
    service generates them). *)
Definition analyzed (job : Job) (stages : list Jobconfig.Stage) h : Prop :=
  exists dag, built h dag /\ checkJobAnalyzers job stages (Order dag) = None /\
    (forall n, n ∈ Order dag -> n ∈ completedStageSet stages \/ passed h n) /\
    ((exists n, n ∈ Order dag /\ (n ∉ completedStageSet stages) /\ candidateDependent n = true) ->
     "candidate_generation" ∈ completedStageSet stages \/ sv_candidateGen sv = false \/ generated h).

(** One of the pipeline's own stages: an earlier run completed it, or this one
    did its work and asked the store to record it as completed. *)
Definition stage_done (stages : list Jobconfig.Stage) (n : string) h : Prop :=
  n ∈ completedStageSet stages \/ ((n = "synthesis" -> synthesized h) /\ CallStageStatus n StageStatusCompleted ∈ h).

Definition may_complete h : Prop :=
  exists job stages, loaded h job /\ read_stages h stages /\ analyzed job stages h /\
    (forall n, n ∈ linkedPipelineStages -> stage_done stages n h) /\
    (forall att, attestor = Some att -> attested att job stages h).

(** A terminal status of the job. *)
Definition terminal c : Prop :=
  match c with CallJobStatus st _ => st <> JobStatusRunning | _ => False end.

(** What a call of a run needs of the calls before it. *)
Definition allowed_status h (st : JobStatus) (err : option goerr) : Prop :=
  (st = JobStatusRunning /\ err = None) \/
  ((Forall (fun c => ~ terminal c) h \/ last h = Some CallRecover) /\
   ((st = JobStatusCompleted /\ err = None /\ last h = Some CallClaim /\ done_of h = None /\ may_complete h) \/
    (st = JobStatusCancelled /\ err = None /\ last h = Some CallContext /\ done_of h = Some ErrJobCancelled) \/
    (st = JobStatusFailed /\ (exists config e, err = Some (tenantFailure trace jobID config e)) /\
     (last h = Some CallContext /\ done_of h = None \/ last h = Some CallRecover)))).

Definition allowed_call h c : Prop :=
  match c with
  | CallJobStatus st err => allowed_status h st err
  | CallStageStatus n st =>
      st = StageStatusCompleted -> n = "candidate_generation" \/
        (n ∈ linkedPipelineStages /\
         forall att, attestor = Some att -> exists job, loaded h job /\ linked att job n h)
  | _ => True
  end.

(** Calls that need nothing of the calls before them. *)
Definition quiet c : Prop :=
  match c with
  | CallJobStatus st _ => False
  | CallStageStatus n st => st = StageStatusCompleted -> n = "candidate_generation"
  | _ => True
  end.

Lemma quiet_allowed h c : quiet c -> allowed_call h c.
Proof. destruct c; cbn; try done. intros Hq Hst. left. auto. Qed.

Lemma quiet_terminal c : quiet c -> ~ terminal c.
Proof. destruct c; cbn; tauto. Qed.

(** * Quiet programs *)

Abbreviation XM := (X call).
Abbreviation any := (fun _ => True).

(** [m] makes quiet calls only, and its value satisfies [Q]. *)
Definition quietly {A} (m : XM A) (Q : A -> Prop) : Prop := xhoare (fun _ c => quiet c) any m (fun a _ => Q a) any.

Lemma quietly_ret {A} (a : A) (Q : A -> Prop) : Q a -> quietly (mret a) Q.
Proof. intros HQ. by apply xhoare_ret. Qed.

Lemma quietly_call {A} c (f : list call -> A) (Q : A -> Prop) : quiet c -> (forall h, Q (f h)) -> quietly (answer c f) Q.
Proof. intros Hc HQ. apply xhoare_call. intros h _. auto. Qed.

Lemma quietly_bind {A B} (m : XM A) (f : A -> XM B) (P : A -> Prop) (Q : B -> Prop) :
  quietly m P -> (forall a, P a -> quietly (f a) Q) -> quietly (m ≫= f) Q.
Proof.
  intros Hm Hf. eapply xhoare_bind; [exact Hm|]. intros a h Ha. destruct (Hf a Ha h I) as (log & ?). by exists log.
Qed.

(** The value if there is no error. *)
Definition good {A} (Q : A -> Prop) (r : result goerr A) : Prop := match r with Ok a => Q a | Err _ => True end.

Lemma quietly_andthen {A B} (m : XM (result goerr A)) (k : A -> XM (result goerr B)) (P : A -> Prop) (Q : B -> Prop) :
  quietly m (good P) -> (forall a, P a -> quietly (k a) (good Q)) -> quietly (andthen m k) (good Q).
Proof. intros Hm Hk. eapply quietly_bind; [exact Hm|]. intros [a|e] Ha; [by apply Hk|by apply quietly_ret]. Qed.

Lemma quietly_fold {A B} (f : A -> B -> XM (result goerr A)) l a (Q : A -> Prop) :
  Q a -> (forall a x, Q a -> quietly (f a x) (good Q)) -> quietly (foldX f l a) (good Q).
Proof.
  intros Ha Hf. revert a Ha. induction l as [|x l IH]; intros a Ha; cbn; [by apply quietly_ret|].
  eapply quietly_andthen; [by apply Hf|]. apply IH.
Qed.

Lemma quietly_weaken {A} (m : XM A) (P Q : A -> Prop) : quietly m P -> (forall a, P a -> Q a) -> quietly m Q.
Proof. intros Hm HPQ. eapply xhoare_conseq; [exact Hm|done|by auto|done]. Qed.

Lemma quietly_panic {A} (o : option A) (Q : A -> Prop) : (forall a, o = Some a -> Q a) -> quietly (lift_panic o) Q.
Proof. intros HQ h _. exists []. rewrite app_nil_r. split_and!; [done..|]. destruct o; cbn; auto. Qed.
(** ** Programs of which only the calls matter *)

Definition hushed {A} (m : XM A) : Prop := quietly m (fun _ => True).

Lemma hushed_good {A} (m : XM (result goerr A)) : hushed m -> quietly m (good any).
Proof. intros Hm. eapply quietly_weaken; [exact Hm|]. by intros []. Qed.

Lemma hushed_bind {A B} (m : XM A) (f : A -> XM B) : hushed m -> (forall a, hushed (f a)) -> hushed (m ≫= f).
Proof. intros Hm Hf. eapply quietly_bind; [exact Hm|]. intros a _. apply Hf. Qed.

Lemma hushed_andthen {A B} (m : XM (result goerr A)) (k : A -> XM (result goerr B)) :
  hushed m -> (forall a, hushed (k a)) -> hushed (andthen m k).
Proof. intros Hm Hk. apply hushed_bind; [done|]. intros [a|e]; [apply Hk|by apply quietly_ret]. Qed.

Lemma hushed_fold {A B} (f : A -> B -> XM (result goerr A)) l a : (forall a x, hushed (f a x)) -> hushed (foldX f l a).
Proof. intros Hf. revert a. induction l as [|x l IH]; intros a; cbn; [by apply quietly_ret|]. by apply hushed_andthen. Qed.
End facts.

Create HintDb hushed.

(** One call, value or branch after another. *)
Ltac hush :=
  intros; cbv zeta;
  lazymatch goal with
  | |- hushed (mret _) => apply quietly_ret; exact I
  | |- hushed (fail_with _) => apply quietly_ret; exact I
  | |- hushed (lift_panic _) => apply quietly_panic; done
  | |- hushed (the_dag _) => apply quietly_panic; done
  | |- hushed (answer _ _) => apply quietly_call; [cbn; done|done]
  | |- hushed (attempt _) => unfold attempt; hush
  | |- hushed (try_or_log _) => unfold try_or_log; hush
  | |- hushed is_done => unfold is_done; hush
  | |- hushed (_ ≫= _) => apply hushed_bind; hush
  | |- hushed (andthen _ _) => apply hushed_andthen; hush
  | |- hushed (foldX _ _ _) => apply hushed_fold; hush
  | |- hushed (wrapping _ _) => unfold wrapping; hush
  | |- hushed (match ?x with _ => _ end) => destruct x; hush
  | |- _ => auto with hushed
  end.

Section hushed.
Context `{W : World} `{R : GoRuntime} `{GoQuote} `{Stats}.
Variable sv : Service.
Variables (tenantID jobID : string).
Variable trace : string.

Lemma hushed_publishJobState st : hushed (publishJobState sv tenantID jobID st).
Proof. unfold publishJobState. hush. Qed.
Lemma hushed_publishStageEvent t j n e : hushed (publishStageEvent sv t j n e).
Proof. unfold publishStageEvent. hush. Qed.
Hint Resolve hushed_publishJobState hushed_publishStageEvent : hushed.

Lemma hushed_put_attempts n job what key data : hushed (put_attempts sv n job what key data).
Proof. induction n as [|n IH]; cbn [put_attempts]; hush. Qed.
Lemma hushed_readAttestation key : hushed (readAttestation key).
Proof. unfold readAttestation. hush. Qed.
Hint Resolve hushed_put_attempts hushed_readAttestation : hushed.

Lemma hushed_createLink att job x n mats prods extra : hushed (createLink sv att job x n mats prods extra).
Proof. unfold createLink, putAttestation. hush. Qed.
Lemma hushed_failPipelineStage job n e : hushed (failPipelineStage sv jobID trace job n e).
Proof. unfold failPipelineStage. hush. Qed.
Hint Resolve hushed_createLink hushed_failPipelineStage : hushed.

Lemma hushed_completed_attempt name l : hushed (completed_attempt name l).
Proof. induction l as [|[a d] l IH]; cbn [completed_attempt]; hush. Qed.
Hint Resolve hushed_completed_attempt : hushed.

Lemma hushed_cacheRecordOf job x name stage : hushed (cacheRecordOf sv job x name stage).
Proof. unfold cacheRecordOf, run_record, earlier_record, checkNoSignedCompletion. hush. Qed.
Hint Resolve hushed_cacheRecordOf : hushed.

Lemma hushed_framework job cats m n : hushed (framework job cats m n).
Proof. unfold framework. hush. Qed.
Lemma hushed_catalog_controls job cats l n : hushed (catalog_controls job cats l n).
Proof. unfold catalog_controls. hush. Qed.
Lemma hushed_generateCandidates job : hushed (generateCandidates jobID trace job).
Proof. unfold generateCandidates. hush. Qed.
Lemma hushed_similarities cats m n : hushed (similarities cats m n).
Proof. unfold similarities. hush. Qed.
Lemma hushed_read_results {A} what (read : string -> option (list A)) data : hushed (read_results what read data).
Proof. unfold read_results. hush. Qed.
Lemma hushed_finalizeAttestation job x : hushed (finalizeAttestation sv job x).
Proof. unfold finalizeAttestation, putAttestation. hush. Qed.
Hint Resolve hushed_framework hushed_catalog_controls hushed_generateCandidates hushed_similarities hushed_read_results
  hushed_finalizeAttestation : hushed.

(** * What the phases leave *)

Abbreviation XM := (X call).
Abbreviation any := (fun _ => True).

Definition after {A} (pre : list call -> Prop) (m : XM A) (post : A -> list call -> Prop) : Prop :=
  xhoare (fun _ c => quiet c) pre m post any.

Lemma stored_app h l key data : stored h key data -> stored (h ++ l) key data.
Proof. intros (h1 & h2 & -> & He). exists h1, (h2 ++ l). by rewrite <- app_assoc. Qed.

Lemma after_quietly {A} (m : XM A) Q : quietly m Q -> after any m (fun a _ => Q a).
Proof. done. Qed.

(** What a later quiet program cannot undo. *)
Lemma after_then {A B} (m : XM A) (f : A -> XM B) (mid : A -> list call -> Prop) (post : B -> list call -> Prop) :
  after any m mid -> (forall a, after (mid a) (f a) post) -> after any (m ≫= f) post.
Proof. intros Hm Hf. eapply xhoare_bind; [exact Hm|exact Hf]. Qed.

(** A fact that no call undoes. *)
Definition stable (J : list call -> Prop) : Prop := forall h c, J h -> J (h ++ [c]).

Lemma after_keeps {A} (m : XM A) (J : list call -> Prop) post : stable J -> after any m post -> after J m (fun a h => post a h /\ J h).
Proof.
  intros HJ Hm. eapply xhoare_conseq; [apply (xhoare_frame _ any m post any J (fun h c _ => HJ h c) Hm)|done|by auto|done].
Qed.

Definition if_ok {A} (Q : A -> list call -> Prop) (r : result goerr A) (h : list call) : Prop :=
  match r with Ok a => Q a h | Err _ => True end.

(** What the first part leaves stays, and the second adds its own. *)
Lemma after_both {A B} (m : XM (result goerr A)) (k : A -> XM (result goerr B)) (F : A -> list call -> Prop) Q :
  (forall a, stable (F a)) -> after any m (if_ok F) -> (forall a, after any (k a) (if_ok Q)) ->
  after any (andthen m k) (if_ok (fun b h => exists a, F a h /\ Q b h)).
Proof.
  intros HF Hm Hk. eapply xhoare_andthen with (mid := F) (bad := fun _ => any); [exact Hm|done|]. intros a.
  eapply xhoare_conseq; [apply (after_keeps _ (F a) _ (HF a) (Hk a))|done| |done]. intros [b|e] h [Hq Hf]; [by exists a|done].
Qed.

Lemma after_hushed {A B} (m : XM (result goerr A)) (k : A -> XM (result goerr B)) Q :
  hushed m -> (forall a, after any (k a) (if_ok Q)) -> after any (andthen m k) (if_ok Q).
Proof.
  intros Hm Hk. eapply xhoare_bind; [exact Hm|]. intros [a|e]; [eapply xhoare_conseq; [apply Hk|done..]|by apply xhoare_ret].
Qed.

Lemma hushed_after {A} (m : XM (result goerr A)) : hushed m -> after any m (if_ok (fun _ => any)).
Proof. intros Hm. eapply xhoare_conseq; [exact Hm|done|by intros []|done]. Qed.

(** What the answer to a call says is left, for good. *)
Lemma after_answer {A} c (f : list call -> A) (F : A -> list call -> Prop) :
  quiet c -> (forall h, F (f (h ++ [c])) (h ++ [c])) -> after any (answer c f) F.
Proof. intros Hc HF. unfold answer. apply xhoare_call. intros h _. split_and!; [done|intros _; apply HF|done]. Qed.

Lemma after_wrapping {A} what (m : XM (result goerr A)) Q : after any m (if_ok Q) -> after any (wrapping what m) (if_ok Q).
Proof. intros Hm. eapply xhoare_bind; [exact Hm|]. intros [a|e]; by apply xhoare_ret. Qed.

Lemma passed_app h l n : passed h n -> passed (h ++ l) n.
Proof.
  intros (names & controls & params & outs & p & h1 & h2 & -> & Hp). exists names, controls, params, outs, p, h1, (h2 ++ l). by rewrite <- app_assoc.
Qed.
Lemma generated_app h l : generated h -> generated (h ++ l).
Proof. intros (h1 & h2 & -> & He). exists h1, (h2 ++ l). by rewrite <- app_assoc. Qed.
Lemma synthesized_app h l : synthesized h -> synthesized (h ++ l).
Proof. intros (i & c & e & h1 & h2 & -> & He). exists i, c, e, h1, (h2 ++ l). by rewrite <- app_assoc. Qed.
Lemma built_app h l dag : built h dag -> built (h ++ l) dag.
Proof. intros (h1 & h2 & -> & He). exists h1, (h2 ++ l). by rewrite <- app_assoc. Qed.
Lemma analyzed_app job stages h l : analyzed sv job stages h -> analyzed sv job stages (h ++ l).
Proof.
  intros (dag & Hb & Hc & Ha & Hg). exists dag. split_and!; [by apply built_app|done| |].
  - intros n Hn. destruct (Ha n Hn); [by left|right; by apply passed_app].
  - intros Hd. destruct (Hg Hd) as [?|[?|?]]; [by left|by right; left|right; right; by apply generated_app].
Qed.

Lemma put_attempts_stores n job what key data :
  after any (put_attempts sv n job what key data) (fun r h => match r with Ok _ => stored h key data | Err _ => True end).
Proof.
  induction n as [|n IH]; cbn [put_attempts].
  all: eapply after_then with (mid := fun r h => match r with Ok _ => stored h key data | Err _ => True end);
    [unfold attempt; apply xhoare_call; intros h _; split_and!; [done| |done]; intros _; destruct (error_of _) eqn:He; [done|];
     exists h, []; by rewrite app_nil_r|].
  all: intros [[]|e]; [by apply xhoare_ret|].
  all: eapply xhoare_bind with (mid := fun _ => any); [unfold is_done; by apply xhoare_call|]; intros [c|]; [by apply xhoare_ret|].
  - by apply xhoare_ret.
  - eapply xhoare_bind with (mid := fun _ => any); [by apply xhoare_call|]. intros [|]; [|by apply xhoare_ret].
    eapply xhoare_conseq; [exact IH|done..].
Qed.

Lemma createLink_stores att job x n mats prods extra :
  after any (createLink sv att job x n mats prods extra) (fun r h =>
    match r with
    | Ok link => (exists own, @CreateLink (Generator att) own n (ex_subject x :: mats) prods extra = Ok link) /\
        stored h (attestationKey job (linkName n)) (Raw link)
    | Err _ => True
    end).
Proof.
  unfold createLink. eapply after_then with (mid := fun _ => any); [by apply xhoare_call|]. intros own.
  destruct (CreateLink _ _ _ _ _) as [link|e] eqn:Hl; [|by apply xhoare_ret].
  unfold andthen. eapply xhoare_bind; [apply put_attempts_stores|]. intros [[]|e]; apply xhoare_ret; [|done].
  intros h Hs. split; [by exists own|done].
Qed.

(** ** The state of a run *)

Definition about (job : Job) (x : jobExecution) : Prop := ex_subject x = jobSubject job /\ ex_attestor x = attestor sv tenantID.

(** The layout is the job's, if its tenant attests. *)
Definition laid (job : Job) (stages : list Jobconfig.Stage) (x : jobExecution) : Prop :=
  about job x /\ forall att, attestor sv tenantID = Some att -> exists ly, ex_layout x = Some ly /\ layout_of att job stages ly.

Lemma laid_add_link job stages x l : laid job stages x -> laid job stages (add_link x l).
Proof. done. Qed.

Lemma createLayout_signs att job x dag :
  quietly (createLayout sv att job x dag) (good (fun ly => exists now,
    @CreateLayout (Generator att) now (mkOptions (layout_steps (ex_subject x) dag) [] (at_ExpiresIn att)) = Ok ly)).
Proof.
  unfold createLayout, putAttestation. eapply quietly_bind with (P := any); [by apply quietly_call|]. intros now _.
  destruct (CreateLayout _ _) as [ly|e] eqn:Hl; [|by apply quietly_ret].
  eapply quietly_andthen with (P := any); [apply hushed_good; hush|]. intros _ _. apply quietly_ret. by exists now.
Qed.

Lemma stored_link_about att job x n : about job x -> quietly (stored_link att job x n) (good (about job)).
Proof.
  intros Hx. unfold stored_link. eapply quietly_bind with (P := any); [apply hushed_readAttestation|]. intros [raw|e] _; [|by apply quietly_ret].
  destruct (Verify raw) as [v|e]; [|by apply quietly_ret]. destruct (negb _); [by apply quietly_ret|]. destruct (negb _); by apply quietly_ret.
Qed.

Lemma loadStoredLinks_about job completed x : about job x -> quietly (loadStoredLinks job completed x) (good (about job)).
Proof.
  intros Hx. unfold loadStoredLinks. destruct (ex_attestor x) as [att|]; [|by apply quietly_ret].
  apply quietly_fold; [done|]. intros y n Hy. case_bool_decide; [by apply stored_link_about|by apply quietly_ret].
Qed.

Lemma runPass_laid names controls label params outs job stages x :
  laid job stages x -> quietly (runPass names controls label params outs x) (good (fun p => laid job stages p.2)).
Proof.
  intros Hx. unfold runPass. case_bool_decide; [by apply quietly_ret|].
  eapply quietly_andthen with (P := any); [apply hushed_good; hush|]. intros p _. case_bool_decide; by apply quietly_ret.
Qed.

Lemma analyze_laid job stages cats completed inc dn dag x :
  laid job stages x -> quietly (analyze sv jobID trace job cats completed inc dn dag x) (good (laid job stages)).
Proof.
  intros Hx. unfold analyze. destruct (negb _); [by apply quietly_ret|]. cbv zeta.
  eapply quietly_andthen with (P := any); [apply hushed_good; hush|]. intros frameworks _.
  eapply quietly_andthen with (P := any); [apply hushed_good; hush|]. intros controls _.
  eapply quietly_andthen with (P := any); [apply hushed_good; hush|]. intros ck _.
  eapply quietly_andthen with (P := any); [apply hushed_good; hush|]. intros outs _.
  eapply quietly_andthen; [by apply (runPass_laid _ _ _ _ _ job stages)|]. intros [outs1 x1] Hx1. cbn in Hx1.
  eapply quietly_andthen with (P := any); [apply hushed_good; hush|]. intros _ _.
  eapply quietly_andthen with (P := any); [apply hushed_good; hush|]. intros params _.
  eapply quietly_andthen; [by apply (runPass_laid _ _ _ _ _ job stages)|]. intros [outs2 x2] Hx2. cbn in Hx2.
  destruct (buildVoteSummaryPairs outs2); [|by apply quietly_ret].
  eapply quietly_andthen with (P := any); [apply hushed_good; hush|]. intros _ _. by apply quietly_ret.
Qed.

Lemma runAnalysis_laid job stages completed x :
  about job x -> quietly (runAnalysis sv jobID trace job stages completed x) (good (laid job stages)).
Proof.
  intros [Hs Ha]. unfold runAnalysis. destruct (ExtractCatalogs _) as [cats|]; [|by apply quietly_ret].
  eapply quietly_andthen with (P := any); [apply hushed_good; hush|]. intros dag _.
  destruct (checkJobAnalyzers job stages (Order dag)) as [msg|] eqn:Hc; [by apply quietly_ret|]. cbv zeta.
  eapply quietly_andthen with (P := laid job stages).
  - destruct (ex_attestor (set_dag x dag)) as [att|] eqn:Hatt; cbn in Hatt.
    + eapply quietly_andthen; [apply createLayout_signs|]. intros ly [now Hly]. apply quietly_ret. split; [done|].
      intros att' Hatt'. rewrite Hatt, Hatt' in Ha. injection Ha as ->. exists ly. split; [done|]. exists dag, now.
      split; [done|]. cbn in Hly. by rewrite Hs in Hly.
    + apply quietly_ret. split; [done|]. intros att Hatt'. congruence.
  - intros y Hy. case_bool_decide; [by apply quietly_ret|by apply analyze_laid].
Qed.

(** ** What the analysis leaves *)

Lemma runPass_passed names controls label params outs x :
  after any (runPass names controls label params outs x) (if_ok (fun _ h => forall n, n ∈ names -> passed h n)).
Proof.
  unfold runPass. case_bool_decide as Hnil.
  { destruct names; [|done]. apply xhoare_ret. intros h _ n Hn. by apply elem_of_nil in Hn. }
  eapply xhoare_andthen with (bad := fun _ => any) (mid := fun p h => ps_Failed p = [] -> forall n, n ∈ names -> passed h n).
  - apply after_wrapping, after_answer; [done|]. intros h. destruct (pass_of _) as [p|] eqn:Hp; [|done].
    intros Hf n Hn. exists names, controls, params, outs, p, h, []. by rewrite app_nil_r.
  - done.
  - intros p. case_bool_decide as Hf; apply xhoare_ret; [|done]. intros h Hh n Hn. apply Hh; [|done]. by destruct (ps_Failed p).
Qed.

Lemma generateCandidates_generated job : after any (generateCandidates jobID trace job) (if_ok (fun _ => generated)).
Proof.
  unfold generateCandidates. apply after_hushed; [hush|]. intros _.
  eapply after_then with (mid := if_ok (fun _ => generated)).
  - unfold attempt. apply after_answer; [done|]. intros h. destruct (error_of _) eqn:He; [done|]. exists h, []. by rewrite app_nil_r.
  - intros [u|e].
    + eapply xhoare_bind with (mid := fun _ => generated); [|intros u'; by apply xhoare_ret].
      unfold try_or_log, answer. apply xhoare_call. intros h Hg. split_and!; [done| |done]. intros _. by apply generated_app.
    + eapply xhoare_bind with (mid := fun _ => any); [|intros u'; by apply xhoare_ret].
      unfold try_or_log. by apply xhoare_call.
Qed.

Lemma analyze_passed job cats completed inc dn dag x :
  after any (analyze sv jobID trace job cats completed inc dn dag x) (if_ok (fun _ h =>
    (forall n, n ∈ inc -> passed h n) /\
    ((exists n, n ∈ inc /\ candidateDependent n = true) ->
     "candidate_generation" ∈ completed \/ sv_candidateGen sv = false \/ generated h))).
Proof.
  unfold analyze. destruct (negb _); [by apply xhoare_ret|]. cbv zeta.
  do 4 (apply after_hushed; [hush|]; intros ?).
  eapply xhoare_conseq; [eapply after_both with (F := fun _ h => forall n, n ∈ List.filter (fun n => negb (candidateDependent n)) inc -> passed h n)
    (Q := fun _ h => ((exists n, n ∈ inc /\ candidateDependent n = true) ->
      "candidate_generation" ∈ completed \/ sv_candidateGen sv = false \/ generated h) /\
      forall n, n ∈ List.filter candidateDependent inc -> passed h n)|done| |done].
  - intros p h c Hp n Hn. by apply passed_app, Hp.
  - apply runPass_passed.
  - intros [outs1 x1]. eapply xhoare_conseq; [eapply after_both with
      (F := fun _ h => (exists n, n ∈ inc /\ candidateDependent n = true) ->
        "candidate_generation" ∈ completed \/ sv_candidateGen sv = false \/ generated h)
      (Q := fun _ h => forall n, n ∈ List.filter candidateDependent inc -> passed h n)|done| |done].
    + intros u h c Hg Hd. destruct (Hg Hd) as [?|[?|?]]; [by left|by right; left|right; right; by apply generated_app].
    + destruct (bool_decide (length _ <> _ /\ _)) eqn:Hd; cbn [andb].
      * destruct (sv_candidateGen sv); [|apply xhoare_ret; intros h _ _; by right; left].
        eapply xhoare_conseq; [apply generateCandidates_generated|done| |done]. intros [u|e] h Hg; [|done]. intros _. by right; right.
      * apply xhoare_ret. intros h _ (n & Hn & Hdep). left. apply bool_decide_eq_false in Hd.
        destruct (decide ("candidate_generation" ∈ completed)) as [?|Hc]; [done|]. exfalso. apply Hd. split; [|done].
        intros Hl. apply nil_length_inv in Hl. assert (n ∈ List.filter candidateDependent inc) as Hin.
        { apply list_elem_of_In, filter_In. by rewrite <- list_elem_of_In. }
        rewrite Hl in Hin. by apply elem_of_nil in Hin.
    + intros []. apply after_hushed; [hush|]. intros params.
      eapply xhoare_conseq; [eapply after_both with (F := fun _ h => forall n, n ∈ List.filter candidateDependent inc -> passed h n) (Q := fun _ => any)
        |done| |done].
      * intros p h c Hp n Hn. by apply passed_app, Hp.
      * apply runPass_passed.
      * intros [outs2 x2]. apply hushed_after. destruct (buildVoteSummaryPairs outs2); hush.
      * intros [y|e] h Hh; [|done]. by destruct Hh as (p & Hp & _).
    + intros [y|e] h Hh; [|done]. by destruct Hh as (p & Hp & Hq).
  - intros [y|e] h Hh; [|done]. destruct Hh as (p & Hp & Hg & Hq). split; [|done]. intros n Hn.
    destruct (candidateDependent n) eqn:Hd; [apply Hq|apply Hp]; apply list_elem_of_In, filter_In; rewrite <- list_elem_of_In;
      by rewrite ?Hd.
Qed.

Lemma runAnalysis_analyzed job stages x :
  after any (runAnalysis sv jobID trace job stages (completedStageSet stages) x) (if_ok (fun _ => analyzed sv job stages)).
Proof.
  unfold runAnalysis. destruct (ExtractCatalogs _) as [cats|]; [|by apply xhoare_ret].
  set (dc := completedStageSet stages).
  eapply xhoare_andthen with (bad := fun _ => any) (mid := fun dag h => built h dag).
  { apply after_wrapping, after_answer; [done|]. intros h. destruct (dag_of _) eqn:Hd; [|done]. exists h, []. by rewrite app_nil_r. }
  { done. }
  intros dag. destruct (checkJobAnalyzers job stages (Order dag)) as [msg|] eqn:Hc; [by apply xhoare_ret|]. cbv zeta.
  set (G := fun h : list call => (forall n, n ∈ Order dag -> n ∈ dc \/ passed h n) /\
    ((exists n, n ∈ Order dag /\ (n ∉ dc) /\ candidateDependent n = true) ->
     "candidate_generation" ∈ dc \/ sv_candidateGen sv = false \/ generated h)).
  eapply xhoare_conseq; [apply (after_keeps _ (fun h => built h dag) (if_ok (fun _ => G))); [intros h c; apply built_app|]|done| |done].
  - apply after_hushed.
    + destruct (ex_attestor _); [|hush]. unfold createLayout, putAttestation. hush.
    + intros y. case_bool_decide as Hlen.
      * apply nil_length_inv in Hlen. apply xhoare_ret. intros h _.
        assert (forall n, n ∈ Order dag -> n ∈ dc) as Hall.
        { intros n Hn. destruct (decide (n ∈ dc)) as [?|Hnd]; [done|]. assert (n ∈ filter (fun n => n ∉ dc) (Order dag)) as Hin by by apply list_elem_of_filter.
          rewrite Hlen in Hin. by apply elem_of_nil in Hin. }
        split; [by auto|]. intros (n & Hn & Hnd & _). by apply Hall in Hn.
      * eapply xhoare_conseq; [apply analyze_passed|done| |done]. intros [z|e] h Hh; [|done]. destruct Hh as [Hp Hg]. split.
        -- intros n Hn. destruct (decide (n ∈ dc)) as [?|Hnd]; [by left|right]. apply Hp. by apply list_elem_of_filter.
        -- intros (n & Hn & Hnd & Hd). apply Hg. exists n. by rewrite list_elem_of_filter.
  - intros [z|e] h Hh; [|done]. destruct Hh as [[Hp Hg] Hb]. exists dag. by split_and!.
Qed.

Lemma attestAnalyzers_laid job stages x : laid job stages x -> quietly (attestAnalyzers sv job x) (good (laid job stages)).
Proof.
  intros Hx. unfold attestAnalyzers. destruct (ex_attestor x) as [att|]; [|by apply quietly_ret].
  eapply quietly_bind with (P := any); [by apply quietly_panic|]. intros dag _. cbv zeta.
  eapply quietly_andthen with (P := any); [apply hushed_good; hush|]. intros results _.
  destruct (result_digests _ _ _ _) as [digests|]; [|by apply quietly_ret].
  eapply quietly_andthen with (P := any); [apply hushed_good; hush|]. intros sts _.
  eapply quietly_andthen with (P := any); [apply hushed_good; hush|]. intros records _.
  apply quietly_fold; [done|]. intros y a Hy. unfold attest_analyzer.
  eapply quietly_andthen with (P := any); [apply hushed_good; hush|]. intros l _. by apply quietly_ret.
Qed.

(** ** Stages with a link *)

Definition linked_ok (job : Job) (stages : list Jobconfig.Stage) (n : string) (r : result goerr jobExecution) (h : list call) : Prop :=
  match r with
  | Ok x => laid job stages x /\ forall att, attestor sv tenantID = Some att -> linked att job n h
  | Err _ => True
  end.

Lemma createLink_linked att job stages x n mats prods extra :
  laid job stages x -> ex_attestor x = Some att ->
  after any (link ←! createLink sv att job x n mats prods extra; mret (Ok (add_link x link))) (linked_ok job stages n).
Proof.
  intros [[Hs Ha] Hl] Hatt. unfold andthen. eapply xhoare_bind; [apply createLink_stores|].
  intros [link|e]; [|by apply xhoare_ret]. apply xhoare_ret. intros h [[own Hc] Hst]. cbn. split; [done|].
  intros att' Hatt'. rewrite Hatt, Hatt' in Ha. injection Ha as ->. rewrite Hs in Hc.
  exists own, mats, prods, extra, link. done.
Qed.

Lemma attestSynthesis_linked att job stages x encoded :
  laid job stages x -> ex_attestor x = Some att -> after any (attestSynthesis sv att job x encoded) (linked_ok job stages "synthesis").
Proof.
  intros Hx Hatt. unfold attestSynthesis. eapply after_then with (mid := fun _ => any); [by apply quietly_panic|]. intros dag.
  destruct encoded; [|by apply xhoare_ret]. eapply xhoare_conseq; [by apply createLink_linked|done..].
Qed.

Lemma link_stage_keeps job stages n m :
  after any m (linked_ok job stages n) -> after any (link_stage sv jobID trace job n m) (linked_ok job stages n).
Proof.
  intros Hm. unfold link_stage. eapply xhoare_bind; [exact Hm|]. intros [x|e]; [by apply xhoare_ret|].
  eapply xhoare_bind with (mid := fun _ => any).
  - eapply xhoare_conseq; [apply (hushed_failPipelineStage job n e)|done..].
  - intros u. by apply xhoare_ret.
Qed.

(** ** While the run goes on *)

Definition calm (h : list call) : Prop := Forall (fun c => ~ terminal c) h.

Definition running (job : Job) (stages : list Jobconfig.Stage) (h : list call) : Prop :=
  loaded h job /\ read_stages h stages /\ calm h.

Definition going (h : list call) (c : call) : Prop := allowed_call sv tenantID jobID trace h c /\ ~ terminal c.

Lemma loaded_app h l job : loaded h job -> loaded (h ++ l) job.
Proof. intros (h1 & h2 & -> & He). exists h1, (h2 ++ l). by rewrite <- app_assoc. Qed.
Lemma read_stages_app h l stages : read_stages h stages -> read_stages (h ++ l) stages.
Proof. intros (h1 & h2 & -> & He). exists h1, (h2 ++ l). by rewrite <- app_assoc. Qed.

Lemma running_stable job stages h c : going h c -> running job stages h -> running job stages (h ++ [c]).
Proof.
  intros [_ Hc] (Hl & Hs & Hcalm). split_and!; [by apply loaded_app|by apply read_stages_app|]. apply Forall_app. split; [done|by constructor].
Qed.

(** A phase keeps the run going; [Q] is what it leaves. *)
Definition phase {A} (job : Job) (stages : list Jobconfig.Stage) (m : XM A) (Q : A -> list call -> Prop) : Prop :=
  xhoare going (running job stages) m (fun a h => Q a h /\ running job stages h) (running job stages).

Lemma after_phase {A} job stages (m : XM A) Q : after any m Q -> phase job stages m Q.
Proof.
  intros Hm. eapply xhoare_conseq; [apply (xhoare_frame going any m Q any (running job stages) (running_stable job stages))| | |].
  - eapply xhoare_allow; [|exact Hm]. intros h c Hc. split; [by apply quiet_allowed|by apply quiet_terminal].
  - done.
  - done.
  - by intros h [_ ?].
Qed.

Lemma phase_bind {A B} job stages (m : XM A) (f : A -> XM B) Q :
  hushed m -> (forall a, phase job stages (f a) Q) -> phase job stages (m ≫= f) Q.
Proof.
  intros Hm Hf. eapply xhoare_bind; [apply (after_phase job stages m (fun _ => any)), Hm|].
  intros a. eapply xhoare_conseq; [apply Hf|by intros h [_ ?]|done..].
Qed.

Lemma phase_andthen {A B} job stages (m : XM (result goerr A)) (k : A -> XM (result goerr B)) (Q : B -> list call -> Prop) :
  hushed m -> (forall a, phase job stages (k a) (fun r h => match r with Ok b => Q b h | Err _ => True end)) ->
  phase job stages (andthen m k) (fun r h => match r with Ok b => Q b h | Err _ => True end).
Proof.
  intros Hm Hk. apply phase_bind; [done|]. intros [a|e]; [apply Hk|]. apply xhoare_ret. done.
Qed.

(** What a completed pipeline stage leaves. *)
Definition stage_left (job : Job) (stages : list Jobconfig.Stage) (n : string) (x : jobExecution) (h : list call) : Prop :=
  laid job stages x /\ (n = "synthesis" -> synthesized h) /\ CallStageStatus n StageStatusCompleted ∈ h.

Lemma stage_completed_phase job stages t j n x :
  n ∈ linkedPipelineStages -> laid job stages x ->
  xhoare going (fun h => (forall att, attestor sv tenantID = Some att -> linked att job n h) /\ running job stages h)
    (stage_completed sv t j n x)
    (fun r h => if_ok (fun x h => laid job stages x /\ CallStageStatus n StageStatusCompleted ∈ h) r h /\ running job stages h) (running job stages).
Proof.
  intros Hn Hx. unfold stage_completed.
  eapply xhoare_bind with (mid := fun _ h => CallStageStatus n StageStatusCompleted ∈ h /\ running job stages h).
  - unfold try_or_log, answer. apply xhoare_call. intros h [Hlink Hrun].
    assert (going h (CallStageStatus n StageStatusCompleted)) as Hgo.
    { split; [|by intros []]. intros _. right. split; [done|]. intros att Hatt. exists job. destruct Hrun as [? _]. auto. }
    pose proof (running_stable job stages h _ Hgo Hrun). split_and!; [done| |done]. intros _. split; [|done].
    apply elem_of_app. right. by left.
  - intros u. eapply xhoare_bind.
    + eapply xhoare_conseq; [apply (xhoare_frame going (running job stages) _ (fun _ => running job stages) (running job stages)
        (fun h => CallStageStatus n StageStatusCompleted ∈ h))| | |].
      * intros h c _ Hin. apply elem_of_app. by left.
      * eapply xhoare_conseq; [apply (after_phase job stages (publishStageEvent sv t j n StageCompleted) (fun _ => any)),
          hushed_publishStageEvent|done|by intros a h [_ ?]|done].
      * by intros h [? ?].
      * intros a h Hp. exact Hp.
      * by intros h [? _].
    + intros u'. apply xhoare_ret. intros h [Hrun Hin]. done.
Qed.

(** From the stage's link on. *)
Lemma link_and_complete job stages t j n x m :
  n ∈ linkedPipelineStages -> laid job stages x ->
  (forall att, ex_attestor x = Some att -> after any (m att) (linked_ok job stages n)) ->
  phase job stages
    (x ←! match ex_attestor x with None => mret (Ok x) | Some att => link_stage sv jobID trace job n (m att) end;
     stage_completed sv t j n x)
    (if_ok (fun x h => laid job stages x /\ CallStageStatus n StageStatusCompleted ∈ h)).
Proof.
  intros Hn Hx Hm. eapply xhoare_bind; [apply (after_phase job stages _ (linked_ok job stages n))|].
  - destruct (ex_attestor x) as [att|] eqn:Hatt; [by apply link_stage_keeps, Hm|].
    apply xhoare_ret. intros h _. split; [done|]. intros att Hatt'. destruct Hx as [[_ Ha] _]. congruence.
  - intros [y|e]; [|apply xhoare_ret; by intros h [_ ?]].
    intros h [[Hy Hlinked] Hrun]. by apply (stage_completed_phase job stages t j n y Hn Hy h).
Qed.

Lemma runSynthesis_phase job stages x :
  laid job stages x -> phase job stages (runSynthesis sv tenantID jobID trace job x) (if_ok (stage_left job stages "synthesis")).
Proof.
  intros Hx. unfold runSynthesis.
  apply phase_andthen; [hush|]. intros _.
  apply phase_bind; [hush|]. intros _.
  apply phase_andthen; [hush|]. intros outputs.
  apply phase_andthen; [hush|]. intros cls.
  apply phase_andthen; [hush|]. intros reqs.
  apply phase_andthen; [hush|]. intros rels.
  apply phase_andthen; [hush|]. intros sims.
  apply phase_bind; [hush|]. intros [[inputs classes]|e]; [|apply xhoare_ret; done].
  eapply xhoare_bind with (mid := fun r h => if_ok (fun _ => synthesized) r h /\ running job stages h).
  { apply (after_phase job stages _ (if_ok (fun _ => synthesized))), after_answer; [done|]. intros h.
    destruct (synthesis_of _) as [encoded|] eqn:He; [|done]. exists inputs, classes, encoded, h, []. by rewrite app_nil_r. }
  intros [encoded|e].
  - eapply xhoare_conseq; [apply (xhoare_frame going _ _ _ _ synthesized (fun h c _ => synthesized_app h [c])
      (link_and_complete job stages tenantID jobID "synthesis" x (fun att => attestSynthesis sv att job x encoded) ltac:(by left) Hx
         (fun att Hatt => attestSynthesis_linked att job stages x encoded Hx Hatt)))|by intros h [? ?]| |by intros h [? _]].
    intros [y|e] h [[Hq Hr] Hsy]; [|done]. destruct Hq. by split_and!.
  - assert (phase job stages
      (try_or_log (CallStageStatus "synthesis" StageStatusFailed) ≫= fun _ =>
       publishStageEvent sv tenantID jobID "synthesis" StageFailed ≫= fun _ => fail_with (wrapf "synthesis.Execute" e))
      (if_ok (stage_left job stages "synthesis"))) as Hfail.
    { apply phase_bind; [hush|]. intros _. apply phase_bind; [hush|]. intros _. by apply xhoare_ret. }
    eapply xhoare_conseq; [exact Hfail|by intros h [_ Hr]|done..].
Qed.

Lemma runGraph_phase job stages x :
  laid job stages x -> phase job stages (runGraph sv jobID trace job x) (if_ok (stage_left job stages "graph")).
Proof.
  intros Hx. unfold runGraph.
  apply phase_andthen; [hush|]. intros _. apply phase_bind; [hush|]. intros _.
  eapply xhoare_conseq; [apply link_and_complete; [by right; left|exact Hx|]; intros att Hatt; by apply createLink_linked|done| |done].
  intros [y|e] h [Hq Hr]; [|done]. destruct Hq. by split_and!.
Qed.

Lemma finalizeAttestation_attests job stages x :
  laid job stages x ->
  after any (finalizeAttestation sv job x) (if_ok (fun _ h => forall att, attestor sv tenantID = Some att -> attested att job stages h)).
Proof.
  intros [[Hs Ha] Hl]. unfold finalizeAttestation. destruct (ex_attestor x) as [att|] eqn:Hatt.
  2: { apply xhoare_ret. intros h _ att Hatt'. congruence. }
  destruct (Hl att (eq_sym Ha)) as (ly & Hly & Hlayout). rewrite Hly, Hs.
  eapply after_then with (mid := fun _ => any); [by apply xhoare_call|]. intros now.
  destruct (VerifyChain _ _ _ _) as [chain|] eqn:Hv; [|by apply xhoare_ret].
  destruct (MarshalBundle _ _) as [bundle|] eqn:Hb; [|by apply xhoare_ret].
  set (kept := fun h => stored h (attestationKey job "bundle.json") bundle).
  assert (forall h, kept h -> forall att', attestor sv tenantID = Some att' -> attested att' job stages h) as Hdone.
  { intros h Hk att' Hatt'. rewrite Hatt' in Ha. injection Ha as ->. by exists ly, (ex_links x), now, chain, bundle. }
  unfold andthen. eapply xhoare_bind; [apply put_attempts_stores|]. intros [[]|e]; [|by apply xhoare_ret].
  destruct (AuditSubject _ _ _); [|by apply xhoare_ret]. destruct (sv_bus sv); [|by apply xhoare_ret].
  eapply xhoare_bind with (mid := fun _ => kept).
  - unfold try_or_log, answer. apply xhoare_call. intros h Hk. split_and!; [done|intros _; by apply stored_app|done].
  - intros u. apply xhoare_ret. intros h Hk. exact (Hdone h Hk).
Qed.

(** ** How a run ends *)

Definition saw (c : cause) (h : list call) : Prop :=
  exists h1 h2, h = h1 ++ h2 /\ done_of h1 = Some c.

(** The store's answer to a terminal status. *)
Definition status_answer (h : list call) (err : option goerr) : Prop :=
  exists h1 h2 c, h = (h1 ++ [c]) ++ h2 /\ terminal c /\ panics (h1 ++ [c]) = false /\ error_of (h1 ++ [c]) = err.

(** The store recorded a terminal status of the job. *)
Definition recorded (h : list call) : Prop := status_answer h None.
(** The store refused one: the run asked for it, and the error is only logged. *)
Definition refused (h : list call) : Prop := exists e, status_answer h (Some e).

(** How a run ends. *)
Definition ended (h : list call) : Prop := recorded h \/ refused h \/ saw errServiceStopping h.

(** A panic of the recovery itself. *)
Definition escaped (h : list call) : Prop :=
  panics h = true /\ exists c, last h = Some c /\ (c = CallPublishState JobStatusFailed \/ exists e, c = CallJobStatus JobStatusFailed e).

Definition ok (h : list call) (c : call) : Prop := allowed_call sv tenantID jobID trace h c.

Lemma ended_app h l : ended h -> ended (h ++ l).
Proof.
  assert (forall e, status_answer h e -> status_answer (h ++ l) e) as Ha.
  { intros e (h1 & h2 & c & -> & Hc). exists h1, (h2 ++ l), c. by rewrite <- app_assoc. }
  intros [Hr|[[e Hr]|(h1 & h2 & -> & Hd)]]; [left; by apply Ha|right; left; exists e; by apply Ha|right; right].
  exists h1, (h2 ++ l). by rewrite <- app_assoc.
Qed.

(** A terminal status that the store answers ends the run. *)
Lemma status_ends h c : terminal c -> panics (h ++ [c]) = false -> ended (h ++ [c]).
Proof.
  intros Hc Hp. assert (status_answer (h ++ [c]) (error_of (h ++ [c]))) as Ha by (exists h, [], c; by rewrite app_nil_r).
  destruct (error_of (h ++ [c])) as [e|]; [right; left; by exists e|by left].
Qed.

Lemma quiet_ok {A} (m : XM A) pre : hushed m -> xhoare ok pre m (fun _ => any) any.
Proof.
  intros Hm. eapply xhoare_conseq; [eapply (xhoare_allow (fun _ => quiet)); [|exact Hm]|done..].
  intros h c. apply quiet_allowed.
Qed.

(** A quiet program keeps what no call can undo. *)
Lemma quiet_keeps {A} (m : XM A) (J : list call -> Prop) :
  (forall h c, J h -> J (h ++ [c])) -> hushed m -> xhoare ok J m (fun _ => J) any.
Proof.
  intros HJ Hm. eapply xhoare_conseq; [apply (xhoare_frame ok any m (fun _ => any) any J)|done|by intros a h [_ ?]|done].
  - intros h c _. apply HJ.
  - by apply quiet_ok.
Qed.

Lemma ended_snoc h c : ended h -> ended (h ++ [c]).
Proof. apply ended_app. Qed.

Lemma eachX_ok {A} (f : A -> XM unit) l : (forall a, hushed (f a)) -> hushed (eachX f l).
Proof. intros Hf. induction l as [|a l IH]; cbn; [hush|]. apply hushed_bind; [apply Hf|done]. Qed.

(** Nothing escapes from ending the running stages. *)
Lemma endRunningStages_contained end_ :
  (forall n, hushed (end_ n)) -> xhoare ok ended (endRunningStages end_) (fun _ => ended) (fun _ => False).
Proof.
  intros He. unfold endRunningStages.
  eapply xhoare_conseq; [apply (xhoare_frame ok any _ (fun _ => any) (fun _ => False) ended)|done|by intros a h [_ ?]|by intros h [? _]].
  - intros h c _. apply ended_snoc.
  - eapply xhoare_recovering with (exc := any); [|by apply xhoare_ret]. apply quiet_ok.
    apply hushed_bind; [hush|]. intros [stages|e]; [|hush]. apply eachX_ok. intros st. apply He.
Qed.

Lemma publish_escape st pre :
  (forall h, pre h -> ended h) ->
  xhoare ok pre (publishJobState sv tenantID jobID st) (fun _ => ended)
    (fun h => panics h = true /\ last h = Some (CallPublishState st)).
Proof.
  intros Hpre. unfold publishJobState. destruct (sv_bus sv); [|by apply xhoare_ret].
  destruct (PipelineStateSubject tenantID jobID); [|by apply xhoare_ret].
  unfold try_or_log, answer. apply xhoare_call. intros h Hh. split_and!; [done| |].
  - intros _. by apply ended_snoc, Hpre.
  - intros Hp. split; [done|]. by rewrite last_snoc.
Qed.

Definition may_fail (h : list call) : Prop :=
  (calm h /\ last h = Some CallContext /\ done_of h = None) \/ last h = Some CallRecover.

Lemma record_failure_ends job err :
  xhoare ok may_fail (record_failure sv tenantID jobID trace job err) (fun _ => ended) escaped.
Proof.
  unfold record_failure. cbv zeta. set (e := tenantFailure _ _ _ _).
  assert (forall h, may_fail h -> ok h (CallJobStatus JobStatusFailed (Some e))) as Hw.
  { intros h Hh. right. split; [destruct Hh as [[? _]|?]; [by left|by right]|]. right. right. split; [done|].
    split; [by exists (job_config job), err|]. destruct Hh as [(_ & ? & ?)|?]; [by left|by right]. }
  eapply xhoare_bind with (mid := fun _ => ended).
  - unfold attempt, answer. apply xhoare_call. intros h Hh. split_and!; [by apply Hw|by apply status_ends|].
    intros Hp. split; [done|]. eexists. split; [by rewrite last_snoc|]. right. by exists (Some e).
  - assert (xhoare ok ended (publishJobState sv tenantID jobID JobStatusFailed) (fun _ => ended) escaped) as Hpub.
    { eapply xhoare_conseq; [by apply (publish_escape JobStatusFailed ended)|done..|].
      intros h [Hp Hl]. split; [done|]. eexists. split; [exact Hl|]. by left. }
    intros [[]|e']; [|exact Hpub]. eapply xhoare_bind.
    + eapply xhoare_conseq; [apply endRunningStages_contained|done..]. intros n. hush.
    + intros u. exact Hpub.
Qed.

Hypothesis Hstays : done_stays.

Lemma saw_done c h l : saw c h -> done_of (h ++ l) = Some c.
Proof. intros (h1 & h2 & -> & Hd). rewrite <- app_assoc. by apply Hstays. Qed.

Lemma interruptJob_ends c : xhoare ok (fun h => calm h /\ saw c h) (interruptJob sv tenantID jobID) (fun _ => ended) any.
Proof.
  unfold interruptJob. eapply xhoare_bind with (mid := fun r h => r = Some c /\ calm h /\ last h = Some CallContext /\ done_of h = Some c).
  - unfold is_done, answer. apply xhoare_call. intros h [Hc Hs]. split_and!; [done| |done]. intros _.
    rewrite (saw_done c h [CallContext] Hs). split_and!; [done| |by rewrite last_snoc|done].
    apply Forall_app. split; [done|]. by repeat constructor; intros [].
  - intros r. destruct r as [[]|].
    + eapply xhoare_bind with (mid := fun _ => ended).
      * unfold attempt, answer. apply xhoare_call. intros h ([= <-] & Hc & Hl & Hd). split_and!; [|by apply status_ends|done].
        right. split; [by left|]. right. left. done.
      * intros [[]|e]; [|by apply xhoare_ret]. eapply xhoare_bind.
        -- eapply xhoare_conseq; [apply endRunningStages_contained|done..]. intros n. hush.
        -- intros u. eapply xhoare_conseq; [by apply (publish_escape _ ended)|done..].
    + apply xhoare_ret. intros h ([= <-] & _ & _ & Hd). right. right. exists h, []. by rewrite app_nil_r.
    + apply xhoare_ret. by intros h [? _].
Qed.

(** What a look at the context finds, in a run that has not ended. *)
Lemma look_ok {A} pre (k : option cause -> XM A) (post : A -> list call -> Prop) :
  (forall h, pre h -> calm h) ->
  (forall c, xhoare ok (fun h => calm h /\ saw c h) (k (Some c)) post any) ->
  xhoare ok (fun h => may_fail h /\ exists h', h = h' ++ [CallContext] /\ pre h') (k None) post any ->
  xhoare ok pre (is_done ≫= k) post any.
Proof.
  intros Hpre Hs Hn.
  eapply xhoare_bind with (mid := fun r h => calm h /\ last h = Some CallContext /\ done_of h = r /\ exists h', h = h' ++ [CallContext] /\ pre h').
  - unfold is_done, answer. apply xhoare_call. intros h Hh. split_and!; [done| |done]. intros _.
    split_and!; [|by rewrite last_snoc|done|by exists h]. apply Forall_app. split; [by apply Hpre|]. by repeat constructor; intros [].
  - intros [c|].
    + eapply xhoare_conseq; [apply (Hs c)| |done..]. intros h (Hc & _ & Hd & _). split; [done|]. exists h, []. by rewrite app_nil_r.
    + eapply xhoare_conseq; [apply Hn| |done..]. intros h (Hc & Hl & Hd & Hex). split; [by left|done].
Qed.

Lemma failJob_ends job err : xhoare ok calm (failJob sv tenantID jobID trace job err) (fun _ => ended) any.
Proof.
  unfold failJob. apply look_ok; [done|apply interruptJob_ends|].
  eapply xhoare_conseq; [apply record_failure_ends|by intros h [? _]|done..].
Qed.

Lemma or_end_ends {A} job stages (m : XM (result goerr A)) Q (J : list call -> Prop) k :
  (forall h c, J h -> J (h ++ [c])) -> phase job stages m (if_ok Q) ->
  (forall a, xhoare ok (fun h => (Q a h /\ running job stages h) /\ J h) (k a) (fun _ => ended) any) ->
  xhoare ok (fun h => running job stages h /\ J h) (or_end sv tenantID jobID trace job m k) (fun _ => ended) any.
Proof.
  intros HJ Hm Hk. unfold or_end.
  eapply xhoare_bind with (mid := fun r h => (if_ok Q r h /\ running job stages h) /\ J h).
  - eapply xhoare_conseq; [eapply xhoare_allow; [|apply (xhoare_frame going _ _ _ _ J (fun h c _ => HJ h c) Hm)]|done..].
    by intros h c [? _].
  - intros [a|e]; [apply Hk|].
    apply look_ok; [by intros h [[_ (_ & _ & ?)] _]|apply interruptJob_ends|].
    eapply xhoare_conseq; [apply failJob_ends| |done..]. intros h [_ (h' & -> & (_ & _ & _ & Hc) & _)].
    apply Forall_app. split; [done|]. by repeat constructor; intros [].
Qed.

Lemma stage_done_snoc stages n h c : stage_done stages n h -> stage_done stages n (h ++ [c]).
Proof.
  intros [?|[Hsy ?]]; [by left|right]. split; [intros Hn; by apply synthesized_app, Hsy|]. apply elem_of_app. by left.
Qed.

Lemma attested_app att job stages h l : attested att job stages h -> attested att job stages (h ++ l).
Proof.
  intros (ly & links & now & chain & bundle & ? & ? & ? & Hs). exists ly, links, now, chain, bundle. split_and!; try done. by apply stored_app.
Qed.

Lemma complete_job_ends job stages :
  xhoare ok (fun h => ((forall att, attestor sv tenantID = Some att -> attested att job stages h) /\ running job stages h) /\
      stage_done stages "synthesis" h /\ stage_done stages "graph" h /\ analyzed sv job stages h)
    (complete_job sv tenantID jobID) (fun _ => ended) any.
Proof.
  unfold complete_job.
  eapply xhoare_bind with (mid := fun b h => if (b : bool)
    then calm h /\ last h = Some CallClaim /\ done_of h = None /\ may_complete sv tenantID h
    else calm h /\ exists c, saw c h).
  - unfold claimCompletion, answer. apply xhoare_call. intros h [[Hatt (Hl & Hs & Hc)] (Hsy & Hgr & Han)]. split_and!; [done| |done].
    intros _. assert (calm (h ++ [CallClaim])) as Hc' by (apply Forall_app; split; [done|by repeat constructor; intros []]).
    destruct (done_of (h ++ [CallClaim])) as [c|] eqn:Hd.
    + split; [done|]. exists c, (h ++ [CallClaim]), []. by rewrite app_nil_r.
    + split_and!; [done|by rewrite last_snoc|done|]. exists job, stages. split_and!.
      * by apply loaded_app.
      * by apply read_stages_app.
      * by apply analyzed_app.
      * intros n [->|[->|[]%not_elem_of_nil]%elem_of_cons]%elem_of_cons; by apply stage_done_snoc.
      * intros att Ha. by apply attested_app, Hatt.
  - intros [|].
    + eapply xhoare_bind with (mid := fun _ => ended).
      * unfold try_or_log, answer. apply xhoare_call. intros h (Hc & Hl & Hd & Hm). split_and!; [|by apply status_ends|done].
        right. split; [by left|]. left. done.
      * intros u. eapply xhoare_conseq; [by apply (publish_escape _ ended)|done..].
    + intros h [Hc [c Hs]]. by apply (interruptJob_ends c h).
Qed.

(** The phase of a stage that an earlier run may have completed. *)
Lemma stage_phase job stages n x (m : XM (result goerr jobExecution)) :
  laid job stages x -> phase job stages m (if_ok (stage_left job stages n)) ->
  phase job stages (if bool_decide (n ∈ completedStageSet stages) then mret (Ok x) else m)
    (if_ok (fun x h => laid job stages x /\ stage_done stages n h)).
Proof.
  intros Hx Hm. case_bool_decide as Hn.
  - apply xhoare_ret. intros h Hh. split; [|done]. split; [done|]. by left.
  - eapply xhoare_conseq; [exact Hm|done| |done]. intros [y|e] h [Hy Hh]; [|done]. split; [|done].
    destruct Hy. split; [done|]. by right.
Qed.

(** A phase leaves a fact about its value and one about the history. *)
Lemma or_end_step {A} job stages (m : XM (result goerr A)) (S : A -> Prop) (F J : list call -> Prop) k :
  (forall h c, J h -> J (h ++ [c])) -> phase job stages m (if_ok (fun a h => S a /\ F h)) ->
  (forall a, S a -> xhoare ok (fun h => running job stages h /\ F h /\ J h) (k a) (fun _ => ended) any) ->
  xhoare ok (fun h => running job stages h /\ J h) (or_end sv tenantID jobID trace job m k) (fun _ => ended) any.
Proof.
  intros HJ Hm Hk. eapply or_end_ends; [done|exact Hm|]. intros a h (((Ha & Hf) & Hr) & Hj). by apply (Hk a Ha).
Qed.

Lemma quietly_phase {A} job stages (m : XM (result goerr A)) Q :
  quietly m (good Q) -> phase job stages m (if_ok (fun a _ => Q a /\ True)).
Proof.
  intros Hm. apply after_phase. eapply xhoare_conseq; [exact Hm|done| |done]. intros [a|e] h Ha; [by split|done].
Qed.

Lemma runAnalysis_phase job stages x :
  about job x ->
  phase job stages (runAnalysis sv jobID trace job stages (completedStageSet stages) x)
    (if_ok (fun x h => laid job stages x /\ analyzed sv job stages h)).
Proof.
  intros Hx. apply after_phase. eapply xhoare_conseq;
    [exact (xhoare_and _ _ _ _ _ _ _ _ _ (runAnalysis_laid job stages (completedStageSet stages) x Hx) (runAnalysis_analyzed job stages x))|done| |done].
  by intros [y|e] h [? ?].
Qed.

Lemma run_phases_ends job stages :
  xhoare ok (running job stages) (run_phases sv tenantID jobID trace job stages) (fun _ => ended) any.
Proof.
  set (J2 := fun h => analyzed sv job stages h /\ True). set (J3 := fun h => True /\ J2 h).
  set (J4 := fun h => stage_done stages "synthesis" h /\ J3 h). set (J5 := fun h => stage_done stages "graph" h /\ J4 h).
  assert (forall h c, J2 h -> J2 (h ++ [c])) as H2 by (intros h c [? ?]; split; [by apply analyzed_app|done]).
  assert (forall h c, J3 h -> J3 (h ++ [c])) as H3 by (intros h c [? ?]; split; [done|by apply H2]).
  assert (forall h c, J4 h -> J4 (h ++ [c])) as H4 by (intros h c [? ?]; split; [by apply stage_done_snoc|by apply H3]).
  assert (forall h c, J5 h -> J5 (h ++ [c])) as H5 by (intros h c [? ?]; split; [by apply stage_done_snoc|by apply H4]).
  unfold run_phases. cbv zeta. set (x0 := mkExec _ _ _ _ _ _ _). assert (about job x0) as Hx0 by done. clearbody x0.
  apply (xhoare_conseq ok (fun h => running job stages h /\ True) (running job stages) _ (fun _ => ended) (fun _ => ended) any any);
    [|by intros h ?|by intros u h ?|done].
  apply (or_end_step job stages _ (about job) any any); [done|by apply quietly_phase, loadStoredLinks_about|]. intros x1 Hx1.
  apply (xhoare_conseq ok (fun h => running job stages h /\ True) _ _ (fun _ => ended) (fun _ => ended) any any); [|by intros h (? & _ & _)|done..].
  apply (or_end_step job stages _ (laid job stages) (analyzed sv job stages) any); [done|by apply runAnalysis_phase|]. intros x2 Hx2.
  apply (or_end_step job stages _ (laid job stages) any J2); [done|by apply quietly_phase, attestAnalyzers_laid|]. intros x3 Hx3.
  apply (or_end_step job stages _ (laid job stages) (stage_done stages "synthesis") J3); [done|by apply stage_phase, runSynthesis_phase|]. intros x4 Hx4.
  apply (or_end_step job stages _ (laid job stages) (stage_done stages "graph") J4); [done|by apply stage_phase, runGraph_phase|]. intros x5 Hx5.
  apply look_ok; [by intros h [(_ & _ & ?) _]|apply interruptJob_ends|].
  eapply xhoare_conseq with (pre := fun h => running job stages h /\ J5 h).
  - eapply or_end_ends; [exact H5|by apply after_phase, finalizeAttestation_attests|]. intros u.
    eapply xhoare_conseq; [apply (complete_job_ends job stages)| |done..]. by intros h [? (? & ? & _ & ? & _)].
  - intros h [_ (h' & -> & Hr & Hj)]. split; [|by apply H5]. apply running_stable; [|done]. split; [done|by intros []].
  - done.
  - done.
Qed.

Lemma run_job_ends job :
  xhoare ok (fun h => loaded h job /\ calm h) (run_job sv tenantID jobID trace job) (fun _ => ended) any.
Proof.
  assert (forall h c, ~ terminal c -> loaded h job /\ calm h -> loaded (h ++ [c]) job /\ calm (h ++ [c])) as Hgo.
  { intros h c Hc [Hl Hcalm]. split; [by apply loaded_app|]. apply Forall_app. split; [done|by constructor]. }
  unfold run_job. eapply xhoare_bind with (mid := fun _ h => loaded h job /\ calm h).
  - unfold attempt, answer. apply xhoare_call. intros h Hh. split_and!; [by left| |done]. intros _. apply Hgo; [|done].
    intros Hne. by apply Hne.
  - assert (forall e, xhoare ok (fun h => loaded h job /\ calm h) (failJob sv tenantID jobID trace (Some job) e) (fun _ => ended) any) as Hfail.
    { intros e. eapply xhoare_conseq; [apply failJob_ends|by intros h [_ ?]|done..]. }
    intros [[]|e]; [|apply Hfail]. eapply xhoare_bind with (mid := fun _ h => loaded h job /\ calm h).
    + unfold publishJobState. destruct (sv_bus sv); [|by apply xhoare_ret]. destruct (PipelineStateSubject _ _); [|by apply xhoare_ret].
      unfold try_or_log, answer. apply xhoare_call. intros h Hh. split_and!; [done| |done]. intros _. apply Hgo; [by intros []|done].
    + intros u. eapply xhoare_bind with (mid := fun r h => (loaded h job /\ calm h) /\ match r with Ok stages => read_stages h stages | Err _ => True end).
      * unfold answer. apply xhoare_call. intros h Hh. split_and!; [done| |done]. intros _. split; [apply Hgo; [by intros []|done]|].
        destruct (stages_of (h ++ [CallGetStages])) as [stages|] eqn:Hs; [|done]. exists h, []. by rewrite app_nil_r.
      * intros [stages|e].
        -- eapply xhoare_conseq; [apply (run_phases_ends job stages)| |done..]. by intros h [[? ?] ?].
        -- eapply xhoare_conseq; [apply Hfail|by intros h [? _]|done..].
Qed.

Lemma load_job_spec :
  xhoare ok calm (load_job sv tenantID jobID trace)
    (fun r h => match r with Some job => loaded h job /\ calm h | None => ended h end) any.
Proof.
  unfold load_job. assert (forall e, xhoare ok calm (failJob sv tenantID jobID trace None e ≫= fun _ => mret None)
    (fun r h => match r with Some job => loaded h job /\ calm h | None => ended h end) any) as Hfail.
  { intros e. eapply xhoare_bind; [apply failJob_ends|]. intros u. by apply xhoare_ret. }
  destruct (ValidateTenantID tenantID); [|apply Hfail].
  eapply xhoare_bind with (mid := fun r h => calm h /\ match r with Ok job => loaded h job | Err _ => True end).
  - unfold answer. apply xhoare_call. intros h Hh. split_and!; [done| |done]. intros _. split.
    + apply Forall_app. split; [done|]. by repeat constructor; intros [].
    + destruct (job_of (h ++ [CallGetJob])) as [job|] eqn:Hj; [|done]. exists h, []. by rewrite app_nil_r.
  - intros [job|e]; [apply xhoare_ret; by intros h [? ?]|]. eapply xhoare_conseq; [apply Hfail|by intros h [? _]|done..].
Qed.

Lemma recover_panic_ends job pre : xhoare ok pre (recover_panic sv tenantID jobID trace job) (fun _ => ended) escaped.
Proof.
  unfold recover_panic. eapply xhoare_bind; [|intros u; apply record_failure_ends].
  intros h _. exists [CallRecover]. split_and!; [done|by split|]. right. by rewrite last_snoc.
Qed.

Lemma executeJob_spec : xhoare ok calm (executeJob sv tenantID jobID trace) (fun _ => ended) escaped.
Proof.
  unfold executeJob. eapply xhoare_bind.
  - eapply xhoare_recovering; [apply load_job_spec|]. eapply xhoare_bind; [apply recover_panic_ends|]. intros u. by apply xhoare_ret.
  - intros [job|]; [|by apply xhoare_ret]. eapply xhoare_recovering; [apply run_job_ends|apply recover_panic_ends].
Qed.
End hushed.
