(* ===== verification/Runs.v ===== *)
(** What holds of every run of a job ([ExecutorFacts]), with the runs that show it. *)

From S2P Require Import Prelude Float64 Gostrings Tenant Subjects Sha256 Resultcache Json Jsonread Errors Effects Panics Dag.
From S2P Require Import Jobconfig Joberr Jobstore Attest AttestFacts Results Executor ExecutorFacts.
Local Open Scope Z_scope.

(** C2. What a run of a job does to the job and its stages. It records the job
    as completed only after it has claimed its completion with the context not
    done, and its work is done, by this run or (as the stages it read say) an
    earlier one: every analyzer of the DAG it built (which is the job's set of
    analyzers) ran in a pass the engine answered without a failed analyzer,
    candidates were generated if an analyzer left to it needs them and the
    service generates them, the synthesis was computed, and the store has been
    asked to record synthesis and graph as completed (if it refuses, the run
    logs that and goes on). If the tenant attests, the layout signed for exactly
    the analyzers the job was created with and its links have then passed
    verification and the bundle is stored. The run records cancelled only when
    its last look at the context found the job cancelled, and failed only when
    that look found it not done, or in recovery from a panic, with an error for
    the tenant. It asks for one such status, unless a panic was recovered in
    between. It asks for synthesis or graph to be recorded as completed only
    when its link, over this job, is stored. *)
Theorem run_discipline `{W : World} `{R : GoRuntime} `{GoQuote} `{Stats} sv tenantID jobID trace :
  done_stays -> allowed (allowed_call sv tenantID jobID trace) [] (executeJob sv tenantID jobID trace []).2.
Proof.
  intros Hstays. destruct (executeJob_spec sv tenantID jobID trace Hstays [] (Forall_nil_2 _)) as (log & -> & Hlog & _). exact Hlog.
Qed.

(** C3. How a run ends, whatever fails or panics. When it returns, the store has
    recorded a terminal status of the job, or has refused the one it was asked
    to record (the run logs the refusal and leaves the job as it is), or the
    service is stopping, which leaves the job to the next start. A run does not
    return in any other way: the only panic that escapes it is one of the calls
    by which the recovery itself records the failure. *)
Theorem run_ends `{W : World} `{R : GoRuntime} `{GoQuote} `{Stats} sv tenantID jobID trace :
  done_stays ->
  let '(r, h) := executeJob sv tenantID jobID trace [] in
  match r with Some _ => ended h | None => escaped h end.
Proof.
  intros Hstays. destruct (executeJob_spec sv tenantID jobID trace Hstays [] (Forall_nil_2 _)) as (log & Hh & _ & Hpost).
  destruct (executeJob sv tenantID jobID trace []) as [r h]. cbn in *. by subst h.
Qed.

(** ** The store under many runs *)

(** A write of some run, or of the engine's reports for some job. *)
Definition run_write `{R : GoRuntime} `{GoQuote} `{Stats} (op : db_op) : Prop :=
  (exists (W : World) sv tenantID jobID trace now ctx c, @done_stays W /\
     c ∈ (@executeJob W R _ _ sv tenantID jobID trace []).2 /\ call_write tenantID jobID now ctx c = Some op) \/
  (exists jobID trace now ctx done r, report_write jobID trace now ctx done r = Some op).

Lemma run_write_completes `{R : GoRuntime} `{GoQuote} `{Stats} op : run_write op -> completes_by_result op.
Proof.
  intros [(W & sv & tenantID & jobID & trace & now & ctx & c & Hstays & Hc & Hop)|(jobID & trace & now & ctx & d & r & Hop)].
  - destruct (executeJob_spec sv tenantID jobID trace Hstays [] (Forall_nil_2 _)) as (log & Hh & Hlog & _).
    rewrite Hh in Hc. destruct (allowed_elem _ _ _ _ Hlog Hc) as (h1 & h2 & _ & Hok).
    destruct c; try discriminate; injection Hop as <-; [done| |done|done].
    intros Ha ->. destruct (Hok eq_refl) as [->|[Hn _]]; [done|].
    apply elem_of_cons in Hn as [->|Hn]; [done|]. apply elem_of_cons in Hn as [->|Hn]; [done|]. by apply elem_of_nil in Hn.
  - destruct r as [n|n data attempt|n err]; cbn in Hop.
    + by injection Hop as <-.
    + by injection Hop as <-.
    + destruct d; [done|]. by injection Hop as <-.
Qed.

(** C21. However the writes of any number of runs, of any tenants and jobs, and
    those of the engine's reports interleave, every analyzer stage that is
    recorded as completed has its result stored. *)
Theorem runs_keep_results `{Postgres} `{R : GoRuntime} `{GoQuote} `{Stats} d ops :
  results_stored d -> Forall run_write ops -> results_stored (apply_ops d ops).
Proof.
  intros Hd Hops. revert d Hd. induction Hops as [|op ops Hop Hops IH]; intros d Hd; [done|].
  by apply IH, op_results_stored; [apply run_write_completes|].
Qed.

(** * Runs of one job *)

#[local] Instance example_quote : GoQuote := Build_GoQuote (fun s => s).
#[local] Instance example_stats : Stats := {| stat_Mean l := default fzero (head l); stat_Variance _ := fzero |}.
#[local] Instance example_runtime : GoRuntime := forward_runtime.

(** A job of one analyzer, over one catalog. *)
Definition run_config : string := "{" +:+ in_quotes "catalog_id" +:+ ":" +:+ in_quotes "c1" +:+ "}".
Definition run_row : Job := mkJob "j1" "acme" JobStatusPending run_config "acme" 1 1 "" "".
Definition run_stages : list Jobconfig.Stage :=
  (fun n => mkStage "j1" n StageStatusPending None None 0 "" "acme" "") <$> ["classify"; "synthesis"; "graph"].
Definition run_dag : DAG := mkDAG [["classify"]] ["classify"] {["classify" := []]} {["classify" := mkAnalyzer "classify" []]}.

(** The links the run signs. *)
Definition run_links : list (string * in_toto_link) :=
  let link n materials products extra :=
    (in_quotes n, mkInTotoLink n (artifactsToHashObj (jobSubject run_row :: materials)) (artifactsToHashObj products) (link_byproducts ∅ extra)) in
  let product name data := mkArtifact name (contentDigest data) in
  [link "classify" [mkArtifact (cacheManifestURI "classify") noCacheRecordDigest] [product "classify.output" "[]"]
     (byProducts (mkCacheRecord noCacheRecordDigest cacheModeOff "the result cache is not wired on this daemon" ""));
   link "synthesis" [product "classify.output" "[]"] [product "synthesis.output" "{}"] ∅;
   link "graph" [product "synthesis.output" "{}"] [] ∅].

(** Its signed texts are JSON, and its one date is an hour after time 0. *)
Definition run_library : InToto :=
  let lib := table_library run_links (mkInTotoLayout (stepsToInToto (layout_steps (jobSubject run_row) run_dag)) [] "") in {|
  trusted := @trusted lib;
  sign_link := @sign_link lib;
  sign_layout := @sign_layout lib;
  format_date _ := "3600";
  parse_date _ := Some 3600000000000;
  load_envelope := @load_envelope lib;
  signature_ok := @signature_ok lib;
  signature_keys := @signature_keys lib;
  link_payload := @link_payload lib;
  parse_dsse := @parse_dsse lib;
  dsse_signers := @dsse_signers lib;
  dsse_payload := @dsse_payload lib;
  read_layout := @read_layout lib;
|}.

Definition run_service : Service :=
  mkService (mkAttestors (Some (mkAttestor run_library 3600000000000)) ∅ 0) true false false false false false [].

(** Everything answers, and nothing panics; [stop] says when the context is done. *)
Definition run_world (stop : list call -> option cause) (panic : list call -> bool) : World := {|
  panics := panic;
  done_of := stop;
  error_of _ := None;
  job_of _ := Ok run_row;
  stages_of _ := Ok run_stages;
  results_answer _ := Ok {["classify" := "[]"]};
  dag_of _ := Ok run_dag;
  name_of _ := Ok "";
  controls_of _ := Ok [];
  cache_of _ := Ok false;
  pass_of _ := Ok (mkPass {["classify" := "[]"]} ∅ ∅ ["classify"] [] ∅);
  matrix_of _ := Err (Plain "");
  synthesis_of _ := Ok (Some "{}");
  object_of _ := Err (Sentinel ErrStorageNotFound);
  digest_of _ := None;
  checkpoint_of _ := Err (Plain "");
  checkpoints_of _ := Ok [];
  summaries_of _ := Ok [];
  clock_of _ := 0;
  trace_of _ := ∅;
  timer_of _ := true;
|}.

(** What a run writes of statuses, and around them. *)
Definition statuses (h : list call) : list call :=
  List.filter (fun c => match c with CallJobStatus _ _ | CallStageStatus _ _ | CallClaim | CallRecover => true | _ => false end) h.

Lemma statuses_incl h c : c ∈ statuses h -> c ∈ h.
Proof. rewrite !list_elem_of_In. unfold statuses. by intros [? _]%List.filter_In. Qed.

Definition run_of (stop : list call -> option cause) (panic : list call -> bool) : option unit * list call :=
  executeJob (W := run_world stop panic) run_service "acme" "j1" "t" [].

(** The context of a job cancelled while its analysis runs. *)
Definition cancelled_in_engine (h : list call) : option cause :=
  if existsb (fun c => match c with CallEngine _ _ _ _ => true | _ => false end) h then Some ErrJobCancelled else None.

Definition panic_in_engine (h : list call) : bool := match last h with Some (CallEngine _ _ _ _) => true | _ => false end.

Lemma stays_cancelled panic : @done_stays (run_world cancelled_in_engine panic).
Proof.
  intros h l c. cbn. unfold cancelled_in_engine. rewrite existsb_app. by destruct (existsb _ h).
Qed.

(** The job attests and completes; cancelled, its last look at the context says so. *)
Lemma run_discipline_witness :
  allowed (allowed_call (W := run_world (fun _ => None) (fun _ => false)) run_service "acme" "j1" "t") []
    (run_of (fun _ => None) (fun _ => false)).2 /\
  statuses (run_of (fun _ => None) (fun _ => false)).2 =
    [CallJobStatus JobStatusRunning None; CallStageStatus "synthesis" StageStatusRunning; CallStageStatus "synthesis" StageStatusCompleted;
     CallStageStatus "graph" StageStatusRunning; CallStageStatus "graph" StageStatusCompleted; CallClaim; CallJobStatus JobStatusCompleted None].
Proof.
  split; [|vm_compute; reflexivity].
  apply (run_discipline (W := run_world (fun _ => None) (fun _ => false)) run_service "acme" "j1" "t"). done.
Defined.

Lemma run_ends_witness :
  @recorded (run_world cancelled_in_engine panic_in_engine) (run_of cancelled_in_engine panic_in_engine).2 /\
  match statuses (run_of cancelled_in_engine panic_in_engine).2 with
  | [CallJobStatus s1 None; CallRecover; CallJobStatus s2 (Some _)] => s1 = JobStatusRunning /\ s2 = JobStatusFailed
  | _ => False
  end.
Proof.
  split; [|vm_compute; by split].
  pose proof (run_ends (W := run_world cancelled_in_engine panic_in_engine) run_service "acme" "j1" "t" (stays_cancelled _)) as He.
  unfold run_of. assert (is_Some (run_of cancelled_in_engine panic_in_engine).1) as [u Hu] by (vm_compute; eauto). unfold run_of in Hu.
  destruct (executeJob run_service "acme" "j1" "t" []) as [r h]. cbn in Hu. subst r.
  destruct He as [He|[(e & h1 & h2 & c & _ & _ & _ & [=])|(h1 & h2 & _ & Hd)]]; [exact He|]. exfalso. revert Hd. clear.
  cbn. unfold cancelled_in_engine. by destruct (existsb _ h1).
Defined.

Lemma runs_keep_results_witness :
  results_stored (@apply_ops plain_postgres example_db
    [OpStageStatus 5 (example_ctx "acme") "j1" "synthesis" StageStatusCompleted;
     OpComplete 5 (example_ctx "acme") "j2" "classify" "[]" "";
     OpJobStatus 5 (example_ctx "acme") "j1" JobStatusCompleted None]).
Proof.
  apply (@runs_keep_results plain_postgres example_runtime example_quote example_stats).
  - intros j n st Hst. unfold example_db in *. cbn in *.
    repeat (apply lookup_insert_Some in Hst as [[[= <- <-] <-]|[_ Hst]]; [vm_compute; eauto|]).
    by apply lookup_singleton_Some in Hst as [[= <- <-] <-].
  - assert (forall op c, call_write "acme" "j1" 5 (example_ctx "acme") c = Some op -> c ∈ statuses (run_of (fun _ => None) (fun _ => false)).2 ->
      run_write op) as Hw.
    { intros op c Hop Hc. apply statuses_incl in Hc. left.
      exists (run_world (fun _ => None) (fun _ => false)), run_service, "acme", "j1", "t", 5, (example_ctx "acme"), c.
      split; [intros h l x Hx; exact Hx|]. split; [exact Hc|exact Hop]. }
    repeat (apply Forall_cons; split); [| | |apply Forall_nil; exact I].
    + apply (Hw _ (CallStageStatus "synthesis" StageStatusCompleted) eq_refl). vm_compute. do 2 right. left.
    + right. by exists "j2", "t", 5, (example_ctx "acme"), false, (CompletedWith "classify" "[]" "").
    + apply (Hw _ (CallJobStatus JobStatusCompleted None) eq_refl). vm_compute. do 6 right. left.
Defined.
