(* ===== verification/Service.v ===== *)
(** The pipeline service: [internal/pipeline/service_impl.go] and the state of
    [internal/pipeline/service.go].

    Requests, the dispatcher of interrupted jobs and the runs of jobs
    interleave. A thread's steps are those others can see: a locked section, a
    call of the job store, or the wait for a slot; what it does alone goes with
    the next of them. The store is that of [Jobstore], and any of its calls may
    fail. A run is what it does to this state: writes of the store, the claim of
    its completion, and the release of its entry; the rest is [Executor]'s. The
    generated config message is read and written by the code of [JobConfigJSON].
    Texts of internal errors and state events are left out; so are GetJob,
    ListJobs and their conversions. *)

From stdpp Require Import pretty.
From S2P Require Import Prelude Gostrings Tenant Jobconfig Joberr Jobstore Executor.
Local Open Scope Z_scope.

(** * Definitions *)

(** ** Configs *)

(** [pb.JobConfig]: what the service reads, and the fields it only copies. *)
Record JobConfig := mkJobConfig {
  jc_CatalogID : string;
  jc_TargetCatalogID : string;
  jc_Bidirectional : bool;
  jc_NoCache : bool;
  jc_SourceCatalog : option snapshot;
  jc_TargetCatalog : option snapshot;
  jc_Rest : string;
}.

Class JobConfigJSON := {
  marshal_config : JobConfig -> option string;
  unmarshal_config : string -> option JobConfig;
}.

Inductive code := InvalidArgument | NotFound | ResourceExhausted | Unavailable | Internal | FailedPrecondition.
Record rpc_error := mkRpc { er_code : code; er_message : string }.

Definition validateJobConfig (cfg : JobConfig) : option string :=
  let source := jc_CatalogID cfg in
  let target := jc_TargetCatalogID cfg in
  if bool_decide (source = "")
  then Some ("config.catalog_id is required: an analysis job runs over an imported catalog. "
    +:+ "Import the catalog first, then start the analysis with its catalog_id")
  else if bool_decide (target = "")
  then Some ("config.target_catalog_id is required: an analysis job maps the controls of config.catalog_id onto a target catalog. "
    +:+ "Set it to the catalog to map onto, or set it to config.catalog_id to analyse within one catalog "
    +:+ "(crosscodex run start --source " +:+ source +:+ " --target " +:+ source +:+ ")")
  else if jc_Bidirectional cfg && bool_decide (target = source)
  then Some ("config.bidirectional cannot be set when config.target_catalog_id equals config.catalog_id: "
    +:+ "an analysis within one catalog already pairs its controls in both directions. "
    +:+ "Unset bidirectional, or set target_catalog_id to a different catalog")
  else None.

Definition set_source_catalog (cfg : JobConfig) (s : snapshot) : JobConfig :=
  mkJobConfig (jc_CatalogID cfg) (jc_TargetCatalogID cfg) (jc_Bidirectional cfg) (jc_NoCache cfg) (Some s) (jc_TargetCatalog cfg) (jc_Rest cfg).
Definition set_target_catalog (cfg : JobConfig) (s : option snapshot) : JobConfig :=
  mkJobConfig (jc_CatalogID cfg) (jc_TargetCatalogID cfg) (jc_Bidirectional cfg) (jc_NoCache cfg) (jc_SourceCatalog cfg) s (jc_Rest cfg).

(** What the tenant's catalogs answer. *)
Inductive catalog_error := CatalogNotFound | CatalogUnread.
Definition reader : Type := string -> result catalog_error snapshot.

Section service.
Context `{Postgres} `{GoQuote} `{JobConfigJSON}.
(** [MaxConcurrentJobs], and whether a catalog reader is wired. *)
Variable max : Z.
Variable catalogNames : bool.

Definition snapshot_check (read : reader) (operation field id : string) : result rpc_error snapshot :=
  match read id with
  | Ok s => Ok s
  | Err CatalogNotFound =>
      Err (mkRpc NotFound ("cannot " +:+ operation +:+ ": config." +:+ field +:+ " " +:+ go_quote id
        +:+ " is not a catalog of your tenant: no imported catalog has that ID. "
        +:+ "Import the catalog first, or run " +:+ in_quotes "crosscodex catalog list" +:+ " to find the ID of an imported catalog"))
  | Err CatalogUnread =>
      Err (mkRpc Unavailable ("cannot " +:+ operation +:+ ": whether config." +:+ field +:+ " " +:+ go_quote id
        +:+ " is a catalog of your tenant could not be checked, because the catalog store could not be read. "
        +:+ "Retry the request; if it keeps failing, ask an operator to check the database"))
  end.

Definition snapshotTenantCatalogs (read : reader) (operation : string) (cfg : JobConfig) : result rpc_error JobConfig :=
  if negb catalogNames then
    Err (mkRpc Unavailable ("cannot " +:+ operation +:+ ": no catalog reader is configured, so the pipeline cannot confirm that the job's catalogs "
      +:+ "are your tenant's. An operator must wire the catalog name reader (pipeline.WithCatalogNameReader)"))
  else
    match snapshot_check read operation "catalog_id" (jc_CatalogID cfg) with
    | Err e => Err e
    | Ok s =>
        let cfg := set_source_catalog cfg s in
        if bool_decide (jc_TargetCatalogID cfg = jc_CatalogID cfg) then Ok (set_target_catalog cfg (jc_SourceCatalog cfg))
        else
          match snapshot_check read operation "target_catalog_id" (jc_TargetCatalogID cfg) with
          | Err e => Err e
          | Ok t => Ok (set_target_catalog cfg (Some t))
          end
    end.

(** [retryJobConfig]; the error is its message. *)
Definition retryJobConfig (job : Job) : result string JobConfig :=
  let invalid why := "cannot retry job " +:+ JobID job +:+ " as a new job: its stored config " +:+ why +:+ ". Start a new job instead: "
                     +:+ newJobCommand (Config job) in
  match unmarshal_config (Config job) with
  | None => Err (invalid "could not be read as a job config")
  | Some cfg =>
      let target := if bool_decide (jc_TargetCatalogID cfg = "") then jc_CatalogID cfg else jc_TargetCatalogID cfg in
      let cfg := mkJobConfig (jc_CatalogID cfg) target (jc_Bidirectional cfg && negb (bool_decide (target = jc_CatalogID cfg)))
                   (jc_NoCache cfg) (jc_SourceCatalog cfg) (jc_TargetCatalog cfg) (jc_Rest cfg) in
      match validateJobConfig cfg with
      | Some e => Err (invalid ("is invalid: " +:+ e))
      | None => Ok cfg
      end
  end.

(** ** The state *)

(** A [*runningJob]: [cause] is its context's, once cancelled. *)
Record runningJob := mkRunningJob { rj_cause : option cause; completing : bool; cancelled : bool }.
Definition new_run : runningJob := mkRunningJob None false false.

(** The first cancellation of a context gives its cause. *)
Definition cancel (c : cause) (rj : runningJob) : runningJob :=
  mkRunningJob (match rj_cause rj with Some c0 => Some c0 | None => Some c end) (completing rj) (cancelled rj).

(** An [executeJob] that has not returned; [rn_slot] if it holds a slot. *)
Record run := mkRun { rn_tenant : string; rn_job : string; rn_rj : runningJob; rn_slot : bool }.
Definition set_rj (r : run) (rj : runningJob) : run := mkRun (rn_tenant r) (rn_job r) rj (rn_slot r).

Record state := mkState {
  st_db : db;
  runs : gmap nat run;                 (* by the address of the runningJob *)
  running : gmap string nat;
  retrying : gset string;
  stopped : bool;
  slots : nat;                         (* the semaphore's tokens taken *)
  next : nat;                          (* the next address *)
}.

Definition set_db (s : state) (d : db) : state := mkState d (runs s) (running s) (retrying s) (stopped s) (slots s) (next s).
Definition set_runs (s : state) (rs : gmap nat run) : state := mkState (st_db s) rs (running s) (retrying s) (stopped s) (slots s) (next s).
Definition set_running (s : state) (m : gmap string nat) : state := mkState (st_db s) (runs s) m (retrying s) (stopped s) (slots s) (next s).
Definition set_retrying (s : state) (x : gset string) : state := mkState (st_db s) (runs s) (running s) x (stopped s) (slots s) (next s).
Definition set_stopped (s : state) : state := mkState (st_db s) (runs s) (running s) (retrying s) true (slots s) (next s).
Definition set_slots (s : state) (n : nat) : state := mkState (st_db s) (runs s) (running s) (retrying s) (stopped s) n (next s).

(** ** Locked sections *)

Definition checkConcurrencyLimit (s : state) : option rpc_error :=
  if (0 <? max) && (max <=? Z.of_nat (size (running s)))
  then Some (mkRpc ResourceExhausted ("max concurrent jobs reached (" +:+ pretty max +:+ ")")) else None.

(** Register a new run and start it. *)
Definition start_run (tenantID jobID : string) (slot : bool) (s : state) : state :=
  mkState (st_db s) (<[next s := mkRun tenantID jobID new_run slot]> (runs s)) (<[jobID := next s]> (running s)) (retrying s) (stopped s)
    (slots s) (S (next s)).

Definition reserveRetry (job : Job) (s : state) : option rpc_error * state :=
  match running s !! JobID job with
  | Some a =>
      let cancelled := match runs s !! a with Some r => cancelled (rn_rj r) | None => false end in
      (Some (mkRpc FailedPrecondition
        (if cancelled
         then "job " +:+ JobID job +:+ " is still stopping; retry it when " +:+ in_quotes ("crosscodex run status " +:+ JobID job)
                +:+ " shows it is no longer running"
         else "job " +:+ JobID job +:+ " is running; a running job cannot be retried. Wait for it to end, or cancel it with "
                +:+ in_quotes ("crosscodex run cancel --yes " +:+ JobID job) +:+ " and retry once "
                +:+ in_quotes ("crosscodex run status " +:+ JobID job) +:+ " shows it is no longer running")), s)
  | None =>
      if bool_decide (JobID job ∈ retrying s)
      then (Some (mkRpc FailedPrecondition ("job " +:+ JobID job +:+ " is already being retried; check "
              +:+ in_quotes ("crosscodex run status " +:+ JobID job))), s)
      else (None, set_retrying s ({[JobID job]} ∪ retrying s))
  end.

Definition release_retry (jobID : string) (s : state) : state := set_retrying s (retrying s ∖ {[jobID]}).

(** The locked section of [CancelJob]. *)
Definition cancel_running (jobID : string) (s : state) : option rpc_error * state :=
  match running s !! jobID ≫= fun a => r ← runs s !! a; Some (a, r) with
  | None => (Some (mkRpc NotFound "job is not running"), s)
  | Some (a, r) =>
      if completing (rn_rj r) then
        (Some (mkRpc FailedPrecondition ("cannot cancel job " +:+ jobID
           +:+ ": it is already completing (every stage has run and its attestation is stored). Check its final status with "
           +:+ in_quotes ("crosscodex run status " +:+ jobID))), s)
      else if cancelled (rn_rj r) then (Some (mkRpc NotFound "job is not running"), s)
      else
        let rj := cancel ErrJobCancelled (rn_rj r) in
        (None, set_runs s (<[a := set_rj r (mkRunningJob (rj_cause rj) (completing rj) true)]> (runs s)))
  end.

(** The locked section of [Stop]. *)
Definition stop_running (s : state) : state :=
  let stopping := map_to_set (fun _ a => a) (running s) : gset nat in
  set_running (set_runs s (map_imap (fun a r => Some (if bool_decide (a ∈ stopping) then set_rj r (cancel errServiceStopping (rn_rj r)) else r))
                             (runs s))) ∅.

(** [claimCompletion] of the run at [a]. *)
Definition claim (a : nat) (s : state) : bool * state :=
  match runs s !! a with
  | None => (false, s)
  | Some r =>
      match rj_cause (rn_rj r) with
      | Some _ => (false, s)
      | None => (true, set_runs s (<[a := set_rj r (mkRunningJob None true (cancelled (rn_rj r)))]> (runs s)))
      end
  end.

(** The run at [a] returns: its entry is released, unless it is a newer run's,
    and then its slot. *)
Definition end_run (a : nat) (s : state) : state :=
  match runs s !! a with
  | None => s
  | Some r =>
      mkState (st_db s) (delete a (runs s))
        (if bool_decide (running s !! rn_job r = Some a) then delete (rn_job r) (running s) else running s)
        (retrying s) (stopped s) (if rn_slot r then (slots s - 1)%nat else slots s) (next s)
  end.

(** ** Requests *)

Inductive response :=
| Created (jobID : string)
| Cancelled
| Retried (newJobID : string)
| Stopped
| Resumed
| Refused (e : rpc_error).

(** What a thread's next step meets. *)
Record outside := mkOutside {
  o_fail : bool;                       (* the store call fails *)
  o_id : string;                       (* the next UUID *)
  o_now : Z;
  o_catalogs : reader;
  o_dag : option (list string);        (* the registry's order, if it has one *)
  o_stop : bool;                       (* select takes the stop when both are ready *)
}.

Inductive thread :=
| CreateStart (ctx : context) (cfg : option JobConfig)
| CreateLimit (ctx : context) (t id config : string) (names : list string)
| CreateInsert (ctx : context) (t id config : string) (names : list string)
| CreateStaging (ctx : context) (t id : string) (names : list string)
| CreateRegister (t id : string)
| CancelStart (ctx : context) (id : string)
| CancelLock (id : string)
| RetryStart (ctx : context) (id : string) (fromFailure : bool)
| RetryReserve (ctx : context) (t : string) (job : Job) (fromFailure : bool)
| RetryCheck (ctx : context) (t : string) (job : Job) (fromFailure : bool)
| RetryStages (ctx : context) (t : string) (job : Job)
| RetryReset (ctx : context) (t : string) (job : Job) (from : string) (names : list string)
| RetryStatus (ctx : context) (t : string) (job : Job)
| RetryRegister (t : string) (job : Job)
| RetryInsert (ctx : context) (t : string) (job : Job)
| RetryStaging (ctx : context) (t : string) (job : Job) (id : string)
| RetryRegisterNew (t : string) (job : Job) (id : string)
| RetryRelease (job : Job) (r : response)
| Resuming (queue : list Job)
| ResumeSlot (job : Job) (queue : list Job)
| ResumeRegister (job : Job) (queue : list Job)
| StopClose
| StopLock
| Done (r : response).

(** A call of the store. *)
Definition store {A} (o : outside) (call : db -> result store_error A * db) (s : state) : result store_error A * state :=
  if o_fail o then (Err ErrDatabase, s) else let '(r, d) := call (st_db s) in (r, set_db s d).

Definition internal (what : string) : rpc_error := mkRpc Internal what.
Definition no_tenant : response := Refused (mkRpc InvalidArgument "missing tenant context").

Definition new_job_row (ctx : context) (t id config : string) (now : Z) : Job :=
  mkJob id t JobStatusPending config (JobCreator ctx t) now now "" "".

(** [CreateJob] up to its check of the limit. *)
Definition prepare_job (o : outside) (ctx : context) (cfg : option JobConfig) : result rpc_error (string * string * list string) :=
  match FromContext ctx with
  | Err _ => Err (mkRpc InvalidArgument "missing tenant context")
  | Ok t =>
      match cfg with
      | None => Err (mkRpc InvalidArgument "config is required")
      | Some cfg =>
          match validateJobConfig cfg with
          | Some e => Err (mkRpc InvalidArgument e)
          | None =>
              match snapshotTenantCatalogs (o_catalogs o) "create the job" cfg with
              | Err e => Err e
              | Ok cfg =>
                  match o_dag o with
                  | None => Err (internal "build DAG")
                  | Some order =>
                      match marshal_config cfg with
                      | None => Err (mkRpc InvalidArgument "marshal config")
                      | Some config => Ok (t, config, buildStageNames order)
                      end
                  end
              end
          end
      end
  end.

Definition get_job_refused (e : store_error) : response :=
  Refused (match e with ErrNotFound => mkRpc NotFound "job not found" | _ => internal "get job" end).

(** What refuses a retry before its check of the limit. *)
Definition retry_refused (job : Job) (fromFailure : bool) : option rpc_error :=
  let refusal := retryRefusal (ErrorClass job) in
  let remedy := retryRemedy (ErrorClass job) (Config job) in
  if negb (bool_decide (refusal = "")) && fromFailure then
    let tail := if Contains (ErrorMessage job) (remedy +:+ ".") || HasSuffix (ErrorMessage job) remedy then "" else " " +:+ remedy in
    Some (mkRpc FailedPrecondition ("cannot retry job " +:+ JobID job +:+ " from its failure: " +:+ refusal
      +:+ ". It failed with (as recorded then; a command in it may predate this version): " +:+ TrimSuffix (ErrorMessage job) "." +:+ "." +:+ tail))
  else if bool_decide (ErrorClass job = JobErrorEmptyTargetCatalog) && negb fromFailure then
    Some (mkRpc FailedPrecondition ("cannot retry job " +:+ JobID job
      +:+ " as a new job: its target catalog has no control with a statement, and a new job with the same config reads the same catalog. " +:+ remedy))
  else if bool_decide (ErrorClass job = JobErrorResultCacheCorrupt) && negb fromFailure
          && negb (match ExtractCatalogs (Config job) with Some cats => NoCache cats | None => false end) then
    Some (mkRpc FailedPrecondition ("cannot retry job " +:+ JobID job
      +:+ " as a new job: a cached result it would reuse failed its integrity check, or a stage run's cache record did not match what the stage wrote, "
      +:+ "and a new job with the same config reads the same cache. " +:+ remedy))
  else None.

Definition retryable_stage (st : Stage) : bool :=
  bool_decide (st_Status st = StageStatusFailed \/ st_Status st = StageStatusCancelled) && negb (bool_decide (StageName st = "")).

Definition firstFailed (stages : list Stage) : option string := StageName <$> List.find retryable_stage stages.

(** A job that stopped between its stages is resumed as it is. *)
Definition resumeOnly (job : Job) (stages : list Stage) : bool :=
  bool_decide (firstFailed stages = None) && bool_decide (Status job = JobStatusFailed \/ Status job = JobStatusCancelled).

Definition nothing_failed (job : Job) : rpc_error :=
  mkRpc FailedPrecondition ("cannot retry job " +:+ JobID job
    +:+ " from a failure: no stage failed or was cancelled, so there is no stage to resume from. "
    +:+ "To analyse the catalogs again, start a new job: " +:+ newJobCommand (Config job)).

(** The config of the job that [RetryJob] creates. *)
Definition prepare_retry (o : outside) (job : Job) : result rpc_error string :=
  match retryJobConfig job with
  | Err e => Err (mkRpc FailedPrecondition e)
  | Ok cfg =>
      match snapshotTenantCatalogs (o_catalogs o) ("retry job " +:+ JobID job +:+ " as a new job") cfg with
      | Err e => Err e
      | Ok cfg =>
          match marshal_config cfg with
          | None => Err (internal ("cannot retry job " +:+ JobID job +:+ " as a new job: its config could not be encoded"))
          | Some config => Ok config
          end
      end
  end.

(** A thread's next step, by handler; [None] is a thread that waits, or is
    done. *)
Definition create_step (o : outside) (th : thread) (s : state) : option (thread * state) :=
  match th with
  | CreateStart ctx cfg =>
      Some (match prepare_job o ctx cfg with
            | Err e => Done (Refused e)
            | Ok (t, config, names) => CreateLimit ctx t (o_id o) config names
            end, s)
  | CreateLimit ctx t id config names =>
      Some (match checkConcurrencyLimit s with Some e => Done (Refused e) | None => CreateInsert ctx t id config names end, s)
  | CreateInsert ctx t id config names =>
      let '(r, s) := store o (CreateJob ctx (new_job_row ctx t id config (o_now o))) s in
      Some (match r with Err _ => Done (Refused (internal "create job")) | Ok _ => CreateStaging ctx t id names end, s)
  | CreateStaging ctx t id names =>
      let '(r, s) := store o (CreateStages ctx id names) s in
      Some (match r with Err _ => Done (Refused (internal "create stages")) | Ok _ => CreateRegister t id end, s)
  | CreateRegister t id => Some (Done (Created id), start_run t id false s)
  | _ => None
  end.

(** [CancelJob]. *)
Definition cancel_step (o : outside) (th : thread) (s : state) : option (thread * state) :=
  match th with
  | CancelStart ctx id =>
      match FromContext ctx with
      | Err _ => Some (Done no_tenant, s)
      | Ok _ =>
          let '(r, s) := store o (GetJob ctx id) s in
          Some (match r with Err e => Done (get_job_refused e) | Ok _ => CancelLock id end, s)
      end
  | CancelLock id =>
      let '(e, s) := cancel_running id s in
      Some (Done (match e with Some e => Refused e | None => Cancelled end), s)
  | _ => None
  end.

(** [RetryJob]. *)
Definition retry_step (o : outside) (th : thread) (s : state) : option (thread * state) :=
  match th with
  | RetryStart ctx id fromFailure =>
      match FromContext ctx with
      | Err _ => Some (Done no_tenant, s)
      | Ok t =>
          let '(r, s) := store o (GetJob ctx id) s in
          Some (match r with Err e => Done (get_job_refused e) | Ok job => RetryReserve ctx t job fromFailure end, s)
      end
  | RetryReserve ctx t job fromFailure =>
      let '(e, s) := reserveRetry job s in
      Some (match e with Some e => Done (Refused e) | None => RetryCheck ctx t job fromFailure end, s)
  | RetryCheck ctx t job fromFailure =>
      Some (match retry_refused job fromFailure with
            | Some e => RetryRelease job (Refused e)
            | None =>
                match checkConcurrencyLimit s with
                | Some e => RetryRelease job (Refused e)
                | None => if fromFailure then RetryStages ctx t job else RetryInsert ctx t job
                end
            end, s)
  | RetryStages ctx t job =>
      let '(r, s) := store o (GetStages ctx (JobID job)) s in
      Some (match r with
            | Err _ => RetryRelease job (Refused (internal "get stages"))
            | Ok stages =>
                match firstFailed stages with
                | Some from => RetryReset ctx t job from (StageName <$> stages)
                | None => if resumeOnly job stages then RetryStatus ctx t job else RetryRelease job (Refused (nothing_failed job))
                end
            end, s)
  | RetryReset ctx t job from names =>
      let '(r, s) := store o (ResetStagesFrom ctx (JobID job) from names) s in
      Some (match r with Err _ => RetryRelease job (Refused (internal "reset stages")) | Ok _ => RetryStatus ctx t job end, s)
  | RetryStatus ctx t job =>
      let '(r, s) := store o (UpdateJobStatus (o_now o) ctx (JobID job) JobStatusRunning None) s in
      Some (match r with Err _ => RetryRelease job (Refused (internal "update job status")) | Ok _ => RetryRegister t job end, s)
  | RetryRegister t job => Some (RetryRelease job (Retried (JobID job)), start_run t (JobID job) false s)
  | RetryInsert ctx t job =>
      match prepare_retry o job with
      | Err e => Some (RetryRelease job (Refused e), s)
      | Ok config =>
          let '(r, s) := store o (CreateJob ctx (new_job_row ctx t (o_id o) config (o_now o))) s in
          Some (match r with Err _ => RetryRelease job (Refused (internal "create job")) | Ok _ => RetryStaging ctx t job (o_id o) end, s)
      end
  | RetryStaging ctx t job id =>
      match o_dag o with
      | None => Some (RetryRelease job (Refused (internal "build DAG")), s)
      | Some order =>
          let '(r, s) := store o (CreateStages ctx id (buildStageNames order)) s in
          Some (match r with Err _ => RetryRelease job (Refused (internal "create stages")) | Ok _ => RetryRegisterNew t job id end, s)
      end
  | RetryRegisterNew t job id => Some (RetryRelease job (Retried id), start_run t id false s)
  | RetryRelease job r => Some (Done r, release_retry (JobID job) s)
  | _ => None
  end.

(** [dispatchResumableJobs]. *)
Definition resume_step (o : outside) (th : thread) (s : state) : option (thread * state) :=
  match th with
  | Resuming [] => Some (Done Resumed, s)
  | Resuming (job :: queue) => Some (if stopped s then Done Resumed else ResumeSlot job queue, s)
  | ResumeSlot job queue =>
      if negb (0 <? max) then Some (ResumeRegister job queue, s)
      else
        let free := Z.of_nat (slots s) <? max in
        if free && negb (stopped s && o_stop o) then Some (ResumeRegister job queue, set_slots s (S (slots s)))
        else if stopped s then Some (Done Resumed, s) else None
  | ResumeRegister job queue =>
      match running s !! JobID job with
      | Some _ => Some (Resuming queue, if 0 <? max then set_slots s (slots s - 1)%nat else s)
      | None => Some (Resuming queue, start_run (TenantID job) (JobID job) (0 <? max) s)
      end
  | _ => None
  end.

(** [Stop]. *)
Definition stop_step (th : thread) (s : state) : option (thread * state) :=
  match th with
  | StopClose => Some (StopLock, set_stopped s)
  | StopLock => Some (Done Stopped, stop_running s)
  | _ => None
  end.

Definition advance (o : outside) (th : thread) (s : state) : option (thread * state) :=
  match th with
  | CreateStart _ _ | CreateLimit _ _ _ _ _ | CreateInsert _ _ _ _ _ | CreateStaging _ _ _ _ | CreateRegister _ _ => create_step o th s
  | CancelStart _ _ | CancelLock _ => cancel_step o th s
  | RetryStart _ _ _ | RetryReserve _ _ _ _ | RetryCheck _ _ _ _ | RetryStages _ _ _ | RetryReset _ _ _ _ _ | RetryStatus _ _ _
  | RetryRegister _ _ | RetryInsert _ _ _ | RetryStaging _ _ _ _ | RetryRegisterNew _ _ _ | RetryRelease _ _ => retry_step o th s
  | Resuming _ | ResumeSlot _ _ | ResumeRegister _ _ => resume_step o th s
  | StopClose | StopLock => stop_step th s
  | Done _ => None
  end.

(** ** The service at work *)

Record world := mkWorld { ws : state; threads : list thread }.

(** A started service: nothing runs, and the interrupted jobs are dispatched. *)
Definition start (d : db) : world :=
  mkWorld (mkState d ∅ ∅ ∅ false 0 0) [Resuming (GetResumableJobs d)].

Definition request (th : thread) : Prop :=
  match th with CreateStart _ _ | CancelStart _ _ | RetryStart _ _ _ | StopClose => True | _ => False end.

(** A write of a run to the store. *)
Definition run_op (op : db_op) : Prop := match op with OpCreateJob _ _ => False | _ => True end.

Inductive step : world -> world -> Prop :=
| step_request th s ths : request th -> step (mkWorld s ths) (mkWorld s (ths ++ [th]))
| step_thread o i th th' s s' ths :
    ths !! i = Some th -> advance o th s = Some (th', s') -> step (mkWorld s ths) (mkWorld s' (<[i := th']> ths))
| step_write a r op s ths : runs s !! a = Some r -> run_op op -> step (mkWorld s ths) (mkWorld (set_db s (apply_op (st_db s) op)) ths)
| step_claim a s ths : is_Some (runs s !! a) -> step (mkWorld s ths) (mkWorld (claim a s).2 ths)
| step_end a s ths : is_Some (runs s !! a) -> step (mkWorld s ths) (mkWorld (end_run a s) ths).
End service.
