(* ===== verification/ServiceFacts.v ===== *)
(** What the interleavings of the pipeline service keep ([Service]). *)

From S2P Require Import Prelude Gostrings Tenant Jobconfig Joberr Jobstore Executor Service.
Local Open Scope Z_scope.

(** * Definitions *)

(** The job whose retry a thread has reserved. *)
Definition holds (th : thread) : option string :=
  match th with
  | RetryCheck _ _ job _ | RetryStages _ _ job | RetryReset _ _ job _ _ | RetryStatus _ _ job | RetryRegister _ job
  | RetryInsert _ _ job | RetryStaging _ _ job _ | RetryRegisterNew _ job _ | RetryRelease job _ => Some (JobID job)
  | _ => None
  end.

(** The job it may still register a run of again. *)
Definition resumes (th : thread) : option string :=
  match th with
  | RetryCheck _ _ job _ | RetryStages _ _ job | RetryReset _ _ job _ _ | RetryStatus _ _ job | RetryRegister _ job => Some (JobID job)
  | _ => None
  end.

(** The job it has created and not yet registered a run of. *)
Definition creates (th : thread) : option string :=
  match th with
  | CreateStaging _ _ id _ | CreateRegister _ id | RetryStaging _ _ _ id | RetryRegisterNew _ _ id => Some id
  | _ => None
  end.

(** The interrupted jobs it has still to resume. *)
Definition queue (th : thread) : list string :=
  match th with
  | Resuming jobs => JobID <$> jobs
  | ResumeSlot job jobs | ResumeRegister job jobs => JobID job :: (JobID <$> jobs)
  | _ => []
  end.

(** The jobs it knows of. *)
Definition mentions (th : thread) : list string :=
  queue th ++ option_list (holds th) ++ option_list (creates th)
  ++ match th with RetryReserve _ _ job _ => [JobID job] | _ => [] end.

(** Whether it holds a slot for the run it is about to register. *)
Definition token (max : Z) (th : thread) : bool := match th with ResumeRegister _ _ => 0 <? max | _ => false end.

(** A table whose jobs have their keys, and grows. *)
Definition keyed (d : db) : Prop := forall k j, jobs d !! k = Some j -> JobID j = k.
Definition known (d : db) (k : string) : Prop := is_Some (jobs d !! k).
Definition grows (d d' : db) : Prop := (keyed d -> keyed d') /\ forall k, known d k -> known d' k.

(** Reachable through worlds that satisfy [P]. *)
Inductive reachable `{Postgres} `{GoQuote} `{JobConfigJSON} (max : Z) (names : bool) (P : world -> Prop) (d : db) : world -> Prop :=
| reach_start : P (start d) -> reachable max names P d (start d)
| reach_step w w' : reachable max names P d w -> step max names w w' -> P w' -> reachable max names P d w'.

Definition anywhere (w : world) : Prop := True.

(** The service is not stopping, and no job is retried that is still to be
    resumed or being created. *)
Definition undisturbed (w : world) : Prop :=
  stopped (ws w) = false /\
  forall j, j ∈ retrying (ws w) -> forall i th, threads w !! i = Some th -> (j ∉ queue th) /\ (creates th <> Some j).

(** * The store *)

Section store.
Context `{Postgres}.

Lemma grows_refl d : grows d d.
Proof. done. Qed.

Lemma grows_jobs d d' : jobs d' = jobs d -> grows d d'.
Proof. intros He. unfold grows, keyed, known. by rewrite He. Qed.

Lemma grows_insert d k j : JobID j = k -> grows d (set_jobs d (<[k := j]> (jobs d))).
Proof.
  intros Hk. split; cbn.
  - intros Hd k' j'. cbn. destruct (decide (k = k')) as [<-|Hne]; [rewrite lookup_insert_eq; congruence|].
    rewrite lookup_insert_ne by done. apply Hd.
  - intros k' Hk'. unfold known. cbn. apply lookup_insert_is_Some'. by right.
Qed.

Lemma insert_votes_jobs s j pairs d u d' : insert_votes s j pairs d = Ok (u, d') -> jobs d' = jobs d.
Proof.
  revert d. induction pairs as [|p pairs IH]; intros d; cbn; [by intros [= _ <-]|].
  destruct (_ || _); [done|]. destruct (vote_summaries d !! _); intros Hi; by apply IH in Hi.
Qed.

Lemma only_stages_grows d d' : only_stages d d' -> grows d d'.
Proof. intros [ss ->]. by apply grows_jobs. Qed.

Lemma update_stage_grows s d j n f u d' :
  (forall st, st_TenantID (f st) = st_TenantID st) -> update_stage s d j n f = Ok (u, d') -> grows d d'.
Proof. intros Hf Hu. eapply only_stages_grows, update_stage_only; [exact Hf|exact Hu]. Qed.

Lemma op_grows d op : grows d (apply_op d op).
Proof.
  split.
  2: { intros k Hk. destruct (op_frame d op) as [->|(s & _ & Hf)]; [done|]. unfold known in *.
       destruct (fr_jobs _ _ _ Hf k) as [->|[_ (new & Hnew & _)]]; [done|by eexists]. }
  intros Hd. destruct op as [ctx job|now ctx j st e|ctx j names|now ctx j n st|now ctx j n e|ctx j from all|now ctx j n data a|ctx t j pairs]; cbn.
  - unfold CreateJob. destruct (ValidateTenantID _); [|done]. case_bool_decide; [done|]. apply transaction_ind; [done|]. intros r d'.
    destruct (jsonb _); [|done]. destruct (_ && _); [|done]. intros [= _ <-]. by apply grows_insert.
  - unfold UpdateJobStatus. apply job_method_ind; [done|]. intros t r d' _. destruct (jobs d !! j) as [old|] eqn:Hj; [|by intros [= _ <-]].
    destruct (negb _); [by intros [= _ <-]|]. case_bool_decide; [done|]. intros [= _ <-]. apply grows_insert; [|done]. cbn. by apply Hd.
  - unfold CreateStages. apply job_method_ind; [done|]. intros t r d' _ [_ Ho]%insert_stages_frame. by apply (only_stages_grows d d').
  - unfold UpdateStageStatus. apply job_method_ind; [done|]. intros t r d' _ Hu. eapply update_stage_grows in Hu as [Hk _]; [by apply Hk|done].
  - unfold UpdateStageError. apply job_method_ind; [done|]. intros t r d' _ Hu. eapply update_stage_grows in Hu as [Hk _]; [by apply Hk|done].
  - unfold ResetStagesFrom. case_bool_decide; [done|]. destruct (FromContext ctx); [|done]. destruct (stages_from _ _); [|done].
    apply transaction_ind; [done|]. intros r d' [_ Ho]%reset_stages_frame. by apply (only_stages_grows d d').
  - unfold CompleteAnalysisStage. apply job_method_ind; [done|]. intros t r d' _. destruct (jsonb data) as [data'|]; [|done].
    destruct (negb _); [done|]. intros Hu. eapply update_stage_grows in Hu as [Hk _]; [by apply Hk|done].
  - unfold WriteVoteSummaries. destruct (ValidateTenantID t); [|done]. case_bool_decide; [done|]. apply transaction_ind; [done|].
    intros r d' Hi%insert_votes_jobs. by apply (grows_jobs d d').
Qed.

Lemma CreateJob_ok ctx job d u d' : CreateJob ctx job d = (Ok u, d') -> ~ known d (JobID job) /\ known d' (JobID job).
Proof.
  unfold CreateJob. destruct (ValidateTenantID _); [|done]. case_bool_decide; [done|]. unfold transaction.
  destruct (enter _ _ _); [|done]. destruct (jsonb _); [|done]. case_bool_decide as Hn; [|done].
  destruct (_ && _); [|done]. intros [= _ <-]. unfold known. cbn. rewrite Hn, lookup_insert_eq. split; [by intros []|by eexists].
Qed.

Lemma GetJob_ok ctx id d job d' : GetJob ctx id d = (Ok job, d') -> d' = d /\ jobs d !! id = Some job.
Proof.
  unfold GetJob, job_method, transaction. case_bool_decide; [done|]. destruct (FromContext ctx); [|done].
  destruct (enter _ _ _); [|done]. destruct (jobs d !! id) as [j|]; [|done]. destruct (visible _ j); [|done]. by intros [= <- <-].
Qed.

Lemma read_same {A} ctx id d (body : session -> result store_error (A * db)) :
  (forall s a d', body s = Ok (a, d') -> d' = d) -> (job_method ctx id d body).2 = d.
Proof. intros Hb. apply (job_method_ind (fun d' => d' = d)); [done|]. intros t a d' _ Hd. by eapply Hb. Qed.

Lemma GetJob_same ctx id d : (GetJob ctx id d).2 = d.
Proof. apply read_same. intros s a d'. destruct (jobs d !! id); [|done]. destruct (visible _ _); [|done]. by intros [= _ <-]. Qed.

Lemma GetStages_same ctx id d : (GetStages ctx id d).2 = d.
Proof. apply read_same. by intros s a d' [= _ <-]. Qed.

(** A call of the store leaves tables that grow. *)
Lemma store_grows {A} o (call : db -> result store_error A * db) s r s' :
  (forall d, grows d (call d).2) -> store o call s = (r, s') ->
  exists d', s' = set_db s d' /\ grows (st_db s) d' /\ (forall a, r = Ok a -> call (st_db s) = (Ok a, d')).
Proof.
  intros Hc. unfold store. destruct (o_fail o).
  - intros [= <- <-]. exists (st_db s). split_and!; [by destruct s|apply grows_refl|done].
  - specialize (Hc (st_db s)). destruct (call (st_db s)) as [r0 d0]. intros [= <- <-]. exists d0. split_and!; [done|done|by intros a ->].
Qed.

Lemma op_call {A} (call : db -> result store_error A * db) op : (forall d, (call d).2 = apply_op d op) -> forall d, grows d (call d).2.
Proof. intros Hc d. rewrite Hc. apply op_grows. Qed.

Lemma read_call {A} (call : db -> result store_error A * db) : (forall d, (call d).2 = d) -> forall d, grows d (call d).2.
Proof. intros Hc d. rewrite Hc. apply grows_refl. Qed.
End store.

(** * What a step of a thread does *)

Section effects.
Context `{Postgres} `{GoQuote} `{JobConfigJSON}.
Variable max : Z.
Variable names : bool.

(** The thread keeps its reservation and takes on no new duty. *)
Record lighter (th th' : thread) : Prop := {
  li_holds : holds th' = holds th;
  li_creates : creates th' = creates th \/ creates th' = None;
  li_resumes : resumes th' = resumes th \/ resumes th' = None;
  li_queue : forall k, k ∈ queue th' -> k ∈ queue th;
  li_stop : th' <> StopLock;
}.

Inductive effect (s : state) (th th' : thread) : state -> Prop :=
| effect_store d' :
    lighter th th' -> token max th' = token max th -> grows (st_db s) d' ->
    (forall k, k ∈ mentions th' -> k ∈ mentions th \/ known (st_db s) k) -> effect s th th' (set_db s d')
| effect_insert id d' :
    grows (st_db s) d' -> ~ known (st_db s) id -> known d' id ->
    holds th' = holds th -> creates th' = Some id -> resumes th' = None -> queue th' = [] -> token max th = false -> token max th' = false ->
    (forall k, k ∈ mentions th' -> k = id \/ k ∈ mentions th) -> effect s th th' (set_db s d')
| effect_start t j :
    creates th = Some j \/ resumes th = Some j \/ (j ∈ queue th /\ running s !! j = None) -> j ∈ mentions th ->
    holds th' = holds th -> creates th' = None -> resumes th' = None -> (forall k, k ∈ queue th' -> k ∈ queue th) -> th' <> StopLock ->
    token max th' = false -> (forall k, k ∈ mentions th' -> k ∈ mentions th) -> effect s th th' (start_run t j (token max th) s)
| effect_reserve j :
    running s !! j = None -> j ∉ retrying s -> j ∈ mentions th -> th' <> th -> holds th = None ->
    holds th' = Some j -> creates th' = None -> resumes th' = Some j -> queue th' = [] -> token max th = false -> token max th' = false ->
    mentions th' = [j] -> effect s th th' (set_retrying s ({[j]} ∪ retrying s))
| effect_release j r : th' = Done r -> holds th = Some j -> token max th = false -> effect s th th' (release_retry j s)
| effect_cancel id e s' r : th = CancelLock id -> th' = Done r -> cancel_running id s = (e, s') ->
    (r = Cancelled <-> e = None) -> effect s th th' s'
| effect_close : th = StopClose -> th' = StopLock -> effect s th th' (set_stopped s)
| effect_stop r : th = StopLock -> th' = Done r -> effect s th th' (stop_running s)
| effect_take :
    lighter th th' -> (forall k, k ∈ mentions th' -> k ∈ mentions th) -> token max th = false -> token max th' = true ->
    Z.of_nat (slots s) < max -> effect s th th' (set_slots s (S (slots s)))
| effect_give :
    lighter th th' -> (forall k, k ∈ mentions th' -> k ∈ mentions th) -> token max th = true -> token max th' = false ->
    effect s th th' (set_slots s (slots s - 1)%nat).

Lemma set_db_same s : set_db s (st_db s) = s.
Proof. by destruct s. Qed.

(** A step that touches nothing. *)
Lemma effect_local s th th' :
  lighter th th' -> token max th' = token max th -> (forall k, k ∈ mentions th' -> k ∈ mentions th \/ known (st_db s) k) -> effect s th th' s.
Proof. intros Hl Ht Hm. rewrite <- (set_db_same s) at 2. by apply effect_store; [|..|apply grows_refl|]. Qed.

Ltac light := split; cbn; auto; try discriminate; intros ?; rewrite ?elem_of_cons, ?elem_of_nil; tauto.
Ltac named := cbn; try (intros ?); rewrite ?elem_of_cons, ?elem_of_app, ?elem_of_nil; tauto.
Ltac local := apply effect_local; [light|done|named].
Ltac stored op Hs :=
  let d' := fresh "d" in let Hg := fresh "Hg" in let Hr := fresh "Hr" in
  apply store_grows in Hs as (d' & -> & Hg & Hr); [|by apply (op_call _ op)].
Ltac written := apply effect_store; [light|done|done|named].

Lemma advance_effect o th s th' s' : keyed (st_db s) -> advance max names o th s = Some (th', s') -> effect s th th' s'.
Proof.
  intros Hk. destruct th as [ctx cfg|ctx t id config ns|ctx t id config ns|ctx t id ns|t id|ctx id|id|ctx id ff|ctx t job ff|ctx t job ff|ctx t job|
    ctx t job from ns|ctx t job|t job|ctx t job|ctx t job id|t job id|job r|q|job q|job q| | |r]; cbn [advance create_step cancel_step retry_step resume_step stop_step].
  - intros [= <- <-]. destruct (prepare_job _ _ _) as [[[t config] ns]|e]; local.
  - intros [= <- <-]. destruct (checkConcurrencyLimit _ _); local.
  - destruct (store _ _ _) as [r s1] eqn:Hs. intros [= <- <-]. stored (OpCreateJob ctx (new_job_row ctx t id config (o_now o))) Hs.
    destruct r as [u|e]; [|written]. destruct (CreateJob_ok _ _ _ _ _ (Hr _ eq_refl)) as [Hn Hy].
    apply (effect_insert _ _ _ id); try done. named.
  - destruct (store _ _ _) as [r s1] eqn:Hs. intros [= <- <-]. stored (OpCreateStages ctx id ns) Hs. destruct r; written.
  - intros [= <- <-]. apply (effect_start s (CreateRegister t id)); [by left|named|done|done|done|named|done|done|named].
  - destruct (FromContext ctx); [|intros [= <- <-]; local].
    destruct (store _ _ _) as [r s1] eqn:Hs. intros [= <- <-].
    apply store_grows in Hs as (d & -> & Hg & _); [|apply read_call, GetJob_same]. destruct r; written.
  - destruct (cancel_running id s) as [e s1] eqn:He. intros [= <- <-]. eapply effect_cancel; [done|done|exact He|]. by destruct e.
  - destruct (FromContext ctx) as [t|]; [|intros [= <- <-]; local].
    destruct (store _ _ _) as [r s1] eqn:Hs. intros [= <- <-].
    apply store_grows in Hs as (d & -> & Hg & Hr); [|apply read_call, GetJob_same]. destruct r as [job|e]; [|written].
    destruct (GetJob_ok _ _ _ _ _ (Hr _ eq_refl)) as [_ Hj]. apply effect_store; [light|done|done|].
    intros k Hin. apply list_elem_of_singleton in Hin as ->. right. rewrite (Hk _ _ Hj). by eexists.
  - unfold reserveRetry. destruct (running s !! JobID job) as [a|] eqn:Hr; [intros [= <- <-]; local|].
    case_bool_decide as Hin; [intros [= <- <-]; local|]. intros [= <- <-]. apply effect_reserve; try done. named.
  - intros [= <- <-]. destruct (retry_refused _ _); [local|]. destruct (checkConcurrencyLimit _ _); [local|]. destruct ff; local.
  - destruct (store _ _ _) as [r s1] eqn:Hs. intros [= <- <-].
    apply store_grows in Hs as (d & -> & Hg & _); [|apply read_call, GetStages_same].
    destruct r as [stages|e]; [|written]. destruct (firstFailed stages); [written|]. destruct (resumeOnly _ _); written.
  - destruct (store _ _ _) as [r s1] eqn:Hs. intros [= <- <-]. stored (OpReset ctx (JobID job) from ns) Hs. destruct r; written.
  - destruct (store _ _ _) as [r s1] eqn:Hs. intros [= <- <-]. stored (OpJobStatus (o_now o) ctx (JobID job) JobStatusRunning None) Hs.
    destruct r; written.
  - intros [= <- <-]. apply (effect_start s (RetryRegister t job)); [by right; left|named|done|done|done|named|done|done|named].
  - destruct (prepare_retry _ _) as [config|e]; [|intros [= <- <-]; local].
    destruct (store _ _ _) as [r s1] eqn:Hs. intros [= <- <-]. stored (OpCreateJob ctx (new_job_row ctx t (o_id o) config (o_now o))) Hs.
    destruct r as [u|e]; [|written]. destruct (CreateJob_ok _ _ _ _ _ (Hr _ eq_refl)) as [Hn Hy].
    apply (effect_insert _ _ _ (o_id o)); try done. named.
  - destruct (o_dag o) as [order|]; [|intros [= <- <-]; local].
    destruct (store _ _ _) as [r s1] eqn:Hs. intros [= <- <-]. stored (OpCreateStages ctx id (buildStageNames order)) Hs. destruct r; written.
  - intros [= <- <-]. apply (effect_start s (RetryRegisterNew t job id)); [by left|named|done|done|done|named|done|done|named].
  - intros [= <- <-]. by eapply effect_release.
  - destruct q as [|job q]; intros [= <- <-]; [local|]. destruct (stopped s); local.
  - destruct (0 <? max) eqn:Hmax; cbn [negb].
    + destruct (Z.ltb_spec (Z.of_nat (slots s)) max); cbn [andb].
      * destruct (negb _); [|destruct (stopped s); [|done]; intros [= <- <-]; local].
        intros [= <- <-]. apply effect_take; [light|named|done|done|done].
      * destruct (stopped s); [|done]. intros [= <- <-]. local.
    + intros [= <- <-]. apply effect_local; [light|cbn; by rewrite Hmax|named].
  - destruct (running s !! JobID job) as [a|] eqn:Hr.
    + destruct (0 <? max) eqn:Hmax; intros [= <- <-].
      * apply effect_give; [light|named|done|done].
      * apply effect_local; [light|cbn; by rewrite Hmax|named].
    + intros [= <- <-]. apply (effect_start s (ResumeRegister job q)); [|named|done|done|done|named|done|done|named].
      right; right. split; [left|done].
  - intros [= <- <-]. by apply effect_close.
  - intros [= <- <-]. by eapply effect_stop.
  - done.
Qed.

(** * Induction over the interleavings *)

(** What every invariant builds on: rows have their keys, and every run and
    every job a thread knows of has its row. *)
Record base (s : state) (ths : list thread) : Prop := {
  ba_keyed : keyed (st_db s);
  ba_run : forall a r, runs s !! a = Some r -> known (st_db s) (rn_job r);
  ba_thread : forall i th k, ths !! i = Some th -> k ∈ mentions th -> known (st_db s) k;
}.

(** The cases of [cancel_running]. *)
Definition cancelled_run (r : run) : run :=
  set_rj r (mkRunningJob (rj_cause (cancel ErrJobCancelled (rn_rj r))) (completing (rn_rj r)) true).

Lemma cancel_cases id e s s' :
  cancel_running id s = (e, s') ->
  (s' = s /\ e <> None) \/
  (e = None /\ exists a r, running s !! id = Some a /\ runs s !! a = Some r /\ completing (rn_rj r) = false /\
    cancelled (rn_rj r) = false /\ s' = set_runs s (<[a := cancelled_run r]> (runs s))).
Proof.
  unfold cancel_running. destruct (_ ≫= _) as [[a r]|] eqn:Hb; [|intros [= <- <-]; by left].
  apply bind_Some in Hb as (a1 & Ha & (r1 & Hr1 & [= <- <-])%bind_Some).
  destruct (completing _) eqn:Hc; [intros [= <- <-]; by left|]. destruct (cancelled (rn_rj r1)) eqn:Hx; intros [= <- <-]; [by left|].
  right. split; [done|]. exists a1, r1. unfold cancelled_run. by rewrite Hc.
Qed.

Lemma stop_runs s a r : runs (stop_running s) !! a = Some r ->
  exists r0, runs s !! a = Some r0 /\ rn_job r = rn_job r0 /\ rn_slot r = rn_slot r0 /\
    (r = r0 \/ r = set_rj r0 (cancel errServiceStopping (rn_rj r0))).
Proof.
  unfold stop_running. cbn. rewrite map_lookup_imap. intros (r0 & Hr0 & [= <-])%bind_Some. exists r0.
  case_bool_decide; auto.
Qed.

Ltac effect_cases He :=
  destruct He as [d' Hl Htok Hg Hm|id d' Hg Hnew Hold Hh Hc Hre Hq Htok Htok' Hm|t j Hwhy Hj Hh Hc Hre Hq Hns Htok' Hm
    |j Hrun Hret Hj Hne Hh Hh' Hc Hre Hq Htok Htok' Hm|j res Hth' Hh Htok|id e s' res Hth Hth' Hcr Hres|Hth Hth'|res Hth Hth'
    |Hl Hm Htok Htok' Hfree|Hl Hm Htok Htok'].

(** An effect on the runs keeps their jobs, but for a new run. *)
Lemma effect_runs s th th' s1 a r :
  effect s th th' s1 -> runs s1 !! a = Some r ->
  (exists r0, runs s !! a = Some r0 /\ rn_job r = rn_job r0 /\ rn_slot r = rn_slot r0) \/ (a = next s /\ rn_job r ∈ mentions th).
Proof.
  intros He Hr. effect_cases He; cbn in Hr; try by (left; exists r).
  - apply lookup_insert_Some in Hr as [[<- <-]|[_ Hr]]; [by right|left; by exists r].
  - apply cancel_cases in Hcr as [[-> _]|(_ & a0 & r0 & _ & Hr0 & _ & _ & ->)]; left; [by exists r|].
    cbn in Hr. apply lookup_insert_Some in Hr as [[<- <-]|[_ Hr]]; [by exists r0|by exists r].
  - apply stop_runs in Hr as (r0 & Hr0 & Hjob & Hslot & _). left. by exists r0.
Qed.

Lemma effect_grows s th th' s1 : effect s th th' s1 -> grows (st_db s) (st_db s1).
Proof.
  intros He. effect_cases He; try done. by apply cancel_cases in Hcr as [[-> _]|(_ & a0 & r0 & _ & Hr0 & _ & _ & ->)].
Qed.

Lemma effect_mentions s th th' s1 k :
  effect s th th' s1 -> k ∈ mentions th' -> k ∈ mentions th \/ known (st_db s1) k.
Proof.
  intros He Hk. pose proof (effect_grows _ _ _ _ He) as [_ Hgr]. effect_cases He; subst; cbn in *; try by (apply elem_of_nil in Hk).
  - destruct (Hm k Hk); auto.
  - destruct (Hm k Hk) as [->|]; auto.
  - auto.
  - rewrite Hm in Hk. apply list_elem_of_singleton in Hk as ->. by left.
  - auto.
  - auto.
Qed.

Lemma base_thread s ths i th th' s' :
  base s ths -> ths !! i = Some th -> effect s th th' s' -> base s' (<[i := th']> ths).
Proof.
  intros [Hk Hr Ht] Hi He. pose proof (effect_grows _ _ _ _ He) as [Hgk Hg]. split.
  - auto.
  - intros a r Ha. apply Hg. destruct (effect_runs _ _ _ _ _ _ He Ha) as [(r0 & Hr0 & -> & _)|[_ Hm]]; [by eapply Hr|by eapply Ht].
  - intros i' th0 k Hi' Hm. apply list_lookup_insert_Some in Hi' as [(-> & <- & _)|[_ Hi']]; [|by eapply Hg, Ht].
    destruct (effect_mentions _ _ _ _ _ He Hm) as [Hm'|?]; [by eapply Hg, Ht|done].
Qed.

Lemma base_request s ths th : base s ths -> request th -> base s (ths ++ [th]).
Proof.
  intros [Hk Hr Ht] Hq. split; [done|done|]. intros i th0 k Hi Hm. apply lookup_snoc_Some in Hi as [[_ Hi]|[_ <-]]; [by eapply Ht|].
  destruct th; try done; by apply elem_of_nil in Hm.
Qed.

Lemma base_db s ths d' : grows (st_db s) d' -> base s ths -> base (set_db s d') ths.
Proof.
  intros [Hgk Hg] [Hk Hr Ht]. split; [by apply Hgk|..]; [intros a r Ha; by eapply Hg, Hr|intros i th k Hi Hm; by eapply Hg, Ht].
Qed.

Lemma claim_runs a s a' r' : runs (claim a s).2 !! a' = Some r' ->
  exists r, runs s !! a' = Some r /\ rn_job r' = rn_job r /\ rn_slot r' = rn_slot r.
Proof.
  unfold claim. destruct (runs s !! a) as [r|] eqn:Hr; [|intros ?; by exists r']. destruct (rj_cause _); [intros ?; by exists r'|].
  cbn. intros [[<- <-]|[_ ?]]%lookup_insert_Some; [by exists r|by exists r'].
Qed.

Lemma claim_rest a s : st_db (claim a s).2 = st_db s /\ running (claim a s).2 = running s /\ retrying (claim a s).2 = retrying s /\
  stopped (claim a s).2 = stopped s /\ slots (claim a s).2 = slots s /\ next (claim a s).2 = next s.
Proof. unfold claim. destruct (runs s !! a) as [r|]; [|done]. by destruct (rj_cause _). Qed.

Lemma end_run_runs a s a' r' : runs (end_run a s) !! a' = Some r' -> runs s !! a' = Some r'.
Proof. unfold end_run. destruct (runs s !! a); [|done]. cbn. by intros [_ ?]%lookup_delete_Some. Qed.

Lemma end_run_rest a s : st_db (end_run a s) = st_db s /\ retrying (end_run a s) = retrying s /\ stopped (end_run a s) = stopped s /\
  next (end_run a s) = next s.
Proof. unfold end_run. by destruct (runs s !! a). Qed.

Lemma base_step w w' : base (ws w) (threads w) -> step max names w w' -> base (ws w') (threads w').
Proof.
  intros Hb Hs. destruct Hs as [th s ths Hq|o i th th' s s' ths Hi Ha|a r op s ths Hr Ho|a s ths Hr|a s ths Hr]; cbn in *.
  - by apply base_request.
  - eapply base_thread; [done..|]. eapply advance_effect; [apply Hb|exact Ha].
  - apply base_db; [apply op_grows|done].
  - destruct Hb as [Hk Hru Ht]. destruct (claim_rest a s) as (Hd & _). split; rewrite ?Hd; [done| |done].
    intros a' r' (r & Hr' & -> & _)%claim_runs. by eapply Hru.
  - destruct Hb as [Hk Hru Ht]. destruct (end_run_rest a s) as (Hd & _). split; rewrite ?Hd; [done| |done].
    intros a' r' Hr'%end_run_runs. by eapply Hru.
Qed.

Lemma base_start d : keyed d -> base (ws (start d)) (threads (start d)).
Proof.
  intros Hd. split; cbn; [done|done|]. intros i th k Hi Hk. apply list_lookup_singleton_Some in Hi as [_ <-].
  unfold mentions in Hk. cbn in Hk. rewrite app_nil_r in Hk. apply list_elem_of_fmap in Hk as (job & -> & Hj).
  unfold GetResumableJobs in Hj. rewrite order_by_perm in Hj. apply list_elem_of_In, List.filter_In in Hj as [Hj%list_elem_of_In _].
  apply list_elem_of_fmap in Hj as ([k job'] & -> & Hj%elem_of_map_to_list). cbn. unfold known. rewrite (Hd _ _ Hj). by eexists.
Qed.

(** Invariants by cases of the steps, with [base] at hand. *)
Lemma world_ind P d (I : state -> list thread -> Prop) :
  keyed d ->
  I (ws (start d)) (threads (start d)) ->
  (forall s ths th, request th -> I s ths -> I s (ths ++ [th])) ->
  (forall s ths i th th' s', base s ths -> P (mkWorld s ths) -> P (mkWorld s' (<[i := th']> ths)) ->
     ths !! i = Some th -> effect s th th' s' -> I s ths -> I s' (<[i := th']> ths)) ->
  (forall s ths d', I s ths -> I (set_db s d') ths) ->
  (forall s ths a, I s ths -> I (claim a s).2 ths) ->
  (forall s ths a, I s ths -> I (end_run a s) ths) ->
  forall w, reachable max names P d w -> base (ws w) (threads w) /\ I (ws w) (threads w).
Proof.
  intros Hd Hstart Hreq Hthread Hdb Hclaim Hend w Hw.
  assert (P w /\ base (ws w) (threads w) /\ I (ws w) (threads w)) as (_ & ? & ?); [|done].
  induction Hw as [Hp|w w' Hw (Hp & Hb & HI) Hs Hp']; [split_and!; [done|by apply base_start|done]|].
  split_and!; [done|by eapply base_step|].
  destruct Hs as [th s ths Hq|o i th th' s s' ths Hi Ha|a r op s ths Hr Ho|a s ths Hr|a s ths Hr]; cbn in *; auto.
  eapply Hthread; [done|exact Hp|exact Hp'|done| |done]. eapply advance_effect; [apply Hb|exact Ha].
Qed.

(** ** The table of running jobs *)

(** A registered run is live, and its context done only once it is cancelled;
    a cancelled run has its cause, and has not claimed its completion. *)
Record heap (s : state) : Prop := {
  he_next : forall a r, runs s !! a = Some r -> (a < next s)%nat;
  he_entry : forall j a, running s !! j = Some a -> exists r, runs s !! a = Some r /\ rn_job r = j;
  he_live : forall j a r, running s !! j = Some a -> runs s !! a = Some r -> cancelled (rn_rj r) = false -> rj_cause (rn_rj r) = None;
  he_cancelled : forall a r, runs s !! a = Some r -> cancelled (rn_rj r) = true ->
    rj_cause (rn_rj r) = Some ErrJobCancelled /\ completing (rn_rj r) = false;
}.

Lemma claim_cases a s :
  claim a s = (false, s) \/
  exists r, runs s !! a = Some r /\ rj_cause (rn_rj r) = None /\
    claim a s = (true, set_runs s (<[a := set_rj r (mkRunningJob None true (cancelled (rn_rj r)))]> (runs s))).
Proof.
  unfold claim. destruct (runs s !! a) as [r|]; [|by left]. destruct (rj_cause (rn_rj r)) eqn:Hc; [by left|].
  right. by exists r.
Qed.

Lemma heap_start_run s t j b : heap s -> heap (start_run t j b s).
Proof.
  intros [Hn He Hl Hc]. split; cbn.
  - intros a r [[<- _]|[_ Ha]]%lookup_insert_Some; [lia|]. apply Hn in Ha. lia.
  - intros j' a [[<- <-]|[_ Ha]]%lookup_insert_Some; [eexists; by rewrite lookup_insert_eq|].
    destruct (He _ _ Ha) as (r & Hr & <-). exists r. pose proof (Hn _ _ Hr). by rewrite lookup_insert_ne by lia.
  - intros j' a r Ha [[<- <-]|[Hne Hr]]%lookup_insert_Some; [done|].
    apply lookup_insert_Some in Ha as [[<- <-]|[_ Ha]]; [done|]. by eapply Hl.
  - intros a r [[<- <-]|[_ Hr]]%lookup_insert_Some; [done|by eapply Hc].
Qed.

Lemma heap_cancel s id e s' : heap s -> cancel_running id s = (e, s') -> heap s'.
Proof.
  intros [Hn He Hl Hc] [[-> _]|(_ & a0 & r0 & Ha0 & Hr0 & Hnc & Hnx & ->)]%cancel_cases; [by split|].
  split; cbn.
  - intros a r [[<- <-]|[_ Ha]]%lookup_insert_Some; by eapply Hn.
  - intros j a Ha. destruct (He _ _ Ha) as (r & Hr & <-). destruct (decide (a0 = a)) as [->|Hne].
    + assert (r0 = r) as -> by congruence. eexists. by rewrite lookup_insert_eq.
    + exists r. by rewrite lookup_insert_ne.
  - intros j a r Ha [[<- <-]|[_ Hr]]%lookup_insert_Some; [done|by eapply Hl].
  - intros a r [[<- <-]|[_ Hr]]%lookup_insert_Some; [|by eapply Hc]. intros _. cbn. by rewrite (Hl _ _ _ Ha0 Hr0 Hnx).
Qed.

Lemma heap_effect s th th' s1 : effect s th th' s1 -> heap s -> heap s1.
Proof.
  intros He Hp. effect_cases He; try (destruct Hp as [? ? ? ?]; split; assumption).
  - by apply heap_start_run.
  - by eapply heap_cancel.
  - destruct Hp as [Hn Hen Hl Hx]. split; cbn; [|done|done|].
    + intros a r (r0 & Hr0 & _)%stop_runs. by eapply Hn.
    + intros a r (r0 & Hr0 & _ & _ & [->| ->])%stop_runs; [by eapply Hx|]. cbn. intros Hcn.
      destruct (Hx _ _ Hr0 Hcn) as [-> ?]. done.
Qed.

Lemma heap_claim s a : heap s -> heap (claim a s).2.
Proof.
  intros [Hn He Hl Hc]. destruct (claim_cases a s) as [->|(r0 & Hr0 & Hno & ->)]; [by split|]. split; cbn.
  - intros a' r [[<- <-]|[_ Ha]]%lookup_insert_Some; by eapply Hn.
  - intros j a' Ha. destruct (He _ _ Ha) as (r & Hr & <-). destruct (decide (a = a')) as [->|Hne].
    + assert (r0 = r) as -> by congruence. eexists. by rewrite lookup_insert_eq.
    + exists r. by rewrite lookup_insert_ne.
  - intros j a' r Ha [[<- <-]|[_ Hr]]%lookup_insert_Some; [done|by eapply Hl].
  - intros a' r [[<- <-]|[_ Hr]]%lookup_insert_Some; [|by eapply Hc]. cbn. intros Hx. destruct (Hc _ _ Hr0 Hx) as [? _]. congruence.
Qed.

Lemma end_run_running s a j b : running (end_run a s) !! j = Some b -> running s !! j = Some b.
Proof.
  unfold end_run. destruct (runs s !! a) as [r|]; [|done]. cbn. case_bool_decide; [|done]. by intros [_ ?]%lookup_delete_Some.
Qed.

Lemma heap_end s a : heap s -> heap (end_run a s).
Proof.
  intros [Hn He Hl Hc]. split.
  - intros a' r Hr%end_run_runs. destruct (end_run_rest a s) as (_ & _ & _ & ->). by eapply Hn.
  - intros j a' Ha. pose proof (end_run_running _ _ _ _ Ha) as Ha'. destruct (He _ _ Ha') as (r & Hr & Hj). exists r. split; [|done].
    unfold end_run in *. destruct (runs s !! a) as [ra|] eqn:Hra; [|done]. cbn in *. apply lookup_delete_Some. split; [|done]. intros ->.
    assert (ra = r) as -> by congruence. rewrite Hj in Ha. rewrite bool_decide_eq_true_2 in Ha by done. by rewrite lookup_delete_eq in Ha.
  - intros j a' r Ha%end_run_running Hr%end_run_runs. by eapply Hl.
  - intros a' r Hr%end_run_runs. by eapply Hc.
Qed.

Lemma heap_reachable d w : keyed d -> reachable max names anywhere d w -> heap (ws w).
Proof.
  intros Hd Hw. apply (world_ind anywhere d (fun s _ => heap s)); [done|by split|done| | | | |done].
  - intros s ths i th th' s' _ _ _ _. apply heap_effect.
  - intros s ths d' [? ? ? ?]. by split.
  - intros s ths a. apply heap_claim.
  - intros s ths a. apply heap_end.
Qed.

(** ** Flags are never cleared *)

(** Whatever is left of the run at [a] has flag [f]. *)
Definition flagged (f : runningJob -> bool) (a : nat) (s : state) : Prop :=
  (a < next s)%nat /\ forall r, runs s !! a = Some r -> f (rn_rj r) = true.

Definition steady (f : runningJob -> bool) : Prop :=
  (forall c rj, f rj = true -> f (cancel c rj) = true) /\
  (forall c rj, f rj = true -> f (mkRunningJob c (completing rj) true) = true) /\
  (forall rj, f rj = true -> f (mkRunningJob None true (cancelled rj)) = true).

Lemma steady_completing : steady completing.
Proof. done. Qed.
Lemma steady_cancelled : steady cancelled.
Proof. done. Qed.

Lemma flagged_same f a s s' : runs s' = runs s -> next s' = next s -> flagged f a s -> flagged f a s'.
Proof. unfold flagged. by intros -> ->. Qed.

Lemma flagged_insert f a s a' r : f (rn_rj r) = true \/ a' <> a -> flagged f a s -> flagged f a (set_runs s (<[a' := r]> (runs s))).
Proof.
  intros Hr [Hn Hf]. split; [done|]. cbn. intros r' [[-> <-]|[_ ?]]%lookup_insert_Some; [by destruct Hr|by apply Hf].
Qed.

Lemma flagged_effect f a s th th' s' : steady f -> effect s th th' s' -> flagged f a s -> flagged f a s'.
Proof.
  intros (Hs1 & Hs2 & Hs3) He Hf. effect_cases He; try by apply (flagged_same f a s).
  - destruct Hf as [Hn Hf]. split; [cbn; lia|]. cbn. intros r [[<- _]|[_ ?]]%lookup_insert_Some; [lia|by apply Hf].
  - apply cancel_cases in Hcr as [[-> _]|(_ & a0 & r0 & _ & Hr0 & _ & _ & ->)]; [done|]. apply flagged_insert; [|done].
    destruct (decide (a0 = a)) as [->|?]; [left|by right]. apply Hs2. by apply Hf.
  - destruct Hf as [Hn Hf]. split; [done|]. intros r (r0 & Hr0 & _ & _ & [->| ->])%stop_runs; [by apply Hf|]. by apply Hs1, Hf.
Qed.

Lemma flagged_step f a w w' : steady f -> keyed (st_db (ws w)) -> step max names w w' -> flagged f a (ws w) -> flagged f a (ws w').
Proof.
  intros Hf Hk Hs. destruct Hs as [th s ths Hq|o i th th' s s' ths Hi Ha|a0 r op s ths Hr Ho|a0 s ths Hr|a0 s ths Hr]; cbn in *; try done.
  - apply flagged_effect with th th'; [done|by eapply advance_effect].
  - intros Hfl. destruct (claim_cases a0 s) as [->|(r0 & Hr0 & Hno & ->)]; [done|]. apply flagged_insert; [|done].
    destruct (decide (a0 = a)) as [->|?]; [left|by right]. destruct Hf as (_ & _ & Hf). apply Hf. by apply Hfl.
  - intros [Hn Hfl]. destruct (end_run_rest a0 s) as (_ & _ & _ & Hnx). split; [by rewrite Hnx|]. intros r' Hr'%end_run_runs. by apply Hfl.
Qed.

(** ** Retries are serialized *)

(** A job is marked as being retried exactly while one thread retries it. *)
Record locks (s : state) (ths : list thread) : Prop := {
  lo_held : forall i th j, ths !! i = Some th -> holds th = Some j -> j ∈ retrying s;
  lo_one : forall i1 i2 th1 th2 j, ths !! i1 = Some th1 -> ths !! i2 = Some th2 -> holds th1 = Some j -> holds th2 = Some j -> i1 = i2;
  lo_free : forall j, j ∈ retrying s -> exists i th, ths !! i = Some th /\ holds th = Some j;
}.

(** A thread that holds what it held before. *)
Lemma locks_same s ths i th th' s' :
  retrying s' = retrying s -> holds th' = holds th -> ths !! i = Some th -> locks s ths -> locks s' (<[i := th']> ths).
Proof.
  intros Hr Hh Hi [Ha Ho Hf]. split; rewrite ?Hr.
  - intros i' t j [(-> & -> & _)|[_ ?]]%list_lookup_insert_Some; [rewrite Hh|]; by eapply Ha.
  - intros i1 i2 t1 t2 j [(<- & -> & _)|[Hn1 ?]]%list_lookup_insert_Some [(-> & -> & _)|[Hn2 ?]]%list_lookup_insert_Some; rewrite ?Hh.
    + done.
    + by intros; eapply Ho.
    + intros; subst; by eapply Ho.
    + by eapply Ho.
  - intros j Hj. destruct (Hf j Hj) as (i' & t & Hi' & Ht). destruct (decide (i = i')) as [<-|Hne].
    + assert (t = th) as -> by congruence. exists i, th'. rewrite Hh. split; [|done]. apply list_lookup_insert_eq. by eapply lookup_lt_Some.
    + exists i', t. by rewrite list_lookup_insert_ne.
Qed.

Lemma locks_reserve s ths i th th' j :
  ths !! i = Some th -> holds th = None -> holds th' = Some j -> j ∉ retrying s -> locks s ths ->
  locks (set_retrying s ({[j]} ∪ retrying s)) (<[i := th']> ths).
Proof.
  intros Hi Hn Hh Hj [Ha Ho Hf]. split; cbn.
  - intros i' t k [(-> & -> & _)|[_ Ht]]%list_lookup_insert_Some Hk; [set_solver|]. pose proof (Ha _ _ _ Ht Hk). set_solver.
  - intros i1 i2 t1 t2 k [(<- & -> & _)|[Hn1 Ht1]]%list_lookup_insert_Some [(-> & -> & _)|[Hn2 Ht2]]%list_lookup_insert_Some Hk1 Hk2.
    + done.
    + destruct Hj. assert (k = j) as -> by congruence. by eapply Ha.
    + destruct Hj. assert (k = j) as -> by congruence. by eapply Ha.
    + by eapply Ho.
  - intros k [->%elem_of_singleton|Hk]%elem_of_union.
    + exists i, th'. split; [|done]. apply list_lookup_insert_eq. by eapply lookup_lt_Some.
    + destruct (Hf k Hk) as (i' & t & Hi' & Ht). exists i', t. rewrite list_lookup_insert_ne; [done|]. intros ->. congruence.
Qed.

Lemma locks_release s ths i th j res :
  ths !! i = Some th -> holds th = Some j -> locks s ths -> locks (release_retry j s) (<[i := Done res]> ths).
Proof.
  intros Hi Hh [Ha Ho Hf]. split; cbn.
  - intros i' t k [(-> & <- & _)|[Hne Ht]]%list_lookup_insert_Some Hk; [done|]. pose proof (Ha _ _ _ Ht Hk).
    enough (k <> j) by set_solver. intros ->. by apply Hne, (Ho i i' th t j).
  - intros i1 i2 t1 t2 k [(<- & <- & _)|[Hn1 Ht1]]%list_lookup_insert_Some [(-> & <- & _)|[Hn2 Ht2]]%list_lookup_insert_Some Hk1 Hk2; try done.
    by eapply Ho.
  - intros k [Hk Hne]%elem_of_difference. destruct (Hf k Hk) as (i' & t & Hi' & Ht). exists i', t.
    rewrite list_lookup_insert_ne; [done|]. intros ->. set_solver.
Qed.

Lemma locks_effect s ths i th th' s' : ths !! i = Some th -> effect s th th' s' -> locks s ths -> locks s' (<[i := th']> ths).
Proof.
  intros Hi He Hlk. effect_cases He.
  - apply (locks_same s ths i th); [done|apply Hl|done..].
  - by apply (locks_same s ths i th).
  - by apply (locks_same s ths i th).
  - by apply (locks_reserve s ths i th).
  - subst. by apply (locks_release s ths i th).
  - apply (locks_same s ths i th); [|by subst|done..].
    by apply cancel_cases in Hcr as [[-> _]|(_ & a0 & r0 & _ & _ & _ & _ & ->)].
  - apply (locks_same s ths i th); [done|by subst|done..].
  - apply (locks_same s ths i th); [done|by subst|done..].
  - apply (locks_same s ths i th); [done|apply Hl|done..].
  - apply (locks_same s ths i th); [done|apply Hl|done..].
Qed.

Lemma locks_request s ths th : request th -> locks s ths -> locks s (ths ++ [th]).
Proof.
  intros Hq [Ha Ho Hf]. assert (holds th = None) as Hn by (by destruct th). split.
  - intros i t j [[_ ?]|[_ <-]]%lookup_snoc_Some; [by eapply Ha|congruence].
  - intros i1 i2 t1 t2 j [[_ ?]|[_ <-]]%lookup_snoc_Some [[_ ?]|[_ <-]]%lookup_snoc_Some; [by eapply Ho|congruence..].
  - intros j Hj. destruct (Hf j Hj) as (i & t & Hi & Ht). exists i, t. split; [|done]. by apply lookup_app_l_Some.
Qed.

Lemma locks_state s s' ths : retrying s' = retrying s -> locks s ths -> locks s' ths.
Proof. intros Hr [Ha Ho Hf]. split; rewrite ?Hr; done. Qed.

(** The only thread of a started service. *)
Ltac alone_thread :=
  repeat (match goal with H : [_] !! _ = Some _ |- _ => apply list_lookup_singleton_Some in H as [-> H] end); simplify_eq; try done.

Lemma locks_reachable P d w : keyed d -> reachable max names P d w -> locks (ws w) (threads w).
Proof.
  intros Hd Hw. apply (world_ind P d locks); [done| | | | | | |done].
  - split; cbn; [|intros i1 i2 t1 t2 j|set_solver]; intros; alone_thread.
  - intros s ths th. apply locks_request.
  - intros s ths i th th' s' _ _ _. apply locks_effect.
  - intros s ths d'. by apply locks_state.
  - intros s ths a. apply locks_state, claim_rest.
  - intros s ths a. apply locks_state, end_run_rest.
Qed.

(** ** One run per job *)

Definition idle (s : state) (j : string) : Prop := forall a r, runs s !! a = Some r -> rn_job r <> j.

Record alone (s : state) (ths : list thread) : Prop := {
  al_run : forall a r, runs s !! a = Some r -> running s !! rn_job r = Some a;
  al_creates : forall i th j, ths !! i = Some th -> creates th = Some j -> idle s j;
  al_one : forall i1 i2 th1 th2 j, ths !! i1 = Some th1 -> ths !! i2 = Some th2 -> creates th1 = Some j -> creates th2 = Some j -> i1 = i2;
  al_queue : forall i th j i' th', ths !! i = Some th -> creates th = Some j -> ths !! i' = Some th' -> j ∉ queue th';
  al_resumes : forall i th j, ths !! i = Some th -> resumes th = Some j -> idle s j;
  al_stopped : forall i, ths !! i = Some StopLock -> stopped s = true;
}.

Lemma resumes_holds th j : resumes th = Some j -> holds th = Some j.
Proof. by destruct th. Qed.

Lemma idle_not_running s ths j : alone s ths -> running s !! j = None -> idle s j.
Proof. intros Ha Hj a r Hr <-. rewrite (al_run _ _ Ha _ _ Hr) in Hj. done. Qed.

(** A thread of the new list is an old one, or the changed one. *)
Lemma threads_cases (ths : list thread) i th' i' t :
  <[i := th']> ths !! i' = Some t -> (i' = i /\ t = th') \/ (i' <> i /\ ths !! i' = Some t).
Proof. intros [(-> & -> & _)|[Hne ?]]%list_lookup_insert_Some; [by left|right; by split]. Qed.

(** Steps that register no run and create no job. *)
Lemma alone_lighter s s' ths i th th' :
  (forall a r, runs s' !! a = Some r -> exists r0, runs s !! a = Some r0 /\ rn_job r = rn_job r0) ->
  running s' = running s -> (stopped s = true -> stopped s' = true) ->
  creates th' = creates th \/ creates th' = None -> resumes th' = resumes th \/ resumes th' = None ->
  (forall k, k ∈ queue th' -> k ∈ queue th) -> (th' = StopLock -> stopped s' = true) ->
  ths !! i = Some th -> alone s ths -> alone s' (<[i := th']> ths).
Proof.
  intros Hru Hrg Hst Hlc Hlr Hlq Hns Hi [Ha Hc Ho Hq Hr Hs].
  assert (forall j, idle s j -> idle s' j) as Hidle by (intros j Hj a r (r0 & Hr0 & ->)%Hru; by eapply Hj).
  assert (forall j, creates th' = Some j -> creates th = Some j) as Hcr by (intros j; destruct Hlc as [->| ->]; done).
  assert (forall j, resumes th' = Some j -> resumes th = Some j) as Hre by (intros j; destruct Hlr as [->| ->]; done).
  split.
  - intros a r (r0 & Hr0 & ->)%Hru. rewrite Hrg. by apply Ha.
  - intros i' t j [[-> ->]|[_ Ht]]%threads_cases Hj; apply Hidle; [by eapply Hc, Hcr|by eapply Hc].
  - intros i1 i2 t1 t2 j [[-> ->]|[_ H1']]%threads_cases [[-> ->]|[_ H2']]%threads_cases Hj1 Hj2; eauto using eq_sym.
  - intros i1 t1 j i2 t2 [[-> ->]|[_ H1']]%threads_cases Hj [[-> ->]|[_ H2']]%threads_cases Hin;
      [eapply (Hq i th j i th)|eapply (Hq i th j i2 t2)|eapply (Hq i1 t1 j i th)|eapply (Hq i1 t1 j i2 t2)]; eauto.
  - intros i' t j [[-> ->]|[_ Ht]]%threads_cases Hj; apply Hidle; [by eapply Hr, Hre|by eapply Hr].
  - intros i' [[-> He]|[_ Ht]]%threads_cases; [by apply Hns|by eapply Hst, Hs].
Qed.

Lemma idle_start_run s t j k b : idle s k -> j <> k -> idle (start_run t j b s) k.
Proof. intros Hk Hne a r. cbn. intros [[_ <-]|[_ Hr]]%lookup_insert_Some; [done|by eapply Hk]. Qed.

(** A registered run is the job's only one. *)
Lemma alone_start s ths i th th' t j b :
  base s ths -> locks s ths -> undisturbed (mkWorld s ths) -> ths !! i = Some th ->
  creates th = Some j \/ resumes th = Some j \/ (j ∈ queue th /\ running s !! j = None) ->
  creates th' = None -> resumes th' = None -> (forall k, k ∈ queue th' -> k ∈ queue th) -> th' <> StopLock -> heap s ->
  alone s ths -> alone (start_run t j b s) (<[i := th']> ths).
Proof.
  intros Hb Hlk [_ Hund] Hi Hwhy Hcn Hrn Hqn Hns Hheap Hal. pose proof Hal as [Ha Hc Ho Hq Hr Hs]. cbn in Hund.
  assert (idle s j) as Hidle.
  { destruct Hwhy as [Hj|[Hj|[_ Hj]]]; [by eapply Hc|by eapply Hr|by eapply idle_not_running]. }
  assert (forall i' t' k, i' <> i -> ths !! i' = Some t' -> creates t' = Some k -> j <> k) as Hcne.
  { intros i' t' k Hne Ht Hk <-. destruct Hwhy as [Hj|[Hj|[Hj _]]].
    - by apply Hne, (Ho i' i t' th j).
    - destruct (Hund j (lo_held _ _ Hlk _ _ _ Hi (resumes_holds _ _ Hj)) i' t' Ht) as [_ Hx]. by apply Hx.
    - by apply (Hq i' t' j i th). }
  assert (forall i' t' k, i' <> i -> ths !! i' = Some t' -> resumes t' = Some k -> j <> k) as Hrne.
  { intros i' t' k Hne Ht Hk <-. pose proof (lo_held _ _ Hlk _ _ _ Ht (resumes_holds _ _ Hk)) as Hin.
    destruct (Hund j Hin i th Hi) as [Hx Hy]. destruct Hwhy as [Hj|[Hj|[Hj _]]].
    - by apply Hy.
    - apply Hne. by apply (lo_one _ _ Hlk i' i t' th j); [..|apply resumes_holds|apply resumes_holds].
    - by apply Hx. }
  split; cbn.
  - intros a r [[<- <-]|[Hne Hr0]]%lookup_insert_Some; [by rewrite lookup_insert_eq|].
    rewrite lookup_insert_ne; [by apply Ha|]. apply not_eq_sym. by eapply Hidle.
  - intros i' t' k [[-> ->]|[Hne Ht]]%threads_cases Hk; [congruence|]. apply idle_start_run; [by eapply Hc|exact (Hcne i' t' k Hne Ht Hk)].
  - intros i1 i2 t1 t2 k [[-> ->]|[_ H1']]%threads_cases [[-> ->]|[_ H2']]%threads_cases Hj1 Hj2; try congruence. by eapply Ho.
  - intros i1 t1 k i2 t2 [[-> ->]|[_ H1']]%threads_cases Hk [[-> ->]|[_ H2']]%threads_cases Hin; [congruence|congruence| |exact (Hq i1 t1 k i2 t2 H1' Hk H2' Hin)].
    exact (Hq i1 t1 k i th H1' Hk Hi (Hqn _ Hin)).
  - intros i' t' k [[-> ->]|[Hne Ht]]%threads_cases Hk; [congruence|]. apply idle_start_run; [by eapply Hr|exact (Hrne i' t' k Hne Ht Hk)].
  - intros i' [[-> He]|[_ Ht]]%threads_cases; [by destruct Hns|by eapply Hs].
Qed.

Lemma alone_insert s ths i th th' id d' :
  base s ths -> ~ known (st_db s) id -> ths !! i = Some th -> creates th' = Some id -> resumes th' = None -> queue th' = [] ->
  alone s ths -> alone (set_db s d') (<[i := th']> ths).
Proof.
  intros [Hbk Hbr Hbt] Hnew Hi Hcn Hrn Hqn [Ha Hc Ho Hq Hr Hs].
  assert (forall i' t k, ths !! i' = Some t -> creates t = Some k -> k <> id) as Hother.
  { intros i' t k Ht Hk ->. apply Hnew. eapply Hbt; [exact Ht|]. unfold mentions. rewrite !elem_of_app, Hk. right; right; left. left. }
  assert (idle s id) as Hidle by (intros a r Hr0 <-; by eapply Hnew, Hbr).
  split; cbn; [done|..].
  - intros i' t k [[-> ->]|[_ Ht]]%threads_cases Hk; [|by eapply Hc]. assert (k = id) as -> by congruence. done.
  - intros i1 i2 t1 t2 k [[-> ->]|[_ H1']]%threads_cases [[-> ->]|[_ H2']]%threads_cases Hj1 Hj2; [done| | |by eapply Ho].
    + assert (k = id) as -> by congruence. exfalso. by eapply Hother.
    + assert (k = id) as -> by congruence. exfalso. by eapply Hother.
  - intros i1 t1 k i2 t2 [[-> ->]|[_ H1']]%threads_cases Hk [[-> ->]|[_ H2']]%threads_cases Hin; rewrite ?Hqn in Hin;
      [by apply elem_of_nil in Hin| |by apply elem_of_nil in Hin|exact (Hq i1 t1 k i2 t2 H1' Hk H2' Hin)].
    assert (k = id) as -> by congruence. apply Hnew. eapply Hbt; [exact H2'|]. unfold mentions. rewrite elem_of_app. by left.
  - intros i' t k [[-> ->]|[_ Ht]]%threads_cases Hk; [congruence|by eapply Hr].
  - intros i' [[-> <-]|[_ Ht]]%threads_cases; [done|by eapply Hs].
Qed.

Lemma alone_reserve s ths i th th' j x :
  ths !! i = Some th -> running s !! j = None -> creates th' = None -> resumes th' = Some j -> queue th' = [] ->
  alone s ths -> alone (set_retrying s x) (<[i := th']> ths).
Proof.
  intros Hi Hrun Hcn Hrn Hqn Hal. pose proof Hal as [Ha Hc Ho Hq Hr Hs]. split; cbn; [done|..].
  - intros i' t k [[-> ->]|[_ Ht]]%threads_cases Hk; [congruence|by eapply Hc].
  - intros i1 i2 t1 t2 k [[-> ->]|[_ H1']]%threads_cases [[-> ->]|[_ H2']]%threads_cases Hj1 Hj2; try congruence. by eapply Ho.
  - intros i1 t1 k i2 t2 [[-> ->]|[_ H1']]%threads_cases Hk [[-> ->]|[_ H2']]%threads_cases Hin; rewrite ?Hqn in Hin;
      [congruence|congruence|by apply elem_of_nil in Hin|exact (Hq i1 t1 k i2 t2 H1' Hk H2' Hin)].
  - intros i' t k [[-> ->]|[_ Ht]]%threads_cases Hk; [|by eapply Hr]. assert (k = j) as -> by congruence. by eapply idle_not_running.
  - intros i' [[-> <-]|[_ Ht]]%threads_cases; [done|by eapply Hs].
Qed.

Lemma alone_kept s s' ths i th th' :
  (forall a r, runs s' !! a = Some r -> exists r0, runs s !! a = Some r0 /\ rn_job r = rn_job r0) ->
  running s' = running s -> (stopped s = true -> stopped s' = true) -> lighter th th' ->
  ths !! i = Some th -> alone s ths -> alone s' (<[i := th']> ths).
Proof. intros Hru Hrg Hst [_ Hlc Hlr Hlq Hls]. by apply alone_lighter. Qed.

Lemma alone_done s s' ths i th r :
  (forall a r, runs s' !! a = Some r -> exists r0, runs s !! a = Some r0 /\ rn_job r = rn_job r0) ->
  running s' = running s -> (stopped s = true -> stopped s' = true) ->
  ths !! i = Some th -> alone s ths -> alone s' (<[i := Done r]> ths).
Proof.
  intros Hru Hrg Hst. apply alone_lighter; auto; [|done]. intros k Hk. by apply elem_of_nil in Hk.
Qed.

Lemma alone_effect s ths i th th' s1 :
  base s ths -> heap s -> locks s ths -> undisturbed (mkWorld s ths) -> undisturbed (mkWorld s1 (<[i := th']> ths)) ->
  ths !! i = Some th -> effect s th th' s1 -> alone s ths -> alone s1 (<[i := th']> ths).
Proof.
  intros Hb Hp Hlk Hu Hu' Hi He Hal. effect_cases He.
  - apply (alone_kept s _ ths i th); try done. intros a r Hr. by exists r.
  - by eapply alone_insert.
  - by apply (alone_start s ths i th th').
  - by eapply alone_reserve.
  - subst. apply (alone_done s _ ths i th); try done. intros a r Hr. by exists r.
  - subst th'. apply cancel_cases in Hcr as [[-> _]|(_ & a0 & r0 & _ & Hr0 & _ & _ & ->)].
    + apply (alone_done s _ ths i th); try done. intros a r Hr. by exists r.
    + apply (alone_done s _ ths i th); try done. intros a r. cbn. intros [[<- <-]|[_ Hr]]%lookup_insert_Some; [by exists r0|by exists r].
  - by destruct Hu' as [? _].
  - exfalso. destruct Hu as [Hns _]. subst. cbn in Hns. by rewrite (al_stopped _ _ Hal i Hi) in Hns.
  - apply (alone_kept s _ ths i th); try done. intros a r Hr. by exists r.
  - apply (alone_kept s _ ths i th); try done. intros a r Hr. by exists r.
Qed.

Lemma alone_same s s' ths :
  (forall a r, runs s' !! a = Some r -> (exists r0, runs s !! a = Some r0 /\ rn_job r = rn_job r0) /\ running s' !! rn_job r = Some a) ->
  stopped s' = stopped s -> alone s ths -> alone s' ths.
Proof.
  intros Hru Hst [Ha Hc Ho Hq Hr Hs]. assert (forall j, idle s j -> idle s' j) as Hidle.
  { intros j Hj a r Hr'. destruct (Hru _ _ Hr') as [(r0 & Hr0 & ->) _]. by eapply Hj. }
  split; [intros a r Hr'; by apply Hru|by eauto| | |by eauto|]; [done..|]. rewrite Hst. done.
Qed.

Lemma alone_request s ths th : request th -> alone s ths -> alone s (ths ++ [th]).
Proof.
  intros Hq0 [Ha Hc Ho Hq Hr Hs]. assert (creates th = None /\ resumes th = None /\ queue th = [] /\ th <> StopLock) as (Hcn & Hrn & Hqn & Hns) by (by destruct th).
  split; [done|..].
  - intros i t j [[_ ?]|[_ <-]]%lookup_snoc_Some Hj; [by eapply Hc|congruence].
  - intros i1 i2 t1 t2 j [[_ ?]|[_ <-]]%lookup_snoc_Some [[_ ?]|[_ <-]]%lookup_snoc_Some Hj1 Hj2; [by eapply Ho|congruence..].
  - intros i1 t1 j i2 t2 [[_ H1']|[_ <-]]%lookup_snoc_Some Hj [[_ H2']|[_ <-]]%lookup_snoc_Some Hin; rewrite ?Hqn in Hin;
      [exact (Hq i1 t1 j i2 t2 H1' Hj H2' Hin)|by apply elem_of_nil in Hin|congruence|by apply elem_of_nil in Hin].
  - intros i t j [[_ ?]|[_ <-]]%lookup_snoc_Some Hj; [by eapply Hr|congruence].
  - intros i [[_ ?]|[_ He]]%lookup_snoc_Some; [by eapply Hs|done].
Qed.

Lemma alone_claim s ths a : alone s ths -> alone (claim a s).2 ths.
Proof.
  intros Hal. destruct (claim_rest a s) as (_ & Hrg & _ & Hst & _). apply (alone_same s); [|done|done].
  intros a' r (r0 & Hr0 & Hj & _)%claim_runs. split; [by exists r0|]. rewrite Hrg, Hj. by apply (al_run _ _ Hal).
Qed.

Lemma alone_end s ths a : alone s ths -> alone (end_run a s) ths.
Proof.
  intros Hal. destruct (end_run_rest a s) as (_ & _ & Hst & _). apply (alone_same s); [|done|done].
  intros a' r Hr. pose proof (end_run_runs _ _ _ _ Hr) as Hr0. split; [by exists r|]. pose proof (al_run _ _ Hal _ _ Hr0) as Hrun.
  unfold end_run in *. destruct (runs s !! a) as [ra|] eqn:Hra; [|done]. cbn in *. apply lookup_delete_Some in Hr as [Hne _].
  case_bool_decide as Hb; [|done]. rewrite lookup_delete_ne; [done|]. intros He. rewrite He in Hb. congruence.
Qed.

Lemma reachable_mono (P Q : world -> Prop) d w : (forall w, P w -> Q w) -> reachable max names P d w -> reachable max names Q d w.
Proof. intros HPQ Hw. induction Hw as [Hp|w w' _ IH Hs Hp]; [by apply reach_start, HPQ|eapply reach_step; eauto]. Qed.

(** [alone] takes [heap] and [locks] along. *)
Lemma alone_reachable d w : keyed d -> reachable max names undisturbed d w -> heap (ws w) /\ alone (ws w) (threads w).
Proof.
  intros Hd Hw. apply (world_ind undisturbed d (fun s ths => (heap s /\ alone s ths) /\ locks s ths)) in Hw; [tauto|done|..].
  - split; [split; [by split|]|].
    + split; cbn; [done|..]; intros; alone_thread.
    + split; cbn; [|intros i1 i2 t1 t2 j|set_solver]; intros; alone_thread.
  - intros s ths th Hq [[Hp Hal] Hlk]. split; [split; [done|by apply alone_request]|by apply locks_request].
  - intros s ths i th th' s' Hb Hu Hu' Hi He [[Hp Hal] Hlk]. split; [split|].
    + by eapply heap_effect.
    + by eapply alone_effect.
    + by eapply locks_effect.
  - intros s ths d' [[[] Hal] Hlk]. split; [split; [by split|]|by apply (locks_state s)].
    apply (alone_same s); [|done|done]. intros a r Hr. split; [by exists r|by apply (al_run _ _ Hal)].
  - intros s ths a [[Hp Hal] Hlk]. split; [split; [by apply heap_claim|by apply alone_claim]|]. apply (locks_state s); [apply claim_rest|done].
  - intros s ths a [[Hp Hal] Hlk]. split; [split; [by apply heap_end|by apply alone_end]|]. apply (locks_state s); [apply end_run_rest|done].
Qed.

(** ** Slots *)

(** The runs that hold a slot. *)
Definition slotted (rs : gmap nat run) : nat := size (filter (fun ar => rn_slot ar.2 = true) rs).

Lemma slotted_insert rs a r :
  rs !! a = None -> slotted (<[a := r]> rs) = ((if rn_slot r then 1 else 0) + slotted rs)%nat.
Proof.
  intros Ha. unfold slotted. destruct (rn_slot r) eqn:Hs.
  - rewrite map_filter_insert_True by done. rewrite map_size_insert_None; [done|]. apply map_lookup_filter_None. by left.
  - rewrite map_filter_insert_False by (cbn; congruence). by rewrite delete_id.
Qed.

Lemma slotted_delete rs a r :
  rs !! a = Some r -> slotted rs = ((if rn_slot r then 1 else 0) + slotted (delete a rs))%nat.
Proof. intros Ha. rewrite <- (slotted_insert (delete a rs) a r) by apply lookup_delete_eq. by rewrite insert_delete_id. Qed.

Lemma slotted_update rs a r r' : rs !! a = Some r -> rn_slot r' = rn_slot r -> slotted (<[a := r']> rs) = slotted rs.
Proof.
  intros Ha Hs. rewrite <- insert_delete_eq, (slotted_insert (delete a rs)) by apply lookup_delete_eq. rewrite Hs. symmetry. by apply slotted_delete.
Qed.

Lemma slotted_stop s : slotted (runs (stop_running s)) = slotted (runs s).
Proof.
  unfold slotted. set (f := fun (a : nat) (r : run) => if bool_decide (a ∈ (map_to_set (fun _ a => a) (running s) : gset nat))
    then set_rj r (cancel errServiceStopping (rn_rj r)) else r).
  rewrite <- !size_dom. f_equal. apply set_eq. intros a. rewrite !elem_of_dom. unfold stop_running. cbn. rewrite !map_lookup_filter, map_lookup_imap.
  destruct (runs s !! a) as [r|]; [|done]. cbn. case_bool_decide; cbn; by destruct (rn_slot r).
Qed.

(** Only the first thread, the dispatcher, takes slots; it holds at most one
    itself, and the others taken are those of resumed runs. *)
Record bounded (s : state) (ths : list thread) : Prop := {
  bo_others : forall i th, ths !! i = Some th -> i <> O -> queue th = [];
  bo_slots : slots s = ((match ths !! O with Some th => if token max th then 1 else 0 | None => 0 end) + slotted (runs s))%nat;
  bo_max : slots s = O \/ Z.of_nat (slots s) <= max;
}.

Lemma token_queue th : token max th = true -> queue th <> [].
Proof. by destruct th. Qed.

Lemma token_mentions th' (th : thread) : (forall k, k ∈ queue th' -> k ∈ queue th) -> queue th = [] -> queue th' = [].
Proof. intros Hq He. destruct (queue th') as [|k q]; [done|]. specialize (Hq k ltac:(left)). rewrite He in Hq. by apply elem_of_nil in Hq. Qed.

Lemma bounded_others (ths : list thread) i th th' :
  ths !! i = Some th -> (forall k, k ∈ queue th' -> k ∈ queue th) -> (forall i th, ths !! i = Some th -> i <> O -> queue th = []) ->
  forall i' t, <[i := th']> ths !! i' = Some t -> i' <> O -> queue t = [].
Proof.
  intros Hi Hq Ho i' t [[-> ->]|[_ Ht]]%threads_cases Hne; [|by eapply Ho]. eapply token_mentions; [exact Hq|by eapply Ho].
Qed.

(** Thread [i] changed: the dispatcher accounts for the slots, another takes none. *)
Lemma bounded_step s s' ths i th th' :
  ths !! i = Some th -> (forall k, k ∈ queue th' -> k ∈ queue th) -> bounded s ths ->
  (slots s = Nat.b2n (token max th) + slotted (runs s) -> slots s' = Nat.b2n (token max th') + slotted (runs s'))%nat ->
  (token max th = false -> token max th' = false -> slots s' = slots s /\ slotted (runs s') = slotted (runs s)) ->
  (slots s' = O \/ Z.of_nat (slots s') <= max) -> bounded s' (<[i := th']> ths).
Proof.
  intros Hi Hq [Ho Hs Hm] Hz Hn Hmax. split; [by eapply bounded_others| |done].
  destruct (decide (i = O)) as [->|Hne].
  - rewrite list_lookup_insert_eq by (by eapply lookup_lt_Some). rewrite Hi in Hs. rewrite Hz by (by destruct (token max th)). by destruct (token max th').
  - rewrite list_lookup_insert_ne by done. pose proof (Ho _ _ Hi Hne) as Hq0. pose proof (token_mentions _ _ Hq Hq0) as Hq1.
    destruct Hn as [-> ->]; [| |exact Hs].
    + destruct (token max th) eqn:Ht; [by apply token_queue in Ht|done].
    + destruct (token max th') eqn:Ht; [by apply token_queue in Ht|done].
Qed.

(** Neither slots nor the runs that hold them change. *)
Lemma bounded_kept s s' ths i th th' :
  ths !! i = Some th -> (forall k, k ∈ queue th' -> k ∈ queue th) -> token max th' = token max th ->
  slots s' = slots s -> slotted (runs s') = slotted (runs s) -> bounded s ths -> bounded s' (<[i := th']> ths).
Proof.
  intros Hi Hq Ht Hs Hr Hb. apply (bounded_step s s' ths i th th'); [done|done|done| | |].
  - by rewrite Ht, Hs, Hr.
  - done.
  - rewrite Hs. apply (bo_max _ _ Hb).
Qed.

Lemma bounded_effect s ths i th th' s1 :
  heap s -> ths !! i = Some th -> effect s th th' s1 -> bounded s ths -> bounded s1 (<[i := th']> ths).
Proof.
  intros Hp Hi He Hb. assert (forall r k, k ∈ queue (Done r) -> k ∈ queue th) as Hdone by (intros r k Hk; by apply elem_of_nil in Hk).
  effect_cases He.
  - apply (bounded_kept s _ ths i th); try done. apply Hl.
  - apply (bounded_kept s _ ths i th); try done; [|by rewrite Htok, Htok']. rewrite Hq. intros k Hk. by apply elem_of_nil in Hk.
  - assert (runs s !! next s = None) as Hnext. { apply eq_None_not_Some. intros [r Hr]. apply (he_next _ Hp) in Hr. lia. }
    apply (bounded_step s _ ths i th th'); [done|done|done| | |apply Hb]; cbn; rewrite (slotted_insert _ _ _ Hnext), Htok'; cbn.
    + intros ->. by destruct (token max th).
    + by intros ->.
  - apply (bounded_kept s _ ths i th); try done; [|by rewrite Htok, Htok']. rewrite Hq. intros k Hk. by apply elem_of_nil in Hk.
  - subst. apply (bounded_kept s _ ths i th); try done; apply Hdone.
  - subst. apply cancel_cases in Hcr as [[-> _]|(_ & a0 & r0 & _ & Hr0 & _ & _ & ->)].
    + apply (bounded_kept s _ ths i (CancelLock id)); try done; apply Hdone.
    + apply (bounded_kept s _ ths i (CancelLock id)); try done. by apply (slotted_update _ _ r0).
  - subst. apply (bounded_kept s _ ths i StopClose); done.
  - subst. apply (bounded_kept s _ ths i StopLock); try done. apply slotted_stop.
  - apply (bounded_step s _ ths i th th'); [done|apply Hl|done| | |cbn; lia]; cbn.
    + rewrite Htok, Htok'. cbn. lia.
    + by rewrite Htok'.
  - apply (bounded_step s _ ths i th th'); [done|apply Hl|done| | |]; cbn.
    + rewrite Htok, Htok'. cbn. lia.
    + by rewrite Htok.
    + destruct (bo_max _ _ Hb); lia.
Qed.

Lemma bounded_same s s' ths :
  slots s' = slots s -> slotted (runs s') = slotted (runs s) -> bounded s ths -> bounded s' ths.
Proof. intros Hs Hr [Ho Hsl Hm]. split; rewrite ?Hs, ?Hr; done. Qed.

Lemma bounded_claim s ths a : bounded s ths -> bounded (claim a s).2 ths.
Proof.
  apply bounded_same; [apply claim_rest|]. destruct (claim_cases a s) as [->|(r & Hr & _ & ->)]; [done|]. by apply (slotted_update _ _ r).
Qed.

Lemma bounded_end s ths a : bounded s ths -> bounded (end_run a s) ths.
Proof.
  intros [Ho Hs Hm]. unfold end_run. destruct (runs s !! a) as [r|] eqn:Hr; [|by split]. pose proof (slotted_delete _ _ _ Hr) as Hd.
  split; cbn; [done| |]; destruct (rn_slot r); lia.
Qed.

Lemma bounded_reachable d w : keyed d -> reachable max names anywhere d w -> bounded (ws w) (threads w).
Proof.
  intros Hd Hw. apply (world_ind anywhere d (fun s ths => heap s /\ bounded s ths)) in Hw; [tauto|done|..].
  - split; [by split|]. split; cbn; [|done|by left]. intros i th Hi Hne. by alone_thread.
  - intros s ths th Hq [Hp [Ho Hs Hm]]. split; [done|]. split; [|rewrite Hs|done].
    + intros i t [[_ Ht]|[_ <-]]%lookup_snoc_Some Hne; [by eapply Ho|by destruct th].
    + destruct ths as [|t0 ths]; cbn; [by destruct th|done].
  - intros s ths i th th' s' _ _ _ Hi He [Hp Hb]. split; [by eapply heap_effect|by eapply bounded_effect].
  - intros s ths d' [[] Hb]. split; [by split|by apply (bounded_same s)].
  - intros s ths a [Hp Hb]. split; [by apply heap_claim|by apply bounded_claim].
  - intros s ths a [Hp Hb]. split; [by apply heap_end|by apply bounded_end].
Qed.
End effects.
