(* ===== verification/Serving.v ===== *)
(** What the pipeline service promises of jobs, and where interleavings break
    it ([Service], [ServiceFacts]). *)

From S2P Require Import Prelude Gostrings Tenant Jobconfig Joberr Jobstore Executor Service ServiceFacts.
Local Open Scope Z_scope.

(** * Definitions *)

Section serving.
Context `{Postgres} `{GoQuote} `{JobConfigJSON}.
Variable max : Z.
Variable names : bool.

Inductive steps : world -> world -> Prop :=
| steps_refl w : steps w w
| steps_more w1 w2 w3 : steps w1 w2 -> step max names w2 w3 -> steps w1 w3.

(** The steps a thread that takes no slot has left. *)
Definition rank (th : thread) : nat :=
  match th with
  | CreateStart _ _ => 5 | CreateLimit _ _ _ _ _ => 4 | CreateInsert _ _ _ _ _ => 3 | CreateStaging _ _ _ _ => 2 | CreateRegister _ _ => 1
  | CancelStart _ _ => 2 | CancelLock _ => 1
  | RetryStart _ _ _ => 8 | RetryReserve _ _ _ _ => 7 | RetryCheck _ _ _ _ => 6 | RetryStages _ _ _ => 5 | RetryReset _ _ _ _ _ => 4
  | RetryStatus _ _ _ => 3 | RetryRegister _ _ => 2
  | RetryInsert _ _ _ => 4 | RetryStaging _ _ _ _ => 3 | RetryRegisterNew _ _ _ => 2 | RetryRelease _ _ => 1
  | Resuming q => 3 * length q + 1 | ResumeSlot _ q => 3 * length q + 3 | ResumeRegister _ q => 3 * length q + 2
  | StopClose => 2 | StopLock => 1
  | Done _ => 0
  end.

Definition finished (th : thread) : Prop := exists r, th = Done r.
(** It waits for a slot that a run must free. *)
Definition waits (s : state) (th : thread) : Prop :=
  exists job q, th = ResumeSlot job q /\ 0 < max /\ max <= Z.of_nat (slots s) /\ stopped s = false.

(** Up to [n] steps of one thread with nothing in between. *)
Fixpoint run_alone (n : nat) (o : outside) (th : thread) (s : state) : thread * state :=
  match n with
  | O => (th, s)
  | S n => match advance max names o th s with Some (th', s') => run_alone n o th' s' | None => (th, s) end
  end.

(** * One run per job *)

(** C4. While the service is not stopping, and no job is retried that still
    waits to be resumed or is still being created, a job has at most one run,
    the table of running jobs lists exactly the live runs, each under its job,
    and no job has a run while its retry may still start one. *)
Theorem one_run_per_job d w :
  keyed d -> reachable max names undisturbed d w ->
  (forall a1 a2 r1 r2, runs (ws w) !! a1 = Some r1 -> runs (ws w) !! a2 = Some r2 -> rn_job r1 = rn_job r2 -> a1 = a2) /\
  (forall j a, running (ws w) !! j = Some a <-> exists r, runs (ws w) !! a = Some r /\ rn_job r = j) /\
  (forall i th j, threads w !! i = Some th -> resumes th = Some j -> running (ws w) !! j = None).
Proof.
  intros Hd Hw. destruct (alone_reachable max names d w Hd Hw) as [Hp Hal]. pose proof (al_run _ _ Hal) as Hrun.
  split_and!.
  - intros a1 a2 r1 r2 H1' H2' Hj. apply Hrun in H1', H2'. rewrite Hj in H1'. congruence.
  - intros j a. split; [by apply (he_entry _ Hp)|]. intros (r & Hr & <-). by apply Hrun.
  - intros i th j Hi Hj. apply eq_None_not_Some. intros [a Ha]. destruct (he_entry _ Hp _ _ Ha) as (r & Hr & Hrj).
    by apply (al_resumes _ _ Hal i th j Hi Hj a r Hr).
Qed.

(** * Cancelled or completed *)

Lemma reachable_steps P d w w' :
  (forall w, P w) -> reachable max names P d w -> steps w w' -> reachable max names P d w'.
Proof. intros HP Hw Hs. induction Hs as [w|w1 w2 w3 _ IH Hs]; [done|]. eapply reach_step; [by apply IH|done|done]. Qed.

Lemma flagged_steps f a d w w' :
  steady f -> keyed d -> reachable max names anywhere d w -> steps w w' -> flagged f a (ws w) -> flagged f a (ws w').
Proof.
  intros Hf Hd Hw Hs Hfl. induction Hs as [w|w1 w2 w3 Hs1 IH Hs]; [done|].
  eapply flagged_step; [done| |exact Hs|by apply IH].
  apply (reachable_steps anywhere d w1 w2) in Hs1; [|done|done].
  apply (world_ind max names anywhere d (fun _ _ => True)) in Hs1 as [Hb _]; [apply Hb|done..].
Qed.

(** C11. A registered run is cancelled or completes, and CancelJob's answer says
    which. If CancelJob is answered as cancelled, the table listed a run of the
    job, and from then on that run never claims its completion, however the
    service goes on. If a run has claimed its completion, then from then on no
    CancelJob that finds this run in the table is answered as cancelled; and as
    long as nothing disturbs the service (as in C4) and the run is live, every
    CancelJob of its job finds it. (A retry that registers a second run over a
    resumed one disturbs it: CancelJob then cancels the second run, and the
    first may have claimed its completion, see [retry_beside_resume].) *)
Theorem cancel_decides d w :
  keyed d -> reachable max names anywhere d w ->
  (forall id o s' i, threads w !! i = Some (CancelLock id) -> advance max names o (CancelLock id) (ws w) = Some (Done Cancelled, s') ->
     exists a, running (ws w) !! id = Some a /\
       forall w', steps (mkWorld s' (<[i := Done Cancelled]> (threads w))) w' -> (claim a (ws w')).1 = false) /\
  (forall a s', claim a (ws w) = (true, s') ->
     forall w', steps (mkWorld s' (threads w)) w' ->
     forall id o th s'',
     running (ws w') !! id = Some a \/ (reachable max names undisturbed d w' /\ exists r, runs (ws w') !! a = Some r /\ rn_job r = id) ->
     advance max names o (CancelLock id) (ws w') = Some (th, s'') -> th <> Done Cancelled).
Proof.
  intros Hd Hw. pose proof (heap_reachable max names d w Hd Hw) as Hp. split.
  - intros id o s' i Hi Ha. cbn in Ha. destruct (cancel_running id (ws w)) as [e s1] eqn:Hc. pose proof Hc as Hc0.
    apply cancel_cases in Hc as [[-> He]|(-> & a & r & Hrun & Hr & Hnc & Hnx & ->)]; [by destruct e; [discriminate Ha|destruct He]|].
    injection Ha as <-. exists a. split; [done|]. intros w' Hs. set (w1 := mkWorld _ _) in *.
    assert (reachable max names anywhere d w1) as Hw1.
    { eapply (reach_step max names anywhere d w w1); [done| |done]. destruct w as [s ths]. cbn in *.
      eapply (step_thread max names o i (CancelLock id)); [done|]. cbn. by rewrite Hc0. }
    assert (flagged cancelled a (ws w1)) as Hf.
    { split; [exact (he_next _ Hp _ _ Hr)|]. intros r'. cbn. rewrite lookup_insert_eq. by intros [= <-]. }
    pose proof (flagged_steps _ _ _ _ _ steady_cancelled Hd Hw1 Hs Hf) as [_ Hf'].
    pose proof (heap_reachable max names d w' Hd (reachable_steps _ _ _ _ (fun _ => I) Hw1 Hs)) as Hp'.
    destruct (claim_cases a (ws w')) as [->|(r' & Hr' & Hno & _)]; [done|].
    destruct (he_cancelled _ Hp' _ _ Hr' (Hf' _ Hr')) as [? _]. congruence.
  - intros a s' Hcl w' Hs id o th s'' Hfinds Ha ->. cbn in Ha.
    assert (running (ws w') !! id = Some a) as Hrun.
    { destruct Hfinds as [?|(Hund & r & Hr & <-)]; [done|]. destruct (alone_reachable max names d w' Hd Hund) as [_ Hal].
      by apply (al_run _ _ Hal) in Hr. } destruct (cancel_running id (ws w')) as [e s1] eqn:Hc.
    apply cancel_cases in Hc as [[-> He]|(-> & a' & r & Hrun' & Hr & Hnc & Hnx & ->)]; [by destruct e; [discriminate Ha|destruct He]|].
    assert (a' = a) as -> by congruence. destruct (claim_cases a (ws w)) as [Hcl'|(r0 & Hr0 & Hno & Hcl')]; [congruence|].
    assert (s' = (claim a (ws w)).2) as -> by by rewrite Hcl.
    eapply (flagged_steps completing a) in Hs as [_ Hf]; [by rewrite (Hf _ Hr) in Hnc|apply steady_completing|exact Hd| |].
    + eapply (reach_step max names anywhere d w); [done| |done]. destruct w as [s ths]. cbn in *. apply step_claim. by eexists.
    + cbn. rewrite Hcl'. split; [exact (he_next _ Hp _ _ Hr0)|]. intros r'. cbn. rewrite lookup_insert_eq. by intros [= <-].
Qed.

(** * Retries *)

(** Retries of one job exclude each other, and are always released: a job
    is marked as being retried exactly while one thread, and one only, acts on
    its retry, and when every request has been answered no job is. *)
Theorem retries_serialized P d w :
  keyed d -> reachable max names P d w ->
  (forall j, j ∈ retrying (ws w) <-> exists i th, threads w !! i = Some th /\ holds th = Some j) /\
  (forall i1 i2 th1 th2 j, threads w !! i1 = Some th1 -> threads w !! i2 = Some th2 ->
     holds th1 = Some j -> holds th2 = Some j -> i1 = i2) /\
  (Forall finished (threads w) -> retrying (ws w) = ∅).
Proof.
  intros Hd Hw. pose proof (locks_reachable max names P d w Hd Hw) as [Ha Ho Hf]. split_and!.
  - intros j. split; [apply Hf|]. intros (i & th & Hi & Hj). by eapply Ha.
  - exact Ho.
  - intros Hall. apply set_eq. intros j. split; [|set_solver]. intros (i & th & Hi & Hj)%Hf.
    rewrite Forall_lookup in Hall. destruct (Hall _ _ Hi) as [r ->]. done.
Qed.

(** Every thread ends: it can always step, but for a dispatcher that waits
    for a slot, and its steps count down, so each request is answered after at
    most eight of its own steps, whatever the store, the other threads and the
    runs do in between. *)
Theorem threads_end o th s :
  (forall th' s', advance max names o th s = Some (th', s') -> (rank th' < rank th)%nat) /\
  (advance max names o th s = None -> finished th \/ waits s th) /\
  (request th -> (rank th <= 8)%nat).
Proof.
  split_and!.
  - intros th' s'. destruct th as [ctx cfg|ctx t id config ns|ctx t id config ns|ctx t id ns|t id|ctx id|id|ctx id ff|ctx t job ff|ctx t job ff|ctx t job|
      ctx t job from ns|ctx t job|t job|ctx t job|ctx t job id|t job id|job r|[|job q]|job q|job q| | |r]; cbn [advance create_step cancel_step retry_step resume_step stop_step];
      repeat case_match; intros [= <- <-]; cbn; simplify_eq; cbn; try lia.
  - intros Hn. destruct th as [ctx cfg|ctx t id config ns|ctx t id config ns|ctx t id ns|t id|ctx id|id|ctx id ff|ctx t job ff|ctx t job ff|ctx t job|
      ctx t job from ns|ctx t job|t job|ctx t job|ctx t job id|t job id|job r|[|job q]|job q|job q| | |r]; cbn [advance create_step cancel_step retry_step resume_step stop_step] in Hn;
      try (repeat case_match; discriminate); [|left; by exists r].
    right. exists job, q. destruct (Z.ltb_spec 0 max); cbn in Hn; [|done].
    destruct (Z.ltb_spec (Z.of_nat (slots s)) max), (stopped s) eqn:Hst; cbn in Hn; try done. by destruct (o_stop o).
  - destruct th; cbn; intros; try done; lia.
Qed.

(** At most [max_concurrent_jobs] resumed jobs run at a time, if the limit
    is positive, however many were interrupted. *)
Theorem resumed_within_limit d w :
  keyed d -> reachable max names anywhere d w -> 0 < max ->
  Z.of_nat (size (filter (fun ar => rn_slot ar.2 = true) (runs (ws w)))) <= max.
Proof.
  intros Hd Hw Hmax. destruct (bounded_reachable max names d w Hd Hw) as [_ Hs Hm]. fold (slotted (runs (ws w))).
  destruct (threads w !! O) as [th|]; [destruct (token max th)|]; destruct Hm; lia.
Qed.

(** ** A retry from the failure *)

Lemma store_ok {A} o (call : db -> result store_error A * db) s a d' :
  o_fail o = false -> call (st_db s) = (a, d') -> store o call s = (a, set_db s d').
Proof. unfold store. by intros -> ->. Qed.

Lemma pair_of {A B} (p : A * B) a b : p.1 = a -> p.2 = b -> p = (a, b).
Proof. destruct p. by intros <- <-. Qed.

Lemma GetJob_visible ctx t id d job :
  FromContext ctx = Ok t -> (GetJob ctx id d).1 = Ok job ->
  id <> "" /\ jobs d !! id = Some job /\ visible (mkSession t (UserFromContext ctx)) job = true /\ deleted d t = false.
Proof.
  intros Hc. unfold GetJob, job_method, transaction, enter. case_bool_decide; [done|]. rewrite Hc.
  destruct (deleted d t); [done|]. cbn. destruct (jobs d !! id) as [j|] eqn:Hj; [|done]. destruct (visible _ j) eqn:Hv; [|done].
  cbn. intros [= <-]. done.
Qed.

Lemma firstFailed_app earlier st later :
  Forall (fun x => retryable_stage x = false) earlier -> retryable_stage st = true ->
  firstFailed (earlier ++ st :: later) = Some (StageName st).
Proof.
  intros He Hs. unfold firstFailed. induction He as [|x l Hx _ IH]; cbn; [by rewrite Hs|]. rewrite Hx. exact IH.
Qed.

Lemma retry_refused_none job : retryRefusal (ErrorClass job) = "" -> retry_refused job true = None.
Proof. intros Hr. unfold retry_refused. rewrite (bool_decide_eq_true_2 _ Hr). cbn. by rewrite !andb_false_r. Qed.

Lemma UpdateJobStatus_running now ctx t id d job :
  FromContext ctx = Ok t -> id <> "" -> deleted d t = false -> jobs d !! id = Some job ->
  visible (mkSession t (UserFromContext ctx)) job = true -> Status job <> JobStatusCompleted ->
  exists row, UpdateJobStatus now ctx id JobStatusRunning None d = (Ok tt, set_jobs d (<[id := row]> (jobs d))) /\
    Status row = JobStatusRunning /\ ErrorMessage row = "" /\ ErrorClass row = JobErrorRetryable.
Proof.
  intros Hc Hid Hdel Hj Hv Hs. unfold UpdateJobStatus, job_method, transaction, enter. rewrite bool_decide_eq_false_2, Hc, Hdel by done. cbn.
  rewrite Hj, Hv. cbn. rewrite bool_decide_eq_false_2 by done. by eexists.
Qed.

(** C12. Retrying a job from its failure resumes it at the first of its stages,
    as the store lists them, that failed or was cancelled. With nothing in
    between and no store failure, RetryJob answers with the job, one new run of
    it is registered, the job is recorded as running without its error, that
    stage and those listed after it are pending again, and those before it
    keep what they had. *)
Theorem retry_resumes_at_failure ctx t id o s job earlier st later :
  FromContext ctx = Ok t -> o_fail o = false -> (GetJob ctx id (st_db s)).1 = Ok job -> JobID job = id ->
  Status job <> JobStatusCompleted -> retryRefusal (ErrorClass job) = "" ->
  running s !! id = None -> id ∉ retrying s -> checkConcurrencyLimit max s = None ->
  (GetStages ctx id (st_db s)).1 = Ok (earlier ++ st :: later) -> NoDup (StageName <$> earlier ++ st :: later) ->
  Forall (fun x => retryable_stage x = false) earlier -> retryable_stage st = true ->
  exists s', run_alone 8 o (RetryStart ctx id true) s = (Done (Retried id), s') /\
    runs s' = <[next s := mkRun t id new_run false]> (runs s) /\ running s' = <[id := next s]> (running s) /\ retrying s' = retrying s /\
    (exists row, jobs (st_db s') !! id = Some row /\ Status row = JobStatusRunning /\ ErrorMessage row = "" /\ ErrorClass row = JobErrorRetryable) /\
    forall n x, job_stages (st_db s) !! (id, n) = Some x -> st_TenantID x = t ->
      job_stages (st_db s') !! (id, n) = Some (if bool_decide (n ∈ StageName st :: (StageName <$> later)) then reset x else x).
Proof.
  intros Hc Hf Hj Hid Hns Href Hrun Hret Hlim Hst Hnd Hearly Hstage. subst id.
  destruct (GetJob_visible _ _ _ _ _ Hc Hj) as (Hne & Hrow & Hvis & Hdel).
  assert (parent_completed (mkSession t (UserFromContext ctx)) (st_db s) (JobID job) = false) as Hpc.
  { unfold parent_completed. rewrite Hrow, Hvis. cbn. by apply bool_decide_eq_false_2. }
  rewrite fmap_app, fmap_cons in Hnd.
  destruct (reset_resumes_at_stage ctx t (JobID job) (StageName st) (StageName <$> earlier) (StageName <$> later) (st_db s) Hc Hdel Hne Hnd Hpc)
    as (d1 & Hreset & Hstages).
  assert (jobs d1 = jobs (st_db s) /\ tenants d1 = tenants (st_db s)) as [Hj1 Ht1].
  { unfold ResetStagesFrom in Hreset. rewrite bool_decide_eq_false_2, Hc in Hreset by done.
    destruct (stages_from _ _) as [ns|]; [|done]. unfold transaction, enter in Hreset. rewrite Hc, Hdel in Hreset. cbn in Hreset.
    destruct (reset_stages _ _ _ _) as [[u d2]|] eqn:Hr; [|done]. injection Hreset as _ ->.
    apply reset_stages_frame in Hr as [_ [ss ->]]. split; reflexivity. }
  destruct (UpdateJobStatus_running (o_now o) ctx t (JobID job) d1 job Hc Hne) as (row & Hup & Hr1 & Hr2 & Hr3); try done.
  { unfold deleted. by rewrite Ht1. }
  { by rewrite Hj1. }
  eexists. split.
  - cbn [run_alone advance create_step cancel_step retry_step resume_step stop_step]. rewrite Hc, (store_ok _ _ _ _ _ Hf (pair_of _ _ _ Hj (GetJob_same _ _ _))), set_db_same.
    cbn [advance create_step cancel_step retry_step resume_step stop_step]. unfold reserveRetry. rewrite Hrun, bool_decide_eq_false_2 by done. cbn [advance create_step cancel_step retry_step resume_step stop_step].
    rewrite (retry_refused_none _ Href). unfold checkConcurrencyLimit in *. cbn [running set_retrying]. destruct (_ && _); [done|].
    cbn [advance create_step cancel_step retry_step resume_step stop_step]. rewrite (store_ok o (GetStages ctx (JobID job)) _ (Ok (earlier ++ st :: later)) (st_db s) Hf)
      by (apply pair_of; [exact Hst|apply GetStages_same]).
    rewrite (firstFailed_app _ _ _ Hearly Hstage), fmap_app, fmap_cons. cbn [advance create_step cancel_step retry_step resume_step stop_step].
    change (set_db (set_retrying s ?R) (st_db s)) with (set_retrying s R).
    rewrite (store_ok o (ResetStagesFrom _ _ _ _) (set_retrying s ({[JobID job]} ∪ retrying s)) (Ok tt) d1 Hf Hreset). cbn [advance create_step cancel_step retry_step resume_step stop_step]. rewrite (store_ok o (UpdateJobStatus _ _ _ _ _) (set_db (set_retrying s ({[JobID job]} ∪ retrying s)) d1) (Ok tt) _ Hf Hup). cbn [advance create_step cancel_step retry_step resume_step stop_step]. reflexivity.
  - cbn. split_and!; [done|done|set_solver| |].
    + exists row. by rewrite lookup_insert_eq.
    + exact Hstages.
Qed.
End serving.

(** * Runs of the service *)

(** A world's next step, by its kind. *)
Inductive event :=
| EvRequest (th : thread)
| EvThread (o : outside) (i : nat)
| EvWrite (a : nat) (op : db_op)
| EvClaim (a : nat)
| EvEnd (a : nat).

Definition is_request (th : thread) : bool :=
  match th with CreateStart _ _ | CancelStart _ _ | RetryStart _ _ _ | StopClose => true | _ => false end.
Definition is_run_op (op : db_op) : bool := match op with OpCreateJob _ _ => false | _ => true end.

Section playing.
Context `{Postgres} `{GoQuote} `{JobConfigJSON}.
Variable max : Z.
Variable names : bool.

Definition play1 (w : world) (e : event) : option world :=
  let '(mkWorld s ths) := w in
  match e with
  | EvRequest th => if is_request th then Some (mkWorld s (ths ++ [th])) else None
  | EvThread o i => th ← ths !! i; '(th', s') ← advance max names o th s; Some (mkWorld s' (<[i := th']> ths))
  | EvWrite a op => if is_run_op op && bool_decide (is_Some (runs s !! a)) then Some (mkWorld (set_db s (apply_op (st_db s) op)) ths) else None
  | EvClaim a => if bool_decide (is_Some (runs s !! a)) then Some (mkWorld (claim a s).2 ths) else None
  | EvEnd a => if bool_decide (is_Some (runs s !! a)) then Some (mkWorld (end_run a s) ths) else None
  end.

(** Every world passed must satisfy [p]. *)
Fixpoint play (p : world -> bool) (w : world) (es : list event) : option world :=
  match es with
  | [] => Some w
  | e :: es => w' ← play1 w e; if p w' then play p w' es else None
  end.

Lemma play1_step w e w' : play1 w e = Some w' -> step max names w w'.
Proof.
  destruct w as [s ths], e as [th|o i|a op|a|a]; cbn.
  - destruct (is_request th) eqn:Hr; [|done]. intros [= <-]. apply step_request. by destruct th.
  - destruct (ths !! i) as [th|] eqn:Hi; [|done]. cbn. destruct (advance _ _ _ _ _) as [[th' s']|] eqn:Ha; [|done].
    cbn. intros [= <-]. by eapply step_thread.
  - destruct (is_run_op op) eqn:Ho; [|done]. cbn. case_bool_decide as Hr; [|done]. intros [= <-]. destruct Hr as [r Hr].
    eapply step_write; [exact Hr|by destruct op].
  - case_bool_decide as Hr; [|done]. intros [= <-]. by apply step_claim.
  - case_bool_decide as Hr; [|done]. intros [= <-]. by apply step_end.
Qed.

Lemma play_reachable (P : world -> Prop) p d w es w' :
  (forall w, p w = true -> P w) -> reachable max names P d w -> play p w es = Some w' -> reachable max names P d w'.
Proof.
  intros Hp. revert w. induction es as [|e es IH]; intros w Hw; cbn; [by intros [= <-]|].
  destruct (play1 w e) as [w1|] eqn:He; [|done]. cbn. destruct (p w1) eqn:Hp1; [|done]. apply IH.
  eapply reach_step; [exact Hw|by eapply play1_step|by apply Hp].
Qed.

Lemma play_steps p w0 w es w' : steps max names w0 w -> play p w es = Some w' -> steps max names w0 w'.
Proof.
  revert w. induction es as [|e es IH]; intros w Hw; cbn; [by intros [= <-]|].
  destruct (play1 w e) as [w1|] eqn:He; [|done]. cbn. destruct (p w1); [|done]. apply IH.
  eapply steps_more; [exact Hw|by eapply play1_step].
Qed.
End playing.

Definition calm (w : world) : bool :=
  negb (stopped (ws w)) &&
  forallb (fun j => forallb (fun th => negb (bool_decide (j ∈ queue th)) && negb (bool_decide (creates th = Some j))) (threads w))
    (elements (retrying (ws w))).

Lemma calm_undisturbed w : calm w = true -> undisturbed w.
Proof.
  intros [Hs Hf]%andb_true_iff. split; [by destruct (stopped _)|]. intros j Hj i th Hi.
  rewrite forallb_forall in Hf. pose proof (Hf j) as Hj'. rewrite forallb_forall in Hj'.
  assert (In th (threads w)) as Hin by (apply list_elem_of_In; by eapply list_elem_of_lookup_2).
  specialize (Hj' ltac:(by apply list_elem_of_In, elem_of_elements) th Hin).
  apply andb_true_iff in Hj' as [H1 H2]. rewrite negb_true_iff, bool_decide_eq_false in H1, H2. done.
Qed.

(** ** An example *)

#[local] Instance serving_json : JobConfigJSON := {|
  marshal_config c := Some (jc_CatalogID c);
  unmarshal_config s := Some (mkJobConfig s s false false None None "");
|}.
#[local] Instance serving_quote : GoQuote := Build_GoQuote (fun s => s).
#[local] Instance serving_postgres : Postgres := plain_postgres.

Definition serving_outside (id : string) : outside :=
  mkOutside false id 9 (fun c => Ok (mkSnap c c "1")) (Some ["classify"]) false.
Definition serving_config : JobConfig := mkJobConfig "nist" "iso" false false None None "".
Definition serving_create : event := EvRequest (CreateStart (example_ctx "acme") (Some serving_config)).
Definition thread_steps (n i : nat) (id : string) : list event := repeat (EvThread (serving_outside id) i) n.
Definition nowhere_calm (w : world) : bool := true.

(** The interrupted job [j2] is resumed, then [j3] is created. *)
Definition busy_day : list event := thread_steps 3 0 "" ++ [serving_create] ++ thread_steps 5 1 "j3".

Lemma example_keyed : keyed example_db.
Proof.
  intros k j Hj. unfold example_db in Hj. cbn in Hj.
  apply lookup_insert_Some in Hj as [[<- <-]|[_ Hj]]; [done|]. by apply lookup_singleton_Some in Hj as [<- <-].
Qed.

Lemma one_run_per_job_witness :
  exists w, play 2 true calm (start example_db) busy_day = Some w /\ size (runs (ws w)) = 2%nat /\
    (forall a1 a2 r1 r2, runs (ws w) !! a1 = Some r1 -> runs (ws w) !! a2 = Some r2 -> rn_job r1 = rn_job r2 -> a1 = a2).
Proof.
  destruct (play 2 true calm (start example_db) busy_day) as [w|] eqn:Hw; [|vm_compute in Hw; discriminate Hw].
  exists w. split; [reflexivity|]. split.
  - apply (f_equal (fun o => match o with Some w => size (runs (ws w)) | None => O end)) in Hw. rewrite <- Hw. vm_compute. reflexivity.
  - refine (proj1 (one_run_per_job 2 true example_db w example_keyed _)).
    refine (play_reachable 2 true undisturbed calm example_db (start example_db) busy_day w calm_undisturbed _ Hw).
    apply reach_start, calm_undisturbed. vm_compute. reflexivity.
Defined.

(** [j3] is cancelled, and [j2] claims its completion. *)
Lemma cancel_decides_witness :
  exists w s' w', play 2 true nowhere_calm (start example_db)
      (busy_day ++ [EvRequest (CancelStart (example_ctx "acme") "j3")] ++ thread_steps 1 2 "") = Some w /\
    advance 2 true (serving_outside "") (CancelLock "j3") (ws w) = Some (Done Cancelled, s') /\
    play 2 true nowhere_calm (mkWorld s' (<[2%nat := Done Cancelled]> (threads w))) [EvClaim 0; EvWrite 1 (OpJobStatus 9 (example_ctx "acme") "j3" JobStatusFailed None)] = Some w' /\
    (claim 1 (ws w')).1 = false.
Proof.
  destruct (play 2 true nowhere_calm (start example_db) _) as [w|] eqn:Hw; [|vm_compute in Hw; discriminate Hw].
  exists w. destruct (advance 2 true (serving_outside "") (CancelLock "j3") (ws w)) as [[th s']|] eqn:Ha;
    [|exfalso; revert Hw Ha; vm_compute; intros [= <-]; vm_compute; discriminate].
  assert (th = Done Cancelled) as -> by (revert Hw Ha; vm_compute; intros [= <-]; vm_compute; by intros [= <- _]).
  exists s'. destruct (play 2 true nowhere_calm (mkWorld s' _) _) as [w'|] eqn:Hw';
    [|exfalso; revert Hw Ha Hw'; vm_compute; intros [= <-]; vm_compute; intros [= <-]; vm_compute; discriminate].
  exists w'. split; [reflexivity|]. split; [reflexivity|]. split; [reflexivity|].
  assert (reachable 2 true anywhere example_db w) as Hr.
  { refine (play_reachable 2 true anywhere nowhere_calm example_db (start example_db) _ w (fun _ _ => I) _ Hw). by apply reach_start. }
  destruct (proj1 (cancel_decides 2 true example_db w example_keyed Hr) "j3" (serving_outside "") s' 2%nat) as (a & Ha1 & Hc).
  - revert Hw. vm_compute. intros [= <-]. vm_compute. reflexivity.
  - exact Ha.
  - assert (a = 1%nat) as -> by (revert Hw Ha1; vm_compute; intros [= <-]; vm_compute; by intros [= <-]).
    apply Hc. refine (play_steps 2 true nowhere_calm _ _ _ w' _ Hw'). apply steps_refl.
Defined.

(** A retry of [j2] before its turn. *)
Lemma retries_serialized_witness :
  exists w, play 2 true nowhere_calm (start example_db)
      (EvRequest (RetryStart (example_ctx "acme") "j2" true) :: thread_steps 2 1 "") = Some w /\ "j2" ∈ retrying (ws w).
Proof.
  destruct (play 2 true nowhere_calm (start example_db) _) as [w|] eqn:Hw; [|vm_compute in Hw; discriminate Hw].
  exists w. split; [reflexivity|].
  assert (reachable 2 true anywhere example_db w) as Hr.
  { refine (play_reachable 2 true anywhere nowhere_calm example_db (start example_db) _ w (fun _ _ => I) _ Hw). by apply reach_start. }
  apply (proj1 (retries_serialized 2 true anywhere example_db w example_keyed Hr)). exists 1%nat.
  clear Hr. revert Hw. vm_compute. intros [= <-]. eexists. split; reflexivity.
Defined.

Lemma resumed_within_limit_witness :
  exists w, play 1 true nowhere_calm (start example_db) (thread_steps 3 0 "") = Some w /\
    Z.of_nat (size (filter (fun ar => rn_slot ar.2 = true) (runs (ws w)))) <= 1 /\ size (runs (ws w)) = 1%nat.
Proof.
  destruct (play 1 true nowhere_calm (start example_db) _) as [w|] eqn:Hw; [|vm_compute in Hw; discriminate Hw].
  exists w. split; [reflexivity|]. split.
  - refine (resumed_within_limit 1 true example_db w example_keyed _ eq_refl).
    refine (play_reachable 1 true anywhere nowhere_calm example_db (start example_db) _ w (fun _ _ => I) _ Hw). by apply reach_start.
  - revert Hw. vm_compute. intros [= <-]. vm_compute. reflexivity.
Defined.

Definition not_after {A} (less : A -> A -> bool) (a b : A) : Prop := less b a = false.
#[local] Instance not_after_dec {A} (less : A -> A -> bool) : RelDecision (not_after less).
Proof. intros a b. unfold not_after. apply _. Defined.

#[local] Instance sorting_postgres : Postgres := {|
  jsonb := Some;
  order_by A less l := merge_sort (not_after less) l;
  order_by_perm A less l := merge_sort_Permutation _ l;
  collate a b := match String.compare a b with Lt => true | _ => false end;
|}.

(** A job of three stages, the first of which, by name, failed after the
    second had completed. *)
Definition failed_db : db := {|
  tenants := {[ "acme" := "active" ]};
  jobs := {[ "j5" := example_job "acme" "j5" JobStatusFailed ]};
  job_stages := {[ ("j5", "classify") := mkStage "j5" "classify" StageStatusFailed None None 0 "" "acme" "";
                   ("j5", "embedding") := mkStage "j5" "embedding" StageStatusCompleted None None 0 "" "acme" "";
                   ("j5", "artifacts") := mkStage "j5" "artifacts" StageStatusCompleted None None 0 "" "acme" "" ]};
  analysis_results := ∅;
  vote_summaries := ∅;
|}.

Definition stage_is (s : state) (j n : string) : option string := st_Status <$> job_stages (st_db s) !! (j, n).

(** The stage that completed before the failure, but has a later name, is run
    again. *)
Lemma retry_resumes_at_failure_witness :
  exists s', run_alone 2 true 8 (serving_outside "") (RetryStart (example_ctx "acme") "j5" true) (ws (start failed_db)) = (Done (Retried "j5"), s') /\
    size (runs s') = 1%nat /\ stage_is s' "j5" "artifacts" = Some StageStatusCompleted /\ stage_is s' "j5" "embedding" = Some StageStatusPending.
Proof.
  destruct (retry_resumes_at_failure 2 true (example_ctx "acme") "acme" "j5" (serving_outside "") (ws (start failed_db))
    (example_job "acme" "j5" JobStatusFailed) [mkStage "j5" "artifacts" StageStatusCompleted None None 0 "" "acme" ""]
    (mkStage "j5" "classify" StageStatusFailed None None 0 "" "acme" "") [mkStage "j5" "embedding" StageStatusCompleted None None 0 "" "acme" ""])
    as (s' & Hrun & Hruns & _ & _ & _ & Hst).
  all: try (vm_compute; reflexivity).
  - discriminate.
  - vm_compute. set_solver.
  - by apply (bool_decide_unpack _).
  - repeat constructor.
  - exists s'. split; [exact Hrun|]. split; [rewrite Hruns; reflexivity|]. unfold stage_is.
    rewrite (Hst "artifacts" _ eq_refl eq_refl), (Hst "embedding" _ eq_refl eq_refl). split; reflexivity.
Defined.

(** ** What interleavings break *)

Definition live_runs (s : state) (j : string) : list nat :=
  (filter (fun ar => rn_job ar.2 = j /\ rj_cause (rn_rj ar.2) = None) (map_to_list (runs s))).*1.

(** A job retried from its failure while it waits to be resumed: the
    dispatcher registers a run of it after the retry was reserved, and the
    retry then registers a second one over it. *)
Lemma retry_beside_resume :
  let es := thread_steps 2 0 "" ++ [EvRequest (RetryStart (example_ctx "acme") "j2" true)] ++ thread_steps 6 1 "" ++ thread_steps 1 0 "" ++ thread_steps 2 1 "" in
  (fun w => (stopped (ws w), live_runs (ws w) "j2", running (ws w) !! "j2", threads w !! 1%nat)) <$>
    play 2 true nowhere_calm (start example_db) es
  = Some (false, [1; 0]%nat, Some 1%nat, Some (Done (Retried "j2"))).
Proof. vm_compute. reflexivity. Qed.

(** The dispatcher registers a run after Stop cancelled every job it found:
    the run's context is live, and the service has stopped. *)
Lemma resumed_after_stop :
  let es := thread_steps 2 0 "" ++ [EvRequest StopClose] ++ thread_steps 2 1 "" ++ thread_steps 2 0 "" in
  (fun w => (stopped (ws w), live_runs (ws w) "j2", threads w)) <$> play 2 true nowhere_calm (start example_db) es
  = Some (true, [0]%nat, [Done Resumed; Done Stopped]).
Proof. vm_compute. reflexivity. Qed.

(** Two requests may pass the check of the limit before either registers its
    job. *)
Lemma limit_overrun :
  let es := thread_steps 1 0 "" ++ [serving_create; serving_create] ++ thread_steps 2 1 "j3" ++ thread_steps 2 2 "j4" ++
            thread_steps 3 1 "j3" ++ thread_steps 3 2 "j4" in
  (fun w => size (running (ws w))) <$> play 1 true nowhere_calm (start failed_db) es = Some 2%nat.
Proof. vm_compute. reflexivity. Qed.
