(* ===== verification/Verdicts.v ===== *)
(** Verdicts on pairs of artifact groups: [internal/analyzer/artifacts], files
    [verdicts.go] and [pairdetail.go], and the text rules of
    [pkg/db/identity.go] that reviewer IDs must keep.

    Statuses and determination types are the strings they are stored as. JSON
    texts are written as [encoding/json] writes them; a nil slice and an empty
    one are both the empty list, and written as null. *)

From stdpp Require Import pretty.
From S2P Require Import Prelude Float64 Floatfmt Gostrings Timefmt Sha256 Json Jsonread Jobconfig Results Graph.
Local Open Scope Z_scope.

(** * Definitions *)

Definition VerdictPending : string := "pending".
Definition VerdictConfirmed : string := "confirmed".
Definition VerdictRejected : string := "rejected".
Definition VerdictUndecided : string := "undecided".
Definition VerdictAbandoned : string := "abandoned".

Definition DeterminationHuman : string := "human".
Definition DeterminationLLMPanel : string := "llm_panel".
Definition DeterminationTokenOverlap : string := "token_overlap".

Definition adjudicatorName : string := "artifact-adjudicator".
Definition reconcilerName : string := "artifact-reconciler".

Definition closed (status : string) : bool := bool_decide (status = VerdictConfirmed \/ status = VerdictRejected).

(** ** Keys and references *)

Definition PairKey (low high : string) : string := DerivedID ["artifact-pair"; low; high].
#[global] Arguments PairKey : simpl never.

Definition first_bytes (n : nat) (s : string) : string := string_of (take n (bytes_of s)).

Definition pairRefLen : nat := 16.
Definition PairRef (key : string) : string := first_bytes pairRefLen (hex_sum key).

Definition is_lower_hex (c : ascii) : bool := in_range 48 57 c || in_range 97 102 c.

(** [len(s) != n || strings.Trim(s, "0123456789abcdef") != ""] *)
Definition is_hex_token (n : nat) (s : string) : bool :=
  bool_decide (length (bytes_of s) = n) && forallb is_lower_hex (bytes_of s).
Definition ValidatePairRef (ref : string) : bool := is_hex_token pairRefLen ref.

(** ** Text rules *)

(** The rune a text starts with and its size; an invalid byte is U+FFFD. *)
Definition decode_rune (l : list ascii) : Z * nat :=
  match rune_size l, l with
  | Some 1%nat, a :: _ => (byte_val a, 1%nat)
  | Some 2%nat, a :: b :: _ => ((byte_val a - 192) * 64 + (byte_val b - 128), 2%nat)
  | Some 3%nat, a :: b :: c :: _ => ((byte_val a - 224) * 4096 + (byte_val b - 128) * 64 + (byte_val c - 128), 3%nat)
  | Some 4%nat, a :: b :: c :: d :: _ =>
      ((byte_val a - 240) * 262144 + (byte_val b - 128) * 4096 + (byte_val c - 128) * 64 + (byte_val d - 128), 4%nat)
  | _, _ => (65533, 1%nat)
  end.

Fixpoint runes_from (skip : nat) (l : list ascii) : list Z :=
  match l with
  | [] => []
  | _ :: r =>
      match skip with
      | S skip => runes_from skip r
      | O => let '(c, n) := decode_rune l in c :: runes_from (n - 1) r
      end
  end.
Definition runes (s : string) : list Z := runes_from 0 (bytes_of s).

(** Unicode's categories Cc, Cf, Zl and Zp. *)
Definition unprintable_ranges : list (Z * Z) :=
  [(0, 31); (127, 159); (173, 173); (1536, 1541); (1564, 1564); (1757, 1757); (1807, 1807); (2192, 2193); (2274, 2274); (6158, 6158);
   (8203, 8207); (8232, 8238); (8288, 8292); (8294, 8303); (65279, 65279); (65529, 65531); (69821, 69821); (69837, 69837);
   (78896, 78911); (113824, 113827); (119155, 119162); (917505, 917505); (917536, 917631)].
Definition is_unprintable (r : Z) : bool := existsb (fun '(lo, hi) => (lo <=? r) && (r <=? hi)) unprintable_ranges.
Definition unprintable (s : string) : option Z := List.find is_unprintable (runes s).

(** [textRule.check], whether it accepts; [exact] refuses spaces at the ends. *)
Definition text_rule (maxBytes : Z) (exact : bool) (s : string) : bool :=
  negb (bool_decide (TrimSpace s = "")) && (Z.of_nat (length (bytes_of s)) <=? maxBytes) && utf8_Valid s
  && bool_decide (unprintable s = None) && (negb exact || bool_decide (TrimSpace s = s)).

Definition MaxReviewerBytes : Z := 256.
Definition ValidateReviewerID (id : string) : bool := text_rule MaxReviewerBytes true id.

Definition MaxSearchNameBytes : Z := 200.
Definition ValidateSearchName (name : string) : bool := text_rule MaxSearchNameBytes false name.

(** ** What the panel sees *)

Record MemberSample := mkSample { ms_Name : string; OwnerRole : string; Frequency : string }.

Record PairContext := mkContext {
  pc_Type : string;
  LowName : string;
  HighName : string;
  LowSamples : list MemberSample;
  HighSamples : list MemberSample;
}.

Record PairCandidate := mkCandidate {
  LowGroupID : string;
  HighGroupID : string;
  CandidateEdgeID : string;
  SimilarityScore : float64;
  pc_Context : PairContext;
}.

Definition omitempty (k s : string) : list (string * json) := if bool_decide (s = "") then [] else [(k, JString s)].
Definition json_list {A} (f : A -> json) (l : list A) : json := match l with [] => JNull | _ => JArray (f <$> l) end.

Definition sample_json (s : MemberSample) : json :=
  JObject (("name", JString (ms_Name s)) :: omitempty "owner_role" (OwnerRole s) ++ omitempty "frequency" (Frequency s)).
Definition context_json (c : PairContext) : json :=
  JObject [("type", JString (pc_Type c)); ("low_name", JString (LowName c)); ("high_name", JString (HighName c));
           ("low_samples", json_list sample_json (LowSamples c)); ("high_samples", json_list sample_json (HighSamples c))].

Definition sample_set (s : MemberSample) (key : string) (t : tree) : option MemberSample :=
  let '(mkSample n o f) := s in
  if is_field "name" key then (fun x => mkSample x o f) <$> into_string n t
  else if is_field "owner_role" key then (fun x => mkSample n x f) <$> into_string o t
  else if is_field "frequency" key then (fun x => mkSample n o x) <$> into_string f t
  else Some s.
Definition into_samples : list MemberSample -> tree -> option (list MemberSample) := into_slice (into_struct sample_set (mkSample "" "" "")).

Definition context_set (c : PairContext) (key : string) (t : tree) : option PairContext :=
  let '(mkContext ty ln hn ls hs) := c in
  if is_field "type" key then (fun x => mkContext x ln hn ls hs) <$> into_string ty t
  else if is_field "low_name" key then (fun x => mkContext ty x hn ls hs) <$> into_string ln t
  else if is_field "high_name" key then (fun x => mkContext ty ln x ls hs) <$> into_string hn t
  else if is_field "low_samples" key then (fun x => mkContext ty ln hn x hs) <$> into_samples ls t
  else if is_field "high_samples" key then (fun x => mkContext ty ln hn ls x) <$> into_samples hs t
  else Some c.
Definition read_context (text : string) : option PairContext :=
  t ← parse_text text; into_struct context_set (mkContext "" "" "" [] []) t.

(** ** Evidence *)

Record VoteRecord := mkVoteRecord {
  vr_VoterID : string;
  vr_Decision : option bool;
  vr_Confidence : string;
  vr_Justification : string;
}.

Record PanelEvidence := mkEvidence {
  ev_PromptName : string;
  ev_PromptVersion : string;
  ev_Models : list string;
  ev_Votes : list VoteRecord;
  ev_ValidVotes : Z;
  ev_TotalVotes : Z;
}.
Definition no_evidence : PanelEvidence := mkEvidence "" "" [] [] 0 0.

Definition vote_json (v : VoteRecord) : json :=
  JObject (("voter_id", JString (vr_VoterID v)) :: ("decision", match vr_Decision v with Some b => JBool b | None => JNull end)
           :: omitempty "confidence" (vr_Confidence v) ++ omitempty "justification" (vr_Justification v)).
Definition evidence_json (e : PanelEvidence) : json :=
  JObject [("prompt_name", JString (ev_PromptName e)); ("prompt_version", JString (ev_PromptVersion e));
           ("models", json_list JString (ev_Models e)); ("votes", json_list vote_json (ev_Votes e));
           ("valid_votes", JInt (ev_ValidVotes e)); ("total_votes", JInt (ev_TotalVotes e))].

Definition into_bool_pointer (old : option bool) (t : tree) : option (option bool) :=
  match t with TBool b => Some (Some b) | TNull => Some None | _ => None end.

Definition vote_set (v : VoteRecord) (key : string) (t : tree) : option VoteRecord :=
  let '(mkVoteRecord i d c j) := v in
  if is_field "voter_id" key then (fun x => mkVoteRecord x d c j) <$> into_string i t
  else if is_field "decision" key then (fun x => mkVoteRecord i x c j) <$> into_bool_pointer d t
  else if is_field "confidence" key then (fun x => mkVoteRecord i d x j) <$> into_string c t
  else if is_field "justification" key then (fun x => mkVoteRecord i d c x) <$> into_string j t
  else Some v.

Definition evidence_set (e : PanelEvidence) (key : string) (t : tree) : option PanelEvidence :=
  let '(mkEvidence n v m vs ok all) := e in
  if is_field "prompt_name" key then (fun x => mkEvidence x v m vs ok all) <$> into_string n t
  else if is_field "prompt_version" key then (fun x => mkEvidence n x m vs ok all) <$> into_string v t
  else if is_field "models" key then (fun x => mkEvidence n v x vs ok all) <$> into_slice (into_string "") m t
  else if is_field "votes" key then
    (fun x => mkEvidence n v m x ok all) <$> into_slice (into_struct vote_set (mkVoteRecord "" None "" "")) vs t
  else if is_field "valid_votes" key then (fun x => mkEvidence n v m vs x all) <$> into_int ok t
  else if is_field "total_votes" key then (fun x => mkEvidence n v m vs ok x) <$> into_int all t
  else Some e.
Definition read_evidence (text : string) : option PanelEvidence :=
  t ← parse_text text; into_struct evidence_set no_evidence t.

Record VoteSplit := mkSplit { Same : Z; Valid : Z; Total : Z }.
Definition Split (e : PanelEvidence) : VoteSplit :=
  mkSplit (Z.of_nat (length (List.filter (fun v => bool_decide (vr_Decision v = Some true)) (ev_Votes e)))) (ev_ValidVotes e) (ev_TotalVotes e).

(** ** Verdicts *)

Record Verdict := mkVerdict {
  v_Status : string;
  v_Confidence : float64;
  v_Evidence : PanelEvidence;
  v_DecidedAt : Time;
}.

Inductive DecideOutcome := DecideApplied (candidateEdgeID : string) | DecideHumanOwned | DecideStale.

Record Failure := mkFailure {
  f_Err : string;
  f_At : Time;
  f_NextAttemptAt : Time;
  f_Abandon : bool;
  f_LeasedUntil : Time;
}.

Record HumanVerdict := mkHuman { h_Status : string; h_Reviewer : string; h_DecidedAt : Time; h_Expect : string }.

Inductive HumanOutcome := HumanApplied | HumanUnchanged | HumanReaffirmed.
Record HumanDecision := mkDecision { hd_Outcome : HumanOutcome; hd_Key : string; hd_ClaimedUntil : option Time }.

Record Projection := mkProjection {
  pr_Key : string;
  pr_Low : string;
  pr_High : string;
  pr_CandidateEdgeID : string;
  pr_Status : string;
  pr_Confidence : float64;
  pr_Evidence : PanelEvidence;
  pr_DecidedAt : Time;
  pr_DeterminationType : string;
  pr_DeterminedBy : string;
}.

Inductive ClaimOutcome := ClaimAcquired | ClaimReplaced | ClaimBusy.
Record QueueCounts := mkCounts { Pending : Z; Due : Z; Unprojected_count : Z }.

(** ** Expect tokens *)

Definition expectLen : nat := 16.
Definition ValidateExpect (token : string) : bool := is_hex_token expectLen token.

Definition validateHumanVerdict (ref : string) (h : HumanVerdict) : bool :=
  closed (h_Status h) && negb (IsZero (h_DecidedAt h)) && ValidatePairRef ref && ValidateReviewerID (h_Reviewer h) && ValidateExpect (h_Expect h).

Record pairState := mkPairState {
  ps_Status : string;
  ps_DeterminationType : string;
  ps_DeterminedBy : string;
  ps_Confidence : option float64;
  ps_DecidedAt : option Time;
  ps_SimilarityScore : float64;
  ps_Evidence : option string;
  ps_Dissent : option string;
}.

(** 1970-01-01 is 719162 days after 0001-01-01. *)
Definition UnixMicro (t : Time) : Z := (t - 719162 * ns_per_day) / 1000.

Definition token_fields (p : pairState) : list (option string) :=
  [Some (ps_Status p); Some (ps_DeterminationType p); Some (ps_DeterminedBy p); FormatFloat_g <$> ps_Confidence p;
   (fun t => Itoa (UnixMicro t)) <$> ps_DecidedAt p; Some (FormatFloat_g (ps_SimilarityScore p)); ps_Evidence p; ps_Dissent p].

Definition field_text (f : option string) : list ascii :=
  match f with
  | None => bytes_of "-;"
  | Some b => bytes_of (Itoa (Z.of_nat (length (bytes_of b)))) ++ bytes_of ":" ++ bytes_of b ++ bytes_of ";"
  end.
Definition token_text (p : pairState) : string := string_of (token_fields p ≫= field_text).
Definition token (p : pairState) : string := first_bytes expectLen (hex_sum (token_text p)).
