(* ===== verification/Verdictstore.v ===== *)
(** The PostgreSQL store of SAME_AS verdicts:
    [internal/analyzer/artifacts/verdictstore_pg.go], over the tables
    [artifact_pair_verdicts] and [reviewers] of
    [pkg/db/migrations/001_initial_schema.up.sql].

    Every method is one transaction, so it is a function on the tables, as in
    [Jobstore]. The database keeps microseconds, and a time is cut to them on
    its way in. The texts of times in JSON, SQL's reading of JSONB members and
    of timestamps, and its pattern matching are parameters. Telemetry and the
    texts of errors are left out; connection failures are left to the callers. *)

From S2P Require Import Prelude Float64 Floatfmt Gostrings Timefmt Tenant Sha256 Json Jsonread Jobconfig Jobstore Verdicts.
Local Open Scope Z_scope.

(** * Definitions *)

Class Jsonb := {
  json_get : string -> string -> option string;              (* [->>] *)
  json_time : Time -> option string;                         (* [time.Time.MarshalJSON]'s text *)
  timestamptz : string -> option Time;                       (* the cast *)
  ilike_contains : string -> string -> bool;                 (* [name ILIKE '%text%'], the text escaped *)
}.

Inductive store_failure :=
| NoTenant
| TenantMismatch
| TenantDeleted
| DatabaseError                        (* a constraint, a cast or a decode failed *)
| InvalidArgument
| PairNotQueued
| ErrPairNotFound
| ErrPairRefAmbiguous
| ErrReviewerNotRegistered
| ErrReviewerDeleted
| ErrPairChanged (status determination displayBy : string) (decidedAt : option Time).

(** ** Tables *)

Record reviewer := mkReviewer { rv_Deleted : bool; rv_Pseudonym : option string; rv_Hidden : bool }.

(** The verdict columns, and those of the work queue. *)
Record ruling := mkRuling {
  ru_status : string;
  ru_type : string;
  ru_by : string;
  ru_confidence : option float64;
  ru_evidence : option string;
  ru_decided : option Time;
}.
Record queued := mkQueued { q_attempts : Z; q_next : Time; q_leased : option Time; q_error : option string }.

Record row := mkRow {
  low : string;
  high : string;
  candidate : string;
  score : float64;
  context_text : string;
  rl : ruling;
  dissent : option string;
  applied : bool;
  qu : queued;
  claimed : option Time;
  created : Time;
}.

Record vdb := mkVdb {
  vd_tenants : gmap string bool;                (* whether the tenant is deleted *)
  reviewers : gmap (string * string) reviewer;  (* tenant, reviewer *)
  verdicts : gmap (string * string) row;        (* tenant, pair_key *)
}.

Definition set_verdicts (d : vdb) (v : gmap (string * string) row) : vdb := mkVdb (vd_tenants d) (reviewers d) v.

Definition set_candidate (r : row) (e : string) (s : float64) : row :=
  mkRow (low r) (high r) e s (context_text r) (rl r) (dissent r) (applied r) (qu r) (claimed r) (created r).
Definition set_queue (r : row) (q : queued) : row :=
  mkRow (low r) (high r) (candidate r) (score r) (context_text r) (rl r) (dissent r) (applied r) q (claimed r) (created r).
Definition set_ruling (r : row) (u : ruling) : row :=
  mkRow (low r) (high r) (candidate r) (score r) (context_text r) u (dissent r) (applied r) (qu r) (claimed r) (created r).
Definition set_dissent (r : row) (x : option string) : row :=
  mkRow (low r) (high r) (candidate r) (score r) (context_text r) (rl r) x (applied r) (qu r) (claimed r) (created r).
Definition set_applied (r : row) (b : bool) : row :=
  mkRow (low r) (high r) (candidate r) (score r) (context_text r) (rl r) (dissent r) b (qu r) (claimed r) (created r).
Definition set_claimed (r : row) (c : option Time) : row :=
  mkRow (low r) (high r) (candidate r) (score r) (context_text r) (rl r) (dissent r) (applied r) (qu r) c (created r).

(** A timestamp as it is stored. *)
Definition micro (t : Time) : Time := t - t mod 1000.

Definition by_human (r : row) : bool := bool_decide (ru_type (rl r) = DeterminationHuman).
(** [status = 'pending' AND determination_type <> 'human'] *)
Definition open_row (r : row) : bool := bool_decide (ru_status (rl r) = VerdictPending) && negb (by_human r).

Definition rows_of (tenantID : string) (d : vdb) : list (string * row) :=
  omap (fun '((t, k), r) => if bool_decide (t = tenantID) then Some (k, r) else None) (map_to_list (verdicts d)).

(** ** Transactions *)

Definition inTx {A} (ctx : context) (tenantID : string) (d : vdb) (body : vdb -> result store_failure (A * vdb)) : result store_failure A * vdb :=
  match FromContext ctx with
  | Err _ => (Err NoTenant, d)
  | Ok t =>
      if negb (bool_decide (t = tenantID)) then (Err TenantMismatch, d)
      else if default false (vd_tenants d !! t) then (Err TenantDeleted, d)
      else match body d with Ok (a, d') => (Ok a, d') | Err e => (Err e, d) end
  end.

(** [UPDATE ... WHERE tenant_id AND pair_key AND cond RETURNING]: the new row. *)
Definition update_row (tenantID key : string) (cond : row -> bool) (f : row -> row) (d : vdb) : option row * vdb :=
  match verdicts d !! (tenantID, key) with
  | Some r => if cond r then (Some (f r), set_verdicts d (<[(tenantID, key) := f r]> (verdicts d))) else (None, d)
  | None => (None, d)
  end.

Section store.
Context `{Postgres} `{Jsonb}.

(** ** The queue *)

Definition new_row (c : PairCandidate) (ctxt : string) (now : Time) : row :=
  mkRow (LowGroupID c) (HighGroupID c) (CandidateEdgeID c) (SimilarityScore c) ctxt
    (mkRuling VerdictPending DeterminationTokenOverlap reconcilerName None None None) None false
    (mkQueued 0 (micro now) None None) None (micro now).

(** One row of [enqueueSQL]; [None] is a constraint that refuses it. *)
Definition enqueue_row (tenantID : string) (now : Time) (c : PairCandidate) (d : vdb) : option vdb :=
  let key := (tenantID, PairKey (LowGroupID c) (HighGroupID c)) in
  ctxt ← jsonb (Marshal_json (context_json (pc_Context c)));
  if negb (String.ltb (LowGroupID c) (HighGroupID c)) then None
  else
    match verdicts d !! key with
    | Some r =>
        Some (if open_row r then set_verdicts d (<[key := set_candidate r (CandidateEdgeID c) (SimilarityScore c)]> (verdicts d)) else d)
    | None =>
        if bool_decide (is_Some (vd_tenants d !! tenantID)) then Some (set_verdicts d (<[key := new_row c ctxt now]> (verdicts d))) else None
    end.

Definition enqueueChunk : nat := 1000.

(** Whether the statement writes the row of a candidate. *)
Definition affects (tenantID : string) (d : vdb) (c : PairCandidate) : bool :=
  match verdicts d !! (tenantID, PairKey (LowGroupID c) (HighGroupID c)) with Some r => open_row r | None => true end.

(** One statement: it may not write a row twice. *)
Definition enqueue_chunk (tenantID : string) (now : Time) (chunk : list PairCandidate) (d : vdb) : option vdb :=
  if bool_decide (NoDup ((fun c => PairKey (LowGroupID c) (HighGroupID c)) <$> List.filter (affects tenantID d) chunk))
  then foldl (fun d c => d ← d; enqueue_row tenantID now c d) (Some d) chunk else None.

Definition Enqueue (ctx : context) (tenantID : string) (candidates : list PairCandidate) (now : Time) (d : vdb) : result store_failure unit * vdb :=
  if bool_decide (candidates = []) then (Ok tt, d)
  else
    inTx ctx tenantID d (fun d =>
      match foldl (fun d c => d ← d; enqueue_chunk tenantID now c d) (Some d) (chunks (length candidates) enqueueChunk candidates) with
      | Some d' => Ok (tt, d')
      | None => Err DatabaseError
      end).

Definition ClosedPairs (ctx : context) (tenantID : string) (d : vdb) : result store_failure (gset string) * vdb :=
  inTx ctx tenantID d (fun d =>
    Ok (list_to_set (fst <$> List.filter (fun kr => closed (ru_status (rl kr.2))) (rows_of tenantID d)), d)).

(** [next_attempt_at <= now AND (leased_until IS NULL OR leased_until < now)] *)
Definition due (now : Time) (r : row) : bool :=
  (q_next (qu r) <=? now) && match q_leased (qu r) with Some t => t <? now | None => true end.

Definition by_next (a b : string * row) : bool :=
  (q_next (qu a.2) <? q_next (qu b.2)) || ((q_next (qu a.2) =? q_next (qu b.2)) && collate a.1 b.1).

Definition lease_row (until : Time) (r : row) : row :=
  set_queue r (mkQueued (q_attempts (qu r)) (q_next (qu r)) (Some until) (q_error (qu r))).

Record LeasedPair := mkLeased { lp_Candidate : PairCandidate; lp_Key : string; lp_Attempts : Z; lp_LeasedUntil : Time }.

Definition leased_pair (until : Time) (kr : string * row) : option LeasedPair :=
  c ← read_context (context_text kr.2);
  Some (mkLeased (mkCandidate (low kr.2) (high kr.2) (candidate kr.2) (score kr.2) c) kr.1 (q_attempts (qu kr.2)) until).

(** [locked] are the rows other transactions hold. *)
Definition Lease (locked : gset string) (ctx : context) (tenantID : string) (n leaseFor : Z) (now : Time) (d : vdb)
  : result store_failure (list LeasedPair) * vdb :=
  if (n <=? 0) || (leaseFor <=? 0) then (Err InvalidArgument, d)
  else
    inTx ctx tenantID d (fun d =>
      let until := micro (now + leaseFor) in
      let found := take (Z.to_nat n) (order_by by_next
        (List.filter (fun kr => open_row kr.2 && due (micro now) kr.2 && negb (bool_decide (kr.1 ∈ locked))) (rows_of tenantID d))) in
      match mapM (leased_pair until) found with
      | None => Err DatabaseError
      | Some out =>
          Ok (out, set_verdicts d (foldr (fun kr m => <[(tenantID, kr.1) := lease_row until kr.2]> m) (verdicts d) found))
      end).

(** ** The panel's verdicts *)

Definition panel_ruling (v : Verdict) (evidence : string) : ruling :=
  mkRuling (v_Status v) DeterminationLLMPanel adjudicatorName (Some (v_Confidence v)) (Some evidence) (Some (micro (v_DecidedAt v))).

Definition decided_row (v : Verdict) (evidence : string) (r : row) : row :=
  set_applied (set_queue (set_ruling r (panel_ruling v evidence)) (mkQueued (q_attempts (qu r)) (q_next (qu r)) None None)) false.

Definition Decide (ctx : context) (tenantID key : string) (v : Verdict) (d : vdb) : result store_failure DecideOutcome * vdb :=
  if negb (closed (v_Status v) || bool_decide (v_Status v = VerdictUndecided)) then (Err InvalidArgument, d)
  else
    inTx ctx tenantID d (fun d =>
      match jsonb (Marshal_json (evidence_json (v_Evidence v))) with
      | None => Err DatabaseError
      | Some evidence =>
          match update_row tenantID key open_row (decided_row v evidence) d with
          | (Some r, d') => Ok (DecideApplied (candidate r), d')
          | (None, _) =>
              match verdicts d !! (tenantID, key) with
              | None => Err PairNotQueued
              | Some r => Ok (if by_human r then DecideHumanOwned else DecideStale, d)
              end
          end
      end).

(** [json.Compact] with HTML escaping, as a [json.RawMessage] is written:
    [str] inside a string, [esc] after a backslash in one. *)
Fixpoint compact (str esc : bool) (skip : nat) (l : list ascii) : list ascii :=
  match l with
  | [] => []
  | c :: r =>
      match skip with
      | S skip => compact str esc skip r
      | O =>
          let next := if str then if esc then (true, false)
                                  else if byte_val c =? 92 then (true, true) else if byte_val c =? 34 then (false, false) else (true, false)
                      else (byte_val c =? 34, false) in
          let rest := compact next.1 next.2 in
          if negb str && is_space c then rest 0%nat r
          else if (byte_val c =? 60) || (byte_val c =? 62) || (byte_val c =? 38) then bytes_of "\u00" ++ [hex_digit (byte_val c / 16); hex_digit (byte_val c mod 16)] ++ rest 0%nat r
          else match separator_rune l with
               | Some n => bytes_of "\u202" ++ [hex_digit (n mod 16)] ++ rest 2%nat r
               | None => c :: rest 0%nat r
               end
      end
  end.

(** [json.Marshal] of a [dissentRecord]; [None] refuses the confidence or the
    evidence. *)
Definition dissent_json (status : string) (confidence : float64) (by_ : string) (at_ : Time) (evidence : string) : option string :=
  c ← json_float confidence; at_ ← json_time at_;
  if negb (json_Valid evidence) then None
  else
    let field k v := quoted k ++ bytes_of ":" ++ v in
    Some (string_of (bytes_of "{" ++ commas [field "status" (quoted status); field "confidence" (bytes_of c); field "determined_by" (quoted by_);
            field "decided_at" (quoted at_); field "evidence" (compact false false 0 (bytes_of evidence))] ++ bytes_of "}")).

Definition RecordDissent (ctx : context) (tenantID key : string) (v : Verdict) (d : vdb) : result store_failure unit * vdb :=
  match dissent_json (v_Status v) (v_Confidence v) adjudicatorName (micro (v_DecidedAt v)) (Marshal_json (evidence_json (v_Evidence v))) with
  | None => (Err InvalidArgument, d)
  | Some text =>
      inTx ctx tenantID d (fun d =>
        match jsonb text with
        | None => Err DatabaseError
        | Some x => Ok (tt, (update_row tenantID key by_human (fun r => set_dissent r (Some x)) d).2)
        end)
  end.

Definition failed_row (f : Failure) (r : row) : row :=
  let u := rl r in
  set_queue (set_ruling r (mkRuling (if f_Abandon f then VerdictAbandoned else ru_status u) (ru_type u) (ru_by u) (ru_confidence u) (ru_evidence u)
                             (if f_Abandon f then Some (micro (f_At f)) else ru_decided u)))
    (mkQueued (q_attempts (qu r) + 1) (micro (f_NextAttemptAt f)) None (Some (f_Err f))).

Definition RecordFailure (ctx : context) (tenantID key : string) (f : Failure) (d : vdb) : result store_failure unit * vdb :=
  inTx ctx tenantID d (fun d =>
    Ok (tt, (update_row tenantID key (fun r => open_row r && bool_decide (q_leased (qu r) = Some (micro (f_LeasedUntil f)))) (failed_row f) d).2)).

(** ** Reviewers *)

(** [disputedSQL]; the error is a [decided_at] that is no timestamp. *)
Definition disputed (r : row) : result store_failure bool :=
  match by_human r, dissent r with
  | true, Some x =>
      let s := json_get x "status" in
      if bool_decide (s = Some VerdictConfirmed \/ s = Some VerdictRejected) && negb (bool_decide (s = Some (ru_status (rl r)))) then
        match json_get x "decided_at" with
        | None => Ok false
        | Some text =>
            match timestamptz text, ru_decided (rl r) with
            | None, _ => Err DatabaseError
            | Some t, Some u => Ok (u <? t)
            | Some _, None => Ok false
            end
        end
      else Ok false
  | _, _ => Ok false
  end.

(** [determined_by] as it is shown. *)
Definition display_by (tenantID : string) (r : row) (d : vdb) : string :=
  match reviewers d !! (tenantID, ru_by (rl r)) with
  | Some v => if by_human r && rv_Hidden v then default (ru_by (rl r)) (rv_Pseudonym v) else ru_by (rl r)
  | None => ru_by (rl r)
  end.

Definition pair_state (r : row) : pairState :=
  let u := rl r in
  mkPairState (ru_status u) (ru_type u) (ru_by u) (ru_confidence u) (t ← ru_decided u; if IsZero t then None else Some t) (score r) (ru_evidence u)
    (dissent r).

(** The tenant's one row with a ref. *)
Definition by_ref (tenantID ref : string) (d : vdb) : result store_failure (string * row) :=
  match List.filter (fun kr => bool_decide (PairRef kr.1 = ref)) (rows_of tenantID d) with
  | [] => Err ErrPairNotFound
  | [kr] => Ok kr
  | _ => Err ErrPairRefAmbiguous
  end.

(** [require_active_reviewer] *)
Definition require_active_reviewer (tenantID id : string) (d : vdb) : result store_failure unit :=
  match reviewers d !! (tenantID, id) with
  | None => Err ErrReviewerNotRegistered
  | Some v => if rv_Deleted v then Err ErrReviewerDeleted else Ok tt
  end.

(** The dissent a human verdict stores: the panel verdict it overrides, as its
    columns hold it, or none to keep the stored one. *)
Definition overridden (r : row) : result store_failure (option string) :=
  let u := rl r in
  if negb (bool_decide (ru_type u = DeterminationLLMPanel)) then Ok None
  else
    match dissent_json (ru_status u) (default fzero (ru_confidence u)) (ru_by u) (default 0 (ru_decided u))
            (default (Marshal_json (evidence_json no_evidence)) (ru_evidence u)) with
    | None => Err InvalidArgument
    | Some text => match jsonb text with Some x => Ok (Some x) | None => Err DatabaseError end
    end.

Definition human_row (h : HumanVerdict) (x : option string) (r : row) : row :=
  let r := set_ruling r (mkRuling (h_Status h) DeterminationHuman (h_Reviewer h) (Some fone) None (Some (micro (h_DecidedAt h)))) in
  let r := set_dissent r (match x with Some x => Some x | None => dissent r end) in
  set_applied (set_queue r (mkQueued (q_attempts (qu r)) (q_next (qu r)) None None)) false.

Definition DecideHuman (ctx : context) (tenantID ref : string) (h : HumanVerdict) (d : vdb) : result store_failure HumanDecision * vdb :=
  if negb (validateHumanVerdict ref h) then (Err InvalidArgument, d)
  else
    inTx ctx tenantID d (fun d =>
      match require_active_reviewer tenantID (h_Reviewer h) d with
      | Err e => Err e
      | Ok _ =>
          match by_ref tenantID ref d with
          | Err e => Err e
          | Ok (key, r) =>
              match disputed r with
              | Err e => Err e
              | Ok dis =>
                  let same := by_human r && bool_decide (ru_status (rl r) = h_Status h) in
                  if negb (same && negb dis) && negb (bool_decide (token (pair_state r) = h_Expect h)) then
                    Err (ErrPairChanged (ru_status (rl r)) (ru_type (rl r)) (display_by tenantID r d) (ru_decided (rl r)))
                  else
                    let live := t ← claimed r; if After t (h_DecidedAt h) then Some t else None in
                    if same && negb dis then Ok (mkDecision HumanUnchanged key live, d)
                    else
                      match overridden r with
                      | Err e => Err e
                      | Ok x =>
                          Ok (mkDecision (if same then HumanReaffirmed else HumanApplied) key live,
                              (update_row tenantID key (fun _ => true) (human_row h x) d).2)
                      end
              end
          end
      end).

(** ** Listings *)

Record ReviewItem := mkItem {
  ri_Ref : string;
  ri_Key : string;
  ri_Status : string;
  ri_Type : string;
  ri_Score : float64;
  ri_Context : PairContext;
  ri_DissentStatus : string;
  ri_Votes : option VoteSplit;
  ri_VotesUnreadable : bool;
}.

(** The votes of a row, and whether its evidence cannot be read. *)
Definition row_votes (r : row) : option VoteSplit * bool :=
  if negb (bool_decide (ru_type (rl r) = DeterminationLLMPanel)) then (None, false)
  else
    match ru_evidence (rl r) ≫= read_evidence with
    | Some e => (Some (Split e), false)
    | None => (None, true)
    end.

Definition review_item (kr : string * row) : option ReviewItem :=
  let '(key, r) := kr in
  c ← read_context (context_text r);
  Some (mkItem (PairRef key) key (ru_status (rl r)) (ru_type (rl r)) (score r) c (default "" (dissent r ≫= fun x => json_get x "status"))
          (row_votes r).1 (row_votes r).2).

Definition by_created (a b : string * row) : bool := (created a.2 <? created b.2) || ((created a.2 =? created b.2) && collate a.1 b.1).

(** The first [n] of the tenant's rows that [keep], oldest first. *)
Definition review_list (n : Z) (tenantID : string) (keep : row -> result store_failure bool) (d : vdb) : result store_failure (list ReviewItem * vdb) :=
  match mapM (fun kr => match keep kr.2 with Ok b => Some (b, kr) | Err _ => None end) (rows_of tenantID d) with
  | None => Err DatabaseError
  | Some marked =>
      match mapM review_item (take (Z.to_nat n) (order_by by_created (snd <$> List.filter fst marked))) with
      | None => Err DatabaseError
      | Some out => Ok (out, d)
      end
  end.

Definition needs_review (r : row) : result store_failure bool :=
  if bool_decide (ru_status (rl r) = VerdictUndecided \/ ru_status (rl r) = VerdictAbandoned) then Ok true else disputed r.

Definition ReviewQueue (ctx : context) (tenantID : string) (n : Z) (d : vdb) : result store_failure (list ReviewItem) * vdb :=
  if n <=? 0 then (Err InvalidArgument, d) else inTx ctx tenantID d (review_list n tenantID needs_review).

Definition named (name : string) (r : row) : bool :=
  let has k := match json_get (context_text r) k with Some v => ilike_contains v name | None => false end in
  has "low_name" || has "high_name".

Definition SearchPairs (ctx : context) (tenantID name : string) (n : Z) (d : vdb) : result store_failure (list ReviewItem) * vdb :=
  if (n <=? 0) || negb (ValidateSearchName name) then (Err InvalidArgument, d)
  else inTx ctx tenantID d (review_list n tenantID (fun r => Ok (named name r))).

(** ** Projections *)

Definition waiting (now : Time) (r : row) : bool :=
  closed (ru_status (rl r)) && negb (applied r) && match claimed r with Some t => t <=? micro now | None => true end.

(** A decided row as it is projected; [None] lacks what a verdict has. *)
Definition projection (kr : string * row) : option Projection :=
  let '(key, r) := kr in
  let u := rl r in
  c ← ru_confidence u; at_ ← ru_decided u;
  e ← (if bool_decide (ru_type u = DeterminationLLMPanel) then ru_evidence u ≫= read_evidence else Some no_evidence);
  Some (mkProjection key (low r) (high r) (candidate r) (ru_status u) c e at_ (ru_type u) (ru_by u)).

Definition by_decided (a b : string * row) : bool :=
  let t kr := default 0 (ru_decided (rl kr.2)) in (t a <? t b) || ((t a =? t b) && collate a.1 b.1).

Definition Unprojected (ctx : context) (tenantID : string) (n : Z) (now : Time) (d : vdb) : result store_failure (list Projection) * vdb :=
  if n <=? 0 then (Err InvalidArgument, d)
  else
    inTx ctx tenantID d (fun d =>
      match mapM projection (take (Z.to_nat n) (order_by by_decided (List.filter (fun kr => waiting now kr.2) (rows_of tenantID d)))) with
      | None => Err DatabaseError
      | Some out => Ok (out, d)
      end).

(** Whether the row holds the verdict [p]. *)
Definition holds_verdict (p : Projection) (r : row) : bool :=
  bool_decide (ru_type (rl r) = pr_DeterminationType p /\ ru_status (rl r) = pr_Status p /\ ru_decided (rl r) = Some (micro (pr_DecidedAt p))).

Definition ClaimProjection (ctx : context) (tenantID : string) (p : Projection) (until now : Time) (d : vdb) : result store_failure ClaimOutcome * vdb :=
  if negb (After until now) then (Err InvalidArgument, d)
  else
    inTx ctx tenantID d (fun d =>
      let free r := match claimed r with Some t => t <=? micro now | None => true end in
      match update_row tenantID (pr_Key p) (fun r => holds_verdict p r && negb (applied r) && free r) (fun r => set_claimed r (Some (micro until))) d with
      | (Some _, d') => Ok (ClaimAcquired, d')
      | (None, _) =>
          match verdicts d !! (tenantID, pr_Key p) with
          | None => Err PairNotQueued
          | Some r => Ok (if holds_verdict p r then ClaimBusy else ClaimReplaced, d)
          end
      end).

Definition claim_is (until : Time) (r : row) : bool := bool_decide (claimed r = Some (micro until)).

Definition MarkProjected (ctx : context) (tenantID : string) (p : Projection) (claimedUntil : Time) (d : vdb) : result store_failure bool * vdb :=
  inTx ctx tenantID d (fun d =>
    let '(r, d') := update_row tenantID (pr_Key p) (claim_is claimedUntil) (fun r => set_claimed (set_applied r (holds_verdict p r)) None) d in
    Ok (match r with Some r => applied r | None => false end, d')).

Definition ReleaseClaim (ctx : context) (tenantID key : string) (claimedUntil : Time) (d : vdb) : result store_failure unit * vdb :=
  inTx ctx tenantID d (fun d => Ok (tt, (update_row tenantID key (claim_is claimedUntil) (fun r => set_claimed r None) d).2)).

Definition projected_row (tenantID : string) (kr : (string * string) * row) : bool :=
  bool_decide (kr.1.1 = tenantID) && bool_decide (ru_type (rl kr.2) = DeterminationLLMPanel \/ ru_type (rl kr.2) = DeterminationHuman)
  && closed (ru_status (rl kr.2)) && applied kr.2.

Definition ResetProjection (ctx : context) (tenantID : string) (d : vdb) : result store_failure Z * vdb :=
  inTx ctx tenantID d (fun d =>
    Ok (Z.of_nat (length (List.filter (projected_row tenantID) (map_to_list (verdicts d)))),
        set_verdicts d (map_imap (fun k r => Some (if projected_row tenantID (k, r) then set_applied r false else r)) (verdicts d)))).

Definition Counts (ctx : context) (tenantID : string) (now : Time) (d : vdb) : result store_failure QueueCounts * vdb :=
  inTx ctx tenantID d (fun d =>
    let count f := Z.of_nat (length (List.filter (fun kr => f kr.2) (rows_of tenantID d))) in
    Ok (mkCounts (count open_row) (count (fun r => open_row r && due (micro now) r))
          (count (fun r => closed (ru_status (rl r)) && negb (applied r))), d)).

(** ** A pair's details *)

Record PanelDissent := mkDissent {
  pd_Status : string;
  pd_Confidence : float64;
  pd_DeterminedBy : string;
  pd_DecidedAt : Time;
  pd_Evidence : option PanelEvidence;
}.

Record RelatedPair := mkRelated { rp_Ref : string; rp_Status : string; rp_Type : string; rp_LowName : string; rp_HighName : string }.

(** The evidence and the dissent's evidence are [None] where they could not be
    decoded. *)
Record PairDetail := mkDetail {
  dt_Item : ReviewItem;
  dt_DeterminedBy : string;
  dt_DisplayBy : string;
  dt_Confidence : option float64;
  dt_DecidedAt : option Time;
  dt_LastError : string;
  dt_Evidence : option PanelEvidence;
  dt_Dissent : option PanelDissent;
  dt_Disputed : bool;
  dt_Related : list RelatedPair;
  dt_RelatedTotal : Z;
  dt_Expect : string;
}.

(** Decoding a [dissentRecord]: the members of its object; a time is read by
    [timestamptz]'s rules. *)
Definition dissent_record_set (x : string * float64 * string * Time * option tree) (key : string) (t : tree)
  : option (string * float64 * string * Time * option tree) :=
  let '(s, c, b, at_, e) := x in
  if is_field "status" key then (fun v => (v, c, b, at_, e)) <$> into_string s t
  else if is_field "confidence" key then (fun v => (s, v, b, at_, e)) <$> Results.into_float c t
  else if is_field "determined_by" key then (fun v => (s, c, v, at_, e)) <$> into_string b t
  else if is_field "decided_at" key then
    match t with TString v => (fun at_ => (s, c, b, at_, e)) <$> timestamptz v | TNull => Some (s, c, b, at_, e) | _ => None end
  else if is_field "evidence" key then Some (s, c, b, at_, Some t)
  else Some (s, c, b, at_, e).

Definition partial_set (s : string) (key : string) (t : tree) : option string := if is_field "status" key then into_string s t else Some s.

Definition decodeDissent (text : string) : PanelDissent :=
  match (t ← parse_text text; into_struct dissent_record_set ("", fzero, "", 0, None) t) with
  | None => mkDissent (default "" (t ← parse_text text; into_struct partial_set "" t)) fzero "" 0 None
  | Some (s, c, b, at_, e) => mkDissent s c b at_ (t ← e; into_struct evidence_set no_evidence t)
  end.

(** Newest decision first, undecided rows last. *)
Definition by_related (a b : string * row) : bool :=
  match ru_decided (rl a.2), ru_decided (rl b.2) with
  | Some t, Some u => (u <? t) || ((t =? u) && String.ltb a.1 b.1)
  | Some _, None => true
  | None, Some _ => false
  | None, None => String.ltb a.1 b.1
  end.

Definition related_rows (tenantID key : string) (r : row) (d : vdb) : list (string * row) :=
  let shares x := bool_decide (low x = low r \/ low x = high r \/ high x = low r \/ high x = high r) in
  order_by by_related (List.filter (fun kr => negb (bool_decide (kr.1 = key)) && shares kr.2) (rows_of tenantID d)).

Definition related_pair (kr : string * row) : RelatedPair :=
  let name k := default "" (json_get (context_text kr.2) k) in
  mkRelated (PairRef kr.1) (ru_status (rl kr.2)) (ru_type (rl kr.2)) (name "low_name") (name "high_name").

Definition pair_detail (ref : string) (n : Z) (tenantID : string) (d : vdb) : result store_failure (PairDetail * vdb) :=
  match by_ref tenantID ref d with
  | Err e => Err e
  | Ok (key, r) =>
      match disputed r, read_context (context_text r) with
      | Ok dis, Some c =>
          let u := rl r in
          let dd := decodeDissent <$> dissent r in
          let related := related_rows tenantID key r d in
          let shown := take (Z.to_nat n) related in
          Ok (mkDetail (mkItem ref key (ru_status u) (ru_type u) (score r) c (match dd with Some x => pd_Status x | None => "" end)
                          (row_votes r).1 (row_votes r).2)
                (ru_by u) (display_by tenantID r d) (ru_confidence u) (ru_decided u) (default "" (q_error (qu r)))
                (if bool_decide (ru_type u = DeterminationLLMPanel) then ru_evidence u ≫= read_evidence else None) dd dis
                (related_pair <$> shown) (Z.of_nat (length related)) (token (pair_state r)), d)
      | _, _ => Err DatabaseError
      end
  end.

Definition PairDetail_of (ctx : context) (tenantID ref : string) (n : Z) (d : vdb) : result store_failure PairDetail * vdb :=
  if negb (ValidatePairRef ref) || (n <=? 0) then (Err InvalidArgument, d) else inTx ctx tenantID d (pair_detail ref n tenantID).
End store.

(** ** The operations that write *)

Inductive store_op :=
| OpEnqueue (tenantID : string) (cs : list PairCandidate) (now : Time)
| OpLease (locked : gset string) (tenantID : string) (n leaseFor : Z) (now : Time)
| OpDecide (tenantID key : string) (v : Verdict)
| OpDissent (tenantID key : string) (v : Verdict)
| OpFailure (tenantID key : string) (f : Failure)
| OpHuman (tenantID ref : string) (h : HumanVerdict)
| OpClaim (tenantID : string) (p : Projection) (until now : Time)
| OpMark (tenantID : string) (p : Projection) (until : Time)
| OpRelease (tenantID key : string) (until : Time)
| OpReset (tenantID : string).

Definition apply_store `{Postgres} `{Jsonb} (ctx : context) (o : store_op) (d : vdb) : vdb :=
  match o with
  | OpEnqueue t cs now => (Enqueue ctx t cs now d).2
  | OpLease locked t n leaseFor now => (Lease locked ctx t n leaseFor now d).2
  | OpDecide t k v => (Decide ctx t k v d).2
  | OpDissent t k v => (RecordDissent ctx t k v d).2
  | OpFailure t k f => (RecordFailure ctx t k f d).2
  | OpHuman t ref h => (DecideHuman ctx t ref h d).2
  | OpClaim t p until now => (ClaimProjection ctx t p until now d).2
  | OpMark t p until => (MarkProjected ctx t p until d).2
  | OpRelease t k until => (ReleaseClaim ctx t k until d).2
  | OpReset t => (ResetProjection ctx t d).2
  end.
