(* ===== verification/VerdictFacts.v ===== *)
(** What the verdict store keeps ([Verdicts], [Verdictstore]). *)

From stdpp Require Import pretty.
From S2P Require Import Prelude Float64 Floatfmt Gostrings Timefmt Tenant Sha256 Json Jsonread Jobconfig Jobstore Graph Verdicts Verdictstore.
Local Open Scope Z_scope.

(** * Definitions *)

(** What an operation may do to a row. *)
Inductive change (o : store_op) (t k : string) (r : row) : row -> Prop :=
| ch_same : change o t k r r
| ch_requeue c cs now : o = OpEnqueue t cs now -> c ∈ cs -> k = PairKey (LowGroupID c) (HighGroupID c) -> open_row r = true ->
    change o t k r (set_candidate r (CandidateEdgeID c) (SimilarityScore c))
| ch_lease locked n leaseFor now : o = OpLease locked t n leaseFor now -> open_row r = true -> due (micro now) r = true ->
    change o t k r (lease_row (micro (now + leaseFor)) r)
| ch_decide v ev : o = OpDecide t k v -> open_row r = true -> closed (v_Status v) = true \/ v_Status v = VerdictUndecided ->
    change o t k r (decided_row v ev r)
| ch_dissent v x : o = OpDissent t k v -> by_human r = true -> change o t k r (set_dissent r (Some x))
| ch_fail f : o = OpFailure t k f -> open_row r = true -> q_leased (qu r) = Some (micro (f_LeasedUntil f)) -> change o t k r (failed_row f r)
| ch_human ref h x : o = OpHuman t ref h -> closed (h_Status h) = true -> change o t k r (human_row h x r)
| ch_claim p until now : o = OpClaim t p until now -> pr_Key p = k -> now < until -> holds_verdict p r = true -> applied r = false ->
    (forall c, claimed r = Some c -> c <= micro now) -> change o t k r (set_claimed r (Some (micro until)))
| ch_mark p until : o = OpMark t p until -> pr_Key p = k -> claimed r = Some (micro until) ->
    change o t k r (set_claimed (set_applied r (holds_verdict p r)) None)
| ch_release until : o = OpRelease t k until -> claimed r = Some (micro until) -> change o t k r (set_claimed r None)
| ch_reset : o = OpReset t -> applied r = true -> change o t k r (set_applied r false).

(** A row an operation adds. *)
Definition added (o : store_op) (t k : string) (r : row) : Prop :=
  exists c ctxt cs now c', o = OpEnqueue t cs now /\ c ∈ cs /\ c' ∈ cs /\ k = PairKey (LowGroupID c) (HighGroupID c) /\
    k = PairKey (LowGroupID c') (HighGroupID c') /\ String.ltb (LowGroupID c) (HighGroupID c) = true /\ r = set_candidate (new_row c ctxt now) (CandidateEdgeID c') (SimilarityScore c').

(** What an operation may do to the place of a row. *)
Definition evolves (o : store_op) (t k : string) (x y : option row) : Prop :=
  match x, y with
  | Some r, Some r' => change o t k r r'
  | None, Some r' => added o t k r'
  | Some _, None => False
  | None, None => True
  end.

Lemma evolves_same o t k x : evolves o t k x x.
Proof. destruct x; cbn; [constructor|done]. Qed.
#[export] Hint Resolve evolves_same : core.

Section facts.
Context `{Postgres} `{Jsonb}.

(** * Transactions *)

Lemma inTx_ok {A} ctx t d (body : vdb -> result store_failure (A * vdb)) :
  (inTx ctx t d body).2 = d \/ exists a d', inTx ctx t d body = (Ok a, d') /\ body d = Ok (a, d').
Proof.
  unfold inTx. destruct (FromContext ctx) as [t'|]; [|by left]. case_bool_decide; [|by left]. cbn.
  destruct (default _ _); [by left|]. destruct (body d) as [[a d']|] eqn:Hb; [right; eauto|by left].
Qed.

(** From the body of a transaction to what it does to a row. *)
Lemma inTx_evolves {A} o ctx t d (body : vdb -> result store_failure (A * vdb)) t' k :
  (forall a d', body d = Ok (a, d') -> evolves o t' k (verdicts d !! (t', k)) (verdicts d' !! (t', k))) ->
  evolves o t' k (verdicts d !! (t', k)) (verdicts (inTx ctx t d body).2 !! (t', k)).
Proof.
  intros Hb. destruct (inTx_ok ctx t d body) as [->|(a & d' & -> & He)]; [done|]. by eapply Hb.
Qed.

Lemma update_row_evolves o t k cond f d t' k' :
  (forall r, verdicts d !! (t, k) = Some r -> cond r = true -> change o t k r (f r)) ->
  evolves o t' k' (verdicts d !! (t', k')) (verdicts (update_row t k cond f d).2 !! (t', k')).
Proof.
  intros Hc. unfold update_row. destruct (verdicts d !! (t, k)) as [r|] eqn:Hr; [|done]. destruct (cond r) eqn:Hcr; [|done]. cbn.
  destruct (decide ((t', k') = (t, k))) as [[= -> ->]|Hne].
  - rewrite Hr, lookup_insert_eq. cbn. by apply Hc.
  - by rewrite lookup_insert_ne by congruence.
Qed.

Lemma elem_of_rows_of t d k r : (k, r) ∈ rows_of t d <-> verdicts d !! (t, k) = Some r.
Proof.
  unfold rows_of. rewrite list_elem_of_omap. split.
  - intros ([[t' k'] r'] & Hin%elem_of_map_to_list & He). case_bool_decide; [|done]. by simplify_eq.
  - intros Hr. exists ((t, k), r). split; [by apply elem_of_map_to_list|]. by rewrite bool_decide_eq_true_2.
Qed.

Lemma NoDup_rows_of t d : NoDup (rows_of t d).*1.
Proof.
  unfold rows_of. pose proof (NoDup_fst_map_to_list (verdicts d)) as Hn. revert Hn.
  induction (map_to_list (verdicts d)) as [|[[t' k] r] l IH]; cbn; intros Hn; [constructor|]. apply NoDup_cons in Hn as [Hx Hn].
  case_bool_decide; [|by apply IH]. cbn. constructor; [|by apply IH].
  intros ([k' r'] & Hk & Hin)%list_elem_of_fmap. apply list_elem_of_omap in Hin as ([[t2 k2] r2] & Hin & He).
  case_bool_decide as Ht2; [|done]. injection He as -> ->. apply Hx. apply list_elem_of_fmap. exists ((t2, k'), r'). split; [|done].
  cbn in *. congruence.
Qed.

(** ** Enqueueing *)

(** What a fold of candidates does to a row. *)
Definition enqueued (cs : list PairCandidate) (t k : string) (now : Time) (x y : option row) : Prop :=
  match x, y with
  | Some r, Some r' => r' = r \/ (open_row r = true /\ exists c, c ∈ cs /\ k = PairKey (LowGroupID c) (HighGroupID c) /\
      r' = set_candidate r (CandidateEdgeID c) (SimilarityScore c))
  | None, Some r' => exists c ctxt c', c ∈ cs /\ c' ∈ cs /\ k = PairKey (LowGroupID c) (HighGroupID c) /\ k = PairKey (LowGroupID c') (HighGroupID c') /\
      String.ltb (LowGroupID c) (HighGroupID c) = true /\ r' = set_candidate (new_row c ctxt now) (CandidateEdgeID c') (SimilarityScore c')
  | Some _, None => False
  | None, None => True
  end.

Lemma enqueued_trans cs t k now x y z : enqueued cs t k now x y -> enqueued cs t k now y z -> enqueued cs t k now x z.
Proof.
  destruct x as [r|], y as [r1|], z as [r2|]; cbn; try done.
  - intros [->|[Ho (c & Hc & Hk & ->)]]; [done|]. intros [->|[Ho' (c' & Hc' & Hk' & ->)]]; right; (split; [done|]); [by exists c|by exists c'].
  - intros (c & ctxt & c' & Hc & Hc' & Hk & Hk' & Hl & ->) [->|[_ (c2 & Hc2 & Hk2 & ->)]]; [by exists c, ctxt, c'|].
    exists c, ctxt, c2. by split_and!.
Qed.

Lemma enqueued_weaken cs cs' t k now x y : cs ⊆ cs' -> enqueued cs t k now x y -> enqueued cs' t k now x y.
Proof.
  intros Hs. destruct x, y; cbn; try done.
  - intros [->|[Ho (c & Hc & ?)]]; [by left|right]. split; [done|]. exists c. split; [by apply Hs|done].
  - intros (c & ctxt & c' & Hc & Hc' & Hr). exists c, ctxt, c'. split; [by apply Hs|]. split; [by apply Hs|done].
Qed.

Lemma enqueue_row_spec t now c d d' t' k :
  enqueue_row t now c d = Some d' ->
  (t' = t -> enqueued [c] t k now (verdicts d !! (t, k)) (verdicts d' !! (t, k))) /\ (t' <> t -> verdicts d' !! (t', k) = verdicts d !! (t', k)).
Proof.
  unfold enqueue_row. destruct (jsonb _) as [ctxt|]; [|done]. cbn. destruct (String.ltb _ _) eqn:Hl; [|done]. cbn.
  set (key := PairKey (LowGroupID c) (HighGroupID c)). destruct (verdicts d !! (t, key)) as [r|] eqn:Hr.
  - destruct (open_row r) eqn:Ho; intros [= <-]; cbn.
    + split; [intros _|intros; by rewrite lookup_insert_ne by congruence]. destruct (decide (k = key)) as [->|].
      * rewrite Hr, lookup_insert_eq. cbn. right. split; [done|]. exists c. split; [constructor|done].
      * rewrite lookup_insert_ne by congruence. destruct (verdicts d !! (t, k)); cbn; eauto.
    + split; [intros _|done]. destruct (verdicts d !! (t, k)); cbn; eauto.
  - case_bool_decide; [|done]. intros [= <-]. cbn. split; [intros _|intros; by rewrite lookup_insert_ne by congruence].
    destruct (decide (k = key)) as [->|].
    + rewrite Hr, lookup_insert_eq. cbn. exists c, ctxt, c. split_and!; [constructor|constructor|done..].
    + rewrite lookup_insert_ne by congruence. destruct (verdicts d !! (t, k)); cbn; eauto.
Qed.

Lemma enqueued_refl cs t k now x : enqueued cs t k now x x.
Proof. destruct x; cbn; eauto. Qed.

(** A fold of partial steps, each of which keeps [P]. *)
Lemma foldl_option {A} (P : vdb -> vdb -> Prop) (f : A -> vdb -> option vdb) (l : list A) d d' :
  (forall d, P d d) -> (forall d1 d2 d3, P d1 d2 -> P d2 d3 -> P d1 d3) -> (forall a d d', a ∈ l -> f a d = Some d' -> P d d') ->
  foldl (fun d a => d ← d; f a d) (Some d) l = Some d' -> P d d'.
Proof.
  intros Hr Ht. revert d. induction l as [|a l IH]; cbn; intros d Hf; [by intros [= <-]|].
  destruct (f a d) as [d1|] eqn:Hd.
  - intros Hl. eapply Ht; [apply (Hf a); [set_solver|exact Hd]|]. apply IH; [|exact Hl]. intros b d2 d3 Hb. apply Hf. set_solver.
  - intros Hl. exfalso. revert Hl. clear. induction l; cbn; [done|auto].
Qed.

Definition only_tenant (cs : list PairCandidate) (t : string) (now : Time) (d d' : vdb) : Prop :=
  forall t' k, (t' = t -> enqueued cs t k now (verdicts d !! (t, k)) (verdicts d' !! (t, k))) /\ (t' <> t -> verdicts d' !! (t', k) = verdicts d !! (t', k)).

Lemma only_tenant_refl cs t now d : only_tenant cs t now d d.
Proof. intros t' k. split; [intros _; apply enqueued_refl|done]. Qed.
Lemma only_tenant_trans cs t now d1 d2 d3 : only_tenant cs t now d1 d2 -> only_tenant cs t now d2 d3 -> only_tenant cs t now d1 d3.
Proof.
  intros H1 H2 t' k. destruct (H1 t' k) as [A B], (H2 t' k) as [A' B']. split; [intros E; eapply enqueued_trans; auto|].
  intros Hne. by rewrite B', B.
Qed.

Lemma enqueue_chunk_spec t now chunk d d' : enqueue_chunk t now chunk d = Some d' -> only_tenant chunk t now d d'.
Proof.
  unfold enqueue_chunk. case_bool_decide; [|done]. apply foldl_option; [apply only_tenant_refl|apply only_tenant_trans|].
  intros c d1 d2 Hc He t' k. destruct (enqueue_row_spec t now c d1 d2 t' k He) as [A B]. split; [|done].
  intros Ht. eapply enqueued_weaken; [|by apply A]. set_solver.
Qed.

Lemma chunks_elem {A} fuel n (l : list A) x ch : ch ∈ chunks fuel n l -> x ∈ ch -> x ∈ l.
Proof.
  revert l. induction fuel as [|fuel IH]; intros l; cbn; [set_solver|]. destruct l as [|y l]; [set_solver|].
  intros [->|Hc]%elem_of_cons Hx.
  - eapply subseteq_take; exact Hx.
  - eapply subseteq_drop. by eapply IH.
Qed.

Lemma Enqueue_evolves ctx t cs now d t' k :
  evolves (OpEnqueue t cs now) t' k (verdicts d !! (t', k)) (verdicts (Enqueue ctx t cs now d).2 !! (t', k)).
Proof.
  unfold Enqueue. case_bool_decide; [done|]. apply inTx_evolves. intros a d'.
  destruct (foldl _ _ _) as [d1|] eqn:Hf; [|done]. intros [= _ <-].
  assert (only_tenant cs t now d d1) as Ho.
  { revert Hf. apply foldl_option; [apply only_tenant_refl|apply only_tenant_trans|].
    intros ch d2 d3 Hch He t2 k2. destruct (enqueue_chunk_spec _ _ _ _ _ He t2 k2) as [A B]. split; [|done].
    intros Ht. eapply enqueued_weaken; [|by apply A]. intros x Hx. by eapply chunks_elem. }
  destruct (decide (t' = t)) as [->|Hne]; [|by rewrite (proj2 (Ho t' k) Hne)].
  pose proof (proj1 (Ho t k) eq_refl) as He. destruct (verdicts d !! (t, k)), (verdicts d1 !! (t, k)); cbn in *; try done.
  - destruct He as [->|[Hop (c & Hc & Hk & ->)]]; [constructor|by eapply ch_requeue].
  - destruct He as (c & ctxt & c' & Hc & Hc' & Hk & Hk' & Hl & ->). by exists c, ctxt, cs, now, c'.
Qed.

(** ** Leasing *)

Lemma lease_fold (t : string) (until : Time) (found : list (string * row)) (m : gmap (string * string) row) (k : string) :
  NoDup found.*1 ->
  foldr (fun kr m => <[(t, kr.1) := lease_row until kr.2]> m) m found !! (t, k) =
    match list_find (fun kr => kr.1 = k) found with Some (_, kr) => Some (lease_row until kr.2) | None => m !! (t, k) end.
Proof.
  induction found as [|[k' r] found IH]; cbn; intros Hn; [done|]. apply NoDup_cons in Hn as [_ Hn].
  destruct (decide (k' = k)) as [->|Hne]; [by rewrite lookup_insert_eq|]. rewrite lookup_insert_ne, IH by congruence.
  by destruct (list_find _ found) as [[]|].
Qed.

Lemma lease_fold_other (t : string) (until : Time) (found : list (string * row)) (m : gmap (string * string) row) (t' k : string) :
  t' <> t -> foldr (fun kr m => <[(t, kr.1) := lease_row until kr.2]> m) m found !! (t', k) = m !! (t', k).
Proof. intros Hne. induction found as [|kr found IH]; cbn; [done|]. by rewrite lookup_insert_ne by congruence. Qed.

(** The rows a lease takes. *)
Definition leasable (locked : gset string) (now : Time) (kr : string * row) : bool :=
  open_row kr.2 && due (micro now) kr.2 && negb (bool_decide (kr.1 ∈ locked)).
Definition lease_found (locked : gset string) (t : string) (n now : Z) (d : vdb) : list (string * row) :=
  take (Z.to_nat n) (order_by by_next (List.filter (leasable locked now) (rows_of t d))).

Lemma NoDup_List_filter_fst {A B} (f : A * B -> bool) (l : list (A * B)) : NoDup l.*1 -> NoDup (List.filter f l).*1.
Proof.
  induction l as [|x l IH]; cbn; [done|]. intros [Hx Hn]%NoDup_cons. destruct (f x); cbn; [|by apply IH].
  constructor; [|by apply IH]. intros (y & Hxy & Hy)%list_elem_of_fmap. apply Hx. apply list_elem_of_fmap. exists y. split; [done|].
  apply list_elem_of_In in Hy. apply list_elem_of_In. by apply List.filter_In in Hy as [? _].
Qed.

Lemma lease_found_NoDup locked t n now d : NoDup (lease_found locked t n now d).*1.
Proof.
  unfold lease_found. rewrite fmap_take. eapply sublist_NoDup; [|apply sublist_take].
  rewrite (order_by_perm by_next). apply NoDup_List_filter_fst, NoDup_rows_of.
Qed.

Lemma lease_found_elem locked t n now d k r :
  (k, r) ∈ lease_found locked t n now d -> verdicts d !! (t, k) = Some r /\ open_row r = true /\ due (micro now) r = true.
Proof.
  unfold lease_found. intros Hin. assert ((k, r) ∈ order_by by_next (List.filter (leasable locked now) (rows_of t d))) as Hin'.
  { eapply subseteq_take; exact Hin. }
  rewrite order_by_perm in Hin'. apply list_elem_of_In, List.filter_In in Hin' as [Hr Hl]. apply list_elem_of_In, elem_of_rows_of in Hr.
  unfold leasable in Hl. cbn in Hl. apply andb_true_iff in Hl as [Hl _]. apply andb_true_iff in Hl as [? ?]. done.
Qed.

Lemma Lease_evolves locked ctx t n leaseFor now d t' k :
  evolves (OpLease locked t n leaseFor now) t' k (verdicts d !! (t', k)) (verdicts (Lease locked ctx t n leaseFor now d).2 !! (t', k)).
Proof.
  unfold Lease. destruct (_ || _); [done|]. apply inTx_evolves. intros a d'. fold (leasable locked now). fold (lease_found locked t n now d).
  destruct (mapM _ _); [|done]. intros [= _ <-]. cbn. destruct (decide (t' = t)) as [->|Hne]; [|by rewrite lease_fold_other].
  rewrite lease_fold by apply lease_found_NoDup. destruct (list_find _ _) as [[i [k' r]]|] eqn:Hf; [|done].
  apply list_find_Some in Hf as (Hi & Hk & _). cbn in Hk. subst k'. apply list_elem_of_lookup_2, lease_found_elem in Hi as (Hr & Ho & Hd).
  rewrite Hr. cbn. by eapply ch_lease.
Qed.

(** ** Every operation *)

Lemma free_claim (c : option Time) (t : Time) :
  (match c with Some x => x <=? t | None => true end) = true -> forall x, c = Some x -> x <= t.
Proof. destruct c; cbn; [|done]. intros ?%Z.leb_le ? [= <-]. done. Qed.

Lemma apply_store_evolves ctx o d t k : evolves o t k (verdicts d !! (t, k)) (verdicts (apply_store ctx o d) !! (t, k)).
Proof.
  destruct o as [t0 cs now|locked t0 n leaseFor now|t0 k0 v|t0 k0 v|t0 k0 f|t0 ref h|t0 p until now|t0 p until|t0 k0 until|t0]; cbn [apply_store].
  - apply Enqueue_evolves.
  - apply Lease_evolves.
  - unfold Decide. destruct (negb _) eqn:Hs; [done|]. apply negb_false_iff, orb_true_iff in Hs. apply inTx_evolves. intros a d'.
    destruct (jsonb _) as [ev|]; [|done]. destruct (update_row _ _ _ _ _) as [[r|] d1] eqn:Hu.
    + intros [= _ <-]. replace d1 with (update_row t0 k0 open_row (decided_row v ev) d).2 by by rewrite Hu.
      apply update_row_evolves. intros r0 _ Ho. eapply ch_decide; [done|done|].
      destruct Hs as [Hs|Hs]; [by left|right; by apply bool_decide_eq_true in Hs].
    + destruct (verdicts d !! (t0, k0)); [|done]. by intros [= _ <-].
  - unfold RecordDissent. destruct (dissent_json _ _ _ _ _) as [text|]; [|done]. apply inTx_evolves. intros a d'.
    destruct (jsonb text) as [x|]; [|done]. intros [= _ <-]. apply update_row_evolves. intros r _ Hh. by eapply ch_dissent.
  - apply inTx_evolves. intros a d' [= _ <-]. apply update_row_evolves. intros r _ [Ho Hl]%andb_true_iff.
    eapply ch_fail; [done|done|]. by apply bool_decide_eq_true in Hl.
  - unfold DecideHuman. destruct (validateHumanVerdict ref h) eqn:Hv; [|done]. cbn [negb]. apply inTx_evolves. intros a d'.
    destruct (require_active_reviewer _ _ _); [|done]. destruct (by_ref _ _ _) as [[key r]|]; [|done]. destruct (disputed r) as [dis|]; [|done].
    destruct (_ && _); [done|]. destruct (_ && _); [by intros [= _ <-]|]. destruct (overridden r) as [x|]; [|done].
    intros [= _ <-]. apply update_row_evolves. intros r' _ _. eapply ch_human; [done|].
    unfold validateHumanVerdict in Hv. by repeat (apply andb_true_iff in Hv as [Hv _]).
  - unfold ClaimProjection. destruct (After until now) eqn:Hun; [|done]. apply Z.ltb_lt in Hun. cbn [negb]. apply inTx_evolves. intros a d'.
    destruct (update_row _ _ _ _ _) as [[r|] d1] eqn:Hu.
    + intros [= _ <-]. apply (f_equal snd) in Hu. cbn in Hu. rewrite <- Hu. apply update_row_evolves. intros r0 _ Hc.
      apply andb_true_iff in Hc as [Hc Hf]. apply andb_true_iff in Hc as [Hh Ha]. apply negb_true_iff in Ha.
      eapply ch_claim; [done..|]. by apply free_claim.
    + destruct (verdicts d !! (t0, pr_Key p)); [|done]. by intros [= _ <-].
  - apply inTx_evolves. intros a d'. destruct (update_row _ _ _ _ _) as [r d1] eqn:Hu. intros [= _ <-].
    apply (f_equal snd) in Hu. cbn in Hu. rewrite <- Hu. apply update_row_evolves. intros r0 _ Hc%bool_decide_eq_true. by eapply ch_mark.
  - apply inTx_evolves. intros a d' [= _ <-]. apply update_row_evolves. intros r _ Hc%bool_decide_eq_true. by eapply ch_release.
  - apply inTx_evolves. intros a d' [= _ <-]. cbn. rewrite map_lookup_imap. destruct (verdicts d !! (t, k)) as [r|]; [|done]. cbn.
    destruct (projected_row t0 ((t, k), r)) eqn:Hp; [|constructor]. unfold projected_row in Hp. cbn in Hp.
    apply andb_true_iff in Hp as [Hp Ha]. apply andb_true_iff in Hp as [Hp _]. apply andb_true_iff in Hp as [Ht%bool_decide_eq_true _]. subst t0.
    by apply ch_reset.
Qed.

(** Operations of callers, each with its context. *)
Definition apply_all (os : list (context * store_op)) (d : vdb) : vdb := foldl (fun d co => apply_store co.1 co.2 d) d os.

Lemma apply_all_snoc os co d : apply_all (os ++ [co]) d = apply_store co.1 co.2 (apply_all os d).
Proof. unfold apply_all. by rewrite foldl_app. Qed.

(** What holds of every row, and is kept by every change. *)
Lemma apply_all_rows (P : row -> Prop) os d :
  (forall o t k r r', P r -> change o t k r r' -> P r') -> (forall o t k r, added o t k r -> P r) ->
  (forall t k r, verdicts d !! (t, k) = Some r -> P r) -> forall t k r, verdicts (apply_all os d) !! (t, k) = Some r -> P r.
Proof.
  intros Hc Ha Hd. induction os as [|co os IH] using rev_ind; [done|]. intros t k r. rewrite apply_all_snoc. intros Hr.
  pose proof (apply_store_evolves co.1 co.2 (apply_all os d) t k) as He. rewrite Hr in He.
  destruct (verdicts (apply_all os d) !! (t, k)) as [r0|] eqn:Hr0; cbn in He; eauto.
Qed.

(** What holds of one row, under operations that [Q]. *)
Lemma apply_all_row (Q : store_op -> Prop) (P : row -> Prop) os d t k r :
  (forall o r r', Q o -> P r -> change o t k r r' -> P r') -> Forall (fun co => Q co.2) os -> verdicts d !! (t, k) = Some r -> P r ->
  exists r', verdicts (apply_all os d) !! (t, k) = Some r' /\ P r'.
Proof.
  intros Hc Hq Hr Hp. induction os as [|co os IH] using rev_ind; [by exists r|]. apply Forall_app in Hq as [Hq [Hq0 _]%Forall_cons].
  destruct (IH Hq) as (r1 & Hr1 & Hp1). rewrite apply_all_snoc.
  pose proof (apply_store_evolves co.1 co.2 (apply_all os d) t k) as He. rewrite Hr1 in He.
  destruct (verdicts (apply_store _ _ _) !! (t, k)) as [r2|]; [|done]. exists r2. split; [done|]. by eapply Hc.
Qed.

(** ** Rows are well formed *)

(** The columns of a verdict, by who determined it. *)
Inductive ruling_ok : ruling -> Prop :=
| ok_pending : ruling_ok (mkRuling VerdictPending DeterminationTokenOverlap reconcilerName None None None)
| ok_abandoned t : ruling_ok (mkRuling VerdictAbandoned DeterminationTokenOverlap reconcilerName None None (Some t))
| ok_panel s c ev t : closed s = true \/ s = VerdictUndecided ->
    ruling_ok (mkRuling s DeterminationLLMPanel adjudicatorName (Some c) (Some ev) (Some t))
| ok_human s who t : closed s = true -> ruling_ok (mkRuling s DeterminationHuman who (Some fone) None (Some t)).

Record row_wf (r : row) : Prop := {
  rw_order : String.ltb (low r) (high r) = true;
  rw_ruling : ruling_ok (rl r);
  rw_open : open_row r = true -> applied r = false /\ claimed r = None;
  rw_applied : applied r = true -> claimed r = None;
  rw_leased : is_Some (q_leased (qu r)) -> open_row r = true;
}.

Lemma closed_not_pending s : closed s = true -> s <> VerdictPending.
Proof. intros Hc ->. done. Qed.

Lemma ruling_open r : ruling_ok (rl r) -> open_row r = true -> rl r = mkRuling VerdictPending DeterminationTokenOverlap reconcilerName None None None.
Proof.
  intros Hr. unfold open_row, by_human. destruct Hr as [|t|s c ev t [Hs|Hs]|s who t Hs]; cbn;
    intros [Ho%bool_decide_eq_true _]%andb_true_iff; try discriminate Ho; subst; done.
Qed.

Lemma change_wf o t k r r' : row_wf r -> change o t k r r' -> row_wf r'.
Proof.
  intros [Ho Hr Hop Hap Hl] Hc. destruct Hc as [|c cs now|locked n leaseFor now|v ev _ Hopen Hs|v x|f _ Hopen Hq|ref h x _ Hs|p until now _ _ _ Hh Hna Hcl|
    p until _ _ Hcl|until _ Hcl|_ Ha]; try (by split).
  - destruct (Hop Hopen) as [_ Hc]. split; cbn; [done|by constructor|done|done|by intros [? ?]].
  - pose proof (ruling_open r Hr Hopen) as Hrl. destruct (Hop Hopen) as [Ha Hc]. split; cbn.
    + done.
    + rewrite Hrl. cbn. destruct (f_Abandon f); constructor.
    + intros _. split; [done|done].
    + done.
    + by intros [? ?].
  - split; cbn; [done|by constructor| |done|by intros [? ?]]. intros Hopen. unfold open_row, by_human in Hopen. cbn in Hopen.
    by rewrite andb_false_r in Hopen.
  - split; cbn; [done|done| |by rewrite Hna|done]. intros Hopen. pose proof (ruling_open r Hr Hopen) as Hrl.
    apply bool_decide_eq_true in Hh as (_ & _ & Hd). rewrite Hrl in Hd. done.
  - split; cbn; [done|done| |done|done]. intros Hopen. destruct (Hop Hopen). congruence.
  - split; cbn; [done|done| |done|done]. intros Hopen. destruct (Hop Hopen). congruence.
  - split; cbn; [done|done| |done|done]. intros Hopen. destruct (Hop Hopen). congruence.
Qed.

Lemma added_wf o t k r : added o t k r -> row_wf r.
Proof.
  intros (c & ctxt & cs & now & c' & _ & _ & _ & _ & _ & Hl & ->). split; cbn; [done|constructor|done|done|by intros [? ?]].
Qed.

(** C39. Rows are well formed, whatever the callers do: the status, the
    determination type, the confidence, the evidence and the decision time fit
    together in one of four ways, the group IDs are in order, an open row is
    neither projected nor claimed, a projected row is not claimed, and only an
    open row is leased. So a projection pass never meets a decided row that
    lacks its columns: what it cannot read is evidence that does not decode. *)
Theorem verdict_rows_well_formed os d :
  (forall t k r, verdicts d !! (t, k) = Some r -> row_wf r) ->
  (forall t k r, verdicts (apply_all os d) !! (t, k) = Some r -> row_wf r) /\
  (forall t k r now, verdicts (apply_all os d) !! (t, k) = Some r -> waiting now r = true -> projection (k, r) = None ->
     exists text, ru_evidence (rl r) = Some text /\ read_evidence text = None).
Proof.
  intros Hd. assert (forall t k r, verdicts (apply_all os d) !! (t, k) = Some r -> row_wf r) as Hw.
  { apply apply_all_rows; [intros; by eapply change_wf|intros; by eapply added_wf|done]. }
  split; [done|]. intros t k r now Hr Hwait Hp. unfold waiting in Hwait. apply andb_true_iff in Hwait as [Hwait _].
  apply andb_true_iff in Hwait as [Hcl _]. pose proof (rw_ruling _ (Hw _ _ _ Hr)) as Hok. unfold projection in Hp.
  destruct Hok as [|u|s c ev u Hs|s who u Hs]; cbn [ru_status ru_type ru_evidence ru_confidence ru_decided mbind option_bind] in *.
  - discriminate Hcl.
  - discriminate Hcl.
  - exists ev. split; [done|]. rewrite bool_decide_eq_true_2 in Hp by done. by destruct (read_evidence ev).
  - discriminate Hp.
Qed.

(** * Authority *)

Definition is_human_op (o : store_op) : Prop := match o with OpHuman _ _ _ => True | _ => False end.

(** C37. Only people change a verdict. Whatever the reconciler, the panels and
    the projection passes do, in any order, a row that a person decided keeps
    its verdict, its candidate edge and its score, and so does a row a panel
    decided or abandoned; and whatever people do too, a person's verdict is
    only ever replaced by a person's. *)
Theorem verdicts_have_authority os d t k r :
  verdicts d !! (t, k) = Some r -> row_wf r ->
  (Forall (fun co => ~ is_human_op co.2) os -> open_row r = false ->
   exists r', verdicts (apply_all os d) !! (t, k) = Some r' /\ rl r' = rl r /\ candidate r' = candidate r /\ score r' = score r /\ qu r' = qu r) /\
   (by_human r = true -> exists r', verdicts (apply_all os d) !! (t, k) = Some r' /\ by_human r' = true /\ low r' = low r /\ high r' = high r).
Proof.
  intros Hr Hw. split.
  - intros Hos Ho. destruct (apply_all_row (fun o => ~ is_human_op o)
      (fun r' => open_row r' = false /\ rl r' = rl r /\ candidate r' = candidate r /\ score r' = score r /\ qu r' = qu r) os d t k r)
      as (r' & Hr' & _ & Hp); [|done|done|done|by exists r'].
    intros o r1 r2 Hq (Ho1 & Hrl & Hp) Hc. destruct Hc; subst; try congruence; try done; by destruct Hq.
  - intros Hh. destruct (apply_all_row (fun _ => True) (fun r' => by_human r' = true /\ low r' = low r /\ high r' = high r) os d t k r)
      as (r' & Hr' & Hp); [|by apply Forall_true|done|done|by exists r'].
    intros o r1 r2 _ (Hh1 & Hl & Hi) Hc. assert (open_row r1 = false) as Hn by (unfold open_row; by rewrite Hh1, andb_false_r).
    destruct Hc; subst; try congruence; done.
Qed.

(** * Leases *)

Lemma lease_answer locked ctx t n leaseFor now d out d' p :
  Lease locked ctx t n leaseFor now d = (Ok out, d') -> p ∈ out ->
  exists r, verdicts d !! (t, lp_Key p) = Some r /\ open_row r = true /\ due (micro now) r = true /\
   verdicts d' !! (t, lp_Key p) = Some (lease_row (lp_LeasedUntil p) r) /\ lp_LeasedUntil p = micro (now + leaseFor) /\
   lp_Attempts p = q_attempts (qu r) /\ CandidateEdgeID (lp_Candidate p) = candidate r.
Proof.
  unfold Lease. destruct (_ || _); [done|]. unfold inTx. destruct (FromContext ctx) as [t'|]; [|done]. case_bool_decide; [|done]. cbn [negb].
  destruct (default _ _); [done|]. fold (leasable locked now). fold (lease_found locked t n now d).
  destruct (mapM _ _) as [out'|] eqn:Hm; [|done]. intros [= <- <-] Hp. apply mapM_Some in Hm.
  apply list_elem_of_lookup in Hp as [i Hi]. destruct (Forall2_lookup_r _ _ _ _ _ Hm Hi) as ([k r] & Hk & Hp).
  pose proof (list_elem_of_lookup_2 _ _ _ Hk) as Hin. apply lease_found_elem in Hin as (Hr & Ho & Hd).
  unfold leased_pair in Hp. cbn [fst snd mbind option_bind] in Hp. destruct (read_context (context_text r)); [|done]. injection Hp as <-. cbn. exists r. split_and!; try done.
  rewrite lease_fold by apply lease_found_NoDup.
  destruct (list_find (fun kr => kr.1 = k) (lease_found locked t n now d)) as [[j [k' r']]|] eqn:Hf.
  - apply list_find_Some in Hf as (Hj & Hk' & _). cbn in Hk'. subst k'. apply list_elem_of_lookup_2, lease_found_elem in Hj as (Hr' & _).
    cbn. congruence.
  - apply list_find_None in Hf. rewrite Forall_forall in Hf. by destruct (Hf (k, r) (list_elem_of_lookup_2 _ _ _ Hk)).
Qed.

(** What may happen while [p] is leased until [u] without ending the lease: no
    failure is recorded under it, and no one leases at a later time. *)
Definition within_lease (t : string) (p : LeasedPair) (o : store_op) : Prop :=
  match o with
  | OpLease _ _ _ _ now => now <= lp_LeasedUntil p
  | OpFailure t' k f => t' = t -> k = lp_Key p -> micro (f_LeasedUntil f) <> lp_LeasedUntil p
  | _ => True
  end.

Lemma micro_le t : micro t <= t.
Proof. unfold micro. pose proof (Z.mod_pos_bound t 1000). lia. Qed.

(** C40. A lease excludes: once a pair is leased until a time, no Lease made up
    to that time hands it out again, whatever else is done to the store,
    unless a failure is recorded under that lease. *)
Theorem leases_exclude locked ctx t n leaseFor now d out d1 p os locked2 ctx2 n2 leaseFor2 now2 out2 d2 p2 :
  Lease locked ctx t n leaseFor now d = (Ok out, d1) -> p ∈ out ->
  Forall (fun co => within_lease t p co.2) os -> now2 <= lp_LeasedUntil p ->
  Lease locked2 ctx2 t n2 leaseFor2 now2 (apply_all os d1) = (Ok out2, d2) -> p2 ∈ out2 -> lp_Key p2 <> lp_Key p.
Proof.
  intros Hl Hp Hos Hn Hl2 Hp2 Hk. destruct (lease_answer _ _ _ _ _ _ _ _ _ _ Hl Hp) as (r & Hr & Ho & Hd & Hr1 & _).
  destruct (lease_answer _ _ _ _ _ _ _ _ _ _ Hl2 Hp2) as (r2 & Hr2 & Ho2 & Hd2 & _). rewrite Hk in Hr2.
  destruct (apply_all_row (within_lease t p) (fun r => open_row r = true -> q_leased (qu r) = Some (lp_LeasedUntil p)) os d1 t (lp_Key p) (lease_row (lp_LeasedUntil p) r))
    as (r' & Hr' & Hq); [|done|done|done|].
  - intros o ra rb Hw Ha Hc Hob.
    destruct Hc as [|c cs nw _ _ Hop|lk m lf nw -> Hop Hdue|v ev _ Hop [Hs|Hs]|v x _ Hh|f -> Hop Hq|ref h x _ Hs|pj un nw _ _ _ _ _ _|pj un _ _ _|un _ _|_ _];
      cbn in Hob |- *; auto.
    + exfalso. specialize (Ha Hop). unfold due in Hdue. rewrite Ha in Hdue. apply andb_true_iff in Hdue as [_ Hlt%Z.ltb_lt].
      cbn in Hw. pose proof (micro_le nw). lia.
    + unfold open_row in Hob. cbn in Hob. apply andb_true_iff in Hob as [Hob%bool_decide_eq_true _]. by rewrite Hob in Hs.
    + unfold open_row in Hob. cbn in Hob. apply andb_true_iff in Hob as [Hob%bool_decide_eq_true _]. by rewrite Hob in Hs.
    + destruct (Hw eq_refl eq_refl). rewrite (Ha Hop) in Hq. congruence.
    + unfold open_row, by_human in Hob. cbn in Hob. by rewrite andb_false_r in Hob.
  - assert (r' = r2) as -> by congruence. specialize (Hq Ho2). unfold due in Hd2. rewrite Hq in Hd2.
    apply andb_true_iff in Hd2 as [_ Hlt%Z.ltb_lt]. pose proof (micro_le now2). lia.
Qed.

(** * Decisions of people *)

Lemma field_unique f g x y : field_text f ++ x = field_text g ++ y -> f = g /\ x = y.
Proof.
  destruct f as [f|], g as [g|]; unfold field_text.
  - rewrite <- !app_assoc. cbn [app]. intros [Hn Heq]%Itoa_unique; [|done|done]. injection Heq as Heq. apply app_inj_1 in Heq as [Heq Ht]; [|lia].
    apply list_ascii_inj in Heq. injection Ht as ->. by subst.
  - rewrite <- !app_assoc. cbn [app]. intros [Hn Heq]%(span_unique number_char _ ["-"%char] _ (";"%char :: y)); [|apply Itoa_chars|by repeat constructor|done|done].
    discriminate Heq.
  - rewrite <- !app_assoc. cbn [app]. intros [Hn Heq]%(span_unique number_char ["-"%char] _ (";"%char :: x)); [|by repeat constructor|apply Itoa_chars|done|done].
    discriminate Heq.
  - by intros [= ->].
Qed.

Lemma fields_text_inj fs gs : length fs = length gs -> fs ≫= field_text = gs ≫= field_text -> fs = gs.
Proof.
  revert gs. induction fs as [|f fs IH]; intros [|g gs]; cbn; try done. intros [= Hl] [-> Heq]%field_unique. f_equal. by apply IH.
Qed.

Lemma token_text_fields p q : token_text p = token_text q -> token_fields p = token_fields q.
Proof.
  unfold token_text. intros Heq. apply fields_text_inj; [done|]. by apply string_of_inj in Heq.
Qed.

Lemma by_ref_row t ref d key r : by_ref t ref d = Ok (key, r) -> verdicts d !! (t, key) = Some r /\ PairRef key = ref.
Proof.
  unfold by_ref. destruct (List.filter _ _) as [|[k' r'] [|]] eqn:Hf; try done. intros [= -> ->].
  assert ((key, r) ∈ List.filter (fun kr => bool_decide (PairRef kr.1 = ref)) (rows_of t d)) as Hin by (rewrite Hf; constructor).
  apply list_elem_of_In, List.filter_In in Hin as [Hin Hp%bool_decide_eq_true]. by apply list_elem_of_In, elem_of_rows_of in Hin.
Qed.

Lemma inTx_Ok {A} ctx t d (body : vdb -> result store_failure (A * vdb)) a d' :
  inTx ctx t d body = (Ok a, d') -> FromContext ctx = Ok t /\ body d = Ok (a, d').
Proof.
  unfold inTx. destruct (FromContext ctx) as [t'|]; [|done]. case_bool_decide as Ht; [|done]. cbn. destruct (default _ _); [done|].
  destruct (body d) as [[a' d'']|]; [|done]. intros [= -> ->]. by subst.
Qed.

(** C38. A person decides on what they were shown. A human verdict names one
    pair of the caller's tenant by its reference; it leaves the store as it is
    only where a person already gave the pair that verdict; and where it
    changes the pair, the columns the token covers are those of any page that
    carried the token the verdict came with, or two texts were found with the
    same cut SHA-256. The verdict it stores is projected anew. *)
Theorem people_decide_on_what_they_saw ctx t ref h d dec d' :
  DecideHuman ctx t ref h d = (Ok dec, d') ->
  exists key r, verdicts d !! (t, key) = Some r /\ PairRef key = ref /\ hd_Key dec = key /\ FromContext ctx = Ok t /\
    (hd_Outcome dec = HumanUnchanged -> d' = d /\ by_human r = true /\ ru_status (rl r) = h_Status h) /\
    (hd_Outcome dec <> HumanUnchanged ->
       (exists x, verdicts d' = <[(t, key) := human_row h x r]> (verdicts d)) /\
       forall shown, token shown = h_Expect h ->
         token_fields shown = token_fields (pair_state r) \/
         (token_text shown <> token_text (pair_state r) /\ token shown = token (pair_state r))).
Proof.
  unfold DecideHuman. destruct (validateHumanVerdict ref h); [|done]. cbn [negb]. intros [Hctx Hb]%inTx_Ok.
  destruct (require_active_reviewer _ _ _); [|done]. destruct (by_ref t ref d) as [[key r]|] eqn:Hr; [|done].
  apply by_ref_row in Hr as [Hr Href]. destruct (disputed r) as [dis|]; [|done].
  destruct (by_human r && bool_decide (ru_status (rl r) = h_Status h)) eqn:Hsame; cbn [andb] in Hb.
  - apply andb_true_iff in Hsame as [Hh Hs%bool_decide_eq_true]. destruct dis; cbn [negb andb] in Hb.
    + case_bool_decide as Ht; [|done]. cbn [negb andb] in Hb. destruct (overridden r) as [x|]; [|done]. injection Hb as <- <-.
      exists key, r. split_and!; [done..|]. intros _. split; [exists x; unfold update_row; by rewrite Hr|].
      intros p Hp. destruct (decide (token_text p = token_text (pair_state r))); [left; by apply token_text_fields|right; split; [done|by rewrite Hp]].
    + injection Hb as <- <-. by exists key, r.
  - cbn [negb andb] in Hb. case_bool_decide as Ht; [|done]. cbn [negb] in Hb. destruct (overridden r) as [x|]; [|done]. injection Hb as <- <-.
    exists key, r. split_and!; [done..|]. intros _. split; [exists x; unfold update_row; by rewrite Hr|].
    intros p Hp. destruct (decide (token_text p = token_text (pair_state r))); [left; by apply token_text_fields|right; split; [done|by rewrite Hp]].
Qed.
End facts.

(** * A store for examples *)

Module VerdictSample.
#[local] Instance sample_postgres : Postgres := plain_postgres.
#[local] Instance sample_jsonb : Jsonb := {|
  json_get _ _ := None; json_time _ := Some "0001-01-01T00:00:00Z"; timestamptz _ := None; ilike_contains _ _ := true |}.

Definition acme : context := example_ctx "acme".
Definition ada : string := "ada@acme.example".
Definition open_pair : row :=
  mkRow "g1" "g2" "e1" fone "{}" (mkRuling VerdictPending DeterminationTokenOverlap reconcilerName None None None) None false
    (mkQueued 0 0 None None) None 0.
Definition decided_pair : row :=
  mkRow "g1" "g3" "e2" fone "{}" (mkRuling VerdictConfirmed DeterminationHuman ada (Some fone) None (Some 5000)) None true
    (mkQueued 1 0 None None) None 0.
Definition sample : vdb := {|
  vd_tenants := {[ "acme" := false ]};
  reviewers := {[ ("acme", ada) := mkReviewer false None false ]};
  verdicts := {[ ("acme", "k1") := open_pair; ("acme", "k2") := decided_pair; ("acme", "k3") := open_pair ]};
|}.

Lemma sample_rows (P : row -> Prop) : P open_pair -> P decided_pair -> forall t k r, verdicts sample !! (t, k) = Some r -> P r.
Proof.
  intros Ho Hd t k r. cbn. rewrite !lookup_insert_Some, lookup_singleton_Some. intros [[_ <-]|[_ [[_ <-]|[_ [_ <-]]]]]; done.
Qed.

Lemma sample_wf : forall t k r, verdicts sample !! (t, k) = Some r -> row_wf r.
Proof.
  apply sample_rows; split; cbn; try done; try constructor; try (intros [? [=]]); done.
Qed.

(** A day: a lease, a failure under it, a human verdict and its projection. *)
Definition failure : Failure := mkFailure "timeout" 1000000 2000000 false 1010000.
Definition ruled : HumanVerdict := mkHuman VerdictRejected ada 20000 (token (pair_state open_pair)).
Definition day : list (context * store_op) :=
  [(acme, OpLease ∅ "acme" 1 1000000 10000); (acme, OpFailure "acme" "k1" failure); (acme, OpHuman "acme" (PairRef "k3") ruled)].

(** A lease, a reviewer's change of mind about another pair, and the next lease. *)
Definition first_lease : result store_failure (list LeasedPair) * vdb := Lease ∅ acme "acme" 1 1000000 10000 sample.
Definition reversed : HumanVerdict := mkHuman VerdictRejected ada 20000 (token (pair_state decided_pair)).
Definition between : list (context * store_op) := [(acme, OpHuman "acme" (PairRef "k2") reversed)].
Definition next_lease : result store_failure (list LeasedPair) * vdb :=
  Lease ∅ acme "acme" 1 1000000 20000 (apply_all between first_lease.2).
Definition pair_of (x : result store_failure (list LeasedPair) * vdb) : LeasedPair :=
  match x with (Ok (p :: _), _) => p | _ => mkLeased (mkCandidate "" "" "" fzero (Verdicts.mkContext "" "" "" [] [])) "" 0 0 end.

Lemma verdict_rows_well_formed_witness : exists r, verdicts (apply_all day sample) !! ("acme", "k3") = Some r /\ row_wf r.
Proof.
  destruct (verdicts (apply_all day sample) !! ("acme", "k3")) as [r|] eqn:Hr.
  - exists r. split; [reflexivity|exact (proj1 (verdict_rows_well_formed day sample sample_wf) _ _ _ Hr)].
  - exfalso. vm_compute in Hr. discriminate Hr.
Defined.

Lemma verdicts_have_authority_witness : exists r,
  verdicts (apply_all day sample) !! ("acme", "k2") = Some r /\ by_human r = true /\ low r = "g1" /\ high r = "g3".
Proof. apply (verdicts_have_authority day sample "acme" "k2" decided_pair); [reflexivity|by eapply (sample_wf "acme" "k2")|reflexivity]. Defined.

Lemma leases_exclude_witness : lp_Key (pair_of next_lease) <> lp_Key (pair_of first_lease).
Proof.
  apply (leases_exclude ∅ acme "acme" 1 1000000 10000 sample [pair_of first_lease] first_lease.2 (pair_of first_lease) between
    ∅ acme 1 1000000 20000 [pair_of next_lease] next_lease.2).
  - vm_compute; reflexivity.
  - apply list_elem_of_singleton; reflexivity.
  - repeat constructor.
  - vm_compute; discriminate.
  - vm_compute; reflexivity.
  - apply list_elem_of_singleton; reflexivity.
Defined.

Lemma people_decide_on_what_they_saw_witness : exists key r,
  verdicts sample !! ("acme", key) = Some r /\ PairRef key = PairRef "k3" /\
  (exists x, verdicts (DecideHuman acme "acme" (PairRef "k3") ruled sample).2 = <[("acme", key) := human_row ruled x r]> (verdicts sample)).
Proof.
  destruct (people_decide_on_what_they_saw acme "acme" (PairRef "k3") ruled sample (mkDecision HumanApplied "k3" None)
    (DecideHuman acme "acme" (PairRef "k3") ruled sample).2) as (key & r & Hr & Href & _ & _ & _ & Hc); [vm_compute; reflexivity|].
  exists key, r. split; [exact Hr|]. split; [exact Href|]. apply Hc. discriminate.
Defined.
End VerdictSample.
