(* ===== verification/Panel.v ===== *)
(** One panel of the artifact adjudicator, as far as it only computes:
    [internal/analyzer/artifacts/sameas_parser.go], [CleanText] of
    [internal/analyzer/promptvalue.go], and from
    [internal/analyzer/artifacts/adjudicate.go] the reading of the votes, the
    error of a failed panel and the delay before a retry.

    The patterns of the replies are read by hand: each is a literal, in any
    case, between classes of characters that do not overlap. The long s is an
    [S] to a pattern without case. The upper case of a text is a parameter. *)

From S2P Require Import Prelude Float64 Gostrings Sha256 Json Errors Consensus Llm Verdicts.
Local Open Scope Z_scope.

(** * Definitions *)

Class UpperCase := { ToUpper : string -> string }.

(** ** Texts *)

Definition replacement : list ascii := ascii_of_nat <$> [239; 191; 189]%nat.

(** [strings.ToValidUTF8(s, "\uFFFD")]: one replacement for a run of invalid
    bytes; [bad] is whether the byte before was invalid. *)
Fixpoint to_valid (skip : nat) (bad : bool) (l : list ascii) : list ascii :=
  match l with
  | [] => []
  | c :: r =>
      match skip with
      | S skip => c :: to_valid skip false r
      | O =>
          match rune_size l with
          | Some n => c :: to_valid (n - 1) false r
          | None => (if bad then [] else replacement) ++ to_valid 0 true r
          end
      end
  end.

Definition is_nul (c : ascii) : bool := byte_val c =? 0.

(** [utf8.RuneStart] *)
Definition rune_start (c : ascii) : bool := negb (continuation c).

(** The last position up to [n] at which a rune starts. *)
Fixpoint cut_at (l : list ascii) (n : nat) : nat :=
  match n with
  | O => O
  | S k => match l !! n with Some c => if rune_start c then n else cut_at l k | None => n end
  end.

Definition CleanText (s : string) (n : nat) : string :=
  let l := to_valid 0 false (List.filter (fun c => negb (is_nul c)) (bytes_of s)) in
  string_of (if bool_decide (length l <= n)%nat then l else take (cut_at l n) l).

(** ** Replies *)

Definition to_upper_ascii (c : ascii) : ascii := if in_range 97 122 c then ascii_of_nat (nat_of_ascii c - 32) else c.

(** What follows the upper-case literal [lit] at the start of [l], read
    without case: U+017F folds to [S]. *)
Fixpoint fold_prefix (lit l : list ascii) : option (list ascii) :=
  match lit with
  | [] => Some l
  | p :: lit =>
      match l with
      | c :: r =>
          if bool_decide (to_upper_ascii c = p) then fold_prefix lit r
          else
            match r with
            | d :: r => if bool_decide (p = "S"%char) && (byte_val c =? 197) && (byte_val d =? 191) then fold_prefix lit r else None
            | [] => None
            end
      | [] => None
      end
  end.

(** The same at the first position where it is found. *)
Fixpoint fold_find (lit l : list ascii) : option (list ascii) :=
  match fold_prefix lit l with
  | Some r => Some r
  | None => match l with [] => None | _ :: l => fold_find lit l end
  end.

Fixpoint drop_while (f : ascii -> bool) (l : list ascii) : list ascii :=
  match l with [] => [] | c :: r => if f c then drop_while f r else l end.
Fixpoint take_while (f : ascii -> bool) (l : list ascii) : list ascii :=
  match l with [] => [] | c :: r => if f c then c :: take_while f r else [] end.

Definition is_blank (c : ascii) : bool := (byte_val c =? 32) || (byte_val c =? 9).
Definition is_newline (c : ascii) : bool := byte_val c =? 10.
(** [\s] *)
Definition is_re_space (c : ascii) : bool := is_blank c || is_newline c || (byte_val c =? 12) || (byte_val c =? 13).

(** [^[ \t]*SAME:[ \t]*(YES|NO)[ \t.\r]*$] on one line. *)
Definition same_line (line : list ascii) : option bool :=
  let tail r := forallb (fun c => is_blank c || (byte_val c =? 46) || (byte_val c =? 13)) r in
  r ← fold_prefix (bytes_of "SAME:") (drop_while is_blank line);
  let r := drop_while is_blank r in
  match fold_prefix (bytes_of "YES") r, fold_prefix (bytes_of "NO") r with
  | Some r, _ => if tail r then Some true else None
  | None, Some r => if tail r then Some false else None
  | None, None => None
  end.

Fixpoint first_line (l line : list ascii) : option bool :=
  match l with
  | [] => same_line (rev line)
  | c :: r =>
      if is_newline c then match same_line (rev line) with Some d => Some d | None => first_line r [] end
      else first_line r (c :: line)
  end.

(** Where only white space follows, [reSameJustification] matches white space
    or nothing; both trim to nothing. *)
Definition justification (raw : string) : string :=
  match fold_find (bytes_of "JUSTIFICATION:") (bytes_of raw) with
  | Some r => TrimSpace (string_of (take_while (fun c => negb (is_newline c)) (drop_while is_re_space r)))
  | None => ""
  end.

Definition confidence_word (raw : string) : option string :=
  r ← fold_find (bytes_of "CONFIDENCE:") (bytes_of raw);
  match take_while (fun c => negb (is_re_space c)) (drop_while is_re_space r) with
  | [] => None
  | w => Some (string_of w)
  end.

Definition ParseSameAsResponse `{UpperCase} (voterID raw : string) : Vote :=
  match first_line (bytes_of raw) [] with
  | None => mkVote voterID None "LOW" fzero "" raw
  | Some d =>
      mkVote voterID (Some d) (match confidence_word raw with Some w => ToUpper w | None => "LOW" end) fzero (justification raw) raw
  end.

(** ** The verdict of a panel *)

(** The fields of [ArtifactAdjudicationConfig] a run reads. *)
Record AdjudicationConfig := mkAdjudicationConfig {
  ac_Models : list string;
  SamplesPerModel : Z;
  SamplingTemperature : float64;
  ac_MaxTokens : Z;
  ConsensusThreshold : float64;
  MaxErrorRate : float64;
  ac_MaxAttempts : Z;
  LeaseDuration : Z;
  LeaseBatch : Z;
  RetryBaseDelay : Z;
  RetryMaxDelay : Z;
}.

Definition panel_computer (cfg : AdjudicationConfig) : Computer :=
  Consensus.New [WithThreshold (ConsensusThreshold cfg); WithMaxErrorRate (MaxErrorRate cfg); WithMinValidVotes 1].

Record ResolvedPrompt := mkPrompt { rp_Name : string; rp_Version : string; rp_Messages : list ChatMessage }.

(** An error of the LLM client: the sentinels it wraps, each named by its
    text, and the status of the [*llmclient.APIError] in it. *)
Record llm_failure := mkLlmFailure { lf_Is : error; lf_Status : option Z }.

Definition errNoChoices : sentinel := "completion returned no choices".
Definition systemLLMErrors : list sentinel :=
  ["LLM gateway unavailable"; "rate limit exceeded"; "LLM gateway authentication failed"; "credential resolution failed";
   "model not in allowed list"; "no LLM gateway URL configured"].
Definition errOutputTruncated : sentinel := "model gave no answer within max_tokens".
Definition llmErrors : list sentinel :=
  systemLLMErrors ++ ["invalid LLM request"; "max tokens exceeded"; "LLM gateway response too large"; errOutputTruncated].

Definition maxErrorChars : nat := 1000.
Definition maxJustificationChars : nat := 2000.

(** The vote of one completion, and its error. *)
Definition read_vote `{UpperCase} (voterID : string) (answer : result llm_failure CompletionResponse) : Vote * option llm_failure :=
  let errored e := (mkVote voterID None "" fzero "" "", Some e) in
  match answer with
  | Err e => errored e
  | Ok resp =>
      match cs_Choices resp with
      | [] => errored (mkLlmFailure [errNoChoices] None)
      | c :: _ =>
          match CheckAnswered resp with
          | Err _ => errored (mkLlmFailure [errOutputTruncated] None)
          | Ok _ => (ParseSameAsResponse voterID (Content (ch_Message c)), None)
          end
      end
  end.

(** What the run makes of a panel's error: stop for the LLM, record a failure
    with its text, or stop. *)
Inductive panel_error := LLMUnavailable | PanelFailed (text : string) | PanelBroken.

Definition failed_with (e : consensus_error) (more : string) : panel_error :=
  match e with
  | ErrInsufficientVotes valid required total errors =>
      PanelFailed ("consensus: insufficient valid votes (" +:+ Itoa valid +:+ "/" +:+ Itoa total +:+ ", required " +:+ Itoa (default 0 required)
                   +:+ " minimum, " +:+ Itoa errors +:+ " errors)" +:+ more)
  | ErrNoVotes => PanelBroken
  end.

Definition is_system (e : llm_failure) : bool := existsb (Is (lf_Is e)) systemLLMErrors.

Definition redacted (e : llm_failure) : string :=
  match List.find (Is (lf_Is e)) llmErrors with
  | Some s => s
  | None =>
      if Is (lf_Is e) errNoChoices then errNoChoices
      else match lf_Status e with Some n => "LLM API error (HTTP " +:+ Itoa n +:+ ")" | None => "completion failed" end
  end.

Definition panelError (e : consensus_error) (votes : list Vote) (errs : list (option llm_failure)) : panel_error :=
  match omap id errs with
  | [] =>
      let unparsed := length (List.filter (fun v => bool_decide (Decision v = None)) votes) in
      failed_with e (" (" +:+ Itoa (Z.of_nat unparsed) +:+ " of " +:+ Itoa (Z.of_nat (length votes)) +:+ " replies had no valid SAME: line)")
  | first :: _ =>
      if forallb (fun o => match o with Some x => is_system x | None => false end) errs then LLMUnavailable
      else failed_with e (" (first completion error: " +:+ redacted first +:+ ")")
  end.

Definition vote_record (v : Vote) : VoteRecord :=
  mkVoteRecord (VoterID v) (Decision v) (CleanText (Confidence v) maxJustificationChars) (CleanText (Justification v) maxJustificationChars).

Definition panel_status (cfg : AdjudicationConfig) (r : Result) : string :=
  if fltb fhalf (ConfidenceFraction r) && MeetsThreshold (panel_computer cfg) r
  then if r_Decision r then VerdictConfirmed else VerdictRejected else VerdictUndecided.

(** A panel's votes become a verdict, not yet dated. *)
Definition panel_verdict (cfg : AdjudicationConfig) (rp : ResolvedPrompt) (votes : list (Vote * option llm_failure)) : result panel_error Verdict :=
  match Compute (panel_computer cfg) votes.*1 with
  | Err e => Err (panelError e votes.*1 votes.*2)
  | Ok r =>
      Ok (mkVerdict (panel_status cfg r) (ConfidenceFraction r)
            (mkEvidence (rp_Name rp) (rp_Version rp) (ac_Models cfg) (vote_record <$> votes.*1) (ValidVoteCount r) (TotalVoteCount r)) 0)
  end.

(** ** Retries *)

Fixpoint retry_loop (n : nat) (d maxDelay : Z) : Z :=
  match n with
  | O => Z.min d maxDelay
  | S n => if Z.quot maxDelay 2 <? d then maxDelay else retry_loop n (wrap64 (d * 2)) maxDelay
  end.
Definition retryDelay (attempts base maxDelay : Z) : Z := retry_loop (Z.to_nat (attempts - 1)) base maxDelay.

(** * Facts *)

Lemma retry_loop_spec n d m : 0 < d -> d <= m < 2 ^ 63 -> retry_loop n d m = Z.min (d * 2 ^ Z.of_nat n) m.
Proof.
  revert d. induction n as [|n IH]; intros d Hd Hm; [cbn; lia|].
  cbn [retry_loop]. rewrite Z.quot_div_nonneg by lia. rewrite Nat2Z.inj_succ, Z.pow_succ_r by lia.
  pose proof (Z.pow_pos_nonneg 2 (Z.of_nat n) ltac:(lia) ltac:(lia)). pose proof (Z.mul_div_le m 2 ltac:(lia)).
  pose proof (Z.mod_pos_bound m 2 ltac:(lia)). pose proof (Z.div_mod m 2 ltac:(lia)).
  destruct (Z.ltb_spec (m / 2) d); [nia|]. rewrite wrap64_id, IH by lia. f_equal. lia.
Qed.

(** The wait after the n-th failure of a panel is the base delay doubled
    n - 1 times, capped, exactly: no doubling overflows 64 bits, whatever the
    number of failures, and so it never shrinks as failures add up. *)
Theorem retryDelay_exact attempts base maxDelay :
  1 <= attempts -> 0 < base <= maxDelay -> maxDelay < 2 ^ 63 ->
  retryDelay attempts base maxDelay = Z.min (base * 2 ^ (attempts - 1)) maxDelay /\
  base <= retryDelay attempts base maxDelay <= retryDelay (attempts + 1) base maxDelay.
Proof.
  intros Ha Hb Hm. unfold retryDelay. rewrite !retry_loop_spec by lia. rewrite !Z2Nat.id by lia. split; [done|].
  replace (attempts + 1 - 1) with (Z.succ (attempts - 1)) by lia. rewrite Z.pow_succ_r by lia.
  pose proof (Z.pow_pos_nonneg 2 (attempts - 1) ltac:(lia) ltac:(lia)). nia.
Qed.

Lemma retryDelay_exact_witness : retryDelay 100 60 3600 = Z.min (60 * 2 ^ (100 - 1)) 3600.
Proof. apply (retryDelay_exact 100 60 3600); lia. Defined.

Example reply_yes :
  let _ := {| ToUpper s := s |} in
  let v := ParseSameAsResponse "m__s0" (string_of (bytes_of "SAME: YES or NO" ++ [ascii_of_nat 10] ++ bytes_of " same: no. " ++ [ascii_of_nat 10]
             ++ bytes_of "Justification:  differ " ++ [ascii_of_nat 10] ++ bytes_of "CONFIDENCE: HIGH")) in
  Decision v = Some false /\ Justification v = "differ" /\ Confidence v = "HIGH".
Proof. split_and!; reflexivity. Qed.
