(* ===== verification/Graphevents.v ===== *)
(** What the graph role reads from events and writes of their results: the pure
    part of [internal/graph] (subscriber.go, subscriber_handlers.go,
    catalog_projection.go, resolver.go, and the row of controls_reader.go), and
    the artifact results of [pkg/analyzer/results/results.go]. The programs that
    write are in Materialize. *)

From S2P Require Import Prelude Float64 Gostrings Timefmt Tenant Sha256 Json Jsonread Jobconfig Subjects Graph Results.
Local Open Scope Z_scope.

(** * Definitions *)

(** ** Results of the artifacts analyzer *)

Record Artifact := mkArtifact { a_Name : string; a_Type : string; a_Frequency : string; a_OwnerRole : string; a_Confidence : float64 }.
Record ArtifactResult := mkArtifactResult { ar_ControlID : string; ar_Artifacts : list Artifact }.

Definition artifact_set (a : Artifact) (key : string) (t : tree) : option Artifact :=
  let '(mkArtifact n ty f o c) := a in
  if is_field "name" key then (fun x => mkArtifact x ty f o c) <$> into_string n t
  else if is_field "type" key then (fun x => mkArtifact n x f o c) <$> into_string ty t
  else if is_field "frequency" key then (fun x => mkArtifact n ty x o c) <$> into_string f t
  else if is_field "owner_role" key then (fun x => mkArtifact n ty f x c) <$> into_string o t
  else if is_field "confidence" key then (fun x => mkArtifact n ty f o x) <$> into_float c t
  else Some a.

Definition artifact_result_set (r : ArtifactResult) (key : string) (t : tree) : option ArtifactResult :=
  let '(mkArtifactResult c l) := r in
  if is_field "control_id" key then (fun x => mkArtifactResult x l) <$> into_string c t
  else if is_field "artifacts" key then (fun x => mkArtifactResult c x) <$> into_slice (into_struct artifact_set (mkArtifact "" "" "" "" fzero)) l t
  else Some r.

Definition read_artifacts : string -> option (list ArtifactResult) := read_slice (mkArtifactResult "" []) artifact_result_set.

(** ** Events *)

Record pipelineEvent := mkEvent { ev_Analyzer : string; ev_JobID : string; ev_Stage : string; ev_Timestamp : string }.

Definition event_set (e : pipelineEvent) (key : string) (t : tree) : option pipelineEvent :=
  let '(mkEvent a j s ts) := e in
  if is_field "analyzer" key then (fun x => mkEvent x j s ts) <$> into_string a t
  else if is_field "job_id" key then (fun x => mkEvent a x s ts) <$> into_string j t
  else if is_field "stage" key then (fun x => mkEvent a j x ts) <$> into_string s t
  else if is_field "timestamp" key then (fun x => mkEvent a j s x) <$> into_string ts t
  else Some e.

Definition read_event (data : string) : option pipelineEvent := t ← parse_text data; into_struct event_set (mkEvent "" "" "" "") t.

Definition extractTenantFromSubject (subject : string) : option string :=
  let parts := split_on "." subject in
  if (length parts <? 6)%nat then None else parts !! 2%nat.

(** The tenant a handler works for, once it is in the context. *)
Definition entered (ctx : context) (tenantID : string) : option string :=
  match ValidateTenantID tenantID with
  | Ok _ => match (WithTenant ctx tenantID).2 with None => Some tenantID | Some _ => None end
  | Err _ => None
  end.

Definition event_tenant (ctx : context) (subject : string) : option string := extractTenantFromSubject subject ≫= entered ctx.

Definition parseCatalogSubject (subject : string) : option (string * string) :=
  match split_on "." subject with
  | [crosscodex; catalog; tenantID; catalogID; parsed] =>
      if bool_decide (crosscodex = "crosscodex" /\ catalog = "catalog" /\ parsed = "parsed") && negb (bool_decide (catalogID = ""))
         && negb (existsb (fun c => bool_decide (c = "*"%char \/ c = ">"%char)) (bytes_of catalogID))
      then Some (tenantID, catalogID) else None
  | _ => None
  end.

Definition catalog_target (ctx : context) (subject : string) : option (string * string) :=
  '(t, c) ← parseCatalogSubject subject; t ← entered ctx t; Some (t, c).

(** ** Where the data of an event is *)

Record ResourceRef := mkRef { ref_Type : string; ref_ID : string; ref_URI : string }.

(** [strings.Index(uri, "://")]; none gives no scheme. *)
Fixpoint scheme_of (l : list ascii) : option (list ascii) :=
  match l with
  | [] => None
  | c :: r =>
      match strip_prefix (bytes_of "://") l with Some _ => Some [] | None => (c ::.) <$> scheme_of r end
  end.
Definition SchemeFromURI (uri : string) : string := default "" (string_of <$> scheme_of (bytes_of uri)).

Definition event_ref (e : pipelineEvent) : ResourceRef :=
  mkRef "analysis_result" (ev_JobID e) ("pg://results/" +:+ ev_JobID e +:+ "/" +:+ ev_Analyzer e).

(** ** What is written *)

Definition SemanticMatchEdgeLabel : string := "SEMANTIC_MATCH".
Definition SemanticMatchEdgeIDKind : string := "semantic-match".

Definition semantic_edge (now : Time) (jobID : string) (r : SemanticMatchResult) : edge_in :=
  mkEdge (DerivedID [SemanticMatchEdgeIDKind; jobID; sm_SourceID r; sm_TargetID r]) SemanticMatchEdgeLabel
    ((AString <$> sm_Properties r) ∪ {[ "relationship_type" := AString (sm_RelationshipType r); "job_id" := AString jobID ]})
    now None "" "" (sm_Confidence r) "".

Definition requires_edge (now : Time) (tenantID jobID : string) (r : RequiresResult) : RequiresEdge :=
  mkRequiresEdge (rq_SourceID r) (rq_TargetID r) (rq_Confidence r) (rq_Unanimous r) (rq_ValidVotes r) (rq_TotalVotes r) fzero
    (rq_Models r) 0 "" now tenantID jobID.

Definition artifactID (controlID : string) (i : nat) : string := controlID +:+ "__art_" +:+ Itoa (Z.of_nat i).
Definition typeID (type : string) : string := "type_" +:+ type.
Definition job_property (jobID : string) : gmap string any := {[ "job_id" := AString jobID ]}.

Definition artifact_node (now : Time) (jobID controlID : string) (i : nat) (a : Artifact) : node_in :=
  mkNode (artifactID controlID i) "Artifact"
    (list_to_map
      [("name", AString (a_Name a)); ("type", AString (a_Type a)); ("frequency", AString (a_Frequency a));
       ("owner_role", AString (a_OwnerRole a)); ("confidence", AFloat64 (a_Confidence a)); ("job_id", AString jobID)])
    now None "" "".
Definition type_node (now : Time) (a : Artifact) : node_in :=
  mkNode (typeID (a_Type a)) "ArtifactType" {[ "name" := AString (a_Type a) ]} now None "" "".

Definition demands_edge (now : Time) (jobID controlID artID : string) : edge_in :=
  mkEdge (DerivedID ["demands"; controlID; artID]) "DEMANDS" (job_property jobID) now None "" "" fzero "".
Definition is_type_edge (now : Time) (jobID artID type : string) : edge_in :=
  mkEdge (DerivedID ["is-type"; artID; type]) "IS_TYPE" (job_property jobID) now None "" "" fzero "".

(** ** Catalogs *)

Record CatalogControl := mkCatalogControl {
  cc_ControlID : string; cc_CatalogID : string; cc_Identifier : string; cc_Title : string;
  cc_Statement : string; cc_Class : string; cc_ParentID : string;
}.

Definition control_node (now : Time) (tenantID : string) (c : CatalogControl) : node_in :=
  mkNode (cc_ControlID c) "Control"
    (list_to_map
      [("tenant_id", AString tenantID); ("catalog_id", AString (cc_CatalogID c)); ("identifier", AString (cc_Identifier c));
       ("title", AString (cc_Title c)); ("statement", AString (cc_Statement c)); ("class", AString (cc_Class c))])
    now None "" "".

Definition parent_node (c : CatalogControl) : string := cc_CatalogID c +:+ "/" +:+ cc_ParentID c.
Definition parent_edge (now : Time) (c : CatalogControl) : edge_in :=
  mkEdge (DerivedID ["parent-of"; parent_node c; cc_ControlID c]) "PARENT_OF" ∅ now None "" "" fzero "".

(** * Facts *)

Lemma entered_Some ctx t t' : entered ctx t = Some t' <-> ValidateTenantID t = Ok tt /\ t' = t.
Proof. unfold entered, WithTenant. destruct (ValidateTenantID t) as [[]|]; cbn; naive_solver. Qed.

(** The subject of a stage's event names the tenant it was built for. *)
Lemma event_tenant_stage ctx t jobID st s : PipelineStageSubject t jobID st = Ok s -> event_tenant ctx s = Some t.
Proof.
  intros (Ht & Hj & ->)%buildSubject_ok. unfold event_tenant, extractTenantFromSubject.
  rewrite split_subject by done. rewrite !bind_cons, (split_on_free "." t), (split_on_free "." jobID) by auto with strings.
  change (split_on "." "pipeline") with ["pipeline"]. change (split_on "." "stage") with ["stage"].
  destruct (split_on "." st) as [|p ps] eqn:Hp; [by destruct (split_on_nonempty "." st)|]. cbn. apply entered_Some. by split.
Qed.

Lemma forbidden_chars s :
  free_of "." s -> existsb (fun c => bool_decide (c = "*"%char \/ c = ">"%char)) (bytes_of s) = contains_any s ".*>".
Proof.
  intros Hs. unfold contains_any. apply Bool.eq_iff_eq_true. rewrite existsb_exists, bool_decide_eq_true, Exists_exists. split.
  - intros (c & Hc & Hb%bool_decide_eq_true). exists c. split; [by apply list_elem_of_In|]. destruct Hb as [->| ->]; cbn; set_solver.
  - intros (c & Hc & Hin). exists c. split; [by apply list_elem_of_In|]. apply bool_decide_eq_true. cbn in Hin.
    rewrite !elem_of_cons in Hin. destruct Hin as [->|[->|[->|[]%not_elem_of_nil]]]; [by destruct Hs|by left|by right].
Qed.

(** C40. The graph role reads back the subjects of catalogs exactly. Whatever its
    own context says, it takes a subject for the event of catalog [c] of tenant
    [t] if and only if the catalog service builds that subject for them: no
    subject is dropped that was published, and none is accepted that was not. *)
Theorem catalog_subject_inverse ctx t c s : catalog_target ctx s = Some (t, c) <-> CatalogParsedSubject t c = Ok s.
Proof.
  unfold catalog_target, parseCatalogSubject, CatalogParsedSubject. rewrite buildSubject_ok. split.
  - pose proof (split_on_parts_free "." s) as Hfree. pose proof (join_split_on "." s) as Hs.
    destruct (split_on "." s) as [|p0 [|p1 [|p2 [|p3 [|p4 [|]]]]]]; try done. destruct (_ && _ && _) eqn:Hb; [|done]. cbn.
    apply andb_true_iff in Hb as [[(-> & -> & ->)%bool_decide_eq_true Hne]%andb_true_iff Hch].
    intros (t' & Hent & [= -> ->])%bind_Some. apply entered_Some in Hent as [Ht ->]. split_and!; [done| |done].
    unfold validateToken. apply negb_true_iff in Hne, Hch. rewrite Hne, <- forbidden_chars, Hch; [done|].
    rewrite Forall_forall in Hfree. apply Hfree. set_solver.
  - intros (Ht & Hc & ->). rewrite split_subject by done. rewrite !bind_cons, (split_on_free "." t), (split_on_free "." c) by eauto with strings.
    change (split_on "." "catalog") with ["catalog"]. change (split_on "." "parsed") with ["parsed"].
    cbn -[bytes_of existsb]. pose proof (validateToken_dot _ _ Hc) as Hdot. unfold validateToken in Hc. case_bool_decide; [done|].
    rewrite forbidden_chars by done. destruct (contains_any c ".*>"); [done|].
    apply bind_Some. exists (t, c). split; [done|]. apply bind_Some. exists t. split; [by apply entered_Some|done].
Qed.
