(* ===== verification/Adjudicate.v ===== *)
(** The artifact adjudicator: [internal/analyzer/artifacts/adjudicate.go].

    A run or a projection is a program ([prog]) that calls the verdict store
    ([Verdictstore]), the graph ([MemDriver]), the clock, the prompts and the
    LLM. Several programs and the people, panels and reconcilers that write to
    the store interleave, one call at a time; any call of the store or the
    graph may fail, before or after it took effect, and a program may stop
    anywhere. The votes of a panel only call the LLM, so the order in which
    they do does not matter. How a prompt is rendered from the context of a
    pair is the outside's. Spans, counters and the texts of errors are left
    out; the two loops without a bound take fuel. *)

From S2P Require Import Prelude Float64 Timefmt Gostrings Tenant Errors Consensus Llm Jobstore Graph MemDriver Graphevents Verdicts Verdictstore Panel.
Local Open Scope Z_scope.

(** * Definitions *)

(** ** Calls *)

Inductive call_error :=
| StoreError (e : store_failure)
| GraphError (e : graph_error)
| Unreachable.

Inductive call : Type -> Type :=
| CNow : call Time
| CCancelled : call bool                                   (* [ctx.Err() != nil] *)
| CRender (c : PairContext) : call (option ResolvedPrompt)
| CComplete (req : CompletionRequest) : call (result llm_failure CompletionResponse)
| CCounts (now : Time) : call (result call_error QueueCounts)
| CReset : call (result call_error Z)
| CUnprojected (n : Z) (now : Time) : call (result call_error (list Projection))
| CLease (n leaseFor : Z) (now : Time) : call (result call_error (list LeasedPair))
| CDecide (key : string) (v : Verdict) : call (result call_error DecideOutcome)
| CDissent (key : string) (v : Verdict) : call (result call_error unit)
| CFailure (key : string) (f : Failure) : call (result call_error unit)
| CClaim (p : Projection) (until now : Time) : call (result call_error ClaimOutcome)
| CMark (p : Projection) (until : Time) : call (result call_error bool)
| CRelease (key : string) (until : Time) : call (result call_error unit)
| CCreateEdge (sourceID targetID : string) (e : edge_in) : call (result call_error unit)
| CGetEdge (id : string) : call (result call_error EdgeWithEndpoints)
| CTraverse (q : TraversalQuery) : call (result call_error (list Path))
| CSupersede (req : SupersedeRequest) : call (result call_error bool)
| CClosedPairs : call (result call_error (gset string))
| CEnqueue (candidates : list PairCandidate) (now : Time) : call (result call_error unit)
| CRelationships (q : RelationshipQuery) : call (result call_error (list Relationship))
| CCreateNode (n : node_in) : call (result call_error unit)
| CBulkEdges (edges : list BulkEdge) : call (result call_error (list string))
| CUpsertNode (n : node_in) : call (result call_error bool)
| CRequiresEdge (r : RequiresEdge) : call (result call_error unit)
| CResolve (ref : ResourceRef) : call (result call_error string)
| CControls (catalogID : string) : call (result call_error (list CatalogControl)).

Inductive prog (A : Type) : Type :=
| Ret (a : A)
| Do {X : Type} (c : call X) (k : X -> prog A).
Arguments Ret {A}.
Arguments Do {A X}.

Fixpoint prog_bind {A B} (f : A -> prog B) (p : prog A) : prog B :=
  match p with Ret a => f a | Do c k => Do c (fun x => prog_bind f (k x)) end.
#[export] Instance prog_mret : MRet prog := @Ret.
#[export] Instance prog_mbind : MBind prog := fun A B f p => prog_bind f p.
Definition ask {X} (c : call X) : prog X := Do c Ret.

(** ** Results *)

Record AdjudicateResult := mkRes {
  res_Reset : Z; Recovered : Z; Leased : Z; Expired : Z; Confirmed : Z; Rejected : Z; Undecided : Z; Failed : Z;
  Abandoned : Z; Dissent : Z; Stale : Z; Orphaned : Z; Fenced : Z; Busy : Z;
  res_Counts : option QueueCounts;
}.
Definition no_result : AdjudicateResult := mkRes 0 0 0 0 0 0 0 0 0 0 0 0 0 0 None.

Inductive counter := CRecovered | CExpired | CConfirmed | CRejected | CUndecided | CFailed | CAbandoned | CDissented | CStale | COrphaned | CFenced | CBusy.

Definition count (c : counter) (r : AdjudicateResult) : AdjudicateResult :=
  let '(mkRes rs rc ls ex cf rj ud fl ab ds st orp fe bu q) := r in
  match c with
  | CRecovered => mkRes rs (rc + 1) ls ex cf rj ud fl ab ds st orp fe bu q
  | CExpired => mkRes rs rc ls (ex + 1) cf rj ud fl ab ds st orp fe bu q
  | CConfirmed => mkRes rs rc ls ex (cf + 1) rj ud fl ab ds st orp fe bu q
  | CRejected => mkRes rs rc ls ex cf (rj + 1) ud fl ab ds st orp fe bu q
  | CUndecided => mkRes rs rc ls ex cf rj (ud + 1) fl ab ds st orp fe bu q
  | CFailed => mkRes rs rc ls ex cf rj ud (fl + 1) ab ds st orp fe bu q
  | CAbandoned => mkRes rs rc ls ex cf rj ud fl (ab + 1) ds st orp fe bu q
  | CDissented => mkRes rs rc ls ex cf rj ud fl ab (ds + 1) st orp fe bu q
  | CStale => mkRes rs rc ls ex cf rj ud fl ab ds (st + 1) orp fe bu q
  | COrphaned => mkRes rs rc ls ex cf rj ud fl ab ds st (orp + 1) fe bu q
  | CFenced => mkRes rs rc ls ex cf rj ud fl ab ds st orp (fe + 1) bu q
  | CBusy => mkRes rs rc ls ex cf rj ud fl ab ds st orp fe (bu + 1) q
  end.
Definition add_leased (n : Z) (r : AdjudicateResult) : AdjudicateResult :=
  let '(mkRes rs rc ls ex cf rj ud fl ab ds st orp fe bu q) := r in mkRes rs rc (ls + n) ex cf rj ud fl ab ds st orp fe bu q.
Definition set_reset (n : Z) (r : AdjudicateResult) : AdjudicateResult :=
  let '(mkRes _ rc ls ex cf rj ud fl ab ds st orp fe bu q) := r in mkRes n rc ls ex cf rj ud fl ab ds st orp fe bu q.
Definition set_counts (c : QueueCounts) (r : AdjudicateResult) : AdjudicateResult :=
  let '(mkRes rs rc ls ex cf rj ud fl ab ds st orp fe bu _) := r in mkRes rs rc ls ex cf rj ud fl ab ds st orp fe bu (Some c).

(** Why a run stops. *)
Inductive stop :=
| InvalidOptions
| Cancelled
| Unavailable                 (* [errLLMUnavailable] *)
| Broken                      (* any other error of a panel *)
| Called (e : call_error)
| Joined (e e' : call_error)  (* [errors.Join] *)
| OutOfFuel.

(** What a step of a run returns: the result so far, and an error or a value. *)
Abbreviation outcome A := (prog (AdjudicateResult * result stop A)).

Definition done {A} (res : AdjudicateResult) (a : A) : outcome A := Ret (res, Ok a).
Definition fail {A} (res : AdjudicateResult) (e : stop) : outcome A := Ret (res, Err e).
(** Go's [if err != nil { return err }]. *)
Definition and_then {A B} (p : outcome A) (f : AdjudicateResult -> A -> outcome B) : outcome B :=
  p ≫= fun '(res, r) => match r with Ok a => f res a | Err e => fail res e end.
Definition must {X B} (res : AdjudicateResult) (c : call (result call_error X)) (f : X -> outcome B) : outcome B :=
  Do c (fun r => match r with Ok x => f x | Err e => fail res (Called e) end).

(** ** Projections *)

Definition sameAsLabel : string := "SAME_AS".
Definition panelEdgeID (low high : string) : string := DerivedID ["same-as"; DeterminationLLMPanel; low; high].
Definition humanEdgeID (low high : string) (decided : Time) : string := DerivedID ["same-as"; DeterminationHuman; low; high; FormatTime decided].

Definition panel_edge (pr : Projection) : edge_in :=
  mkEdge (panelEdgeID (pr_Low pr) (pr_High pr)) sameAsLabel
    {[ "prompt_name" := AString (ev_PromptName (pr_Evidence pr)); "prompt_version" := AString (ev_PromptVersion (pr_Evidence pr));
       "adjudicated_at" := AString (FormatTime (pr_DecidedAt pr)) ]}
    (pr_DecidedAt pr) None adjudicatorName DeterminationLLMPanel (pr_Confidence pr) (pr_CandidateEdgeID pr).
Definition human_edge (pr : Projection) : edge_in :=
  mkEdge (humanEdgeID (pr_Low pr) (pr_High pr) (pr_DecidedAt pr)) sameAsLabel ∅ (pr_DecidedAt pr) None (pr_DeterminedBy pr) DeterminationHuman fone
    (pr_CandidateEdgeID pr).

(** [errors.Is(err, graphdb.ErrNodeNotFound)] and the like. *)
Fixpoint is_node_not_found (e : graph_error) : bool :=
  match e with ErrNodeNotFound _ => true | ErrEndpoint _ e => is_node_not_found e | _ => false end.
Definition node_not_found (e : call_error) : bool := match e with GraphError e => is_node_not_found e | _ => false end.
Definition edge_exists (e : call_error) : bool := match e with GraphError (ErrEdgeExists _) => true | _ => false end.
Definition edge_not_found (e : call_error) : bool := match e with GraphError (ErrEdgeNotFound _) => true | _ => false end.

(** What a projection did to the graph before it ended: whether it wrote, and
    the error it ended with. *)
Record projected := mkProjected { wrote : bool; pj_err : option call_error }.
Abbreviation projecting := (prog (AdjudicateResult * projected)).
Definition ends (res : AdjudicateResult) (w : bool) (e : option call_error) : projecting := Ret (res, mkProjected w e).

(** The new edge of a confirmation. *)
Definition confirm (pr : Projection) (e : edge_in) (res : AdjudicateResult) (rest : bool -> projecting) : projecting :=
  if bool_decide (pr_Status pr = VerdictConfirmed) then
    Do (CCreateEdge (pr_Low pr) (pr_High pr) e) (fun r =>
      match r with
      | Ok _ => rest true
      | Err x =>
          if node_not_found x then ends (count COrphaned res) false None
          else if edge_exists x then rest false
          else ends res true (Some x)
      end)
  else rest false.

Definition projectPanel (pr : Projection) (res : AdjudicateResult) : projecting :=
  confirm pr (panel_edge pr) res (fun w =>
    Do (CGetEdge (pr_CandidateEdgeID pr)) (fun r =>
      match r with
      | Err x => if edge_not_found x then ends res w None else ends res w (Some x)
      | Ok c =>
          match e_ValidTo (ewe_Edge c) with
          | Some _ => ends res w None
          | None =>
              Do (CSupersede (mkSupersedeRequest "" (pr_CandidateEdgeID pr) (pr_DecidedAt pr) "")) (fun r =>
                match r with Ok _ => ends res true None | Err x => ends res true (Some x) end)
          end
      end)).

(** The edge a path of one edge to [high] goes over, unless it is [keep] or
    superseded. *)
Definition live_edge (high keep : string) (p : Path) : option edge_out :=
  match p_Nodes p, p_Edges p with
  | [_; n], [e] =>
      if negb (bool_decide (n_ID n = high)) then None
      else if bool_decide (e_ID e = keep) || bool_decide (is_Some (e_ValidTo e)) then None else Some e
  | _, _ => None
  end.

Fixpoint supersede_others (pr : Projection) (keep : string) (paths : list Path) (w : bool) (res : AdjudicateResult) : projecting :=
  match paths with
  | [] => ends res w None
  | p :: paths =>
      match live_edge (pr_High pr) keep p with
      | None => supersede_others pr keep paths w res
      | Some e =>
          let at_ := if After (e_ValidFrom e) (pr_DecidedAt pr) then e_ValidFrom e else pr_DecidedAt pr in
          Do (CSupersede (mkSupersedeRequest "" (e_ID e) at_ "")) (fun r =>
            match r with
            | Err x => ends res true (Some x)
            | Ok _ => supersede_others pr keep paths true res
            end)
      end
  end.

Definition human_keep (pr : Projection) : string :=
  if bool_decide (pr_Status pr = VerdictConfirmed) then humanEdgeID (pr_Low pr) (pr_High pr) (pr_DecidedAt pr) else "".

Definition projectHuman (pr : Projection) (res : AdjudicateResult) : projecting :=
  confirm pr (human_edge pr) res (fun w =>
    Do (CTraverse (mkTraversalQuery (pr_Low pr) "outbound" [sameAsLabel] 1 None)) (fun r =>
      match r with
      | Err x => ends res w (Some x)
      | Ok paths => supersede_others pr (human_keep pr) paths w res
      end)).

Definition markProjected (pr : Projection) (until : Time) (res : AdjudicateResult) : outcome unit :=
  must res (CMark pr until) (fun ok => done (if ok then res else count CFenced res) tt).

(** Whether it held the claim and wrote. *)
Definition project (cfg : AdjudicationConfig) (pr : Projection) (res : AdjudicateResult) : outcome bool :=
  Do CNow (fun t =>
    let until := micro (t + LeaseDuration cfg) in
    must res (CClaim pr until t) (fun claim =>
      match claim with
      | ClaimReplaced => done (count CFenced res) false
      | ClaimBusy => done (count CBusy res) false
      | ClaimAcquired =>
          (if bool_decide (pr_DeterminationType pr = DeterminationHuman) then projectHuman pr res else projectPanel pr res) ≫= fun '(res, w) =>
          match pj_err w with
          | Some e =>
              if wrote w then fail res (Called e)
              else Do (CRelease (pr_Key pr) until) (fun r => fail res (match r with Ok _ => Called e | Err e' => Joined e e' end))
          | None => and_then (markProjected pr until res) (fun res _ => done res true)
          end
      end)).

Definition projectBatch : Z := 100.

Fixpoint project_batch (cfg : AdjudicationConfig) (batch : list Projection) (res : AdjudicateResult) : outcome unit :=
  match batch with
  | [] => done res tt
  | pr :: batch =>
      and_then (project cfg pr res) (fun res wrote => project_batch cfg batch (if wrote : bool then count CRecovered res else res))
  end.

Fixpoint recoverProjections (fuel : nat) (cfg : AdjudicationConfig) (res : AdjudicateResult) : outcome unit :=
  match fuel with
  | O => fail res OutOfFuel
  | S fuel =>
      Do CNow (fun now =>
        must res (CUnprojected projectBatch now) (fun batch =>
          and_then (project_batch cfg batch res) (fun res' _ =>
            if (Z.of_nat (length batch) <? projectBatch) && (Fenced res' =? Fenced res) then done res' tt
            else recoverProjections fuel cfg res')))
  end.

(** ** Panels *)

Section panels.
Context `{UpperCase} (cfg : AdjudicationConfig) (tenantID runID : string).

Definition panel_request (rp : ResolvedPrompt) (model : string) : CompletionRequest :=
  mkCompletionRequest model (rp_Messages rp) (ac_MaxTokens cfg)
    (Some (if SamplesPerModel cfg <=? 1 then fzero else SamplingTemperature cfg)) None [] tenantID runID (rp_Name rp) (rp_Version rp).

(** The voters: every model, [SamplesPerModel] times. *)
Definition voters : list (string * string) :=
  m ← ac_Models cfg; s ← seq 0 (Z.to_nat (SamplesPerModel cfg)); [(m, m +:+ "__s" +:+ Itoa (Z.of_nat s))].

Fixpoint ask_voters (rp : ResolvedPrompt) (vs : list (string * string)) : prog (list (Vote * option llm_failure)) :=
  match vs with
  | [] => Ret []
  | (model, voterID) :: vs =>
      Do (CComplete (panel_request rp model)) (fun answer =>
        votes ← ask_voters rp vs; mret (read_vote voterID answer :: votes))
  end.

Definition panel (p : LeasedPair) : prog (result panel_error Verdict) :=
  Do (CRender (pc_Context (lp_Candidate p))) (fun rp =>
    match rp with
    | None => Ret (Err PanelBroken)
    | Some rp => votes ← ask_voters rp voters; mret (panel_verdict cfg rp votes)
    end).

Definition recordFailure (p : LeasedPair) (cause : string) (at_ : Time) (res : AdjudicateResult) : outcome unit :=
  let attempts := lp_Attempts p + 1 in
  let abandon := ac_MaxAttempts cfg <=? attempts in
  must res (CFailure (lp_Key p) (mkFailure (CleanText cause maxErrorChars) at_
              (at_ + retryDelay attempts (RetryBaseDelay cfg) (RetryMaxDelay cfg)) abandon (lp_LeasedUntil p)))
    (fun _ => done (count (if abandon then CAbandoned else CFailed) res) tt).

Definition dated (v : Verdict) (at_ : Time) : Verdict := mkVerdict (v_Status v) (v_Confidence v) (v_Evidence v) at_.

Definition commit (p : LeasedPair) (v : Verdict) (res : AdjudicateResult) : outcome unit :=
  must res (CDecide (lp_Key p) v) (fun d =>
    match d with
    | DecideHumanOwned => must res (CDissent (lp_Key p) v) (fun _ => done (count CDissented res) tt)
    | DecideStale => done (count CStale res) tt
    | DecideApplied candidateEdgeID =>
        let go res :=
          and_then (project cfg (mkProjection (lp_Key p) (LowGroupID (lp_Candidate p)) (HighGroupID (lp_Candidate p)) candidateEdgeID
                                   (v_Status v) (v_Confidence v) (v_Evidence v) (v_DecidedAt v) DeterminationLLMPanel "") res)
            (fun res _ => done res tt) in
        if bool_decide (v_Status v = VerdictConfirmed) then go (count CConfirmed res)
        else if bool_decide (v_Status v = VerdictRejected) then go (count CRejected res)
        else done (count CUndecided res) tt
    end).

Definition adjudicatePair (p : LeasedPair) (res : AdjudicateResult) : outcome unit :=
  Do CNow (fun t =>
    if negb (t <? lp_LeasedUntil p) then done (count CExpired res) tt
    else
      r ← panel p;
      Do CNow (fun t =>
        let at_ := micro t in
        Do CCancelled (fun cancelled =>
          if cancelled : bool then fail res Cancelled
          else
            match r with
            | Err LLMUnavailable => fail res Unavailable
            | Err (PanelFailed text) => recordFailure p text at_ res
            | Err PanelBroken => fail res Broken
            | Ok v => commit p (dated v at_) res
            end))).

Fixpoint adjudicate_batch (pairs : list LeasedPair) (res : AdjudicateResult) : outcome unit :=
  match pairs with
  | [] => done res tt
  | p :: pairs => and_then (adjudicatePair p res) (fun res _ => adjudicate_batch pairs res)
  end.

Fixpoint lease_loop (fuel : nat) (maxPairs : Z) (res : AdjudicateResult) : outcome unit :=
  if negb (Leased res <? maxPairs) then done res tt
  else
    match fuel with
    | O => fail res OutOfFuel
    | S fuel =>
        Do CNow (fun now =>
          must res (CLease (Z.min (LeaseBatch cfg) (maxPairs - Leased res)) (LeaseDuration cfg) now) (fun pairs =>
            match pairs with
            | [] => done res tt
            | _ => and_then (adjudicate_batch pairs (add_leased (Z.of_nat (length pairs)) res)) (fun res _ => lease_loop fuel maxPairs res)
            end))
    end.

Record AdjudicateOptions := mkOptions { MaxPairs : Z; DryRun : bool; Reproject : bool }.

(** [run], with a clock. *)
Definition run (fuel : nat) (o : AdjudicateOptions) : outcome unit :=
  let res := no_result in
  if (MaxPairs o <=? 0) || (DryRun o && Reproject o) then fail res InvalidOptions
  else if DryRun o then Do CNow (fun now => must res (CCounts now) (fun c => done (set_counts c res) tt))
  else
    let rest res :=
      and_then (recoverProjections fuel cfg res) (fun res _ =>
        if Reproject o then done res tt
        else and_then (lease_loop (Z.to_nat (MaxPairs o)) (MaxPairs o) res) (fun res _ => recoverProjections fuel cfg res)) in
    if Reproject o then must res CReset (fun n => rest (set_reset n res)) else rest res.

(** [Project], with a clock. *)
Definition Project (fuel : nat) : outcome unit := recoverProjections fuel cfg no_result.
End panels.

(** ** The world programs run in *)

Record world := mkWorld { w_store : vdb; w_graphs : memClient; w_clock : Time }.

Definition on_store {A} (f : vdb -> result store_failure A * vdb) (w : world) : result call_error A * world :=
  let '(r, d) := f (w_store w) in (map_err StoreError r, mkWorld d (w_graphs w) (w_clock w)).
Definition on_client {A} (f : memClient -> result graph_error A * memClient) (w : world) : result call_error A * world :=
  let '(r, c) := f (w_graphs w) in (map_err GraphError r, mkWorld (w_store w) c (w_clock w)).

(** A call that works, fails on its way, or fails on its way back. *)
Inductive attempt {A} (f : world -> result call_error A * world) (w : world) : result call_error A -> world -> Prop :=
| works : attempt f w (f w).1 (f w).2
| fails : attempt f w (Err Unreachable) w
| lost : attempt f w (Err Unreachable) (f w).2.

Section world.
Context `{Postgres} `{Jsonb} (ctx : context) (tenantID : string).

(** What a call may answer, and the world it leaves; [locked] are the rows
    that transactions of others hold. *)
Definition answers (w : world) {X} (c : call X) : X -> world -> Prop :=
  match c in call X return X -> world -> Prop with
  | CNow => fun t w' => t = w_clock w /\ w' = w
  | CCancelled => fun _ w' => w' = w
  | CRender _ => fun _ w' => w' = w
  | CComplete _ => fun _ w' => w' = w
  | CCounts now => attempt (on_store (Counts ctx tenantID now)) w
  | CReset => attempt (on_store (ResetProjection ctx tenantID)) w
  | CUnprojected n now => attempt (on_store (Unprojected ctx tenantID n now)) w
  | CLease n leaseFor now => fun x w' => exists locked, attempt (on_store (Lease locked ctx tenantID n leaseFor now)) w x w'
  | CDecide key v => attempt (on_store (Decide ctx tenantID key v)) w
  | CDissent key v => attempt (on_store (RecordDissent ctx tenantID key v)) w
  | CFailure key f => attempt (on_store (RecordFailure ctx tenantID key f)) w
  | CClaim p until now => attempt (on_store (ClaimProjection ctx tenantID p until now)) w
  | CMark p until => attempt (on_store (MarkProjected ctx tenantID p until)) w
  | CRelease key until => attempt (on_store (ReleaseClaim ctx tenantID key until)) w
  | CCreateEdge s t e => attempt (on_client (fun c => CreateEdge c tenantID s t e)) w
  | CGetEdge id => attempt (on_client (fun c => (GetEdge c tenantID id, c))) w
  | CTraverse q => attempt (on_client (fun c => (Traverse c tenantID q, c))) w
  | CSupersede req => attempt (on_client (fun c => SupersedeFact c tenantID req)) w
  | CClosedPairs => attempt (on_store (ClosedPairs ctx tenantID)) w
  | CEnqueue cs now => attempt (on_store (Enqueue ctx tenantID cs now)) w
  | CRelationships q => attempt (on_client (fun c => (QueryRelationships c tenantID q, c))) w
  | CCreateNode n => attempt (on_client (fun c => CreateNode c tenantID n)) w
  | CBulkEdges es => attempt (on_client (fun c => BulkCreateEdges c tenantID es)) w
  | CUpsertNode n => attempt (on_client (fun c => UpsertNode c tenantID n)) w
  | CRequiresEdge r => attempt (on_client (fun c => CreateRequiresEdge c tenantID r)) w
  | CResolve _ => fun _ w' => w' = w
  | CControls _ => fun _ w' => w' = w
  end.
End world.
