(* ===== verification/Materialize.v ===== *)
(** What the graph role does with events: [internal/graph] (subscriber.go,
    subscriber_handlers.go, catalog_projection.go, resolver.go). A handler is a
    program ([Adjudicate]) of the tenant its event's subject names; the data it
    writes is what the calls for results and controls answer. Spans, counters,
    logs and the texts of errors are left out. *)

From S2P Require Import Prelude Float64 Gostrings Timefmt Tenant Sha256 Json Jsonread Jobconfig Bus Graph Graphevents Results Adjudicate.
Local Open Scope Z_scope.

(** * Definitions *)

Inductive materialize_error :=
| BadResults
| Writing (e : call_error).

Abbreviation writing := (prog (result materialize_error unit)).

(** [isNodeExists] *)
Definition isNodeExists (e : call_error) : bool :=
  match e with GraphError (ErrNodeExists _ _) | GraphError (ErrEdgeExists _) => true | _ => false end.

(** How a write that is answered with [x] goes on: [skips] is whether an edge
    whose endpoint is missing is skipped. *)
Definition accepted (skips : bool) (x : result call_error unit) : result materialize_error unit :=
  match x with
  | Ok _ => Ok tt
  | Err e => if isNodeExists e || (skips && node_not_found e) then Ok tt else Err (Writing e)
  end.

Definition write_one (skips : bool) (c : call (result call_error unit)) : writing := Do c (fun x => Ret (accepted skips x)).

Definition next (p q : writing) : writing := r ← p; match r with Ok _ => q | Err e => Ret (Err e) end.

(** A loop that stops at the first error. *)
Fixpoint each {A} (f : A -> writing) (l : list A) : writing :=
  match l with [] => Ret (Ok tt) | x :: l => next (f x) (each f l) end.

Definition with_results {A} (read : string -> option A) (data : string) (f : A -> writing) : writing :=
  match read data with Some rs => f rs | None => Ret (Err BadResults) end.

(** ** Results *)

(** What a handler is given: the tenant, the job and the results. *)
Abbreviation materializeFunc := (string -> string -> string -> writing).

Definition materializeRelationship : materializeFunc := fun _ jobID data =>
  with_results read_matches data (each (fun r =>
    Do CNow (fun now => write_one true (CCreateEdge (sm_SourceID r) (sm_TargetID r) (semantic_edge now jobID r))))).

Definition materializeRequires : materializeFunc := fun tenantID jobID data =>
  with_results read_requires data (each (fun r =>
    Do CNow (fun now => write_one true (CRequiresEdge (requires_edge now tenantID jobID r))))).

Definition materialize_artifact (now : Time) (jobID controlID : string) (ia : nat * Artifact) : writing :=
  let '(i, a) := ia in
  let artID := artifactID controlID i in
  next (write_one false (CCreateNode (artifact_node now jobID controlID i a)))
    (next (write_one false (CCreateNode (type_node now a)))
      (next (write_one true (CCreateEdge controlID artID (demands_edge now jobID controlID artID)))
        (write_one false (CCreateEdge artID (typeID (a_Type a)) (is_type_edge now jobID artID (a_Type a)))))).

Definition materializeArtifacts : materializeFunc := fun _ jobID data =>
  with_results read_artifacts data (fun rs =>
    Do CNow (fun now => each (fun r => each (materialize_artifact now jobID (ar_ControlID r)) (imap pair (ar_Artifacts r))) rs)).

Definition materializeClassify : materializeFunc := fun _ _ _ => Ret (Ok tt).
Definition materializeEmbed : materializeFunc := fun _ _ _ => Ret (Ok tt).

Definition handlerFor (analyzer : string) : option materializeFunc :=
  if bool_decide (analyzer = "relationship") then Some materializeRelationship
  else if bool_decide (analyzer = "requires") then Some materializeRequires
  else if bool_decide (analyzer = "artifacts") then Some materializeArtifacts
  else if bool_decide (analyzer = "classify") then Some materializeClassify
  else if bool_decide (analyzer = "embedding") then Some materializeEmbed
  else None.

(** ** Events *)

(** How an event ends; only the last two are errors of the handler. *)
Inductive event_end :=
| EventDropped
| EventUnhandled (analyzer : string)
| EventMaterialized (analyzer jobID data : string)
| EventUnresolved (e : option call_error)                  (* no error: no resolver has the scheme *)
| EventFailed (e : materialize_error).

(** [resolvers.Resolve], of a registry with resolvers for [schemes]. *)
Definition Resolve (schemes : gset string) (ref : ResourceRef) : prog (result (option call_error) string) :=
  if bool_decide (SchemeFromURI (ref_URI ref) ∈ schemes) then Do (CResolve ref) (fun x => Ret (map_err Some x)) else Ret (Err None).

Definition handle_event (schemes : gset string) (tenantID : string) (data : string) : prog event_end :=
  match read_event data with
  | None => Ret EventDropped
  | Some e =>
      let '(analyzer, jobID) := (ev_Analyzer e, ev_JobID e) in
      if bool_decide (analyzer = "" \/ jobID = "") then Ret EventDropped
      else
        match handlerFor analyzer with
        | None => Ret (EventUnhandled analyzer)
        | Some handle =>
            r ← Resolve schemes (event_ref e);
            match r with
            | Err x => Ret (EventUnresolved x)
            | Ok results =>
                r ← handle tenantID jobID results;
                Ret (match r with Ok _ => EventMaterialized analyzer jobID results | Err x => EventFailed x end)
            end
        end
  end.

Definition handleEvent (schemes : gset string) (ctx : context) (m : Message) : prog event_end :=
  match event_tenant ctx (msg_Subject m) with
  | None => Ret EventDropped
  | Some tenantID => handle_event schemes tenantID (msg_Data m)
  end.

(** ** Catalogs *)

Inductive projection_error :=
| Listing (e : call_error)
| NoControls
| Upserting (controlID : string) (e : call_error)
| Linking (sourceID controlID : string) (e : call_error).

Fixpoint upsert_controls (now : Time) (tenantID : string) (cs : list CatalogControl) (errs : list projection_error) : prog (list projection_error) :=
  match cs with
  | [] => Ret errs
  | c :: cs =>
      Do (CUpsertNode (control_node now tenantID c)) (fun x =>
        upsert_controls now tenantID cs (errs ++ match x with Ok _ => [] | Err e => [Upserting (cc_ControlID c) e] end))
  end.

Fixpoint parent_edges (now : Time) (cs : list CatalogControl) (errs : list projection_error) : prog (list projection_error) :=
  match cs with
  | [] => Ret errs
  | c :: cs =>
      if bool_decide (cc_ParentID c = "") then parent_edges now cs errs
      else
        Do (CCreateEdge (parent_node c) (cc_ControlID c) (parent_edge now c)) (fun x =>
          parent_edges now cs (errs ++
            match x with
            | Ok _ => []
            | Err e => if edge_exists e || node_not_found e then [] else [Linking (parent_node c) (cc_ControlID c) e]
            end))
  end.

(** The controls projected, and what went wrong. *)
Definition projectCatalog (tenantID catalogID : string) : prog (list CatalogControl * list projection_error) :=
  Do (CControls catalogID) (fun x =>
    match x with
    | Err e => Ret ([], [Listing e])
    | Ok [] => Ret ([], [NoControls])
    | Ok cs =>
        Do CNow (fun now =>
          errs ← upsert_controls now tenantID cs [];
          errs ← parent_edges now cs errs;
          Ret (cs, errs))
    end).

Inductive catalog_end :=
| CatalogDropped
| CatalogProjected (controls : list CatalogControl)
| CatalogFailed (errs : list projection_error).

Definition handleCatalogEvent (ctx : context) (m : Message) : prog catalog_end :=
  match catalog_target ctx (msg_Subject m) with
  | None => Ret CatalogDropped
  | Some (tenantID, catalogID) =>
      '(cs, errs) ← projectCatalog tenantID catalogID;
      Ret (match errs with [] => CatalogProjected cs | _ => CatalogFailed errs end)
  end.
