(* ===== verification/Fuzzy.v ===== *)
(** The matching of artifact names: [internal/analyzer/fuzzy.go].

    The lower case of a text is a parameter. A space is recognized byte by
    byte: the encoding of a space starts inside no other rune. *)

From S2P Require Import Prelude Float64 Gostrings Panel.
Local Open Scope Z_scope.

(** * Definitions *)

Class LowerCase := { go_ToLower : string -> string }.

(** [strings.TrimRight(s, ".")] *)
Definition trim_dots (l : list ascii) : list ascii := rev (drop_while (fun c => bool_decide (c = "."%char)) (rev l)).

(** [^(?i)(the|a|an)\s+], removed. *)
Definition article (lit : string) (l : list ascii) : option (list ascii) :=
  r ← fold_prefix (bytes_of lit) l;
  match r with c :: _ => if is_re_space c then Some (drop_while is_re_space r) else None | [] => None end.

Definition strip_article (l : list ascii) : list ascii :=
  default l (head (omap (fun lit => article lit l) ["THE"; "A"; "AN"])).

(** [\s+] replaced by one space; [in_run] is whether one was just written. *)
Fixpoint collapse (in_run : bool) (l : list ascii) : list ascii :=
  match l with
  | [] => []
  | c :: l => if is_re_space c then (if in_run then [] else [" "%char]) ++ collapse true l else c :: collapse false l
  end.

Definition NormalizeArtifactName `{LowerCase} (name : string) : string :=
  let name := trim_dots (bytes_of (go_ToLower (TrimSpace name))) in
  let name := TrimSpace (string_of (collapse false (strip_article name))) in
  if bool_decide (name = "the" \/ name = "a" \/ name = "an") then "" else name.

(** The size of the space a text starts with. *)
Definition space_size (l : list ascii) : option nat :=
  head (omap (fun r => match strip_prefix r l with Some _ => Some (length r) | None => None end) space_runes).

Definition word (w : list ascii) : list string := if bool_decide (w = []) then [] else [string_of (rev w)].

(** [strings.Fields]: [skip] bytes of a space are left, [w] is the word so far,
    backwards. *)
Fixpoint fields_from (skip : nat) (w l : list ascii) : list string :=
  match l with
  | [] => word w
  | c :: r =>
      match skip with
      | S skip => fields_from skip w r
      | O => match space_size l with Some n => word w ++ fields_from (n - 1)%nat [] r | None => fields_from 0 (c :: w) r end
      end
  end.
Definition Fields (s : string) : list string := fields_from 0 [] (bytes_of s).

Definition tokenSet (s : string) : gset string := list_to_set (Fields s).

Definition TokenOverlap (a b : string) : float64 :=
  let tokensA := tokenSet a in
  let tokensB := tokenSet b in
  if bool_decide (tokensA = ∅ \/ tokensB = ∅) then fzero
  else fdiv (fof_Z (Z.of_nat (size (tokensA ∩ tokensB)))) (fof_Z (Z.of_nat (Nat.min (size tokensA) (size tokensB)))).

Definition ArtifactNamesMatch (a b : string) (threshold : float64) : bool :=
  if bool_decide (TrimSpace a = "" \/ TrimSpace b = "") then false else fleb threshold (TokenOverlap a b).

(** * Facts *)

Lemma elem_of_tokenSet t s : t ∈ tokenSet s <-> t ∈ Fields s.
Proof. unfold tokenSet. apply elem_of_list_to_set. Qed.

Lemma fdiv_zero y : nonneg y = true -> fdiv fzero y = NaN \/ fdiv fzero y = fzero.
Proof.
  unfold fzero, fdiv. destruct y as [|[]|[] p]; try done; [by right|]. intros Hp%Z.leb_le. destruct (Z.eqb_spec p 0); [by left|right].
  unfold round, round_mag, rne. rewrite Z.mul_0_l, Z.div_0_l, Z.mod_0_l by (pose proof (ulp_pow_pos 0); lia).
  assert (0 < p * 2 ^ ulp_of 0) by (pose proof (ulp_pow_pos 0); nia). by rewrite (proj2 (Z.ltb_lt _ _)) by lia.
Qed.

(** Names without a token in common never reach a threshold above zero. *)
Lemma TokenOverlap_disjoint t a b :
  fltb fzero t = true -> (forall w, w ∈ Fields a -> w ∉ Fields b) -> fleb t (TokenOverlap a b) = false.
Proof.
  intros Ht Hd. assert (fleb t fzero = false) as Hz.
  { unfold fzero in *. destruct t as [|[]|s m]; try done. cbn in Ht |- *. unfold fleb. cbn. apply Z.ltb_lt in Ht.
    apply orb_false_iff. split; [apply Z.ltb_ge; lia|apply Z.eqb_neq; lia]. }
  unfold TokenOverlap. case_bool_decide as He; [done|]. assert (tokenSet a ∩ tokenSet b = ∅) as ->.
  { apply elem_of_equiv_empty_L. intros w [Ha Hb]%elem_of_intersection. apply elem_of_tokenSet in Ha, Hb. by apply (Hd w). }
  rewrite size_empty. change (fof_Z (Z.of_nat 0)) with fzero. destruct (fdiv_zero (fof_Z (Z.of_nat (Nat.min (size (tokenSet a)) (size (tokenSet b)))))) as [->| ->].
  - apply nonneg_fof_Z. lia.
  - unfold fleb. destruct t as [|[]|]; done.
  - done.
Qed.

Example normalize_ex : let _ := {| go_ToLower s := s |} in NormalizeArtifactName " the   incident  response plan. " = "incident response plan".
Proof. reflexivity. Qed.

Example overlap_ex : fleb (fconst 6 10) (TokenOverlap "incident response plan" "response plan") = true /\ Fields " a  b" = ["a"; "b"].
Proof. split; vm_compute; reflexivity. Qed.
