(* ===== verification/Reconcile.v ===== *)
(** The artifact reconciler: [internal/analyzer/artifacts/reconcile.go].

    A run is a program ([Adjudicate]): it reads the artifacts controls demand
    and the stored edges, groups and matches them, plans what is missing, writes
    it in chunks and enqueues every open match for adjudication. The order in
    which maps are ranged over does not matter: their keys are sorted, or they
    are only looked up. The texts of errors are left out. *)

From S2P Require Import Prelude Float64 Timefmt Gostrings Sha256 Graph MemDriver Verdicts Verdictstore Panel Adjudicate Fuzzy.
Local Open Scope Z_scope.

(** * Definitions *)

Definition artifactLabel : string := "Artifact".
Definition demandsLabel : string := "DEMANDS".
Definition controlLabel : string := "Control".
Definition artifactGroupLabel : string := "ArtifactGroup".
Definition memberOfLabel : string := "MEMBER_OF".
Definition exactNameMethod : string := "exact_name".
Definition tokenOverlapMethod : string := "token_overlap".
Definition reconcileThreshold : float64 := fconst 6 10.
Definition maxSamplesPerGroup : nat := 3.
Definition ReconcileAlgorithmVersion : string := "token-overlap-v1".

Record ReconcileOptions := mkReconcileOptions { ro_DryRun : bool; MaxEdges : Z; ChunkSize : Z; ro_Now : Time }.

Record ReconcileResult := mkReconcileResult {
  Artifacts : Z; rr_Skipped : Z; Groups : Z; NewGroups : Z; NewMemberships : Z; Matches : Z; rr_Closed : Z; NewMatches : Z;
}.

Record artifactGroup := mkArtifactGroup {
  gr_id : string; gr_name : string; gr_typ : string; members : list string; samples : list MemberSample;
}.

Record groupMatch := mkMatch { m_low : string; m_high : string; m_score : float64 }.

(** ** Groups *)

Record loading := mkLoading {
  ld_groups : gmap string artifactGroup;
  sampleOf : gmap string MemberSample;
  seen : gset string;
  loaded : Z;
  ld_skipped : Z;
}.

Section loadGroups.
Context `{LowerCase}.

Definition load_rel (s : loading) (r : Relationship) : loading :=
  let '(mkLoading groups sample seen loaded skipped) := s in
  let art := r_Target r in
  if bool_decide (n_ID art ∈ seen) || bool_decide (is_Some (n_ValidTo art)) then s
  else
    let seen := {[ n_ID art ]} ∪ seen in
    let prop k := stringProp (n_Properties art) k in
    let name := NormalizeArtifactName (prop "name") in
    let typ := go_ToLower (TrimSpace (prop "type")) in
    if bool_decide (name = "" \/ typ = "") then mkLoading groups sample seen loaded (skipped + 1)
    else
      let id := DerivedID ["artifact-group"; typ; name] in
      let gr := default (mkArtifactGroup id name typ [] []) (groups !! id) in
      mkLoading (<[id := mkArtifactGroup (gr_id gr) (gr_name gr) (gr_typ gr) (members gr ++ [n_ID art]) []]> groups)
        (<[n_ID art := mkSample (prop "name") (prop "owner_role") (prop "frequency")]> sample) seen (loaded + 1) skipped.

(** The members sorted, and the samples of the first. *)
Definition finish_group (sample : gmap string MemberSample) (gr : artifactGroup) : artifactGroup :=
  let ms := sort_strings (members gr) in
  mkArtifactGroup (gr_id gr) (gr_name gr) (gr_typ gr) ms ((fun id => default (mkSample "" "" "") (sample !! id)) <$> take maxSamplesPerGroup ms).

Definition artifacts_query : RelationshipQuery := mkRelationshipQuery controlLabel artifactLabel demandsLabel ∅.

Definition group_rels (rels : list Relationship) : list artifactGroup * Z * Z :=
  let s := foldl load_rel (mkLoading ∅ ∅ ∅ 0 0) rels in
  (omap (fun id => finish_group (sampleOf s) <$> ld_groups s !! id) (sorted_keys (ld_groups s)), loaded s, ld_skipped s).
End loadGroups.

(** ** Matches *)

Definition tokenKey : Type := string * string.

Definition index_token (i : nat) (typ : string) (index : gmap tokenKey (list nat)) (tok : string) : gmap tokenKey (list nat) :=
  let idx := default [] (index !! (typ, tok)) in
  if bool_decide (last idx = Some i) then index else <[(typ, tok) := idx ++ [i]]> index.

Definition index_group (index : gmap tokenKey (list nat)) (ig : nat * artifactGroup) : gmap tokenKey (list nat) :=
  foldl (index_token ig.1 (gr_typ ig.2)) index (Fields (gr_name ig.2)).

Definition token_index (groups : list artifactGroup) : gmap tokenKey (list nat) := foldl index_group ∅ (imap pair groups).

(** The groups after the [i]-th that share a token with it. *)
Definition candidates_of (index : gmap tokenKey (list nat)) (i : nat) (gr : artifactGroup) : gset nat :=
  foldl (fun c tok => foldl (fun c j => if (i <? j)%nat then {[ j ]} ∪ c else c) c (default [] (index !! (gr_typ gr, tok)))) ∅ (Fields (gr_name gr)).

Definition match_with (gr : artifactGroup) (other : artifactGroup) : option groupMatch :=
  let score := TokenOverlap (gr_name gr) (gr_name other) in
  if fleb reconcileThreshold score then Some (mkMatch (gr_id gr) (gr_id other) score) else None.

Definition matches_of (groups : list artifactGroup) (index : gmap tokenKey (list nat)) (ig : nat * artifactGroup) : list groupMatch :=
  omap (fun j => groups !! j ≫= match_with ig.2) (merge_sort le (elements (candidates_of index ig.1 ig.2))).

Definition matchGroups (groups : list artifactGroup) : list groupMatch :=
  imap pair groups ≫= matches_of groups (token_index groups).

(** ** What is missing *)

Definition sameAsEdgeID (low high : string) : string := DerivedID ["same-as"; ReconcileAlgorithmVersion; low; high].
Definition memberEdgeID (artID groupID : string) : string := DerivedID ["member-of"; artID; groupID].

Definition group_node (now : Time) (gr : artifactGroup) : node_in :=
  mkNode (gr_id gr) artifactGroupLabel {[ "name" := AString (gr_name gr); "type" := AString (gr_typ gr) ]} now None reconcilerName exactNameMethod.

Definition member_edge (now : Time) (artID groupID : string) : BulkEdge :=
  mkBulkEdge artID groupID (mkEdge (memberEdgeID artID groupID) memberOfLabel ∅ now None reconcilerName exactNameMethod fone "").

Definition match_edge (now : Time) (m : groupMatch) : BulkEdge :=
  mkBulkEdge (m_low m) (m_high m)
    (mkEdge (sameAsEdgeID (m_low m) (m_high m)) sameAsLabel
       {[ "similarity_score" := AFloat64 (m_score m); "matched_at" := AString (FormatTime now);
          "algorithm_version" := AString ReconcileAlgorithmVersion ]}
       now None reconcilerName tokenOverlapMethod (m_score m) "").

Definition planWrites (groups : list artifactGroup) (matches : list groupMatch) (storedMembers storedSameAs : list Relationship) (now : Time)
  : list node_in * list BulkEdge * list BulkEdge :=
  let storedEdges : gset string := list_to_set ((fun r => e_ID (r_Edge r)) <$> storedMembers ++ storedSameAs) in
  let storedGroups : gset string := list_to_set ((fun r => n_ID (r_Target r)) <$> storedMembers) in
  let new (be : BulkEdge) := negb (bool_decide (e_ID (be_Edge be) ∈ storedEdges)) in
  (group_node now <$> List.filter (fun gr => negb (bool_decide (gr_id gr ∈ storedGroups))) groups,
   List.filter new (gr ← groups; artID ← members gr; [member_edge now artID (gr_id gr)]),
   List.filter new (match_edge now <$> matches)).

(** ** Candidates *)

Definition group_by_id (groups : list artifactGroup) : gmap string artifactGroup :=
  foldl (fun m gr => <[gr_id gr := gr]> m) ∅ groups.

(** [None] is a nil pointer. *)
Definition pair_candidate (byID : gmap string artifactGroup) (m : groupMatch) : option PairCandidate :=
  low ← byID !! m_low m; high ← byID !! m_high m;
  Some (mkCandidate (m_low m) (m_high m) (sameAsEdgeID (m_low m) (m_high m)) (m_score m)
          (mkContext (gr_typ low) (gr_name low) (gr_name high) (samples low) (samples high))).
Definition pairCandidates (groups : list artifactGroup) (matches : list groupMatch) : option (list PairCandidate) :=
  mapM (pair_candidate (group_by_id groups)) matches.

(** ** A run *)

Inductive reconcile_stop :=
| BadOptions
| TooManyEdges (n : Z)
| Failing (e : call_error)
| Panics.

Abbreviation reconciling A := (prog (A * result reconcile_stop unit)).

(** The index of the edge a chunk was refused for because its ID is taken. *)
Definition taken_edge (e : call_error) : option nat :=
  match e with GraphError (BulkEdgeError i (ErrEdgeExists _)) => Some i | _ => None end.

(** One chunk: [slices.Delete] panics out of range, and each retry is of a
    shorter chunk. *)
Fixpoint write_chunk (fuel : nat) (chunk : list BulkEdge) : prog (result reconcile_stop Z) :=
  match chunk, fuel with
  | [], _ => Ret (Ok 0)
  | _, O => Ret (Err Panics)
  | _, S fuel =>
      Do (CBulkEdges chunk) (fun r =>
        match r with
        | Ok _ => Ret (Ok (Z.of_nat (length chunk)))
        | Err e =>
            match taken_edge e with
            | Some i => if (i <? length chunk)%nat then write_chunk fuel (delete i chunk) else Ret (Err Panics)
            | None => Ret (Err (Failing e))
            end
        end)
  end.

Fixpoint write_chunks (cs : list (list BulkEdge)) (created : Z) : reconciling Z :=
  match cs with
  | [] => Ret (created, Ok tt)
  | chunk :: cs =>
      r ← write_chunk (length chunk) chunk;
      match r with Ok n => write_chunks cs (created + n) | Err e => Ret (created, Err e) end
  end.

Definition writeEdges (edges : list BulkEdge) (size : Z) : reconciling Z := write_chunks (chunks (length edges) (Z.to_nat size) edges) 0.

Definition is_node_exists (e : call_error) : bool := match e with GraphError (ErrNodeExists _ _) => true | _ => false end.

Fixpoint create_groups (nodes : list node_in) (created : Z) : reconciling Z :=
  match nodes with
  | [] => Ret (created, Ok tt)
  | n :: nodes =>
      Do (CCreateNode n) (fun r =>
        match r with
        | Ok _ => create_groups nodes (created + 1)
        | Err e => if is_node_exists e then create_groups nodes created else Ret (created, Err (Failing e))
        end)
  end.

(** The three counters of what is written, of a result. *)
Definition set_new (groups memberships matches : Z) (r : ReconcileResult) : ReconcileResult :=
  let '(mkReconcileResult a s g _ _ m c _) := r in mkReconcileResult a s g groups memberships m c matches.

Definition writes (o : ReconcileOptions) (res : ReconcileResult) (newGroups : list node_in) (memberships sameAs : list BulkEdge)
  (queue : option (list PairCandidate)) : reconciling ReconcileResult :=
  '(ng, r) ← create_groups newGroups 0;
  match r with
  | Err e => Ret (set_new ng 0 0 res, Err e)
  | Ok _ =>
      '(nm, r) ← writeEdges memberships (ChunkSize o);
      match r with
      | Err e => Ret (set_new ng nm 0 res, Err e)
      | Ok _ =>
          '(ns, r) ← writeEdges sameAs (ChunkSize o);
          match r with
          | Err e => Ret (set_new ng nm ns res, Err e)
          | Ok _ =>
              match queue with
              | None => Ret (set_new ng nm ns res, Err Panics)
              | Some cs =>
                  Do (CEnqueue cs (ro_Now o)) (fun r =>
                    Ret (set_new ng nm ns res, match r with Ok _ => Ok tt | Err e => Err (Failing e) end))
              end
          end
      end
  end.

Definition no_reconcile : ReconcileResult := mkReconcileResult 0 0 0 0 0 0 0 0.

(** Go's [if err != nil { return res, err }]. *)
Definition need {X} (res : ReconcileResult) (c : call (result call_error X)) (f : X -> reconciling ReconcileResult) : reconciling ReconcileResult :=
  Do c (fun r => match r with Ok x => f x | Err e => Ret (res, Err (Failing e)) end).

Definition Reconcile `{LowerCase} (o : ReconcileOptions) : reconciling ReconcileResult :=
  if (MaxEdges o <=? 0) || (ChunkSize o <=? 0) || IsZero (ro_Now o) then Ret (no_reconcile, Err BadOptions)
  else
    need no_reconcile (CRelationships artifacts_query) (fun rels =>
      let '(groups, loaded, skipped) := group_rels rels in
      let matches := matchGroups groups in
      let counted c := mkReconcileResult loaded skipped (Z.of_nat (length groups)) 0 0 (Z.of_nat (length matches)) c 0 in
      need (counted 0) CClosedPairs (fun closed =>
        let is_open m := negb (bool_decide (PairKey (m_low m) (m_high m) ∈ closed)) in
        let open := List.filter is_open matches in
        let res := counted (Z.of_nat (length matches) - Z.of_nat (length open)) in
        need res (CRelationships (mkRelationshipQuery artifactLabel artifactGroupLabel memberOfLabel ∅)) (fun storedMembers =>
          need res (CRelationships (mkRelationshipQuery artifactGroupLabel artifactGroupLabel sameAsLabel ∅)) (fun storedSameAs =>
            let '(newGroups, memberships, sameAs) := planWrites groups open storedMembers storedSameAs (ro_Now o) in
            if MaxEdges o <? Z.of_nat (length sameAs) then Ret (res, Err (TooManyEdges (Z.of_nat (length sameAs))))
            else if ro_DryRun o
                 then Ret (set_new (Z.of_nat (length newGroups)) (Z.of_nat (length memberships)) (Z.of_nat (length sameAs)) res, Ok tt)
            else writes o res newGroups memberships sameAs (pairCandidates groups open))))).
