(* ===== verification/ReconcileFacts.v ===== *)
(** The reconciler ([Reconcile]) finds every match. *)

From S2P Require Import Prelude Float64 Gostrings Graph Verdicts Fuzzy Reconcile.
Local Open Scope Z_scope.

(** * Definitions *)

(** Two groups match: of one type, their names overlap enough. *)
Definition pair_match (gr other : artifactGroup) : option groupMatch :=
  if bool_decide (gr_typ other = gr_typ gr) then match_with gr other else None.

(** Every pair of groups, compared. *)
Fixpoint all_matches (groups : list artifactGroup) : list groupMatch :=
  match groups with [] => [] | gr :: groups => omap (pair_match gr) groups ++ all_matches groups end.

(** A group has the token. *)
Definition shares (gr : artifactGroup) (typ tok : string) : Prop := gr_typ gr = typ /\ tok ∈ Fields (gr_name gr).

(** What the index holds after some groups: the positions of those that have
    the token. *)
Definition indexes (index : gmap tokenKey (list nat)) (P : nat -> string -> string -> Prop) : Prop :=
  forall typ tok, forall j, j ∈ default [] (index !! (typ, tok)) <-> P j typ tok.

(** * Facts *)

(** ** Matches *)

Lemma foldl_snoc_ind {A B} (f : A -> B -> A) (P : A -> list B -> Prop) a l :
  P a [] -> (forall x done b, P x done -> P (f x b) (done ++ [b])) -> P (foldl f a l) l.
Proof.
  intros H0 Hs. assert (forall done x, P x done -> P (foldl f x l) (done ++ l)) as Hg.
  { induction l as [|b l IH]; intros done x Hx; cbn; [by rewrite app_nil_r|]. rewrite cons_middle, app_assoc. apply IH, Hs, Hx. }
  by apply (Hg []).
Qed.

Lemma index_group_spec index P i gr :
  indexes index P -> indexes (index_group index (i, gr)) (fun j typ tok => P j typ tok \/ (j = i /\ shares gr typ tok)).
Proof.
  intros Hi. unfold index_group, shares. cbn [fst snd]. 
  apply (foldl_snoc_ind (index_token i (gr_typ gr)) (fun index toks => indexes index (fun j typ tok => P j typ tok \/ (j = i /\ gr_typ gr = typ /\ tok ∈ toks)))).
  - intros typ tok j. rewrite (Hi typ tok j). split; [by left|]. intros [|(_ & _ & []%not_elem_of_nil)]; done.
  - intros x done t Hx typ tok j. unfold index_token. specialize (Hx typ tok j).
    assert (forall k, k ∈ done ++ [t] <-> k ∈ done \/ k = t) as Ht by (intros k; by rewrite elem_of_app, list_elem_of_singleton).
    case_bool_decide as Hl.
    + rewrite Hx, Ht. destruct (decide (tok = t)) as [->|]; [|naive_solver]. destruct (decide (gr_typ gr = typ)) as [<-|]; [|naive_solver].
      split; [naive_solver|]. intros [|(-> & _ & _)]; [by left|]. apply Hx. apply last_Some_elem_of in Hl. done.
    + destruct (decide ((gr_typ gr, t) = (typ, tok))) as [[= <- <-]|Hne].
      * rewrite lookup_insert_eq. cbn [default from_option id]. rewrite elem_of_app, list_elem_of_singleton, Hx, Ht. naive_solver.
      * rewrite lookup_insert_ne by done. rewrite Hx, Ht. naive_solver.
Qed.

Lemma token_index_spec groups :
  indexes (token_index groups) (fun j typ tok => exists gr, groups !! j = Some gr /\ shares gr typ tok).
Proof.
  unfold token_index. set (P := fun (l : list (nat * artifactGroup)) j typ tok => exists gr, (j, gr) ∈ l /\ shares gr typ tok).
  assert (indexes (foldl index_group ∅ (imap pair groups)) (P (imap pair groups))) as Hg.
  { apply (foldl_snoc_ind index_group (fun index l => indexes index (P l))).
    - intros typ tok j. rewrite lookup_empty. split; [by intros ?%not_elem_of_nil|]. intros (gr & []%not_elem_of_nil & _).
    - intros x done [i gr] Hx typ tok j. rewrite (index_group_spec x _ i gr Hx typ tok j). unfold P. split.
      + intros [(g & Hg & ?)|[-> ?]]; [exists g|exists gr]; (split; [|done]); apply elem_of_app; [by left|right; by apply list_elem_of_singleton].
      + intros (g & [Hg|[= -> ->]%list_elem_of_singleton]%elem_of_app & ?); [left; by exists g|by right]. }
  intros typ tok j. rewrite (Hg typ tok j). unfold P. split; intros (gr & Hin & ?); exists gr; (split; [|done]).
  - apply elem_of_lookup_imap in Hin as (k & x & [= -> ->] & Hk). done.
  - apply elem_of_lookup_imap. by exists j, gr.
Qed.

Lemma elem_of_candidates groups i gr j :
  j ∈ candidates_of (token_index groups) i gr <->
  (i < j)%nat /\ exists other tok, groups !! j = Some other /\ gr_typ other = gr_typ gr /\ tok ∈ Fields (gr_name other) /\ tok ∈ Fields (gr_name gr).
Proof.
  unfold candidates_of. set (idx := token_index groups).
  assert (forall (c : gset nat) l, j ∈ foldl (fun c j => if (i <? j)%nat then {[ j ]} ∪ c else c) c l <-> j ∈ c \/ (j ∈ l /\ (i < j)%nat)) as Hin.
  { intros c l. revert c. induction l as [|k l IH]; intros c; cbn [foldl]; [rewrite elem_of_nil; tauto|]. rewrite IH, elem_of_cons.
    destruct (Nat.ltb_spec i k); [rewrite elem_of_union, elem_of_singleton|]; naive_solver lia. }
  assert (forall (c : gset nat) toks, j ∈ foldl (fun c tok => foldl (fun c j => if (i <? j)%nat then {[ j ]} ∪ c else c) c (default [] (idx !! (gr_typ gr, tok)))) c toks <->
    j ∈ c \/ ((i < j)%nat /\ exists tok, tok ∈ toks /\ j ∈ default [] (idx !! (gr_typ gr, tok)))) as Hout.
  { intros c toks. revert c. induction toks as [|t toks IH]; intros c; cbn [foldl].
    - split; [by left|]. intros [|(_ & tok & []%not_elem_of_nil & _)]; done.
    - rewrite IH, Hin. split; [|].
      + intros [[?|[? ?]]|(? & tok & ? & ?)]; [by left|right|right]; (split; [done|]); [exists t|exists tok]; (split; [|done]); [by left|by right].
      + intros [?|(? & tok & [->|?]%elem_of_cons & ?)]; [by left; left|by left; right|right]. split; [done|]. by exists tok. }
  rewrite Hout, elem_of_empty. split.
  - intros [[]|(Hij & tok & Htok & Hj)]. apply (token_index_spec groups) in Hj as (other & Ho & Hty & Ht). split; [done|]. by exists other, tok.
  - intros (Hij & other & tok & Ho & Hty & Ht & Ht'). right. split; [done|]. exists tok. split; [done|]. apply (token_index_spec groups).
    by exists other.
Qed.

Lemma omap_filter {A B} (P : A -> Prop) `{forall x, Decision (P x)} (f g : A -> option B) (l : list A) :
  (forall x, x ∈ l -> P x -> f x = g x) -> (forall x, x ∈ l -> ~ P x -> g x = None) -> omap f (filter P l) = omap g l.
Proof.
  induction l as [|x l IH]; intros Hf Hg; [done|]. rewrite filter_cons. destruct (decide (P x)) as [Hx|Hx]; cbn.
  - rewrite (Hf x) by (done || left). rewrite IH; [done|..]; intros y Hy; [apply Hf|apply Hg]; by right.
  - rewrite (Hg x) by (done || left). apply IH; intros y Hy; [apply Hf|apply Hg]; by right.
Qed.

Lemma omap_seq_drop {A B} (f : A -> option B) (l : list A) k : omap (fun j => l !! j ≫= f) (seq k (length l - k)) = omap f (drop k l).
Proof.
  remember (length l - k)%nat as n eqn:Hn. revert k Hn. induction n as [|n IH]; intros k Hn.
  - by rewrite drop_ge by lia.
  - destruct (lookup_lt_is_Some_2 l k) as [x Hx]; [lia|]. rewrite (drop_S l x k Hx). cbn. rewrite Hx. cbn. by rewrite IH by lia.
Qed.

(** The sorted elements of a set of positions. *)
Lemma sorted_positions (C : gset nat) k n : (forall j, j ∈ C -> (k <= j < k + n)%nat) -> merge_sort le (elements C) = filter (.∈ C) (seq k n).
Proof.
  intros HC. apply (StronglySorted_unique le).
  - apply Sorted_StronglySorted; [intros ? ? ?; lia|]. apply (Sorted_merge_sort _).
  - assert (forall k n, StronglySorted le (filter (.∈ C) (seq k n))) as Hs; [|apply Hs]. clear. intros k n. revert k.
    induction n as [|n IH]; intros k; cbn [seq]; [constructor|]. rewrite filter_cons. destruct (decide _); [|done]. constructor; [done|].
    apply Forall_forall. intros x [_ Hx]%list_elem_of_filter. apply elem_of_seq in Hx. lia.
  - rewrite merge_sort_Permutation. apply NoDup_Permutation; [apply NoDup_elements|apply NoDup_filter, NoDup_seq|].
    intros j. rewrite elem_of_elements, list_elem_of_filter, elem_of_seq. naive_solver.
Qed.

Lemma threshold_positive : fltb fzero reconcileThreshold = true.
Proof. by vm_compute. Qed.

Lemma matches_of_spec groups i gr :
  groups !! i = Some gr -> matches_of groups (token_index groups) (i, gr) = omap (pair_match gr) (drop (S i) groups).
Proof.
  intros Hi. unfold matches_of. cbn [fst snd]. rewrite (sorted_positions _ (S i) (length groups - S i)).
  2: { intros j (Hj & other & _ & Ho & _)%elem_of_candidates. apply lookup_lt_Some in Ho. lia. }
  rewrite <- omap_seq_drop. apply omap_filter.
  - intros j _ (_ & other & tok & Ho & Hty & _)%elem_of_candidates. rewrite Ho. cbn. unfold pair_match. by rewrite bool_decide_eq_true_2.
  - intros j Hj Hn. destruct (groups !! j) as [other|] eqn:Ho; [|done]. cbn. unfold pair_match. case_bool_decide as Hty; [|done].
    unfold match_with. rewrite TokenOverlap_disjoint; [done|exact threshold_positive|]. intros w Hw Hw'. apply Hn. apply elem_of_candidates.
    apply elem_of_seq in Hj. split; [lia|]. by exists other, w.
Qed.

Lemma all_matches_imap pre l :
  imap (fun i gr => ((length pre + i)%nat, gr)) l ≫= (fun ig => omap (pair_match ig.2) (drop (S ig.1) (pre ++ l))) = all_matches l.
Proof.
  revert pre. induction l as [|gr l IH]; intros pre; [done|]. cbn [imap]. rewrite bind_cons. cbn [fst snd all_matches]. f_equal.
  - rewrite Nat.add_0_r, cons_middle, app_assoc, drop_app_length'; [done|]. rewrite length_app. cbn. lia.
  - rewrite <- (IH (pre ++ [gr])). rewrite <- app_assoc. cbn [app]. f_equal. apply imap_ext. intros i x _. cbn. f_equal. rewrite length_app. cbn. lia.
Qed.

Lemma matchGroups_imap groups :
  matchGroups groups = imap (fun i gr => ((length (@nil artifactGroup) + i)%nat, gr)) groups ≫= (fun ig => omap (pair_match ig.2) (drop (S ig.1) ([] ++ groups))).
Proof.
  apply Forall_bind_ext, Forall_forall. intros [i gr] Hin.
  apply matches_of_spec. by apply elem_of_lookup_imap in Hin as (k & x & [= -> ->] & Hk).
Qed.

(** C10. Looking only at groups that share a token finds every match: matchGroups
    is the comparison of every pair of groups, in order, whatever the groups. *)
Theorem matchGroups_exact groups : matchGroups groups = all_matches groups.
Proof. rewrite matchGroups_imap. apply all_matches_imap. Qed.
