(* ===== verification/Agreement.v ===== *)
(** When a tenant's graph agrees with a decided pair ([Adjudicate]), and what
    the graph's writes ([MemDriver]) do to that. *)

From stdpp Require Import pretty.
From S2P Require Import Prelude Regexp Float64 Timefmt Tenant Graph MemDriver MemDriverFacts Graphevents Verdicts Verdictstore Adjudicate Fuzzy Reconcile.

(** * Definitions *)

Definition graph_of (c : memClient) (t : string) : memGraph := default empty_graph (graphs c !! t).

Definition superseded (e : memEdge) : Prop := is_Some (me_props e !! "valid_to").

(** An edge from the node [s] to the node [t]. *)
Definition lies (g : memGraph) (label s t : string) (e : memEdge) : Prop :=
  me_label e = label /\ nodeByID g s = Some (me_source e) /\ nodeByID g t = Some (me_target e).
Abbreviation between g low high e := (lies g sameAsLabel low high e).

Definition stored (g : memGraph) (id : string) : Prop := exists e, e ∈ g_edges g /\ edge_id e = id.
(** Every edge with the ID is superseded. *)
Definition retired (g : memGraph) (id : string) : Prop := forall e, e ∈ g_edges g -> edge_id e = id -> superseded e.

(** The graph says what the row says. A person's confirmation is the only
    SAME_AS edge from the low to the high group that is not superseded, and a
    person's rejection leaves none; a panel's confirmation is stored and the
    candidate superseded, as by a panel's rejection. *)
Definition agrees (g : memGraph) (r : row) : Prop :=
  let u := rl r in
  if by_human r then
    if bool_decide (ru_status u = VerdictConfirmed) then
      let keep := humanEdgeID (low r) (high r) (default 0%Z (ru_decided u)) in
      stored g keep /\ forall e, e ∈ g_edges g -> between g (low r) (high r) e -> edge_id e = keep \/ superseded e
    else forall e, e ∈ g_edges g -> between g (low r) (high r) e -> superseded e
  else if bool_decide (ru_status u = VerdictConfirmed) then stored g (panelEdgeID (low r) (high r)) /\ retired g (candidate r)
  else retired g (candidate r).

(** An ID the adjudicator gives. *)
Definition projected_id (id : string) : Prop :=
  exists lo hi, id = panelEdgeID lo hi \/ exists t, id = humanEdgeID lo hi t.

Definition same_edge (e e' : memEdge) : Prop :=
  me_label e' = me_label e /\ me_source e' = me_source e /\ me_target e' = me_target e /\ edge_id e' = edge_id e /\
  (superseded e -> superseded e').

(** What any write does to a graph: nothing is removed or moved. *)
Record extends (g g' : memGraph) : Prop := {
  ex_nodes : forall id i, nodeByID g id = Some i -> nodeByID g' id = Some i;
  ex_edges : forall i e, g_edges g !! i = Some e -> exists e', g_edges g' !! i = Some e' /\ same_edge e e';
  ex_labels : forall i n, g_nodes g !! i = Some n -> exists n', g_nodes g' !! i = Some n' /\ mn_label n' = mn_label n;
}.

(** The node with the ID, by its label. *)
Definition labelled (g : memGraph) (id label : string) : Prop := exists i n, nodeByID g id = Some i /\ g_nodes g !! i = Some n /\ mn_label n = label.

(** What happens to a graph while nobody projects the pair [lo], [hi]. *)
Record grows (lo hi : string) (g g' : memGraph) : Prop := {
  gr_extends : extends g g';
  gr_back : forall i e e', g_edges g !! i = Some e -> g_edges g' !! i = Some e' -> between g' lo hi e' -> between g lo hi e;
  gr_new : forall i e, g_edges g' !! i = Some e -> g_edges g !! i = None -> ~ between g' lo hi e /\ edge_id e <> sameAsEdgeID lo hi;
}.

(** An edge with the ID connects the nodes, and the token-overlap edge a pair. *)
Definition joined (g : memGraph) (id label s t : string) : Prop := exists e, e ∈ g_edges g /\ lies g label s t e /\ edge_id e = id.
Definition linked (g : memGraph) (lo hi : string) : Prop := joined g (sameAsEdgeID lo hi) sameAsLabel lo hi.

(** The IDs that say where their edge lies: those of the reconciler and of the
    graph role. *)
Inductive places : string -> string -> string -> string -> Prop :=
| pl_same_as lo hi : places (sameAsEdgeID lo hi) sameAsLabel lo hi
| pl_member art g : places (memberEdgeID art g) memberOfLabel art g
| pl_match job s t : places (DerivedID [SemanticMatchEdgeIDKind; job; s; t]) SemanticMatchEdgeLabel s t
| pl_requires job s t : places (DerivedID ["requires"; job; s; t]) "REQUIRES" s t
| pl_demands c art : places (DerivedID ["demands"; c; art]) "DEMANDS" c art
| pl_is_type art type : places (DerivedID ["is-type"; art; type]) "IS_TYPE" art (typeID type)
| pl_parent s t : places (DerivedID ["parent-of"; s; t]) "PARENT_OF" s t.

(** Every SAME_AS edge has an ID, and an edge lies where its ID says. *)
Definition ids_named (g : memGraph) : Prop := forall e, e ∈ g_edges g -> me_label e = sameAsLabel -> edge_id e <> "".
Definition ids_placed (g : memGraph) : Prop :=
  forall e id label s t, e ∈ g_edges g -> edge_id e = id -> places id label s t -> lies g label s t e.

(** * Facts *)

Lemma same_edge_refl e : same_edge e e.
Proof. done. Qed.
Lemma same_edge_trans e1 e2 e3 : same_edge e1 e2 -> same_edge e2 e3 -> same_edge e1 e3.
Proof. unfold same_edge. intros (? & ? & ? & ? & ?) (? & ? & ? & ? & ?). split_and!; try congruence. auto. Qed.

Lemma projected_not_placed id label s t : projected_id id -> ~ places id label s t.
Proof.
  intros Hpr Hp. destruct Hp; destruct Hpr as (a & b & [Hid|(u & Hid)]);
    unfold sameAsEdgeID, memberEdgeID, panelEdgeID, humanEdgeID in Hid; apply DerivedID_eq in Hid; done.
Qed.

Lemma places_eq id label s t : places id label s t -> forall id' label' s' t', places id' label' s' t' -> id' = id -> label' = label /\ s' = s /\ t' = t.
Proof. intros [] ???? [] Hid; unfold sameAsEdgeID, memberEdgeID in Hid; apply DerivedID_eq in Hid; simplify_eq; done. Qed.

Lemma places_inj id label s t label' s' t' : places id label s t -> places id label' s' t' -> label' = label /\ s' = s /\ t' = t.
Proof. intros Hp Hp'. by eapply places_eq. Qed.

Lemma places_named id label s t : places id label s t -> id <> "".
Proof. by intros []. Qed.

Lemma sameAsEdgeID_inj lo hi lo' hi' : sameAsEdgeID lo hi = sameAsEdgeID lo' hi' -> lo = lo' /\ hi = hi'.
Proof. unfold sameAsEdgeID. intros [=]%DerivedID_eq; done. Qed.

(** ** Graphs that grow *)

Lemma extends_same g g' : same_store g g' -> extends g g'.
Proof.
  intros [Hn He _ _]. split; [intros id i; by rewrite (nodeByID_eq g g')| |intros i n Hi; exists n; by rewrite Hn].
  intros i e Hi. exists e. by rewrite He.
Qed.
#[export] Instance extends_refl : Reflexive extends.
Proof. intros g. by apply extends_same. Qed.
#[export] Instance extends_trans : Transitive extends.
Proof.
  intros g1 g2 g3 [N1 O1 L1] [N2 O2 L2]. split; [auto| |].
  - intros i e He. destruct (O1 i e He) as (e' & He' & Hs). destruct (O2 i e' He') as (e'' & ? & ?). eexists. split; [done|]. by eapply same_edge_trans.
  - intros i n Hn. destruct (L1 i n Hn) as (n' & Hn' & ?). destruct (L2 i n' Hn') as (n'' & ? & ?). exists n''. split; [done|congruence].
Qed.

Lemma extends_stored g g' id : extends g g' -> stored g id -> stored g' id.
Proof.
  intros [_ Ho _] (e & [i Hi]%list_elem_of_lookup & He). destruct (Ho i e Hi) as (e' & Hi' & _ & _ & _ & Hid & _).
  exists e'. split; [by eapply list_elem_of_lookup_2|congruence].
Qed.

Lemma lies_extends g g' label s t e e' : extends g g' -> same_edge e e' -> lies g label s t e -> lies g' label s t e'.
Proof. unfold same_edge, lies. intros [Hn _ _] (-> & -> & -> & _) (? & ?%Hn & ?%Hn). done. Qed.

Lemma extends_joined g g' id label s t : extends g g' -> joined g id label s t -> joined g' id label s t.
Proof.
  intros Hx (e & [i Hi]%list_elem_of_lookup & Hb & He). destruct (ex_edges _ _ Hx i e Hi) as (e' & Hi' & Hs). exists e'.
  split; [by eapply list_elem_of_lookup_2|]. split; [by eapply lies_extends|]. destruct Hs as (_ & _ & _ & -> & _). done.
Qed.

Lemma extends_labelled g g' id label : extends g g' -> labelled g id label -> labelled g' id label.
Proof.
  intros Hx (i & n & Hi & Hn & Hl). destruct (ex_labels _ _ Hx i n Hn) as (n' & Hn' & Hl'). exists i, n'.
  split_and!; [by apply (ex_nodes _ _ Hx)|done|congruence].
Qed.

Lemma extends_linked g g' lo hi : extends g g' -> linked g lo hi -> linked g' lo hi.
Proof. apply extends_joined. Qed.

Lemma linked_stored g lo hi : linked g lo hi -> stored g (sameAsEdgeID lo hi).
Proof. intros (e & He & _ & Hid). by exists e. Qed.

Lemma placed_joined g id label s t : ids_placed g -> places id label s t -> stored g id -> joined g id label s t.
Proof. intros Hp Hpl (e & He & Hid). exists e. split_and!; [done|by eapply Hp|done]. Qed.

Lemma placed_linked g lo hi : ids_placed g -> stored g (sameAsEdgeID lo hi) -> linked g lo hi.
Proof. intros Hp. apply placed_joined; [done|constructor]. Qed.

(** With the nodes in place, the edges there were lie where they did. *)
Lemma grows_nodes lo hi g g' :
  g_nodes g' = g_nodes g -> extends g g' ->
  (forall i e, g_edges g' !! i = Some e -> g_edges g !! i = None -> ~ between g' lo hi e /\ edge_id e <> sameAsEdgeID lo hi) -> grows lo hi g g'.
Proof.
  intros Hn Hx Hnew. split; [done| |done]. intros i e e' He He' Hb. destruct (ex_edges _ _ Hx i e He) as (e2 & He2 & Hs).
  assert (e2 = e') as -> by congruence. unfold lies in *. rewrite !(nodeByID_eq g g') in Hb by done. destruct Hs as (<- & <- & <- & _). done.
Qed.

Lemma grows_same lo hi g g' : same_store g g' -> grows lo hi g g'.
Proof. intros Hs. pose proof Hs as [Hn He _ _]. apply grows_nodes; [done|by apply extends_same|]. intros i e. rewrite He. congruence. Qed.

#[export] Instance grows_refl lo hi : Reflexive (grows lo hi).
Proof. intros g. by apply grows_same. Qed.

#[export] Instance grows_trans lo hi : Transitive (grows lo hi).
Proof.
  intros g1 g2 g3 [X1 B1 W1] [X2 B2 W2]. split; [by etrans| |].
  - intros i e e' He He' Hb. destruct (ex_edges _ _ X1 i e He) as (e2 & He2 & _). eauto.
  - intros i e He Hn. destruct (g_edges g2 !! i) as [e'|] eqn:He'; [|by apply (W2 i)]. destruct (W1 i e' He' Hn) as [Hb Hp]. split.
    + intros Hb'. by apply Hb, (B2 i e' e).
    + destruct (ex_edges _ _ X2 i e' He') as (e2 & He2 & _ & _ & _ & Hid & _). assert (e2 = e) as -> by congruence. by rewrite Hid.
Qed.

(** Back from an edge of the larger graph. *)
Lemma grows_elem lo hi g g' e :
  grows lo hi g g' -> e ∈ g_edges g' ->
  (exists e0, e0 ∈ g_edges g /\ same_edge e0 e /\ (between g' lo hi e -> between g lo hi e0)) \/ (~ between g' lo hi e /\ edge_id e <> sameAsEdgeID lo hi).
Proof.
  intros [Hx Hb Hw] [i Hi]%list_elem_of_lookup. destruct (g_edges g !! i) as [e0|] eqn:He.
  - left. destruct (ex_edges _ _ Hx i e0 He) as (e' & Hi' & Hs). assert (e' = e) as -> by congruence. exists e0.
    split_and!; [by eapply list_elem_of_lookup_2|done|by apply (Hb i)].
  - right. by eapply Hw.
Qed.

Lemma grows_stored lo hi g g' id : grows lo hi g g' -> stored g id -> stored g' id.
Proof. intros [Hx _ _]. by apply extends_stored. Qed.

Lemma grows_retired lo hi g g' : grows lo hi g g' -> retired g (sameAsEdgeID lo hi) -> retired g' (sameAsEdgeID lo hi).
Proof.
  intros Hg Hr e He Hid. destruct (grows_elem _ _ _ _ _ Hg He) as [(e0 & He0 & (_ & _ & _ & Hi & Hs) & _)|[_ Hp]]; [|done].
  apply Hs, Hr; [done|congruence].
Qed.

(** The edges between the groups that [P] does not allow are superseded. *)
Definition only (P : string -> Prop) (g : memGraph) (lo hi : string) : Prop :=
  forall e, e ∈ g_edges g -> between g lo hi e -> P (edge_id e) \/ superseded e.

Lemma grows_only P lo hi g g' : grows lo hi g g' -> only P g lo hi -> only P g' lo hi.
Proof.
  intros Hg Ho e He Hb. destruct (grows_elem _ _ _ _ _ Hg He) as [(e0 & He0 & (_ & _ & _ & -> & Hs) & Hb0)|[Hn _]]; [|done].
  destruct (Ho e0 He0 (Hb0 Hb)); auto.
Qed.

Lemma agrees_grows g g' r : candidate r = sameAsEdgeID (low r) (high r) -> grows (low r) (high r) g g' -> agrees g r -> agrees g' r.
Proof.
  intros Hc Hg. unfold agrees. rewrite Hc. destruct (by_human r); case_bool_decide.
  - intros [Hm Ho]. split; [by eapply grows_stored|by apply (grows_only (fun id => id = _) _ _ g)].
  - intros Ho e He Hb. destruct (grows_only (fun _ => False) _ _ _ _ Hg) with (e := e) as [[]|?]; try done.
    intros e0 He0 Hb0. right. by apply Ho.
  - intros [Hs Hr]. split; [by eapply grows_stored|by eapply grows_retired].
  - by eapply grows_retired.
Qed.

(** The columns agreement depends on. *)
Lemma agrees_row g r r' : rl r' = rl r -> low r' = low r -> high r' = high r -> candidate r' = candidate r -> agrees g r -> agrees g r'.
Proof. unfold agrees, by_human. by intros -> -> -> ->. Qed.

(** ** Writes *)

Lemma graph_of_put c t g : graph_of (put_graph c t g) t = g.
Proof. unfold graph_of. cbn. by rewrite lookup_insert_eq. Qed.

Lemma on_graph_of {A} c t (f : memGraph -> result graph_error A * memGraph) :
  (exists g, graph_of c t = g /\ CheckTenant t = Ok tt /\ graphs c !! t = Some g /\ on_graph c t f = ((f g).1, put_graph c t (f g).2)) \/
  (exists e, on_graph c t f = (Err e, c) /\ graph c t = Err e).
Proof.
  destruct (graph c t) as [g|e] eqn:Hg.
  - left. apply graph_ok in Hg as [Ht Hg]. exists g. split_and!; [unfold graph_of; by rewrite Hg|done..|by apply on_graph_some].
  - right. exists e. unfold on_graph. by rewrite Hg.
Qed.

Lemma graph_no_edge c t e : graph c t = Err e -> is_node_not_found e = false /\ forall id, e <> ErrEdgeExists id /\ e <> ErrEdgeNotFound id /\ forall l, e <> ErrNodeExists l id.
Proof.
  unfold graph, CheckTenant, map_err. case_bool_decide; [by intros [= <-]|]. destruct (ValidateTenantID t); [|by intros [= <-] ].
  destruct (graphs c !! t); [done|by intros [= <-] ].
Qed.

Lemma edge_id_props label e s t src tgt seq : edge_valid s t e -> edge_id (mkMemEdge label (edgeProps e) src tgt seq) = e_ID e.
Proof. intros Hv. unfold edge_id, stringProp. cbn. by rewrite (edgeProps_id s t). Qed.

(** What is kept of a tenant's graph. *)
Record graph_good (g : memGraph) : Prop := { gg_wf : graph_wf g; gg_named : ids_named g; gg_placed : ids_placed g }.
Definition graph_ok (c : memClient) (t : string) : Prop := forall g, graphs c !! t = Some g -> graph_good g.

Lemma graph_of_ok c t : graph_ok c t -> graph_good (graph_of c t).
Proof.
  unfold graph_ok, graph_of. destruct (graphs c !! t) as [g|]; cbn; intros Hg; [by apply Hg|].
  split; [apply empty_graph_wf|by intros e He%not_elem_of_nil|by intros e id label s t' He%not_elem_of_nil].
Qed.

(** A write: the graph stays good and extends, and grows for the pairs [others] names. *)
Record write (others : string -> string -> Prop) (g g' : memGraph) : Prop := {
  wr_good : graph_good g -> graph_good g';
  wr_extends : extends g g';
  wr_grows : forall lo hi, others lo hi -> grows lo hi g g';
}.

Lemma write_same others g g' : same_store g g' -> write others g g'.
Proof.
  intros Hs. pose proof Hs as [Hn He _ _]. split; [|by apply extends_same|intros; by apply grows_same].
  intros [Hw Hna Hp]. split; [by eapply same_store_wf|intros e; rewrite He; apply Hna|]. intros e id label s t. rewrite He. intros Hin Hid Hpl.
  unfold lies. rewrite !(nodeByID_eq g g') by done. by eapply Hp.
Qed.

Lemma write_trans others g1 g2 g3 : write others g1 g2 -> write others g2 g3 -> write others g1 g3.
Proof. intros [A1 B1 C1] [A2 B2 C2]. split; [auto|by etrans|]. intros lo hi Ho. etrans; [by apply C1|by apply C2]. Qed.

(** What a client leaves of a tenant's graph. *)
Definition client_write (others : memGraph -> string -> string -> Prop) (t : string) (c c' : memClient) : Prop :=
  graph_ok c t -> graph_ok c' t /\ write (others (graph_of c t)) (graph_of c t) (graph_of c' t).

Lemma client_write_same others t c : client_write others t c c.
Proof. intros Hc. split; [done|]. by apply write_same. Qed.

Lemma on_graph_write {A} others c t (f : memGraph -> result graph_error A * memGraph) :
  (forall g, graph_good g -> write (others g) g (f g).2) -> client_write others t c (on_graph c t f).2.
Proof.
  intros Hf. destruct (on_graph_of c t f) as [(g & Hg0 & _ & Hg & ->)|(e & -> & _)]; [|apply client_write_same]. intros Hc.
  pose proof (Hf g (Hc g Hg)) as Hw. cbn [snd]. rewrite Hg0, graph_of_put. split; [|done]. intros g'. cbn. rewrite lookup_insert_eq.
  intros [= <-]. by apply Hw, Hc.
Qed.

(** ** New edges *)

(** An edge that lies where its ID says, if it says so. *)
Definition own_id (s t label id : string) : Prop :=
  (label = sameAsLabel -> id <> "") /\ forall label' s' t', places id label' s' t' -> label = label' /\ s = s' /\ t = t'.

Lemma places_own id label s t : places id label s t -> own_id s t label id.
Proof.
  intros Hp. split; [intros _; by eapply places_named|]. intros label' s' t' Hp'. by destruct (places_inj _ _ _ _ _ _ _ Hp' Hp) as (? & ? & ?).
Qed.

Lemma projected_own id label s t : projected_id id -> id <> "" -> own_id s t label id.
Proof. intros Hp Hne. split; [done|]. intros label' s' t' Hpl. by destruct (projected_not_placed _ _ _ _ Hp Hpl). Qed.

Lemma projected_not_candidate id lo hi : projected_id id -> id <> sameAsEdgeID lo hi.
Proof. intros Hp ->. apply (projected_not_placed _ _ _ _ Hp (pl_same_as lo hi)). Qed.

Lemma addEdge_write g s t label ps g' :
  labelKinds g !! label = Some "edge" -> own_id s t label (stringProp ps "id") -> addEdge g s t label ps = (Ok tt, g') ->
  write (fun lo hi => stringProp ps "id" <> sameAsEdgeID lo hi /\ (label = sameAsLabel -> (s, t) <> (lo, hi))) g g'.
Proof.
  intros Hlab [Hn Hown] Ha. pose proof (addEdge_wf g s t label ps) as Hwf. rewrite Ha in Hwf. apply addEdge_spec in Ha as (e & -> & Hl & Hps & Hsq & Hs & Ht).
  assert (edge_id e = stringProp ps "id") as Hid by (unfold edge_id; by rewrite Hps).
  set (g' := mkMemGraph _ _ _ _) in *. assert (extends g g') as Hx.
  { split; [done| |by intros i n Hi; exists n]. intros i x Hi. exists x. split; [by apply lookup_app_l_Some|done]. }
  split; [|done|].
  - intros [Hw Hna Hp]. split; [by apply Hwf| |].
    + intros x [Hx'| ->%list_elem_of_singleton]%elem_of_app; [by apply Hna|]. rewrite Hl, Hid. done.
    + intros x id' label' s' t' [Hx'| ->%list_elem_of_singleton]%elem_of_app Hxid Hpl; [by eapply (lies_extends g); [..|by eapply Hp]|].
      rewrite Hid in Hxid. subst id'. destruct (Hown _ _ _ Hpl) as (? & -> & ->). split; [congruence|done].
  - intros lo hi [Hne Hpair]. apply grows_nodes; [done|done|]. intros i x Hi Hnone. apply lookup_app_Some in Hi as [Hi|[_ Hi]]; [congruence|].
    apply list_lookup_singleton_Some in Hi as [_ <-]. rewrite Hid. split; [|done]. intros (Hsa & Hlo & Hhi). apply Hpair; [congruence|].
    apply nodeByID_Some in Hs as (n1 & Hn1 & Hi1), Ht as (n2 & Hn2 & Hi2), Hlo as (n3 & Hn3 & Hi3), Hhi as (n4 & Hn4 & Hi4).
    change (g_nodes g') with (g_nodes g) in *. f_equal; congruence.
Qed.

Lemma edgeProps_own s t e : edge_valid s t e -> stringProp (edgeProps e) "id" = e_ID e.
Proof. intros Hv. unfold stringProp. by rewrite (edgeProps_id s t). Qed.

Lemma write_edge_write g s t label ps :
  own_id s t label (stringProp ps "id") ->
  write (fun lo hi => stringProp ps "id" <> sameAsEdgeID lo hi /\ (label = sameAsLabel -> (s, t) <> (lo, hi))) g (write_edge g s t label ps).2.
Proof.
  intros Hown. unfold write_edge. destruct (useLabel_spec g label "edge") as [Hss Hu].
  destruct (useLabel g label "edge") as [[[]|x] g1]; cbn [fst snd] in *; [|by apply write_same].
  eapply write_trans; [by apply write_same|]. destruct (addEdge g1 s t label ps) as [[[]|x] g2] eqn:Ha; cbn [snd].
  - by apply addEdge_write in Ha.
  - apply addEdge_err in Ha as ->. by apply write_same.
Qed.

Lemma client_write_mono (others others' : memGraph -> string -> string -> Prop) t c c' :
  (forall lo hi, others' (graph_of c t) lo hi -> others (graph_of c t) lo hi) -> client_write others t c c' -> client_write others' t c c'.
Proof. intros Ho Hw Hc. destruct (Hw Hc) as [Hok [A B C]]. split; [done|]. split; [done|done|]. intros lo hi H. by apply C, Ho. Qed.

(** An edge that lies where its ID says leaves every other pair alone. *)
Lemma CreateEdge_own c t s t' e :
  own_id s t' (e_Label e) (e_ID e) ->
  client_write (fun _ lo hi => e_ID e <> sameAsEdgeID lo hi /\ (e_Label e = sameAsLabel -> (s, t') <> (lo, hi))) t c (CreateEdge c t s t' e).2.
Proof.
  intros Hown. unfold CreateEdge. destruct (CheckEdge s t' e) as [[]|] eqn:Hv; [|apply client_write_same]. apply CheckEdge_ok in Hv.
  apply on_graph_write. intros g Hg. pose proof (write_edge_write g s t' (e_Label e) (edgeProps e)) as Hw.
  rewrite (edgeProps_own s t' _ Hv) in Hw. by apply Hw.
Qed.

Lemma CreateEdge_write c t lo hi e :
  projected_id (e_ID e) -> e_ID e <> "" -> client_write (fun _ lo' hi' => (lo', hi') <> (lo, hi)) t c (CreateEdge c t lo hi e).2.
Proof.
  intros Hp Hne. eapply client_write_mono; [|by apply CreateEdge_own, projected_own]. intros lo' hi' Hpair.
  split; [by apply projected_not_candidate|]. intros _ ?. by apply Hpair.
Qed.

(** An edge with another label takes the ID of no pair. *)
Lemma CreateEdge_plain c t s t' e :
  places (e_ID e) (e_Label e) s t' -> e_Label e <> sameAsLabel -> client_write (fun _ _ _ => True) t c (CreateEdge c t s t' e).2.
Proof.
  intros Hp Hl. eapply client_write_mono; [|by apply CreateEdge_own, places_own]. intros lo hi _. split; [|done].
  intros Hid. rewrite Hid in Hp. by destruct (places_inj _ _ _ _ _ _ _ (pl_same_as lo hi) Hp) as (? & _).
Qed.

Lemma requires_id r : stringProp (requiresProps r) "id" = EdgeID r.
Proof.
  unfold stringProp, requiresProps. rewrite put_string_lookup, bool_decide_eq_false_2 by done. case_bool_decide; [done|]. by rewrite lookup_insert_ne by done.
Qed.

Lemma CreateRequiresEdge_write c t r : client_write (fun _ _ _ => True) t c (CreateRequiresEdge c t r).2.
Proof.
  unfold CreateRequiresEdge. destruct (CheckRequiresEdge r); [|apply client_write_same]. apply on_graph_write. intros g Hg.
  assert (places (EdgeID r) "REQUIRES" (re_SourceID r) (re_TargetID r)) as Hp by constructor.
  pose proof (write_edge_write g (re_SourceID r) (re_TargetID r) "REQUIRES" (requiresProps r)) as Hw. rewrite requires_id in Hw.
  destruct (Hw (places_own _ _ _ _ Hp)) as [A B C]. split; [done|done|]. intros lo hi _. apply C. split; [|done].
  intros Hid. rewrite Hid in Hp. by destruct (places_inj _ _ _ _ _ _ _ (pl_same_as lo hi) Hp) as (? & _).
Qed.

(** The reconciler's edges leave every linked pair alone. *)
Definition bulk_own (be : BulkEdge) : Prop := places (e_ID (be_Edge be)) (e_Label (be_Edge be)) (be_SourceID be) (be_TargetID be).

Lemma places_same_as id s t : places id sameAsLabel s t -> id = sameAsEdgeID s t.
Proof. intros Hp. remember sameAsLabel as label. by destruct Hp. Qed.

Lemma bulk_add_write i g edges :
  Forall (fun be => edge_valid (be_SourceID be) (be_TargetID be) (be_Edge be)) edges -> Forall bulk_own edges ->
  Forall (fun be => labelKinds g !! e_Label (be_Edge be) = Some "edge") edges ->
  write (linked g) g (bulk_add i g edges).2.
Proof.
  revert i g. induction edges as [|be edges IH]; intros i g Hv Ho Hl; cbn [bulk_add]; [by apply write_same|].
  apply Forall_cons in Hv as [Hv Hvs], Ho as [Hpl Hos], Hl as [Hl Hls]. pose proof (places_own _ _ _ _ Hpl) as Hown. pose proof (places_named _ _ _ _ Hpl) as Hne.
  destruct (addEdge _ _ _ _ _) as [[[]|x] g'] eqn:Ha; cbn [snd].
  2: { apply addEdge_err in Ha as ->. by apply write_same. }
  pose proof Ha as Hspec. apply addEdge_spec in Hspec as (e & Hg' & _).
  assert (edgeByID g (e_ID (be_Edge be)) = None) as Hfresh.
  { revert Ha. unfold addEdge. rewrite (edgeProps_own _ _ _ Hv). destruct (resolveNode g _); [|done]. destruct (resolveNode g _); [|done].
    case_bool_decide as Hb; [done|]. intros _. destruct (edgeByID g _); [|done]. destruct Hb. by split. }
  apply addEdge_write in Ha; [|done|by rewrite (edgeProps_own _ _ _ Hv)]. rewrite (edgeProps_own _ _ _ Hv) in Ha.
  assert (write (linked g) g g') as Hw.
  { destruct Ha as [A B C]. split; [done|done|]. intros lo hi Hlk. assert (e_ID (be_Edge be) <> sameAsEdgeID lo hi) as Hid.
    { intros Hid. destruct (linked_stored _ _ _ Hlk) as (x & Hx & Hxid). apply edgeByID_None in Hfresh. rewrite Forall_forall in Hfresh.
      apply (Hfresh x Hx). congruence. }
    apply C. split; [done|]. intros Hs [= Hlo Hhi]. apply Hid. unfold bulk_own in Hpl. rewrite Hs in Hpl. apply places_same_as in Hpl. congruence. }
  assert (write (linked g') g' (bulk_add (S i) g' edges).2) as Hrest by (apply IH; [done|done|]; by rewrite Hg').
  destruct Hw as [A B C], Hrest as [A' B' C']. split; [auto|by etrans|]. intros lo hi Hlk. etrans; [by apply C|]. by apply C', (extends_linked g).
Qed.

Lemma bulk_check_valid i edges : bulk_check i edges = Ok tt -> Forall (fun be => edge_valid (be_SourceID be) (be_TargetID be) (be_Edge be)) edges.
Proof.
  revert i. induction edges as [|be edges IH]; intros i; cbn [bulk_check]; [constructor|]. destruct (CheckEdge _ _ _) as [[]|] eqn:Hc; [|done].
  intros Hb. constructor; [by apply CheckEdge_ok|by eapply IH].
Qed.

Lemma BulkCreateEdges_write c t edges : Forall bulk_own edges -> client_write linked t c (BulkCreateEdges c t edges).2.
Proof.
  intros Ho. unfold BulkCreateEdges. destruct edges as [|be edges]; [destruct (CheckTenant t); apply client_write_same|].
  destruct (bulk_check 0 (be :: edges)) as [[]|] eqn:Hv; [|apply client_write_same]. apply bulk_check_valid in Hv.
  apply on_graph_write. intros g Hg. unfold bulk_edges. destruct (bulk_labels_spec g (be :: edges)) as [Hss Hl].
  destruct (bulk_labels g (be :: edges)) as [[[]|x] g1]; cbn [fst snd] in *; [|by apply write_same].
  pose proof (bulk_add_write 0 g1 (be :: edges) Hv Ho (Hl eq_refl)) as Hw. pose proof (rollback_bulk_add 0 g1 (be :: edges)) as Hroll.
  destruct (bulk_add 0 g1 (be :: edges)) as [[[]|x] g2]; cbn [fst snd] in *; [|rewrite Hroll; by apply write_same].
  eapply write_trans; [by apply write_same|]. destruct Hw as [A B C]. split; [done|done|]. intros lo hi Hlk. apply C.
  by apply (extends_linked g); [apply extends_same|].
Qed.

(** ** New nodes *)

Lemma append_node_extends g n : extends g (set_nodes g (g_nodes g ++ [n])).
Proof.
  split; [|intros i e Hi; by exists e|intros i m Hi; exists m; split; [by apply lookup_app_l_Some|done]].
  intros id i. unfold nodeByID. cbn. intros ([j m] & (Hj & Hid & Hbefore)%list_find_Some & ->)%fmap_Some.
  apply fmap_Some. exists (j, m). split; [|done]. apply list_find_Some. split_and!; [by apply lookup_app_l_Some|done|].
  intros k y Hk Hlt. apply (Hbefore k); [|done]. rewrite lookup_app_l in Hk; [done|]. apply lookup_lt_Some in Hj. lia.
Qed.

Lemma append_node_grows g n lo hi : linked g lo hi -> grows lo hi g (set_nodes g (g_nodes g ++ [n])).
Proof.
  intros (e0 & _ & (_ & Hlo & Hhi) & _). pose proof (append_node_extends g n) as Hx. split; [done| |cbn; congruence].
  cbn. intros i e e' He He' (Hs & Hl & Hh). assert (e' = e) as -> by congruence.
  rewrite (ex_nodes _ _ Hx _ _ Hlo) in Hl. rewrite (ex_nodes _ _ Hx _ _ Hhi) in Hh. split; [done|]. by rewrite Hlo, Hhi.
Qed.

Lemma write_mono (others others' : string -> string -> Prop) g g' :
  (forall lo hi, others' lo hi -> others lo hi) -> write others g g' -> write others' g g'.
Proof. intros Ho [A B C]. split; [done|done|]. intros lo hi Hlh. by apply C, Ho. Qed.

Lemma append_node_write g0 g n :
  same_store g0 g -> graph_wf (set_nodes g (g_nodes g ++ [n])) -> write (linked g0) g (set_nodes g (g_nodes g ++ [n])).
Proof.
  intros Hs Hwf. pose proof (append_node_extends g n) as Hx. split; [|done|].
  - intros [_ Hna Hp]. split; [done|exact Hna|]. intros e id label s t' He Hid Hpl. by eapply (lies_extends g); [done|done|eapply Hp].
  - intros lo hi Hlk. apply append_node_grows. by apply (extends_linked g0); [apply extends_same|].
Qed.

Lemma CreateNode_write c t n : client_write linked t c (CreateNode c t n).2.
Proof.
  unfold CreateNode. destruct (CheckNode n) as [[]|] eqn:Hv; [|apply client_write_same]. apply CheckNode_ok in Hv.
  apply on_graph_write. intros g Hg. pose proof (create_node_wf n g Hv (gg_wf _ Hg)) as Hwf. unfold create_node in *.
  destruct (useLabel_spec g (n_Label n) "node") as [Hss Hu]. destruct (useLabel g (n_Label n) "node") as [[[]|x] g1]; cbn [fst snd] in *; [|by apply write_same].
  destruct (nodeByID g1 (n_ID n) ≫= _) as [x|]; [case_bool_decide; by apply write_same|]. cbn [snd] in *.
  eapply write_trans; [by apply write_same|]. by apply append_node_write.
Qed.

(** A replaced node keeps its place and its ID. *)
Lemma replace_node_nodes g i n m id :
  g_nodes g !! i = Some n -> node_id m = node_id n -> nodeByID (set_nodes g (<[i := m]> (g_nodes g))) id = nodeByID g id.
Proof.
  intros Hi Hm. unfold nodeByID, node_id in *. cbn. generalize (g_nodes g) i Hi. clear Hi i. intros l. induction l as [|x l IH]; intros i Hi; [done|].
  destruct i as [|i]; cbn in *.
  - injection Hi as ->. rewrite Hm. by destruct (decide _).
  - destruct (decide _); [done|]. specialize (IH i Hi). destruct (list_find _ (<[i:=m]> l)) as [[]|], (list_find _ l) as [[]|]; cbn in *; congruence.
Qed.

Lemma replace_node_write g i n m :
  (graph_wf g -> graph_wf (set_nodes g (<[i := m]> (g_nodes g)))) -> g_nodes g !! i = Some n -> node_id m = node_id n -> mn_label m = mn_label n ->
  write (fun _ _ => True) g (set_nodes g (<[i := m]> (g_nodes g))).
Proof.
  intros Hwf Hi Hm Hlm. set (g' := set_nodes g _) in *. assert (forall id, nodeByID g' id = nodeByID g id) as Hn by (intros id; by eapply replace_node_nodes).
  assert (forall label s t e, lies g' label s t e <-> lies g label s t e) as Hl by (intros; unfold lies; by rewrite !Hn).
  assert (extends g g') as Hx.
  { split; [intros id j; by rewrite Hn|intros j e He; by exists e|]. intros j x Hj. cbn. destruct (decide (j = i)) as [->|].
    - exists m. rewrite list_lookup_insert_eq by (by eapply lookup_lt_Some). split; [done|congruence].
    - exists x. by rewrite list_lookup_insert_ne. }
  split; [|done|].
  - intros [Hw Hna Hp]. split; [by apply Hwf|exact Hna|]. intros e id label s t He Hid Hpl. apply Hl. by eapply Hp.
  - intros lo hi _. split; [done| |]; cbn; [|congruence]. intros j e e' He He' Hb. assert (e' = e) as -> by congruence. by apply Hl.
Qed.

Lemma UpsertNode_write c t n : client_write linked t c (UpsertNode c t n).2.
Proof.
  unfold UpsertNode. destruct (CheckNode n) as [[]|] eqn:Hv; [|apply client_write_same]. apply CheckNode_ok in Hv.
  apply on_graph_write. intros g Hg. pose proof (upsert_node_wf n g Hv (gg_wf _ Hg)) as Hwf. unfold upsert_node in *.
  destruct (useLabel_spec g (n_Label n) "node") as [Hss Hu]. destruct (useLabel g (n_Label n) "node") as [[[]|x] g1]; cbn [fst snd] in *; [|by apply write_same].
  destruct (nodeByID g1 (n_ID n)) as [i|] eqn:Hi; cbn [mbind option_bind] in *.
  - destruct (nodeByID_Some _ _ _ Hi) as (m & Hm & Hid). rewrite Hm in *. cbn [fmap option_fmap option_map] in *. case_bool_decide; [by apply write_same|]. cbn [snd] in *.
    eapply write_trans; [by apply write_same|]. eapply write_mono; [|eapply replace_node_write; [done|exact Hm| |done]]; [done|].
    rewrite Hid. unfold node_id, stringProp. cbn. by rewrite upsert_props_id.
  - cbn [snd] in *. eapply write_trans; [by apply write_same|]. by apply append_node_write.
Qed.

Lemma CheckEdge_error s t e x : CheckEdge s t e = Err x -> is_node_not_found x = false /\ forall id, x <> ErrEdgeExists id /\ forall l, x <> ErrNodeExists l id.
Proof.
  unfold CheckEdge, CheckEdgeProperties, checkWrittenProperties, CheckPropertyKeys. intros Hx.
  case_bool_decide; [by simplify_eq|]. destruct (CheckLabel _ _) as [|y] eqn:Hl.
  - destruct (first_error (CheckIdentifier _) _) as [|y] eqn:Hk.
    + match type of Hx with context [first_error ?f ?l] => destruct (first_error f l) as [|y] eqn:Hr end.
      * case_bool_decide; [by simplify_eq|]. destruct (IsZero _); by simplify_eq.
      * apply first_error_err in Hr as (k & _ & Hr). destruct (reservedEdgeKeys !! k); by simplify_eq.
    + apply first_error_err in Hk as (k & _ & Hr). unfold CheckIdentifier in Hr. destruct (match_string _ _); by simplify_eq.
  - unfold CheckLabel, CheckIdentifier in Hl. destruct (match_string _ _); [|by simplify_eq].
    destruct (String.prefix _ _); [by simplify_eq|]. case_bool_decide; by simplify_eq.
Qed.

(** The new edge, or why there is none. *)
Lemma write_edge_answer g s t label ps :
  match (write_edge g s t label ps).1 with
  | Ok _ => stored (write_edge g s t label ps).2 (stringProp ps "id")
  | Err x =>
      (is_node_not_found x = true -> nodeByID g s = None \/ nodeByID g t = None) /\
      (forall id, x = ErrEdgeExists id -> stored (write_edge g s t label ps).2 (stringProp ps "id")) /\
      forall l id, x <> ErrNodeExists l id
  end.
Proof.
  unfold write_edge. destruct (useLabel_spec g label "edge") as [[Hn He _ _] Hu]. destruct (useLabel g label "edge") as [[[]|x] g1]; cbn [fst snd] in *.
  2: { by destruct Hu as (k & _ & _ & ->). }
  destruct (addEdge g1 s t label ps) as [[[]|x] g2] eqn:Ha; cbn [fst snd].
  - apply addEdge_spec in Ha as (e & -> & _ & Hp & _). exists e. cbn. split; [apply elem_of_app; right; constructor|]. unfold edge_id. by rewrite Hp.
  - pose proof Ha as ->%addEdge_err. revert Ha. unfold addEdge, resolveNode. rewrite !(nodeByID_eq g g1) by done. destruct (nodeByID g s) eqn:Hs.
    2: { intros [= <-]. split_and!; [by left|done|done]. }
    destruct (nodeByID g t) eqn:Ht.
    2: { intros [= <-]. split_and!; [by right|done|done]. }
    case_bool_decide as Hst; [|done]. intros [= <-]. split_and!; [done| |done]. intros id _. destruct Hst as [_ [e Hst]].
    apply edgeByID_Some in Hst as (i & Hi & Hie). exists e. split; [by eapply list_elem_of_lookup_2|done].
Qed.

Lemma on_graph_answer c t s t' label ps :
  let r := on_graph c t (fun g => write_edge g s t' label ps) in
  match r.1 with
  | Ok _ => stored (graph_of r.2 t) (stringProp ps "id")
  | Err x =>
      (is_node_not_found x = true -> nodeByID (graph_of c t) s = None \/ nodeByID (graph_of c t) t' = None) /\
      (forall id, x = ErrEdgeExists id -> stored (graph_of r.2 t) (stringProp ps "id")) /\
      forall l id, x <> ErrNodeExists l id
  end.
Proof.
  intros r. subst r. destruct (on_graph_of c t (fun g => write_edge g s t' label ps)) as [(g & -> & _ & _ & ->)|(x & -> & [Hx Hx']%graph_no_edge)]; cbn [fst snd].
  - rewrite graph_of_put. apply write_edge_answer.
  - split_and!; [congruence|by intros id ->; destruct (Hx' id)|by intros l id ->; destruct (Hx' id) as (_ & _ & Hn); destruct (Hn l)].
Qed.

Lemma CreateEdge_answer c t s t' e :
  match (CreateEdge c t s t' e).1 with
  | Ok _ => stored (graph_of (CreateEdge c t s t' e).2 t) (e_ID e)
  | Err x =>
      (is_node_not_found x = true -> nodeByID (graph_of c t) s = None \/ nodeByID (graph_of c t) t' = None) /\
      (forall id, x = ErrEdgeExists id -> stored (graph_of (CreateEdge c t s t' e).2 t) (e_ID e)) /\
      forall l id, x <> ErrNodeExists l id
  end.
Proof.
  unfold CreateEdge. destruct (CheckEdge s t' e) as [[]|x] eqn:Hv.
  2: { apply CheckEdge_error in Hv as [Hx1 Hx2]. split_and!; [congruence|by intros id ->; destruct (Hx2 id)|by intros l id ->; destruct (Hx2 id) as [_ Hn]; destruct (Hn l)]. }
  apply CheckEdge_ok in Hv. pose proof (on_graph_answer c t s t' (e_Label e) (edgeProps e)) as Ha. by rewrite (edgeProps_own s t' e Hv) in Ha.
Qed.

Lemma CreateRequiresEdge_answer c t r :
  match (CreateRequiresEdge c t r).1 with
  | Ok _ => stored (graph_of (CreateRequiresEdge c t r).2 t) (EdgeID r)
  | Err x =>
      (is_node_not_found x = true -> nodeByID (graph_of c t) (re_SourceID r) = None \/ nodeByID (graph_of c t) (re_TargetID r) = None) /\
      (forall id, x = ErrEdgeExists id -> stored (graph_of (CreateRequiresEdge c t r).2 t) (EdgeID r)) /\
      forall l id, x <> ErrNodeExists l id
  end.
Proof.
  unfold CreateRequiresEdge. destruct (CheckRequiresEdge r) as [[]|x] eqn:Hv.
  2: { revert Hv. unfold CheckRequiresEdge. repeat case_bool_decide; try by intros [= <-]. destruct (IsZero _); by intros [= <-]. }
  pose proof (on_graph_answer c t (re_SourceID r) (re_TargetID r) "REQUIRES" (requiresProps r)) as Ha. by rewrite requires_id in Ha.
Qed.

(** ** Superseding *)

Lemma SupersedeFact_graph c t req :
  sr_NodeID req = "" ->
  (graph_of (SupersedeFact c t req).2 t = graph_of c t /\ exists e, (SupersedeFact c t req).1 = Err e) \/
  (graph_of (SupersedeFact c t req).2 t = superseded_graph req (graph_of c t)).
Proof.
  intros Hn. unfold SupersedeFact. destruct (CheckSupersedeRequest req); [|left; eauto].
  destruct (on_graph_of c t (supersede req)) as [(g & -> & _ & _ & ->)|(e & -> & _)]; [right|left; eauto].
  cbn [snd]. rewrite graph_of_put. unfold supersede. rewrite bool_decide_eq_false_2 by (rewrite Hn; auto). done.
Qed.

Lemma superseded_edge_same req e : same_edge e (superseded_edge req e).
Proof.
  unfold same_edge. rewrite superseded_edge_id. unfold superseded_edge. case_bool_decide; [|done]. cbn. split_and!; try done.
  intros _. unfold superseded. cbn. unfold supersede_props. rewrite put_string_lookup. rewrite bool_decide_eq_false_2 by done.
  by rewrite lookup_insert_eq.
Qed.

Lemma superseded_graph_extends req g : extends g (superseded_graph req g).
Proof.
  split; [done| |by intros i n Hi; exists n]. cbn. intros i e Hi. exists (superseded_edge req e). rewrite list_lookup_fmap, Hi. split; [done|apply superseded_edge_same].
Qed.

Lemma superseded_graph_grows lo hi req g : grows lo hi g (superseded_graph req g).
Proof.
  apply grows_nodes; [done|apply superseded_graph_extends|]. cbn. intros i e. rewrite list_lookup_fmap. intros He Hi. by rewrite Hi in He.
Qed.

Lemma superseded_graph_retired req g : retired (superseded_graph req g) (sr_EdgeID req).
Proof.
  intros e (e0 & -> & He0)%list_elem_of_fmap Hid. rewrite superseded_edge_id in Hid. rewrite superseded_edge_hit by done.
  unfold superseded. cbn. unfold supersede_props. rewrite put_string_lookup, bool_decide_eq_false_2, lookup_insert_eq by done. done.
Qed.

Lemma SupersedeFact_grows c t req lo hi : sr_NodeID req = "" -> grows lo hi (graph_of c t) (graph_of (SupersedeFact c t req).2 t).
Proof. intros Hn. destruct (SupersedeFact_graph c t req Hn) as [[-> _]| ->]; [done|apply superseded_graph_grows]. Qed.

Lemma SupersedeFact_retired c t req x :
  sr_NodeID req = "" -> (SupersedeFact c t req).1 = Ok x -> retired (graph_of (SupersedeFact c t req).2 t) (sr_EdgeID req).
Proof. intros Hn Hx. destruct (SupersedeFact_graph c t req Hn) as [[_ [e He]]| ->]; [congruence|apply superseded_graph_retired]. Qed.

Lemma SupersedeFact_write c t req : sr_NodeID req = "" -> client_write (fun _ _ _ => True) t c (SupersedeFact c t req).2.
Proof.
  intros Hn. unfold SupersedeFact. destruct (CheckSupersedeRequest req); [|apply client_write_same]. apply on_graph_write. intros g Hg.
  assert ((supersede req g).2 = superseded_graph req g) as Hs by (unfold supersede; by rewrite bool_decide_eq_false_2 by (rewrite Hn; auto)).
  pose proof (supersede_wf req g (gg_wf _ Hg)) as Hwf. rewrite Hs in *.
  assert (forall e, e ∈ g_edges (superseded_graph req g) -> exists e0, e0 ∈ g_edges g /\ same_edge e0 e) as Hback.
  { intros e (e0 & -> & He0)%list_elem_of_fmap. exists e0. split; [done|apply superseded_edge_same]. }
  split; [|apply superseded_graph_extends|intros; apply superseded_graph_grows]. intros [_ Hna Hp]. split; [done| |].
  - intros e (e0 & He0 & (-> & _ & _ & -> & _))%Hback. by apply Hna.
  - intros e id label s t' (e0 & He0 & Hs0)%Hback Hid Hpl. eapply (lies_extends g); [apply superseded_graph_extends|exact Hs0|].
    eapply Hp; [done| |done]. by destruct Hs0 as (_ & _ & _ & <- & _).
Qed.

(** ** Reads *)

Lemma ended_superseded e u : e_ValidTo (decodeEdge e) = Some u -> superseded e.
Proof.
  cbn. unfold timePtrProp. case_bool_decide as Hs; [done|]. intros _. unfold stringProp in Hs. unfold superseded.
  destruct (me_props e !! "valid_to"); [by eexists|done].
Qed.

(** A candidate edge that is not found, or has ended, is retired. *)
Lemma GetEdge_retired c t id :
  graph_ok c t ->
  match GetEdge c t id with
  | Err e => (exists id', e = ErrEdgeNotFound id') -> retired (graph_of c t) id
  | Ok x => is_Some (e_ValidTo (ewe_Edge x)) -> retired (graph_of c t) id
  end.
Proof.
  intros Hok. unfold GetEdge. case_bool_decide as Hid; [by intros [? ?]|]. unfold read_graph.
  destruct (graph c t) as [g|e] eqn:Hg.
  - apply MemDriverFacts.graph_ok in Hg as [_ Hg]. unfold graph_of. rewrite Hg. change (default empty_graph (Some g)) with g. destruct (Hok g Hg) as [Hw _ _].
    destruct (edgeByID g id) as [e|] eqn:He.
    + intros [u Hu]. cbn in Hu. apply ended_superseded in Hu. apply edgeByID_Some in He as (i & Hi & Hie). intros e' [j Hj]%list_elem_of_lookup He'.
      assert (i = j) as -> by (eapply (used_unique (g_edges g)); [apply Hw|done|done|congruence|by rewrite Hie]).
      rewrite Hi in Hj. injection Hj as <-. exact Hu.
    + intros _ e' He' Hie. apply edgeByID_None in He. rewrite Forall_forall in He. by destruct (He e' He').
  - apply graph_no_edge in Hg as [_ Hg]. intros [id' ->]. by destruct (Hg id') as (_ & [] & _).
Qed.

(** The paths of one edge lead over every edge between two groups. *)
Definition covers (paths : list Path) (keep hi : string) (id : string) : Prop :=
  id = keep \/ exists p e, p ∈ paths /\ live_edge hi keep p = Some e /\ e_ID e = id.

Lemma Traverse_covers c t lo hi keep paths :
  graph_ok c t -> Traverse c t (mkTraversalQuery lo "outbound" [sameAsLabel] 1 None) = Ok paths ->
  only (covers paths keep hi) (graph_of c t) lo hi.
Proof.
  intros Hok. unfold Traverse. destruct (first_error _ _); [|done]. unfold read_graph. destruct (graph c t) as [g|] eqn:Hg; [|done].
  apply MemDriverFacts.graph_ok in Hg as [_ Hg]. destruct (Hok g Hg) as [Hw Hn _]. unfold graph_of. rewrite Hg. change (default empty_graph (Some g)) with g. cbn [AsOf].
  intros [= <-] e He (Hl & Hlo & Hhi). unfold traverse. cbn [StartNode]. rewrite Hlo.
  pose proof He as [i Hi]%list_elem_of_lookup. pose proof (Hn e He Hl) as Hid.
  assert (e_ID (decodeEdge e) = edge_id e) as Hde by (cbn; unfold edge_id in *; by rewrite bool_decide_eq_false_2).
  set (p := decodePath g ([me_source e; me_target e], [i])).
  assert (p ∈ decodePath g <$> walk (S (length (g_edges g))) g (mkTraversalQuery lo "outbound" [sameAsLabel] 1 None) [me_source e] []) as Hp.
  { apply list_elem_of_fmap. eexists. split; [reflexivity|]. apply walk_step. split; [cbn; lia|]. eexists. split; [|left; reflexivity].
    apply (hop_edge g _ [me_source e] [] i (me_target e)).
    - by eapply lookup_lt_Some.
    - right. cbn. unfold edge_at. rewrite Hi. cbn. rewrite Hl. constructor.
    - apply not_elem_of_nil.
    - unfold edge_at. rewrite Hi. change (default _ (Some e)) with e. unfold neighbor. cbn [Direction]. rewrite !bool_decide_eq_false_2 by done. by rewrite bool_decide_eq_true_2. }
  destruct (e_ValidTo (decodeEdge e)) as [u|] eqn:Hv; [right; by eapply ended_superseded|left]. unfold covers.
  destruct (decide (edge_id e = keep)) as [|Hk]; [by left|right]. exists p, (decodeEdge e). split_and!; [done| |done].
  assert (edge_at g i = e) as Hat by (unfold edge_at; by rewrite Hi).
  change (live_edge hi keep p) with
    (if negb (bool_decide (n_ID (decodeNode (node_at g (me_target e))) = hi)) then None
     else if bool_decide (e_ID (decodeEdge (edge_at g i)) = keep) || bool_decide (is_Some (e_ValidTo (decodeEdge (edge_at g i)))) then None
     else Some (decodeEdge (edge_at g i))).
  apply nodeByID_Some in Hhi as (n & Hn2 & Hni). rewrite Hat, Hde, Hv.
  assert (n_ID (decodeNode (node_at g (me_target e))) = hi) as -> by (unfold node_at; by rewrite Hn2).
  rewrite bool_decide_eq_true_2 by done. cbn [negb]. by rewrite (bool_decide_eq_false_2 _ Hk).
Qed.
