(* ===== verification/Projecting.v ===== *)
(** What programs of the adjudicator ([Adjudicate]), the reconciler
    ([Reconcile]) and the graph role ([Materialize]) may rely on while others
    interleave with them, and what they owe the others. *)

From S2P Require Import Prelude Float64 Timefmt Tenant Jobstore Graph MemDriver MemDriverFacts Verdicts Verdictstore VerdictFacts Panel Adjudicate Fuzzy Reconcile Agreement.
Local Open Scope Z_scope.

(** * Definitions *)

(** ** Claims in hand *)

(** A claim in hand: on whose row, until when. *)
Abbreviation held := (option (Projection * Time)).

Definition held_after {X} (c : call X) : X -> held -> held :=
  match c in call X return X -> held -> held with
  | CClaim p until _ => fun x h => match x with Ok ClaimAcquired => Some (p, until) | _ => h end
  | CMark _ _ | CRelease _ _ => fun _ _ => None
  | _ => fun _ h => h
  end.

(** A claim is made, and the graph written, before the claim ends. Nothing in
    the code enforces it: it is what the lease of a projection is chosen for. *)
Definition in_time {X} (h : held) (c : call X) (w : world) : Prop :=
  match c with
  | CClaim _ until _ => w_clock w < until
  | CCreateEdge _ _ _ | CSupersede _ => forall p u, h = Some (p, u) -> w_clock w < u
  | _ => True
  end.

(** Whether all calls are made in time. *)
Class Timing := { punctual : Prop }.
Definition punctually : Timing := {| punctual := True |}.
Definition anytime : Timing := {| punctual := False |}.

Section rely.
Context `{Postgres} `{Jsonb} `{T : Timing} (ctx : context) (tenantID : string).

Definition row_of (w : world) (k : string) : option row := verdicts (w_store w) !! (tenantID, k).
Definition tenant_graph (w : world) : memGraph := graph_of (w_graphs w) tenantID.

(** ** Worlds *)

Record row_ok (k : string) (r : row) : Prop := {
  ro_wf : row_wf r;
  ro_key : k = PairKey (low r) (high r);
  ro_candidate : candidate r = sameAsEdgeID (low r) (high r);
  ro_decided : forall t, ru_decided (rl r) = Some t -> micro t = t;
}.

Record good (w : world) : Prop := {
  gd_rows : forall k r, row_of w k = Some r -> row_ok k r;
  gd_linked : forall k r, row_of w k = Some r -> linked (tenant_graph w) (low r) (high r);
  gd_graph : graph_ok (w_graphs w) tenantID;
}.

(** Every projected verdict is what the graph says. *)
Definition applied_agree (w : world) : Prop :=
  forall k r, row_of w k = Some r -> applied r = true -> agrees (tenant_graph w) r.

(** ** What a program knows, relies on and owes

    The claims protect something only if all calls are made in time. *)

(** The row the verdict was read from: its pair and, once it is decided, its
    candidate edge do not change. *)
Definition read_from (p : Projection) (w : world) : Prop :=
  exists r, row_of w (pr_Key p) = Some r /\ low r = pr_Low p /\ high r = pr_High p /\ open_row r = false /\ candidate r = pr_CandidateEdgeID p.

Definition claims (p : Projection) (u : Time) (w : world) : Prop :=
  exists r, row_of w (pr_Key p) = Some r /\ claimed r = Some u.

Record rely (h : held) (w w' : world) : Prop := {
  re_clock : w_clock w <= w_clock w';
  re_graph : extends (tenant_graph w) (tenant_graph w');
  re_rows : forall k r, row_of w k = Some r -> exists r', row_of w' k = Some r' /\ low r' = low r /\ high r' = high r /\
    (open_row r = false -> open_row r' = false /\ candidate r' = candidate r);
  re_held : punctual -> forall p u, h = Some (p, u) -> claims p u w' ->
    claims p u w /\ grows (pr_Low p) (pr_High p) (tenant_graph w) (tenant_graph w');
  re_lost : punctual -> forall p u, h = Some (p, u) -> claims p u w -> ~ claims p u w' -> u <= w_clock w';
}.

(** What must hold of a call a program makes. *)
Definition owes {X} (h : held) (c : call X) (w : world) : Prop :=
  match c with
  | CClaim p until now => h = None /\ now <= w_clock w /\ micro until = until /\ read_from p w
  | CMark p until => h = Some (p, until) /\ micro until = until /\
      (punctual -> claims p until w -> forall r, row_of w (pr_Key p) = Some r -> holds_verdict p r = true -> agrees (tenant_graph w) r)
  | CRelease key until => micro until = until /\ exists p, h = Some (p, until) /\ key = pr_Key p
  | CCreateEdge s t e =>
      (exists p u, h = Some (p, u) /\ s = pr_Low p /\ t = pr_High p /\ projected_id (e_ID e) /\ e_ID e <> "") \/
      (places (e_ID e) (e_Label e) s t /\ e_Label e <> sameAsLabel)
  | CSupersede req => exists p u, h = Some (p, u) /\ sr_NodeID req = ""
  | CEnqueue cs _ => forall c, c ∈ cs -> CandidateEdgeID c = sameAsEdgeID (LowGroupID c) (HighGroupID c) /\ stored (tenant_graph w) (CandidateEdgeID c)
  | CBulkEdges es => Forall bulk_own es
  | _ => True
  end.

(** A claim in hand is the row's, or has ended. *)
Definition holds_claim (h : held) (w : world) : Prop := forall p u, h = Some (p, u) -> read_from p w /\ (punctual -> claims p u w \/ u <= w_clock w).

(** A program that owes nothing it does not give, whatever the others do. *)
Fixpoint safe {A} (p : prog A) (h : held) (w : world) (Q : A -> held -> world -> Prop) : Prop :=
  match p with
  | Ret a => Q a h w
  | Do c k => forall w1, rely h w w1 -> good w1 -> holds_claim h w1 ->
      owes h c w1 /\ forall x w2, answers ctx tenantID w1 c x w2 -> (punctual -> in_time h c w1) -> rely None w1 w2 -> safe (k x) (held_after c x h) w2 Q
  end.

(** * Facts *)

Lemma rely_refl h w : rely h w w.
Proof. split; [lia|reflexivity|intros k r Hr; exists r; split_and!; auto|intros _ p u _ Hc; split; [exact Hc|reflexivity]|done]. Qed.

Lemma rely_trans h w1 w2 w3 : rely h w1 w2 -> rely h w2 w3 -> rely h w1 w3.
Proof.
  intros [C1 X1 R1 H1 L1] [C2 X2 R2 H2 L2]. split; [lia|by etrans| | |].
  - intros k r Hr. destruct (R1 k r Hr) as (r' & Hr' & ? & ? & Ho). destruct (R2 k r' Hr') as (r'' & ? & ? & ? & Ho').
    exists r''. split_and!; [done|congruence..|]. intros (Hx & ?)%Ho. destruct (Ho' Hx). split; [done|congruence].
  - intros Hpun p u Hh Hc. destruct (H2 Hpun p u Hh Hc) as [Hc2 Hg2]. destruct (H1 Hpun p u Hh Hc2). split; [done|by etrans].
  - intros Hpun p u Hh Hc Hn. destruct (decide (u <= w_clock w2)) as [|Hu]; [lia|]. apply (L2 Hpun p u Hh); [|done].
    destruct (row_of w1 (pr_Key p)) as [r|] eqn:Hr; [|by destruct Hc as (r & Hc & _); congruence].
    destruct (R1 _ _ Hr) as (r' & Hr' & _). destruct (decide (claimed r' = Some u)) as [Hc'|Hc']; [by exists r'|].
    destruct Hu. apply (L1 Hpun p u Hh Hc). intros (r2 & Hr2 & Hcl). congruence.
Qed.

Lemma safe_mono {A} (p : prog A) h w (Q Q' : A -> held -> world -> Prop) :
  (forall a h w, Q a h w -> Q' a h w) -> safe p h w Q -> safe p h w Q'.
Proof.
  intros HQ. revert h w. induction p as [a|X c k IH]; cbn; [auto|]. intros h w Hs w1 Hr Hg Hh. destruct (Hs w1 Hr Hg Hh) as [Ho Hk].
  split; [done|]. intros x w2 Hx Ht Hn. by apply IH, Hk.
Qed.

Lemma safe_bind {A B} (p : prog A) (f : A -> prog B) h w Q :
  safe p h w (fun a h' w' => safe (f a) h' w' Q) -> safe (p ≫= f) h w Q.
Proof.
  revert h w. induction p as [a|X c k IH]; cbn; [auto|]. intros h w Hs w1 Hr Hg Hh. destruct (Hs w1 Hr Hg Hh) as [Ho Hk].
  split; [done|]. intros x w2 Hx Ht Hn. by apply IH, Hk.
Qed.

Lemma rely_None h w w' : rely h w w' -> rely None w w'.
Proof. intros [C X R _ _]. by split. Qed.

(** What others do first changes nothing. *)
Lemma safe_rely {A} (p : prog A) h w w' (Q : A -> held -> world -> Prop) :
  (forall a, Q a h w -> Q a h w') -> rely h w w' -> safe p h w Q -> safe p h w' Q.
Proof. destruct p as [a|X c k]; cbn; [auto|]. intros _ Hr Hs w1 Hr1. apply Hs. by eapply rely_trans. Qed.

Lemma read_from_rely p h w w' : rely h w w' -> read_from p w -> read_from p w'.
Proof.
  intros Hr (r & Hk & Hl & Hh & Ho & Hc). destruct (re_rows _ _ _ Hr _ _ Hk) as (r' & Hk' & ? & ? & Ho'). destruct (Ho' Ho).
  exists r'. split_and!; congruence.
Qed.

(** What is known of the graph while the claim is held. *)
Lemma known_rely (F : memGraph -> Prop) p u w w' :
  (forall g g', grows (pr_Low p) (pr_High p) g g' -> F g -> F g') ->
  rely (Some (p, u)) w w' -> punctual -> (claims p u w -> F (tenant_graph w)) -> claims p u w' -> F (tenant_graph w').
Proof. intros HF Hr Hpun Hw Hc. destruct (re_held _ _ _ Hr Hpun p u eq_refl Hc) as [Hc' Hg]. eapply HF; [exact Hg|]. by apply Hw. Qed.
End rely.
