(* ===== verification/Passes.v ===== *)
(** Programs of the adjudicator ([Adjudicate]), the reconciler ([Reconcile])
    and the graph role ([Materialize]) interleaved with one another and with
    everyone else who writes to the verdict store: the invariant of every
    interleaving ([Projecting]). *)

From S2P Require Import Prelude Float64 Timefmt Tenant Bus Jobstore Graph MemDriver MemDriverFacts Verdicts Verdictstore VerdictFacts Graphevents Panel Adjudicate Materialize Fuzzy Reconcile Agreement Projecting.
Local Open Scope Z_scope.

(** * Definitions *)

Section passes.
Context `{Postgres} `{Jsonb} `{UpperCase} `{LowerCase} `{T : Timing} (ctx : context) (tenantID : string).

Definition with_store (w : world) (d : vdb) : world := mkWorld d (w_graphs w) (w_clock w).

(** What others do to the store: only programs claim projections and enqueue. *)
Definition outside_op (o : store_op) : Prop :=
  match o with OpClaim _ _ _ _ | OpMark _ _ _ | OpRelease _ _ _ | OpEnqueue _ _ _ => False | _ => True end.

(** What a program ends with. *)
Inductive ending :=
| RunEnded (x : AdjudicateResult * result stop unit)
| ReconcileEnded (o : ReconcileOptions) (x : ReconcileResult * result reconcile_stop unit)
| EventEnded (x : event_end)
| CatalogEnded (x : catalog_end).

(** A program, with the claim it holds. *)
Record thread := mkThread { t_prog : prog ending; t_held : held }.

Definition ends_as {A} (f : A -> ending) (p : prog A) : prog ending := p ≫= fun a => Ret (f a).

Inductive pass : prog ending -> Prop :=
| pass_run cfg runID fuel o : pass (ends_as RunEnded (run cfg tenantID runID fuel o))
| pass_project cfg fuel : pass (ends_as RunEnded (Project cfg fuel))
| pass_reconcile o : pass (ends_as (ReconcileEnded o) (Reconcile o))
| pass_event schemes ctx' m : event_tenant ctx' (msg_Subject m) = Some tenantID -> pass (ends_as EventEnded (handleEvent schemes ctx' m))
| pass_catalog ctx' m catalogID : catalog_target ctx' (msg_Subject m) = Some (tenantID, catalogID) -> pass (ends_as CatalogEnded (handleCatalogEvent ctx' m)).

(** The calls of programs and of others, and time, in any order. *)
Inductive step : list thread * world -> list thread * world -> Prop :=
| step_start ths w p : pass p -> step (ths, w) (ths ++ [mkThread p None], w)
| step_call ths w i X (c : call X) k h x w' :
    ths !! i = Some (mkThread (Do c k) h) -> answers ctx tenantID w c x w' -> (punctual -> in_time h c w) ->
    step (ths, w) (<[i := mkThread (k x) (held_after c x h)]> ths, w')
| step_store ths w ctx' o : outside_op o -> step (ths, w) (ths, with_store w (apply_store ctx' o (w_store w)))
| step_tick ths w t : w_clock w <= t -> step (ths, w) (ths, mkWorld (w_store w) (w_graphs w) t).

(** An operation of the store a program with [h] in hand, or someone else, may do. *)
Definition allowed (h : held) (o : store_op) (w : world) : Prop :=
  match o with
  | OpClaim t p until now => t = tenantID /\ now <= w_clock w /\ micro until = until /\ (punctual -> w_clock w < until)
  | OpMark t p until => t = tenantID /\ h = Some (p, until) /\ micro until = until /\
      (punctual -> claims tenantID p until w -> forall r, row_of tenantID w (pr_Key p) = Some r -> holds_verdict p r = true -> agrees (tenant_graph tenantID w) r)
  | OpRelease t key until => t = tenantID /\ micro until = until /\ exists p, h = Some (p, until) /\ key = pr_Key p
  | OpEnqueue _ cs _ => forall c, c ∈ cs -> CandidateEdgeID c = sameAsEdgeID (LowGroupID c) (HighGroupID c) /\ stored (tenant_graph tenantID w) (CandidateEdgeID c)
  | _ => True
  end.

(** The verdicts that are recorded as projected are what the graph says. *)
Definition followed (w : world) : Prop := punctual -> applied_agree tenantID w.

(** Two programs do not hold the claim of one row. *)
Definition apart (h h' : held) (w : world) : Prop :=
  punctual -> forall p u p' u', h = Some (p, u) -> h' = Some (p', u') -> pr_Key p = pr_Key p' -> claims tenantID p u w -> claims tenantID p' u' w -> False.

(** * Facts *)

Lemma micro_idem t : micro (micro t) = micro t.
Proof. unfold micro. rewrite Zminus_mod, Z.mod_mod, Z.sub_diag, Z.mod_0_l by lia. lia. Qed.

Lemma PairKey_inj lo hi lo' hi' : PairKey lo hi = PairKey lo' hi' -> lo = lo' /\ hi = hi'.
Proof. unfold PairKey. intros [=]%DerivedID_eq; done. Qed.

(** What may happen to the claim of a row. *)
Inductive claim_change (h : held) (o : store_op) (k : string) (x y : option Time) : Prop :=
| cc_same : y = x -> claim_change h o k x y
| cc_claim p u now : o = OpClaim tenantID p u now -> pr_Key p = k -> y = Some u -> (forall c, x = Some c -> c <= now) -> claim_change h o k x y
| cc_end p u : h = Some (p, u) -> pr_Key p = k -> x = Some u -> y = None -> claim_change h o k x y.

Lemma row_change h o w k r r' :
  allowed h o w -> row_of tenantID w k = Some r -> row_ok k r -> change o tenantID k r r' ->
  low r' = low r /\ high r' = high r /\ (open_row r = false -> open_row r' = false /\ candidate r' = candidate r) /\ row_ok k r' /\
  claim_change h o k (claimed r) (claimed r') /\
  (punctual -> applied r' = true -> (applied r = true -> agrees (tenant_graph tenantID w) r) -> agrees (tenant_graph tenantID w) r').
Proof.
  intros Ha Hr Hok Hc. pose proof (change_wf _ _ _ _ _ (ro_wf _ _ Hok) Hc) as Hwf. pose proof (ro_wf _ _ Hok) as Hw.
  assert (low r' = low r /\ high r' = high r) as [Hl Hh] by (by destruct Hc).
  assert (open_row r = false -> open_row r' = false /\ candidate r' = candidate r) as Hopen.
  { destruct Hc as [|c cs now ->|locked n lf now ->|v ev -> Ho|v x ->|f -> Ho|ref h' x -> Hs|p until now -> _ _ _ _ _|p until -> _ _|until -> _| -> _];
      try congruence; try done. intros _. split; [|done]. unfold open_row, by_human. cbn. by rewrite andb_false_r. }
  split; [done|]. split; [done|]. split; [done|]. split; [|split].
  - split; [done|by rewrite Hl, Hh; apply Hok| |].
    + destruct Hc as [|c cs now -> Hc Hkc|locked n lf now ->|v ev -> Ho|v x ->|f -> Ho|ref h' x -> Hs|p until now -> _ _ _ _ _|p until -> _ _|until -> _| -> _];
        try apply Hok. cbn. rewrite (ro_key _ _ Hok) in Hkc. apply PairKey_inj in Hkc as [-> ->]. by apply Ha.
    + intros u. destruct Hc as [|c cs now -> Hc Hkc|locked n lf now ->|v ev -> Ho|v x ->|f -> Ho|ref h' x -> Hs|p until now -> _ _ _ _ _|p until -> _ _|until -> _| -> _];
        try apply Hok; cbn; [by intros [= <-]; apply micro_idem| |by intros [= <-]; apply micro_idem].
      destruct (f_Abandon f); [by intros [= <-]; apply micro_idem|apply Hok].
  - destruct Hc as [|c cs now -> Hc Hkc|locked n lf now ->|v ev -> Ho|v x ->|f -> Ho|ref h' x -> Hs|p until now -> Hk Hlt _ Hna Hfree|p until -> Hk Hcl|until -> Hcl| -> _];
      try (apply cc_same; reflexivity).
    + destruct Ha as (_ & _ & Hm & _). eapply cc_claim; [done|done|cbn; by rewrite Hm|]. intros c Hc. specialize (Hfree c Hc).
      pose proof (micro_le now). lia.
    + destruct Ha as (_ & -> & Hm & _). eapply cc_end; [done|done|by rewrite Hcl, Hm|done].
    + destruct Ha as (_ & Hm & p & -> & ->). eapply cc_end; [done|done|by rewrite Hcl, Hm|done].
  - intros Hpun Hap Hag. destruct Hc as [|c cs now -> Hc Hkc Ho|locked n lf now -> Ho|v ev -> Ho|v x ->|f -> Ho|ref h' x -> Hs|p until now -> Hk Hlt _ Hna Hfree|p until -> Hk Hcl|until -> Hcl| -> _];
      cbn in Hap; try done; try (by eapply agrees_row; [..|apply Hag]).
    + destruct (rw_open _ Hw Ho); congruence.
    + destruct (rw_open _ Hw Ho); congruence.
    + destruct Ha as (_ & _ & Hm & Hag'). subst k. rewrite Hm in Hcl.
      apply (agrees_row _ r); [done..|]. apply Hag'; [done|by exists r|done|done].
Qed.

Lemma row_of_store w d k : row_of tenantID (with_store w d) k = verdicts d !! (tenantID, k).
Proof. done. Qed.

Lemma store_rows ctx' o w k :
  evolves o tenantID k (row_of tenantID w k) (row_of tenantID (with_store w (apply_store ctx' o (w_store w))) k).
Proof. unfold row_of. cbn [w_store with_store]. apply apply_store_evolves. Qed.

Lemma added_ok h o w k r :
  allowed h o w -> added o tenantID k r ->
  row_ok k r /\ claimed r = None /\ applied r = false /\ stored (tenant_graph tenantID w) (sameAsEdgeID (low r) (high r)).
Proof.
  intros Ha Had. pose proof (added_wf _ _ _ _ Had) as Hwf. destruct Had as (c & ctxt & cs & now & c' & -> & Hc & Hc' & Hk & Hk' & Hl & ->).
  destruct (Ha c' Hc') as [Hcand Hst]. rewrite Hk in Hk'. apply PairKey_inj in Hk' as [Hlo Hhi]. rewrite <- Hlo, <- Hhi in Hcand. rewrite Hcand in Hst.
  split; [|done]. split; [done|done|done|done].
Qed.

Lemma store_effect h o ctx' w :
  let w' := with_store w (apply_store ctx' o (w_store w)) in
  allowed h o w -> good tenantID w -> followed w ->
  good tenantID w' /\ followed w' /\
  forall h', holds_claim tenantID h' w -> apart h h' w -> rely tenantID h' w w'.
Proof.
  intros w' Ha Hg Hag. pose proof (store_rows ctx' o w) as Hev. fold w' in Hev.
  assert (forall k r', row_of tenantID w' k = Some r' -> row_ok k r' /\
    ((exists r, row_of tenantID w k = Some r /\ change o tenantID k r r') \/ (claimed r' = None /\ applied r' = false))) as Hrows.
  { intros k r' Hr'. specialize (Hev k). rewrite Hr' in Hev. destruct (row_of tenantID w k) as [r|] eqn:Hr; cbn in Hev.
    - destruct (row_change h o w k r r' Ha Hr (gd_rows _ _ Hg k r Hr) Hev) as (_ & _ & _ & Hok & _). split; [done|left; eauto].
    - destruct (added_ok h o w k r' Ha Hev) as (? & ? & ? & ?). split; [done|by right]. }
  assert (forall k r', row_of tenantID w' k = Some r' -> linked (tenant_graph tenantID w) (low r') (high r')) as Hlinks.
  { intros k r' Hr'. specialize (Hev k). rewrite Hr' in Hev. destruct (row_of tenantID w k) as [r|] eqn:Hr; cbn in Hev.
    - destruct (row_change h o w k r r' Ha Hr (gd_rows _ _ Hg k r Hr) Hev) as (-> & -> & _). by apply (gd_linked _ _ Hg k).
    - apply placed_linked; [apply (graph_of_ok _ _ (gd_graph _ _ Hg))|]. by apply (added_ok h o w k r'). }
  split; [|split].
  - split; [intros k r' Hr'; by apply Hrows|exact Hlinks|apply Hg].
  - intros Hpun k r' Hr' Hap. destruct (Hrows k r' Hr') as [_ [(r & Hr & Hc)|[_ Hf]]]; [|congruence].
    destruct (row_change h o w k r r' Ha Hr (gd_rows _ _ Hg k r Hr) Hc) as (_ & _ & _ & _ & _ & Happ). apply Happ; [done..|]. exact (Hag Hpun k r Hr).
  - intros h' Hh Hapart. split; [cbn; lia|reflexivity| | |].
    + intros k r Hr. specialize (Hev k). rewrite Hr in Hev. destruct (row_of tenantID w' k) as [r'|]; [|done].
      destruct (row_change h o w k r r' Ha Hr (gd_rows _ _ Hg k r Hr) Hev) as (? & ? & ? & _). by exists r'.
    + intros Hpun p u -> (r' & Hr' & Hcl). split; [|done]. destruct (Hrows _ r' Hr') as [_ [(r & Hr & Hc)|[Hf _]]]; [|congruence].
      destruct (row_change h o w _ r r' Ha Hr (gd_rows _ _ Hg _ r Hr) Hc) as (_ & _ & _ & _ & Hcc & _).
      destruct Hcc as [Hcc|p0 u0 now -> Hk Hy _|p0 u0 _ _ _ Hy]; [exists r; split; [done|congruence]| |congruence].
      destruct Ha as (_ & _ & _ & Hlt). specialize (Hlt Hpun). destruct (Hh p u eq_refl) as [_ Hor]. destruct (Hor Hpun) as [Hc'|Hc']; [done|].
      assert (u = u0) as -> by congruence. lia.
    + intros Hpun p u -> Hcw Hn. pose proof Hcw as (r & Hr & Hcl). specialize (Hev (pr_Key p)). rewrite Hr in Hev.
      destruct (row_of tenantID w' (pr_Key p)) as [r'|] eqn:Hr'; [|done].
      destruct (row_change h o w _ r r' Ha Hr (gd_rows _ _ Hg _ r Hr) Hev) as (_ & _ & _ & _ & Hcc & _).
      destruct Hcc as [Hcc|p0 u0 now -> Hk Hy Hx|p0 u0 -> Hk Hx Hy].
      * destruct Hn. exists r'. split; [done|congruence].
      * destruct Ha as (_ & Hnow & _ & _). cbn. specialize (Hx u Hcl). lia.
      * exfalso. apply (Hapart Hpun p0 u0 p u eq_refl eq_refl Hk); [|done]. exists r. split; congruence.
Qed.

(** A write of the graph that lets every pair grow whose claim is not in hand. *)
Lemma graph_effect h others w c' :
  let w' := mkWorld (w_store w) c' (w_clock w) in
  client_write others tenantID (w_graphs w) c' ->
  (punctual -> forall k r, row_of tenantID w k = Some r ->
     others (tenant_graph tenantID w) (low r) (high r) \/ exists p u, h = Some (p, u) /\ pr_Key p = k /\ claims tenantID p u w) ->
  good tenantID w -> followed w ->
  good tenantID w' /\ followed w' /\ forall h', holds_claim tenantID h' w -> apart h h' w -> rely tenantID h' w w'.
Proof.
  intros w' Hw Hpairs Hg Hag. destruct (Hw (gd_graph _ _ Hg)) as [Hok [_ Hx Hgr]]. change (extends (tenant_graph tenantID w) (tenant_graph tenantID w')) in Hx.
  split; [|split].
  - split; [apply Hg| |exact Hok]. intros k r Hr. eapply extends_linked; [exact Hx|]. by apply (gd_linked _ _ Hg k).
  - intros Hpun k r Hr Hap. change (row_of tenantID w k = Some r) in Hr. destruct (Hpairs Hpun k r Hr) as [Ho|(p & u & _ & <- & (r1 & Hr1 & Hc1))].
    + eapply agrees_grows; [apply (gd_rows _ _ Hg _ _ Hr)|by apply Hgr|exact (Hag Hpun k r Hr Hap)].
    + assert (r1 = r) as -> by congruence. pose proof (rw_applied _ (ro_wf _ _ (gd_rows _ _ Hg _ _ Hr)) Hap). congruence.
  - intros h' Hh' Hapart. split; [cbn; lia|exact Hx| | |].
    + intros k r Hr. exists r. by split_and!.
    + intros Hpun p' u' -> Hc'. split; [exact Hc'|]. change (claims tenantID p' u' w) in Hc'.
      destruct (Hh' p' u' eq_refl) as [(r1 & Hr1 & Hl1 & Hh1 & _) _]. rewrite <- Hl1, <- Hh1.
      destruct (Hpairs Hpun _ r1 Hr1) as [Ho|(p & u & Hh & Hk & Hcl)]; [by apply Hgr|]. by destruct (Hapart Hpun p u p' u' Hh eq_refl Hk).
    + intros _ p' u' -> Hc' Hn. by destruct Hn.
Qed.

(** ** Claims acquired *)

Lemma claim_acquired ctx' p until now d :
  (ClaimProjection ctx' tenantID p until now d).1 = Ok ClaimAcquired ->
  exists r, verdicts d !! (tenantID, pr_Key p) = Some r /\ (forall c, claimed r = Some c -> c <= now) /\
    verdicts (ClaimProjection ctx' tenantID p until now d).2 !! (tenantID, pr_Key p) = Some (set_claimed r (Some (micro until))).
Proof.
  unfold ClaimProjection. destruct (negb _); [done|]. unfold inTx. destruct (FromContext ctx'); [|done]. case_bool_decide; [|done]. cbn [negb].
  destruct (default _ _); [done|]. unfold update_row. destruct (verdicts d !! (tenantID, pr_Key p)) as [r|] eqn:Hr; [|done].
  destruct (holds_verdict p r && negb (applied r) && _) eqn:Hc.
  - intros _. exists r. split; [done|]. cbn. rewrite lookup_insert_eq. split; [|done]. apply andb_true_iff in Hc as [_ Hf].
    intros c Hcl. pose proof (free_claim _ _ Hf c Hcl). pose proof (micro_le now). lia.
  - destruct (holds_verdict p r); intros [=].
Qed.

Lemma on_store_2 {A} (f : vdb -> result store_failure A * vdb) w : (on_store f w).2 = with_store w (f (w_store w)).2.
Proof. unfold on_store. by destruct (f (w_store w)). Qed.
Lemma on_client_2 {A} (f : memClient -> result graph_error A * memClient) w : (on_client f w).2 = mkWorld (w_store w) (f (w_graphs w)).2 (w_clock w).
Proof. unfold on_client. by destruct (f (w_graphs w)). Qed.
Lemma on_store_1 {A} (f : vdb -> result store_failure A * vdb) w : (on_store f w).1 = map_err StoreError (f (w_store w)).1.
Proof. unfold on_store. by destruct (f (w_store w)). Qed.
Lemma on_client_1 {A} (f : memClient -> result graph_error A * memClient) w : (on_client f w).1 = map_err GraphError (f (w_graphs w)).1.
Proof. unfold on_client. by destruct (f (w_graphs w)). Qed.

Lemma with_store_id w : with_store w (w_store w) = w.
Proof. by destruct w. Qed.

(** Where an attempt leaves the world. *)
Lemma attempt_world {A} (f : world -> result call_error A * world) w x w' : attempt f w x w' -> w' = w \/ w' = (f w).2.
Proof. destruct 1; auto. Qed.
Lemma attempt_Ok {A} (f : world -> result call_error A * world) w a w' : attempt f w (Ok a) w' -> (f w).1 = Ok a /\ w' = (f w).2.
Proof. inversion 1; subst; split; congruence. Qed.
Lemma attempt_Err {A} (f : world -> result call_error A * world) w e w' :
  attempt f w (Err e) w' -> e = Unreachable \/ ((f w).1 = Err e /\ w' = (f w).2).
Proof. inversion 1; subst; auto. Qed.

Lemma inTx_read {A} ctx' t d (body : vdb -> result store_failure (A * vdb)) :
  (forall a d', body d = Ok (a, d') -> d' = d) -> (inTx ctx' t d body).2 = d.
Proof. intros Hb. destruct (inTx_ok ctx' t d body) as [->|(a & d' & Hi & Hd)]; [done|]. rewrite Hi. cbn. by eapply Hb. Qed.

Lemma Counts_read ctx' t now d : (Verdictstore.Counts ctx' t now d).2 = d.
Proof. apply inTx_read. by intros a d' [= _ <-]. Qed.
Lemma ClosedPairs_read ctx' t d : (ClosedPairs ctx' t d).2 = d.
Proof. apply inTx_read. by intros a d' [= _ <-]. Qed.
Lemma Unprojected_read ctx' t n now d : (Unprojected ctx' t n now d).2 = d.
Proof. unfold Unprojected. destruct (n <=? 0); [done|]. apply inTx_read. intros a d'. destruct (mapM _ _); [by intros [= _ <-]|done]. Qed.

(** ** What a call does *)

Lemma claims_dec p u w : claims tenantID p u w \/ ~ claims tenantID p u w.
Proof.
  unfold claims. destruct (row_of tenantID w (pr_Key p)) as [r|]; [|right; by intros (r & [=] & _)].
  destruct (decide (claimed r = Some u)); [left; by exists r|right; by intros (r' & [= <-] & ?)].
Qed.

Lemma holds_claim_rely h w w' : rely tenantID h w w' -> holds_claim tenantID h w -> holds_claim tenantID h w'.
Proof.
  intros Hr Hh p u E. destruct (Hh p u E) as [Hp Hc]. split; [by eapply read_from_rely|]. pose proof (re_clock _ _ _ _ Hr).
  intros Hpun. destruct (claims_dec p u w') as [|Hn]; [by left|right]. destruct (Hc Hpun) as [Hc'|]; [|lia]. by apply (re_lost _ _ _ _ Hr Hpun p u E Hc').
Qed.

Lemma apart_rely h h' w w' : rely tenantID h w w' -> rely tenantID h' w w' -> apart h h' w -> apart h h' w'.
Proof.
  intros Hr Hr' Ha Hpun p u p' u' E E' Hk Hc Hc'. destruct (re_held _ _ _ _ Hr Hpun p u E Hc) as [Hc0 _].
  destruct (re_held _ _ _ _ Hr' Hpun p' u' E' Hc') as [Hc0' _]. by apply (Ha Hpun p u p' u').
Qed.

Lemma apart_None h w : apart None h w.
Proof. by intros _ p u p' u'. Qed.
Lemma apart_sym h h' w : apart h h' w -> apart h' h w.
Proof. intros Ha Hpun p u p' u' E E' Hk Hc Hc'. by apply (Ha Hpun p' u' p u). Qed.
Lemma holds_None w : holds_claim tenantID None w.
Proof. by intros p u. Qed.

(** The outcome of a step, for the program that made it and for the others. *)
Definition kept (h h2 : held) (w w' : world) : Prop :=
  good tenantID w' /\ followed w' /\ holds_claim tenantID h2 w' /\
  forall h', holds_claim tenantID h' w -> apart h h' w -> rely tenantID h' w w' /\ apart h2 h' w'.

Lemma kept_same h w : good tenantID w -> followed w -> holds_claim tenantID h w -> kept h h w w.
Proof. intros. split_and!; try done. intros h' _ Ha. split; [apply rely_refl|done]. Qed.

Lemma outside_kept h o ctx' w :
  allowed None o w -> good tenantID w -> followed w -> holds_claim tenantID h w ->
  kept h h w (with_store w (apply_store ctx' o (w_store w))).
Proof.
  intros Ho Hg Ha Hh. destruct (store_effect None o ctx' w) as (Hg' & Ha' & Hr); [done|done|done|].
  pose proof (Hr h Hh (apart_None h w)) as Hown. split_and!; [done|done|by eapply holds_claim_rely|].
  intros h' Hh' Hap. pose proof (Hr h' Hh' (apart_None h' w)) as Hother. split; [done|by eapply apart_rely].
Qed.

Lemma ended_kept h o ctx' w :
  allowed h o w -> good tenantID w -> followed w -> kept h None w (with_store w (apply_store ctx' o (w_store w))).
Proof.
  intros Ho Hg Ha. destruct (store_effect h o ctx' w Ho Hg Ha) as (Hg' & Ha' & Hr). split_and!; [done|done|apply holds_None|].
  intros h' Hh' Hap. split; [by apply Hr|apply apart_None].
Qed.

(** A call of the store whose answer does not matter. *)
Lemma outside_call_kept {A} h o (f : vdb -> result store_failure A * vdb) w x w' :
  attempt (on_store f) w x w' -> (f (w_store w)).2 = apply_store ctx o (w_store w) ->
  allowed None o w -> good tenantID w -> followed w -> holds_claim tenantID h w -> kept h h w w'.
Proof.
  intros [->| ->]%attempt_world Hf Ho Hg Ha Hh; [by apply kept_same|]. rewrite on_store_2, Hf. by apply outside_kept.
Qed.
Lemma read_call_kept {A} h (f : world -> result call_error A * world) w x w' :
  attempt f w x w' -> (f w).2 = w -> good tenantID w -> followed w -> holds_claim tenantID h w -> kept h h w w'.
Proof. intros [->| ->]%attempt_world Hf Hg Ha Hh; [|rewrite Hf]; by apply kept_same. Qed.

Lemma claim_kept p until now w x w' :
  now <= w_clock w -> micro until = until -> read_from tenantID p w -> (punctual -> w_clock w < until) ->
  good tenantID w -> followed w -> attempt (on_store (ClaimProjection ctx tenantID p until now)) w x w' ->
  kept None (held_after (CClaim p until now) x None) w w'.
Proof.
  intros Hnow Hm Hp Hlt Hg Ha Hat. set (o := OpClaim tenantID p until now).
  assert (allowed None o w) as Hal by done. destruct (store_effect None o ctx w Hal Hg Ha) as (Hg' & Ha' & Hr). cbn [apply_store o] in Hg', Ha', Hr.
  assert (x = Ok ClaimAcquired \/ held_after (CClaim p until now) x None = None) as [->|Hn] by (destruct x as [[]|]; auto).
  - apply attempt_Ok in Hat as [Hx ->]. rewrite on_store_1 in Hx. rewrite on_store_2.
    destruct (ClaimProjection ctx tenantID p until now (w_store w)).1 as [y|] eqn:Hy; [|done]. injection Hx as ->.
    apply claim_acquired in Hy as (r & Hr0 & Hfree & Hr1). rewrite Hm in Hr1.
    split_and!; [done|done| |].
    + intros p' u' [= <- <-]. split; [eapply read_from_rely; [|exact Hp]; apply (Hr None); [apply holds_None|apply apart_None]|].
      intros _. left. eexists. split; [exact Hr1|done].
    + intros h' Hh' _. split; [by apply Hr; [|apply apart_None]|]. intros Hpun p1 u1 p' u' [= <- <-] -> Hk _ (r' & Hr' & Hc').
      rewrite <- Hk in Hr'. unfold row_of in Hr'. cbn [w_store with_store] in Hr'. assert (u' = until) as -> by (rewrite Hr1 in Hr'; injection Hr' as <-; cbn in Hc'; congruence).
      specialize (Hlt Hpun). destruct (Hh' p' until eq_refl) as [_ Hor]. destruct (Hor Hpun) as [(r2 & Hr2 & Hc2)|]; [|lia]. rewrite <- Hk in Hr2. unfold row_of in Hr2.
      assert (r2 = r) as -> by congruence. specialize (Hfree until Hc2). lia.
  - rewrite Hn. apply attempt_world in Hat as [->| ->]; [apply kept_same; [done..|apply holds_None]|]. rewrite on_store_2.
    split_and!; [done|done|apply holds_None|]. intros h' Hh' _. split; [by apply Hr; [|apply apart_None]|apply apart_None].
Qed.

Lemma graph_kept {A} h others (f : memClient -> result graph_error A * memClient) w x w' :
  attempt (on_client f) w x w' -> client_write others tenantID (w_graphs w) (f (w_graphs w)).2 ->
  (punctual -> forall k r, row_of tenantID w k = Some r ->
     others (tenant_graph tenantID w) (low r) (high r) \/ exists p u, h = Some (p, u) /\ pr_Key p = k /\ claims tenantID p u w) ->
  good tenantID w -> followed w -> holds_claim tenantID h w -> kept h h w w'.
Proof.
  intros [->| ->]%attempt_world Hw Hp Hg Ha Hh; [by apply kept_same|]. rewrite on_client_2.
  destruct (graph_effect h others w _ Hw Hp Hg Ha) as (Hg' & Ha' & Hr). split_and!; [done|done|exact Hh|].
  intros h' Hh' Hap. split; [by apply Hr|exact Hap].
Qed.

(** The pairs of other rows, while a claim is in hand. *)
Lemma other_pairs h p u w k r :
  punctual -> h = Some (p, u) -> w_clock w < u -> holds_claim tenantID h w -> good tenantID w -> row_of tenantID w k = Some r ->
  (low r, high r) <> (pr_Low p, pr_High p) \/ exists p u, h = Some (p, u) /\ pr_Key p = k /\ claims tenantID p u w.
Proof.
  intros Hpun -> Hlt Hh Hg Hr. destruct (Hh p u eq_refl) as [(r0 & Hr0 & Hl0 & Hh0 & _) Hor]. destruct (Hor Hpun) as [Hcl|Hle]; [|lia].
  destruct (decide (pr_Key p = k)) as [Hk|Hk]; [right; by exists p, u|left]. intros [= Hl Hi]. apply Hk.
  rewrite (ro_key _ _ (gd_rows _ _ Hg _ _ Hr)), (ro_key _ _ (gd_rows _ _ Hg _ _ Hr0)). congruence.
Qed.

Lemma call_kept X (c : call X) h w x w' :
  owes tenantID h c w -> (punctual -> in_time h c w) -> answers ctx tenantID w c x w' ->
  good tenantID w -> followed w -> holds_claim tenantID h w -> kept h (held_after c x h) w w'.
Proof.
  intros Ho Ht Hat Hg Ha Hh. destruct c as [| |cx|req|now| |n now|n lf now|key v|key v|key f|p until now|p until|key until|s t e|id|q|req| |cs now|q|n|es|n|r|ref|cat];
    cbn [held_after owes in_time answers] in *.
  - destruct Hat as [_ ->]. by apply kept_same.
  - subst. by apply kept_same.
  - subst. by apply kept_same.
  - subst. by apply kept_same.
  - eapply read_call_kept; [exact Hat| |done..]. by rewrite on_store_2, Counts_read, with_store_id.
  - by eapply (outside_call_kept h (OpReset tenantID)).
  - eapply read_call_kept; [exact Hat| |done..]. by rewrite on_store_2, Unprojected_read, with_store_id.
  - destruct Hat as [locked Hat]. by eapply (outside_call_kept h (OpLease locked tenantID n lf now)).
  - by eapply (outside_call_kept h (OpDecide tenantID key v)).
  - by eapply (outside_call_kept h (OpDissent tenantID key v)).
  - by eapply (outside_call_kept h (OpFailure tenantID key f)).
  - destruct Ho as (-> & Hnow & Hm & Hp). by eapply claim_kept.
  - destruct Ho as (Hh' & Hm & Hag). assert (kept h None w w) as Hsame.
    { split_and!; [done|done|apply holds_None|]. intros h2 _ _. split; [apply rely_refl|apply apart_None]. }
    apply attempt_world in Hat as [->| ->]; [done|]. rewrite on_store_2. by apply (ended_kept h (OpMark tenantID p until)).
  - destruct Ho as (Hm & p & Hh' & ->). assert (kept h None w w) as Hsame.
    { split_and!; [done|done|apply holds_None|]. intros h2 _ _. split; [apply rely_refl|apply apart_None]. }
    apply attempt_world in Hat as [->| ->]; [done|]. rewrite on_store_2. apply (ended_kept h (OpRelease tenantID (pr_Key p) until)); [|done..].
    split_and!; eauto.
  - destruct Ho as [(p & u & Hh' & -> & -> & Hid & Hne)|[Hpl Hl]].
    + eapply graph_kept; [exact Hat|by apply CreateEdge_write| |done..].
      intros Hpun k r Hr. by apply (other_pairs h p u w k r Hpun Hh'); [by eapply Ht|..].
    + eapply graph_kept; [exact Hat|by apply CreateEdge_plain|by left|done..].
  - eapply read_call_kept; [exact Hat| |done..]. rewrite on_client_2. by destruct w.
  - eapply read_call_kept; [exact Hat| |done..]. rewrite on_client_2. by destruct w.
  - destruct Ho as (p & u & Hh' & Hn). eapply graph_kept; [exact Hat|by apply SupersedeFact_write|by left|done..].
  - eapply read_call_kept; [exact Hat| |done..]. by rewrite on_store_2, ClosedPairs_read, with_store_id.
  - by eapply (outside_call_kept h (OpEnqueue tenantID cs now)).
  - eapply read_call_kept; [exact Hat| |done..]. rewrite on_client_2. by destruct w.
  - eapply graph_kept; [exact Hat|apply CreateNode_write| |done..]. intros _ k r Hr. left. by apply (gd_linked _ _ Hg k).
  - eapply graph_kept; [exact Hat|by apply BulkCreateEdges_write| |done..]. intros _ k r Hr. left. by apply (gd_linked _ _ Hg k).
  - eapply graph_kept; [exact Hat|apply UpsertNode_write| |done..]. intros _ k r Hr. left. by apply (gd_linked _ _ Hg k).
  - eapply graph_kept; [exact Hat|apply CreateRequiresEdge_write|by left|done..].
  - subst. by apply kept_same.
  - subst. by apply kept_same.
Qed.
End passes.
