(* ===== verification/Safety.v ===== *)
(** The programs of the adjudicator ([Adjudicate]) give what they owe
    ([Projecting]): a projection marks its verdict as projected only when the
    graph agrees with it, whatever happens meanwhile. *)

From S2P Require Import Prelude Float64 Timefmt Tenant Consensus Jobstore Graph MemDriver MemDriverFacts Verdicts Verdictstore VerdictFacts Panel Adjudicate Fuzzy Reconcile Agreement Projecting Passes.
Local Open Scope Z_scope.

(** * Definitions *)

(** A row that holds the verdict [p] as it was read. *)
Definition matches (p : Projection) (r : row) : Prop :=
  low r = pr_Low p /\ high r = pr_High p /\ candidate r = pr_CandidateEdgeID p /\ holds_verdict p r = true.

(** The graph says what [p] says. *)
Definition projects (p : Projection) (g : memGraph) : Prop := forall r, matches p r -> agrees g r.

Section safety.
Context `{Postgres} `{Jsonb} `{UpperCase} `{T : Timing} (ctx : context) (tenantID : string).

#[local] Abbreviation safe := (safe ctx tenantID).
#[local] Abbreviation rely := (rely tenantID).
#[local] Abbreviation claims := (claims tenantID).
#[local] Abbreviation graph := (tenant_graph tenantID).

(** What holds of the graph as long as the claim is held. *)
Definition knows (p : Projection) (u : Time) (F : memGraph -> Prop) (w : world) : Prop := punctual -> claims p u w -> F (graph w).
Definition stable (p : Projection) (F : memGraph -> Prop) : Prop := forall g g', grows (pr_Low p) (pr_High p) g g' -> F g -> F g'.

(** * Facts *)

Lemma knows_rely p u F w w' : stable p F -> rely (Some (p, u)) w w' -> knows p u F w -> knows p u F w'.
Proof. intros Hs Hr Hk Hpun. apply (known_rely tenantID F p u w w'); [done..|]. by apply Hk. Qed.

Lemma stable_only p P : stable p (fun g => only P g (pr_Low p) (pr_High p)).
Proof. intros g g' Hg. by apply grows_only. Qed.
Lemma stable_stored p id : stable p (fun g => stored g id).
Proof. intros g g' Hg. by eapply grows_stored. Qed.
Definition own_candidate (p : Projection) : Prop := pr_CandidateEdgeID p = sameAsEdgeID (pr_Low p) (pr_High p).

Lemma stable_retired p : own_candidate p -> stable p (fun g => retired g (pr_CandidateEdgeID p)).
Proof. intros -> g g' Hg. by eapply grows_retired. Qed.
Lemma stable_and p F G : stable p F -> stable p G -> stable p (fun g => F g /\ G g).
Proof. intros HF HG g g' Hg [? ?]. split; [by eapply HF|by eapply HG]. Qed.
Lemma stable_or p F G : stable p F -> stable p G -> stable p (fun g => F g \/ G g).
Proof. intros HF HG g g' Hg [?|?]; [left; by eapply HF|right; by eapply HG]. Qed.
Lemma stable_const p (P : Prop) : stable p (fun _ => P).
Proof. by intros g g' _. Qed.
Lemma stable_projects p : own_candidate p -> stable p (projects p).
Proof.
  intros Hc g g' Hg Hp r Hm. destruct Hm as (Hl & Hh & Hcd & Hv). apply (agrees_grows g); [by rewrite Hcd, Hl, Hh|by rewrite Hl, Hh|]. by apply Hp.
Qed.

(** The claim and the graph, when only one of them changes. *)
Lemma knows_store p u F w w' : graph w' = graph w -> (claims p u w' -> claims p u w) -> knows p u F w -> knows p u F w'.
Proof. unfold knows. intros ->. auto. Qed.

(** Where a call of the graph leaves the world. *)
Lemma client_attempt {A} (f : memClient -> result graph_error A * memClient) w x w' :
  attempt (on_client f) w x w' ->
  (forall p u, claims p u w' <-> claims p u w) /\ (w' = w \/ graph w' = graph_of (f (w_graphs w)).2 tenantID).
Proof. intros [->| ->]%attempt_world; [auto|]. rewrite on_client_2. auto. Qed.

(** ** Superseding the other edges *)

(** How a projection ends: with its claim, and without an error only when the
    graph says what it should. *)
Definition ends_with (p : Projection) (u : Time) (F : memGraph -> Prop) (w : world) (a : AdjudicateResult * projected) (h : held) (w' : world) : Prop :=
  h = Some (p, u) /\ rely None w w' /\ (pj_err a.2 = None -> knows p u F w').

Lemma ends_with_later p u F w w1 a h w' : rely None w w1 -> ends_with p u F w1 a h w' -> ends_with p u F w a h w'.
Proof. intros Hr (-> & Hr' & Hf). split_and!; [done|by eapply rely_trans|done]. Qed.

Lemma supersede_others_safe p u keep paths b res w G :
  stable p G -> knows p u (fun g => only (covers paths keep (pr_High p)) g (pr_Low p) (pr_High p) /\ G g) w ->
  safe (supersede_others p keep paths b res) (Some (p, u)) w
    (ends_with p u (fun g => only (fun id => id = keep) g (pr_Low p) (pr_High p) /\ G g) w).
Proof.
  intros HG. revert b res w. induction paths as [|x paths IH]; intros b res w Hk; cbn [supersede_others].
  - split_and!; [done|apply rely_refl|]. intros _ Hpun Hc. destruct (Hk Hpun Hc) as [Ho Hg]. split; [|done]. intros e He Hb.
    destruct (Ho e He Hb) as [[->|(y & z & Hy%not_elem_of_nil & _)]|]; auto; done.
  - destruct (live_edge (pr_High p) keep x) as [e|] eqn:Hx.
    + cbn [Projecting.safe]. intros w1 Hr Hgd Hh. split; [by exists p, u|]. intros y w2 Hans _ Hn.
      assert (knows p u (fun g => only (covers (x :: paths) keep (pr_High p)) g (pr_Low p) (pr_High p) /\ G g) w1) as Hk1.
      { eapply knows_rely; [|exact Hr|exact Hk]. apply stable_and; [apply stable_only|done]. }
      assert (rely None w w2) as Hw2 by (eapply rely_trans; [by eapply rely_None|done]).
      pose proof Hans as Hat. cbn [answers] in Hat. destruct y as [v|err].
      2: { split_and!; [done|done|done]. }
      apply (safe_mono _ _ _ _ _ (ends_with p u (fun g => only (fun id => id = keep) g (pr_Low p) (pr_High p) /\ G g) w2)).
      { intros a h w3. by apply ends_with_later. }
      apply IH. intros Hpun Hc. pose proof (client_attempt _ _ _ _ Hat) as [Hcl _]. apply Hcl in Hc. destruct (Hk1 Hpun Hc) as [Ho Hg].
      apply attempt_Ok in Hat as [Hv ->]. rewrite on_client_1 in Hv. rewrite on_client_2 in *. unfold tenant_graph in *. cbn [w_graphs] in *.
      set (c := w_graphs w1) in *. set (rq := mkSupersedeRequest _ _ _ _) in *.
      destruct (SupersedeFact c tenantID rq).1 as [v'|] eqn:Hs; [|done]. apply SupersedeFact_retired in Hs as Hret; [|done].
      pose proof (SupersedeFact_grows c tenantID rq (pr_Low p) (pr_High p) eq_refl) as Hgr. split; [|by eapply HG].
      intros e0 He0 Hb0. destruct (grows_only _ _ _ _ _ Hgr Ho e0 He0 Hb0) as [[->|(y & z & Hy & Hz & Hid)]|]; [by left; left| |by right].
      apply elem_of_cons in Hy as [->|Hy].
      * right. apply Hret; [done|]. rewrite Hx in Hz. by injection Hz as <-.
      * left. right. by exists y, z.
    + apply IH. intros Hpun Hc. destruct (Hk Hpun Hc) as [Ho Hg]. split; [|done]. intros e He Hb.
      destruct (Ho e He Hb) as [[->|(y & z & Hy & Hz & Hid)]|]; [by left; left| |by right].
      apply elem_of_cons in Hy as [->|Hy]; [congruence|]. left. right. by exists y, z.
Qed.

(** ** Confirmations *)

Lemma panelEdgeID_named lo hi : panelEdgeID lo hi <> "".
Proof. by unfold panelEdgeID, DerivedID. Qed.
Lemma humanEdgeID_named lo hi t : humanEdgeID lo hi t <> "".
Proof. by unfold humanEdgeID, DerivedID. Qed.

Lemma confirm_safe p u e res rest w F :
  projected_id (e_ID e) -> e_ID e <> "" ->
  (forall b w', rely None w w' -> (pr_Status p = VerdictConfirmed -> knows p u (fun g => stored g (e_ID e)) w') ->
     safe (rest b) (Some (p, u)) w' (ends_with p u F w')) ->
  safe (confirm p e res rest) (Some (p, u)) w (ends_with p u F w).
Proof.
  intros Hid Hne Hrest. unfold confirm. case_bool_decide as Hst.
  2: { apply Hrest; [apply rely_refl|done]. }
  cbn [Projecting.safe]. intros w1 Hr Hgd Hh. split; [left; by exists p, u|]. intros y w2 Hat _ Hn. cbn [answers] in Hat.
  assert (rely None w w2) as Hw2 by (eapply rely_trans; [by eapply rely_None|done]).
  pose proof (CreateEdge_answer (w_graphs w1) tenantID (pr_Low p) (pr_High p) e) as Ha.
  assert (forall b, (knows p u (fun g => stored g (e_ID e)) w2) -> safe (rest b) (Some (p, u)) w2 (ends_with p u F w)) as Hgo.
  { intros b Hk. eapply safe_mono; [|by apply (Hrest b w2)]. intros a h w3. by apply ends_with_later. }
  destruct y as [v|x].
  - apply attempt_Ok in Hat as [Hv ->]. rewrite on_client_1 in Hv. rewrite on_client_2 in *. apply Hgo. intros _ _. unfold tenant_graph. cbn [w_graphs].
    destruct (CreateEdge _ _ _ _ _).1; [exact Ha|done].
  - destruct (node_not_found x) eqn:Hnf; [|destruct (edge_exists x) eqn:Hex].
    + apply attempt_Err in Hat as [->|[Hv ->]]; [done|]. rewrite on_client_1 in Hv. rewrite on_client_2 in *. exfalso.
      destruct (Hh p u eq_refl) as [(r & Hrow & Hlo & Hhi & _) _]. pose proof (gd_linked _ _ Hgd _ _ Hrow) as Hlk. rewrite Hlo, Hhi in Hlk.
      destruct (CreateEdge _ _ _ _ _).1 as [|y]; [done|]. cbn in Hv. injection Hv as <-.
      destruct Hlk as (e0 & _ & (_ & Hlk1 & Hlk2) & _). unfold tenant_graph in Hlk1, Hlk2. destruct Ha as [Ha _]. destruct (Ha Hnf); congruence.
    + apply attempt_Err in Hat as [->|[Hv ->]]; [done|]. rewrite on_client_1 in Hv. rewrite on_client_2 in *. apply Hgo.
      intros _ _. unfold tenant_graph. cbn [w_graphs]. destruct (CreateEdge _ _ _ _ _).1 as [|y]; [done|]. cbn in Hv. injection Hv as <-.
      cbn in Hex. destruct y; try done. by eapply Ha.
    + by split_and!.
Qed.

(** ** The two kinds of projections *)

Lemma matches_human p r : matches p r -> pr_DeterminationType p = DeterminationHuman -> by_human r = true.
Proof. intros (_ & _ & _ & Hv%bool_decide_eq_true) Hd. unfold by_human. apply bool_decide_eq_true. by destruct Hv as [-> _]. Qed.
Lemma matches_panel p r : matches p r -> pr_DeterminationType p <> DeterminationHuman -> by_human r = false.
Proof. intros (_ & _ & _ & Hv%bool_decide_eq_true) Hd. unfold by_human. apply bool_decide_eq_false. by destruct Hv as [-> _]. Qed.

Lemma projectHuman_safe p u res w :
  pr_DeterminationType p = DeterminationHuman -> micro (pr_DecidedAt p) = pr_DecidedAt p ->
  safe (projectHuman p res) (Some (p, u)) w (ends_with p u (fun g => ids_named g -> projects p g) w).
Proof.
  intros Hd Hm. unfold projectHuman.
  assert (forall g, ids_named g -> only (fun id => id = human_keep p) g (pr_Low p) (pr_High p) ->
            (pr_Status p = VerdictConfirmed -> stored g (human_keep p)) -> projects p g) as Hfin.
  { intros g Hn Ho Hs r Hmt. pose proof (matches_human p r Hmt Hd) as Hh. destruct Hmt as (Hl & Hi & _ & Hv%bool_decide_eq_true).
    destruct Hv as (_ & Hst & Hat). unfold agrees. rewrite Hh, Hst, Hat, Hl, Hi, Hm. cbn [default]. unfold human_keep in *. case_bool_decide as Hc.
    - split; [by apply Hs|done].
    - intros e He Hb. destruct (Ho e He Hb) as [Hid|]; [|done]. destruct (Hn e He); [|done]. by destruct Hb as [-> _]. }
  apply confirm_safe.
  - exists (pr_Low p), (pr_High p). right. by exists (pr_DecidedAt p).
  - apply humanEdgeID_named.
  - intros b w' Hw' Hk. cbn [Projecting.safe]. intros w1 Hr Hgd Hh. split; [done|]. intros y w2 Hat _ Hn. cbn [answers] in Hat.
    assert (rely None w' w2) as Hw2 by (eapply rely_trans; [by eapply rely_None|done]). destruct y as [paths|x]; [|by split_and!].
    apply attempt_Ok in Hat as [Hv ->]. rewrite on_client_1 in Hv. rewrite on_client_2 in *. cbn [fst snd] in *.
    assert (mkWorld (w_store w1) (w_graphs w1) (w_clock w1) = w1) as Hsame by (by destruct w1). rewrite Hsame in *.
    destruct (Traverse _ _ _) as [ps|] eqn:Ht; [|done]. injection Hv as ->.
    eapply safe_mono; [|apply (supersede_others_safe p u (human_keep p) paths b res w1
      (fun g => pr_Status p = VerdictConfirmed -> stored g (human_keep p)))].
    + intros a h w3 (-> & Hr3 & Hf). split_and!; [done|by eapply rely_trans|]. intros He Hpun Hc. destruct (Hf He Hpun Hc) as [Ho Hs]. intros Hnm.
      apply Hfin; [done|done|]. intros Hst. by apply Hs.
    + intros g g' Hg Hs Hst. eapply grows_stored; [exact Hg|]. by apply Hs.
    + intros Hpun Hc. split; [by eapply Traverse_covers; [apply Hgd|]|]. intros Hst. unfold human_keep. rewrite bool_decide_eq_true_2 by done.
      apply (knows_rely p u _ w' w1 (stable_stored p _) Hr (Hk Hst)); done.
Qed.

Lemma projectPanel_safe p u res w :
  pr_DeterminationType p <> DeterminationHuman ->
  safe (projectPanel p res) (Some (p, u)) w (ends_with p u (projects p) w).
Proof.
  intros Hd. unfold projectPanel.
  assert (forall g, (pr_Status p = VerdictConfirmed -> stored g (panelEdgeID (pr_Low p) (pr_High p))) -> retired g (pr_CandidateEdgeID p) -> projects p g) as Hfin.
  { intros g Hs Hrt r Hmt. pose proof (matches_panel p r Hmt Hd) as Hh. destruct Hmt as (Hl & Hi & Hcd & Hv%bool_decide_eq_true).
    destruct Hv as (_ & Hst & _). unfold agrees. rewrite Hh, Hst, Hl, Hi, Hcd. case_bool_decide; auto. }
  apply confirm_safe; [|apply panelEdgeID_named|].
  { exists (pr_Low p), (pr_High p). by left. }
  intros b w' Hw' Hk. cbn [Projecting.safe]. intros w1 Hr Hgd Hh. split; [done|]. intros y w2 Hat _ Hn. cbn [answers] in Hat.
  assert (rely None w' w2) as Hw2 by (eapply rely_trans; [by eapply rely_None|done]).
  assert (pr_Status p = VerdictConfirmed -> knows p u (fun g => stored g (panelEdgeID (pr_Low p) (pr_High p))) w1) as Hk1.
  { intros Hst. apply (knows_rely p u _ w' w1 (stable_stored p _) Hr). by apply Hk. }
  pose proof (GetEdge_retired (w_graphs w1) tenantID (pr_CandidateEdgeID p) (gd_graph _ _ Hgd)) as Hget.
  assert (mkWorld (w_store w1) (w_graphs w1) (w_clock w1) = w1) as Hsame by (by destruct w1).
  destruct y as [c|x].
  - apply attempt_Ok in Hat as [Hv ->]. rewrite on_client_1 in Hv. rewrite on_client_2 in *. cbn [fst snd] in *. rewrite Hsame in *.
    destruct (GetEdge _ _ _) as [c'|] eqn:Hg; [|done]. injection Hv as ->. destruct (e_ValidTo (ewe_Edge c)) as [t|] eqn:Hto.
    + split_and!; [done|done|]. intros _ Hpun Hc. apply Hfin; [intros Hst; by apply Hk1|]. by apply Hget.
    + cbn [Projecting.safe]. intros w3 Hr3 Hgd3 Hh3. split; [by exists p, u|]. intros y w4 Hat _ Hn4. cbn [answers] in Hat.
      assert (rely None w' w4) as Hw4 by (eapply rely_trans; [exact Hw2|]; eapply rely_trans; [by eapply rely_None|done]).
      destruct y as [v|x]; [|by split_and!]. split_and!; [done|done|]. intros _ Hpun Hc. pose proof (client_attempt _ _ _ _ Hat) as [Hcl _]. apply Hcl in Hc.
      apply attempt_Ok in Hat as [Hv ->]. rewrite on_client_1 in Hv. rewrite on_client_2 in *. unfold tenant_graph. cbn [w_graphs].
      set (rq := mkSupersedeRequest _ _ _ _) in *. destruct (SupersedeFact (w_graphs w3) tenantID rq).1 as [v'|] eqn:Hs; [|done].
      apply SupersedeFact_retired in Hs; [|done]. apply Hfin; [|done]. intros Hst.
      eapply grows_stored; [exact (SupersedeFact_grows (w_graphs w3) tenantID rq "" "" eq_refl)|].
      apply (knows_rely p u _ w1 w3 (stable_stored p _) Hr3); [by apply Hk1|done..].
  - destruct (edge_not_found x) eqn:Hx; [|by split_and!]. apply attempt_Err in Hat as [->|[Hv ->]]; [done|].
    rewrite on_client_1 in Hv. rewrite on_client_2 in *. cbn [fst snd] in *. rewrite Hsame in *.
    destruct (GetEdge _ _ _) as [c'|y] eqn:Hg; [done|]. injection Hv as <-. cbn in Hx. destruct y; try done.
    split_and!; [done|done|]. intros _ Hpun Hc. apply Hfin; [intros Hst; by apply Hk1|]. apply Hget. by eexists.
Qed.

(** ** A projection *)

(** How a step of a run ends: if it does not stop the run, with no claim. *)
Definition goes_on {A} (w : world) (a : AdjudicateResult * result stop A) (h : held) (w' : world) : Prop :=
  rely None w w' /\ match a.2 with Ok _ => h = None | Err _ => True end.

Lemma goes_on_later {A} w w1 (a : AdjudicateResult * result stop A) h w' : rely None w w1 -> goes_on w1 a h w' -> goes_on w a h w'.
Proof. intros Hr [Hr' Hm]. split; [by eapply rely_trans|done]. Qed.

Lemma grows_named lo hi g g' : grows lo hi g g' -> ids_named g' -> ids_named g.
Proof.
  intros Hg Hn e [i Hi]%list_elem_of_lookup Hl. destruct (ex_edges _ _ (gr_extends _ _ _ _ Hg) i e Hi) as (e' & Hi' & Hl' & _ & _ & <- & _).
  apply Hn; [by eapply list_elem_of_lookup_2|congruence].
Qed.

(** A verdict as it is read from the store. *)
Definition readable (p : Projection) (w : world) : Prop :=
  read_from tenantID p w /\ (pr_DeterminationType p = DeterminationHuman -> micro (pr_DecidedAt p) = pr_DecidedAt p).

Lemma readable_rely p h w w' : rely h w w' -> readable p w -> readable p w'.
Proof. intros Hr [Hp Hm]. split; [by eapply read_from_rely|done]. Qed.

Lemma ends_projected p u w w1 G :
  (forall g g', grows (pr_Low p) (pr_High p) g g' -> G g -> G g') -> (forall g, ids_named g -> G g -> projects p g) ->
  good tenantID w1 -> rely (Some (p, u)) w w1 -> knows p u G w -> readable p w1 -> punctual ->
  claims p u w1 -> forall r, row_of tenantID w1 (pr_Key p) = Some r -> holds_verdict p r = true -> agrees (graph w1) r.
Proof.
  intros Hs HG Hgd Hr Hk [(r0 & Hr0 & Hl & Hh & _ & Hc) _] Hpun Hcl r Hrow Hv. assert (r0 = r) as -> by congruence.
  apply (HG (graph w1)); [by apply (graph_of_ok _ _ (gd_graph _ _ Hgd))|by eapply knows_rely|by split_and!].
Qed.

Lemma project_safe cfg p res w :
  readable p w -> safe (project cfg p res) None w (goes_on w).
Proof.
  intros Hp. unfold project. cbn [Projecting.safe]. intros w1 Hr1 Hg1 _. split; [done|]. intros t w2 [-> ->] _ _.
  intros w3 Hr3 Hg3 Hh3. cbn [held_after] in Hr3. pose proof (readable_rely p _ _ _ (rely_trans _ _ _ _ _ Hr1 Hr3) Hp) as Hp3.
  set (until := micro (w_clock w1 + LeaseDuration cfg)). assert (micro until = until) as Hm by apply micro_idem.
  split; [split_and!; [done|apply Hr3|done|apply Hp3]|]. intros x w4 Hat4 _ Hn4.
  assert (rely None w w4) as Hw4 by (eapply rely_trans; [exact Hr1|]; by eapply rely_trans).
  destruct x as [[]|x]; [|by split..]. clear Hat4. cbn [held_after]. pose proof (readable_rely p _ _ _ Hn4 Hp3) as Hp4.
  apply safe_bind.
  assert (forall G, (forall g g', grows (pr_Low p) (pr_High p) g g' -> G g -> G g') -> (forall g, ids_named g -> G g -> projects p g) ->
    forall a h w5, ends_with p until G w4 a h w5 ->
    safe ((fun '(res, w) =>
          match pj_err w with
          | Some e =>
              if wrote w then fail res (Called e)
              else Do (CRelease (pr_Key p) until) (fun r => fail res (match r with Ok _ => Called e | Err e' => Joined e e' end))
          | None => and_then (markProjected p until res) (fun res _ => done res true)
          end) a) h w5 (goes_on w)) as Hrest.
  { intros G Hst HG [res5 pj] h w5 (-> & Hr5 & Hf). cbn [snd] in Hf. assert (rely None w w5) as Hw5 by (by eapply rely_trans).
    destruct (pj_err pj) as [e|].
    - destruct (wrote pj); [by split|]. cbn [Projecting.safe]. intros w6 Hr6 _ _. split; [split; [done|by exists p]|]. intros r w7 _ _ Hn7.
      split; [|done]. eapply rely_trans; [exact Hw5|]. eapply rely_trans; [by eapply rely_None|done].
    - unfold and_then, markProjected, must. apply safe_bind. cbn [Projecting.safe]. intros w6 Hr6 Hg6 _. split.
      + split_and!; [done|done|]. eapply (ends_projected p until w5 w6 G); [done|done|done|done|by apply Hf|].
        eapply readable_rely; [exact Hr6|]. by eapply readable_rely; [exact Hr5|].
      + intros r w7 _ _ Hn7. assert (rely None w w7) as Hw7 by (eapply rely_trans; [exact Hw5|]; eapply rely_trans; [by eapply rely_None|done]).
        destruct r as [ok|e]; by split. }
  case_bool_decide as Hd.
  - eapply safe_mono; [|apply projectHuman_safe; [done|by apply Hp4]]. apply (Hrest (fun g => ids_named g -> projects p g)).
    + intros g g' Hg HG Hn. assert (own_candidate p) as Hc.
      { unfold own_candidate. destruct Hp3 as [(r & Hr & <- & <- & _ & <-) _]. by apply (gd_rows _ _ Hg3 _ _ Hr). }
      eapply stable_projects; [done|exact Hg|]. apply HG. by eapply grows_named.
    + auto.
  - assert (own_candidate p) as Hc.
    { unfold own_candidate. destruct Hp3 as [(r & Hr & <- & <- & _ & <-) _]. by apply (gd_rows _ _ Hg3 _ _ Hr). }
    eapply safe_mono; [|by apply projectPanel_safe]. apply (Hrest (projects p)); [by apply stable_projects|auto].
Qed.

(** ** Batches *)

Lemma and_then_safe {A B} (p : outcome A) (f : AdjudicateResult -> A -> outcome B) w :
  safe p None w (goes_on w) -> (forall res a w', rely None w w' -> safe (f res a) None w' (goes_on w')) ->
  safe (and_then p f) None w (goes_on w).
Proof.
  intros Hp Hf. unfold and_then. apply safe_bind. eapply safe_mono; [|exact Hp]. intros [res [a|e]] h w' [Hr Hh]; [|by split].
  cbn in Hh. subst h. eapply safe_mono; [|by apply Hf]. intros b h w2. by apply goes_on_later.
Qed.

(** A call that claims nothing and needs nothing. *)
Lemma call_safe {X B} (c : call X) (k : X -> outcome B) w :
  (forall w1, owes tenantID None c w1) -> (forall x, held_after c x None = None) ->
  (forall x w1 w2, rely None w w1 -> good tenantID w1 -> answers ctx tenantID w1 c x w2 -> rely None w w2 -> safe (k x) None w2 (goes_on w2)) ->
  safe (Do c k) None w (goes_on w).
Proof.
  intros Ho Hh Hk. cbn [Projecting.safe]. intros w1 Hr Hg _. split; [apply Ho|]. intros x w2 Hans _ Hn. rewrite Hh.
  assert (rely None w w2) as Hw2 by (by eapply rely_trans). eapply safe_mono; [|by eapply (Hk x w1 w2)]. intros a h w3. by apply goes_on_later.
Qed.

Lemma Ret_safe {B} (a : AdjudicateResult * result stop B) w : safe (Ret a) None w (goes_on w).
Proof. split; [apply rely_refl|]. by destruct a as [? []]. Qed.

Lemma project_batch_safe cfg batch res w : Forall (fun p => readable p w) batch -> safe (project_batch cfg batch res) None w (goes_on w).
Proof.
  revert res w. induction batch as [|p batch IH]; intros res w Hb; cbn [project_batch]; [apply Ret_safe|]. apply Forall_cons in Hb as [Hp Hb].
  apply and_then_safe; [by apply project_safe|]. intros res' wrote w' Hr. apply IH. eapply Forall_impl; [exact Hb|].
  intros q. by eapply readable_rely.
Qed.

(** ** What the store answers *)

Lemma Unprojected_readable n now w batch :
  good tenantID w -> (Unprojected ctx tenantID n now (w_store w)).1 = Ok batch -> Forall (fun p => readable p w) batch.
Proof.
  intros Hg. unfold Unprojected. destruct (n <=? 0); [done|]. destruct (inTx _ _ _ _) as [[a|] d'] eqn:Hi; [|done]. intros [= ->].
  apply inTx_Ok in Hi as [_ Hi]. destruct (mapM _ _) as [out|] eqn:Hm; [|done]. injection Hi as -> _. apply mapM_Some in Hm.
  apply Forall_forall. intros p [i Hp]%list_elem_of_lookup. destruct (Forall2_lookup_r _ _ _ _ _ Hm Hp) as ([k r] & Hk & Hpr).
  apply list_elem_of_lookup_2 in Hk. assert ((k, r) ∈ order_by by_decided (List.filter (fun kr => waiting now kr.2) (rows_of tenantID (w_store w)))) as Hin.
  { eapply subseteq_take; exact Hk. }
  rewrite order_by_perm in Hin. apply list_elem_of_In, List.filter_In in Hin as [Hin Hw]. apply list_elem_of_In, elem_of_rows_of in Hin.
  cbn [snd] in Hw. unfold waiting in Hw. apply andb_true_iff in Hw as [Hw _]. apply andb_true_iff in Hw as [Hcl _].
  unfold projection in Hpr. apply bind_Some in Hpr as (c & _ & Hpr). apply bind_Some in Hpr as (u & Hu & Hpr).
  apply bind_Some in Hpr as (ev & _ & Hpr). injection Hpr as <-. split.
  - exists r. split_and!; [exact Hin|done|done| |done]. unfold open_row. apply andb_false_iff. left. apply bool_decide_eq_false.
    by apply closed_not_pending.
  - intros _. cbn. by apply (ro_decided _ _ (gd_rows _ _ Hg k r Hin)).
Qed.

(** A pair as it was leased. *)
Definition leased_from (p : LeasedPair) (w : world) : Prop :=
  exists r, row_of tenantID w (lp_Key p) = Some r /\ low r = LowGroupID (lp_Candidate p) /\ high r = HighGroupID (lp_Candidate p).

Lemma leased_from_rely p h w w' : rely h w w' -> leased_from p w -> leased_from p w'.
Proof.
  intros Hr (r & Hk & Hl & Hh). destruct (re_rows _ _ _ _ Hr _ _ Hk) as (r' & Hk' & ? & ? & _). exists r'. split_and!; congruence.
Qed.

Lemma Lease_leased locked n lf now w pairs :
  (Lease locked ctx tenantID n lf now (w_store w)).1 = Ok pairs -> Forall (fun p => leased_from p w) pairs.
Proof.
  destruct (Lease _ _ _ _ _ _ _) as [[out|] d'] eqn:Hl; [|done]. intros [= ->]. apply Forall_forall. intros p Hp.
  revert Hl. unfold Lease. destruct (_ || _); [done|]. intros [_ Hi]%inTx_Ok. destruct (mapM _ _) as [out|] eqn:Hm; [|done]. injection Hi as -> _.
  apply mapM_Some in Hm. apply list_elem_of_lookup in Hp as [i Hi]. destruct (Forall2_lookup_r _ _ _ _ _ Hm Hi) as ([k r] & Hk & Hp).
  apply list_elem_of_lookup_2 in Hk. apply lease_found_elem in Hk as (Hr & _ & _). unfold leased_pair in Hp. cbn [fst snd mbind option_bind] in Hp.
  destruct (read_context (context_text r)); [|done]. injection Hp as <-. by exists r.
Qed.

Lemma Decide_applied key v w cand :
  closed (v_Status v) = true -> (Decide ctx tenantID key v (w_store w)).1 = Ok (DecideApplied cand) ->
  exists r ev, row_of tenantID w key = Some r /\ candidate r = cand /\
    row_of tenantID (on_store (Decide ctx tenantID key v) w).2 key = Some (decided_row v ev r).
Proof.
  intros Hv Hd. rewrite on_store_2. unfold row_of. cbn [with_store w_store]. revert Hd.
  destruct (Decide _ _ _ _ _) as [[o|] d'] eqn:Hd; [|done]. intros [= ->]. cbn [snd]. revert Hd. unfold Decide. rewrite Hv. cbn [orb negb].
  intros [_ Hb]%inTx_Ok. destruct (jsonb _) as [ev|]; [|done]. unfold update_row in Hb.
  destruct (verdicts (w_store w) !! (tenantID, key)) as [r|]; [|done]. destruct (open_row r).
  - injection Hb as <- <-. exists r, ev. split_and!; [done|done|]. cbn. by rewrite lookup_insert_eq.
  - destruct (by_human r); done.
Qed.

(** ** Runs *)

Lemma must_safe {X B} res (c : call (result call_error X)) (k : X -> outcome B) w :
  (forall w1, owes tenantID None c w1) -> (forall x, held_after c x None = None) ->
  (forall x w1 w2, rely None w w1 -> good tenantID w1 -> answers ctx tenantID w1 c (Ok x) w2 -> rely None w w2 -> rely None w1 w2 ->
     safe (k x) None w2 (goes_on w2)) ->
  safe (must res c k) None w (goes_on w).
Proof.
  intros Ho Hh Hk. unfold must. cbn [Projecting.safe]. intros w1 Hr Hg _. split; [apply Ho|]. intros x w2 Hans _ Hn. rewrite Hh.
  assert (rely None w w2) as Hw2 by (by eapply rely_trans). destruct x as [x|e]; [|by split].
  eapply safe_mono; [|by eapply (Hk x w1 w2)]. intros a h w3. by apply goes_on_later.
Qed.

Lemma recoverProjections_safe fuel cfg res w : safe (recoverProjections fuel cfg res) None w (goes_on w).
Proof.
  revert res w. induction fuel as [|fuel IH]; intros res w; cbn [recoverProjections]; [apply Ret_safe|].
  apply call_safe; [done|done|]. intros now w1 w2 _ _ _ _. apply must_safe; [done|done|].
  intros batch w3 w4 _ Hg Hans _ Hr. cbn [answers] in Hans. apply attempt_Ok in Hans as [Hv ->]. rewrite on_store_1 in Hv.
  apply and_then_safe.
  - apply project_batch_safe. assert (Forall (fun p => readable p w3) batch) as Hb.
    { eapply (Unprojected_readable projectBatch now); [done|]. destruct (Unprojected _ _ _ _ _).1; [by injection Hv as ->|done]. }
    eapply Forall_impl; [exact Hb|]. intros q. by eapply readable_rely.
  - intros res' _ w5 _. destruct (_ && _); [apply Ret_safe|apply IH].
Qed.

Lemma ask_voters_safe cfg runID rp vs w (Q : list (Vote * option llm_failure) -> held -> world -> Prop) :
  (forall votes w', rely None w w' -> Q votes None w') -> safe (ask_voters cfg tenantID runID rp vs) None w Q.
Proof.
  revert w Q. induction vs as [|[m v] vs IH]; intros w Q HQ; cbn [ask_voters]; [apply HQ, rely_refl|].
  cbn [Projecting.safe]. intros w1 Hr _ _. split; [done|]. intros a w2 _ _ Hn. apply safe_bind. apply IH. intros votes w3 Hr3. cbn. apply HQ.
  eapply rely_trans; [exact Hr|]. by eapply rely_trans.
Qed.

Lemma panel_safe cfg runID p w (Q : result panel_error Verdict -> held -> world -> Prop) :
  (forall r w', rely None w w' -> Q r None w') -> safe (panel cfg tenantID runID p) None w Q.
Proof.
  intros HQ. unfold panel. cbn [Projecting.safe]. intros w1 Hr _ _. split; [done|]. intros [rp|] w2 _ _ Hn; cbn [held_after].
  - apply safe_bind, ask_voters_safe. intros votes w3 Hr3. cbn. apply HQ. eapply rely_trans; [exact Hr|]. by eapply rely_trans.
  - cbn. apply HQ. by eapply rely_trans.
Qed.

Lemma commit_safe cfg p v res w : leased_from p w -> safe (commit cfg p v res) None w (goes_on w).
Proof.
  intros Hp. unfold commit. apply must_safe; [done|done|]. intros d w1 w2 Hr1 Hg1 Hans Hr Hr12. destruct d as [cand| |].
  - assert (closed (v_Status v) = true -> forall res0, safe
      (and_then (project cfg (mkProjection (lp_Key p) (LowGroupID (lp_Candidate p)) (HighGroupID (lp_Candidate p)) cand
                   (v_Status v) (v_Confidence v) (v_Evidence v) (v_DecidedAt v) DeterminationLLMPanel "") res0)
         (fun res _ => done res tt)) None w2 (goes_on w2)) as Hgo.
    { intros Hv res0. apply and_then_safe; [|intros; apply Ret_safe]. apply project_safe. split; [|done].
      cbn [answers] in Hans. apply attempt_Ok in Hans as [Ha ->]. rewrite on_store_1 in Ha.
      destruct (Decide _ _ _ _ _).1 as [o|] eqn:Ho; [|done]. injection Ha as ->.
      destruct (Decide_applied _ _ _ _ Hv Ho) as (r & ev & Hrow & Hcand & Hrow'). eexists. split; [exact Hrow'|].
      destruct (leased_from_rely p _ _ _ Hr1 Hp) as (r0 & Hr0 & Hl & Hh). assert (r0 = r) as -> by congruence.
      split_and!; [done|done| |done]. unfold open_row. apply andb_false_iff. left. apply bool_decide_eq_false. by apply closed_not_pending. }
    case_bool_decide as Hc; [apply Hgo; by rewrite Hc|]. case_bool_decide as Hj; [apply Hgo; by rewrite Hj|]. apply Ret_safe.
  - apply must_safe; [done|done|]. intros; apply Ret_safe.
  - apply Ret_safe.
Qed.

Lemma adjudicatePair_safe cfg runID p res w : leased_from p w -> safe (adjudicatePair cfg tenantID runID p res) None w (goes_on w).
Proof.
  intros Hp. unfold adjudicatePair. apply call_safe; [done|done|]. intros t w1 w2 _ _ _ Hr2. destruct (negb _); [apply Ret_safe|].
  apply safe_bind, panel_safe. intros r w3 Hr3. eapply safe_mono; [intros a h w4; by apply (goes_on_later w2 w3)|].
  apply call_safe; [done|done|]. intros t' w4 w5 _ _ _ Hr5. apply call_safe; [done|done|]. intros b w6 w7 _ _ _ Hr7. destruct b; [apply Ret_safe|].
  destruct r as [v|[| |]]; [|apply Ret_safe| |apply Ret_safe].
  - apply commit_safe. eapply leased_from_rely; [|exact Hp]. eapply rely_trans; [exact Hr2|]. eapply rely_trans; [exact Hr3|]. by eapply rely_trans.
  - unfold recordFailure. apply must_safe; [done|done|]. intros; apply Ret_safe.
Qed.

Lemma adjudicate_batch_safe cfg runID pairs res w :
  Forall (fun p => leased_from p w) pairs -> safe (adjudicate_batch cfg tenantID runID pairs res) None w (goes_on w).
Proof.
  revert res w. induction pairs as [|p pairs IH]; intros res w Hb; cbn [adjudicate_batch]; [apply Ret_safe|]. apply Forall_cons in Hb as [Hp Hb].
  apply and_then_safe; [by apply adjudicatePair_safe|]. intros res' _ w' Hr. apply IH. eapply Forall_impl; [exact Hb|].
  intros q. by eapply leased_from_rely.
Qed.

Lemma lease_loop_safe cfg runID fuel m res w : safe (lease_loop cfg tenantID runID fuel m res) None w (goes_on w).
Proof.
  revert res w. induction fuel as [|fuel IH]; intros res w; cbn [lease_loop]; (destruct (negb _); [apply Ret_safe|]); [apply Ret_safe|].
  apply call_safe; [done|done|]. intros now w1 w2 _ _ _ _. apply must_safe; [done|done|]. intros pairs w3 w4 _ _ Hans _ Hr.
  destruct pairs as [|p pairs]; [apply Ret_safe|]. apply and_then_safe; [|intros; apply IH]. apply adjudicate_batch_safe.
  cbn [answers] in Hans. destruct Hans as [locked Hans]. apply attempt_Ok in Hans as [Hv ->]. rewrite on_store_1 in Hv.
  assert (Forall (fun q => leased_from q w3) (p :: pairs)) as Hb.
  { apply (Lease_leased locked (Z.min (LeaseBatch cfg) (m - Leased res)) (LeaseDuration cfg) now). destruct (Lease _ _ _ _ _ _ _).1; [by injection Hv as ->|done]. }
  eapply Forall_impl; [exact Hb|]. intros q. by eapply leased_from_rely.
Qed.

Lemma run_safe cfg runID fuel o w : safe (run cfg tenantID runID fuel o) None w (goes_on w).
Proof.
  unfold run. destruct (_ || _); [apply Ret_safe|]. destruct (DryRun o).
  - apply call_safe; [done|done|]. intros now w1 w2 _ _ _ _. apply must_safe; [done|done|]. intros; apply Ret_safe.
  - assert (forall res w, safe (and_then (recoverProjections fuel cfg res) (fun res _ =>
        if Reproject o then done res tt
        else and_then (lease_loop cfg tenantID runID (Z.to_nat (MaxPairs o)) (MaxPairs o) res) (fun res _ => recoverProjections fuel cfg res)))
      None w (goes_on w)) as Hrest.
    { intros res w'. apply and_then_safe; [apply recoverProjections_safe|]. intros res' _ w2 _. destruct (Reproject o); [apply Ret_safe|].
      apply and_then_safe; [apply lease_loop_safe|]. intros; apply recoverProjections_safe. }
    destruct (Reproject o); [|apply Hrest]. apply must_safe; [done|done|]. intros; apply Hrest.
Qed.
End safety.
