(* ===== verification/Leaving.v ===== *)
(** What a program that holds no claim leaves behind, and what the graph
    ([MemDriver]) answers it: the shared part of Reconciling and Materializing. *)

From S2P Require Import Prelude Regexp Float64 Timefmt Gostrings Tenant Jobstore Graph MemDriver MemDriverFacts Graphevents Verdicts Verdictstore Panel Adjudicate Materialize Fuzzy Reconcile Agreement Projecting Passes.
Local Open Scope Z_scope.

(** * Definitions *)

Section leaving.
Context `{Postgres} `{Jsonb} `{T : Timing} (ctx : context) (tenantID : string).

#[local] Abbreviation safe := (safe ctx tenantID).
#[local] Abbreviation rely := (rely tenantID).
#[local] Abbreviation graph := (tenant_graph tenantID).

(** A program that holds no claim ends well only where [F] holds. *)
Definition leaves {A} (ok : A -> Prop) (F : world -> Prop) (w : world) (a : A) (h : held) (w' : world) : Prop :=
  h = None /\ rely None w w' /\ (ok a -> F w').

(** * Facts *)

(** ** What the graph answers *)

Lemma CheckNode_no_exists n x : CheckNode n = Err x -> isNodeExists (GraphError x) = false.
Proof.
  unfold CheckNode. case_bool_decide; [by intros [= <-]|]. case_bool_decide; [by intros [= <-]|].
  destruct (CheckLabel _ _) as [[]|y] eqn:Hl; [|intros [= <-]].
  - destruct (CheckNodeProperties _) as [[]|y] eqn:Hp; [destruct (IsZero _); [by intros [= <-]|done]|intros [= <-]].
    unfold CheckNodeProperties, checkWrittenProperties, CheckPropertyKeys in Hp. destruct (first_error (CheckIdentifier _) _) as [|z] eqn:Hk.
    + match type of Hp with first_error ?f ?l = _ => apply first_error_err in Hp as (k & _ & Hp) end. destruct (reservedNodeKeys !! k); by simplify_eq.
    + apply first_error_err in Hk as (k & _ & Hk). unfold CheckIdentifier in Hk. destruct (match_string _ _); by simplify_eq.
  - unfold CheckLabel, CheckIdentifier in Hl. destruct (match_string _ _); [|by simplify_eq].
    destruct (String.prefix _ _); [by simplify_eq|]. case_bool_decide; by simplify_eq.
Qed.

Lemma graph_no_exists c t x : MemDriver.graph c t = Err x -> isNodeExists (GraphError x) = false.
Proof. intros [_ Hg]%graph_no_edge. destruct x; try done; cbn; [by destruct (Hg id) as (_ & _ & Hn); destruct (Hn label)|by destruct (Hg id) as ([] & _)]. Qed.

Lemma labelled_new g n : node_valid n -> nodeByID g (n_ID n) = None -> labelled (set_nodes g (g_nodes g ++ [mkMemNode (n_Label n) (nodeProps n)])) (n_ID n) (n_Label n).
Proof.
  intros Hv Hi. pose proof (nodeProps_id n Hv) as Hid. exists (length (g_nodes g)), (mkMemNode (n_Label n) (nodeProps n)).
  split_and!; [|cbn; by rewrite lookup_app_r, Nat.sub_diag by lia|done]. unfold nodeByID. cbn. rewrite list_find_app_r.
  - cbn. unfold stringProp. rewrite Hid. rewrite decide_True by done. cbn. by f_equal.
  - unfold nodeByID in Hi. by apply fmap_None in Hi.
Qed.

Lemma CreateNode_answer c t n :
  match (CreateNode c t n).1 with
  | Ok _ => labelled (graph_of (CreateNode c t n).2 t) (n_ID n) (n_Label n)
  | Err e => isNodeExists (GraphError e) = true -> labelled (graph_of (CreateNode c t n).2 t) (n_ID n) (n_Label n)
  end.
Proof.
  unfold CreateNode. destruct (CheckNode n) as [[]|x] eqn:Hv.
  2: { intros Hx. by rewrite (CheckNode_no_exists n) in Hx. }
  apply CheckNode_ok in Hv. destruct (on_graph_of c t (create_node n)) as [(g & _ & _ & _ & ->)|(x & -> & Hx)]; cbn [fst snd].
  2: { intros Hn. by rewrite (graph_no_exists c t) in Hn. }
  rewrite graph_of_put. unfold create_node. destruct (useLabel_spec g (n_Label n) "node") as [_ Hu].
  destruct (useLabel g (n_Label n) "node") as [[[]|x] g1]; cbn [fst snd] in *; [|by destruct Hu as (k & _ & _ & ->)].
  destruct (nodeByID g1 (n_ID n)) as [i|] eqn:Hi; cbn [mbind option_bind].
  - destruct (nodeByID_Some _ _ _ Hi) as (m & Hm & _). rewrite Hm. case_bool_decide as Hl; cbn [fst snd]; [done|].
    intros _. exists i, m. by split_and!.
  - cbn [snd]. by apply labelled_new.
Qed.

Lemma UpsertNode_answer c t n created :
  (UpsertNode c t n).1 = Ok created -> labelled (graph_of (UpsertNode c t n).2 t) (n_ID n) (n_Label n).
Proof.
  unfold UpsertNode. destruct (CheckNode n) as [[]|x] eqn:Hv; [|done].
  apply CheckNode_ok in Hv. destruct (on_graph_of c t (upsert_node n)) as [(g & _ & _ & _ & ->)|(x & -> & Hx)]; cbn [fst snd]; [|done].
  rewrite graph_of_put. unfold upsert_node. destruct (useLabel g (n_Label n) "node") as [[[]|x] g1]; [|done].
  destruct (nodeByID g1 (n_ID n)) as [i|] eqn:Hi; cbn [mbind option_bind].
  - destruct (nodeByID_Some _ _ _ Hi) as (m & Hm & Hid). rewrite Hm. cbn [fmap option_fmap option_map]. case_bool_decide as Hl; [done|].
    intros _. cbn [snd]. eexists i, _. split_and!; [|cbn; by rewrite list_lookup_insert_eq by (by eapply lookup_lt_Some)|done].
    erewrite replace_node_nodes; [exact Hi|exact Hm|]. rewrite Hid. unfold node_id, stringProp. cbn. by rewrite upsert_props_id.
  - intros _. cbn [snd]. by apply labelled_new.
Qed.

Lemma stored_addEdge g s t e g' : edge_valid s t e -> addEdge g s t (e_Label e) (edgeProps e) = (Ok tt, g') -> extends g g' /\ stored g' (e_ID e).
Proof.
  intros Hv Ha. apply addEdge_spec in Ha as (x & -> & _ & Hp & _). split.
  - split; [done| |by intros i n Hi; exists n]. intros i y Hi. exists y. split; [by apply lookup_app_l_Some|done].
  - exists x. split; [apply elem_of_app; right; constructor|]. unfold edge_id. by rewrite Hp, (edgeProps_own s t).
Qed.

(** The edge a chunk is refused for is stored, or comes twice. *)
Lemma bulk_add_answer i g edges :
  Forall (fun be => edge_valid (be_SourceID be) (be_TargetID be) (be_Edge be)) edges ->
  match bulk_add i g edges with
  | (Ok _, g') => extends g g' /\ forall be, be ∈ edges -> stored g' (e_ID (be_Edge be))
  | (Err x, _) => forall j id, x = BulkEdgeError j (ErrEdgeExists id) ->
      exists k be, j = (i + k)%nat /\ edges !! k = Some be /\
        (stored g (e_ID (be_Edge be)) \/ exists l be', (l < k)%nat /\ edges !! l = Some be' /\ e_ID (be_Edge be') = e_ID (be_Edge be))
  end.
Proof.
  revert i g. induction edges as [|be edges IH]; intros i g Hv; cbn [bulk_add]; [split; [done|by intros be []%not_elem_of_nil]|].
  apply Forall_cons in Hv as [Hv Hvs]. destruct (addEdge _ _ _ _ _) as [[[]|x] g'] eqn:Ha.
  - destruct (stored_addEdge g _ _ _ g' Hv Ha) as [Hx Hst]. specialize (IH (S i) g' Hvs). destruct (bulk_add (S i) g' edges) as [[[]|x] g2].
    + destruct IH as [Hx2 IH]. split; [by etrans|]. intros b [->|Hb]%elem_of_cons; [by eapply extends_stored|by apply IH].
    + intros j id Hj. destruct (IH j id Hj) as (k & b & -> & Hk & Hor). exists (S k), b. split_and!; [lia|done|].
      destruct Hor as [Hs|(l & b' & Hl & Hlb & Hid)]; [|right; exists (S l), b'; split_and!; [lia|done..]].
      destruct Hs as (e & He & Hid). apply addEdge_spec in Ha as (x' & -> & _ & Hp & _). apply elem_of_app in He as [He| ->%list_elem_of_singleton].
      * left. by exists e.
      * right. exists 0%nat, be. split_and!; [lia|done|]. rewrite <- Hid. unfold edge_id. by rewrite Hp, (edgeProps_own _ _ _ Hv).
  - intros j id [= <- ->]. exists 0%nat, be. split_and!; [lia|done|]. left. revert Ha. unfold addEdge, resolveNode. destruct (nodeByID g _); [|done].
    destruct (nodeByID g _); [|done]. case_bool_decide as Hb; [|done]. intros _. destruct Hb as [_ [e He]].
    apply edgeByID_Some in He as (k & Hk & Hid). rewrite (edgeProps_own _ _ _ Hv) in Hid. exists e. split; [by eapply list_elem_of_lookup_2|done].
Qed.

Lemma bulk_check_no_taken i edges x j id : bulk_check i edges = Err x -> x <> BulkEdgeError j (ErrEdgeExists id).
Proof.
  revert i. induction edges as [|be edges IH]; intros i; cbn [bulk_check]; [done|]. destruct (CheckEdge _ _ _) as [[]|y] eqn:Hc; [apply IH|].
  intros [= <-] [= _ ->]. by apply CheckEdge_error in Hc as [_ Hc]; destruct (Hc id) as [[] _].
Qed.

Lemma bulk_labels_no_taken g edges x j id : (bulk_labels g edges).1 = Err x -> x <> BulkEdgeError j id.
Proof.
  revert g. induction edges as [|be edges IH]; intros g; cbn [bulk_labels]; [done|].
  destruct (useLabel_spec g (e_Label (be_Edge be)) "edge") as [_ Hu]. destruct (useLabel g _ "edge") as [[[]|y] g1]; [apply IH|].
  cbn in *. destruct Hu as (k & _ & _ & ->). by intros [= <-].
Qed.

Lemma BulkCreateEdges_answer c t edges :
  match (BulkCreateEdges c t edges).1 with
  | Ok _ => forall be, be ∈ edges -> stored (graph_of (BulkCreateEdges c t edges).2 t) (e_ID (be_Edge be))
  | Err x => forall j id, x = BulkEdgeError j (ErrEdgeExists id) ->
      exists be, edges !! j = Some be /\
        (stored (graph_of c t) (e_ID (be_Edge be)) \/ exists l be', (l < j)%nat /\ edges !! l = Some be' /\ e_ID (be_Edge be') = e_ID (be_Edge be))
  end.
Proof.
  unfold BulkCreateEdges. destruct edges as [|be edges].
  { destruct (CheckTenant t) as [|x] eqn:Ht; cbn; [by intros be []%not_elem_of_nil|]. intros j id ->. revert Ht.
    unfold CheckTenant, map_err. case_bool_decide; [done|]. by destruct (ValidateTenantID t). }
  destruct (bulk_check 0 (be :: edges)) as [[]|x] eqn:Hv; cbn [fst snd].
  2: { intros j id ->. by apply (bulk_check_no_taken _ _ _ j id) in Hv. }
  apply bulk_check_valid in Hv. destruct (on_graph_of c t (bulk_edges (be :: edges))) as [(g & Hg & _ & _ & ->)|(x & -> & Hx)]; cbn [fst snd].
  2: { intros j id ->. revert Hx. unfold MemDriver.graph, CheckTenant, map_err. case_bool_decide; [done|]. destruct (ValidateTenantID t); [|done].
       by destruct (graphs c !! t). }
  rewrite graph_of_put, Hg. unfold bulk_edges. destruct (bulk_labels_spec g (be :: edges)) as [[_ He _ _] _].
  pose proof (bulk_labels_no_taken g (be :: edges)) as Hno. destruct (bulk_labels g (be :: edges)) as [[[]|x] g1]; cbn [fst snd] in *.
  2: { intros j id ->. by destruct (Hno _ j (ErrEdgeExists id) eq_refl). }
  pose proof (bulk_add_answer 0 g1 (be :: edges) Hv) as Ha. destruct (bulk_add 0 g1 (be :: edges)) as [[[]|x] g2]; cbn [fst snd].
  - apply Ha.
  - intros j id Hj. destruct (Ha j id Hj) as (k & b & -> & Hk & [Hs|Hl]); exists b; (split; [done|]); [left|by right].
    destruct Hs as (e & Hin & Hid). exists e. by rewrite <- He.
Qed.

(** ** Steps *)

Lemma leaves_later {A} (ok : A -> Prop) (F F' : world -> Prop) w w1 a h w' :
  rely None w w1 -> (rely None w1 w' -> F w' -> F' w') -> leaves ok F w1 a h w' -> leaves ok F' w a h w'.
Proof. intros Hr HF (-> & Hr' & Hok). split_and!; [done|by eapply rely_trans|auto]. Qed.

Lemma leaves_ret {A} (ok : A -> Prop) (F : world -> Prop) w a : (ok a -> F w) -> safe (Ret a) None w (leaves ok F w).
Proof. intros Hok. split_and!; [done|apply rely_refl|done]. Qed.

Lemma leaves_do {X A} (c : call X) (k : X -> prog A) ok F w :
  (forall w1, rely None w w1 -> good tenantID w1 -> owes tenantID None c w1) -> (forall x, held_after c x None = None) ->
  (forall x w1 w2, rely None w w1 -> good tenantID w1 -> rely None w1 w2 -> answers ctx tenantID w1 c x w2 -> safe (k x) None w2 (leaves ok F w2)) ->
  safe (Do c k) None w (leaves ok F w).
Proof.
  intros Ho Hh Hk. cbn [Projecting.safe]. intros w1 Hr Hg _. split; [by apply Ho|]. intros x w2 Hans _ Hn. rewrite Hh.
  eapply safe_mono; [|by apply (Hk x w1 w2)]. intros a h w'. apply leaves_later; [by eapply rely_trans|done].
Qed.

Lemma leaves_bind {A B} (p : prog A) (f : A -> prog B) ok ok' F F' w :
  safe p None w (leaves ok F w) ->
  (forall a w1, rely None w w1 -> (ok a -> F w1) -> safe (f a) None w1 (leaves ok' F' w1)) ->
  safe (p ≫= f) None w (leaves ok' F' w).
Proof.
  intros Hp Hf. apply safe_bind. eapply safe_mono; [|exact Hp]. intros a h w1 (-> & Hr & Hok).
  eapply safe_mono; [|by apply (Hf a w1)]. intros b h w2. by apply leaves_later.
Qed.

Lemma rely_stored h w w' id : rely h w w' -> stored (graph w) id -> stored (graph w') id.
Proof. intros Hr. apply extends_stored, Hr. Qed.

Lemma rely_labelled h w w' id label : rely h w w' -> labelled (graph w) id label -> labelled (graph w') id label.
Proof. intros Hr. apply extends_labelled, Hr. Qed.

Lemma rely_joined h w w' id label s t : rely h w w' -> joined (graph w) id label s t -> joined (graph w') id label s t.
Proof. intros Hr. apply extends_joined, Hr. Qed.

(** ** Answers in a world *)

(** A graph stays good over a call. *)
Lemma client_good {A} others (f : memClient -> result graph_error A * memClient) w x w' :
  attempt (on_client f) w x w' -> client_write others tenantID (w_graphs w) (f (w_graphs w)).2 -> good tenantID w -> graph_good (graph w').
Proof.
  intros [->| ->]%attempt_world Hw Hg; [apply graph_of_ok, Hg|]. rewrite on_client_2. unfold tenant_graph. cbn [w_graphs].
  apply graph_of_ok. by apply Hw, Hg.
Qed.

Lemma node_accepted skips n w x w' :
  attempt (on_client (fun c => CreateNode c tenantID n)) w x w' -> accepted skips x = Ok tt -> skips = false -> labelled (graph w') (n_ID n) (n_Label n).
Proof.
  intros Hat Hx ->. pose proof (CreateNode_answer (w_graphs w) tenantID n) as Ha. destruct x as [x|e].
  - apply attempt_Ok in Hat as [Hv ->]. rewrite on_client_1 in Hv. rewrite on_client_2. unfold tenant_graph. cbn [w_graphs]. by destruct (CreateNode _ _ n).1.
  - cbn in Hx. rewrite orb_false_r in Hx. destruct (isNodeExists e) eqn:He; [|done]. apply attempt_Err in Hat as [->|[Hv ->]]; [done|].
    rewrite on_client_1 in Hv. rewrite on_client_2. unfold tenant_graph. cbn [w_graphs]. destruct (CreateNode _ _ n).1 as [|y]; [done|].
    injection Hv as <-. by apply Ha.
Qed.

(** An accepted edge is there, or a node of it was missing. *)
Definition edge_answer (f : memClient -> result graph_error unit * memClient) (id s t : string) : Prop :=
  forall c, match (f c).1 with
  | Ok _ => stored (graph_of (f c).2 tenantID) id
  | Err x =>
      (is_node_not_found x = true -> nodeByID (graph_of c tenantID) s = None \/ nodeByID (graph_of c tenantID) t = None) /\
      (forall id', x = ErrEdgeExists id' -> stored (graph_of (f c).2 tenantID) id) /\ forall l id', x <> ErrNodeExists l id'
  end.

Lemma edge_accepted others skips f w x w' id label s t :
  edge_answer f id s t -> places id label s t -> attempt (on_client f) w x w' -> client_write others tenantID (w_graphs w) (f (w_graphs w)).2 ->
  good tenantID w -> accepted skips x = Ok tt ->
  joined (graph w') id label s t \/ (skips = true /\ (nodeByID (graph w) s = None \/ nodeByID (graph w) t = None)).
Proof.
  intros Hf Hpl Hat Hw Hg Hx. pose proof (client_good _ _ _ _ _ Hat Hw Hg) as Hg'. specialize (Hf (w_graphs w)).
  assert (stored (graph w') id -> joined (graph w') id label s t) as Hj by (apply placed_joined; [apply Hg'|done]).
  destruct x as [x|e].
  - left. apply Hj. apply attempt_Ok in Hat as [Hv ->]. rewrite on_client_1 in Hv. rewrite on_client_2. unfold tenant_graph. cbn [w_graphs]. by destruct (f (w_graphs w)).1.
  - cbn in Hx. destruct (isNodeExists e) eqn:He; [|destruct (skips && node_not_found e) eqn:Hs; [|done]].
    + left. apply Hj. apply attempt_Err in Hat as [->|[Hv ->]]; [done|]. rewrite on_client_1 in Hv. rewrite on_client_2. unfold tenant_graph. cbn [w_graphs].
      destruct (f (w_graphs w)).1 as [|y]; [done|]. injection Hv as <-. destruct Hf as (_ & Hex & Hne). destruct y; try done; [by destruct (Hne label0 id0)|by eapply Hex].
    + right. apply andb_true_iff in Hs as [-> Hs]. split; [done|]. apply attempt_Err in Hat as [->|[Hv ->]]; [done|]. rewrite on_client_1 in Hv.
      destruct (f (w_graphs w)).1 as [|y]; [done|]. injection Hv as <-. by apply Hf.
Qed.
End leaving.
