(* ===== verification/Reconciling.v ===== *)
(** A run of the reconciler ([Reconcile]) gives what it owes ([Projecting]) and,
    when it returns without an error, leaves everything in place, whatever
    happens meanwhile. *)

From S2P Require Import Prelude Regexp Float64 Timefmt Gostrings Sha256 Json Tenant Jobstore Graph MemDriver MemDriverFacts Verdicts Verdictstore VerdictFacts Panel Adjudicate Fuzzy Reconcile ReconcileFacts Agreement Projecting Passes Leaving.
Local Open Scope Z_scope.

(** * Definitions *)

Section reconciling.
Context `{Postgres} `{Jsonb} `{LowerCase} `{T : Timing} (ctx : context) (tenantID : string).

#[local] Abbreviation safe := (safe ctx tenantID).
#[local] Abbreviation rely := (rely tenantID).
#[local] Abbreviation graph := (tenant_graph tenantID).
#[local] Abbreviation leaves := (leaves tenantID).

(** The groups of the artifacts a graph has. *)
Definition groups_of (g : memGraph) : list artifactGroup := (group_rels (relationships g artifacts_query None)).1.1.

(** The edge of two groups and the row of the pair are there. *)
Definition placed (w : world) (lo hi : string) : Prop := linked (graph w) lo hi /\ is_Some (row_of tenantID w (PairKey lo hi)).

(** Every group of the artifacts of [g] has its node and the edges of its
    members, and every match of two groups its edge and its row. *)
Definition reconciled (g : memGraph) (w : world) : Prop :=
  (forall gr, gr ∈ groups_of g -> labelled (graph w) (gr_id gr) artifactGroupLabel /\
     forall art, art ∈ members gr -> joined (graph w) (memberEdgeID art (gr_id gr)) memberOfLabel art (gr_id gr)) /\
  (forall m, m ∈ all_matches (groups_of g) -> placed w (m_low m) (m_high m)).

(** What a reconciliation that started in [w] leaves. *)
Definition reconciliation (w : world) (a : ending) (w' : world) : Prop :=
  match a with
  | ReconcileEnded o (_, Ok _) => ro_DryRun o = false -> exists g, extends (graph w) g /\ extends g (graph w') /\ reconciled g w'
  | _ => True
  end.

Definition fine {X B} (a : X * result reconcile_stop B) : Prop := is_ok a.2 = true.

(** * Facts *)

(** ** What the store answers *)

(** Every row of a candidate is there after the candidates are enqueued. *)
Definition has_row (t : string) (c : PairCandidate) (d : vdb) : Prop := is_Some (verdicts d !! (t, PairKey (LowGroupID c) (HighGroupID c))).

Lemma foldl_option_each {A} (f : A -> vdb -> option vdb) (S : A -> vdb -> Prop) l d d' :
  (forall a b x y, f b x = Some y -> S a x -> S a y) -> (forall a x y, f a x = Some y -> S a y) ->
  foldl (fun d a => d ← d; f a d) (Some d) l = Some d' -> (forall a, a ∈ l -> S a d') /\ forall a, S a d -> S a d'.
Proof.
  intros Hk Hs. revert d. induction l as [|b l IH]; intros d; cbn [foldl].
  - intros [= <-]. split; [by intros a []%not_elem_of_nil|done].
  - cbn [mbind option_bind]. destruct (f b d) as [d1|] eqn:Hb.
    + intros Hl. destruct (IH d1 Hl) as [Hall Hkeep]. split; [|eauto]. intros a [->|Ha]%elem_of_cons; [|by apply Hall]. by apply Hkeep, (Hs b d).
    + intros Hl. exfalso. revert Hl. clear. induction l; cbn; [done|auto].
Qed.

Lemma enqueue_row_has t now c x y : enqueue_row t now c x = Some y -> has_row t c y /\ forall a, has_row t a x -> has_row t a y.
Proof.
  intros He. split.
  - revert He. unfold enqueue_row, has_row. destruct (jsonb _) as [ctxt|]; [|done]. cbn [mbind option_bind]. destruct (negb _); [done|].
    destruct (verdicts x !! _) as [r|] eqn:Hr.
    + intros [= <-]. destruct (open_row r); [cbn; rewrite lookup_insert_eq|rewrite Hr]; by eexists.
    + case_bool_decide; [|done]. intros [= <-]. cbn. rewrite lookup_insert_eq. by eexists.
  - intros a [r Hr]. unfold has_row. destruct (enqueue_row_spec t now c x y t (PairKey (LowGroupID a) (HighGroupID a)) He) as [Hq _].
    specialize (Hq eq_refl). rewrite Hr in Hq. by destruct (verdicts y !! _).
Qed.

Lemma enqueue_chunk_has t now chunk x y :
  enqueue_chunk t now chunk x = Some y -> (forall c, c ∈ chunk -> has_row t c y) /\ forall a, has_row t a x -> has_row t a y.
Proof.
  unfold enqueue_chunk. case_bool_decide; [|done]. apply foldl_option_each.
  - intros a b u v Hb. by apply (enqueue_row_has t now b u v).
  - intros a u v Ha. exact (proj1 (enqueue_row_has t now a u v Ha)).
Qed.

Lemma chunks_cover {A} (k : nat) (l : list A) n x : (0 < k)%nat -> (length l <= n)%nat -> x ∈ l -> exists ch, ch ∈ chunks n k l /\ x ∈ ch.
Proof.
  intros Hk. revert l. induction n as [|n IH]; intros l Hl Hx; [destruct l; [by apply not_elem_of_nil in Hx|cbn in Hl; lia]|].
  destruct l as [|y l]; [by apply not_elem_of_nil in Hx|]. cbn [chunks]. rewrite <- (take_drop k (y :: l)) in Hx. apply elem_of_app in Hx as [Hx|Hx].
  - eexists. split; [left|exact Hx].
  - destruct (IH (drop k (y :: l))) as (ch & Hc & Hxc); [rewrite length_drop; cbn in *; lia|done|]. exists ch. split; [by right|done].
Qed.

Lemma Enqueue_has t cs now d : (Enqueue ctx t cs now d).1 = Ok tt -> forall c, c ∈ cs -> has_row t c (Enqueue ctx t cs now d).2.
Proof.
  unfold Enqueue. case_bool_decide as Hcs; [by subst; intros _ c []%not_elem_of_nil|]. destruct (inTx _ _ _ _) as [[[]|] d'] eqn:Hi; [|done]. intros _ c Hc.
  apply inTx_Ok in Hi as [_ Hi]. destruct (foldl _ _ _) as [d1|] eqn:Hf; [|done]. injection Hi as ->. cbn [snd].
  destruct (chunks_cover enqueueChunk cs (length cs) c) as (ch & Hch & Hin); [unfold enqueueChunk; lia|done|done|].
  apply (foldl_option_each (enqueue_chunk t now) (fun ch d => forall c, c ∈ ch -> has_row t c d)) in Hf as [Hall _].
  - by apply (Hall ch).
  - intros a b x y Hb Ha c' Hc'. apply (enqueue_chunk_has _ _ _ _ _ Hb). by apply Ha.
  - intros a x y Ha c' Hc'. exact (proj1 (enqueue_chunk_has _ _ _ _ _ Ha) c' Hc').
Qed.

Lemma ClosedPairs_rows w closed k :
  (ClosedPairs ctx tenantID (w_store w)).1 = Ok closed -> k ∈ closed -> is_Some (row_of tenantID w k).
Proof.
  unfold ClosedPairs. destruct (inTx _ _ _ _) as [[a|] d'] eqn:Hi; [|done]. intros [= ->] Hk. apply inTx_Ok in Hi as [_ [= <- _]].
  apply elem_of_list_to_set in Hk. apply list_elem_of_fmap in Hk as ([k' r] & -> & Hin). apply list_elem_of_In, List.filter_In in Hin as [Hin _].
  apply list_elem_of_In, elem_of_rows_of in Hin. by exists r.
Qed.

(** ** Steps *)

Lemma leaves_need {X} res (c : call (result call_error X)) (f : X -> reconciling ReconcileResult) F w :
  (forall w1, owes tenantID None c w1) -> (forall x, held_after c x None = None) ->
  (forall x w1 w2, rely None w w1 -> good tenantID w1 -> rely None w1 w2 -> answers ctx tenantID w1 c (Ok x) w2 -> safe (f x) None w2 (leaves fine F w2)) ->
  safe (need res c f) None w (leaves fine F w).
Proof.
  intros Ho Hh Hf. apply leaves_do; [auto|done|]. intros [x|e] w1 w2 Hr Hg Hr2 Hans; [by apply (Hf x w1)|by apply leaves_ret].
Qed.

Lemma rely_placed h w w' lo hi : rely h w w' -> placed w lo hi -> placed w' lo hi.
Proof.
  intros Hr [Hl [r Hk]]. split; [by eapply extends_linked; [apply Hr|]|]. destruct (re_rows _ _ _ _ Hr _ _ Hk) as (r' & ? & _). by exists r'.
Qed.

(** ** Writing edges *)

Definition all_stored (es : list BulkEdge) (w : world) : Prop := forall be, be ∈ es -> stored (graph w) (e_ID (be_Edge be)).

Lemma write_chunk_safe fuel chunk w :
  Forall bulk_own chunk -> safe (write_chunk fuel chunk) None w (leaves (fun r => is_ok r = true) (all_stored chunk) w).
Proof.
  revert chunk w. induction fuel as [|fuel IH]; intros [|be0 chunk] w Ho; cbn [write_chunk]; try (by apply leaves_ret).
  1, 2: apply leaves_ret; intros _ be []%not_elem_of_nil.
  set (es := be0 :: chunk) in *. apply leaves_do; [done|done|]. intros x w1 w2 Hr Hg Hr2 Hat. cbn [answers] in Hat.
  pose proof (BulkCreateEdges_answer (w_graphs w1) tenantID es) as Ha. destruct x as [x|e].
  - apply leaves_ret. intros _. apply attempt_Ok in Hat as [Hx ->]. rewrite on_client_1 in Hx. rewrite on_client_2.
    destruct (BulkCreateEdges _ _ es).1; [exact Ha|done].
  - destruct (taken_edge e) as [i|] eqn:Ht; [|by apply leaves_ret]. destruct (i <? length es)%nat; [|by apply leaves_ret].
    eapply safe_mono; [|apply IH, Forall_delete, Ho]. intros r h w'. apply leaves_later; [apply rely_refl|]. intros Hr3 Hst be Hbe.
    assert (exists id, e = GraphError (BulkEdgeError i (ErrEdgeExists id))) as [id ->] by (unfold taken_edge in Ht; repeat case_match; simplify_eq; eauto).
    apply attempt_Err in Hat as [|[Hx _]]; [done|]. rewrite on_client_1 in Hx.
    destruct (BulkCreateEdges _ _ es).1 as [|y]; [done|]. injection Hx as ->. destruct (Ha _ _ eq_refl) as (be' & Hi & Hor).
    assert (be = be' \/ be ∈ delete i es) as [->|Hin]; [|destruct Hor as [Hs|(l & b & Hl & Hb & <-)]|by apply Hst].
    + apply list_elem_of_lookup in Hbe as [j Hj]. destruct (decide (j = i)) as [->|Hne]; [left; congruence|right].
      apply list_elem_of_lookup. destruct (decide (j < i)%nat); [exists j; by rewrite list_lookup_delete_lt|].
      exists (pred j). rewrite list_lookup_delete_ge by lia. by replace (S (pred j)) with j by lia.
    + eapply rely_stored; [exact Hr3|]. by eapply rely_stored.
    + apply Hst. apply list_elem_of_lookup. exists l. by rewrite list_lookup_delete_lt.
Qed.

Lemma write_chunks_safe cs created w :
  Forall (Forall bulk_own) cs -> safe (write_chunks cs created) None w (leaves fine (fun w' => forall ch, ch ∈ cs -> all_stored ch w') w).
Proof.
  revert created w. induction cs as [|ch cs IH]; intros created w Ho; cbn [write_chunks].
  - apply leaves_ret. intros _ ch []%not_elem_of_nil.
  - apply Forall_cons in Ho as [Hch Ho]. eapply leaves_bind; [by apply write_chunk_safe|]. intros [n|e] w1 Hr Hst; [|by apply leaves_ret].
    eapply safe_mono; [|by apply IH]. intros a h w'. apply leaves_later; [apply rely_refl|]. intros Hr2 Hcs ch' [->|Hin]%elem_of_cons; [|by apply Hcs].
    intros be Hbe. eapply rely_stored; [exact Hr2|]. by apply Hst.
Qed.

Lemma writeEdges_safe es size w :
  0 < size -> Forall bulk_own es -> safe (writeEdges es size) None w (leaves fine (all_stored es) w).
Proof.
  intros Hs Ho. eapply safe_mono; [|apply write_chunks_safe].
  - intros a h w'. apply leaves_later; [apply rely_refl|]. intros _ Hcs be Hbe.
    destruct (chunks_cover (Z.to_nat size) es (length es) be) as (ch & Hch & Hin); [lia|done|done|]. by apply (Hcs ch).
  - apply Forall_forall. intros ch Hch. apply Forall_forall. intros be Hbe. rewrite Forall_forall in Ho. apply Ho. by eapply chunks_elem.
Qed.

Definition all_nodes (nodes : list node_in) (w : world) : Prop := forall n, n ∈ nodes -> labelled (graph w) (n_ID n) (n_Label n).

Lemma create_groups_safe nodes created w : safe (create_groups nodes created) None w (leaves fine (all_nodes nodes) w).
Proof.
  revert created w. induction nodes as [|n nodes IH]; intros created w; cbn [create_groups].
  - apply leaves_ret. intros _ n []%not_elem_of_nil.
  - apply leaves_do; [done|done|]. intros x w1 w2 Hr Hg Hr2 Hat. cbn [answers] in Hat. pose proof (CreateNode_answer (w_graphs w1) tenantID n) as Ha.
    assert (forall created, labelled (graph w2) (n_ID n) (n_Label n) ->
      safe (create_groups nodes created) None w2 (leaves fine (all_nodes (n :: nodes)) w2)) as Hrest.
    { intros c Hn. eapply safe_mono; [|apply IH]. intros a h w'. apply leaves_later; [apply rely_refl|]. intros Hr3 Hall m [->|Hm]%elem_of_cons; [|by apply Hall].
      by eapply rely_labelled. }
    destruct x as [x|e].
    + apply Hrest. apply attempt_Ok in Hat as [Hx ->]. rewrite on_client_1 in Hx. rewrite on_client_2. by destruct (CreateNode _ _ n).1.
    + destruct (is_node_exists e) eqn:He; [|by apply leaves_ret]. apply Hrest. apply attempt_Err in Hat as [->|[Hx ->]]; [done|].
      rewrite on_client_1 in Hx. rewrite on_client_2. destruct (CreateNode _ _ n).1 as [|y]; [done|]. injection Hx as <-. apply Ha. by destruct y.
Qed.

(** ** What is missing *)

(** An ID that is not a number: no edge without an ID is read under it. *)
Definition lettered (id : string) : Prop := match bytes_of id with [] => False | c :: _ => number_char c = false end.

Lemma lettered_not_number id n : lettered id -> Itoa n <> id.
Proof.
  intros Hl <-. unfold lettered in Hl. destruct (Itoa_head n) as (c & l & Hb & Hc). rewrite Hb in Hl. congruence.
Qed.

Lemma stored_read g q as_of r : r ∈ relationships g q as_of -> lettered (e_ID (r_Edge r)) -> stored g (e_ID (r_Edge r)).
Proof.
  unfold relationships. intros (e & -> & He)%list_elem_of_fmap. apply list_elem_of_In, List.filter_In in He as [He _]. cbn [r_Edge decodeEdge e_ID].
  case_bool_decide as Hid; intros Hl; [by destruct (lettered_not_number _ (me_seq e) Hl)|]. exists e. split; [by apply list_elem_of_In|done].
Qed.

Lemma target_read g q as_of r :
  graph_wf g -> rq_TargetLabel q <> "" -> r ∈ relationships g q as_of -> labelled g (n_ID (r_Target r)) (rq_TargetLabel q).
Proof.
  intros Hw Hq (e & -> & He)%list_elem_of_fmap. apply list_elem_of_In, List.filter_In in He as [He Hsel]. cbn [r_Target decodeNode n_ID].
  pose proof (gw_endpoints _ Hw) as Hends. rewrite Forall_forall in Hends. apply list_elem_of_In, Hends in He as [_ Ht].
  apply lookup_lt_is_Some in Ht as [n Hn]. assert (node_at g (me_target e) = n) as Hat by (unfold node_at; by rewrite Hn). rewrite Hat.
  exists (me_target e), n. split_and!; [by apply nodeByID_unique|done|]. unfold edge_selected in Hsel. rewrite Hat in Hsel.
  apply andb_true_iff in Hsel as [[[_ Hl]%andb_true_iff _]%andb_true_iff _]. unfold filter_label in Hl.
  rewrite (bool_decide_eq_true_2 _ Hq) in Hl. cbn in Hl. apply negb_true_iff, bool_decide_eq_false in Hl. by apply dec_stable in Hl.
Qed.

Lemma QueryRelationships_read c t q rels : QueryRelationships c t q = Ok rels -> rels = relationships (graph_of c t) q None.
Proof.
  unfold QueryRelationships. destruct (CheckRelationshipQuery q); [|done]. unfold read_graph. destruct (MemDriver.graph c t) as [g|] eqn:Hg; [|done].
  apply MemDriverFacts.graph_ok in Hg as [_ Hg]. unfold graph_of. rewrite Hg. by intros [= <-].
Qed.

Lemma member_own now art id : bulk_own (member_edge now art id).
Proof. constructor. Qed.

Lemma match_own now m : bulk_own (match_edge now m).
Proof. constructor. Qed.

Section planned.
Variables (groups : list artifactGroup) (open : list groupMatch) (storedMembers storedSameAs : list Relationship) (now : Time).
Local Abbreviation plan := (planWrites groups open storedMembers storedSameAs now).

Lemma plan_own : Forall bulk_own plan.1.2 /\ Forall bulk_own plan.2.
Proof.
  cbn. split; apply Forall_forall; intros be Hbe; apply list_elem_of_In, List.filter_In in Hbe as [Hbe _]; apply list_elem_of_In in Hbe.
  - apply list_elem_of_bind in Hbe as (gr & Hbe & _). apply list_elem_of_bind in Hbe as (art & ->%list_elem_of_singleton & _). apply member_own.
  - apply list_elem_of_fmap in Hbe as (m & -> & _). apply match_own.
Qed.

Definition groups_stored (w : world) : Prop :=
  forall gr, gr ∈ groups -> labelled (graph w) (gr_id gr) artifactGroupLabel /\ forall art, art ∈ members gr -> stored (graph w) (memberEdgeID art (gr_id gr)).

(** Once the plan is written, nothing is missing. *)
Lemma plan_covers w :
  (forall r, r ∈ storedMembers -> labelled (graph w) (n_ID (r_Target r)) artifactGroupLabel) ->
  (forall r, r ∈ storedMembers ++ storedSameAs -> lettered (e_ID (r_Edge r)) -> stored (graph w) (e_ID (r_Edge r))) ->
  all_nodes plan.1.1 w -> all_stored plan.1.2 w -> all_stored plan.2 w ->
  groups_stored w /\ (forall m, m ∈ open -> stored (graph w) (sameAsEdgeID (m_low m) (m_high m))).
Proof.
  intros Hnodes Hedges Hng Hme Hsa.
  set (ids := list_to_set (C := gset string) ((fun r => e_ID (r_Edge r)) <$> storedMembers ++ storedSameAs)).
  assert (forall es be, be ∈ es -> lettered (e_ID (be_Edge be)) ->
    all_stored (List.filter (fun be => negb (bool_decide (e_ID (be_Edge be) ∈ ids))) es) w -> stored (graph w) (e_ID (be_Edge be))) as Hmissing.
  { intros es be Hbe Hl Hall. destruct (decide (e_ID (be_Edge be) ∈ ids)) as [Hin|Hin].
    - apply elem_of_list_to_set, list_elem_of_fmap in Hin as (r & Hid & Hr). rewrite Hid in *. by apply Hedges.
    - apply Hall. apply list_elem_of_In, List.filter_In. split; [by apply list_elem_of_In|]. by rewrite bool_decide_eq_false_2. }
  split.
  - intros gr Hgr. split.
    + destruct (decide (gr_id gr ∈ list_to_set (C := gset string) ((fun r => n_ID (r_Target r)) <$> storedMembers))) as [Hin|Hin].
      * apply elem_of_list_to_set, list_elem_of_fmap in Hin as (r & -> & Hr). by apply Hnodes.
      * apply (Hng (group_node now gr)). cbn. apply list_elem_of_fmap_2. apply list_elem_of_In, List.filter_In. split; [by apply list_elem_of_In|].
        by rewrite bool_decide_eq_false_2.
    + intros art Hart. eapply (Hmissing _ (member_edge now art (gr_id gr))); [|reflexivity|exact Hme].
      apply list_elem_of_bind. exists gr. split; [|done]. apply list_elem_of_bind. exists art. split; [by apply list_elem_of_singleton|done].
  - intros m Hm. eapply (Hmissing _ (match_edge now m)); [|reflexivity|exact Hsa]. by apply list_elem_of_fmap_2.
Qed.
End planned.

(** ** Candidates *)

(** The candidate of a match. *)
Definition pairs (c : PairCandidate) (m : groupMatch) : Prop :=
  LowGroupID c = m_low m /\ HighGroupID c = m_high m /\ CandidateEdgeID c = sameAsEdgeID (m_low m) (m_high m).

Lemma pair_candidates groups open cs :
  pairCandidates groups open = Some cs ->
  (forall c, c ∈ cs -> exists m, m ∈ open /\ pairs c m) /\ forall m, m ∈ open -> exists c, c ∈ cs /\ pairs c m.
Proof.
  intros Hc. apply mapM_Some in Hc. assert (forall m c, pair_candidate (group_by_id groups) m = Some c -> pairs c m) as Hof.
  { intros m c Hp. unfold pair_candidate in Hp. apply bind_Some in Hp as (lo & _ & Hp). by apply bind_Some in Hp as (hi & _ & [= <-]). }
  split.
  - intros c [i Hi]%list_elem_of_lookup. destruct (Forall2_lookup_r _ _ _ _ _ Hc Hi) as (m & Hm & Hp). exists m.
    split; [by eapply list_elem_of_lookup_2|by apply Hof].
  - intros m [i Hi]%list_elem_of_lookup. destruct (Forall2_lookup_l _ _ _ _ _ Hc Hi) as (c & Hm & Hp). exists c.
    split; [by eapply list_elem_of_lookup_2|by apply Hof].
Qed.

(** ** A run *)

Section writing.
Variables (o : ReconcileOptions) (groups : list artifactGroup) (open : list groupMatch) (storedMembers storedSameAs : list Relationship).
Local Abbreviation plan := (planWrites groups open storedMembers storedSameAs (ro_Now o)).

Definition groups_placed (w : world) : Prop :=
  forall gr, gr ∈ groups -> labelled (graph w) (gr_id gr) artifactGroupLabel /\
    forall art, art ∈ members gr -> joined (graph w) (memberEdgeID art (gr_id gr)) memberOfLabel art (gr_id gr).

Lemma rely_groups_placed h w w' : rely h w w' -> groups_placed w -> groups_placed w'.
Proof.
  intros Hr Hg gr Hgr. destruct (Hg gr Hgr) as [Hn Hs]. split; [by eapply rely_labelled|]. intros art Hart. eapply rely_joined; [exact Hr|]. by apply Hs.
Qed.

(** The edges of the members lie where their IDs say. *)
Lemma groups_are_placed h w w1 : rely h w w1 -> good tenantID w1 -> groups_stored groups w -> groups_placed w1.
Proof.
  intros Hr Hg Hgr gr Hin. destruct (Hgr gr Hin) as [Hn Hs]. split; [by eapply rely_labelled|]. intros art Hart.
  apply placed_joined; [apply (graph_of_ok _ _ (gd_graph _ _ Hg))|constructor|]. eapply rely_stored; [exact Hr|]. by apply Hs.
Qed.

Lemma enqueue_safe (res : ReconcileResult) cs w :
  pairCandidates groups open = Some cs -> groups_stored groups w -> (forall m, m ∈ open -> stored (graph w) (sameAsEdgeID (m_low m) (m_high m))) ->
  safe (Do (CEnqueue cs (ro_Now o)) (fun r => Ret (res, match r with Ok _ => Ok tt | Err e => Err (Failing e) end))) None w
    (leaves fine (fun w' => groups_placed w' /\ forall m, m ∈ open -> placed w' (m_low m) (m_high m)) w).
Proof.
  intros Hcs Hgr Hst. pose proof (pair_candidates _ _ _ Hcs) as [Hof Hall]. apply leaves_do; [|done|].
  - intros w1 Hr Hg c Hc. destruct (Hof c Hc) as (m & Hm & -> & -> & ->). split; [done|]. eapply rely_stored; [exact Hr|]. by apply Hst.
  - intros [[]|e] w1 w2 Hr Hg Hr2 Hat; apply leaves_ret; [|done]. intros _. split; [eapply rely_groups_placed; [exact Hr2|]; by eapply groups_are_placed|].
    intros m Hm. destruct (Hall m Hm) as (c & Hc & Hlo & Hhi & _). cbn [answers] in Hat. apply attempt_Ok in Hat as [Hx ->].
    rewrite on_store_1 in Hx. rewrite on_store_2. split.
    + change (linked (graph w1) (m_low m) (m_high m)). apply placed_linked; [apply (graph_of_ok _ _ (gd_graph _ _ Hg))|].
      eapply rely_stored; [exact Hr|]. by apply Hst.
    + rewrite <- Hlo, <- Hhi. apply (Enqueue_has tenantID cs (ro_Now o) (w_store w1)); [|done]. by destruct (Enqueue _ _ _ _ _).1 as [[]|].
Qed.

Lemma writes_safe res w :
  0 < ChunkSize o ->
  (forall r, r ∈ storedMembers -> labelled (graph w) (n_ID (r_Target r)) artifactGroupLabel) ->
  (forall r, r ∈ storedMembers ++ storedSameAs -> lettered (e_ID (r_Edge r)) -> stored (graph w) (e_ID (r_Edge r))) ->
  safe (writes o res plan.1.1 plan.1.2 plan.2 (pairCandidates groups open)) None w
    (leaves fine (fun w' => groups_placed w' /\ forall m, m ∈ open -> placed w' (m_low m) (m_high m)) w).
Proof.
  intros Hsize Hnodes Hedges. destruct (plan_own groups open storedMembers storedSameAs (ro_Now o)) as [Hom Hos].
  pose proof (plan_covers groups open storedMembers storedSameAs (ro_Now o)) as Hcov. destruct plan as [[ng mem] same]. cbn [fst snd] in *. unfold writes.
  eapply leaves_bind; [apply create_groups_safe|]. intros [n1 [[]|e]] w1 Hr1 Hng; [|by apply leaves_ret].
  eapply leaves_bind; [by apply writeEdges_safe|]. intros [n2 [[]|e]] w2 Hr2 Hme; [|by apply leaves_ret].
  eapply leaves_bind; [by apply writeEdges_safe|]. intros [n3 [[]|e]] w3 Hr3 Hsa; [|by apply leaves_ret].
  assert (rely None w1 w3) as Hr13 by (by eapply rely_trans). assert (rely None w w3) as Hr03 by (by eapply rely_trans).
  destruct (Hcov w3) as [Hgr Hst].
  - intros r Hin. eapply rely_labelled; [exact Hr03|]. by apply Hnodes.
  - intros r Hin Hl. eapply rely_stored; [exact Hr03|]. by apply Hedges.
  - intros n Hn. eapply rely_labelled; [exact Hr13|]. by apply Hng.
  - intros be Hbe. eapply rely_stored; [exact Hr3|]. by apply Hme.
  - by apply Hsa.
  - destruct (pairCandidates groups open) as [cs|] eqn:Hcs; [|by apply leaves_ret]. by apply enqueue_safe.
Qed.
End writing.

(** The matches are those of every pair. *)
Lemma matched groups m : m ∈ all_matches groups -> m ∈ matchGroups groups.
Proof. by rewrite matchGroups_imap, (all_matches_imap []). Qed.

Lemma closed_placed w closed lo hi :
  good tenantID w -> (ClosedPairs ctx tenantID (w_store w)).1 = Ok closed -> PairKey lo hi ∈ closed -> placed w lo hi.
Proof.
  intros Hg Hcl [r Hr]%(ClosedPairs_rows w closed (PairKey lo hi) Hcl). split; [|by exists r]. pose proof (ro_key _ _ (gd_rows _ _ Hg _ r Hr)) as Hk.
  apply PairKey_inj in Hk as [-> ->]. by apply (gd_linked _ _ Hg _ r Hr).
Qed.

Lemma on_client_read {A} (f : memClient -> result graph_error A) w (x : A) w' :
  attempt (on_client (fun c => (f c, c))) w (Ok x) w' -> f (w_graphs w) = Ok x /\ graph w' = graph w.
Proof.
  intros [Hx ->]%attempt_Ok. rewrite on_client_1 in Hx. rewrite on_client_2. split; [|done]. cbn in Hx. by destruct (f _); [injection Hx as ->|].
Qed.

Lemma Reconcile_safe o w :
  safe (Reconcile o) None w (leaves fine (fun w' => ro_DryRun o = false -> exists g, extends (graph w) g /\ extends g (graph w') /\ reconciled g w') w).
Proof.
  unfold Reconcile. destruct ((MaxEdges o <=? 0) || (ChunkSize o <=? 0) || IsZero (ro_Now o)) eqn:Hopt; [by apply leaves_ret|].
  apply orb_false_iff in Hopt as [[_ Hsize%Z.leb_gt]%orb_false_iff _].
  apply leaves_need; [done|done|]. intros rels w1 w2 Hr1 _ Hr2 [Hrels _]%on_client_read. apply QueryRelationships_read in Hrels.
  destruct (group_rels rels) as [[groups n1] n2] eqn:Hgroups.
  assert (groups_of (graph w1) = groups) as Hof by (unfold groups_of, tenant_graph; by rewrite <- Hrels, Hgroups).
  apply leaves_need; [done|done|]. intros closed w3 w4 Hr3 Hg3 Hr4 Hat3. cbn [answers] in Hat3. apply attempt_Ok in Hat3 as [Hcl Hw4].
  rewrite on_store_1 in Hcl. assert ((ClosedPairs ctx tenantID (w_store w3)).1 = Ok closed) as Hclosed by (by destruct (ClosedPairs _ _ _).1; [injection Hcl as ->|]).
  set (open := List.filter _ (matchGroups groups)). apply leaves_need; [done|done|]. intros sm w5 w6 Hr5 Hg5 Hr6 [Hsm _]%on_client_read.
  apply leaves_need; [done|done|]. intros ss w7 w8 Hr7 Hg7 Hr8 [Hss _]%on_client_read. apply QueryRelationships_read in Hsm, Hss.
  pose proof (writes_safe o groups open sm ss) as Hwrites. destruct (planWrites groups open sm ss (ro_Now o)) as [[ng mem] same]. cbn [fst snd] in Hwrites.
  destruct (_ <? _); [by apply leaves_ret|]. destruct (ro_DryRun o); [by apply leaves_ret|]. cbn [snd].
  assert (rely None w5 w8) as Hr58 by (eapply rely_trans; [exact Hr6|]; by eapply rely_trans).
  eapply safe_mono; [|apply Hwrites; [lia|..]].
  - intros a h w'. apply leaves_later; [apply rely_refl|]. intros Hr9 [Hgr Hop] _. exists (graph w1).
    assert (rely None w3 w') as Hr39.
    { eapply rely_trans; [exact Hr4|]. eapply rely_trans; [exact Hr5|]. by eapply rely_trans. }
    assert (rely None w1 w') as Hr19 by (eapply rely_trans; [exact Hr2|]; by eapply rely_trans).
    split_and!; [apply Hr1|apply Hr19|]. unfold reconciled. rewrite Hof. split; [exact Hgr|]. intros m Hm%matched.
    destruct (decide (PairKey (m_low m) (m_high m) ∈ closed)) as [Hin|Hin].
    + eapply rely_placed; [exact Hr39|]. by eapply closed_placed.
    + apply Hop. apply list_elem_of_In, List.filter_In. split; [by apply list_elem_of_In|]. by rewrite bool_decide_eq_false_2.
  - intros r Hin. eapply rely_labelled; [exact Hr58|]. rewrite Hsm in Hin. apply target_read in Hin; [done| |done].
    apply (graph_of_ok _ _ (gd_graph _ _ Hg5)).
  - intros r [Hin|Hin]%elem_of_app Hl.
    + eapply rely_stored; [exact Hr58|]. rewrite Hsm in Hin. by eapply stored_read.
    + eapply rely_stored; [exact Hr8|]. rewrite Hss in Hin. by eapply stored_read.
Qed.

(** What a reconciliation leaves stays. *)
Lemma reconciliation_rely h w0 a w w' : rely h w w' -> reconciliation w0 a w -> reconciliation w0 a w'.
Proof.
  intros Hr. destruct a as [|o [res [[]|e]]| |]; try done. intros Ha Hd. destruct (Ha Hd) as (g & Hg & Hx & Hgr & Hm). exists g.
  split_and!; [done|etrans; [exact Hx|apply Hr]|]. split; [by eapply rely_groups_placed|]. intros m Hin. eapply rely_placed; [exact Hr|]. by apply Hm.
Qed.

Lemma reconciliation_safe o w : safe (Reconcile o) None w (fun a _ w' => reconciliation w (ReconcileEnded o a) w').
Proof. eapply safe_mono; [|apply Reconcile_safe]. intros [res [[]|e]] h w' (_ & _ & Hf); cbn; [|done]. by apply Hf. Qed.
End reconciling.
