(* ===== verification/Materializing.v ===== *)
(** What the graph role ([Materialize]) leaves of an event it handled without an
    error, whatever happens meanwhile. *)

From S2P Require Import Prelude Float64 Timefmt Gostrings Sha256 Json Tenant Jobstore Bus Graph MemDriver MemDriverFacts Graphevents Results Verdicts Verdictstore Panel Adjudicate Materialize Fuzzy Reconcile Agreement Projecting Passes Leaving.
Local Open Scope Z_scope.

(** * Definitions *)

Section materializing.
Context `{Postgres} `{Jsonb} `{T : Timing} (ctx : context) (tenantID : string).

#[local] Abbreviation safe := (safe ctx tenantID).
#[local] Abbreviation rely := (rely tenantID).
#[local] Abbreviation graph := (tenant_graph tenantID).
#[local] Abbreviation leaves := (leaves tenantID).

(** The graph has a node with the ID. *)
Definition there (w : world) (id : string) : Prop := is_Some (nodeByID (graph w) id).

(** An edge that is skipped when a node of it is missing: it is there if its
    nodes were when the handler started. *)
Definition joined_if (w0 : world) (id label s t : string) (w : world) : Prop := there w0 s -> there w0 t -> joined (graph w) id label s t.

Definition match_left (w0 : world) (jobID : string) (r : SemanticMatchResult) : world -> Prop :=
  joined_if w0 (DerivedID [SemanticMatchEdgeIDKind; jobID; sm_SourceID r; sm_TargetID r]) SemanticMatchEdgeLabel (sm_SourceID r) (sm_TargetID r).

Definition requires_left (w0 : world) (jobID : string) (r : RequiresResult) : world -> Prop :=
  joined_if w0 (DerivedID ["requires"; jobID; rq_SourceID r; rq_TargetID r]) "REQUIRES" (rq_SourceID r) (rq_TargetID r).

(** The [i]-th artifact of a control: its node and that of its type, joined, and
    the edge from the control. *)
Definition artifact_left (w0 : world) (controlID : string) (ia : nat * Artifact) (w : world) : Prop :=
  let '(i, a) := ia in
  let artID := artifactID controlID i in
  labelled (graph w) artID "Artifact" /\ labelled (graph w) (typeID (a_Type a)) "ArtifactType" /\
  (there w0 controlID -> joined (graph w) (DerivedID ["demands"; controlID; artID]) "DEMANDS" controlID artID) /\
  joined (graph w) (DerivedID ["is-type"; artID; a_Type a]) "IS_TYPE" artID (typeID (a_Type a)).

Definition artifacts_left (w0 : world) (r : ArtifactResult) (w : world) : Prop :=
  forall ia, ia ∈ imap pair (ar_Artifacts r) -> artifact_left w0 (ar_ControlID r) ia w.

(** All of what [data] holds is left by [left]. *)
Definition all_left {A} (read : string -> option (list A)) (data : string) (left : A -> world -> Prop) (w : world) : Prop :=
  exists rs, read data = Some rs /\ forall r, r ∈ rs -> left r w.

(** What the event of an analyzer with results [data] leaves. *)
Definition materialized (w0 : world) (analyzer jobID data : string) (w : world) : Prop :=
  if bool_decide (analyzer = "relationship") then all_left read_matches data (match_left w0 jobID) w
  else if bool_decide (analyzer = "requires") then all_left read_requires data (requires_left w0 jobID) w
  else if bool_decide (analyzer = "artifacts") then all_left read_artifacts data (artifacts_left w0) w
  else analyzer = "classify" \/ analyzer = "embedding".

(** Every control has its node, and the edge from its parent if the parent was
    there or is one of the controls. *)
Definition control_left (c : CatalogControl) (w : world) : Prop := labelled (graph w) (cc_ControlID c) "Control".
Definition parent_left (w0 : world) (c : CatalogControl) (w : world) : Prop :=
  cc_ParentID c <> "" -> joined_if w0 (DerivedID ["parent-of"; parent_node c; cc_ControlID c]) "PARENT_OF" (parent_node c) (cc_ControlID c) w.
Definition catalog_left (w0 : world) (cs : list CatalogControl) (w : world) : Prop :=
  forall c, c ∈ cs -> control_left c w /\
    (cc_ParentID c <> "" -> there w0 (parent_node c) \/ (exists p, p ∈ cs /\ cc_ControlID p = parent_node c) ->
     joined (graph w) (DerivedID ["parent-of"; parent_node c; cc_ControlID c]) "PARENT_OF" (parent_node c) (cc_ControlID c)).

(** What an event that was handled in a program started in [w0] leaves. *)
Definition materialization (w0 : world) (a : ending) (w : world) : Prop :=
  match a with
  | EventEnded (EventMaterialized analyzer jobID data) => materialized w0 analyzer jobID data w
  | CatalogEnded (CatalogProjected cs) => cs <> [] /\ catalog_left w0 cs w
  | _ => True
  end.

(** What holds from then on. *)
Definition stable (F : world -> Prop) : Prop := forall h w w', rely h w w' -> F w -> F w'.

Definition well {X} (r : result X unit) : Prop := r = Ok tt.

(** * Facts *)

(** ** What stays *)

Lemma rely_there h w w' id : rely h w w' -> there w id -> there w' id.
Proof. intros Hr [i Hi]. exists i. by apply (ex_nodes _ _ (re_graph _ _ _ _ Hr)). Qed.

Lemma labelled_there w id label : labelled (graph w) id label -> there w id.
Proof. intros (i & _ & Hi & _). by exists i. Qed.

Lemma stable_labelled id label : stable (fun w => labelled (graph w) id label).
Proof. intros h w w'. apply rely_labelled. Qed.

Lemma stable_joined id label s t : stable (fun w => joined (graph w) id label s t).
Proof. intros h w w'. apply rely_joined. Qed.

Lemma stable_joined_if w0 id label s t : stable (joined_if w0 id label s t).
Proof. intros h w w' Hr Hj Hs Ht. eapply rely_joined; [exact Hr|by apply Hj]. Qed.

Lemma stable_artifact w0 c ia : stable (artifact_left w0 c ia).
Proof.
  destruct ia as [i a]. intros h w w' Hr (H1 & H2 & H3 & H4). split_and!; [by eapply rely_labelled..| |by eapply rely_joined].
  intros Hc. eapply rely_joined; [exact Hr|by apply H3].
Qed.

Lemma stable_forall {A} (P : A -> Prop) (F : A -> world -> Prop) : (forall x, stable (F x)) -> stable (fun w => forall x, P x -> F x w).
Proof. intros HF h w w' Hr Ha x Hx. eapply HF; [exact Hr|by apply Ha]. Qed.

Lemma stable_artifacts w0 r : stable (artifacts_left w0 r).
Proof. apply stable_forall. intros ia. apply stable_artifact. Qed.

Lemma stable_all_left {A} (read : string -> option (list A)) data left : (forall r, stable (left r)) -> stable (all_left read data left).
Proof. intros Hl h w w' Hr (rs & Hrs & Ha). exists rs. split; [done|]. by eapply (stable_forall (fun r => r ∈ rs)). Qed.

Lemma materialized_stable w0 analyzer jobID data : stable (materialized w0 analyzer jobID data).
Proof.
  unfold materialized. repeat case_bool_decide; [..|by intros h w w' _]; apply stable_all_left; intros r;
    [apply stable_joined_if..|apply stable_artifacts].
Qed.

Lemma catalog_stable w0 cs : stable (catalog_left w0 cs).
Proof.
  intros h w w' Hr Hl c Hc. destruct (Hl c Hc) as [Hn Hp]. split; [by eapply rely_labelled|]. intros H1 H2.
  eapply rely_joined; [exact Hr|by apply Hp].
Qed.

Lemma materialization_stable w0 a : stable (materialization w0 a).
Proof.
  destruct a as [| |[| | | |]|[| |]]; try by intros h w w' _. { apply materialized_stable. }
  intros h w w' Hr [Hcs Hl]. split; [done|]. by eapply catalog_stable.
Qed.

(** A handler that starts later leaves at least as much. *)
Lemma joined_if_later h w0 w1 id label s t w : rely h w0 w1 -> joined_if w1 id label s t w -> joined_if w0 id label s t w.
Proof. intros Hr Hj Hs Ht. apply Hj; by eapply rely_there. Qed.

(** Two jobs that type an artifact of a control differently leave it with both
    types: the later one keeps the node and adds an edge. *)
Lemma artifact_keeps_both_types w0 w0' j j' d d' rs rs' r r' i a a' w :
  materialized w0 "artifacts" j d w -> materialized w0' "artifacts" j' d' w ->
  read_artifacts d = Some rs -> read_artifacts d' = Some rs' -> r ∈ rs -> r' ∈ rs' -> ar_ControlID r' = ar_ControlID r ->
  ar_Artifacts r !! i = Some a -> ar_Artifacts r' !! i = Some a' ->
  let artID := artifactID (ar_ControlID r) i in
  joined (graph w) (DerivedID ["is-type"; artID; a_Type a]) "IS_TYPE" artID (typeID (a_Type a)) /\
  joined (graph w) (DerivedID ["is-type"; artID; a_Type a']) "IS_TYPE" artID (typeID (a_Type a')).
Proof.
  intros (l & Hl & Hm) (l' & Hl' & Hm') Hrs Hrs' Hr Hr' Hc Ha Ha'. assert (l = rs /\ l' = rs') as [-> ->] by (split; congruence). clear Hl Hl' Hrs Hrs'.
  assert (forall k x q, ar_Artifacts q !! k = Some x -> (k, x) ∈ imap pair (ar_Artifacts q)) as Hin.
  { intros k x q Hx. apply list_elem_of_lookup. exists k. by rewrite list_lookup_imap, Hx. }
  split.
  - by destruct (Hm r Hr (i, a) (Hin _ _ _ Ha)) as (_ & _ & _ & Hj).
  - destruct (Hm' r' Hr' (i, a') (Hin _ _ _ Ha')) as (_ & _ & _ & Hj). by rewrite Hc in Hj.
Qed.

(** ** Steps *)

Lemma next_safe (p q : writing) F G w :
  safe p None w (leaves well F w) -> stable F -> (forall w1, rely None w w1 -> F w1 -> safe q None w1 (leaves well G w1)) ->
  safe (next p q) None w (leaves well (fun w' => F w' /\ G w') w).
Proof.
  intros Hp HF Hq. unfold next. eapply leaves_bind; [exact Hp|]. intros [[]|e] w1 Hr Hf; [|by apply leaves_ret].
  specialize (Hf eq_refl). eapply safe_mono; [|by apply Hq]. intros a h w'. apply leaves_later; [apply rely_refl|]. intros Hr2 Hg. split; [by eapply HF|done].
Qed.

Lemma each_safe {A} (f : A -> writing) (F : A -> world -> Prop) l w :
  (forall x, stable (F x)) -> (forall x w1, x ∈ l -> rely None w w1 -> safe (f x) None w1 (leaves well (F x) w1)) ->
  safe (each f l) None w (leaves well (fun w' => forall x, x ∈ l -> F x w') w).
Proof.
  intros HF. revert w. induction l as [|x l IH]; intros w Hf; cbn [each]; [apply leaves_ret; by intros _ x []%not_elem_of_nil|].
  eapply safe_mono; [|apply (next_safe _ _ (F x) (fun w' => forall y, y ∈ l -> F y w')); [apply Hf; [left|apply rely_refl]|apply HF|]].
  - intros a h w'. apply leaves_later; [apply rely_refl|]. intros _ [H1 H2] y [->|Hy]%elem_of_cons; [done|by apply H2].
  - intros w1 Hr _. apply IH. intros y w2 Hy Hr2. apply Hf; [by right|by eapply rely_trans].
Qed.

Lemma now_safe {A} (k : Time -> prog A) ok F w :
  (forall now w1, rely None w w1 -> safe (k now) None w1 (leaves ok F w1)) -> safe (Do CNow k) None w (leaves ok F w).
Proof.
  intros Hk. apply leaves_do; [done|done|]. intros now w1 w2 Hr _ Hr2 _. apply Hk. by eapply rely_trans.
Qed.

Lemma with_results_safe {A} (read : string -> option (list A)) data (f : list A -> writing) left w :
  (forall rs, safe (f rs) None w (leaves well (fun w' => forall r, r ∈ rs -> left r w') w)) ->
  safe (with_results read data f) None w (leaves well (all_left read data left) w).
Proof.
  intros Hf. unfold with_results. destruct (read data) as [rs|] eqn:Hrs; [|by apply leaves_ret].
  eapply safe_mono; [|apply Hf]. intros a h w'. apply leaves_later; [apply rely_refl|]. intros _ Hall. by exists rs.
Qed.

Lemma write_node_safe n w : safe (write_one false (CCreateNode n)) None w (leaves well (fun w' => labelled (graph w') (n_ID n) (n_Label n)) w).
Proof.
  apply leaves_do; [done|done|]. intros x w1 w2 _ _ _ Hans. apply leaves_ret. intros Hx. by eapply node_accepted.
Qed.

(** An edge the graph role writes, by either call. *)
Inductive writes_edge : call (result call_error unit) -> string -> string -> string -> string -> Prop :=
| we_edge s t e : e_Label e <> sameAsLabel -> places (e_ID e) (e_Label e) s t -> writes_edge (CCreateEdge s t e) (e_ID e) (e_Label e) s t
| we_requires r : writes_edge (CRequiresEdge r) (EdgeID r) "REQUIRES" (re_SourceID r) (re_TargetID r).

Lemma write_edge_safe skips c id label s t w :
  writes_edge c id label s t ->
  safe (write_one skips c) None w
    (leaves well (fun w' => (skips = true -> there w s /\ there w t) -> joined (graph w') id label s t) w).
Proof.
  intros Hc. apply leaves_do.
  - intros w1 _ _. destruct Hc as [s t e Hl Hp|r]; [by right|done].
  - by destruct Hc.
  - intros x w1 w2 Hr Hg _ Hans. apply leaves_ret. intros Hx Hsk.
    assert (joined (graph w2) id label s t \/ (skips = true /\ (nodeByID (graph w1) s = None \/ nodeByID (graph w1) t = None))) as [|[Hs Hn]]; [|done|].
    + destruct Hc as [s t e Hl Hp|r]; cbn [answers] in Hans; eapply edge_accepted; try done.
      * intros c. apply CreateEdge_answer.
      * by apply CreateEdge_plain.
      * intros c. apply CreateRequiresEdge_answer.
      * constructor.
      * apply CreateRequiresEdge_write.
    + destruct (Hsk Hs) as [[i Hi]%(rely_there _ _ _ _ Hr) [j Hj]%(rely_there _ _ _ _ Hr)]. destruct Hn; congruence.
Qed.

(** One that is skipped, in a handler that started in [w0]. *)
Lemma skipped_edge_safe c id label s t w0 w :
  writes_edge c id label s t -> rely None w0 w -> safe (write_one true c) None w (leaves well (joined_if w0 id label s t) w).
Proof.
  intros Hc Hr. eapply safe_mono; [|by apply write_edge_safe]. intros a h w'. apply leaves_later; [apply rely_refl|].
  intros _ Hj Hs Ht. apply Hj. intros _. split; by eapply rely_there.
Qed.

(** ** Results *)

Lemma materializeRelationship_safe t jobID data w :
  safe (materializeRelationship t jobID data) None w (leaves well (all_left read_matches data (match_left w jobID)) w).
Proof.
  apply with_results_safe. intros rs. apply each_safe; [intros r; apply stable_joined_if|]. intros r w1 _ Hr. apply now_safe. intros now w2 Hr2.
  apply (skipped_edge_safe (CCreateEdge (sm_SourceID r) (sm_TargetID r) (semantic_edge now jobID r))); [by repeat constructor|by eapply rely_trans].
Qed.

Lemma materializeRequires_safe t jobID data w :
  safe (materializeRequires t jobID data) None w (leaves well (all_left read_requires data (requires_left w jobID)) w).
Proof.
  apply with_results_safe. intros rs. apply each_safe; [intros r; apply stable_joined_if|]. intros r w1 _ Hr. apply now_safe. intros now w2 Hr2.
  apply (skipped_edge_safe (CRequiresEdge (requires_edge now t jobID r))); [exact (we_requires _)|by eapply rely_trans].
Qed.

Lemma materialize_artifact_safe now jobID c ia w0 w :
  rely None w0 w -> safe (materialize_artifact now jobID c ia) None w (leaves well (artifact_left w0 c ia) w).
Proof.
  intros Hr. destruct ia as [i a]. unfold materialize_artifact, artifact_left. set (artID := artifactID c i).
  apply next_safe; [apply (write_node_safe (artifact_node now jobID c i a))|apply stable_labelled|]. intros w1 Hr1 Hart.
  apply next_safe; [apply (write_node_safe (type_node now a))|apply stable_labelled|]. intros w2 Hr2 _.
  apply next_safe.
  - eapply safe_mono; [|apply (write_edge_safe true _ _ _ _ _ w2 (we_edge _ _ (demands_edge now jobID c artID) ltac:(done) (pl_demands _ _)))].
    intros x h w'. apply leaves_later; [apply rely_refl|]. intros _ Hj Hc. apply Hj. intros _. split.
    + eapply rely_there; [|exact Hc]. eapply rely_trans; [exact Hr|]. by eapply rely_trans.
    + eapply rely_there; [exact Hr2|]. by eapply labelled_there.
  - intros h w' w3 Hr3 Hj Hc. eapply rely_joined; [exact Hr3|by apply Hj].
  - intros w3 _ _. eapply safe_mono; [|apply (write_edge_safe false _ _ _ _ _ w3 (we_edge _ _ (is_type_edge now jobID artID (a_Type a)) ltac:(done) (pl_is_type _ _)))].
    intros x h w'. apply leaves_later; [apply rely_refl|]. intros _ Hj. by apply Hj.
Qed.

Lemma materializeArtifacts_safe t jobID data w :
  safe (materializeArtifacts t jobID data) None w (leaves well (all_left read_artifacts data (artifacts_left w)) w).
Proof.
  apply with_results_safe. intros rs. apply now_safe. intros now w1 Hr1. apply each_safe; [intros r; apply stable_artifacts|].
  intros r w2 _ Hr2. apply each_safe; [intros ia; apply stable_artifact|]. intros ia w3 _ Hr3. apply materialize_artifact_safe.
  eapply rely_trans; [exact Hr1|]. by eapply rely_trans.
Qed.

Lemma handler_safe analyzer handle t jobID data w :
  handlerFor analyzer = Some handle -> safe (handle t jobID data) None w (leaves well (materialized w analyzer jobID data) w).
Proof.
  unfold handlerFor, materialized. case_bool_decide; [intros [= <-]; apply materializeRelationship_safe|].
  case_bool_decide; [intros [= <-]; apply materializeRequires_safe|]. case_bool_decide; [intros [= <-]; apply materializeArtifacts_safe|].
  case_bool_decide; [intros [= <-]; apply leaves_ret; by left|]. case_bool_decide; [intros [= <-]; apply leaves_ret; by right|done].
Qed.

(** ** Events *)

(** A handler that starts later leaves what one from before would. *)
Lemma all_left_mono {A} (read : string -> option (list A)) data (left left' : A -> world -> Prop) w :
  (forall r, left r w -> left' r w) -> all_left read data left w -> all_left read data left' w.
Proof. intros Hl (rs & Hrs & Ha). exists rs. split; [done|]. auto. Qed.

Lemma materialized_later w0 w1 analyzer jobID data w : rely None w0 w1 -> materialized w1 analyzer jobID data w -> materialized w0 analyzer jobID data w.
Proof.
  intros Hr. unfold materialized. repeat case_bool_decide; [..|done]; apply all_left_mono; intros r; [by apply (joined_if_later None)..|].
  intros Ha [i a] Hin. destruct (Ha _ Hin) as (Hart & Hty & Hdm & Hit). split_and!; [done..| |done]. intros Hc. apply Hdm. by eapply rely_there.
Qed.

Lemma Resolve_safe schemes ref w : safe (Resolve schemes ref) None w (leaves (fun _ => True) (fun _ => True) w).
Proof.
  unfold Resolve. case_bool_decide; [|by apply leaves_ret]. apply leaves_do; [done|done|]. intros x w1 w2 _ _ _ _. by apply leaves_ret.
Qed.

Lemma handle_event_safe schemes data w :
  safe (handle_event schemes tenantID data) None w (fun a _ w' => materialization w (EventEnded a) w').
Proof.
  unfold handle_event. destruct (read_event data) as [e|]; [|done]. case_bool_decide; [done|].
  destruct (handlerFor (ev_Analyzer e)) as [handle|] eqn:Hh; [|done]. apply safe_bind. eapply safe_mono; [|apply Resolve_safe].
  intros [results|x] h w1 (-> & Hr1 & _); [|done]. apply safe_bind. eapply safe_mono; [|by apply handler_safe].
  intros [[]|x] h w2 (-> & Hr2 & Hm); [|done]. eapply materialized_later; [exact Hr1|by apply Hm].
Qed.

Lemma handleEvent_safe schemes ctx' m w :
  event_tenant ctx' (msg_Subject m) = Some tenantID ->
  safe (handleEvent schemes ctx' m) None w (fun a _ w' => materialization w (EventEnded a) w').
Proof. intros Ht. unfold handleEvent. rewrite Ht. apply handle_event_safe. Qed.

(** ** Catalogs *)

(** A loop that goes on after an error, and collects it. *)
Definition no_errors (errs : list projection_error) : Prop := errs = [].

Lemma upsert_controls_safe now cs errs w :
  safe (upsert_controls now tenantID cs errs) None w (leaves no_errors (fun w' => errs = [] /\ forall c, c ∈ cs -> control_left c w') w).
Proof.
  revert errs w. induction cs as [|c cs IH]; intros errs w; cbn [upsert_controls].
  - apply leaves_ret. intros ->. split; [done|]. by intros c []%not_elem_of_nil.
  - apply leaves_do; [done|done|]. intros x w1 w2 _ _ _ Hans. eapply safe_mono; [|apply IH].
    intros a h w'. apply leaves_later; [apply rely_refl|]. intros Hr [He Hall]. apply app_eq_nil in He as [-> Hx]. split; [done|].
    intros c' [->|Hc]%elem_of_cons; [|by apply Hall]. unfold control_left. eapply rely_labelled; [exact Hr|]. destruct x as [created|e]; [|done].
    cbn [answers] in Hans. apply attempt_Ok in Hans as [Hv ->]. rewrite on_client_1 in Hv. rewrite on_client_2. unfold tenant_graph. cbn [w_graphs].
    apply (UpsertNode_answer _ _ (control_node now tenantID c) created). by destruct (UpsertNode _ _ _).1; [injection Hv as ->|].
Qed.

Lemma parent_edges_safe now cs errs w0 w :
  rely None w0 w ->
  safe (parent_edges now cs errs) None w (leaves no_errors (fun w' => errs = [] /\ forall c, c ∈ cs -> parent_left w0 c w') w).
Proof.
  revert errs w. induction cs as [|c cs IH]; intros errs w Hr; cbn [parent_edges].
  - apply leaves_ret. intros ->. split; [done|]. by intros c []%not_elem_of_nil.
  - case_bool_decide as Hp.
    + eapply safe_mono; [|by apply IH]. intros a h w'. apply leaves_later; [apply rely_refl|]. intros _ [He Hall]. split; [done|].
      intros c' [->|Hc]%elem_of_cons; [by intros ?|by apply Hall].
    + pose proof (pl_parent (parent_node c) (cc_ControlID c)) as Hpl. apply leaves_do; [by right|done|]. intros x w1 w2 Hr1 Hg Hr2 Hans.
      eapply safe_mono; [|apply IH; eapply rely_trans; [exact Hr|by eapply rely_trans]].
      intros a h w'. apply leaves_later; [apply rely_refl|]. intros Hr3 [He Hall]. apply app_eq_nil in He as [-> Hx]. split; [done|].
      intros c' [->|Hc]%elem_of_cons; [|by apply Hall]. intros _ Hs Ht. eapply rely_joined; [exact Hr3|]. cbn [answers] in Hans.
      assert (accepted true x = Ok tt) as Hacc.
      { destruct x as [[]|e]; [done|]. cbn. destruct (edge_exists e || node_not_found e) eqn:Hb; [|done]. apply orb_true_iff in Hb as [Hb| ->].
        - unfold isNodeExists. by destruct e as [|[]|].
        - by rewrite orb_true_r. }
      assert (rely None w0 w1) as Hr01 by (by eapply rely_trans).
      eapply (edge_accepted _ _ true) in Hans as [|(_ & Hn)]; [done| | | | | |exact Hacc]; [|intros d; apply CreateEdge_answer|exact Hpl|by apply CreateEdge_plain|done].
      destruct (rely_there _ _ _ _ Hr01 Hs) as [i Hi], (rely_there _ _ _ _ Hr01 Ht) as [j Hj]. destruct Hn; congruence.
Qed.

Lemma projectCatalog_safe catalogID w :
  safe (projectCatalog tenantID catalogID) None w (fun a _ w' => a.2 = [] -> a.1 <> [] /\ catalog_left w a.1 w').
Proof.
  unfold projectCatalog. cbn [Projecting.safe]. intros w1 Hr1 _ _. split; [done|]. intros x w2 _ _ Hr2. destruct x as [[|c0 cs0]|e]; [done| |done].
  set (cs := c0 :: cs0). cbn [Projecting.safe held_after]. intros w3 Hr3 _ _. split; [done|]. intros now w4 _ _ Hr4. cbn [held_after].
  assert (rely None w w4) as Hr04.
  { eapply rely_trans; [exact Hr1|]. eapply rely_trans; [exact Hr2|]. by eapply rely_trans. }
  apply safe_bind. eapply safe_mono; [|apply upsert_controls_safe]. intros errs h w5 (-> & Hr5 & Hups).
  apply safe_bind. eapply safe_mono; [|apply (parent_edges_safe now cs errs w5), rely_refl]. intros errs' h w6 (-> & Hr6 & Hpar).
  cbn [Projecting.safe mret snd fst]. intros He. destruct (Hpar He) as [He' Hp]. destruct (Hups He') as [_ Hn]. split; [done|]. intros c Hc. split.
  - eapply stable_labelled; [exact Hr6|by apply Hn].
  - intros Hid Hth. apply Hp; [done|done| |eapply labelled_there; by apply Hn]. destruct Hth as [Hth|(p & Hin & <-)].
    + eapply rely_there; [|exact Hth]. by eapply rely_trans.
    + eapply labelled_there. by apply Hn.
Qed.

Lemma handleCatalogEvent_safe ctx' m catalogID w :
  catalog_target ctx' (msg_Subject m) = Some (tenantID, catalogID) ->
  safe (handleCatalogEvent ctx' m) None w (fun a _ w' => materialization w (CatalogEnded a) w').
Proof.
  intros Ht. unfold handleCatalogEvent. rewrite Ht. apply safe_bind.
  eapply safe_mono; [|apply projectCatalog_safe]. intros [cs [|e errs]] h w' Hp; [|done]. by apply Hp.
Qed.
End materializing.
