(* ===== verification/Adjudication.v ===== *)
(** What the artifact adjudicator ([Adjudicate]), the reconciler
    ([Reconcile]) and the graph role's event handlers ([Materialize]) promise of
    the graph: the invariant of every interleaving ([Passes], [Safety],
    [Reconciling], [Materializing]), and the run of a program nobody
    interrupts. *)

From S2P Require Import Prelude Float64 Timefmt Gostrings Tenant Json Consensus Bus Jobstore Graph MemDriver MemDriverFacts Graphevents Results Verdicts Verdictstore VerdictFacts Panel Adjudicate Materialize Fuzzy Reconcile ReconcileFacts Agreement Projecting Passes Safety Leaving Reconciling Materializing.
Local Open Scope Z_scope.

(** * Definitions *)

(** What calls of the outside answer, when nobody interrupts. *)
Record outside_answers := mkAnswers {
  rendered : PairContext -> option ResolvedPrompt;
  completed : Llm.CompletionRequest -> result llm_failure Llm.CompletionResponse;
  resolved : ResourceRef -> result call_error string;
  listed : string -> result call_error (list CatalogControl);
}.

Section alone.
Context `{Postgres} `{Jsonb} `{UpperCase} `{LowerCase} `{T : Timing} (ctx : context) (tenantID : string) (out : outside_answers).

(** A call that works at once. *)
Definition respond (w : world) {X} (c : call X) : X * world :=
  match c in call X return X * world with
  | CNow => (w_clock w, w)
  | CCancelled => (false, w)
  | CRender c => (rendered out c, w)
  | CComplete req => (completed out req, w)
  | CCounts now => on_store (Counts ctx tenantID now) w
  | CReset => on_store (ResetProjection ctx tenantID) w
  | CUnprojected n now => on_store (Unprojected ctx tenantID n now) w
  | CLease n leaseFor now => on_store (Lease ∅ ctx tenantID n leaseFor now) w
  | CDecide key v => on_store (Decide ctx tenantID key v) w
  | CDissent key v => on_store (RecordDissent ctx tenantID key v) w
  | CFailure key f => on_store (RecordFailure ctx tenantID key f) w
  | CClaim p until now => on_store (ClaimProjection ctx tenantID p until now) w
  | CMark p until => on_store (MarkProjected ctx tenantID p until) w
  | CRelease key until => on_store (ReleaseClaim ctx tenantID key until) w
  | CCreateEdge s t e => on_client (fun c => CreateEdge c tenantID s t e) w
  | CGetEdge id => on_client (fun c => (GetEdge c tenantID id, c)) w
  | CTraverse q => on_client (fun c => (Traverse c tenantID q, c)) w
  | CSupersede req => on_client (fun c => SupersedeFact c tenantID req) w
  | CClosedPairs => on_store (ClosedPairs ctx tenantID) w
  | CEnqueue cs now => on_store (Enqueue ctx tenantID cs now) w
  | CRelationships q => on_client (fun c => (QueryRelationships c tenantID q, c)) w
  | CCreateNode n => on_client (fun c => CreateNode c tenantID n) w
  | CBulkEdges es => on_client (fun c => BulkCreateEdges c tenantID es) w
  | CUpsertNode n => on_client (fun c => UpsertNode c tenantID n) w
  | CRequiresEdge r => on_client (fun c => CreateRequiresEdge c tenantID r) w
  | CResolve ref => (resolved out ref, w)
  | CControls catalogID => (listed out catalogID, w)
  end.

(** Whether a call is made in time, as a program finds it. *)
Definition timely {X} (h : held) (c : call X) (w : world) : bool :=
  match c with
  | CClaim _ until _ => w_clock w <? until
  | CCreateEdge _ _ _ | CSupersede _ => match h with Some (_, u) => w_clock w <? u | None => true end
  | _ => true
  end.

(** A program that runs alone: what it returns, the claim and the world it
    leaves, and whether all its calls were in time. *)
Fixpoint alone {A} (p : prog A) (h : held) (w : world) : A * held * world * bool :=
  match p with
  | Ret a => (a, h, w, true)
  | Do c k => let '(x, w') := respond w c in
      let '(a, h', w2, ok) := alone (k x) (held_after c x h) w' in (a, h', w2, timely h c w && ok)
  end.

(** What a program that started in [w0] leaves. *)
Definition completion (w0 : world) (a : ending) (w : world) : Prop := reconciliation tenantID w0 a w /\ materialization tenantID w0 a w.

(** What is asked of how the thread [i] ends, when a thread is watched from the
    world it started in. *)
Definition promise (watched : option (nat * world)) (i : nat) (a : ending) (w : world) : Prop :=
  forall w0, watched = Some (i, w0) -> completion w0 a w.

(** Every pass, step of others and tick keeps this. *)
Record inv (watched : option (nat * world)) (ths : list thread) (w : world) : Prop := {
  iv_good : good tenantID w;
  iv_agree : followed tenantID w;
  iv_watched : forall i w0, watched = Some (i, w0) -> (i < length ths)%nat;
  iv_thread : forall i p h, ths !! i = Some (mkThread p h) ->
    safe ctx tenantID p h w (fun a _ w' => promise watched i a w') /\ holds_claim tenantID h w;
  iv_apart : forall i j p h q h', i <> j -> ths !! i = Some (mkThread p h) -> ths !! j = Some (mkThread q h') -> apart tenantID h h' w;
}.

(** * Facts *)

Lemma promise_rely watched i a h w w' : rely tenantID h w w' -> promise watched i a w -> promise watched i a w'.
Proof.
  intros Hr Hp w0 Hw. destruct (Hp w0 Hw) as [Hre Hma]. split; [by eapply reconciliation_rely|]. by eapply materialization_stable.
Qed.

Lemma thread_rely watched i p h w w' :
  rely tenantID h w w' -> safe ctx tenantID p h w (fun a _ w' => promise watched i a w') /\ holds_claim tenantID h w ->
  safe ctx tenantID p h w' (fun a _ w' => promise watched i a w') /\ holds_claim tenantID h w'.
Proof.
  intros Hr [Hs Hh]. split; [|by eapply holds_claim_rely]. eapply safe_rely; [|exact Hr|exact Hs]. intros a. by eapply promise_rely.
Qed.

Lemma ends_as_safe {A} (f : A -> ending) (p : prog A) w (Q : ending -> world -> Prop) :
  safe ctx tenantID p None w (fun a _ w' => Q (f a) w') -> safe ctx tenantID (ends_as f p) None w (fun a _ w' => Q a w').
Proof. intros Hs. by apply safe_bind. Qed.

Lemma pass_safe p w : pass tenantID p -> safe ctx tenantID p None w (fun a _ w' => completion w a w').
Proof.
  intros [cfg runID fuel o|cfg fuel|o|schemes ctx' m Hm|ctx' m catalogID Hm]; apply ends_as_safe.
  - eapply safe_mono; [|apply run_safe]. by intros a h w' _.
  - eapply safe_mono; [|apply recoverProjections_safe]. by intros a h w' _.
  - eapply safe_mono; [|apply reconciliation_safe]. by split.
  - eapply safe_mono; [|by apply handleEvent_safe]. by split.
  - eapply safe_mono; [|by eapply handleCatalogEvent_safe]. by split.
Qed.

Lemma inv_others watched ths w w' :
  inv watched ths w -> good tenantID w' -> followed tenantID w' ->
  (forall h, holds_claim tenantID h w -> rely tenantID h w w') -> inv watched ths w'.
Proof.
  intros Hi Hg Ha Hr. split; [done|done|apply Hi| |].
  - intros i p h Hp. pose proof (iv_thread _ _ _ Hi i p h Hp) as Ht. eapply thread_rely; [|exact Ht]. apply Hr, Ht.
  - intros i j p h q h' Hij Hp Hq. destruct (iv_thread _ _ _ Hi i p h Hp) as [_ Hh]. destruct (iv_thread _ _ _ Hi j q h' Hq) as [_ Hh'].
    eapply apart_rely; [by apply Hr|by apply Hr|]. by eapply (iv_apart _ _ _ Hi).
Qed.

Lemma tick_rely h w t : w_clock w <= t -> rely tenantID h w (mkWorld (w_store w) (w_graphs w) t).
Proof.
  intros Ht. split; [done|reflexivity| | |].
  - intros k r Hr. exists r. by split_and!.
  - intros _ p u _ Hc. split; [exact Hc|reflexivity].
  - intros _ p u _ Hc Hn. by destruct Hn.
Qed.

(** A new thread. *)
Lemma inv_started watched watched' ths w p :
  inv watched ths w -> pass tenantID p -> (forall i w0, watched' = Some (i, w0) -> watched = Some (i, w0) \/ (i = length ths /\ w0 = w)) ->
  inv watched' (ths ++ [mkThread p None]) w.
Proof.
  intros Hinv Hp Hw. split; [apply Hinv|apply Hinv| | |].
  - intros i w0 Hi. rewrite length_app. cbn. destruct (Hw i w0 Hi) as [Hold|[-> _]]; [|lia]. pose proof (iv_watched _ _ _ Hinv i w0 Hold). lia.
  - intros i q h [Hq|[Hl Hq]]%lookup_app_Some.
    + destruct (iv_thread _ _ _ Hinv i q h Hq) as [Hs Hh]. split; [|done]. eapply safe_mono; [|exact Hs]. intros a h' w' Hpr w0 Hi.
      destruct (Hw i w0 Hi) as [Hold|[-> _]]; [by apply Hpr|]. apply lookup_lt_Some in Hq. lia.
    + apply list_lookup_singleton_Some in Hq as [Hi [= <- <-]]. split; [|apply holds_None]. eapply safe_mono; [|by apply pass_safe].
      intros a h' w' Hpr w0 Hi0. destruct (Hw i w0 Hi0) as [Hold|[_ ->]]; [|done]. pose proof (iv_watched _ _ _ Hinv i w0 Hold). lia.
  - intros i j q h q' h' Hij [Hq|[Hl Hq]]%lookup_app_Some [Hq'|[Hl' Hq']]%lookup_app_Some.
    + by eapply (iv_apart _ _ _ Hinv i j).
    + apply list_lookup_singleton_Some in Hq' as [_ [= <- <-]]. apply apart_sym, apart_None.
    + apply list_lookup_singleton_Some in Hq as [_ [= <- <-]]. apply apart_None.
    + apply list_lookup_singleton_Some in Hq as [? _], Hq' as [? _]. lia.
Qed.

Lemma steps_keep watched s s' : step ctx tenantID s s' -> inv watched s.1 s.2 -> inv watched s'.1 s'.2.
Proof.
  intros [ths w p Hp|ths w i X c k h x w' Hi Hans Ht|ths w ctx' o Ho|ths w t Ht] Hinv; cbn [fst snd] in *.
  - eapply inv_started; eauto.
  - destruct (iv_thread _ _ _ Hinv i _ _ Hi) as [Hs Hh]. cbn [safe] in Hs.
    destruct (Hs w (rely_refl _ _ _) (iv_good _ _ _ Hinv) Hh) as [Howes Hk].
    destruct (call_kept ctx tenantID X c h w x w' Howes Ht Hans (iv_good _ _ _ Hinv) (iv_agree _ _ _ Hinv) Hh) as (Hg' & Ha' & Hh2 & Hothers).
    assert (rely tenantID None w w') as Hn by (apply Hothers; [apply holds_None|apply apart_sym, apart_None]).
    split; [done|done|rewrite length_insert; apply Hinv| |].
    + intros j q h' Hj. destruct (decide (j = i)) as [->|Hne].
      * rewrite list_lookup_insert_eq in Hj by (by eapply lookup_lt_Some). injection Hj as <- <-. split; [by eapply Hk|done].
      * rewrite list_lookup_insert_ne in Hj by done. pose proof (iv_thread _ _ _ Hinv j q h' Hj) as Hth. destruct Hth as [Hs' Hh'].
        destruct (Hothers h' Hh') as [Hr _]; [by eapply (iv_apart _ _ _ Hinv i j)|]. by eapply thread_rely.
    + assert (forall j q h', j <> i -> ths !! j = Some (mkThread q h') -> apart tenantID (held_after c x h) h' w') as Hnew.
      { intros j q h' Hne Hj. destruct (iv_thread _ _ _ Hinv j q h' Hj) as [_ Hh']. apply (Hothers h' Hh'). by eapply (iv_apart _ _ _ Hinv i j). }
      intros j1 j2 q1 h1 q2 h2 Hj12 J1 J2. destruct (decide (j1 = i)) as [->|Hn1]; [|destruct (decide (j2 = i)) as [->|Hn2]].
      * rewrite list_lookup_insert_eq in J1 by (by eapply lookup_lt_Some). injection J1 as <- <-.
        rewrite list_lookup_insert_ne in J2 by done. by eapply (Hnew j2).
      * rewrite list_lookup_insert_eq in J2 by (by eapply lookup_lt_Some). injection J2 as <- <-.
        rewrite list_lookup_insert_ne in J1 by done. apply apart_sym. by eapply (Hnew j1).
      * rewrite list_lookup_insert_ne in J1, J2 by done. destruct (iv_thread _ _ _ Hinv j1 q1 h1 J1) as [_ Hh1].
        destruct (iv_thread _ _ _ Hinv j2 q2 h2 J2) as [_ Hh2'].
        eapply apart_rely; [apply Hothers; [done|by eapply (iv_apart _ _ _ Hinv i j1)]|apply Hothers; [done|by eapply (iv_apart _ _ _ Hinv i j2)]|].
        by eapply (iv_apart _ _ _ Hinv j1 j2).
  - assert (allowed tenantID None o w) as Hal by (by destruct o).
    destruct (store_effect tenantID None o ctx' w Hal (iv_good _ _ _ Hinv) (iv_agree _ _ _ Hinv)) as (Hg' & Ha' & Hr).
    eapply inv_others; [done|done|done|]. intros h Hh. apply Hr; [done|apply apart_None].
  - eapply inv_others; [done| |apply Hinv|]; [split; apply Hinv|]. intros h _. by apply tick_rely.
Qed.

Lemma steps_inv watched s s' : rtc (step ctx tenantID) s s' -> inv watched s.1 s.2 -> inv watched s'.1 s'.2.
Proof. induction 1; [done|]. intros Hi. apply IHrtc. by eapply steps_keep. Qed.

Lemma inv_start w : good tenantID w -> followed tenantID w -> inv None [] w.
Proof. intros Hg Ha. by split. Qed.

(** Whatever happens before, meanwhile and after, a program that ends has left
    what it promises. *)
Lemma program_completes w ths w1 p ths' w2 a h :
  good tenantID w -> followed tenantID w -> rtc (step ctx tenantID) ([], w) (ths, w1) -> pass tenantID p ->
  rtc (step ctx tenantID) (ths ++ [mkThread p None], w1) (ths', w2) -> ths' !! length ths = Some (mkThread (Ret a) h) -> completion w1 a w2.
Proof.
  intros Hg Ha Hst Hp Hst2 Hend. pose proof (steps_inv None _ _ Hst (inv_start w Hg Ha)) as Hinv. cbn [fst snd] in Hinv.
  eapply (inv_started None (Some (length ths, w1))) in Hinv; [|exact Hp|by intros i w0 [= <- <-]; right].
  apply (steps_inv _ _ _ Hst2) in Hinv. destruct (iv_thread _ _ _ Hinv _ _ _ Hend) as [Hs _]. by apply Hs.
Qed.

(** ** Programs nobody interrupts *)

Lemma respond_answers w X (c : call X) : answers ctx tenantID w c (respond w c).1 (respond w c).2.
Proof. destruct c; cbn [answers respond fst snd]; try done; try apply works. exists ∅. apply works. Qed.

Lemma timely_in_time X h (c : call X) w : timely h c w = true -> in_time h c w.
Proof.
  destruct c; cbn [timely in_time]; try done; [by intros ?%Z.ltb_lt| |]; destruct h as [[p u]|]; intros ? ? ? [= -> ->]; by apply Z.ltb_lt.
Qed.

Lemma alone_steps ths i p h w :
  ths !! i = Some (mkThread p h) -> (alone p h w).2 = true ->
  rtc (step ctx tenantID) (ths, w)
    (<[i := mkThread (Ret (alone p h w).1.1.1) (alone p h w).1.1.2]> ths, (alone p h w).1.2).
Proof.
  revert ths h w. induction p as [a|X c k IH]; intros ths h w Hi; cbn [alone].
  - intros _. cbn [fst snd]. by rewrite list_insert_id.
  - pose proof (respond_answers w X c) as Hans. destruct (respond w c) as [x w1] eqn:Hx. cbn [fst snd] in Hans.
    specialize (IH x (<[i := mkThread (k x) (held_after c x h)]> ths) (held_after c x h) w1).
    rewrite list_lookup_insert_eq in IH by (by eapply lookup_lt_Some). specialize (IH eq_refl).
    destruct (alone (k x) (held_after c x h) w1) as [[[a h2] w2] ok]. cbn [fst snd] in *. intros [Ht Hok]%andb_true_iff. eapply rtc_l.
    + eapply step_call; [exact Hi|exact Hans|intros _; by apply timely_in_time].
    + specialize (IH Hok). by rewrite list_insert_insert_eq in IH.
Qed.

Lemma alone_ends_as {A} (f : A -> ending) (p : prog A) h w :
  alone (ends_as f p) h w = (f (alone p h w).1.1.1, (alone p h w).1.1.2, (alone p h w).1.2, (alone p h w).2).
Proof.
  unfold ends_as. revert h w. induction p as [a|X c k IH]; intros h w; [done|]. change (Do c k ≫= fun a => Ret (f a)) with (Do c (fun x => k x ≫= fun a => Ret (f a))).
  cbn [alone]. destruct (respond w c) as [x w1]. rewrite (IH x (held_after c x h) w1). by destruct (alone (k x) _ _) as [[[a h2] w2] ok].
Qed.

Lemma alone_thread {A} (f : A -> ending) (p : prog A) w :
  (alone p None w).2 = true ->
  rtc (step ctx tenantID) ([mkThread (ends_as f p) None], w) ([mkThread (Ret (f (alone p None w).1.1.1)) (alone p None w).1.1.2], (alone p None w).1.2).
Proof.
  intros Hok. pose proof (alone_steps [mkThread (ends_as f p) None] 0 _ None w eq_refl) as Hst. rewrite alone_ends_as in Hst. by apply Hst.
Qed.

Lemma alone_pass {A} (f : A -> ending) (p : prog A) w :
  pass tenantID (ends_as f p) -> (alone p None w).2 = true ->
  rtc (step ctx tenantID) ([], w) ([mkThread (Ret (f (alone p None w).1.1.1)) (alone p None w).1.1.2], (alone p None w).1.2).
Proof. intros Hp Hok. eapply rtc_l; [by apply step_start|]. by apply alone_thread. Qed.
End alone.

(** * What holds of every interleaving *)

Section interleavings.
Context `{Postgres} `{Jsonb} `{UpperCase} `{LowerCase} (ctx : context) (tenantID : string).

(** Calls at any time, and calls in time. *)
#[local] Abbreviation step_anytime := (step (T := anytime) ctx tenantID).
#[local] Abbreviation step_punctually := (step (T := punctually) ctx tenantID).

(** C5. The graph says what the verdicts say, as long as claims outlive the
    calls they are for. Take any interleaving of runs and projection passes of
    the adjudicator, runs of the reconciler and event handlers of the graph
    role, whichever of their calls fail or take effect without an answer and
    wherever they stop, with whatever reviewers and panels write to the store
    meanwhile, in which, on the one clock the hosts share, no claim is made and
    no edge of a projection written after the claim has ended. Then every
    verdict recorded as projected is what the graph says, and two passes never
    hold the claim of one pair. (Without that condition a projection that
    outlives its claim can be overtaken, and its late write is not undone: see
    [late_projection_overtaken].) No one else writes SAME_AS edges. *)
Theorem graph_follows_verdicts w ths w' :
  good tenantID w -> applied_agree tenantID w -> rtc step_punctually ([], w) (ths, w') ->
  (forall k r, row_of tenantID w' k = Some r -> applied r = true -> agrees (tenant_graph tenantID w') r) /\
  (forall i j p u q v P Q, i <> j -> ths !! i = Some (mkThread P (Some (p, u))) -> ths !! j = Some (mkThread Q (Some (q, v))) ->
     pr_Key p = pr_Key q -> ~ (claims tenantID p u w' /\ claims tenantID q v w')).
Proof.
  intros Hg Ha Hst. assert (inv (T := punctually) ctx tenantID None ths w') as Hinv.
  { refine (steps_inv (T := punctually) ctx tenantID None _ _ Hst _). apply inv_start; [done|by intros _]. }
  split; [by apply Hinv|].
  intros i j p u q v P Q Hij Hi Hj Hk [Hc Hc']. by apply (iv_apart _ _ _ _ _ Hinv i j P _ Q _ Hij Hi Hj I p u q v).
Qed.

(** C7. A run of the reconciler leaves nothing out. If it ends without an error
    and was no dry run, then, for the graph it read after it started: every
    group of its artifacts has its node and the edges of its members, and every
    pair of groups whose names overlap enough has its SAME_AS edge between them
    and its row of the verdicts. That holds whatever adjudicators, reviewers,
    event handlers and other reconcilers do before, meanwhile and after, and whichever of its
    writes were refused because another run had made them. *)
Theorem reconciliation_completes w ths w1 o ths' w2 x h :
  good tenantID w -> rtc step_anytime ([], w) (ths, w1) ->
  rtc step_anytime (ths ++ [mkThread (ends_as (ReconcileEnded o) (Reconcile o)) None], w1) (ths', w2) ->
  ths' !! length ths = Some (mkThread (Ret (ReconcileEnded o (x, Ok tt))) h) -> ro_DryRun o = false ->
  exists g, extends (tenant_graph tenantID w1) g /\ extends g (tenant_graph tenantID w2) /\ reconciled tenantID g w2.
Proof.
  intros Hg Hst Hst2 Hend Hdry. pose proof (pass_reconcile tenantID o) as Hp. by destruct (program_completes (T := anytime) _ _ _ _ _ _ _ _ _ _ Hg (fun F => match F with end) Hst Hp Hst2 Hend) as [Hc _]; apply Hc.
Qed.

(** C8. A handled event is in the graph. If the graph role ends a stage event of
    the tenant without an error, then: every relationship and every requirement
    of its results has its edge, between the controls it names, if both were
    there when the handler started; and every artifact has its Artifact node,
    the node of its type and the edge between them, and the edge from its
    control if the control was there. That holds when the event is delivered
    twice, when other handlers, adjudicators and reconcilers write at the same
    time, and whichever of its writes were refused because one of them came
    first. *)
Theorem events_materialize w ths w1 schemes ctx' m ths' w2 analyzer jobID data h :
  good tenantID w -> rtc step_anytime ([], w) (ths, w1) ->
  event_tenant ctx' (msg_Subject m) = Some tenantID ->
  rtc step_anytime (ths ++ [mkThread (ends_as EventEnded (handleEvent schemes ctx' m)) None], w1) (ths', w2) ->
  ths' !! length ths = Some (mkThread (Ret (EventEnded (EventMaterialized analyzer jobID data))) h) ->
  materialized tenantID w1 analyzer jobID data w2.
Proof.
  intros Hg Hst Hm Hst2 Hend. pose proof (pass_event tenantID schemes ctx' m Hm) as Hp.
  by destruct (program_completes (T := anytime) _ _ _ _ _ _ _ _ _ _ Hg (fun F => match F with end) Hst Hp Hst2 Hend) as [_ Hc].
Qed.

(** C9. A projected catalog is in the graph. If the graph role ends the event of
    a parsed catalog without an error, then every control the catalog lists has
    its Control node, and the PARENT_OF edge from its parent if the parent is
    one of the controls or was there when the handler started, whatever others
    do at the same time. *)
Theorem catalog_projection_completes w ths w1 ctx' m catalogID ths' w2 cs h :
  good tenantID w -> rtc step_anytime ([], w) (ths, w1) ->
  catalog_target ctx' (msg_Subject m) = Some (tenantID, catalogID) ->
  rtc step_anytime (ths ++ [mkThread (ends_as CatalogEnded (handleCatalogEvent ctx' m)) None], w1) (ths', w2) ->
  ths' !! length ths = Some (mkThread (Ret (CatalogEnded (CatalogProjected cs))) h) ->
  cs <> [] /\ catalog_left tenantID w1 cs w2.
Proof.
  intros Hg Hst Hm Hst2 Hend. pose proof (pass_catalog tenantID ctx' m catalogID Hm) as Hp.
  by destruct (program_completes (T := anytime) _ _ _ _ _ _ _ _ _ _ Hg (fun F => match F with end) Hst Hp Hst2 Hend) as [_ Hc].
Qed.
End interleavings.

(** * A tenant for examples *)

Module AdjudicationSample.
#[local] Instance sample_postgres : Postgres := plain_postgres.
#[local] Instance sample_jsonb : Jsonb := VerdictSample.sample_jsonb.
#[local] Instance sample_upper : UpperCase := {| ToUpper s := s |}.
#[local] Instance sample_lower : LowerCase := {| go_ToLower s := s |}.

Definition acme : string := "acme-corp".
Definition now0 : Time := 63871419999123456000.
Definition group (id : string) : node_in := mkNode id "ArtifactGroup" ∅ now0 None "" "".
Definition overlap (lo hi : string) : op :=
  OpCreateEdge acme lo hi (mkEdge (sameAsEdgeID lo hi) sameAsLabel ∅ now0 None reconcilerName DeterminationTokenOverlap fone "").

(** Three groups, and the token-overlap edges of two pairs. *)
Definition sample_ops : list op :=
  [OpCreateGraph acme; OpCreateNode acme (group "g1"); OpCreateNode acme (group "g2"); OpCreateNode acme (group "g3");
   overlap "g1" "g2"; overlap "g1" "g3"].
Definition sample_graphs : memClient := foldl exec New sample_ops.

(** A panel confirmed the first pair, a person rejected the second. *)
Definition waiting_row (hi : string) (u : ruling) : row :=
  mkRow "g1" hi (sameAsEdgeID "g1" hi) fone "{}" u None false (mkQueued 1 0 None None) None 0.
Definition confirmed_row : row :=
  waiting_row "g2" (mkRuling VerdictConfirmed DeterminationLLMPanel adjudicatorName (Some fone) (Some "{}") (Some (now0 + 1000))).
Definition rejected_row : row :=
  waiting_row "g3" (mkRuling VerdictRejected DeterminationHuman "ada" (Some fone) None (Some (now0 + 2000))).
Definition sample_world : world := mkWorld
  {| vd_tenants := {[ acme := false ]}; reviewers := ∅;
     verdicts := {[ (acme, PairKey "g1" "g2") := confirmed_row; (acme, PairKey "g1" "g3") := rejected_row ]} |}
  sample_graphs (now0 + 5000).
Definition sample_config : AdjudicationConfig := mkAdjudicationConfig ["m"] 3 fone 100 fone fzero 3 60000000000 10 1000 10000.
Definition silent : outside_answers :=
  mkAnswers (fun _ => None) (fun _ => Err (mkLlmFailure [] None)) (fun _ => Err Unreachable) (fun _ => Err Unreachable).

Definition one_pass : (AdjudicateResult * result stop unit) * held * world * bool :=
  alone (example_ctx acme) acme silent (Project sample_config 2) None sample_world.

Lemma queue_rows k r :
  row_of acme sample_world k = Some r -> (k = PairKey "g1" "g2" /\ r = confirmed_row) \/ (k = PairKey "g1" "g3" /\ r = rejected_row).
Proof.
  unfold row_of. cbn [w_store sample_world verdicts]. rewrite lookup_insert_Some, lookup_singleton_Some. intros [[[= <-] <-]|[_ [[= <-] <-]]]; auto.
Qed.

Abbreviation sample_edge := (edge_at (tenant_graph acme sample_world)).

Lemma sample_edges e :
  e ∈ g_edges (tenant_graph acme sample_world) -> exists hi, (hi = "g2" \/ hi = "g3") /\ edge_id e = sameAsEdgeID "g1" hi /\ between (tenant_graph acme sample_world) "g1" hi e.
Proof.
  assert (g_edges (tenant_graph acme sample_world) = [sample_edge 0; sample_edge 1]) as -> by (vm_compute; reflexivity).
  intros [->|[->|[]%not_elem_of_nil]%elem_of_cons]%elem_of_cons; [exists "g2"|exists "g3"]; (split; [by auto|split; [vm_compute; reflexivity|]]);
    (split; [vm_compute; reflexivity|split; vm_compute; reflexivity]).
Qed.

Lemma sample_linked hi : hi = "g2" \/ hi = "g3" -> linked (tenant_graph acme sample_world) "g1" hi.
Proof.
  assert (forall i, (i < 2)%nat -> sample_edge i ∈ g_edges (tenant_graph acme sample_world)) as Hin.
  { intros i Hi. apply list_elem_of_lookup. exists i. destruct i as [|[|i]]; [vm_compute; reflexivity..|lia]. }
  assert (forall i hi, (i < 2)%nat -> edge_id (sample_edge i) = sameAsEdgeID "g1" hi -> linked (tenant_graph acme sample_world) "g1" hi) as Hl.
  { intros i hi' Hi Hid. destruct (sample_edges _ (Hin i Hi)) as (hi2 & _ & Hid2 & Hb). rewrite Hid in Hid2. apply sameAsEdgeID_inj in Hid2 as [_ ->].
    exists (sample_edge i). split; [by apply Hin|by split]. }
  intros [->| ->]; [apply (Hl 0%nat)|apply (Hl 1%nat)]; [lia|vm_compute; reflexivity|lia|vm_compute; reflexivity].
Qed.

Lemma queue_good : good acme sample_world.
Proof.
  split.
  - intros k r [[-> ->]|[-> ->]]%queue_rows; (split; [split|reflexivity|reflexivity|by intros t [= <-]]); try done; try (by intros [? [=]]).
    + apply ok_panel. by left.
    + by apply ok_human.
  - intros k r [[_ ->]|[_ ->]]%queue_rows; apply sample_linked; [by left|by right].
  - intros g Hg. assert (client_wf sample_graphs) as Hw by (apply reachable_wf, reachable_foldl, reach_new).
    assert (tenant_graph acme sample_world = g) as Hg' by (unfold tenant_graph, graph_of; by rewrite Hg). pose proof sample_edges as He. rewrite Hg' in He.
    split; [by apply (Hw acme g)| |].
    + intros e (hi & _ & -> & _)%He _. discriminate.
    + intros e id label s t (hi & _ & Hid & Hb)%He <- Hpl. rewrite Hid in Hpl.
      destruct (places_inj _ _ _ _ _ _ _ (pl_same_as "g1" hi) Hpl) as (-> & -> & ->). done.
Qed.

Lemma sample_agree : applied_agree acme sample_world.
Proof. intros k r [[-> ->]|[-> ->]]%queue_rows Hap; discriminate Hap. Qed.

Lemma graph_follows_verdicts_witness : exists r,
  row_of acme one_pass.1.2 (PairKey "g1" "g2") = Some r /\ applied r = true /\ agrees (tenant_graph acme one_pass.1.2) r.
Proof.
  destruct (row_of acme one_pass.1.2 (PairKey "g1" "g2")) as [r|] eqn:Hr; [|exfalso; vm_compute in Hr; discriminate Hr].
  assert (applied r = true) as Hap by (vm_compute in Hr; injection Hr as <-; reflexivity).
  exists r. split; [reflexivity|]. split; [exact Hap|].
  refine (proj1 (graph_follows_verdicts (example_ctx acme) acme sample_world _ one_pass.1.2 queue_good sample_agree _) _ _ Hr Hap).
  apply (alone_pass (example_ctx acme) acme silent RunEnded (Project sample_config 2)); [constructor|vm_compute; reflexivity].
Defined.

(** ** A reconciliation *)

Definition artifact (id name : string) : op :=
  OpCreateNode acme (mkNode id artifactLabel {[ "name" := AString name; "type" := AString "policy" ]} now0 None "" "").
Definition demands (art : string) : op :=
  OpCreateEdge acme "ac-1" art (mkEdge ("d-" +:+ art) demandsLabel ∅ now0 None "" "" fone "").

(** A control that demands two artifacts. *)
Definition demand_ops : list op :=
  [OpCreateGraph acme; OpCreateNode acme (mkNode "ac-1" controlLabel ∅ now0 None "" ""); artifact "a1" "access control policy";
   artifact "a2" "access control policy statement"; demands "a1"; demands "a2"].
Definition demand_world : world :=
  mkWorld {| vd_tenants := {[ acme := false ]}; reviewers := ∅; verdicts := ∅ |} (foldl exec New demand_ops) (now0 + 5000).
Definition sample_options : ReconcileOptions := mkReconcileOptions false 100 10 (now0 + 5000).
Definition one_reconciliation : (ReconcileResult * result reconcile_stop unit) * held * world * bool :=
  alone (example_ctx acme) acme silent (Reconcile sample_options) None demand_world.

Lemma demand_good : good acme demand_world.
Proof.
  split.
  - intros k r Hr. unfold row_of in Hr. cbn in Hr. by rewrite lookup_empty in Hr.
  - intros k r Hr. unfold row_of in Hr. cbn in Hr. by rewrite lookup_empty in Hr.
  - intros g Hg. assert (client_wf (w_graphs demand_world)) as Hw by (apply reachable_wf, reachable_foldl, reach_new).
    assert (forall e, e ∈ g_edges g -> me_label e = demandsLabel /\ exists x, edge_id e = String "d" (String "-" x)) as He.
    { vm_compute in Hg. injection Hg as <-. apply Forall_forall. repeat constructor; eexists; vm_compute; reflexivity. }
    split; [by apply (Hw acme g)| |].
    + intros e [-> _]%He. discriminate.
    + intros e id label s t [_ [x Hx]]%He Hid Hpl. rewrite Hx in Hid. by destruct Hpl.
Qed.

Lemma reconciliation_completes_witness :
  NewMatches one_reconciliation.1.1.1.1 = 1 /\
  exists g, extends (tenant_graph acme demand_world) g /\ extends g (tenant_graph acme one_reconciliation.1.2) /\ reconciled acme g one_reconciliation.1.2.
Proof.
  split; [vm_compute; reflexivity|].
  assert (one_reconciliation.1.1.1 = (one_reconciliation.1.1.1.1, Ok tt)) as Hend by (vm_compute; reflexivity).
  refine (reconciliation_completes (example_ctx acme) acme demand_world [] demand_world sample_options _ one_reconciliation.1.2 _ _ demand_good
    (rtc_refl _ _) (alone_thread (T := anytime) (example_ctx acme) acme silent (ReconcileEnded sample_options) (Reconcile sample_options) demand_world _)
    (f_equal (fun a => Some (mkThread (Ret (ReconcileEnded sample_options a)) one_reconciliation.1.1.2)) Hend) eq_refl); vm_compute; reflexivity.
Defined.

(** ** An event of the artifacts analyzer, and a catalog *)

Definition member (key : string) (value : list ascii) : list ascii := quoted key ++ bytes_of ":" ++ value.
Definition object (members : list (list ascii)) : list ascii := bytes_of "{" ++ commas members ++ bytes_of "}".
Definition array (elements : list (list ascii)) : list ascii := bytes_of "[" ++ commas elements ++ bytes_of "]".

(** The artifacts the control demands, as the analyzer found them: one is of a
    kind of its own. *)
Definition found (name type : string) : list ascii := object [member "name" (quoted name); member "type" (quoted type)].
Definition found_artifacts : string :=
  string_of (array [object [member "control_id" (quoted "ac-1"); member "artifacts" (array [found "access log" "log"; found "access policy" "policy"])]]).
Definition artifacts_event : Message :=
  mkMsg "crosscodex.pipeline.acme-corp.job-1.artifacts.completed"
    (string_of (object [member "analyzer" (quoted "artifacts"); member "job_id" (quoted "job-1")])) ∅ "".
Definition helpful : outside_answers :=
  mkAnswers (rendered silent) (completed silent)
    (fun ref => if bool_decide (ref_URI ref = "pg://results/job-1/artifacts") then Ok found_artifacts else Err Unreachable)
    (fun id => if bool_decide (id = "cat") then Ok [mkCatalogControl "cat/ac-2" "cat" "ac-2" "Accounts" "Manage accounts." "control" "";
                                                   mkCatalogControl "cat/ac-2.1" "cat" "ac-2.1" "Automation" "Automate it." "control" "ac-2"]
               else Err Unreachable).
Definition one_event : event_end * held * world * bool :=
  alone (example_ctx acme) acme helpful (handleEvent {[ "pg" ]} Background artifacts_event) None demand_world.

Lemma events_materialize_witness :
  length (g_edges (tenant_graph acme one_event.1.2)) = 6%nat /\ materialized acme demand_world "artifacts" "job-1" found_artifacts one_event.1.2.
Proof.
  split; [vm_compute; reflexivity|].
  assert (one_event.1.1.1 = EventMaterialized "artifacts" "job-1" found_artifacts) as Hend by (vm_compute; reflexivity).
  refine (events_materialize (example_ctx acme) acme demand_world [] demand_world {[ "pg" ]} Background artifacts_event _ one_event.1.2 _ _ _ _ demand_good
    (rtc_refl _ _) _ (alone_thread (T := anytime) (example_ctx acme) acme helpful EventEnded (handleEvent {[ "pg" ]} Background artifacts_event) demand_world _)
    (f_equal (fun a => Some (mkThread (Ret (EventEnded a)) one_event.1.1.2)) Hend)); vm_compute; reflexivity.
Defined.

Definition catalog_event : Message := mkMsg "crosscodex.catalog.acme-corp.cat.parsed" "{}" ∅ "".
Definition one_projection : catalog_end * held * world * bool :=
  alone (example_ctx acme) acme helpful (handleCatalogEvent Background catalog_event) None demand_world.

Definition listed_controls : list CatalogControl := default [] (match listed helpful "cat" with Ok cs => Some cs | Err _ => None end).

Lemma catalog_projection_completes_witness :
  cc_ControlID <$> listed_controls = ["cat/ac-2"; "cat/ac-2.1"] /\
  (listed_controls <> [] /\ catalog_left acme demand_world listed_controls one_projection.1.2).
Proof.
  split; [vm_compute; reflexivity|].
  assert (one_projection.1.1.1 = CatalogProjected listed_controls) as Hend by (vm_compute; reflexivity).
  refine (catalog_projection_completes (example_ctx acme) acme demand_world [] demand_world Background catalog_event "cat" _ one_projection.1.2 _ _ demand_good
    (rtc_refl _ _) _ (alone_thread (T := anytime) (example_ctx acme) acme helpful CatalogEnded (handleCatalogEvent Background catalog_event) demand_world _)
    (f_equal (fun a => Some (mkThread (Ret (CatalogEnded a)) one_projection.1.1.2)) Hend)); vm_compute; reflexivity.
Defined.

(** ** A projection that outlives its claim *)

(** What happens next: a pass starts, a call of a thread works at once, someone
    else writes to the store, or time passes. *)
Inductive move := MoveStart (p : prog ending) | MoveCall (i : nat) | MoveWrite (ctx' : context) (o : store_op) | MoveTime (d : nat).

(** One move, of calls that work. *)
Definition plays (m : move) (s : list thread * world) : list thread * world :=
  let '(ths, w) := s in
  match m with
  | MoveStart p => (ths ++ [mkThread p None], w)
  | MoveCall i =>
      match ths !! i with
      | Some (mkThread (Do c k) h) =>
          let '(x, w') := respond (example_ctx acme) acme silent w c in (<[i := mkThread (k x) (held_after c x h)]> ths, w')
      | _ => s
      end
  | MoveWrite ctx' o => (ths, with_store w (apply_store ctx' o (w_store w)))
  | MoveTime d => (ths, mkWorld (w_store w) (w_graphs w) (w_clock w + Z.of_nat d * 1000000000))
  end.

Definition fair (m : move) : Prop :=
  match m with MoveStart p => pass acme p | MoveWrite _ o => outside_op o | _ => True end.

Lemma plays_steps ms s : Forall fair ms -> rtc (step (T := anytime) (example_ctx acme) acme) s (foldl (fun s m => plays m s) s ms).
Proof.
  intros Hms. revert s. induction Hms as [|m ms Hm _ IH]; intros s; cbn [foldl]; [done|]. etrans; [|apply IH]. destruct s as [ths w].
  destruct m as [p|i|ctx' o|d]; cbn [plays] in *.
  - by apply rtc_once, step_start.
  - destruct (ths !! i) as [[[a|X c k] h]|] eqn:Hi; [done| |done]. pose proof (respond_answers (example_ctx acme) acme silent w X c) as Hans.
    destruct (respond _ _ _ w c) as [x w']. apply rtc_once. eapply step_call; [exact Hi|exact Hans|by intros []].
  - by apply rtc_once, step_store.
  - apply rtc_once, step_tick. lia.
Qed.

(** Ada may decide pairs. *)
Definition reviewed_world : world :=
  mkWorld {| vd_tenants := vd_tenants (w_store sample_world); reviewers := {[ (acme, VerdictSample.ada) := mkReviewer false None false ]};
             verdicts := verdicts (w_store sample_world) |} sample_graphs (w_clock sample_world).


Definition second_thought : HumanVerdict := mkHuman VerdictRejected VerdictSample.ada (now0 + 6000) (token (pair_state confirmed_row)).
(** The first pass claims the confirmed pair and is late: its claim ends before
    it writes the panel's edge. Meanwhile Ada rejects the pair and a second pass
    projects that. *)
Definition overtaking : list move :=
  [MoveStart (ends_as RunEnded (Project sample_config 2))] ++ repeat (MoveCall 0) 9 ++
  [MoveTime 61; MoveWrite (example_ctx acme) (OpHuman acme (PairRef (PairKey "g1" "g2")) second_thought);
   MoveStart (ends_as RunEnded (Project sample_config 2))] ++ repeat (MoveCall 1) 30 ++ [MoveCall 0].
Definition overtaken := foldl (fun s m => plays m s) ([], reviewed_world) overtaking.
(** The late write is not undone: the pair is recorded as projected, and the
    graph says what the panel said. *)
Lemma late_projection_overtaken :
  rtc (step (T := anytime) (example_ctx acme) acme) ([], reviewed_world) overtaken /\
  exists r, row_of acme overtaken.2 (PairKey "g1" "g2") = Some r /\ applied r = true /\ ~ agrees (tenant_graph acme overtaken.2) r.
Proof.
  split; [apply plays_steps; repeat constructor|].
  destruct (row_of acme overtaken.2 (PairKey "g1" "g2")) as [r|] eqn:Hr; [|exfalso; vm_compute in Hr; discriminate Hr].
  exists r. split; [reflexivity|]. vm_compute in Hr. injection Hr as <-. split; [reflexivity|]. intros Hag.
  assert (exists e, last (g_edges (tenant_graph acme overtaken.2)) = Some e /\ between (tenant_graph acme overtaken.2) "g1" "g2" e /\ ~ superseded e) as (e & He & Hb & Hs).
  { destruct (last (g_edges (tenant_graph acme overtaken.2))) as [e|] eqn:He; [|exfalso; vm_compute in He; discriminate He].
    exists e. split; [reflexivity|]. vm_compute in He. injection He as <-. split; [vm_compute; auto|]. unfold superseded. vm_compute. by intros []. }
  apply Hs, Hag; [|exact Hb]. by apply last_Some_elem_of.
Qed.
End AdjudicationSample.
