(* ===== verification/Draining.v ===== *)
(** A projection pass of the artifact adjudicator ([Adjudicate]) that nobody
    interrupts empties the queue of verdicts the graph does not have yet. *)

From S2P Require Import Prelude Float64 Timefmt Gostrings Tenant Consensus Jobstore Graph MemDriver MemDriverFacts Verdicts Verdictstore VerdictFacts Panel Adjudicate Fuzzy Reconcile Agreement Projecting Passes Safety Adjudication.
Local Open Scope Z_scope.

(** * Definitions *)

(** A graph SAME_AS edges can be written to. *)
Definition writable (g : memGraph) : Prop := forall kind, labelKinds g !! sameAsLabel = Some kind -> kind = "edge".

Section draining.
Context `{Postgres} `{Jsonb} `{UpperCase} `{LowerCase} (ctx : context) (tenantID : string) (out : outside_answers) (cfg : AdjudicationConfig).

Definition graph_ready (c : memClient) : Prop := exists g, graph c tenantID = Ok g /\ writable g.

(** The tenant is served, and a claim made now ends later. *)
Record calm (w : world) : Prop := {
  ca_ctx : FromContext ctx = Ok tenantID;
  ca_tenant : default false (vd_tenants (w_store w) !! tenantID) = false;
  ca_lease : w_clock w < micro (w_clock w + LeaseDuration cfg);
  ca_graph : graph_ready (w_graphs w);
}.

(** A row that can be projected: its verdict decodes, its groups and a panel's
    candidate have IDs, and it was decided at a time the database keeps. *)
Record projectable (k : string) (r : row) : Prop := {
  pb_verdict : is_Some (projection (k, r));
  pb_low : low r <> "";
  pb_high : high r <> "";
  pb_candidate : by_human r = false -> candidate r <> "";
  pb_decided : forall t, ru_decided (rl r) = Some t -> 0 < t /\ micro t = t;
}.

(** The verdicts that wait, a row once its verdict is projected, and every
    row once the queue is empty. *)
Definition queue (w : world) : list (string * row) :=
  List.filter (fun kr => waiting (w_clock w) kr.2) (rows_of tenantID (w_store w)).

Definition all_projectable (w : world) : Prop := forall k r, row_of tenantID w k = Some r -> waiting (w_clock w) r = true -> projectable k r.

Definition settle (r : row) : row := set_claimed (set_applied r true) None.

Definition drained (w : world) (r : row) : row := if waiting (w_clock w) r then settle r else r.

Definition put_row (d : vdb) (k : string) (r : row) : vdb := set_verdicts d (<[(tenantID, k) := r]> (verdicts d)).

(** A verdict in hand that is still the row's, and waits. *)
Definition pending (w : world) (p : Projection) : Prop :=
  exists r, row_of tenantID w (pr_Key p) = Some r /\ projection (pr_Key p, r) = Some p /\ projectable (pr_Key p) r /\ waiting (w_clock w) r = true.

(** A program that runs alone, with all its calls in time, ends so. *)
Definition yields {A} (p : prog A) (h : held) (w : world) (a : A) (h' : held) (w' : world) : Prop :=
  alone ctx tenantID out p h w = (a, h', w', true).

(** What a projection leaves of the world, and of the counters of a pass. *)
Record settled (w w' : world) : Prop := {
  st_store : w_store w' = w_store w;
  st_clock : w_clock w' = w_clock w;
  st_graph : graph_ready (w_graphs w');
}.
Definition quiet (r r' : AdjudicateResult) : Prop := Recovered r' = Recovered r /\ Fenced r' = Fenced r /\ Busy r' = Busy r.

(** A projection that ends without an error, with its claim. *)
Definition completes (q : projecting) (h : held) (res : AdjudicateResult) (w : world) : Prop :=
  exists res' b w', yields q h w (res', mkProjected b None) h w' /\ settled w w' /\ quiet res res'.

(** * Facts *)

Lemma yields_ret {A} (a : A) h w : yields (Ret a) h w a h w.
Proof. done. Qed.

Lemma yields_do {A X} (c : call X) (k : X -> prog A) h w x w1 a h' w' :
  respond ctx tenantID out w c = (x, w1) -> timely h c w = true -> yields (k x) (held_after c x h) w1 a h' w' -> yields (Do c k) h w a h' w'.
Proof. unfold yields. cbn [alone]. by intros -> -> ->. Qed.

Lemma yields_bind {A B} (p : prog A) (f : A -> prog B) h w a h1 w1 b h2 w2 :
  yields p h w a h1 w1 -> yields (f a) h1 w1 b h2 w2 -> yields (p ≫= f) h w b h2 w2.
Proof.
  unfold yields. revert h w. induction p as [x|X c k IH]; intros h w.
  - cbn. by intros [= -> -> ->].
  - unfold mbind, prog_mbind in *. cbn [alone prog_bind]. destruct (respond _ _ _ w c) as [x w'] eqn:Hx. specialize (IH x (held_after c x h) w').
    destruct (alone _ _ _ (k x) _ _) as [[[a' h'] w''] ok] eqn:Hk. intros [= -> -> -> [Ht ->]%andb_true_iff] Hf.
    by rewrite (IH eq_refl Hf), Ht.
Qed.

(** ** Calls of the graph *)

Lemma CreateEdge_ready c s t e :
  graph_ready c -> edge_valid s t e -> e_Label e = sameAsLabel ->
  graph_ready (CreateEdge c tenantID s t e).2 /\
  match (CreateEdge c tenantID s t e).1 with
  | Ok _ => True
  | Err x => node_not_found (GraphError x) = true \/ edge_exists (GraphError x) = true
  end.
Proof.
  intros (g & Hg & Hw) Hv Hl. unfold CreateEdge. rewrite (proj2 (CheckEdge_ok s t e) Hv), Hl.
  apply MemDriverFacts.graph_ok in Hg as [Ht Hg]. rewrite (on_graph_some c tenantID g _ Ht Hg). cbn [fst snd].
  assert (forall g', writable g' -> graph_ready (put_graph c tenantID g')) as Hput.
  { intros g' Hg'. exists g'. split; [|done]. apply MemDriverFacts.graph_ok. split; [done|]. cbn. by rewrite lookup_insert_eq. }
  assert (forall g', labelKinds g' !! sameAsLabel = Some "edge" -> writable g') as Hlab by (intros g' Hg' kind; rewrite Hg'; by intros [= <-]).
  unfold write_edge. destruct (useLabel_spec g sameAsLabel "edge") as [_ Hu].
  destruct (useLabel g sameAsLabel "edge") as [[[]|x] g1]; cbn [fst snd] in *.
  2: { destruct Hu as (k & Hk & Hne & _). destruct Hne. by apply Hw. }
  unfold addEdge, resolveNode. destruct (nodeByID g1 s); [|split; [by apply Hput, Hlab|by left]].
  destruct (nodeByID g1 t); [|split; [by apply Hput, Hlab|by left]].
  case_bool_decide; (split; [by apply Hput, Hlab|]); [by right|done].
Qed.

Lemma SupersedeFact_ready c id at_ :
  graph_ready c -> id <> "" -> at_ <> 0 ->
  graph_ready (SupersedeFact c tenantID (mkSupersedeRequest "" id at_ "")).2 /\
  exists b, (SupersedeFact c tenantID (mkSupersedeRequest "" id at_ "")).1 = Ok b.
Proof.
  intros (g & Hg & Hw) Hid Hat. unfold SupersedeFact, CheckSupersedeRequest. cbn [sr_NodeID sr_EdgeID SupersededAt].
  rewrite bool_decide_eq_false_2 by tauto. rewrite bool_decide_eq_false_2 by tauto. unfold IsZero. rewrite (proj2 (Z.eqb_neq _ _)) by done.
  apply MemDriverFacts.graph_ok in Hg as [Ht Hg]. rewrite (on_graph_some c tenantID g _ Ht Hg). unfold supersede. cbn [sr_NodeID].
  rewrite bool_decide_eq_false_2 by tauto. cbn [fst snd]. split; [|by eexists]. eexists. split.
  - apply MemDriverFacts.graph_ok. split; [done|]. cbn. by rewrite lookup_insert_eq.
  - exact Hw.
Qed.

Lemma GetEdge_ready c id :
  graph_ready c -> id <> "" ->
  (exists e, GetEdge c tenantID id = Ok e) \/ exists x, GetEdge c tenantID id = Err x /\ edge_not_found (GraphError x) = true.
Proof.
  intros (g & Hg & _) Hid. unfold GetEdge, read_graph. rewrite bool_decide_eq_false_2, Hg by done. destruct (edgeByID g id); [left|right]; by eexists.
Qed.

Lemma decodeEdge_named e : e_ID (decodeEdge e) <> "".
Proof. cbn. case_bool_decide; [|done]. apply Itoa_nonempty. Qed.

Lemma Traverse_ready c low :
  graph_ready c -> exists paths, Traverse c tenantID (mkTraversalQuery low "outbound" [sameAsLabel] 1 None) = Ok paths /\
    forall p hi keep e, p ∈ paths -> live_edge hi keep p = Some e -> e_ID e <> "".
Proof.
  intros (g & Hg & _). unfold Traverse, read_graph. rewrite Hg. cbn [AsOf]. eexists. split; [reflexivity|]. intros p hi keep e Hp Hl.
  unfold traverse in Hp. destruct (nodeByID g _); [|by apply not_elem_of_nil in Hp]. apply list_elem_of_fmap in Hp as (t & -> & _).
  unfold live_edge in Hl. destruct (p_Nodes _) as [|? [|? [|]]]; try done. destruct (p_Edges _) as [|e' [|]] eqn:He; try done.
  destruct (negb _); [done|]. destruct (_ || _); [done|]. injection Hl as ->. cbn in He.
  destruct t.2 as [|i [|]]; try done. injection He as <-. apply decodeEdge_named.
Qed.

(** ** Projections *)

Lemma settled_trans w1 w2 w3 : settled w1 w2 -> settled w2 w3 -> settled w1 w3.
Proof. intros [A1 B1 _] [A2 B2 C2]. split; [congruence..|done]. Qed.

Lemma completes_ends res res' b h w : graph_ready (w_graphs w) -> quiet res res' -> completes (ends res' b None) h res w.
Proof. intros Hg Hq. exists res', b, w. by split_and!. Qed.

Lemma completes_do {X} (c : call X) k h res w x w1 :
  respond ctx tenantID out w c = (x, w1) -> timely h c w = true -> held_after c x h = h -> settled w w1 -> completes (k x) h res w1 ->
  completes (Do c k) h res w.
Proof.
  intros Hr Ht Hh Hs (res' & b & w' & Hy & Hs' & Hq). exists res', b, w'. split_and!; [|by eapply settled_trans|done].
  eapply yields_do; [done|done|]. by rewrite Hh.
Qed.

Lemma completes_client {A} (c : call (result call_error A)) (f : memClient -> result graph_error A * memClient) k h res w :
  respond ctx tenantID out w c = on_client f w -> timely h c w = true -> (forall x, held_after c x h = h) ->
  graph_ready (f (w_graphs w)).2 -> completes (k (map_err GraphError (f (w_graphs w)).1)) h res (mkWorld (w_store w) (f (w_graphs w)).2 (w_clock w)) ->
  completes (Do c k) h res w.
Proof.
  intros Hr Ht Hh Hg Hk. eapply completes_do; [|done|apply Hh| |exact Hk]; [|by split]. rewrite Hr. unfold on_client. by destruct (f (w_graphs w)).
Qed.

Lemma confirm_completes p u e res rest w :
  graph_ready (w_graphs w) -> w_clock w < u -> edge_valid (pr_Low p) (pr_High p) e -> e_Label e = sameAsLabel ->
  (forall b w1, settled w w1 -> completes (rest b) (Some (p, u)) res w1) -> completes (confirm p e res rest) (Some (p, u)) res w.
Proof.
  intros Hg Hu Hv Hl Hrest. unfold confirm. case_bool_decide; [|by apply Hrest].
  destruct (CreateEdge_ready (w_graphs w) (pr_Low p) (pr_High p) e Hg Hv Hl) as [Hg' Ha].
  apply (completes_client _ (fun c => CreateEdge c tenantID (pr_Low p) (pr_High p) e)); [done|by apply Z.ltb_lt|done|done|].
  destruct (CreateEdge _ _ _ _ _).1 as [v|x]; cbn [map_err]; [by apply Hrest|]. destruct (node_not_found (GraphError x)) eqn:Hn.
  - apply completes_ends; [done|]. by destruct res.
  - destruct Ha as [?| ->]; [congruence|]. by apply Hrest.
Qed.

Lemma supersede_others_completes p u keep paths b res w :
  graph_ready (w_graphs w) -> w_clock w < u -> 0 < pr_DecidedAt p ->
  (forall x e, x ∈ paths -> live_edge (pr_High p) keep x = Some e -> e_ID e <> "") ->
  completes (supersede_others p keep paths b res) (Some (p, u)) res w.
Proof.
  revert b w. induction paths as [|x paths IH]; intros b w Hg Hu Hd Hp; cbn [supersede_others]; [by apply completes_ends|].
  destruct (live_edge (pr_High p) keep x) as [e|] eqn:Hx.
  2: { apply IH; [done..|]. intros y e' Hy. apply Hp. by right. }
  set (at_ := if After _ _ then _ else _). assert (at_ <> 0) as Hat.
  { unfold at_, After. destruct (Z.ltb_spec (pr_DecidedAt p) (e_ValidFrom e)); lia. }
  destruct (SupersedeFact_ready (w_graphs w) (e_ID e) at_ Hg) as [Hg' [v Hv]]; [by apply (Hp x); [left|]|done|].
  apply (completes_client _ (fun c => SupersedeFact c tenantID (mkSupersedeRequest "" (e_ID e) at_ ""))); [done|by apply Z.ltb_lt|done|done|].
  rewrite Hv. cbn [map_err]. apply IH; [done..|]. intros y e' Hy. apply Hp. by right.
Qed.

Lemma projectHuman_completes p u res w :
  graph_ready (w_graphs w) -> w_clock w < u -> 0 < pr_DecidedAt p -> edge_valid (pr_Low p) (pr_High p) (human_edge p) ->
  completes (projectHuman p res) (Some (p, u)) res w.
Proof.
  intros Hg Hu Hd Hv. apply confirm_completes; [done..|]. intros b w1 [Hs Hc Hg1].
  destruct (Traverse_ready (w_graphs w1) (pr_Low p) Hg1) as (paths & Hp & Hids).
  apply (completes_client _ (fun c => (Traverse c tenantID (mkTraversalQuery (pr_Low p) "outbound" [sameAsLabel] 1 None), c)));
    [done|done|done|done|].
  cbn [fst snd]. rewrite Hp. cbn [map_err]. apply supersede_others_completes; [done|cbn; lia|done|]. intros x e. apply Hids.
Qed.

Lemma projectPanel_completes p u res w :
  graph_ready (w_graphs w) -> w_clock w < u -> 0 < pr_DecidedAt p -> edge_valid (pr_Low p) (pr_High p) (panel_edge p) ->
  pr_CandidateEdgeID p <> "" -> completes (projectPanel p res) (Some (p, u)) res w.
Proof.
  intros Hg Hu Hd Hv Hid. apply confirm_completes; [done..|]. intros b w1 [Hs Hc Hg1].
  apply (completes_client _ (fun c => (GetEdge c tenantID (pr_CandidateEdgeID p), c))); [done|done|done|done|].
  cbn [fst snd]. destruct (GetEdge_ready (w_graphs w1) (pr_CandidateEdgeID p) Hg1 Hid) as [[e ->]|(x & -> & Hx)]; cbn [map_err].
  - destruct (e_ValidTo (ewe_Edge e)); [by apply completes_ends|].
    destruct (SupersedeFact_ready (w_graphs w1) (pr_CandidateEdgeID p) (pr_DecidedAt p) Hg1 Hid ltac:(lia)) as [Hg2 [v Hv2]].
    apply (completes_client _ (fun c => SupersedeFact c tenantID (mkSupersedeRequest "" (pr_CandidateEdgeID p) (pr_DecidedAt p) "")));
      [done|apply Z.ltb_lt; cbn; lia|done|done|].
    cbn [w_graphs]. rewrite Hv2. by apply completes_ends.
  - rewrite Hx. by apply completes_ends.
Qed.

(** ** The edges of a projection *)

Lemma sameAs_valid : valid_label sameAsLabel.
Proof. by apply (CheckLabel_ok "label"). Qed.

Lemma human_edge_valid p : pr_Low p <> "" -> pr_High p <> "" -> pr_DecidedAt p <> 0 -> edge_valid (pr_Low p) (pr_High p) (human_edge p).
Proof.
  intros Hl Hh Hd. split; [exact sameAs_valid|by intros k Hk|done..].
Qed.

Lemma panel_edge_valid p : pr_Low p <> "" -> pr_High p <> "" -> pr_DecidedAt p <> 0 -> edge_valid (pr_Low p) (pr_High p) (panel_edge p).
Proof.
  intros Hl Hh Hd. split; [exact sameAs_valid| |done..].
  intros k Hk. cbn in Hk. rewrite !dom_insert_L, dom_singleton_L in Hk. rewrite !elem_of_union, !elem_of_singleton in Hk.
  assert (forall s, CheckIdentifier "property key" s = Ok tt -> bool_decide (s ∈ dom reservedEdgeKeys) = false -> identifier s /\ s ∉ dom reservedEdgeKeys) as Hc.
  { intros s Hs Hd'. split; [by apply (CheckIdentifier_ok "property key")|by apply bool_decide_eq_false in Hd']. }
  destruct Hk as [->|[->| ->]]; apply Hc; vm_compute; reflexivity.
Qed.

(** ** Calls of the store *)

Lemma inTx_served {A} d (body : vdb -> result store_failure (A * vdb)) :
  FromContext ctx = Ok tenantID -> default false (vd_tenants d !! tenantID) = false ->
  inTx ctx tenantID d body = match body d with Ok (a, d') => (Ok a, d') | Err e => (Err e, d) end.
Proof. intros Hc Ht. unfold inTx. by rewrite Hc, bool_decide_eq_true_2, Ht. Qed.

Lemma claim_free p until now d r :
  FromContext ctx = Ok tenantID -> default false (vd_tenants d !! tenantID) = false -> now < until ->
  verdicts d !! (tenantID, pr_Key p) = Some r -> holds_verdict p r = true -> waiting now r = true ->
  ClaimProjection ctx tenantID p until now d = (Ok ClaimAcquired, put_row d (pr_Key p) (set_claimed r (Some (micro until)))).
Proof.
  intros Hc Ht Hu Hr Hv Hw. unfold ClaimProjection, After. rewrite (proj2 (Z.ltb_lt _ _) Hu). cbn [negb]. rewrite inTx_served by done.
  unfold update_row. unfold waiting in Hw. apply andb_true_iff in Hw as [[_ Ha]%andb_true_iff Hf]. by rewrite Hr, Hv, Ha, Hf.
Qed.

Lemma mark_claimed p until d r :
  FromContext ctx = Ok tenantID -> default false (vd_tenants d !! tenantID) = false ->
  verdicts d !! (tenantID, pr_Key p) = Some r -> claimed r = Some (micro until) -> holds_verdict p r = true ->
  MarkProjected ctx tenantID p until d = (Ok true, put_row d (pr_Key p) (set_claimed (set_applied r true) None)).
Proof.
  intros Hc Ht Hr Hcl Hv. unfold MarkProjected. rewrite inTx_served by done. unfold update_row, claim_is. rewrite Hr, bool_decide_eq_true_2 by done.
  by rewrite Hv.
Qed.

Lemma projection_fields k r p :
  projection (k, r) = Some p -> pr_Key p = k /\ pr_Low p = low r /\ pr_High p = high r /\ pr_CandidateEdgeID p = candidate r /\
    pr_DeterminationType p = ru_type (rl r) /\ pr_Status p = ru_status (rl r) /\ ru_decided (rl r) = Some (pr_DecidedAt p).
Proof.
  unfold projection. intros (c & _ & Hp)%bind_Some. apply bind_Some in Hp as (u & Hu & Hp). apply bind_Some in Hp as (ev & _ & Hp).
  injection Hp as <-. done.
Qed.

(** A projection of a waiting row, alone. *)
Lemma project_alone p r res w :
  calm w -> row_of tenantID w (pr_Key p) = Some r -> projection (pr_Key p, r) = Some p -> projectable (pr_Key p) r ->
  waiting (w_clock w) r = true ->
  exists res' w', yields (project cfg p res) None w (res', Ok true) None w' /\ quiet res res' /\
    w_store w' = put_row (w_store w) (pr_Key p) (settle r) /\ w_clock w' = w_clock w /\ graph_ready (w_graphs w').
Proof.
  intros [Hctx Htn Hle Hg] Hr Hp Hpb Hw. destruct (projection_fields _ _ _ Hp) as (_ & Hl & Hh & Hcd & Hty & Hst & Hat).
  destruct (pb_decided _ _ Hpb _ Hat) as [Hpos Hmi]. set (u := micro (w_clock w + LeaseDuration cfg)) in *.
  assert (micro u = u) as Hmu by apply micro_idem.
  assert (holds_verdict p r = true) as Hv by (apply bool_decide_eq_true; by rewrite Hty, Hst, Hmi).
  set (w1 := mkWorld (put_row (w_store w) (pr_Key p) (set_claimed r (Some u))) (w_graphs w) (w_clock w)).
  assert (completes (if bool_decide (pr_DeterminationType p = DeterminationHuman) then projectHuman p res else projectPanel p res) (Some (p, u)) res w1)
    as (res' & b & w2 & Hy & [Hs2 Hc2 Hg2] & Hq).
  { case_bool_decide as Hd.
    - apply projectHuman_completes; [done..|]. apply human_edge_valid; [rewrite Hl|rewrite Hh|lia]; apply Hpb.
    - apply projectPanel_completes; [done|done|done| |].
      + apply panel_edge_valid; [rewrite Hl|rewrite Hh|lia]; apply Hpb.
      + rewrite Hcd. apply Hpb. unfold by_human. rewrite <- Hty. by apply bool_decide_eq_false. }
  exists res', (mkWorld (put_row (w_store w) (pr_Key p) (settle r)) (w_graphs w2) (w_clock w2)). split_and!; [|done|done|exact Hc2|exact Hg2].
  unfold project. eapply yields_do; [done|done|]. cbn [held_after].
  unfold must. eapply (yields_do _ _ _ _ (Ok ClaimAcquired) w1); [|by apply Z.ltb_lt|].
  { cbn [respond]. unfold on_store. rewrite (claim_free p u (w_clock w) _ r) by done. by rewrite Hmu. }
  cbn [held_after]. eapply yields_bind; [exact Hy|]. cbn [pj_err].
  unfold and_then. eapply (yields_bind _ _ _ _ (res', Ok tt)); [|apply yields_ret]. unfold markProjected, must.
  eapply (yields_do _ _ _ _ (Ok true)); [|done|apply yields_ret]. cbn [respond]. unfold on_store. rewrite Hs2.
  rewrite (mark_claimed p u _ (set_claimed r (Some u))); [|done|done|by cbn; rewrite lookup_insert_eq|by cbn; rewrite Hmu|done].
  cbn [map_err fst snd]. do 2 f_equal. unfold put_row, set_verdicts. cbn. by rewrite insert_insert_eq.
Qed.

(** ** Batches *)

Lemma put_row_of w d k r k' gs t :
  w_store w = put_row d k r -> row_of tenantID w k' = if decide (k' = k) then Some r else row_of tenantID (mkWorld d gs t) k'.
Proof.
  unfold row_of. intros ->. cbn. destruct (decide (k' = k)) as [->|]; [by rewrite lookup_insert_eq|]. rewrite lookup_insert_ne; congruence.
Qed.

Lemma put_row_calm w w' k r :
  calm w -> w_store w' = put_row (w_store w) k r -> w_clock w' = w_clock w -> graph_ready (w_graphs w') -> calm w'.
Proof. intros [] Hs Hc Hg. split; [done|by rewrite Hs|by rewrite Hc|done]. Qed.

Lemma settle_waits_not t r : waiting t (settle r) = false.
Proof. unfold waiting. cbn. by rewrite andb_false_r. Qed.

Lemma project_batch_alone ps res w :
  calm w -> NoDup (pr_Key <$> ps) -> Forall (pending w) ps ->
  exists res' w', yields (project_batch cfg ps res) None w (res', Ok tt) None w' /\
    Recovered res' = Recovered res + Z.of_nat (length ps) /\ Fenced res' = Fenced res /\ Busy res' = Busy res /\
    calm w' /\ w_clock w' = w_clock w /\
    forall k, row_of tenantID w' k = if decide (k ∈ pr_Key <$> ps) then settle <$> row_of tenantID w k else row_of tenantID w k.
Proof.
  revert res w. induction ps as [|p ps IH]; intros res w Hcalm Hnd Hps; cbn [project_batch].
  - exists res, w. split_and!; try done. cbn. lia.
  - rewrite fmap_cons in Hnd. apply NoDup_cons in Hnd as [Hp Hnd]. apply Forall_cons in Hps as [(r & Hr & Hpr & Hpb & Hw) Hps].
    destruct (project_alone p r res w Hcalm Hr Hpr Hpb Hw) as (res1 & w1 & Hy & (Hq1 & Hq2 & Hq3) & Hs1 & Hc1 & Hg1).
    pose proof (put_row_of w1 (w_store w) (pr_Key p) (settle r)) as Hrow.
    assert (forall k, row_of tenantID w1 k = if decide (k = pr_Key p) then Some (settle r) else row_of tenantID w k) as Hrow1.
    { intros k. rewrite (Hrow k (w_graphs w) (w_clock w) Hs1). by destruct w. }
    destruct (IH (count CRecovered res1) w1) as (res2 & w2 & Hy2 & Hq1' & Hq2' & Hq3' & Hcalm2 & Hc2 & Hrow2).
    + by eapply put_row_calm.
    + done.
    + rewrite Forall_forall in Hps |- *. intros q Hq. destruct (Hps q Hq) as (rq & Hrq & ? & ? & Hwq). exists rq.
      rewrite Hrow1, decide_False, Hc1; [done|]. intros Heq. apply Hp. rewrite <- Heq. by apply list_elem_of_fmap_2.
    + exists res2, w2. split_and!; [|rewrite Hq1'; destruct res1; cbn in *; lia|rewrite Hq2'; by destruct res1|rewrite Hq3'; by destruct res1|done|congruence|].
      * unfold and_then. eapply yields_bind; [exact Hy|exact Hy2].
      * intros k. rewrite Hrow2, fmap_cons. rewrite !Hrow1. destruct (decide (k = pr_Key p)) as [->|Hk].
        -- rewrite decide_False by done. rewrite decide_True by left. by rewrite Hr.
        -- destruct (decide (k ∈ pr_Key <$> ps)) as [Hin|Hin].
           ++ by rewrite decide_True by (by right).
           ++ rewrite decide_False; [done|]. by rewrite elem_of_cons; intros [|].
Qed.

(** ** The queue *)

Lemma elem_of_queue w k r : (k, r) ∈ queue w <-> row_of tenantID w k = Some r /\ waiting (w_clock w) r = true.
Proof. unfold queue. rewrite list_elem_of_In, List.filter_In, <- list_elem_of_In. by rewrite elem_of_rows_of. Qed.

Lemma queue_NoDup w : NoDup (queue w).*1.
Proof. apply NoDup_List_filter_fst, NoDup_rows_of. Qed.

(** What the store hands out: the first of the queue, in the order of their decisions. *)
Lemma Unprojected_batch w :
  calm w -> all_projectable w ->
  let first := take (Z.to_nat projectBatch) (order_by by_decided (queue w)) in
  exists ps, Unprojected ctx tenantID projectBatch (w_clock w) (w_store w) = (Ok ps, w_store w) /\
    pr_Key <$> ps = first.*1 /\ Forall (pending w) ps.
Proof.
  intros Hcalm Hall first. assert (Forall (fun kr => row_of tenantID w kr.1 = Some kr.2 /\ waiting (w_clock w) kr.2 = true) first) as Hfirst.
  { apply Forall_forall. intros [k r] Hk. apply elem_of_queue. rewrite <- (order_by_perm by_decided). eapply subseteq_take; exact Hk. }
  assert (is_Some (mapM projection first)) as [ps Hm].
  { apply mapM_is_Some. eapply Forall_impl; [exact Hfirst|]. intros [k r] [Hr Hw]. by apply (Hall k r). }
  exists ps. split; [|split].
  - unfold Unprojected. cbn [Z.leb]. rewrite inTx_served by apply Hcalm. change (mapM projection _) with (mapM projection first). by rewrite Hm.
  - apply mapM_Some in Hm. clear Hfirst. induction Hm as [|[k r] p kr' ps' Hp _ IH]; [done|]. cbn [fmap list_fmap]. rewrite IH.
    apply projection_fields in Hp as [-> _]. done.
  - apply mapM_Some in Hm. induction Hm as [|[k r] p kr' ps' Hp _ IH]; [constructor|]. apply Forall_cons in Hfirst as [[Hr Hw] Hfirst].
    constructor; [|by apply IH]. pose proof (projection_fields _ _ _ Hp) as [Hk _]. exists r. rewrite Hk. by split_and!; [|..|apply (Hall k r)|].
Qed.

(** The rest of the queue, once a batch is projected. *)
Lemma queue_rest w w' n :
  let L := order_by by_decided (queue w) in
  w_clock w' = w_clock w ->
  (forall k, row_of tenantID w' k = if decide (k ∈ (take n L).*1) then settle <$> row_of tenantID w k else row_of tenantID w k) ->
  queue w' ≡ₚ drop n L.
Proof.
  intros L Hc Hrow. assert (NoDup L.*1) as HL by (unfold L; rewrite order_by_perm; apply queue_NoDup).
  assert (forall k r, (k, r) ∈ L <-> row_of tenantID w k = Some r /\ waiting (w_clock w) r = true) as Hmem.
  { intros k r. unfold L. rewrite order_by_perm. apply elem_of_queue. }
  rewrite <- (take_drop n L) in HL. rewrite fmap_app in HL. apply NoDup_app in HL as (_ & Hdis & Hdr).
  apply NoDup_Permutation; [by eapply NoDup_fmap_1, queue_NoDup|by eapply NoDup_fmap_1|]. intros [k r]. rewrite elem_of_queue, Hc, Hrow.
  destruct (decide (k ∈ (take n L).*1)) as [Hk|Hk].
  - split.
    + intros [Hr Hw]. destruct (row_of tenantID w k) as [r0|]; [|done]. injection Hr as <-. by rewrite settle_waits_not in Hw.
    + intros Hd. destruct (Hdis k Hk). by apply (list_elem_of_fmap_2 fst) in Hd.
  - rewrite <- Hmem, <- (take_drop n L) at 1. rewrite elem_of_app. split; [|by right]. intros [Ht|]; [|done].
    destruct Hk. by apply (list_elem_of_fmap_2 fst) in Ht.
Qed.

Lemma recover_alone fuel res w :
  calm w -> all_projectable w -> (length (queue w) < 100 * fuel)%nat ->
  exists res' w', yields (recoverProjections fuel cfg res) None w (res', Ok tt) None w' /\
    Recovered res' = Recovered res + Z.of_nat (length (queue w)) /\ Fenced res' = Fenced res /\ Busy res' = Busy res /\
    forall k, row_of tenantID w' k = drained w <$> row_of tenantID w k.
Proof.
  revert res w. induction fuel as [|fuel IH]; intros res w Hcalm Hall Hlen; [lia|].
  destruct (Unprojected_batch w Hcalm Hall) as (ps & Hun & Hkeys & Hps). set (L := order_by by_decided (queue w)) in *.
  assert (length L = length (queue w)) as HlenL by (unfold L; by rewrite order_by_perm).
  change (Z.to_nat projectBatch) with 100%nat in Hkeys.
  assert (length ps = length (take 100 L)) as Hlps by (rewrite <- (length_fmap pr_Key), Hkeys; by rewrite length_fmap).
  rewrite length_take in Hlps.
  destruct (project_batch_alone ps res w Hcalm) as (res1 & w1 & Hy & Hq1 & Hq2 & Hq3 & Hcalm1 & Hc1 & Hrow1); [|done|].
  { rewrite Hkeys, fmap_take. eapply sublist_NoDup; [|apply sublist_take]. unfold L. rewrite order_by_perm. apply queue_NoDup. }
  rewrite Hkeys in Hrow1. pose proof (queue_rest w w1 100 Hc1 Hrow1) as Hrest. fold L in Hrest.
  assert (forall k r, (k, r) ∈ L <-> row_of tenantID w k = Some r /\ waiting (w_clock w) r = true) as Hmem.
  { intros k r. unfold L. rewrite order_by_perm. apply elem_of_queue. }
  assert (forall k r, row_of tenantID w k = Some r -> k ∈ (take 100 L).*1 -> waiting (w_clock w) r = true) as Hfirst.
  { intros k r Hr ([k' r'] & Hk & Hin)%list_elem_of_fmap. cbn in Hk. subst k'.
    assert ((k, r') ∈ L) as [Hr' Hw]%Hmem by (eapply subseteq_take; exact Hin). congruence. }
  destruct (length ps <? 100)%nat eqn:Hn.
  - apply Nat.ltb_lt in Hn. assert (take 100 L = L) as Htk by (apply take_ge; lia). exists res1, w1. split_and!; [|lia|done|done|].
    + eapply yields_do; [done|done|]. unfold must. eapply (yields_do _ _ _ _ (Ok ps) w); [|done|].
      { cbn [respond]. unfold on_store. rewrite Hun. by destruct w. }
      unfold and_then. eapply yields_bind; [exact Hy|]. cbv beta iota.
      rewrite (proj2 (Z.ltb_lt _ _)), (proj2 (Z.eqb_eq _ _)) by (unfold projectBatch; lia). apply yields_ret.
    + intros k. rewrite Hrow1. destruct (row_of tenantID w k) as [r|] eqn:Hr; [|by destruct (decide _)]. cbn [fmap option_fmap option_map]. unfold drained.
      destruct (waiting (w_clock w) r) eqn:Hw.
      * rewrite decide_True; [done|]. rewrite Htk. apply (list_elem_of_fmap_2 fst _ (k, r)). by apply Hmem.
      * rewrite decide_False; [done|]. intros Hk. specialize (Hfirst k r Hr Hk). congruence.
  - apply Nat.ltb_ge in Hn. assert (length (queue w1) = (length (queue w) - 100)%nat) as Hlen1 by (rewrite Hrest, length_drop; lia).
    destruct (IH res1 w1 Hcalm1) as (res2 & w2 & Hy2 & Hq1' & Hq2' & Hq3' & Hrow2); [|lia|].
    { intros k r Hr Hw. rewrite Hrow1 in Hr. rewrite Hc1 in Hw. destruct (decide _); [|by apply (Hall k r)].
      destruct (row_of tenantID w k) as [r0|]; [|done]. injection Hr as <-. by rewrite settle_waits_not in Hw. }
    exists res2, w2. split_and!; [|lia|congruence|congruence|].
    + eapply yields_do; [done|done|]. unfold must. eapply (yields_do _ _ _ _ (Ok ps) w); [|done|].
      { cbn [respond]. unfold on_store. rewrite Hun. by destruct w. }
      unfold and_then. eapply yields_bind; [exact Hy|]. cbv beta iota.
      rewrite (proj2 (Z.ltb_ge _ _)) by (unfold projectBatch; lia). exact Hy2.
    + intros k. rewrite Hrow2, Hrow1. destruct (row_of tenantID w k) as [r|] eqn:Hr; [|by destruct (decide _)]. cbn [fmap option_fmap option_map].
      destruct (decide _) as [Hk|Hk]; cbn [fmap option_fmap option_map]; unfold drained; rewrite Hc1; [|done].
      by rewrite settle_waits_not, (Hfirst k r Hr Hk).
Qed.

(** C6. A projection pass that runs alone empties the queue. If the tenant is
    served, no other claim is live and every waiting verdict decodes, Project
    ends without an error after a loop per hundred verdicts, however many wait:
    it counts each of them once as recovered and none as fenced or busy, every
    decided pair is then recorded as projected without a claim, and the graph
    says what each of them says. No other pair changes. *)
Theorem project_drains fuel w :
  calm w -> good tenantID w -> applied_agree tenantID w -> all_projectable w ->
  (forall k r t, row_of tenantID w k = Some r -> claimed r = Some t -> t <= micro (w_clock w)) ->
  (length (queue w) < 100 * fuel)%nat ->
  exists res w', yields (Project cfg fuel) None w (res, Ok tt) None w' /\
    Recovered res = Z.of_nat (length (queue w)) /\ Fenced res = 0 /\ Busy res = 0 /\
    forall k r, row_of tenantID w k = Some r ->
      if closed (ru_status (rl r)) then
        exists r', row_of tenantID w' k = Some r' /\ rl r' = rl r /\ applied r' = true /\ agrees (tenant_graph tenantID w') r' /\
          (applied r = false -> claimed r' = None)
      else row_of tenantID w' k = Some r.
Proof.
  intros Hcalm Hgood Hag Hall Hfree Hlen. destruct (recover_alone fuel no_result w Hcalm Hall Hlen) as (res & w' & Hy & Hq1 & Hq2 & Hq3 & Hrow).
  exists res, w'. split_and!; [exact Hy|done..|]. intros k r Hr. specialize (Hrow k). rewrite Hr in Hrow. cbn in Hrow.
  assert (applied_agree tenantID w') as Hag'.
  { pose proof (alone_pass (T := punctually) ctx tenantID out RunEnded (Project cfg fuel) w (pass_project tenantID cfg fuel)) as Hst.
    unfold yields in Hy. change (recoverProjections fuel cfg no_result) with (Project cfg fuel) in Hy. rewrite Hy in Hst. specialize (Hst eq_refl).
    apply (steps_inv (T := punctually) _ _ None) in Hst; [by apply Hst|]. apply inv_start; [done|by intros _]. }
  unfold drained in Hrow. destruct (waiting (w_clock w) r) eqn:Hw.
  - pose proof Hw as Hw'. unfold waiting in Hw'. apply andb_true_iff in Hw' as [[-> _]%andb_true_iff _]. exists (settle r).
    split_and!; [done|done|done|by apply (Hag' k)|done].
  - destruct (closed (ru_status (rl r))) eqn:Hc; [|done]. exists r. split; [done|]. split; [done|].
    assert (applied r = true) as Hap.
    { unfold waiting in Hw. rewrite Hc in Hw. destruct (applied r); [done|]. cbn in Hw. destruct (claimed r) as [t|] eqn:Ht; [|done].
      apply Z.leb_gt in Hw. specialize (Hfree k r t Hr Ht). lia. }
    split_and!; [done|by apply (Hag' k)|congruence].
Qed.
End draining.

(** * The tenant of the examples *)

Module DrainingSample.
Import AdjudicationSample.
#[local] Existing Instances sample_postgres sample_jsonb sample_upper sample_lower.

Lemma sample_calm : calm (example_ctx acme) acme sample_config sample_world.
Proof.
  split; [reflexivity|reflexivity|vm_compute; reflexivity|].
  destruct (graph sample_graphs acme) as [g|] eqn:Hg; [|vm_compute in Hg; discriminate Hg]. exists g. split; [exact Hg|].
  intros kind Hk. vm_compute in Hg. injection Hg as <-. vm_compute in Hk. by injection Hk as <-.
Qed.

Lemma sample_projectable : all_projectable acme sample_world.
Proof.
  intros k r [[-> ->]|[-> ->]]%queue_rows _; (split; [|discriminate|discriminate|discriminate|]).
  - vm_compute. by eexists.
  - intros t [= <-]. by vm_compute.
  - vm_compute. by eexists.
  - intros t [= <-]. by vm_compute.
Qed.

Lemma project_drains_witness : exists res w',
  yields (example_ctx acme) acme silent (Project sample_config 1) None sample_world (res, Ok tt) None w' /\ Recovered res = 2.
Proof.
  destruct (project_drains (example_ctx acme) acme silent sample_config 1 sample_world) as (res & w' & Hy & Hr & _).
  - exact sample_calm.
  - exact queue_good.
  - exact sample_agree.
  - exact sample_projectable.
  - intros k r t [[-> ->]|[-> ->]]%queue_rows; discriminate.
  - vm_compute. lia.
  - exists res, w'. split; [exact Hy|]. rewrite Hr. vm_compute. reflexivity.
Defined.
End DrainingSample.
