(* ===== verification/Abandoned.v ===== *)
(** The set of abandoned collections a worker remembers:
    [abandonedSet] of [internal/worker/abandoned.go], a map from collections
    to expiry times and a FIFO of the same collections, oldest first.

    Times are nanoseconds since the zero [time.Time] ([Z], as in Timefmt); the
    [now] function of the source is the time an operation is given. [onResize]
    feeds a gauge: an operation returns the sizes it reports. Taking the front
    of an empty FIFO is an index out of range in Go, here [None]. *)

From S2P Require Import Prelude Regexp Tenant Subjects.

Open Scope Z_scope.

(** * Definitions *)

Record abandonedSet := mkSet {
  ttl : Z;
  limit : Z;
  expires : gmap AbandonedCollection Z;
  order : list AbandonedCollection;   (* oldest first *)
}.

Definition newAbandonedSet (ttl limit : Z) : abandonedSet := mkSet ttl limit ∅ [].

(** [s.expires[c]]: the zero time for an absent key. *)
Definition expiry (m : gmap AbandonedCollection Z) (c : AbandonedCollection) : Z :=
  default 0 (m !! c).

Definition popOldest (s : abandonedSet) : option abandonedSet :=
  match order s with
  | [] => None
  | c :: rest => Some (mkSet (ttl s) (limit s) (delete c (expires s)) rest)
  end.

(** The loop pops from the front, so it is structural on the FIFO. *)
Fixpoint prune_loop (now : Z) (m : gmap AbandonedCollection Z) (l : list AbandonedCollection)
  : gmap AbandonedCollection Z * list AbandonedCollection :=
  match l with
  | c :: rest => if negb (now <? expiry m c) then prune_loop now (delete c m) rest else (m, l)
  | [] => (m, [])
  end.

Definition pruneExpired (now : Z) (s : abandonedSet) : abandonedSet :=
  let '(m, l) := prune_loop now (expires s) (order s) in mkSet (ttl s) (limit s) m l.

Definition size (s : abandonedSet) : nat := length (order s).

Definition reportResize (before : nat) (s : abandonedSet) : list nat :=
  if bool_decide (size s <> before) then [size s] else [].

(** [add]: the new set, the number of collections it holds, the sizes reported. *)
Definition add (now : Z) (c : AbandonedCollection) (s : abandonedSet)
  : option (abandonedSet * nat * list nat) :=
  let before := size s in
  let s1 := pruneExpired now s in
  if bool_decide (is_Some (expires s1 !! c)) then Some (s1, size s1, reportResize before s1)
  else
    s2 ← (if limit s1 <=? Z.of_nat (size s1) then popOldest s1 else Some s1);
    let s3 := mkSet (ttl s2) (limit s2) (<[c := now + ttl s2]> (expires s2)) (order s2 ++ [c]) in
    Some (s3, size s3, reportResize before s3).

(** [contains]: the pruned set, the answer, the sizes reported. *)
Definition contains (now : Z) (c : AbandonedCollection) (s : abandonedSet)
  : abandonedSet * bool * list nat :=
  let s1 := pruneExpired now s in
  (s1, bool_decide (is_Some (expires s1 !! c)), reportResize (size s) s1).

(** * Runs

    One call of the set, at the time its clock read. *)
Inductive set_op :=
| OpAdd (c : AbandonedCollection)
| OpContains (c : AbandonedCollection).

Definition apply_op (s : abandonedSet) (e : Z * set_op) : option abandonedSet :=
  match e.2 with
  | OpAdd c => '(s', _, _) ← add e.1 c s; Some s'
  | OpContains c => let '(s', _, _) := contains e.1 c s in Some s'
  end.

Fixpoint run_ops (s : abandonedSet) (es : list (Z * set_op)) : option abandonedSet :=
  match es with
  | [] => Some s
  | e :: es' => s' ← apply_op s e; run_ops s' es'
  end.

(** The clock does not run backwards ([time.Now]'s monotonic reading). *)
Definition monotone (es : list (Z * set_op)) : Prop := StronglySorted (fun a b => a.1 <= b.1) es.

(** [c] was added at time [t] somewhere in [es]. *)
Definition added (es : list (Z * set_op)) (c : AbandonedCollection) (t : Z) : Prop :=
  (t, OpAdd c) ∈ es.

Definition is_add (e : Z * set_op) : Prop := match e.2 with OpAdd _ => True | OpContains _ => False end.
#[export] Instance is_add_dec e : Decision (is_add e).
Proof. destruct e as [? []]; apply _. Defined.

(** * The invariant *)

(** [wf now s]: the FIFO and the map hold the same collections, each once,
    insertion order is expiry order, no entry outlives [now + ttl], and the
    size bound holds. *)
Record wf (now : Z) (s : abandonedSet) : Prop := {
  wf_limit : 0 < limit s;
  wf_nodup : NoDup (order s);
  wf_dom : forall c, is_Some (expires s !! c) <-> c ∈ order s;
  wf_sorted : StronglySorted (fun a b => expiry (expires s) a <= expiry (expires s) b) (order s);
  wf_fresh : forall c x, expires s !! c = Some x -> x <= now + ttl s;
  wf_size : Z.of_nat (size s) <= limit s;
}.

Lemma expiry_Some m c x : m !! c = Some x -> expiry m c = x.
Proof. by unfold expiry; intros ->. Qed.

Lemma expiry_delete m a c : a <> c -> expiry (delete c m) a = expiry m a.
Proof. intros. unfold expiry. by rewrite lookup_delete_ne. Qed.

Lemma expiry_insert m a c x : a <> c -> expiry (<[c := x]> m) a = expiry m a.
Proof. intros. unfold expiry. by rewrite lookup_insert_ne. Qed.

(** Because insertion order is expiry order, popping expired entries from the
    front removes every expired entry and nothing else. *)
Lemma prune_loop_spec now m l :
  NoDup l -> (forall c, is_Some (m !! c) <-> c ∈ l) ->
  StronglySorted (fun a b => expiry m a <= expiry m b) l ->
  prune_loop now m l = (filter (fun p => now < p.2) m, filter (fun c => now < expiry m c) l).
Proof.
  revert m. induction l as [|c l IH]; intros m Hn Hd Hs; simpl.
  - replace m with (∅ : gmap AbandonedCollection Z); [by rewrite map_filter_empty|].
    symmetry. apply map_empty. intros c. apply eq_None_not_Some. rewrite Hd. set_solver.
  - apply NoDup_cons in Hn as [Hc Hn]. apply StronglySorted_inv in Hs as [Hs Hhd].
    rewrite Forall_forall in Hhd.
    assert (exists x, m !! c = Some x) as [x Hx] by (apply Hd; left).
    rewrite (expiry_Some _ _ _ Hx) in *. rewrite filter_cons.
    destruct (Z.ltb_spec now x) as [Hlt|Hge]; simpl.
    + rewrite decide_True by by rewrite (expiry_Some _ _ _ Hx).
      rewrite list_filter_all by (apply Forall_forall; intros a Ha; specialize (Hhd a Ha); lia).
      f_equal. symmetry. apply map_filter_id.
      intros a y Hy. simpl. assert (a ∈ c :: l) as [->|Ha]%elem_of_cons by (apply Hd; eauto); [congruence|].
      specialize (Hhd a Ha). rewrite (expiry_Some _ _ _ Hy) in Hhd. lia.
    + rewrite decide_False by (rewrite (expiry_Some _ _ _ Hx); lia).
      rewrite IH; [|done| |].
      * rewrite map_filter_delete_not by (intros y Hy; simpl; simplify_eq/=; lia). f_equal.
        apply filter_ext_in. intros a Ha. rewrite expiry_delete; [done|set_solver].
      * intros a. destruct (decide (a = c)) as [->|Hac].
        -- rewrite lookup_delete_eq. split; [by intros []|done].
        -- rewrite lookup_delete_ne, Hd by done. set_solver.
      * revert Hs. apply StronglySorted_ext. intros a b Ha Hb. rewrite !expiry_delete; set_solver.
Qed.

Lemma pruneExpired_spec now now' s :
  wf now' s ->
  pruneExpired now s = mkSet (ttl s) (limit s) (filter (fun p => now < p.2) (expires s))
                        (filter (fun c => now < expiry (expires s) c) (order s)).
Proof. intros [_ Hn Hd Hs _ _]. unfold pruneExpired. by rewrite prune_loop_spec. Qed.

Lemma pruneExpired_lookup now now' s c x :
  wf now' s -> expires (pruneExpired now s) !! c = Some x <-> expires s !! c = Some x /\ now < x.
Proof. intros Hw. rewrite (pruneExpired_spec _ _ _ Hw). simpl. by rewrite map_lookup_filter_Some. Qed.

Lemma expiry_filter now m c :
  is_Some (filter (fun p : AbandonedCollection * Z => now < p.2) m !! c) ->
  expiry (filter (fun p => now < p.2) m) c = expiry m c.
Proof.
  intros [x Hx]. rewrite (expiry_Some _ _ _ Hx).
  apply map_lookup_filter_Some in Hx as [Hx _]. by rewrite (expiry_Some _ _ _ Hx).
Qed.

Lemma pruneExpired_wf now now' s : now' <= now -> wf now' s -> wf now (pruneExpired now s).
Proof.
  intros Hle Hw. pose proof (pruneExpired_spec now now' s Hw) as E.
  destruct Hw as [Hl Hn Hd Hs Hf Hz]. rewrite E.
  assert (forall c, is_Some (filter (fun p : AbandonedCollection * Z => now < p.2) (expires s) !! c) <->
                    c ∈ filter (fun c => now < expiry (expires s) c) (order s)) as Hd'.
  { intros c. rewrite list_elem_of_filter, <- Hd. split.
    - intros [x [Hx Hlt]%map_lookup_filter_Some]. by rewrite (expiry_Some _ _ _ Hx).
    - intros [Hlt [x Hx]]. rewrite (expiry_Some _ _ _ Hx) in Hlt.
      exists x. by apply map_lookup_filter_Some. }
  constructor; simpl; try done.
  - by apply NoDup_filter.
  - eapply StronglySorted_ext, StronglySorted_filter, Hs.
    intros a b Ha Hb. rewrite !expiry_filter by by apply Hd'. done.
  - intros c x [Hx _]%map_lookup_filter_Some. apply Hf in Hx. lia.
  - unfold size in *. simpl. pose proof (length_filter (fun c => now < expiry (expires s) c) (order s)). lia.
Qed.

Lemma popOldest_wf now s c rest :
  wf now s -> order s = c :: rest ->
  popOldest s = Some (mkSet (ttl s) (limit s) (delete c (expires s)) rest) /\
  wf now (mkSet (ttl s) (limit s) (delete c (expires s)) rest).
Proof.
  intros [Hl Hn Hd Hs Hf Hz] E. unfold popOldest. rewrite E in *. split; [done|].
  apply NoDup_cons in Hn as [Hc Hn]. apply StronglySorted_inv in Hs as [Hs _].
  constructor; simpl; try done.
  - intros a. destruct (decide (a = c)) as [->|Hac].
    + rewrite lookup_delete_eq. split; [by intros []|done].
    + rewrite lookup_delete_ne, Hd by done. set_solver.
  - revert Hs. apply StronglySorted_ext. intros a b Ha Hb. rewrite !expiry_delete; set_solver.
  - intros a x [_ Hx]%lookup_delete_Some. eauto.
  - unfold size in *. rewrite E in Hz. simpl in *. lia.
Qed.

(** Appending a fresh entry with the latest expiry. *)
Lemma append_wf now s c :
  wf now s -> expires s !! c = None -> Z.of_nat (size s) < limit s ->
  wf now (mkSet (ttl s) (limit s) (<[c := now + ttl s]> (expires s)) (order s ++ [c])).
Proof.
  intros [Hl Hn Hd Hs Hf Hz] Hc Hlt.
  assert (c ∉ order s) as Hni by (rewrite <- Hd, Hc; by intros []).
  constructor; simpl; try done.
  - apply NoDup_app; split_and!; [done|set_solver|apply NoDup_singleton].
  - intros a. destruct (decide (a = c)) as [->|Hac].
    + rewrite lookup_insert_eq. split; [set_solver|eauto].
    + rewrite lookup_insert_ne, Hd by done. set_solver.
  - apply StronglySorted_app_2.
    + intros a b Ha ->%list_elem_of_singleton. rewrite expiry_insert by set_solver.
      apply Hd in Ha as [x Hx]. rewrite (expiry_Some _ _ _ Hx).
      unfold expiry. rewrite lookup_insert_eq. simpl. eauto.
    + revert Hs. apply StronglySorted_ext. intros a b Ha Hb. rewrite !expiry_insert by set_solver. done.
    + repeat constructor.
  - intros a x [[-> <-]|[_ Hx]]%lookup_insert_Some; [lia|eauto].
  - unfold size in *. simpl. rewrite length_app. simpl. lia.
Qed.

(** What [add] does to a well-formed set, on each of its branches. *)
Inductive add_case (now : Z) (c : AbandonedCollection) (s s' : abandonedSet) : Prop :=
| AddHeld : is_Some (expires (pruneExpired now s) !! c) -> s' = pruneExpired now s -> add_case now c s s'
| AddFresh s2 :
    expires (pruneExpired now s) !! c = None -> expires s2 !! c = None ->
    (s2 = pruneExpired now s \/
     limit s <= Z.of_nat (size (pruneExpired now s)) /\ popOldest (pruneExpired now s) = Some s2) ->
    s' = mkSet (ttl s) (limit s) (<[c := now + ttl s]> (expires s2)) (order s2 ++ [c]) ->
    add_case now c s s'.

Lemma add_spec now now' c s :
  now' <= now -> wf now' s ->
  exists s' r, add now c s = Some (s', size s', r) /\ add_case now c s s' /\ wf now s' /\
    ttl s' = ttl s /\ limit s' = limit s.
Proof.
  intros Hle Hw. pose proof (pruneExpired_wf _ _ _ Hle Hw) as Hp.
  assert (ttl (pruneExpired now s) = ttl s /\ limit (pruneExpired now s) = limit s) as [Et El]
    by by rewrite (pruneExpired_spec _ _ _ Hw).
  unfold add. case_bool_decide as Hheld.
  { eexists _, _. split; [done|]. split; [by left|done]. }
  rewrite <- eq_None_not_Some in Hheld.
  destruct (Z.leb_spec (limit (pruneExpired now s)) (Z.of_nat (size (pruneExpired now s)))) as [Hfull|Hroom].
  - destruct (order (pruneExpired now s)) as [|o rest] eqn:Eo.
    { unfold size in Hfull. rewrite Eo in Hfull. pose proof (wf_limit _ _ Hp). simpl in Hfull. lia. }
    destruct (popOldest_wf _ _ _ _ Hp Eo) as [Hpop Hw2]. rewrite Hpop. simpl.
    assert (delete o (expires (pruneExpired now s)) !! c = None) as Hno
      by (apply lookup_delete_None; auto).
    eexists _, _. split; [done|]. rewrite Et, El in *. split; [|split; [|done]].
    + eapply (AddFresh _ _ _ _ (mkSet _ _ _ _)); [done|exact Hno| |reflexivity].
      right. split; [exact Hfull|exact Hpop].
    + pose proof (append_wf _ _ c Hw2 Hno) as Ha. apply Ha. pose proof (wf_size _ _ Hp).
      unfold size in *. rewrite Eo, El in *. simpl in *. lia.
  - simpl. eexists _, _. split; [done|]. split; [|split; [|done]].
    + rewrite Et, El. by eapply AddFresh; [..|done]; [| |left].
    + by apply append_wf.
Qed.

Lemma wf_mono now now' s : now <= now' -> wf now s -> wf now' s.
Proof. intros Hle []. constructor; try done. intros c x Hx. specialize (wf_fresh0 _ _ Hx). lia. Qed.

Lemma new_wf now ttl limit : 0 < limit -> wf now (newAbandonedSet ttl limit).
Proof.
  intros. constructor; simpl; try done; try constructor.
  - intros [x Hx]. by rewrite lookup_empty in Hx.
  - by intros ?%elem_of_nil.
  - unfold size. simpl. lia.
Qed.

Lemma popOldest_lookup s s' d x :
  popOldest s = Some s' -> expires s' !! d = Some x -> expires s !! d = Some x.
Proof.
  unfold popOldest. destruct (order s); [done|]. intros [= <-]. simpl.
  by intros [_ ?]%lookup_delete_Some.
Qed.

(** One call from a well-formed set: it does not panic, keeps the set
    well-formed, and every entry it leaves was there or is the one it added. *)
Lemma apply_op_spec now' s e :
  now' <= e.1 -> wf now' s ->
  exists s', apply_op s e = Some s' /\ wf e.1 s' /\ ttl s' = ttl s /\ limit s' = limit s /\
    (forall d x, expires s' !! d = Some x ->
       expires s !! d = Some x /\ e.1 < x \/ e.2 = OpAdd d /\ x = e.1 + ttl s).
Proof.
  destruct e as [now [c|c]]; unfold apply_op; simpl; intros Hle Hw.
  - destruct (add_spec now now' c s Hle Hw) as (s' & r & -> & Hcase & Hw' & Ht & Hl). simpl.
    exists s'. split_and!; try done. intros d x Hx.
    destruct Hcase as [_ ->|s2 Hnone _ Hs2 ->].
    + left. by apply (pruneExpired_lookup _ _ _ _ _ Hw).
    + simpl in Hx. apply lookup_insert_Some in Hx as [[-> <-]|[_ Hx]]; [by right|left].
      apply (pruneExpired_lookup _ _ _ _ _ Hw).
      destruct Hs2 as [->|[_ Hpop]]; [done|by eapply popOldest_lookup].
  - exists (pruneExpired now s). split_and!; try done.
    + by eapply pruneExpired_wf.
    + by rewrite (pruneExpired_spec _ _ _ Hw).
    + by rewrite (pruneExpired_spec _ _ _ Hw).
    + intros d x Hx. left. by apply (pruneExpired_lookup _ _ _ _ _ Hw).
Qed.

(** [c], expiring at [x], is held with at most [k] younger entries. *)
Definition kept (k : nat) (c : AbandonedCollection) (x : Z) (s : abandonedSet) : Prop :=
  exists l1 l2, order s = l1 ++ c :: l2 /\ (length l2 <= k)%nat /\ expires s !! c = Some x.

Lemma prune_kept now' now k c x s :
  wf now' s -> now < x -> kept k c x s -> kept k c x (pruneExpired now s).
Proof.
  intros Hw Hlt (l1 & l2 & E & Hk & Hx). rewrite (pruneExpired_spec _ _ _ Hw).
  exists (filter (fun c => now < expiry (expires s) c) l1),
         (filter (fun c => now < expiry (expires s) c) l2). simpl. split_and!.
  - rewrite E, filter_app, filter_cons_True; [done|]. by rewrite (expiry_Some _ _ _ Hx).
  - pose proof (length_filter (fun c => now < expiry (expires s) c) l2). lia.
  - by apply map_lookup_filter_Some.
Qed.

Lemma pop_kept k c x s s' :
  limit s <= Z.of_nat (size s) -> Z.of_nat k + 1 < limit s -> NoDup (order s) ->
  popOldest s = Some s' -> kept k c x s -> kept k c x s'.
Proof.
  intros Hfull Hk Hn Hpop (l1 & l2 & E & Hl & Hx). unfold popOldest in Hpop. rewrite E in Hpop.
  unfold size in Hfull. rewrite E in Hfull, Hn. destruct l1 as [|o l1]; simpl in *.
  { lia. }
  injection Hpop as <-. exists l1, l2. simpl. split_and!; try done.
  rewrite lookup_delete_ne; [done|]. intros ->. apply NoDup_cons in Hn as [Hn _]. set_solver.
Qed.

Definition adds (es : list (Z * set_op)) : nat := length (filter is_add es).

(** A held entry survives a call before its expiry while fewer than [limit]
    adds have followed its own. *)
Lemma apply_op_kept now' s e s' k c x :
  wf now' s -> now' <= e.1 -> e.1 < x -> apply_op s e = Some s' ->
  Z.of_nat (k + adds [e]) < limit s -> kept k c x s -> kept (k + adds [e]) c x s'.
Proof.
  destruct e as [now [d|d]]; unfold apply_op, adds, filter; simpl; intros Hw Hle Hx Hs' Hk Hkept;
    pose proof (prune_kept now' now k c x s Hw Hx Hkept) as Hp.
  - destruct (add_spec now now' d s Hle Hw) as (s1 & r & E & Hcase & _). rewrite E in Hs'.
    injection Hs' as <-. destruct Hcase as [_ ->|s2 Hnone _ Hs2 ->].
    { destruct Hp as (l1 & l2 & ? & ? & ?). exists l1, l2. split_and!; [done|lia|done]. }
    assert (kept k c x s2) as (l1 & l2 & E2 & Hl2 & Hx2).
    { destruct Hs2 as [->|[Hfull Hpop]]; [done|].
      pose proof (pruneExpired_wf _ _ _ Hle Hw) as Hw1.
      assert (limit (pruneExpired now s) = limit s) as El by by rewrite (pruneExpired_spec _ _ _ Hw).
      eapply pop_kept; [| |by eapply wf_nodup|done|done]; rewrite El; lia. }
    exists l1, (l2 ++ [d]). simpl. split_and!.
    + by rewrite E2, <- app_assoc.
    + rewrite length_app. simpl. lia.
    + destruct (decide (d = c)) as [->|]; [|by rewrite lookup_insert_ne].
      exfalso. destruct Hp as (? & ? & _ & _ & Hp). congruence.
  - injection Hs' as <-. by rewrite Nat.add_0_r.
Qed.

Lemma run_ops_app s es1 es2 : run_ops s (es1 ++ es2) = run_ops s es1 ≫= fun s' => run_ops s' es2.
Proof.
  revert s. induction es1 as [|e es1 IH]; intros s; [done|]. simpl.
  destruct (apply_op s e); simpl; auto.
Qed.

Lemma run_ops_spec t0 now s0 es :
  wf t0 s0 -> monotone es -> t0 <= now -> Forall (fun e => t0 <= e.1 <= now) es ->
  exists s, run_ops s0 es = Some s /\ wf now s /\ ttl s = ttl s0 /\ limit s = limit s0 /\
    (forall d x, expires s !! d = Some x ->
       expires s0 !! d = Some x \/ exists t, added es d t /\ x = t + ttl s0).
Proof.
  revert t0 s0. induction es as [|e es IH]; intros t0 s0 Hw Hm Hnow Hall; simpl.
  { exists s0. split_and!; auto. by eapply wf_mono. }
  apply StronglySorted_inv in Hm as [Hm Hhd]. apply Forall_cons in Hall as [He Hall].
  destruct (apply_op_spec t0 s0 e ltac:(lia) Hw) as (s1 & -> & Hw1 & Et & El & Hx1). simpl.
  destruct (IH e.1 s1 Hw1 Hm ltac:(lia)) as (s & -> & Hw2 & Et2 & El2 & Hx2).
  { rewrite Forall_forall in *. intros e' He'. specialize (Hhd _ He'). specialize (Hall _ He'). lia. }
  exists s. split_and!; try done; try congruence. intros d x Hx.
  destruct (Hx2 d x Hx) as [Hx'|(t & Ht & ->)].
  - destruct (Hx1 d x Hx') as [[? _]|[Ea ->]]; [by left|right]. exists e.1.
    split; [|done]. unfold added. rewrite <- Ea, <- surjective_pairing. left.
  - right. exists t. rewrite Et. split; [by right|done].
Qed.

Lemma run_ops_kept t0 s0 es s k c x :
  wf t0 s0 -> monotone es -> Forall (fun e => t0 <= e.1 < x) es -> run_ops s0 es = Some s ->
  Z.of_nat (k + adds es) < limit s0 -> kept k c x s0 -> kept (k + adds es) c x s.
Proof.
  revert t0 s0 k. induction es as [|e es IH]; intros t0 s0 k Hw Hm Hall Hrun Hk Hkept; simpl in Hrun.
  { injection Hrun as <-. by rewrite Nat.add_0_r. }
  apply StronglySorted_inv in Hm as [Hm Hhd]. apply Forall_cons in Hall as [He Hall].
  assert (adds (e :: es) = adds [e] + adds es)%nat as Eadds
    by (unfold adds; rewrite !filter_cons; case_decide; done).
  rewrite Eadds in *. rewrite Nat.add_assoc in *.
  destruct (apply_op_spec t0 s0 e ltac:(lia) Hw) as (s1 & E1 & Hw1 & Et & El & _).
  rewrite E1 in Hrun. simpl in Hrun.
  eapply (IH e.1); try done; [..|rewrite El; lia|].
  - rewrite Forall_forall in *. intros e' He'. specialize (Hhd _ He'). specialize (Hall _ He'). lia.
  - eapply (apply_op_kept t0 s0 e); try done; lia.
Qed.

Lemma contains_held now now' c s :
  wf now' s -> (contains now c s).1.2 = true <-> exists x, expires s !! c = Some x /\ now < x.
Proof.
  intros Hw. unfold contains. simpl. rewrite bool_decide_eq_true. unfold is_Some.
  by setoid_rewrite (pruneExpired_lookup _ _ _ _ _ Hw).
Qed.

(** An add of a collection that no earlier add can still cover starts an
    entry with a full TTL. *)
Lemma fresh_add t0 t c s s' r :
  wf t0 s -> t0 <= t -> (forall x, expires s !! c = Some x -> x <= t) ->
  add t c s = Some (s', size s', r) -> kept 0 c (t + ttl s) s'.
Proof.
  intros Hw Hle Hold Hadd. destruct (add_spec t t0 c s Hle Hw) as (s1 & r1 & E & Hcase & _ & _).
  rewrite E in Hadd. injection Hadd as -> _. destruct Hcase as [[x Hx] _|s2 _ _ _ ->].
  - apply (pruneExpired_lookup _ _ _ _ _ Hw) in Hx as [Hx Hlt]. specialize (Hold _ Hx). lia.
  - exists (order s2), []. simpl. split_and!; [done|lia|]. by rewrite lookup_insert_eq.
Qed.

(** * Properties *)

Lemma monotone_split t es1 e es2 :
  monotone (es1 ++ e :: es2) -> t = e.1 ->
  monotone es1 /\ monotone es2 /\ Forall (fun e' => e'.1 <= t) es1 /\ Forall (fun e' => t <= e'.1) es2.
Proof.
  intros Hm ->. apply StronglySorted_app in Hm as (Hcross & H1 & H2).
  apply StronglySorted_inv in H2 as [H2 Hhd]. split_and!; try done.
  apply Forall_forall. intros e' He'. apply Hcross; [done|left].
Qed.

Lemma run_from_new ttl limit es now :
  0 < limit -> monotone es -> Forall (fun e => e.1 <= now) es ->
  exists s, run_ops (newAbandonedSet ttl limit) es = Some s /\ wf now s /\
    Abandoned.ttl s = ttl /\ Abandoned.limit s = limit /\
    (forall d x, expires s !! d = Some x -> exists t, added es d t /\ x = t + ttl).
Proof.
  intros Hl Hm Hall.
  destruct (run_ops_spec (match es with [] => now | e :: _ => e.1 end) now (newAbandonedSet ttl limit) es)
    as (s & Hrun & Hw & Et & El & Hx).
  - by apply new_wf.
  - done.
  - destruct es; [lia|]. by apply Forall_cons in Hall as [].
  - destruct es as [|e es]; [constructor|]. apply StronglySorted_inv in Hm as [_ Hhd].
    rewrite Forall_forall in *. intros e' He'. split; [|by apply Hall].
    apply elem_of_cons in He' as [->|He']; [lia|]. by apply Hhd.
  - exists s. split_and!; try done. intros d x Hd. destruct (Hx d x Hd) as [He|Ht]; [|done].
    simpl in He. by rewrite lookup_empty in He.
Qed.

(** The abandoned set keeps its promise over any history [es] of calls up to
    time [now], with a positive limit and a clock that does not run backwards.
    No call panics and at most [limit] collections are held. If [contains]
    says yes, the collection was added less than a TTL ago. If a collection
    was added at [t], not within a TTL of an earlier add of it, and fewer than
    [limit] adds followed, then until [t + ttl] [contains] says yes. *)
Theorem abandonedSet_contract (ttl limit now : Z) (es : list (Z * set_op)) :
  0 < limit -> monotone es -> Forall (fun e => e.1 <= now) es ->
  exists s, run_ops (newAbandonedSet ttl limit) es = Some s /\
    Z.of_nat (size s) <= limit /\
    forall c,
      ((contains now c s).1.2 = true -> exists t, added es c t /\ t <= now < t + ttl) /\
      (forall es1 t es2, es = es1 ++ (t, OpAdd c) :: es2 ->
         (forall t', added es1 c t' -> t' + ttl <= t) ->
         Z.of_nat (adds es2) < limit -> now < t + ttl ->
         (contains now c s).1.2 = true).
Proof.
  intros Hl Hm Hall. destruct (run_from_new ttl limit es now Hl Hm Hall) as (s & Hrun & Hw & Et & El & Hx).
  exists s. split_and!; [done|rewrite <- El; by eapply wf_size|]. intros c.
  split.
  - intros (x & Hc & Hlt)%(contains_held _ _ _ _ Hw). destruct (Hx _ _ Hc) as (t & Ht & ->). exists t. split_and!; [done| |lia].
    rewrite Forall_forall in Hall. exact (Hall _ Ht).
  - intros es1 t es2 -> Hfresh Hadds Hnow.
    destruct (monotone_split t _ _ _ Hm eq_refl) as (Hm1 & Hm2 & Hb & Ha).
    destruct (run_from_new ttl limit es1 t Hl Hm1 Hb) as (s1 & Hrun1 & Hw1 & Et1 & El1 & Hx1).
    rewrite run_ops_app, Hrun1 in Hrun. simpl in Hrun.
    destruct (add_spec t t c s1 ltac:(lia) Hw1) as (s2 & r & Hadd & _ & Hw2 & Et2 & El2).
    unfold apply_op in Hrun. simpl in Hrun. rewrite Hadd in Hrun. simpl in Hrun.
    pose proof (fresh_add t t c s1 s2 r Hw1 ltac:(lia)) as Hkept.
    assert (kept (0 + adds es2) c (t + ttl) s) as (_ & _ & _ & _ & Hc); [|apply (contains_held _ _ _ _ Hw); by exists (t + ttl)].
    eapply (run_ops_kept t s2); try done; [|rewrite El2, El1; done|rewrite <- Et1; apply Hkept; [|done]].
    + apply Forall_app in Hall as [_ Hall]. apply Forall_cons in Hall as [_ Hall].
      rewrite Forall_forall in *. intros e He. specialize (Ha _ He). specialize (Hall _ He). simpl in *. lia.
    + intros x Hc. destruct (Hx1 _ _ Hc) as (t' & Ht' & ->). auto.
Qed.

(** * Witnesses *)

Definition sample_other : AbandonedCollection := mkAbandoned "acme-corp" TaskEmbed "job-2" sample_uuid.
Definition sample_ops : list (Z * set_op) :=
  [(5, OpAdd sample_collection); (7, OpContains sample_other); (9, OpAdd sample_other)].

Lemma abandonedSet_contract_witness :
  exists s, run_ops (newAbandonedSet 10 2) sample_ops = Some s /\
    (contains 14 sample_collection s).1.2 = true /\ (contains 15 sample_collection s).1.2 = false.
Proof.
  assert (monotone sample_ops) as Hm by (repeat constructor; simpl; lia).
  destruct (abandonedSet_contract 10 2 14 sample_ops) as (s & Hrun & _ & Hc).
  - lia.
  - exact Hm.
  - repeat constructor; simpl; lia.
  - exists s. split; [exact Hrun|]. split.
    + apply (proj2 (Hc sample_collection) [] 5 [(7, OpContains sample_other); (9, OpAdd sample_other)]);
        [reflexivity|intros t' Ht'; exfalso; exact (not_elem_of_nil _ Ht')|vm_compute; reflexivity|lia].
    + vm_compute in Hrun. injection Hrun as <-. vm_compute. reflexivity.
Defined.
