(* ===== verification/Worker.v ===== *)
(** The LLM worker: [internal/worker] ([handler.go], [payload.go],
    [abandoned.go], [errors.go] and [types.go]).

    A worker's calls to the outside are recorded in a list of [effect]s, in
    the order the code makes them, and what such a call returns is a function
    of the effects before it, left open by the class [World]: the theorems
    hold for every bus and every LLM client. Logs, spans, latencies and the
    text of errors are left out; counters are kept. *)

From S2P Require Import Prelude Float64 Regexp Tenant Subjects Bus Gostrings Llm Abandoned.

Open Scope Z_scope.

(** * Definitions *)

Definition headerTaskID : string := "X-Task-Id".
Definition headerTaskType : string := "X-Task-Type".
Definition headerJobID : string := "X-Job-Id".
Definition headerError : string := "X-Error".
Definition headerCollectionID : string := "X-Collection-Id".

Definition getHeader (h : gmap string (list string)) (key : string) : string :=
  match h !! key with
  | Some (v :: _) => v
  | _ => ""
  end.

(** The sentinels of [errors.go] that a task error may wrap. *)
Inductive worker_error :=
| ErrInvalidPayload
| ErrLLMCall (e : llm_error)
| ErrTenantConfig
| ErrUnsupportedTaskType
| ErrNewStruct.                      (* structpb.NewStruct failed *)

Definition errorCategory (e : worker_error) : string :=
  match e with
  | ErrInvalidPayload => "invalid_payload"
  | ErrLLMCall e => if is_output_truncated e then ResultErrorOutputTruncated else "llm_error"
  | ErrTenantConfig => "tenant_config_error"
  | _ => "unknown"
  end.

(** A value of a [map[string]interface{}] given to [structpb.NewStruct]. *)
Inductive govalue :=
| GString (s : string)
| GNumber (x : float64)
| GList (l : list govalue).

(** What the worker asks of the outside, in order. *)
Inductive effect :=
| EComplete (ctx : context) (req : CompletionRequest)
| EEmbed (ctx : context) (req : EmbeddingRequest)
| EPublish (ctx : context) (subject data : string) (h : gmap string (list string))
| EProgress
| ESuccess (taskType : string)                        (* worker.tasks.processed *)
| EError (taskType category : string)                 (* worker.errors *)
| EDropped (reason taskType : string)                 (* worker.tasks.dropped *)
| EGauge (n : nat).                                   (* worker.abandoned_collections *)

(** The outside: protobuf, the LLM client and the bus. A [history] is the
    effects so far, latest last. *)
Class World := {
  pb :: StructPB;
  Unmarshal : string -> option (gmap string Value);
  NewStruct : gmap string govalue -> option (gmap string Value);
  Marshal : gmap string Value -> option string;
  llm_Complete : list effect -> CompletionRequest -> result llm_error CompletionResponse;
  llm_Embed : list effect -> EmbeddingRequest -> result llm_error EmbeddingResponse;
  bus_Publish : list effect -> string -> string -> gmap string (list string) -> bool;   (* published *)
  bus_Progress : list effect -> bool;
  content_hash : list ChatMessage -> string;
}.

(** Code that makes effects: given the history, a value and the longer one. *)
Definition M (A : Type) : Type := list effect -> A * list effect.
#[export] Instance M_ret : MRet M := fun A a h => (a, h).
#[export] Instance M_bind : MBind M := fun A B f m h => let '(a, h') := m h in f a h'.

Definition perform {A} (e : effect) (answer : list effect -> A) : M A := fun h => (answer h, h ++ [e]).
Definition emit (e : effect) : M unit := perform e (fun _ => tt).

Section worker.
Context `{W : World} `{GoArch}.

(** ** Payloads *)

Definition getStringField (fields : gmap string Value) (key : string) : string :=
  match fields !! key with Some v => GetStringValue v | None => "" end.

Definition getNumberField (fields : gmap string Value) (key : string) : float64 :=
  match fields !! key with Some v => GetNumberValue v | None => fzero end.

(** The content hash of a payload that carries one does not match. *)
Definition hash_mismatch (fields : gmap string Value) (messages : list ChatMessage) : bool :=
  match fields !! "content_hash" with
  | Some hashField =>
      let expectedHash := GetStringValue hashField in
      negb (bool_decide (expectedHash = "")) && negb (bool_decide (content_hash messages = expectedHash))
  | None => false
  end.

Definition extractCompletionRequest (fields : gmap string Value) (tenantID jobID : string)
  : result worker_error CompletionRequest :=
  match fields !! "messages" with
  | None => Err ErrInvalidPayload
  | Some msgValue =>
      match MessagesFromPayload msgValue with
      | Err _ => Err ErrInvalidPayload
      | Ok messages =>
          if hash_mismatch fields messages then Err ErrInvalidPayload
          else
            Ok (mkCompletionRequest (getStringField fields "model") messages
                  (go_int (getNumberField fields "max_tokens"))
                  (GetNumberValue <$> fields !! "temperature") None []
                  tenantID jobID
                  (getStringField fields "prompt_name") (getStringField fields "prompt_version"))
      end
  end.

Definition extractEmbeddingRequest (fields : gmap string Value) (tenantID jobID : string)
  : result worker_error EmbeddingRequest :=
  let text := getStringField fields "text" in
  if bool_decide (text = "") then Err ErrInvalidPayload
  else Ok (mkEmbeddingRequest (getStringField fields "model") [text] tenantID jobID).

Definition with_deployment (d : string) (fields : gmap string govalue) : gmap string govalue :=
  if bool_decide (d = "") then fields else <["deployment" := GString d]> fields.

Definition new_struct (fields : gmap string govalue) : result worker_error (gmap string Value) :=
  match NewStruct fields with Some s => Ok s | None => Err ErrNewStruct end.

Definition buildCompletionResult (resp : CompletionResponse) : result worker_error (gmap string Value) :=
  let response := match cs_Choices resp with c :: _ => Content (ch_Message c) | [] => "" end in
  new_struct (with_deployment (cs_Deployment resp)
    (<["response" := GString response]>
     (<["model" := GString (cs_Model resp)]>
     (<["tokens_used" := GNumber (fof_Z (TotalTokens (cs_Usage resp)))]>
     (<["prompt_tokens" := GNumber (fof_Z (PromptTokens (cs_Usage resp)))]>
     (<["completion_tokens" := GNumber (fof_Z (CompletionTokens (cs_Usage resp)))]> ∅)))))).

Definition buildEmbeddingResult (resp : EmbeddingResponse) : result worker_error (gmap string Value) :=
  let embeddings := (fun d => GList (GNumber <$> ed_Embedding d)) <$> es_Data resp in
  let dimensions := match es_Data resp with d :: _ => length (ed_Embedding d) | [] => 0%nat end in
  new_struct (with_deployment (es_Deployment resp)
    (<["embeddings" := GList embeddings]>
     (<["model" := GString (es_Model resp)]>
     (<["tokens_used" := GNumber (fof_Z (es_TotalTokens resp))]>
     (<["dimensions" := GNumber (fof_Z (Z.of_nat dimensions))]> ∅))))).

(** ** Tasks *)

(** The fields of a worker a task reads. *)
Context (llm_cfg : LLMConfig).

Definition handleCompletion (ctx : context) (payload : gmap string Value) (tenantID jobID : string)
  : M (result worker_error (gmap string Value)) :=
  match extractCompletionRequest payload tenantID jobID with
  | Err e => mret (Err e)
  | Ok req =>
      let tenantCfg := ForTenant llm_cfg tenantID in
      let req := if bool_decide (cr_Model req = "") then with_model req (tc_DefaultModel tenantCfg) else req in
      r ← perform (EComplete ctx req) (fun h => llm_Complete h req);
      match r with
      | Err e => mret (Err (ErrLLMCall e))
      | Ok resp =>
          match CheckAnswered resp with
          | Err e => mret (Err (ErrLLMCall e))
          | Ok _ => mret (buildCompletionResult resp)
          end
      end
  end.

Definition handleEmbedding (ctx : context) (payload : gmap string Value) (tenantID jobID : string)
  : M (result worker_error (gmap string Value)) :=
  match extractEmbeddingRequest payload tenantID jobID with
  | Err e => mret (Err e)
  | Ok req =>
      let tenantCfg := ForTenant llm_cfg tenantID in
      let req := if bool_decide (er_Model req = "")
                 then mkEmbeddingRequest (tc_EmbeddingModel tenantCfg) (er_Input req) (er_TenantID req) (er_JobID req)
                 else req in
      r ← perform (EEmbed ctx req) (fun h => llm_Embed h req);
      match r with
      | Err e => mret (Err (ErrLLMCall e))
      | Ok resp => mret (buildEmbeddingResult resp)
      end
  end.

Definition publishProgress (taskType : string) : M unit :=
  ok ← perform EProgress bus_Progress;
  if ok : bool then mret tt else emit (EError taskType "progress_publish_error").

(** [true]: the result is out. *)
Definition publishResult (ctx : context) (tenantID taskType jobID taskID : string)
    (payload : gmap string Value) : M bool :=
  match ResultSubject tenantID taskType jobID with
  | Err _ => mret false
  | Ok subject =>
      match Marshal payload with
      | None => mret false
      | Some data =>
          let h := {[ headerTaskID := [taskID] ]} in
          perform (EPublish ctx subject data h) (fun hist => bus_Publish hist subject data h)
      end
  end.

Definition publishErrorResult (ctx : context) (tenantID taskType jobID taskID errorMsg : string) : M unit :=
  match ResultSubject tenantID taskType jobID with
  | Err _ => mret tt
  | Ok subject =>
      let h := <[ headerError := [errorMsg] ]> {[ headerTaskID := [taskID] ]} in
      ok ← perform (EPublish ctx subject "" h) (fun hist => bus_Publish hist subject "" h);
      if ok : bool then publishProgress taskType else mret tt
  end.

Definition handleTaskError (ctx : context) (tenantID taskType jobID taskID category : string) : M unit :=
  emit (EError taskType category);;
  publishErrorResult ctx tenantID taskType jobID taskID category.

(** Record the sizes the abandoned set reports. *)
Fixpoint emit_gauge (sizes : list nat) : M unit :=
  match sizes with
  | [] => mret tt
  | n :: rest => emit (EGauge n);; emit_gauge rest
  end.

(** The set after the call, and whether the task was dropped. *)
Definition dropAbandoned (now : Z) (s : abandonedSet) (tenantID taskType jobID collectionID : string)
  : M (abandonedSet * bool) :=
  if bool_decide (collectionID = "") then mret (s, false)
  else
    let c := mkAbandoned tenantID taskType jobID collectionID in
    let '(s', held, sizes) := contains now c s in
    emit_gauge sizes;;
    if held then emit (EDropped "abandoned" taskType);; mret (s', true)
    else mret (s', false).

Definition is_completion_type (taskType : string) : bool :=
  bool_decide (taskType ∈ [TaskClassify; TaskRelate; TaskRequires; TaskArtifacts]).

(** The end of [handleMessage]: report the task's error or publish its result. *)
Definition finish_task (ctx : context) (tenantID taskType jobID taskID : string)
    (r : result worker_error (gmap string Value)) : M unit :=
  match r with
  | Err e => handleTaskError ctx tenantID taskType jobID taskID (errorCategory e)
  | Ok resultPayload =>
      emit (ESuccess taskType);;
      ok ← publishResult ctx tenantID taskType jobID taskID resultPayload;
      if ok : bool then publishProgress taskType else emit (EError taskType "publish_error")
  end.

(** The part of [handleMessage] that follows the drop check. *)
Definition run_task (ctx : context) (tenantID taskType jobID taskID data : string) : M unit :=
  match Unmarshal data with
  | None => handleTaskError ctx tenantID taskType jobID taskID "invalid_payload"
  | Some payload =>
      if is_completion_type taskType then
        r ← handleCompletion ctx payload tenantID jobID; finish_task ctx tenantID taskType jobID taskID r
      else if bool_decide (taskType = TaskEmbed) then
        r ← handleEmbedding ctx payload tenantID jobID; finish_task ctx tenantID taskType jobID taskID r
      else handleTaskError ctx tenantID taskType jobID taskID "unsupported_task_type"
  end.

(** [now] is what the abandoned set's clock reads during the call. *)
Definition handleMessage (now : Z) (s : abandonedSet) (ctx : context) (msg : Message) : M abandonedSet :=
  let taskID := getHeader (msg_Headers msg) headerTaskID in
  let taskType := getHeader (msg_Headers msg) headerTaskType in
  let jobID := getHeader (msg_Headers msg) headerJobID in
  let tenantID := msg_TenantID msg in
  let metricTaskType := if bool_decide (taskType = "") then "unknown" else taskType in
  if bool_decide (tenantID = "") then
    emit (EError metricTaskType "missing_tenant");; mret s
  else
    let '(ctx, err) := WithTenant ctx tenantID in
    match err with
    | Some _ => emit (EError metricTaskType "invalid_tenant");; mret s
    | None =>
        if bool_decide (taskID = "") || bool_decide (taskType = "") then
          emit (EError taskType "invalid_message");;
          (if negb (bool_decide (jobID = "")) && negb (bool_decide (tenantID = ""))
           then publishErrorResult ctx tenantID taskType jobID taskID "invalid_message"
           else mret tt);;
          mret s
        else
          '(s', dropped) ← dropAbandoned now s tenantID taskType jobID
                             (getHeader (msg_Headers msg) headerCollectionID);
          if dropped : bool then mret s'
          else run_task ctx tenantID taskType jobID taskID (msg_Data msg);; mret s'
    end.

(** ** Control messages *)

Context (uuid_canonical : string -> bool).

Definition rejectControl : M unit := emit (EError "unknown" "invalid_control_message").

(** [None] is the panic of [add] (a set without a positive limit). *)
Definition handleAbandoned (now : Z) (s : abandonedSet) (msg : Message) : M (option abandonedSet) :=
  match ParseAbandonedSubject uuid_canonical (msg_Subject msg) with
  | Err _ => rejectControl;; mret (Some s)
  | Ok c =>
      if negb (bool_decide (msg_TenantID msg = ac_TenantID c)) then rejectControl;; mret (Some s)
      else if negb (bool_decide (String.length (msg_Data msg) = 0%nat)) then rejectControl;; mret (Some s)
      else
        match add now c s with
        | None => mret None
        | Some (s', _, sizes) => emit_gauge sizes;; mret (Some s')
        end
  end.
End worker.

(** * Traces *)

(** Effects nobody outside the worker sees: counters of tasks that were run or
    refused, and gauges. *)
Definition quiet (e : effect) : Prop :=
  match e with
  | ESuccess _ | EError _ _ | EGauge _ => True
  | _ => False
  end.

(** An LLM call made for a task of this tenant and job. *)
Definition llm_call (ctx : context) (tenantID jobID : string) (e : effect) : Prop :=
  match e with
  | EComplete c req => c = ctx /\ cr_TenantID req = tenantID /\ cr_JobID req = jobID
  | EEmbed c req => c = ctx /\ er_TenantID req = tenantID /\ er_JobID req = jobID
  | _ => False
  end.

Definition ok_headers (taskID : string) : gmap string (list string) := {[ headerTaskID := [taskID] ]}.
Definition error_headers (taskID category : string) : gmap string (list string) :=
  <[ headerError := [category] ]> {[ headerTaskID := [taskID] ]}.

(** The categories a task that was run can fail with. *)
Definition task_categories : list string :=
  ["invalid_payload"; "unsupported_task_type"; ResultErrorOutputTruncated; "llm_error"; "unknown"].

Section traces.
Context `{W : World} `{GoArch} (llm_cfg : LLMConfig).

(** How a task ends after history [h]: without a result, for the reason [N];
    with a result, [P data headers], that the bus refused; or with one it
    took, followed at once by a progress tick. *)
Inductive tail (ctx : context) (tenantID taskType jobID : string)
    (P : string -> gmap string (list string) -> Prop) (N : Prop) (h : list effect) : list effect -> Prop :=
| TailNone log : N -> Forall quiet log -> tail ctx tenantID taskType jobID P N h log
| TailRefused pre subject data hd post :
    Forall quiet pre -> ResultSubject tenantID taskType jobID = Ok subject -> P data hd ->
    bus_Publish (h ++ pre) subject data hd = false -> Forall quiet post ->
    tail ctx tenantID taskType jobID P N h (pre ++ EPublish ctx subject data hd :: post)
| TailSent pre subject data hd post :
    Forall quiet pre -> ResultSubject tenantID taskType jobID = Ok subject -> P data hd ->
    bus_Publish (h ++ pre) subject data hd = true -> Forall quiet post ->
    tail ctx tenantID taskType jobID P N h (pre ++ EPublish ctx subject data hd :: EProgress :: post).

(** A task's whole trace: counters, at most one LLM call, and the tail. *)
Inductive task_trace (ctx : context) (tenantID taskType jobID : string)
    (P : string -> gmap string (list string) -> Prop) (N : Prop) (h : list effect) : list effect -> Prop :=
| TaskTrace pre call log :
    Forall quiet pre -> (call = [] \/ exists e, call = [e] /\ llm_call ctx tenantID jobID e) ->
    tail ctx tenantID taskType jobID P N (h ++ pre ++ call) log ->
    task_trace ctx tenantID taskType jobID P N h (pre ++ call ++ log).

(** The result that the task with [data] computes after history [h]. *)
Definition computes (ctx : context) (tenantID taskType jobID data : string) (h : list effect) (resultPayload : gmap string Value) : Prop :=
  exists payload, Unmarshal data = Some payload /\
    ((is_completion_type taskType = true /\ (handleCompletion llm_cfg ctx payload tenantID jobID h).1 = Ok resultPayload) \/
     (taskType = TaskEmbed /\ (handleEmbedding llm_cfg ctx payload tenantID jobID h).1 = Ok resultPayload)).

(** A task that was run is answered with its result or with an error category. *)
Definition answer (ctx : context) (tenantID taskType jobID taskID input : string) (h : list effect)
    (data : string) (hd : gmap string (list string)) : Prop :=
  (hd = ok_headers taskID /\ exists r, computes ctx tenantID taskType jobID input h r /\ Marshal r = Some data) \/
  (data = "" /\ exists category, category ∈ task_categories /\ hd = error_headers taskID category).

(** Protobuf does not marshal the result that the task computes. *)
Definition unmarshalled (ctx : context) (tenantID taskType jobID data : string) (h : list effect) : Prop :=
  exists r, computes ctx tenantID taskType jobID data h r /\ Marshal r = None.

(** The only reasons a task that was run gets no result published. *)
Definition unanswerable (ctx : context) (tenantID taskType jobID data : string) (h : list effect) : Prop :=
  (exists e, ResultSubject tenantID taskType jobID = Err e) \/ unmarshalled ctx tenantID taskType jobID data h.

Lemma tail_mono ctx t k j P P' (N N' : Prop) h log :
  (forall d hd, P d hd -> P' d hd) -> (N -> N') ->
  tail ctx t k j P N h log -> tail ctx t k j P' N' h log.
Proof.
  intros HP HN. destruct 1; [apply TailNone|eapply TailRefused|eapply TailSent]; eauto.
Qed.

Lemma tail_quiet ctx t k j P N h pre log :
  Forall quiet pre -> tail ctx t k j P N (h ++ pre) log -> tail ctx t k j P N h (pre ++ log).
Proof.
  intros Hp. destruct 1 as [log HN Hl|pre' ? ? ? ? ? ? ? Hb|pre' ? ? ? ? ? ? ? Hb].
  - apply TailNone; [done|]. by apply Forall_app.
  - rewrite <- app_assoc in Hb. rewrite app_assoc. eapply TailRefused; eauto. by apply Forall_app.
  - rewrite <- app_assoc in Hb. rewrite app_assoc. eapply TailSent; eauto. by apply Forall_app.
Qed.

Lemma publishProgress_spec k h :
  exists post, publishProgress k h = (tt, h ++ EProgress :: post) /\ Forall quiet post.
Proof.
  unfold publishProgress, perform, emit, mbind, M_bind, mret, M_ret, perform.
  destruct (bus_Progress h).
  - by exists [].
  - exists [EError k "progress_publish_error"]. rewrite <- app_assoc. by repeat constructor.
Qed.

Lemma publishErrorResult_spec ctx t k j i cat h :
  exists log, publishErrorResult ctx t k j i cat h = (tt, h ++ log) /\
    tail ctx t k j (fun d hd => d = "" /\ hd = error_headers i cat)
      (exists e, ResultSubject t k j = Err e) h log.
Proof.
  unfold publishErrorResult. destruct (ResultSubject t k j) as [subj|e] eqn:Es.
  - unfold mbind, M_bind, perform. fold (error_headers i cat).
    destruct (bus_Publish h subj "" (error_headers i cat)) eqn:Eb.
    + destruct (publishProgress_spec k (h ++ [EPublish ctx subj "" (error_headers i cat)])) as (post & -> & Hq).
      rewrite <- app_assoc. eexists. split; [done|].
      apply (TailSent _ _ _ _ _ _ _ [] subj ""); rewrite ?app_nil_r; by try constructor.
    + eexists. split; [done|]. apply (TailRefused _ _ _ _ _ _ _ [] subj "" _ []);
        rewrite ?app_nil_r; by try constructor.
  - exists []. rewrite app_nil_r. split; [done|]. apply TailNone; eauto.
Qed.

Lemma handleTaskError_spec ctx t k j i cat h :
  exists log, handleTaskError ctx t k j i cat h = (tt, h ++ log) /\
    tail ctx t k j (fun d hd => d = "" /\ hd = error_headers i cat)
      (exists e, ResultSubject t k j = Err e) h log.
Proof.
  unfold handleTaskError, mbind, M_bind, emit, perform.
  destruct (publishErrorResult_spec ctx t k j i cat (h ++ [EError k cat])) as (log & -> & Ht).
  rewrite <- app_assoc. eexists. split; [done|]. apply (tail_quiet _ _ _ _ _ _ _ [_]); [by constructor|done].
Qed.

(** A task body: at most one LLM call of its own tenant, and errors of a known
    category only. *)
Definition body_spec (ctx : context) (t j : string)
    (m : M (result worker_error (gmap string Value))) : Prop :=
  forall h, exists call r, m h = (r, h ++ call) /\
    (call = [] \/ exists e, call = [e] /\ llm_call ctx t j e) /\
    (forall e, r = Err e -> errorCategory e ∈ task_categories).

Lemma llm_category e : errorCategory (ErrLLMCall e) ∈ task_categories.
Proof. simpl. destruct (is_output_truncated e); set_solver. Qed.

Lemma new_struct_category fields e : new_struct fields = Err e -> errorCategory e ∈ task_categories.
Proof. unfold new_struct. destruct (NewStruct fields); [done|]. intros [= <-]. set_solver. Qed.

Lemma extractCompletionRequest_spec p t j :
  match extractCompletionRequest p t j with
  | Ok req => cr_TenantID req = t /\ cr_JobID req = j
  | Err e => errorCategory e ∈ task_categories
  end.
Proof.
  unfold extractCompletionRequest. destruct (p !! "messages"); [|set_solver].
  destruct (MessagesFromPayload v); [|set_solver]. destruct (hash_mismatch p a); [set_solver|done].
Qed.

Lemma handleCompletion_spec ctx p t j : body_spec ctx t j (handleCompletion llm_cfg ctx p t j).
Proof.
  intros h. unfold handleCompletion. pose proof (extractCompletionRequest_spec p t j) as Hreq.
  destruct (extractCompletionRequest p t j) as [req|e].
  2: { exists [], (Err e). rewrite app_nil_r. split_and!; auto. by intros ? [= <-]. }
  set (req' := if bool_decide (cr_Model req = "") then _ else _).
  assert (cr_TenantID req' = t /\ cr_JobID req' = j) as Hreq'.
  { subst req'. case_bool_decide; [|done]. by destruct req, Hreq. }
  clearbody req'. unfold mbind, M_bind, perform.
  destruct (llm_Complete h req') as [resp|e].
  2: { eexists [_], _. split; [done|]. split; [right; by eexists|]. intros ? [= <-]. apply llm_category. }
  destruct (CheckAnswered resp) as [[]|e]; eexists [_], _; (split; [done|]);
    (split; [right; by eexists|]).
  - intros e. apply new_struct_category.
  - intros ? [= <-]. apply llm_category.
Qed.

Lemma handleEmbedding_spec ctx p t j : body_spec ctx t j (handleEmbedding llm_cfg ctx p t j).
Proof.
  intros h. unfold handleEmbedding, extractEmbeddingRequest. case_bool_decide.
  { exists [], (Err ErrInvalidPayload). rewrite app_nil_r. split_and!; auto.
    intros ? [= <-]. set_solver. }
  simpl. set (req' := if bool_decide _ then _ else _).
  assert (er_TenantID req' = t /\ er_JobID req' = j) as Hreq' by (subst req'; by case_bool_decide).
  clearbody req'. unfold mbind, M_bind, perform.
  destruct (llm_Embed h req') as [resp|e]; eexists [_], _; (split; [done|]);
    (split; [right; by eexists|]).
  - intros e. apply new_struct_category.
  - intros ? [= <-]. apply llm_category.
Qed.

Lemma publishResult_tail ctx t k j i p P (N : Prop) h :
  (forall e, ResultSubject t k j = Err e -> N) -> (Marshal p = None -> N) ->
  (forall data, Marshal p = Some data -> P data (ok_headers i)) ->
  exists log, (ok ← publishResult ctx t k j i p;
               if ok : bool then publishProgress k else emit (EError k "publish_error")) h = (tt, h ++ log) /\
    tail ctx t k j P N h log.
Proof.
  intros Hsub Hmar Hok. unfold publishResult, mbind, M_bind. destruct (ResultSubject t k j) as [subj|e] eqn:Es.
  - destruct (Marshal p) as [data|] eqn:Em.
    + unfold perform. fold (ok_headers i). specialize (Hok data eq_refl).
      destruct (bus_Publish h subj data (ok_headers i)) eqn:Eb.
      * destruct (publishProgress_spec k (h ++ [EPublish ctx subj data (ok_headers i)])) as (post & -> & Hq).
        rewrite <- app_assoc. eexists. split; [done|].
        apply (TailSent _ _ _ _ _ _ _ [] subj data (ok_headers i) post); rewrite ?app_nil_r; auto.
      * unfold emit, perform. rewrite <- app_assoc. eexists. split; [done|].
        apply (TailRefused _ _ _ _ _ _ _ [] subj data (ok_headers i) [_]); rewrite ?app_nil_r; auto.
        by repeat constructor.
    + exists [EError k "publish_error"]. split; [done|]. apply TailNone; [by apply Hmar|by repeat constructor].
  - exists [EError k "publish_error"]. split; [done|].
    apply TailNone; [by eapply Hsub|by repeat constructor].
Qed.

Lemma task_error_tail ctx t k j i cat (P : string -> gmap string (list string) -> Prop) (N : Prop) h :
  (forall e, ResultSubject t k j = Err e -> N) -> P "" (error_headers i cat) ->
  exists log, handleTaskError ctx t k j i cat h = (tt, h ++ log) /\
    tail ctx t k j P N h log.
Proof.
  intros Hsub Hp. destruct (handleTaskError_spec ctx t k j i cat h) as (log & -> & Ht).
  exists log. split; [done|]. revert Ht. apply tail_mono.
  - intros d hd [-> ->]. exact Hp.
  - intros [e He]. by eapply Hsub.
Qed.

Lemma run_task_spec ctx t k j i data h :
  exists log, run_task llm_cfg ctx t k j i data h = (tt, h ++ log) /\
    task_trace ctx t k j (answer ctx t k j i data h) (unanswerable ctx t k j data h) h log.
Proof.
  set (N := unanswerable ctx t k j data h). assert (forall e, ResultSubject t k j = Err e -> N) as Hsub by (intros e He; left; eauto).
  set (P := answer ctx t k j i data h). assert (forall cat, cat ∈ task_categories -> P "" (error_headers i cat)) as Hcats by (intros cat Hc; right; eauto).
  assert (forall cat, cat ∈ task_categories ->
    exists log, handleTaskError ctx t k j i cat h = (tt, h ++ log) /\
      task_trace ctx t k j (answer ctx t k j i data h) (unanswerable ctx t k j data h) h log) as Herr.
  { intros cat Hc. destruct (task_error_tail ctx t k j i cat P N h Hsub (Hcats cat Hc)) as (log & -> & Ht).
    exists log. split; [done|]. apply (TaskTrace _ _ _ _ _ _ _ [] [] log);
      [constructor|by left|by rewrite app_nil_r]. }
  unfold run_task. destruct (Unmarshal data) as [p|] eqn:Hp; [|apply Herr; set_solver].
  assert (forall m, body_spec ctx t j m -> (forall pl, (m h).1 = Ok pl -> computes ctx t k j data h pl) ->
    exists log, (m ≫= finish_task ctx t k j i) h = (tt, h ++ log) /\
    task_trace ctx t k j (answer ctx t k j i data h) (unanswerable ctx t k j data h) h log) as Hbody.
  { intros m Hm Hcomp. destruct (Hm h) as (call & r & Er & Hcall & Hcat).
    rewrite Er in Hcomp. unfold mbind, M_bind. rewrite Er. unfold finish_task. destruct r as [pl|e].
    - destruct (publishResult_tail ctx t k j i pl P N (h ++ call ++ [ESuccess k]) Hsub) as (log & E & Ht);
        [intros Hn; right; exists pl; auto|intros d Hd; left; split; [done|exists pl; auto]|].
      unfold mbind, M_bind, emit, perform in *. rewrite <- app_assoc. rewrite E.
      exists (call ++ [ESuccess k] ++ log). rewrite <- !app_assoc. split; [done|].
      apply (TaskTrace _ _ _ _ _ _ _ [] call ([ESuccess k] ++ log)); [constructor|done|].
      apply tail_quiet; [by repeat constructor|]. by rewrite <- !app_assoc.
    - destruct (task_error_tail ctx t k j i (errorCategory e) P N (h ++ call) Hsub (Hcats _ (Hcat e eq_refl))) as (log & -> & Ht).
      rewrite <- app_assoc. eexists. split; [done|]. by apply (TaskTrace _ _ _ _ _ _ _ [] call log). }
  destruct (is_completion_type k) eqn:Hk.
  { apply Hbody; [apply handleCompletion_spec|]. intros pl Hpl. exists p. split; [done|by left]. }
  case_bool_decide.
  { apply Hbody; [apply handleEmbedding_spec|]. intros pl Hpl. exists p. split; [done|by right]. }
  apply Herr. set_solver.
Qed.

Lemma emit_gauge_spec sizes h : emit_gauge sizes h = (tt, h ++ (EGauge <$> sizes)).
Proof.
  revert h. induction sizes as [|n sizes IH]; intros h; simpl; [by rewrite app_nil_r|].
  unfold mbind, M_bind, emit, perform. rewrite IH, <- app_assoc. done.
Qed.

Lemma gauges_quiet sizes : Forall quiet (EGauge <$> sizes).
Proof. induction sizes; by constructor. Qed.

(** The collection a task message claims to belong to. *)
Definition msg_collection (msg : Message) : AbandonedCollection :=
  mkAbandoned (msg_TenantID msg) (getHeader (msg_Headers msg) headerTaskType)
    (getHeader (msg_Headers msg) headerJobID) (getHeader (msg_Headers msg) headerCollectionID).

(** The worker finds the message's collection in its set. *)
Definition held (now : Z) (s : abandonedSet) (msg : Message) : bool :=
  negb (bool_decide (ac_CollectionID (msg_collection msg) = "")) &&
  (contains now (msg_collection msg) s).1.2.

Lemma dropAbandoned_spec now s msg h :
  let c := msg_collection msg in
  exists s' sizes, dropAbandoned now s (ac_TenantID c) (ac_TaskType c) (ac_JobID c) (ac_CollectionID c) h =
    (s', held now s msg,
     h ++ (EGauge <$> sizes) ++ (if held now s msg then [EDropped "abandoned" (ac_TaskType c)] else [])).
Proof.
  intros c. unfold dropAbandoned, held. fold c. case_bool_decide.
  { exists s, []. simpl. by rewrite app_nil_r. }
  replace (mkAbandoned _ _ _ _) with c by by destruct c.
  destruct (contains now c s) as [[s' b] sizes]. simpl. exists s', sizes.
  unfold mbind, M_bind. rewrite emit_gauge_spec. destruct b; simpl.
  - unfold emit, perform. by rewrite <- app_assoc.
  - by rewrite app_nil_r.
Qed.

(** A message with the headers a task needs, from a valid tenant. *)
Definition task_message (msg : Message) : Prop :=
  ValidateTenantID (msg_TenantID msg) = Ok tt /\
  getHeader (msg_Headers msg) headerTaskID <> "" /\ getHeader (msg_Headers msg) headerTaskType <> "".

Definition task_ctx (ctx : context) (msg : Message) : context := (WithTenant ctx (msg_TenantID msg)).1.

(** What a task message does after the drop check. *)
Lemma handleMessage_task now s ctx msg h :
  task_message msg ->
  let c := msg_collection msg in
  exists s' sizes,
    handleMessage llm_cfg now s ctx msg h =
    if held now s msg then (s', h ++ (EGauge <$> sizes) ++ [EDropped "abandoned" (ac_TaskType c)])
    else (s', (run_task llm_cfg (task_ctx ctx msg) (msg_TenantID msg) (ac_TaskType c) (ac_JobID c)
                 (getHeader (msg_Headers msg) headerTaskID) (msg_Data msg) (h ++ (EGauge <$> sizes))).2).
Proof.
  intros (Ht & Hi & Hk) c. unfold handleMessage, task_ctx.
  rewrite bool_decide_false by by apply ValidateTenantID_nonempty.
  unfold WithTenant. rewrite Ht. cbn [fst].
  rewrite !(bool_decide_false (getHeader _ _ = "")) by done. cbn [orb].
  destruct (dropAbandoned_spec now s msg h) as (s' & sizes & E). fold c in E.
  exists s', sizes. unfold mbind at 1, M_bind at 1.
  change (getHeader (msg_Headers msg) headerTaskType) with (ac_TaskType c).
  change (getHeader (msg_Headers msg) headerJobID) with (ac_JobID c).
  change (getHeader (msg_Headers msg) headerCollectionID) with (ac_CollectionID c).
  change (msg_TenantID msg) with (ac_TenantID c) at 1. rewrite E.
  destruct (held now s msg); [done|]. rewrite app_nil_r.
  unfold mbind, M_bind. by destruct (run_task _ _ _ _ _ _ _ _) as [[] h'].
Qed.

(** * Properties *)

Lemma task_trace_mono ctx t k j P P' (N N' : Prop) h pre log :
  Forall quiet pre -> (forall d hd, P d hd -> P' d hd) -> (N -> N') ->
  task_trace ctx t k j P N (h ++ pre) log -> task_trace ctx t k j P' N' h (pre ++ log).
Proof.
  intros Hp HP HN. destruct 1 as [pre' call log Hp' Hc Ht]. rewrite app_assoc.
  apply (TaskTrace _ _ _ _ _ _ _ (pre ++ pre')); [by apply Forall_app|done|].
  rewrite <- !app_assoc in *. revert Ht. by apply tail_mono.
Qed.

Lemma quiet_trace ctx t k j P h log : Forall quiet log -> task_trace ctx t k j P True h log.
Proof.
  intros. apply (TaskTrace _ _ _ _ _ _ _ [] [] log); [constructor|by left|].
  by apply TailNone.
Qed.

Lemma answer_task ctx t k j i data h d hd : answer ctx t k j i data h d hd -> hd !! headerTaskID = Some [i].
Proof. by intros [[-> _]|[_ (c & _ & ->)]]. Qed.

(** The trace of a task message that the worker does not drop. *)
Lemma task_message_trace now s ctx msg h :
  task_message msg -> held now s msg = false ->
  exists s' sizes log, handleMessage llm_cfg now s ctx msg h = (s', h ++ (EGauge <$> sizes) ++ log) /\
    let k := getHeader (msg_Headers msg) headerTaskType in let j := getHeader (msg_Headers msg) headerJobID in
    task_trace (task_ctx ctx msg) (msg_TenantID msg) k j
      (answer (task_ctx ctx msg) (msg_TenantID msg) k j (getHeader (msg_Headers msg) headerTaskID) (msg_Data msg) (h ++ (EGauge <$> sizes)))
      (unanswerable (task_ctx ctx msg) (msg_TenantID msg) k j (msg_Data msg) (h ++ (EGauge <$> sizes))) (h ++ (EGauge <$> sizes)) log.
Proof.
  intros Hm Hh. destruct (handleMessage_task now s ctx msg h Hm) as (s' & sizes & ->). rewrite Hh.
  destruct (run_task_spec (task_ctx ctx msg) (msg_TenantID msg) (getHeader (msg_Headers msg) headerTaskType)
    (getHeader (msg_Headers msg) headerJobID) (getHeader (msg_Headers msg) headerTaskID) (msg_Data msg)
    (h ++ (EGauge <$> sizes))) as (log & E & Ht).
  exists s', sizes, log. simpl in *. by rewrite E, <- app_assoc.
Qed.

(** A message of a valid tenant without a task ID or type. *)
Lemma incomplete_trace now s ctx msg h :
  ValidateTenantID (msg_TenantID msg) = Ok tt ->
  bool_decide (getHeader (msg_Headers msg) headerTaskID = "") ||
    bool_decide (getHeader (msg_Headers msg) headerTaskType = "") = true ->
  exists log, handleMessage llm_cfg now s ctx msg h = (s, h ++ log) /\
    task_trace (task_ctx ctx msg) (msg_TenantID msg) (getHeader (msg_Headers msg) headerTaskType)
      (getHeader (msg_Headers msg) headerJobID)
      (fun _ hd => hd !! headerTaskID = Some [getHeader (msg_Headers msg) headerTaskID]) True h log.
Proof.
  intros Ht Ebad. unfold handleMessage, WithTenant. cbv zeta. rewrite Ht, Ebad.
  rewrite (bool_decide_false (msg_TenantID msg = "")) by by apply ValidateTenantID_nonempty.
  replace (mkContext _ _) with (task_ctx ctx msg) by (unfold task_ctx, WithTenant; by rewrite Ht).
  unfold mbind, M_bind, emit, perform.
  destruct (bool_decide (getHeader (msg_Headers msg) headerJobID = "")); cbn [negb andb].
  { eexists [_]. split; [done|apply quiet_trace; by repeat constructor]. }
  edestruct (publishErrorResult_spec (task_ctx ctx msg) (msg_TenantID msg)) as (log & E & Hlog).
  rewrite E, <- app_assoc. eexists. split; [done|].
  apply (TaskTrace _ _ _ _ _ _ _ [_] []); [by repeat constructor|by left|].
  revert Hlog. apply tail_mono; [|done]. by intros d hd [_ ->].
Qed.

(** C17. The worker's discipline for any message whatever, against any bus and
    LLM client. A message without a valid tenant only counts an error. A task
    of an abandoned collection only counts a drop. Any other message makes at
    most one LLM call, with its own tenant and job; publishes at most one
    result, under its own tenant, to the result subject of its tenant, type
    and job, carrying its task ID; and sends a progress tick exactly when the
    bus took that result, right after it. *)
Theorem worker_result_discipline (now : Z) (s : abandonedSet) (ctx : context) (msg : Message) (h : list effect) :
  exists s' log, handleMessage llm_cfg now s ctx msg h = (s', h ++ log) /\
    ((ValidateTenantID (msg_TenantID msg) <> Ok tt /\ exists k category, log = [EError k category]) \/
     (held now s msg = true /\
      exists sizes, log = (EGauge <$> sizes) ++ [EDropped "abandoned" (getHeader (msg_Headers msg) headerTaskType)]) \/
     (ctx_tenant (task_ctx ctx msg) = Some (msg_TenantID msg) /\
      task_trace (task_ctx ctx msg) (msg_TenantID msg) (getHeader (msg_Headers msg) headerTaskType)
        (getHeader (msg_Headers msg) headerJobID)
        (fun _ hd => hd !! headerTaskID = Some [getHeader (msg_Headers msg) headerTaskID]) True h log)).
Proof.
  destruct (ValidateTenantID (msg_TenantID msg)) as [[]|e] eqn:Ht.
  2: { unfold handleMessage, WithTenant. rewrite Ht.
       case_bool_decide; eexists _, [_]; (split; [done|left; split; [done|eauto]]). }
  assert (ctx_tenant (task_ctx ctx msg) = Some (msg_TenantID msg)) as Hctx
    by (unfold task_ctx, WithTenant; by rewrite Ht).
  destruct (bool_decide (getHeader (msg_Headers msg) headerTaskID = "") ||
            bool_decide (getHeader (msg_Headers msg) headerTaskType = "")) eqn:Ebad.
  - destruct (incomplete_trace now s ctx msg h Ht Ebad) as (log & -> & Hlog).
    eexists _, log. auto.
  - apply orb_false_iff in Ebad as [Hi%bool_decide_eq_false Hk%bool_decide_eq_false].
    assert (task_message msg) as Hm by done. destruct (held now s msg) eqn:Hh.
    + destruct (handleMessage_task now s ctx msg h Hm) as (s' & sizes & ->). rewrite Hh.
      eexists _, _. split; [done|]. right. left. eauto.
    + destruct (task_message_trace now s ctx msg h Hm Hh) as (s' & sizes & log & -> & Hlog).
      eexists _, _. split; [done|]. right. right. split; [done|].
      revert Hlog. apply task_trace_mono; [apply gauges_quiet|eauto using answer_task|done].
Qed.

(** C18. No task is lost in a worker: a task message with a valid tenant and job
    whose collection was not abandoned is answered. Its trace ends with one
    publication, which the bus takes or refuses, to the subject its collector
    listens on and under its task ID: the task's result, or an error of one of
    five categories. The only exception is a task whose own computed result
    protobuf does not marshal. *)
Theorem worker_answers_every_task (now : Z) (s : abandonedSet) (ctx : context) (msg : Message) (h : list effect) :
  task_message msg -> validateJobID (getHeader (msg_Headers msg) headerJobID) = Ok tt ->
  held now s msg = false ->
  exists s' sizes log, handleMessage llm_cfg now s ctx msg h = (s', h ++ (EGauge <$> sizes) ++ log) /\
    let k := getHeader (msg_Headers msg) headerTaskType in let j := getHeader (msg_Headers msg) headerJobID in
    task_trace (task_ctx ctx msg) (msg_TenantID msg) k j
      (answer (task_ctx ctx msg) (msg_TenantID msg) k j (getHeader (msg_Headers msg) headerTaskID) (msg_Data msg) (h ++ (EGauge <$> sizes)))
      (unmarshalled (task_ctx ctx msg) (msg_TenantID msg) k j (msg_Data msg) (h ++ (EGauge <$> sizes))) (h ++ (EGauge <$> sizes)) log.
Proof.
  intros Hm Hj Hh. destruct (task_message_trace now s ctx msg h Hm Hh) as (s' & sizes & log & -> & Hlog).
  exists s', sizes, log. split; [done|]. cbv zeta in *.
  refine (task_trace_mono _ _ _ _ _ _ _ _ _ [] log (Forall_nil_2 _) (fun _ _ Ha => Ha) _ ltac:(rewrite app_nil_r; exact Hlog)).
  intros [[e He]|?]; [|done]. unfold ResultSubject, buildSubject, validateTenant in He.
  destruct Hm as (Ht & _). rewrite Ht, Hj in He. done.
Qed.

(** ** Abandoned collections *)

Lemma quiet_not_dropped log r k : Forall quiet log -> EDropped r k ∉ log.
Proof. rewrite Forall_forall. by intros H1 H2%H1. Qed.

Lemma task_trace_not_dropped ctx t k j P N h log r k' :
  task_trace ctx t k j P N h log -> EDropped r k' ∉ log.
Proof.
  destruct 1 as [pre call log Hp Hc Ht]. rewrite !elem_of_app. intros [H1|[H1|H1]].
  - by apply (quiet_not_dropped _ r k' Hp).
  - destruct Hc as [->|(e & -> & He)]; [set_solver|]. apply list_elem_of_singleton in H1. by subst.
  - destruct Ht as [log _ Hq|pre' ? ? ? post Hq _ _ _ Hq'|pre' ? ? ? post Hq _ _ _ Hq'];
      rewrite ?elem_of_app, ?elem_of_cons in H1; destruct_or?; try done;
      by eapply quiet_not_dropped; [|done].
Qed.

Context (uuid_canonical : string -> bool).

(** A control message the worker accepts as an abandon of [c]. *)
Definition abandon_message (c : AbandonedCollection) (m : Message) : Prop :=
  ParseAbandonedSubject uuid_canonical (msg_Subject m) = Ok c /\
  msg_TenantID m = ac_TenantID c /\ msg_Data m = "".

Lemma parsed_collection_id m c :
  ParseAbandonedSubject uuid_canonical (msg_Subject m) = Ok c -> ac_CollectionID c <> "".
Proof.
  unfold ParseAbandonedSubject. destruct (split_on "." (msg_Subject m)) as [|p0 [|p1 [|p2 [|p3 [|p4 [|p5 [|p6 [|]]]]]]]];
    try done. case_bool_decide; [|done]. destruct (AbandonedSubject _ _) as [s|] eqn:HA; [|done]. intros [= <-].
  apply AbandonedSubject_ok in HA as (_ & _ & Hi & _). simpl in *. by intros ->.
Qed.

Lemma handleAbandoned_accepts now now' s m c h :
  abandon_message c m -> wf now' s -> now' <= now ->
  exists s' r, handleAbandoned uuid_canonical now s m h = (Some s', h ++ (EGauge <$> r)) /\
    add now c s = Some (s', size s', r) /\ wf now s' /\ limit s' = limit s.
Proof.
  intros (Hp & Ht & Hd) Hw Hle. unfold handleAbandoned. rewrite Hp, Ht, Hd.
  rewrite !bool_decide_true by done. cbn [negb].
  destruct (add_spec now now' c s Hle Hw) as (s' & r & E & _ & Hw' & _ & Hl). rewrite E.
  unfold mbind, M_bind. rewrite emit_gauge_spec. eauto 7.
Qed.

(** From an accepted abandon on, the collection's task messages are dropped. *)
Lemma drop_after_abandon t s c m es2 now ctx h :
  wf t s -> (forall x, expires s !! c = Some x -> x <= t) -> abandon_message c m ->
  monotone es2 -> Forall (fun e => t <= e.1 <= now) es2 -> Z.of_nat (adds es2) < limit s ->
  t <= now < t + ttl s ->
  exists s1 h1 s2, handleAbandoned uuid_canonical t s m h = (Some s1, h1) /\ run_ops s1 es2 = Some s2 /\
    forall msg h2, task_message msg -> msg_collection msg = c ->
      exists s3 sizes, handleMessage llm_cfg now s2 ctx msg h2 =
        (s3, h2 ++ (EGauge <$> sizes) ++ [EDropped "abandoned" (ac_TaskType c)]).
Proof.
  intros Hw Hfresh Habn Hm2 Hall2 Hadds Hnow.
  destruct (handleAbandoned_accepts t t s m c h Habn Hw ltac:(lia)) as (s1 & r & E1 & Hadd & Hw1 & El1).
  destruct (run_ops_spec t now s1 es2 Hw1 Hm2 ltac:(lia) Hall2) as (s2 & Hrun2 & Hw2 & _ & _ & _).
  eexists s1, _, s2. split_and!; [done|done|]. intros msg h2 Hmsg Hc.
  destruct (handleMessage_task now s2 ctx msg h2 Hmsg) as (s3 & sizes & ->). exists s3, sizes.
  rewrite Hc. replace (held now s2 msg) with true; [done|]. symmetry. unfold held. rewrite Hc.
  rewrite bool_decide_false by (destruct Habn; by eapply parsed_collection_id). apply (contains_held _ _ _ _ Hw2).
  pose proof (fresh_add t t c s s1 r Hw ltac:(lia) Hfresh Hadd) as Hkept.
  assert (kept (0 + adds es2) c (t + ttl s) s2) as (_ & _ & _ & _ & Hc2); [|exists (t + ttl s); split; [done|lia]].
  eapply (run_ops_kept t s1); try done; [|rewrite El1; done].
  eapply Forall_impl; [exact Hall2|]. intros e He. simpl in He. lia.
Qed.

(** Abandons take effect and nothing else does. Take a worker's set after any
    history of calls. (1) If the worker then receives an abandon of [c] at [t]
    that no earlier abandon still covers, and handles fewer than [limit] more
    abandons, every task message of [c] it gets before [t + ttl] is dropped:
    no LLM call, no result, no tick, only the dropped counter. (2) A task
    message is dropped only if its own collection was abandoned less than a
    TTL ago. *)
Theorem abandoned_tasks_dropped (ttl limit t : Z) (es : list (Z * set_op)) (ctx : context) (h : list effect) :
  0 < limit -> monotone es -> Forall (fun e => e.1 <= t) es ->
  exists s, run_ops (newAbandonedSet ttl limit) es = Some s /\
    (forall c m es2 now, abandon_message c m -> (forall t', added es c t' -> t' + ttl <= t) ->
       monotone es2 -> Forall (fun e => t <= e.1 <= now) es2 -> Z.of_nat (adds es2) < limit ->
       t <= now < t + ttl ->
       exists s1 h1 s2, handleAbandoned uuid_canonical t s m h = (Some s1, h1) /\ run_ops s1 es2 = Some s2 /\
         forall msg h2, task_message msg -> msg_collection msg = c ->
           exists s3 sizes, handleMessage llm_cfg now s2 ctx msg h2 =
             (s3, h2 ++ (EGauge <$> sizes) ++ [EDropped "abandoned" (ac_TaskType c)])) /\
    (forall msg s' log, task_message msg -> handleMessage llm_cfg t s ctx msg h = (s', h ++ log) ->
       EDropped "abandoned" (ac_TaskType (msg_collection msg)) ∈ log ->
       exists t', added es (msg_collection msg) t' /\ t' <= t < t' + ttl).
Proof.
  intros Hl Hm Hall. destruct (run_from_new ttl limit es t Hl Hm Hall) as (s & Hrun & Hw & Et & El & Hx).
  exists s. split_and!; [done| |].
  - intros c m es2 now Habn Hfresh Hm2 Hall2 Hadds Hnow.
    apply drop_after_abandon; rewrite ?Et, ?El; try done.
    intros x Hc. destruct (Hx _ _ Hc) as (t' & Ht' & ->). auto.
  - intros msg s' log Hmsg E Hin. destruct (handleMessage_task t s ctx msg h Hmsg) as (s3 & sizes & E').
    destruct (held t s msg) eqn:Hh.
    + apply andb_true_iff in Hh as [_ Hc]. apply (contains_held _ _ _ _ Hw) in Hc as (x & Hc & Hlt).
      destruct (Hx _ _ Hc) as (t' & Ht' & ->). exists t'. split_and!; [done| |lia].
      rewrite Forall_forall in Hall. exact (Hall _ Ht').
    + destruct (task_message_trace t s ctx msg h Hmsg Hh) as (s'' & sizes' & log' & E'' & Htr). exfalso.
      rewrite E in E''. injection E'' as _ ->%app_inv_head. apply elem_of_app in Hin as [Hin|Hin].
      * by apply (quiet_not_dropped _ _ _ (gauges_quiet sizes')) in Hin.
      * exact (task_trace_not_dropped _ _ _ _ _ _ _ _ _ _ Htr Hin).
Qed.
End traces.

(** * Witnesses *)

Module Sample.
(** Protobuf values as text, payloads that carry one field, a bus that takes
    everything and a model that always answers. *)
#[local] Instance text_values : StructPB := {|
  Value := string;
  GetStringValue s := s;
  GetNumberValue _ := fzero;
  GetListValue _ := None;
  GetStructValue _ := None;
|}.

#[local] Instance world : World := {|
  Unmarshal d := Some {[ "text" := d ]};
  NewStruct m := match m !! "model" with Some (GString s) => Some {[ "model" := s ]} | _ => None end;
  Marshal p := Some (default "" (p !! "model"));
  llm_Complete _ req := Ok (mkCompletionResponse "1" (cr_Model req) [] (mkUsage 0 0 0) "");
  llm_Embed _ req := Ok (mkEmbeddingResponse [] (er_Model req) 0 0 "");
  bus_Publish _ _ _ _ := true;
  bus_Progress _ := true;
  content_hash _ := "";
|}.

#[local] Instance arch : GoArch := amd64.

Definition uuid_ok : string -> bool := fun s => bool_decide (s = sample_uuid).

Definition task_msg : Message :=
  mkMsg "crosscodex.work.acme-corp.embed.job-1" "hello"
    (<[headerTaskID := ["t1"]]> (<[headerTaskType := [TaskEmbed]]> (<[headerJobID := ["job-1"]]>
     {[headerCollectionID := [sample_uuid]]}))) "acme-corp".

Definition collection : AbandonedCollection := mkAbandoned "acme-corp" TaskEmbed "job-1" sample_uuid.

Definition control_msg : Message :=
  mkMsg ("crosscodex.control.acme-corp.embed.job-1." +:+ sample_uuid +:+ ".abandoned") "" ∅ "acme-corp".

Lemma task_msg_ok : task_message task_msg.
Proof. split_and!; vm_compute; done. Qed.

(** Here everything marshals, so the task is answered. *)
Lemma worker_answers_every_task_witness :
  held 0 (newAbandonedSet 10 2) task_msg = false /\
  (exists s' sizes log, handleMessage sample_config 0 (newAbandonedSet 10 2) Background task_msg [] = (s', [] ++ (EGauge <$> sizes) ++ log) /\
    task_trace (task_ctx Background task_msg) "acme-corp" TaskEmbed "job-1"
      (answer sample_config (task_ctx Background task_msg) "acme-corp" TaskEmbed "job-1" "t1" "hello" ([] ++ (EGauge <$> sizes))) False
      ([] ++ (EGauge <$> sizes)) log).
Proof.
  split; [vm_compute; reflexivity|].
  destruct (worker_answers_every_task sample_config 0 (newAbandonedSet 10 2) Background task_msg []) as (s' & sizes & log & Hrun & Htr);
    [exact task_msg_ok|vm_compute; reflexivity|vm_compute; reflexivity|].
  exists s', sizes, log. split; [exact Hrun|]. cbv zeta in Htr.
  refine (task_trace_mono _ _ _ _ _ _ _ _ _ [] log (Forall_nil_2 _) (fun _ _ Ha => Ha) _ ltac:(rewrite app_nil_r; exact Htr)).
  intros (r & _ & Hmar). discriminate Hmar.
Defined.

Lemma abandoned_tasks_dropped_witness :
  exists s1 h1, handleAbandoned uuid_ok 5 (newAbandonedSet 10 2) control_msg [] = (Some s1, h1) /\
    exists s3 sizes, handleMessage sample_config 14 s1 Background task_msg [] =
      (s3, [] ++ (EGauge <$> sizes) ++ [EDropped "abandoned" TaskEmbed]).
Proof.
  destruct (abandoned_tasks_dropped sample_config uuid_ok 10 2 5 [] Background []) as (s & Hs & Hd & _);
    [lia|constructor|constructor|].
  injection Hs as <-.
  destruct (Hd collection control_msg [] 14) as (s1 & h1 & s2 & E1 & E2 & Hall);
    [split_and!; vm_compute; reflexivity|intros t' Ht'; exfalso; exact (not_elem_of_nil _ Ht')
    |constructor|constructor|vm_compute; reflexivity|lia|].
  exists s1, h1. split; [exact E1|]. injection E2 as <-.
  exact (Hall task_msg [] task_msg_ok eq_refl).
Defined.
End Sample.
