(* ===== verification/WorkerRun.v ===== *)
(** The life of a worker: [Start], [Stop] and [dispatch] of
    [internal/worker/worker.go].

    [Lifecycle] is Start and Stop as functions of a worker's fields and of what
    the bus answers. [Tasks] is one [taskRun] as a transition system: every
    delivered message, its goroutine and [Stop] advance one channel, lock or
    wait-group operation at a time, in any interleaving. *)

From S2P Require Import Prelude.

(** * Definitions *)

Module Lifecycle.

Inductive worker_error :=
| ErrAlreadyStarted | ErrNoAbandonTTL | ErrNoAbandonedCollectionsLimit | ErrNoInFlightLimit
| ErrNotStarted | ErrSubscribeControl | ErrSubscribeWork
| ErrStop (drain_work drain_control in_flight : bool).   (* which parts of [errors.Join] failed *)

Inductive bus_call := SubscribeControl | QueueSubscribeWork | UnsubscribeControl | DrainWork | DrainControl.

(** The fields [Start] and [Stop] use; [started] is [w.sub != nil], when
    [controlSub] and [run] are set too. *)
Record Worker := mkWorker {
  abandonTTL : Z;
  MaxAbandonedCollections : Z;
  MaxInFlight : Z;
  started : bool;
}.

Definition set_started (w : Worker) (b : bool) : Worker :=
  mkWorker (abandonTTL w) (MaxAbandonedCollections w) (MaxInFlight w) b.

(** [ok c]: the bus call [c] succeeds. *)
Definition Start (ok : bus_call -> bool) (w : Worker) : Worker * option worker_error * list bus_call :=
  if started w then (w, Some ErrAlreadyStarted, [])
  else if (abandonTTL w <=? 0)%Z then (w, Some ErrNoAbandonTTL, [])
  else if (MaxAbandonedCollections w <=? 0)%Z then (w, Some ErrNoAbandonedCollectionsLimit, [])
  else if (MaxInFlight w <=? 0)%Z then (w, Some ErrNoInFlightLimit, [])
  else if negb (ok SubscribeControl) then (w, Some ErrSubscribeControl, [SubscribeControl])
  else if negb (ok QueueSubscribeWork) then
    (w, Some ErrSubscribeWork, [SubscribeControl; QueueSubscribeWork; UnsubscribeControl])
  else (set_started w true, None, [SubscribeControl; QueueSubscribeWork]).

(** [finished]: the running tasks end before the caller's context does. *)
Definition Stop (ok : bus_call -> bool) (finished : bool) (w : Worker)
  : Worker * option worker_error * list bus_call :=
  if negb (started w) then (w, Some ErrNotStarted, [])
  else
    let w' := set_started w false in
    if ok DrainWork && ok DrainControl && finished then (w', None, [DrainWork; DrainControl])
    else (w', Some (ErrStop (negb (ok DrainWork)) (negb (ok DrainControl)) (negb finished)),
          [DrainWork; DrainControl]).
End Lifecycle.

Module Tasks.

(** Where one delivered message is. *)
Inductive phase :=
| Selecting      (* in the first select of dispatch *)
| HasSlot        (* sent its token into [slots] *)
| Checking       (* holds [mu], before the second select *)
| Aborting       (* saw [stopping] under [mu], released it, still holds its slot *)
| Adding         (* [tasks.Add(1)] done, still holds [mu] *)
| Running        (* its goroutine runs [handleMessage] *)
| Releasing      (* its slot is free again, [tasks.Done] is due *)
| Finished
| Dropped.       (* [dropStopping] *)

(** Where [Stop] is, from [run.mu.Lock()] on; it gave up if its caller's context
    was done before the wait group. *)
Inductive stop_phase := NotStopped | StopLocked | StopClosed | StopWaiting | StopReturned | StopGaveUp.

#[export] Instance phase_eq_dec : EqDecision phase.
Proof. solve_decision. Defined.
#[export] Instance stop_phase_eq_dec : EqDecision stop_phase.
Proof. solve_decision. Defined.

Record taskRun := mkRun {
  capacity : nat;              (* cap(slots), WorkerConfig.MaxInFlight *)
  slots : nat;                 (* len(slots) *)
  stopping : bool;             (* [stopping] is closed *)
  locked : bool;               (* [mu] is held *)
  tasks : nat;                 (* the wait group's counter *)
  messages : list phase;       (* the messages delivered so far *)
  stop : stop_phase;
}.

Definition new_run (MaxInFlight : nat) : taskRun := mkRun MaxInFlight 0 false false 0 [] NotStopped.

Inductive label :=
| Deliver
| TakeSlot (i : nat) | DropStopping (i : nat)
| LockRun (i : nat) | SeeStopping (i : nat) | FreeSlot (i : nat)
| AddTask (i : nat) | UnlockRun (i : nat)
| EndTask (i : nat) | Done (i : nat)
| StopLock | StopClose | StopUnlock | StopReturn | StopGiveUp.

(** Message [i] moves from phase [p] to phase [q]. *)
Definition move (r : taskRun) (i : nat) (p q : phase) (slots' tasks' : nat) (locked' : bool) : option taskRun :=
  if bool_decide (messages r !! i = Some p)
  then Some (mkRun (capacity r) slots' (stopping r) locked' tasks' (<[i := q]> (messages r)) (stop r))
  else None.

Definition move_stop (r : taskRun) (p q : stop_phase) (stopping' locked' : bool) : option taskRun :=
  if bool_decide (stop r = p)
  then Some (mkRun (capacity r) (slots r) stopping' locked' (tasks r) (messages r) q)
  else None.

Definition step (r : taskRun) (l : label) : option taskRun :=
  match l with
  | Deliver => Some (mkRun (capacity r) (slots r) (stopping r) (locked r) (tasks r)
                       (messages r ++ [Selecting]) (stop r))
  | TakeSlot i => if slots r <? capacity r then move r i Selecting HasSlot (S (slots r)) (tasks r) (locked r) else None
  | DropStopping i => if stopping r then move r i Selecting Dropped (slots r) (tasks r) (locked r) else None
  | LockRun i => if locked r then None else move r i HasSlot Checking (slots r) (tasks r) true
  | SeeStopping i => if stopping r then move r i Checking Aborting (slots r) (tasks r) false else None
  | FreeSlot i => move r i Aborting Dropped (pred (slots r)) (tasks r) (locked r)
  | AddTask i => if stopping r then None else move r i Checking Adding (slots r) (S (tasks r)) (locked r)
  | UnlockRun i => move r i Adding Running (slots r) (tasks r) false
  | EndTask i => move r i Running Releasing (pred (slots r)) (tasks r) (locked r)
  | Done i => move r i Releasing Finished (slots r) (pred (tasks r)) (locked r)
  | StopLock => if locked r then None else move_stop r NotStopped StopLocked (stopping r) true
  | StopClose => move_stop r StopLocked StopClosed true (locked r)
  | StopUnlock => move_stop r StopClosed StopWaiting (stopping r) false
  | StopReturn => if tasks r =? 0 then move_stop r StopWaiting StopReturned (stopping r) (locked r) else None
  | StopGiveUp => move_stop r StopWaiting StopGaveUp (stopping r) (locked r)
  end.

Inductive reachable (n : nat) : taskRun -> Prop :=
| reach_new : reachable n (new_run n)
| reach_step r l r' : reachable n r -> step r l = Some r' -> reachable n r'.

(** ** The invariant *)

Definition holds_slot (p : phase) : bool :=
  match p with HasSlot | Checking | Aborting | Adding | Running => true | _ => false end.
Definition holds_task (p : phase) : bool :=
  match p with Adding | Running | Releasing => true | _ => false end.
Definition holds_lock (p : phase) : bool :=
  match p with Checking | Adding => true | _ => false end.
Definition is_adding (p : phase) : bool := match p with Adding => true | _ => false end.
Definition stop_holds_lock (s : stop_phase) : bool :=
  match s with StopLocked | StopClosed => true | _ => false end.
Definition closed_by (s : stop_phase) : bool :=
  match s with StopClosed | StopWaiting | StopReturned | StopGaveUp => true | _ => false end.

Record inv (r : taskRun) : Prop := {
  inv_slots : slots r = countb holds_slot (messages r);
  inv_cap : slots r <= capacity r;
  inv_tasks : tasks r = countb holds_task (messages r);
  inv_lock : Nat.b2n (locked r) = countb holds_lock (messages r) + Nat.b2n (stop_holds_lock (stop r));
  inv_closed : stopping r = closed_by (stop r);
  inv_returned : stop r = StopReturned -> tasks r = 0;
  inv_adding : stopping r = true -> countb is_adding (messages r) = 0;
}.

(** Message [i] moves: the five counts follow. *)
Lemma move_spec r i p q s t k r' :
  move r i p q s t k = Some r' ->
  r' = mkRun (capacity r) s (stopping r) k t (<[i := q]> (messages r)) (stop r) /\
  (forall f, countb f (messages r') + Nat.b2n (f p) = countb f (messages r) + Nat.b2n (f q)) /\
  (forall f, f p = true -> 0 < countb f (messages r)).
Proof.
  unfold move. case_bool_decide as Hi; [|done]. intros [= <-].
  split_and!; [done|intros f; by apply countb_insert|intros f; by eapply countb_pos].
Qed.

Ltac use_counts Hf :=
  pose proof (Hf holds_slot); pose proof (Hf holds_task); pose proof (Hf holds_lock);
  pose proof (Hf is_adding).

Ltac branch H :=
  match type of H with
  | (if ?b then None else _) = Some _ => destruct b eqn:?; [done|]
  | (if ?b then _ else None) = Some _ => destruct b eqn:?; [|done]
  end.

Lemma count_deliver f l : f Selecting = false -> countb f (l ++ [Selecting]) = countb f l.
Proof. intros E. rewrite countb_app, countb_cons, E. done. Qed.

Lemma run_step_inv r l r' : inv r -> step r l = Some r' -> inv r'.
Proof.
  intros [Hs Hc Ht Hl Hcl Hr Ha] Hstep.
  pose proof (countb_le is_adding holds_lock (messages r) ltac:(by intros [])) as Hadd.
  destruct l; cbn [step] in Hstep; try branch Hstep.
  all: try (apply move_spec in Hstep as (-> & Hf & Hp); use_counts Hf; use_counts Hp).
  all: try (unfold move_stop in Hstep; case_bool_decide as Hi; [|done]; injection Hstep as <-).
  all: try injection Hstep as <-.
  all: rewrite ?Nat.ltb_lt, ?Nat.eqb_eq in *; constructor; cbn -[countb] in *; rewrite ?count_deliver; try done.
  all: destruct (locked r), (stopping r) eqn:Hst, (stop r) eqn:Hsp; cbn -[countb] in *; simplify_eq; intros; try lia.
  all: try (specialize (Hr eq_refl)); try (specialize (Ha eq_refl)); try done; try lia.
Qed.

Lemma run_reachable_inv n r : reachable n r -> inv r /\ capacity r = n.
Proof.
  induction 1 as [|r l r' _ [Hi Hc] Hs].
  - split; [|done]. constructor; simpl; try done. lia.
  - split; [by eapply run_step_inv|]. rewrite <- Hc. destruct l; cbn [step] in Hs; try branch Hs;
      try (by apply move_spec in Hs as (-> & _)); try (unfold move_stop in Hs; case_bool_decide; [|done]);
      by injection Hs as <-.
Qed.

(** ** Progress *)

Definition rank (p : phase) : nat :=
  match p with
  | Selecting => 7 | HasSlot => 6 | Checking => 5 | Adding => 4 | Running => 3 | Aborting => 2
  | Releasing => 1 | Finished | Dropped => 0
  end.
Definition stop_rank (s : stop_phase) : nat :=
  match s with NotStopped => 4 | StopLocked => 3 | StopClosed => 2 | StopWaiting => 1 | StopReturned | StopGaveUp => 0 end.

(** How many steps a run can still make if nothing more is delivered. *)
Definition measure (r : taskRun) : nat := sum_list_with rank (messages r) + stop_rank (stop r).

Lemma sum_move l i p q :
  l !! i = Some p -> sum_list_with rank (<[i := q]> l) + rank p = sum_list_with rank l + rank q.
Proof.
  intros Hi. rewrite (insert_take_drop l i q) by by apply lookup_lt_Some in Hi.
  rewrite <- (take_drop_middle l i p Hi) at 3. rewrite !sum_list_with_app. simpl. lia.
Qed.

Lemma move_measure r i p q s t k r' :
  move r i p q s t k = Some r' -> rank q < rank p -> measure r' < measure r.
Proof.
  unfold move. case_bool_decide as Hi; [|done]. intros [= <-] Hq. unfold measure. simpl.
  pose proof (sum_move _ _ _ q Hi). lia.
Qed.

Lemma step_measure r l r' : step r l = Some r' -> l <> Deliver -> measure r' < measure r.
Proof.
  intros Hs Hl. destruct l; cbn [step] in Hs; try branch Hs; try done;
    try (eapply move_measure; [exact Hs|simpl; lia]);
    unfold move_stop in Hs; case_bool_decide as Hi; try done; injection Hs as <-;
    unfold measure; simpl; rewrite Hi; simpl; lia.
Qed.

(** No step is possible, unless a message is delivered or the context of the
    caller of [Stop] ends. *)
Definition stuck (r : taskRun) : Prop := forall l, l <> Deliver -> l <> StopGiveUp -> step r l = None.

Definition stop_over (r : taskRun) : Prop := stop r = StopReturned \/ stop r = StopGaveUp.

Lemma move_enabled r i p q s t k : messages r !! i = Some p -> move r i p q s t k <> None.
Proof. intros Hi. unfold move. by rewrite bool_decide_true. Qed.

Lemma move_stop_enabled r p q a b : stop r = p -> move_stop r p q a b <> None.
Proof. intros Hi. unfold move_stop. by rewrite bool_decide_true. Qed.

(** Whoever holds the lock can go on. *)
Lemma stuck_unlocked r : inv r -> stuck r -> locked r = false.
Proof.
  intros Hi Hs. destruct (locked r) eqn:Hl; [exfalso|done].
  pose proof (inv_lock _ Hi) as Hlock. rewrite Hl in Hlock. simpl in Hlock.
  destruct (stop_holds_lock (stop r)) eqn:Hst.
  - destruct (stop r) eqn:Hsp; try done.
    + by eapply (move_stop_enabled r StopLocked), (Hs StopClose).
    + by eapply (move_stop_enabled r StopClosed), (Hs StopUnlock).
  - assert (exists i p, messages r !! i = Some p /\ holds_lock p = true) as (i & p & Hp & Hh).
    { apply countb_exists. simpl in Hlock. lia. }
    destruct p; try done.
    + destruct (stopping r) eqn:Hstop.
      * pose proof (Hs (SeeStopping i) ltac:(done) ltac:(done)) as E. cbn [step] in E. rewrite Hstop in E.
        by eapply move_enabled in E.
      * pose proof (Hs (AddTask i) ltac:(done) ltac:(done)) as E. cbn [step] in E. rewrite Hstop in E.
        by eapply move_enabled in E.
    + by eapply move_enabled, (Hs (UnlockRun i)).
Qed.

Lemma stuck_messages r i p :
  inv r -> stuck r -> messages r !! i = Some p -> p = Selecting \/ p = Finished \/ p = Dropped.
Proof.
  intros Hi Hs Hp. pose proof (stuck_unlocked r Hi Hs) as Hl.
  pose proof (inv_lock _ Hi) as Hlock. rewrite Hl in Hlock. simpl in Hlock.
  pose proof (countb_zero holds_lock (messages r) ltac:(lia) i p Hp) as Hh.
  destruct p; auto; try done; exfalso.
  - pose proof (Hs (LockRun i) ltac:(done) ltac:(done)) as E. cbn [step] in E. rewrite Hl in E. by eapply move_enabled in E.
  - by eapply move_enabled, (Hs (FreeSlot i)).
  - by eapply move_enabled, (Hs (EndTask i)).
  - by eapply move_enabled, (Hs (Done i)).
Qed.

Lemma stuck_returned r : inv r -> stuck r -> stop_over r.
Proof.
  intros Hi Hs. pose proof (stuck_unlocked r Hi Hs) as Hl. unfold stop_over. destruct (stop r) eqn:Hsp; [..|by left|by right]; exfalso.
  - pose proof (Hs StopLock ltac:(done) ltac:(done)) as E. cbn [step] in E. rewrite Hl in E. by eapply move_stop_enabled in E.
  - by eapply (move_stop_enabled r StopLocked), (Hs StopClose).
  - by eapply (move_stop_enabled r StopClosed), (Hs StopUnlock).
  - pose proof (Hs StopReturn ltac:(done) ltac:(done)) as E. cbn [step] in E.
    assert (tasks r = 0) as Ht.
    { rewrite (inv_tasks _ Hi). apply countb_none. intros i p Hp.
      destruct (stuck_messages r i p Hi Hs Hp) as [->|[->| ->]]; done. }
    rewrite Ht in E. by eapply move_stop_enabled in E.
Qed.

Lemma move_running r i p q s t k r' j :
  move r i p q s t k = Some r' -> q <> Running ->
  messages r' !! j = Some Running -> messages r !! j = Some Running.
Proof.
  unfold move. case_bool_decide as Hi; [|done]. intros [= <-] Hq. simpl.
  destruct (decide (i = j)) as [->|Hne]; [|by rewrite list_lookup_insert_ne].
  rewrite list_lookup_insert_eq by by apply lookup_lt_Some in Hi. congruence.
Qed.

Lemma no_start r l r' i :
  inv r -> stopping r = true -> step r l = Some r' ->
  messages r' !! i = Some Running -> messages r !! i = Some Running.
Proof.
  intros Hi Hst Hs. destruct l; cbn [step] in Hs; try branch Hs; try congruence;
    try (by eapply move_running; [exact Hs|]);
    try (unfold move_stop in Hs; case_bool_decide; [|done]; by injection Hs as <-).
  - injection Hs as <-. simpl. rewrite lookup_app_Some. intros [?|[_ H1]]; [done|].
    apply list_lookup_singleton_Some in H1 as [_ H1]. done.
  - unfold move in Hs. case_bool_decide as Hadd; [|done].
    by pose proof (countb_zero _ _ (inv_adding _ Hi Hst) _ _ Hadd).
Qed.

(** * Properties *)

(** Whatever messages arrive and however the goroutines interleave, a worker
    never runs more than its [MaxInFlight] tasks; once [Stop] has closed
    [stopping], no step starts a task; and once [Stop] has returned, no task
    is running. *)
Theorem tasks_bounded (n : nat) (r : taskRun) :
  reachable n r ->
  countb (fun p => bool_decide (p = Running)) (messages r) <= n /\
  (stopping r = true -> forall l r', step r l = Some r' ->
     forall i, messages r' !! i = Some Running -> messages r !! i = Some Running) /\
  (stop r = StopReturned -> forall i p, messages r !! i = Some p -> holds_task p = false).
Proof.
  intros [Hi Hc]%run_reachable_inv. split_and!.
  - pose proof (countb_le (fun p => bool_decide (p = Running)) holds_slot (messages r)
      ltac:(by intros p ->%bool_decide_eq_true)). pose proof (inv_slots _ Hi). pose proof (inv_cap _ Hi). lia.
  - intros Hst l r' Hs i. by eapply no_start.
  - intros Hr. apply countb_zero. rewrite <- (inv_tasks _ Hi). by apply inv_returned.
Qed.

(** C20. [Stop] always finishes. If nothing more is delivered, every sequence of
    steps from a reachable state has at most [measure] steps. Where no further
    step is possible, whether or not the context of [Stop]'s caller ever ends,
    [Stop] has returned and every message was either finished or dropped: no
    deadlock between the lock, the slots and the wait group. [Stop] returns
    while tasks run only if it gave up because that context ended. *)
Theorem stop_terminates (n : nat) (r : taskRun) :
  reachable n r ->
  (forall ls r', foldl (fun o l => o ≫= fun r => step r l) (Some r) ls = Some r' ->
     Deliver ∉ ls -> length ls + measure r' <= measure r) /\
  (stuck r -> stop_over r /\ forall i p, messages r !! i = Some p -> p = Finished \/ p = Dropped) /\
  (forall l r', step r l = Some r' -> ~ stop_over r -> stop_over r' -> l = StopGiveUp \/ tasks r = 0).
Proof.
  intros [Hi Hc]%run_reachable_inv. split_and!.
  - clear Hi Hc. intros ls. revert r. induction ls as [|l ls IH]; intros r r' Hrun Hd.
    { injection Hrun as <-. simpl. lia. }
    simpl in Hrun. destruct (step r l) as [r1|] eqn:E.
    + apply IH in Hrun; [|set_solver]. apply step_measure in E; [|set_solver]. simpl. lia.
    + exfalso. clear -Hrun. induction ls; simpl in Hrun; [done|auto].
  - intros Hs. pose proof (stuck_returned r Hi Hs) as Hr. split; [done|]. intros i p Hp.
    destruct (stuck_messages r i p Hi Hs Hp) as [->|[->| ->]]; auto. exfalso.
    pose proof (Hs (DropStopping i) ltac:(done) ltac:(done)) as E. cbn [step] in E.
    rewrite (inv_closed _ Hi) in E. destruct Hr as [Hr|Hr]; rewrite Hr in E; by eapply move_enabled in E.
  - intros l r' Hs Hno Hover. unfold stop_over in *. destruct l; cbn [step] in Hs; try branch Hs; [..|by left].
    all: try (apply move_spec in Hs as (-> & _)); try (injection Hs as <-); try done.
    all: unfold move_stop in Hs; case_bool_decide; [|done]; injection Hs as <-; cbn in Hover; try (by destruct Hover).
    right. by apply Nat.eqb_eq.
Qed.
End Tasks.

(** * Witnesses *)

Module Runs.
Import Tasks.

(** One message runs to its end while a second is dropped by [Stop]. *)
Definition sample_labels : list label :=
  [Deliver; TakeSlot 0; LockRun 0; AddTask 0; UnlockRun 0; Deliver; StopLock; StopClose; StopUnlock;
   DropStopping 1; EndTask 0; Done 0; StopReturn].

Definition run_labels (n : nat) (ls : list label) : option taskRun :=
  foldl (fun o l => o ≫= fun r => step r l) (Some (new_run n)) ls.

Lemma run_labels_snoc n ls l : run_labels n (ls ++ [l]) = run_labels n ls ≫= fun r => step r l.
Proof. unfold run_labels. by rewrite foldl_app. Qed.

Lemma run_labels_reachable n ls r : run_labels n ls = Some r -> reachable n r.
Proof.
  revert r. induction ls as [|l ls IH] using rev_ind; intros r Hr.
  - injection Hr as <-. constructor.
  - rewrite run_labels_snoc in Hr. destruct (run_labels n ls) as [r0|]; [|done].
    eapply reach_step; [by apply IH|done].
Qed.

Definition sample_end : taskRun := mkRun 1 0 true false 0 [Finished; Dropped] StopReturned.

Lemma sample_end_reachable : reachable 1 sample_end.
Proof. apply (run_labels_reachable 1 sample_labels). vm_compute. reflexivity. Qed.

Lemma tasks_bounded_witness :
  stop sample_end = StopReturned /\ forall i p, messages sample_end !! i = Some p -> holds_task p = false.
Proof.
  split; [reflexivity|].
  apply (proj2 (proj2 (tasks_bounded 1 sample_end sample_end_reachable))). reflexivity.
Defined.

Lemma sample_end_stuck : stuck sample_end.
Proof.
  intros l Hl Hg. destruct l as [|i|i|i|i|i|i|i|i|i| | | | |]; try done; cbn [step sample_end];
    try reflexivity; destruct i as [|[|[|i]]]; reflexivity.
Qed.

Lemma stop_terminates_witness :
  stop_over sample_end /\
  (forall i p, messages sample_end !! i = Some p -> p = Finished \/ p = Dropped).
Proof.
  exact (proj1 (proj2 (stop_terminates 1 sample_end sample_end_reachable)) sample_end_stuck).
Defined.

(** [Stop] gives up on a task that runs on; the task still ends. *)
Example stop_gives_up :
  (fun r => (stop r, messages r)) <$> run_labels 1 [Deliver; TakeSlot 0; LockRun 0; AddTask 0; UnlockRun 0; StopLock; StopClose; StopUnlock; StopGiveUp]
    = Some (StopGaveUp, [Running]) /\
  (fun r => (stop r, messages r)) <$> run_labels 1 [Deliver; TakeSlot 0; LockRun 0; AddTask 0; UnlockRun 0; StopLock; StopClose; StopUnlock; StopGiveUp;
      EndTask 0; Done 0] = Some (StopGaveUp, [Finished]).
Proof. split; vm_compute; reflexivity. Qed.
End Runs.
