(* ===== verification/Collector.v ===== *)
(** The analysis collector and dispatcher: [internal/analysis/collector.go],
    [dispatcher.go], [backoff.go] and the collection handle of [types.go].

    One collection is a transition system. Its threads are the NATS callback
    ([handler], which runs under [mu] from its first check to its last send,
    so one step), the goroutine of every scheduled retry, the monitor goroutine
    and the caller of [AwaitResults]; the timers may fire at any time. A send
    to [resultChan] is possible only while its buffer has room. [log] records
    what the collection publishes after its first dispatch: retries and the
    abandon. Spans, metrics and log lines are left out. *)

From S2P Require Import Prelude Float64 Regexp Tenant Subjects Bus Gostrings Llm Abandoned Worker.

Open Scope Z_scope.

(** * Definitions *)

(** ** Errors *)

Inductive task_error := task_output_truncated | task_timeout | task_invalid | task_failed.

Definition sanitizeError (errorMsg : string) : task_error :=
  if bool_decide (errorMsg = ResultErrorOutputTruncated) then task_output_truncated
  else
    let lower := ToLower errorMsg in
    if Contains lower "timeout" || Contains lower "deadline" then task_timeout
    else if Contains lower "invalid" || Contains lower "malformed" then task_invalid
    else task_failed.

(** [errors.Is(taskErr, llmclient.ErrOutputTruncated)]. *)
Definition is_truncated (e : task_error) : bool :=
  match e with task_output_truncated => true | _ => false end.

(** The errors a task result carries; all but [Truncated] wrap ErrRetryExhausted. *)
Inductive result_error :=
| RetryExhausted (e : task_error)
| MissingTask
| RedispatchFailed
| Truncated (e : task_error).

Inductive collect_error :=
| CENoTenant (e : tenant_error)
| CENoStageTimeout
| CESubject (e : subject_error)
| CESubscribe
| CEPublish
| CEMarshal.

(** ** Backoff *)

(** [r] is the value [rand.Float64()] returned. *)
Definition computeBackoff `{GoArch} (attempt : nat) (base : Z) (r : float64) : Z :=
  if base <=? 0 then 0
  else
    let multiplier := pow2 attempt in
    let backoff := fmul (fof_Z base) multiplier in
    let jitter := fadd (fconst 3 4) (fmul r (fconst 1 2)) in
    let backoff := fmul backoff jitter in
    let result := go_int backoff in
    if result <? 0 then 0 else result.

(** ** Tasks *)

Record Task (P : Type) := mkTask {
  t_TaskID : string;
  t_TaskType : string;
  t_Payload : P;
}.
Arguments mkTask {P} _ _ _.
Arguments t_TaskID {P} _.
Arguments t_TaskType {P} _.
Arguments t_Payload {P} _.

Record TaskResult (R : Type) := mkResult {
  TaskID : string;
  TaskType : string;
  Result : option R;
  Error : option result_error;
}.
Arguments mkResult {R} _ _ _ _.
Arguments TaskID {R} _.
Arguments TaskType {R} _.
Arguments Result {R} _.
Arguments Error {R} _.

(** ** Dispatcher *)

Definition headerRetryCount : string := "X-Retry-Count".

Section dispatcher.
Context {P : Type} (MarshalPayload : P -> option string).

Definition task_headers (taskID taskType jobID collectionID : string) (retryCount : Z)
  : gmap string (list string) :=
  <[headerTaskID := [taskID]]> (<[headerTaskType := [taskType]]> (<[headerJobID := [jobID]]>
  (<[headerRetryCount := [Itoa retryCount]]> {[headerCollectionID := [collectionID]]}))).

(** [publish subject data headers] is the bus; the second component is what
    was handed to it. *)
Definition publishTask (publish : string -> string -> gmap string (list string) -> bool)
    (ctx : context) (task : Task P) (taskType jobID collectionID : string) (retryCount : Z)
  : result collect_error unit * list (string * string * gmap string (list string)) :=
  match FromContext ctx with
  | Err e => (Err (CENoTenant e), [])
  | Ok tenantID =>
      match WorkSubject tenantID taskType jobID with
      | Err e => (Err (CESubject e), [])
      | Ok subject =>
          match MarshalPayload (t_Payload task) with
          | None => (Err CEMarshal, [])
          | Some data =>
              let headers := task_headers (t_TaskID task) taskType jobID collectionID retryCount in
              (if publish subject data headers then Ok tt else Err CEPublish, [(subject, data, headers)])
          end
      end
  end.

Fixpoint Dispatch (publish : string -> string -> gmap string (list string) -> bool)
    (ctx : context) (tasks : list (Task P)) (taskType jobID collectionID : string)
  : result collect_error unit * list (string * string * gmap string (list string)) :=
  match tasks with
  | [] => (Ok tt, [])
  | task :: rest =>
      match publishTask publish ctx task taskType jobID collectionID 0 with
      | (Err e, sent) => (Err e, sent)
      | (Ok _, sent) =>
          let '(r, sent') := Dispatch publish ctx rest taskType jobID collectionID in (r, sent ++ sent')
      end
  end.
End dispatcher.

(** ** The collection *)

(** Where a retry goroutine is. *)
Inductive retry_phase :=
| RWaiting       (* in its select *)
| RFired         (* its timer fired; waits for [redispatchMu] *)
| RLocked        (* holds [redispatchMu] *)
| RFailed        (* Redispatch failed; about to remove the task from pending *)
| RSending       (* removed it; about to send the failure *)
| REnded.

#[export] Instance retry_phase_eq_dec : EqDecision retry_phase.
Proof. solve_decision. Defined.

(** Where the caller is, from PrepareCollect's return on. *)
Inductive await_phase :=
| Prepared                    (* before AwaitResults *)
| Awaiting                    (* in its select loop *)
| Draining                    (* saw [doneChan], empties [resultChan] *)
| Ending (complete : bool)    (* in the deferred release *)
| Abandoning                  (* released, about to abandon *)
| Returned (complete : bool).

#[export] Instance await_phase_eq_dec : EqDecision await_phase.
Proof. solve_decision. Defined.

(** A retry handed to the dispatcher, with its retry count and whether
    Redispatch succeeded; and the abandon. *)
Inductive publication :=
| PubRetry (taskID : string) (retryCount : Z) (ok : bool)
| PubAbandon.

Section collector.
Context {P R : Type} (UnmarshalResult : string -> option R).

Record CollectRequest := mkRequest {
  q_TaskType : string;
  q_JobID : string;
  q_ExpectedIDs : list string;
  q_Tasks : list (Task P);
  q_StageTimeout : Z;
  q_MaxRetries : Z;
}.

Record retry := mkRetry {
  g_task : Task P;
  g_retry : Z;
  g_phase : retry_phase;
}.

Record collection := mkCollection {
  req : CollectRequest;
  tenant : string;
  pending : gset string;
  retryCounts : gmap string Z;
  retries : list retry;
  redispatchLocked : bool;
  released : bool;
  resultChan : list (TaskResult R);
  progress : bool;
  doneChan : bool;               (* closed *)
  monitor : bool;                (* the monitor goroutine runs *)
  await : await_phase;
  results : list (TaskResult R);
  log : list publication;
}.

Definition taskMap (q : CollectRequest) : gmap string (Task P) :=
  foldl (fun m t => <[t_TaskID t := t]> m) ∅ (q_Tasks q).

(** The checks of [PrepareCollect] and the state its closures start from.
    [uuid] is the fresh collection ID, [sub_ok] and [progress_ok] whether the
    two subscriptions succeed. *)
Definition PrepareCollect (uuid_canonical : string -> bool) (uuid : string) (sub_ok progress_ok : bool)
    (ctx : context) (q : CollectRequest) : result collect_error (collection * string) :=
  match FromContext ctx with
  | Err e => Err (CENoTenant e)
  | Ok tenantID =>
      if q_StageTimeout q <=? 0 then Err CENoStageTimeout
      else
        match ResultSubject tenantID (q_TaskType q) (q_JobID q) with
        | Err e => Err (CESubject e)
        | Ok subject =>
            match AbandonedSubject uuid_canonical
                    (mkAbandoned tenantID (q_TaskType q) (q_JobID q) uuid) with
            | Err e => Err (CESubject e)
            | Ok abandonSubject =>
                if negb sub_ok then Err CESubscribe
                else if negb progress_ok then Err CESubscribe
                else
                  Ok (mkCollection q tenantID (list_to_set (q_ExpectedIDs q)) ∅ [] false false [] false false
                        false Prepared [] [], abandonSubject)
            end
        end
  end.

(** ** Field updates *)

Definition set_handler (c : collection) (p : gset string) (rc : gmap string Z) (g : list retry)
    (ch : list (TaskResult R)) : collection :=
  mkCollection (req c) (tenant c) p rc g (redispatchLocked c) (released c) ch (progress c) (doneChan c)
    (monitor c) (await c) (results c) (log c).

Definition set_retry (c : collection) (i : nat) (r : retry) (locked : bool) (p : gset string)
    (ch : list (TaskResult R)) (l : list publication) : collection :=
  mkCollection (req c) (tenant c) p (retryCounts c) (<[i := r]> (retries c)) locked (released c) ch
    (progress c) (doneChan c) (monitor c) (await c) (results c) l.

Definition set_await (c : collection) (ch : list (TaskResult R)) (pr done mon : bool) (a : await_phase)
    (rs : list (TaskResult R)) : collection :=
  mkCollection (req c) (tenant c) (pending c) (retryCounts c) (retries c) (redispatchLocked c) (released c)
    ch pr done mon a rs (log c).

Definition set_end (c : collection) (rel : bool) (a : await_phase) (l : list publication) : collection :=
  mkCollection (req c) (tenant c) (pending c) (retryCounts c) (retries c) (redispatchLocked c) rel
    (resultChan c) (progress c) (doneChan c) (monitor c) a (results c) l.

(** [resultChan] is buffered with one place per expected ID. *)
Definition room (c : collection) : bool :=
  (length (resultChan c) <? length (q_ExpectedIDs (req c)))%nat.

(** ** The callback *)

(** What a result message says: a payload or an error. *)
Definition message_outcome (msg : Message) : option R + task_error :=
  let errorMsg := getHeader (msg_Headers msg) "X-Error" in
  if negb (bool_decide (errorMsg = "")) then inr (sanitizeError errorMsg)
  else if bool_decide (String.length (msg_Data msg) = 0%nat) then inl None
  else
    match UnmarshalResult (msg_Data msg) with
    | Some s => inl (Some s)
    | None => inr task_failed
    end.

(** Remove the task from pending and send its result: blocked while full. *)
Definition finish (c : collection) (rc : gmap string Z) (r : TaskResult R) : option collection :=
  if room c
  then Some (set_handler c (pending c ∖ {[TaskID r]}) rc (retries c) (resultChan c ++ [r]))
  else None.

Definition handler (ctx : context) (c : collection) (msg : Message) : option collection :=
  let taskID := getHeader (msg_Headers msg) headerTaskID in
  if bool_decide (taskID = "") then Some c
  else if negb (bool_decide (taskID ∈ pending c)) then Some c
  else
    match message_outcome msg with
    | inr taskErr =>
        let retryCount := default 0 (retryCounts c !! taskID) in
        if (retryCount <? q_MaxRetries (req c)) && negb (is_truncated taskErr) then
          match (WithTenant ctx (tenant c)).2 with
          | Some _ => Some c
          | None =>
              let rc := <[taskID := retryCount + 1]> (retryCounts c) in
              match taskMap (req c) !! taskID with
              | None => finish c rc (mkResult taskID (q_TaskType (req c)) None (Some MissingTask))
              | Some task =>
                  Some (set_handler c (pending c) rc (retries c ++ [mkRetry task retryCount RWaiting]) (resultChan c))
              end
          end
        else
          finish c (retryCounts c)
            (mkResult taskID (q_TaskType (req c)) None
               (Some (if is_truncated taskErr then Truncated taskErr else RetryExhausted taskErr)))
    | inl resultPayload =>
        finish c (retryCounts c) (mkResult taskID (q_TaskType (req c)) resultPayload None)
    end.

(** ** The transition system *)

Inductive label :=
| LMessage (ctx : context) (msg : Message)
| LTick                                     (* a worker progress tick *)
| LTimer (i : nat) | LGiveUp (i : nat) | LLock (i : nat) | LSeeReleased (i : nat)
| LRedispatch (i : nat) (ok : bool) | LDelete (i : nat) | LSend (i : nat)
| LMonitor
| LStart | LDispatchFailed
| LReceive | LProgress | LDone | LDrain | LDrained
| LGiveUpWaiting                            (* cancelled, idle timeout or stage cap *)
| LRelease | LAbandon.

(** Retry [i], when it is in phase [p]. *)
Definition retry_at (c : collection) (i : nat) (p : retry_phase) : option retry :=
  match retries c !! i with
  | Some g => if bool_decide (g_phase g = p) then Some g else None
  | None => None
  end.

Definition to_phase (g : retry) (p : retry_phase) : retry := mkRetry (g_task g) (g_retry g) p.

Definition when (b : bool) (c : collection) : option collection := if b then Some c else None.

Definition step_retry (c : collection) (l : label) : option collection :=
  match l with
  | LTimer i =>
      g ← retry_at c i RWaiting;
      Some (set_retry c i (to_phase g RFired) (redispatchLocked c) (pending c) (resultChan c) (log c))
  | LGiveUp i =>
      g ← retry_at c i RWaiting;
      Some (set_retry c i (to_phase g REnded) (redispatchLocked c) (pending c) (resultChan c) (log c))
  | LLock i =>
      g ← retry_at c i RFired;
      when (negb (redispatchLocked c))
        (set_retry c i (to_phase g RLocked) true (pending c) (resultChan c) (log c))
  | LSeeReleased i =>
      g ← retry_at c i RLocked;
      when (released c) (set_retry c i (to_phase g REnded) false (pending c) (resultChan c) (log c))
  | LRedispatch i ok =>
      g ← retry_at c i RLocked;
      let l := log c ++ [PubRetry (t_TaskID (g_task g)) (g_retry g + 1) ok] in
      when (negb (released c))
        (if ok then set_retry c i (to_phase g REnded) false (pending c) (resultChan c) l
         else set_retry c i (to_phase g RFailed) true (pending c) (resultChan c) l)
  | LDelete i =>
      g ← retry_at c i RFailed;
      Some (set_retry c i (to_phase g RSending) true (pending c ∖ {[t_TaskID (g_task g)]}) (resultChan c) (log c))
  | LSend i =>
      g ← retry_at c i RSending;
      when (room c)
        (set_retry c i (to_phase g REnded) false (pending c)
           (resultChan c ++ [mkResult (t_TaskID (g_task g)) (t_TaskType (g_task g)) None (Some RedispatchFailed)])
           (log c))
  | _ => None
  end.

Definition step_await (c : collection) (l : label) : option collection :=
  match l, await c with
  | LStart, Prepared =>
      Some (set_await c (resultChan c) (progress c) (doneChan c) true Awaiting (results c))
  | LDispatchFailed, Prepared =>
      Some (set_await c (resultChan c) (progress c) (doneChan c) (monitor c) (Ending false) (results c))
  | LReceive, Awaiting =>
      match resultChan c with
      | r :: ch => Some (set_await c ch (progress c) (doneChan c) (monitor c) Awaiting (results c ++ [r]))
      | [] => None
      end
  | LProgress, Awaiting =>
      when (progress c) (set_await c (resultChan c) false (doneChan c) (monitor c) Awaiting (results c))
  | LDone, Awaiting =>
      when (doneChan c) (set_await c (resultChan c) (progress c) (doneChan c) (monitor c) Draining (results c))
  | LDrain, Draining =>
      match resultChan c with
      | r :: ch => Some (set_await c ch (progress c) (doneChan c) (monitor c) Draining (results c ++ [r]))
      | [] => None
      end
  | LDrained, Draining =>
      match resultChan c with
      | [] => Some (set_await c [] (progress c) (doneChan c) (monitor c) (Ending true) (results c))
      | _ => None
      end
  | LGiveUpWaiting, Awaiting =>
      Some (set_await c (resultChan c) (progress c) (doneChan c) (monitor c) (Ending false) (results c))
  | LRelease, Ending complete =>
      when (negb (redispatchLocked c))
        (set_end c true (if complete then Returned true else Abandoning) (log c))
  | LAbandon, Abandoning => Some (set_end c (released c) (Returned false) (log c ++ [PubAbandon]))
  | _, _ => None
  end.

Definition step (c : collection) (l : label) : option collection :=
  match l with
  | LMessage ctx msg => handler ctx c msg
  | LTick => Some (set_await c (resultChan c) true (doneChan c) (monitor c) (await c) (results c))
  | LMonitor =>
      when (monitor c && bool_decide (pending c = ∅))
        (set_await c (resultChan c) (progress c) true false (await c) (results c))
  | LTimer _ | LGiveUp _ | LLock _ | LSeeReleased _ | LRedispatch _ _ | LDelete _ | LSend _ => step_retry c l
  | _ => step_await c l
  end.

(** The collections reachable from a prepared one by labels [ok]. *)
Inductive reachable (ok : label -> Prop) (c0 : collection) : collection -> Prop :=
| reach_start : reachable ok c0 c0
| reach_step c l c' : reachable ok c0 c -> ok l -> step c l = Some c' -> reachable ok c0 c'.

(** What [PrepareCollect] returns. *)
Definition fresh (c : collection) : Prop :=
  exists t q, c = mkCollection q t (list_to_set (q_ExpectedIDs q)) ∅ [] false false [] false false
                    false Prepared [] [] /\ ValidateTenantID t = Ok tt.

Definition run (c : collection) (ls : list label) : option collection :=
  foldl (fun o l => o ≫= fun c => step c l) (Some c) ls.
End collector.

Arguments CollectRequest P : clear implicits.
Arguments retry P : clear implicits.
Arguments collection P R : clear implicits.
