(* ===== verification/CollectorFacts.v ===== *)
(** What a collection promises: the lemmas and properties of Collector. *)

From S2P Require Import Prelude Float64 Regexp Tenant Subjects Bus Gostrings Llm Abandoned Worker Collector.

Open Scope Z_scope.

Section collector.
Context {P R : Type} (UnmarshalResult : string -> option R).
Implicit Types c : collection P R.
Abbreviation step := (step UnmarshalResult).
Abbreviation handler := (handler UnmarshalResult).

(** ** What one step does *)

Lemma retry_at_Some c i p g :
  retry_at c i p = Some g <-> retries c !! i = Some g /\ g_phase g = p.
Proof.
  unfold retry_at. destruct (retries c !! i) as [g'|]; [|naive_solver].
  case_bool_decide; naive_solver.
Qed.

Lemma when_Some b c c' : when b c = Some c' <-> b = true /\ c = c'.
Proof. unfold when. destruct b; naive_solver. Qed.

(** A step of the callback: nothing, a new retry, or a task's last result. *)
Inductive handler_case (c c' : collection P R) : Prop :=
| HNothing : c' = c -> handler_case c c'
| HRetry id task :
    id ∈ pending c -> taskMap (req c) !! id = Some task ->
    default 0 (retryCounts c !! id) < q_MaxRetries (req c) ->
    c' = set_handler c (pending c) (<[id := default 0 (retryCounts c !! id) + 1]> (retryCounts c))
           (retries c ++ [mkRetry task (default 0 (retryCounts c !! id)) RWaiting]) (resultChan c) ->
    handler_case c c'
| HFinish r rc :
    TaskID r ∈ pending c -> room c = true ->
    (rc = retryCounts c \/
     default 0 (retryCounts c !! TaskID r) < q_MaxRetries (req c) /\
     rc = <[TaskID r := default 0 (retryCounts c !! TaskID r) + 1]> (retryCounts c)) ->
    c' = set_handler c (pending c ∖ {[TaskID r]}) rc (retries c) (resultChan c ++ [r]) ->
    handler_case c c'.

Lemma finish_case c c' rc (r : TaskResult R) :
  TaskID r ∈ pending c ->
  (rc = retryCounts c \/ default 0 (retryCounts c !! TaskID r) < q_MaxRetries (req c) /\
     rc = <[TaskID r := default 0 (retryCounts c !! TaskID r) + 1]> (retryCounts c)) ->
  finish c rc r = Some c' -> handler_case c c'.
Proof. intros Hp Hrc. unfold finish. destruct (room c) eqn:E; [|done]. intros [= <-]. by eapply HFinish. Qed.

Lemma handler_spec ctx c msg c' : handler ctx c msg = Some c' -> handler_case c c'.
Proof.
  unfold handler. case_bool_decide; [intros [= <-]; by apply HNothing|].
  case_bool_decide as Hp; cbn [negb]; [|intros [= <-]; by apply HNothing].
  set (id := getHeader _ _) in *. clearbody id.
  destruct (message_outcome _ msg) as [r|e].
  { apply finish_case; simpl; auto. }
  destruct (_ && _) eqn:E.
  - apply andb_true_iff in E as [E%Z.ltb_lt _]. destruct (WithTenant _ _).2; [intros [= <-]; by apply HNothing|].
    destruct (taskMap (req c) !! id) as [t|] eqn:Et; [intros [= <-]; by eapply HRetry|].
    apply finish_case; simpl; auto.
  - apply finish_case; simpl; auto.
Qed.

(** A task whose result says its output was truncated is never retried. *)
Lemma truncated_not_retried ctx c msg c' :
  message_outcome UnmarshalResult msg = inr task_output_truncated -> handler ctx c msg = Some c' ->
  retries c' = retries c.
Proof.
  intros Ho. unfold handler. case_bool_decide; [by intros [= <-]|]. destruct (negb _); [by intros [= <-]|].
  rewrite Ho. cbn [is_truncated negb]. rewrite andb_false_r. unfold finish.
  destruct (room c); [|done]. by intros [= <-].
Qed.

Lemma taskMap_id (q : CollectRequest P) id t : taskMap q !! id = Some t -> t_TaskID t = id.
Proof.
  unfold taskMap. assert (forall m : gmap string (Task P), (forall i x, m !! i = Some x -> t_TaskID x = i) ->
    foldl (fun m t => <[t_TaskID t := t]> m) m (q_Tasks q) !! id = Some t -> t_TaskID t = id) as H.
  { induction (q_Tasks q) as [|x l IH]; intros m Hm; simpl; [apply Hm|]. apply IH.
    intros i y [[<- <-]|[_ Hy]]%lookup_insert_Some; [done|by apply Hm]. }
  apply H. intros i x Hx. by rewrite lookup_empty in Hx.
Qed.

(** ** Safety under every interleaving *)

Definition holds_phase (p : retry_phase) : bool :=
  match p with RLocked | RFailed | RSending => true | _ => false end.
Definition fails_phase (p : retry_phase) : bool :=
  match p with RFailed | RSending => true | _ => false end.
Definition open_phase (p : retry_phase) : bool :=
  match p with RWaiting | RFired | RLocked => true | _ => false end.

Definition holds_redispatch (g : retry P) : bool := holds_phase (g_phase g).
Definition fails (g : retry P) : bool := fails_phase (g_phase g).

(** A retry of task [id] that may still be published. *)
Definition unpublished (id : string) (g : retry P) : bool :=
  bool_decide (t_TaskID (g_task g) = id) && open_phase (g_phase g).

Definition retry_of (id : string) (p : publication) : bool :=
  match p with PubRetry i _ _ => bool_decide (i = id) | PubAbandon => false end.

Definition past_release (a : await_phase) : bool :=
  match a with Abandoning | Returned _ => true | _ => false end.

Record inv (c : collection P R) : Prop := {
  inv_lock : Nat.b2n (redispatchLocked c) = countb holds_redispatch (retries c);
  inv_released : released c = past_release (await c);
  inv_quiet : released c = true -> countb fails (retries c) = 0%nat;
  inv_abandon : match await c with
                | Returned false => exists l, log c = l ++ [PubAbandon] /\ PubAbandon ∉ l
                | _ => PubAbandon ∉ log c
                end;
  inv_counts : forall id n, retryCounts c !! id = Some n -> 0 <= n <= Z.max 0 (q_MaxRetries (req c));
  inv_budget : forall id, Z.of_nat (countb (retry_of id) (log c) + countb (unpublished id) (retries c)) <=
                          default 0 (retryCounts c !! id);
}.

Lemma fresh_inv c : fresh c -> inv c.
Proof.
  intros (t & q & -> & _). constructor; simpl; try done; set_solver.
Qed.

Lemma counts_bound c id :
  inv c -> 0 <= default 0 (retryCounts c !! id) <= Z.max 0 (q_MaxRetries (req c)).
Proof.
  intros Hi. destruct (retryCounts c !! id) as [n|] eqn:E; simpl; [by eapply inv_counts|lia].
Qed.

Lemma handler_inv c c' : inv c -> handler_case c c' -> inv c'.
Proof.
  intros Hi. destruct 1 as [->|id task Hp Ht Hmax ->|r rc Hp Hroom Hrc ->]; [done|..].
  - pose proof (counts_bound c id Hi) as Hb. destruct Hi as [Hl Hr Hq Ha Hc Hbud].
    constructor; cbn -[countb]; rewrite ?countb_app, ?countb_cons; cbn -[countb]; try done.
    + rewrite Hl. cbn. lia.
    + intros Hrel. rewrite Hq by done. done.
    + intros i n [[<- <-]|[_ Hn]]%lookup_insert_Some; [lia|eauto].
    + intros i. rewrite countb_app, countb_cons. specialize (Hbud i). cbn -[countb].
      unfold unpublished at 2. cbn. rewrite (taskMap_id _ _ _ Ht), andb_true_r.
      destruct (decide (id = i)) as [->|Hne].
      * rewrite bool_decide_true, lookup_insert_eq by done. cbn. lia.
      * rewrite bool_decide_false, lookup_insert_ne by done. cbn. lia.
  - pose proof (counts_bound c (TaskID r) Hi) as Hb. destruct Hi as [Hl Hr Hq Ha Hc Hbud].
    destruct Hrc as [->|[Hmax ->]]; constructor; cbn -[countb]; try done.
    + intros i n [[<- <-]|[_ Hn]]%lookup_insert_Some; [lia|eauto].
    + intros i. specialize (Hbud i). destruct (decide (TaskID r = i)) as [<-|Hne].
      * rewrite lookup_insert_eq. cbn. lia.
      * rewrite lookup_insert_ne by done. lia.
Qed.

(** A step of retry [i]: it moves to phase [p], and the shared state changes
    as [locked], [pend], [ch] and [l] say. *)
Inductive retry_case (c c' : collection P R) : Prop :=
| RCase i g p locked pend ch l :
    retries c !! i = Some g -> c' = set_retry c i (to_phase g p) locked pend ch l ->
    match g_phase g, p with
    | RWaiting, RFired | RWaiting, REnded =>
        locked = redispatchLocked c /\ pend = pending c /\ ch = resultChan c /\ l = log c
    | RFired, RLocked =>
        redispatchLocked c = false /\ locked = true /\ pend = pending c /\ ch = resultChan c /\ l = log c
    | RLocked, REnded =>
        locked = false /\ pend = pending c /\ ch = resultChan c /\
        (released c = true /\ l = log c \/
         released c = false /\ l = log c ++ [PubRetry (t_TaskID (g_task g)) (g_retry g + 1) true])
    | RLocked, RFailed =>
        locked = true /\ pend = pending c /\ ch = resultChan c /\ released c = false /\
        l = log c ++ [PubRetry (t_TaskID (g_task g)) (g_retry g + 1) false]
    | RFailed, RSending =>
        locked = true /\ pend = pending c ∖ {[t_TaskID (g_task g)]} /\ ch = resultChan c /\ l = log c
    | RSending, REnded =>
        locked = false /\ pend = pending c /\ room c = true /\ l = log c /\
        ch = resultChan c ++ [mkResult (t_TaskID (g_task g)) (t_TaskType (g_task g)) None (Some RedispatchFailed)]
    | _, _ => False
    end -> retry_case c c'.

Lemma step_retry_spec c l c' : step_retry c l = Some c' -> retry_case c c'.
Proof.
  intros H. destruct l as [| |i|i|i|i|i ok|i|i| | | | | | | | | | |]; try done; cbn [step_retry] in H;
    destruct (retry_at c i _) as [g|] eqn:E; simplify_eq/=;
    apply retry_at_Some in E as [Hg Hph]; try apply when_Some in H as [Hb <-]; simplify_eq.
  - eapply (RCase _ _ i g RFired); [done..|]. by rewrite Hph.
  - eapply (RCase _ _ i g REnded); [done..|]. by rewrite Hph.
  - eapply (RCase _ _ i g RLocked); [done..|]. rewrite Hph. apply negb_true_iff in Hb. done.
  - eapply (RCase _ _ i g REnded); [done..|]. rewrite Hph. auto 6.
  - apply negb_true_iff in Hb. destruct ok.
    + eapply (RCase _ _ i g REnded); [done..|]. rewrite Hph. auto 7.
    + eapply (RCase _ _ i g RFailed); [done..|]. rewrite Hph. auto 7.
  - eapply (RCase _ _ i g RSending); [done..|]. by rewrite Hph.
  - eapply (RCase _ _ i g REnded); [done..|]. by rewrite Hph.
Qed.

(** How a retry's move changes the counts. *)
Lemma retry_counts c i g p id :
  retries c !! i = Some g ->
  let own := bool_decide (t_TaskID (g_task g) = id) in
  (countb holds_redispatch (<[i := to_phase g p]> (retries c)) + Nat.b2n (holds_phase (g_phase g)) =
   countb holds_redispatch (retries c) + Nat.b2n (holds_phase p) /\
   countb fails (<[i := to_phase g p]> (retries c)) + Nat.b2n (fails_phase (g_phase g)) =
   countb fails (retries c) + Nat.b2n (fails_phase p) /\
   countb (unpublished id) (<[i := to_phase g p]> (retries c)) + Nat.b2n (own && open_phase (g_phase g)) =
   countb (unpublished id) (retries c) + Nat.b2n (own && open_phase p))%nat.
Proof.
  intros Hg own. split_and!.
  - apply (countb_insert holds_redispatch _ i g (to_phase g p) Hg).
  - apply (countb_insert fails _ i g (to_phase g p) Hg).
  - apply (countb_insert (unpublished id) _ i g (to_phase g p) Hg).
Qed.

Lemma abandon_snoc (a : await_phase) (l : list publication) id n ok :
  past_release a = false ->
  match a with Returned false => exists l', l = l' ++ [PubAbandon] /\ PubAbandon ∉ l' | _ => PubAbandon ∉ l end ->
  match a with
  | Returned false => exists l', l ++ [PubRetry id n ok] = l' ++ [PubAbandon] /\ PubAbandon ∉ l'
  | _ => PubAbandon ∉ l ++ [PubRetry id n ok]
  end.
Proof. destruct a as [| | | | |[]]; set_solver. Qed.

Lemma retry_inv c c' : inv c -> retry_case c c' -> inv c'.
Proof.
  intros [Hl Hr Hq Ha Hc Hb]. destruct 1 as [i g p locked pend ch l Hg -> Hcase].
  pose proof (fun id => retry_counts c i g p id Hg) as Hcnt.
  pose proof (Hcnt "") as (Hh & Hf & _).
  assert (forall id, Z.of_nat (countb (retry_of id) l + countb (unpublished id) (<[i := to_phase g p]> (retries c)))
    <= default 0 (retryCounts c !! id)) as Hb'.
  { intros id. specialize (Hb id). destruct (Hcnt id) as (_ & _ & Hu). revert Hu Hcase.
    destruct (g_phase g), p; try done; cbn -[countb]; intros Hu Hcase; destruct_and?; subst;
      try match goal with H : _ \/ _ |- _ => destruct H as [[? ->]|[? ->]] end;
      rewrite ?countb_snoc; cbn -[countb] in *;
      destruct (bool_decide (t_TaskID (g_task g) = id)); cbn -[countb] in *; lia. }
  assert (Nat.b2n (redispatchLocked c) <= 1)%nat as H1 by (destruct (redispatchLocked c); simpl; lia).
  assert (holds_phase (g_phase g) = true -> 0 < countb holds_redispatch (retries c))%nat as H2
    by by apply (countb_pos holds_redispatch _ i g).
  clear Hcnt Hb. revert Hh Hf Hcase H2. destruct (g_phase g) eqn:Hph, p; try done; cbn -[countb];
    intros Hh Hf Hcase H2; destruct_and?; subst; try specialize (H2 eq_refl);
    try match goal with H : _ \/ _ |- _ => destruct H as [[? ->]|[? ->]] end;
    constructor; cbn -[countb] in *; try done; try lia;
    try (by apply abandon_snoc; congruence).
  all: try (match goal with H : redispatchLocked _ = false |- _ => rewrite H in * end; cbn -[countb] in *; lia).
  all: intros Hrel; specialize (Hq Hrel); lia || congruence.
Qed.

Lemma await_inv c l c' : inv c -> step_await c l = Some c' -> inv c'.
Proof.
  intros [Hl Hr Hq Ha Hc Hb] H. unfold step_await in H.
  destruct l; try done; destruct (await c) eqn:Haw; try done;
    try (destruct (resultChan c); [|done] || (destruct (resultChan c); [done|]));
    try apply when_Some in H as [Hg <-]; simplify_eq;
    constructor; cbn -[countb] in *; try done; try congruence.
  - by destruct complete.
  - intros _. apply negb_true_iff in Hg. rewrite Hg in Hl. simpl in Hl.
    pose proof (countb_le fails holds_redispatch (retries c)
      ltac:(intros g; unfold fails, holds_redispatch; by destruct (g_phase g))). lia.
  - by destruct complete.
  - eauto.
  - intros id. rewrite countb_snoc. specialize (Hb id). simpl. lia.
Qed.

(** The three kinds of step that change what the invariants speak of. *)
Inductive step_case (c : collection P R) (l : label) (c' : collection P R) : Prop :=
| SHandler ctx msg : l = LMessage ctx msg -> handler_case c c' -> step_case c l c'
| SRetry : step_retry c l = Some c' -> step_case c l c'
| SAwait : step_await c l = Some c' -> step_case c l c'
| STick : c' = set_await c (resultChan c) true (doneChan c) (monitor c) (await c) (results c) -> step_case c l c'
| SMonitor : pending c = ∅ -> monitor c = true ->
    c' = set_await c (resultChan c) (progress c) true false (await c) (results c) -> step_case c l c'.

Lemma step_spec c l c' : step c l = Some c' -> step_case c l c'.
Proof.
  destruct l; cbn [Collector.step]; intros H;
    try (by apply SAwait); try (by apply SRetry).
  - eapply SHandler; [done|]. by eapply handler_spec.
  - apply STick. by injection H.
  - apply when_Some in H as [Hb <-]. apply andb_true_iff in Hb as [Hm Hp%bool_decide_eq_true].
    by apply SMonitor.
Qed.

Lemma step_inv c l c' : inv c -> step c l = Some c' -> inv c'.
Proof.
  intros Hi Hs. destruct (step_spec _ _ _ Hs) as [ctx msg -> H|H|H| -> |_ _ -> ].
  - by eapply handler_inv.
  - by eapply retry_inv, step_retry_spec.
  - by eapply await_inv.
  - by destruct Hi.
  - by destruct Hi.
Qed.

Lemma reachable_inv ok c0 c : fresh c0 -> reachable UnmarshalResult ok c0 c -> inv c.
Proof. intros Hf. induction 1; [by apply fresh_inv|by eapply step_inv]. Qed.

Lemma step_req c l c' : step c l = Some c' -> req c' = req c.
Proof.
  intros Hs. destruct (step_spec _ _ _ Hs) as [ctx msg -> H|H|H| -> |_ _ -> ]; try done.
  - by destruct H as [-> | | ]; subst.
  - by destruct (step_retry_spec _ _ _ H); subst.
  - unfold step_await in H. destruct l; try done; destruct (await c); try done;
      try (destruct (resultChan c); try done); try apply when_Some in H as [_ <-]; by simplify_eq.
Qed.

Lemma reachable_req ok c0 c : reachable UnmarshalResult ok c0 c -> req c = req c0.
Proof. induction 1 as [|c l c' _ IH _ Hs]; [done|]. rewrite <- IH. by eapply step_req. Qed.

(** Once released, a collection publishes nothing but its abandon. *)
Lemma released_log c l c' :
  inv c -> released c = true -> step c l = Some c' ->
  log c' = log c \/ await c = Abandoning /\ log c' = log c ++ [PubAbandon].
Proof.
  intros Hi Hrel Hs. destruct (step_spec _ _ _ Hs) as [ctx msg -> H|H|H| -> |_ _ -> ]; auto.
  - destruct H as [-> | | ]; subst; auto.
  - destruct (step_retry_spec _ _ _ H) as [i g p ? ? ? l' Hg -> Hcase]. left. simpl.
    destruct (g_phase g), p; try done; destruct_and?; destruct_or?; destruct_and?; congruence.
  - unfold step_await in H. destruct l; try done; destruct (await c) eqn:Haw; try done;
      try (destruct (resultChan c); try done); try apply when_Some in H as [_ <-]; simplify_eq; auto.
Qed.

(** ** Exactness when no redispatch fails *)

Definition no_failure (l : label) : Prop := forall i, l <> LRedispatch i false.

Record exact (c : collection P R) : Prop := {
  ex_nodup : NoDup (TaskID <$> results c ++ resultChan c);
  ex_ids : forall id, id ∈ TaskID <$> results c ++ resultChan c <->
                      id ∈ q_ExpectedIDs (req c) /\ id ∉ pending c;
  ex_pending : forall id, id ∈ pending c -> id ∈ q_ExpectedIDs (req c);
  ex_nofail : countb fails (retries c) = 0%nat;
  ex_done : doneChan c = true -> pending c = ∅;
  ex_end : match await c with
           | Draining => pending c = ∅
           | Ending true | Returned true => pending c = ∅ /\ resultChan c = []
           | _ => True
           end;
}.

Lemma fresh_exact c : fresh c -> exact c.
Proof.
  intros (t & q & -> & _). constructor; simpl; try done.
  - apply NoDup_nil. done.
  - intros id. rewrite elem_of_list_to_set, elem_of_nil. tauto.
  - intros id. by rewrite elem_of_list_to_set.
Qed.

Lemma end_empty (a : await_phase) (p : gset string) (ch : list (TaskResult R)) :
  match a with
  | Draining => p = ∅
  | Ending true | Returned true => p = ∅ /\ ch = []
  | _ => True
  end -> p <> ∅ -> match a with Draining | Ending true | Returned true => False | _ => True end.
Proof. destruct a as [| | |[]| |[]]; naive_solver. Qed.

Lemma handler_exact c c' : exact c -> handler_case c c' -> exact c'.
Proof.
  intros [Hn Hids Hp Hf Hd He]. destruct 1 as [-> |id task Hid Ht Hmax -> |r rc Hid Hroom Hrc -> ]; [done|..].
  - constructor; simpl; try done. by rewrite countb_snoc, Hf.
  - assert (pending c <> ∅) as Hne by set_solver.
    pose proof (end_empty _ _ _ He Hne) as Hend. constructor; simpl; try done.
    + rewrite app_assoc, fmap_app. apply NoDup_app. split_and!; [done| |apply NoDup_singleton].
      intros id Hin ->%list_elem_of_singleton. by apply Hids in Hin as [_ Hin].
    + intros id. rewrite app_assoc, fmap_app. change (TaskID <$> [r]) with [TaskID r].
      rewrite elem_of_app, Hids, list_elem_of_singleton, elem_of_difference, elem_of_singleton. split.
      * intros [[? ?]| ->]; [tauto|]. split; [by apply Hp|tauto].
      * intros [? Hnot]. destruct (decide (id = TaskID r)) as [-> |]; [by right|]. left. tauto.
    + set_solver.
    + intros Hdone. by apply Hd in Hdone.
    + by destruct (await c) as [| | |[]| |[]].
Qed.

Lemma fails_at c i g : exact c -> retries c !! i = Some g -> fails g = false.
Proof. intros Hx. apply countb_zero. by apply ex_nofail. Qed.

(** A retry step that is not a failed redispatch touches neither pending nor
    the results. *)
Lemma retry_exact c l c' : exact c -> no_failure l -> step_retry c l = Some c' -> exact c'.
Proof.
  intros Hx Hl H. pose proof (fails_at c) as Hfail.
  assert (exists i g p k l', retries c !! i = Some g /\ fails_phase p = false /\
    c' = set_retry c i (to_phase g p) k (pending c) (resultChan c) l') as (i & g & p & k & l' & Hg & Hp & ->).
  { destruct l as [| |i|i|i|i|i ok|i|i| | | | | | | | | | |]; try done; cbn [step_retry] in H;
      destruct (retry_at c i _) as [g|] eqn:E; simplify_eq/=;
      pose proof E as [Hg Hph]%retry_at_Some; try apply when_Some in H as [Hb <-]; simplify_eq;
      try (specialize (Hfail i g Hx Hg); unfold fails in Hfail; by rewrite Hph in Hfail);
      try (destruct ok; [|by destruct (Hl i)]).
    all: eexists i, g, _, _, _; split; [exact Hg|]; split; [|reflexivity]; done. }
  destruct Hx as [Hn Hids Hpd Hf Hd He]. constructor; simpl; try done.
  pose proof (countb_insert fails _ i g (to_phase g p) Hg) as Hc. unfold fails in Hc at 2 4.
  cbn [to_phase g_phase] in Hc. rewrite Hp, Hf in Hc. simpl in Hc. lia.
Qed.

Lemma await_exact c l c' : exact c -> step_await c l = Some c' -> exact c'.
Proof.
  intros [Hn Hids Hp Hf Hd He] H. unfold step_await in H.
  destruct l; try done; destruct (await c) eqn:Haw; try done;
    try (destruct (resultChan c) as [|r ch] eqn:Ech; try done);
    try apply when_Some in H as [Hg <-]; simplify_eq;
    constructor; cbn -[countb] in *; rewrite ?Haw, ?Ech in *; try done;
    try (by rewrite <- app_assoc); try (by auto).
  all: by destruct complete.
Qed.

Lemma step_exact c l c' : exact c -> no_failure l -> step c l = Some c' -> exact c'.
Proof.
  intros Hx Hl Hs. destruct (step_spec _ _ _ Hs) as [ctx msg -> H|H|H| -> |Hp _ -> ].
  - by eapply handler_exact.
  - by eapply retry_exact.
  - by eapply await_exact.
  - by destruct Hx.
  - by destruct Hx.
Qed.

Lemma reachable_exact c0 c : fresh c0 -> reachable UnmarshalResult no_failure c0 c -> exact c.
Proof. intros Hf. induction 1; [by apply fresh_exact|by eapply step_exact]. Qed.

(** A pending task leaves room for its result. *)
Lemma pending_room c id : exact c -> id ∈ pending c -> room c = true.
Proof.
  intros [Hn Hids Hp _ _ _] Hid. unfold room. apply Nat.ltb_lt.
  assert (NoDup (id :: (TaskID <$> results c ++ resultChan c))) as Hnd.
  { constructor; [|done]. rewrite Hids. tauto. }
  assert (length (id :: (TaskID <$> results c ++ resultChan c)) <= length (q_ExpectedIDs (req c)))%nat as Hlen.
  { apply submseteq_length, NoDup_submseteq; [done|]. intros x [-> |Hx]%elem_of_cons; [by apply Hp|].
    by apply Hids in Hx as [? _]. }
  simpl in Hlen. rewrite length_fmap, length_app in Hlen. lia.
Qed.

(** * Properties *)

(** C16. Retries and abandons of a collection, under every interleaving of results,
    timers, cancellations and publish failures. No task is redispatched more
    than [MaxRetries] times. The abandon is published at most once, only by a
    collection that ended incomplete, and it is the last word: no retry is
    published once [release] has returned, and none follows the abandon. *)
Theorem collector_publishes_safely (ok : label -> Prop) (c0 c : collection P R) :
  fresh c0 -> reachable UnmarshalResult ok c0 c ->
  (forall id, Z.of_nat (countb (retry_of id) (log c)) <= Z.max 0 (q_MaxRetries (req c0))) /\
  (forall l1 l2, log c = l1 ++ PubAbandon :: l2 -> await c = Returned false /\ l2 = [] /\ PubAbandon ∉ l1) /\
  (released c = true -> forall l c', step c l = Some c' ->
     log c' = log c \/ await c = Abandoning /\ log c' = log c ++ [PubAbandon]).
Proof.
  intros Hf Hr. pose proof (reachable_inv _ _ _ Hf Hr) as Hi. split_and!.
  - intros id. rewrite <- (reachable_req _ _ _ Hr). pose proof (inv_budget _ Hi id).
    pose proof (counts_bound c id Hi). lia.
  - intros l1 l2 Hlog. pose proof (inv_abandon _ Hi) as Ha.
    destruct (await c) as [| | | | |[]]; try (by exfalso; apply Ha; rewrite Hlog; set_solver).
    destruct Ha as (l & El & Hn). rewrite El in Hlog. split; [done|].
    destruct l2 as [|x l2] using rev_ind.
    + apply app_inj_tail in Hlog as [-> _]. done.
    + rewrite app_comm_cons, app_assoc in Hlog. apply app_inj_tail in Hlog as [-> _].
      exfalso. apply Hn. set_solver.
  - intros Hrel l c'. by apply released_log.
Qed.

(** C15. A collection is exact as long as no Redispatch call fails: however results
    (repeated, late, for other tasks), timers and goroutines interleave, the
    callback never blocks on a full channel, and when [AwaitResults] returns
    without an error its results are those of the expected tasks, each exactly
    once. *)
Theorem collector_collects_exactly (c0 c : collection P R) :
  fresh c0 -> reachable UnmarshalResult no_failure c0 c ->
  (forall ctx msg, handler ctx c msg <> None) /\
  (await c = Returned true -> NoDup (TaskID <$> results c) /\
     forall id, id ∈ TaskID <$> results c <-> id ∈ q_ExpectedIDs (req c0)).
Proof.
  intros Hf Hr. pose proof (reachable_exact _ _ Hf Hr) as Hx. split.
  - intros ctx msg. unfold Collector.handler. case_bool_decide; [done|].
    case_bool_decide as Hp; [|done]. pose proof (pending_room _ _ Hx Hp) as Hroom. cbn [negb].
    unfold finish. rewrite Hroom. destruct (message_outcome _ msg); [done|].
    destruct (_ && _); [|done]. destruct (WithTenant _ _).2; [done|]. by destruct (taskMap _ !! _).
  - intros Haw. pose proof (ex_end _ Hx) as He. rewrite Haw in He. destruct He as [Hp Hch].
    pose proof (ex_nodup _ Hx) as Hn. pose proof (ex_ids _ Hx) as Hids.
    rewrite Hch, app_nil_r, Hp in *. rewrite (reachable_req _ _ _ Hr) in Hids.
    split; [done|]. intros id. rewrite Hids. set_solver.
Qed.
End collector.

(** * Witnesses and counterexamples *)

Module Sample.
Definition request : CollectRequest unit :=
  mkRequest TaskEmbed "job-1" ["t1"; "t2"] [mkTask "t1" "embedding" tt; mkTask "t2" "embedding" tt] 60 1.

Definition start : collection unit unit :=
  mkCollection request "acme-corp" (list_to_set ["t1"; "t2"]) ∅ [] false false [] false false false Prepared [] [].

Lemma start_fresh : fresh start.
Proof. exists "acme-corp", request. split; [reflexivity|vm_compute; reflexivity]. Qed.

Definition decode (_ : string) : option unit := Some tt.

Definition result_msg (id : string) (err : string) : Message :=
  mkMsg "crosscodex.results.acme-corp.embed.job-1" ""
    (if bool_decide (err = "") then {[headerTaskID := [id]]}
     else <["X-Error" := [err]]> {[headerTaskID := [id]]}) "acme-corp".

Definition msg (id err : string) : label := LMessage Background (result_msg id err).

Lemma run_reachable (ok : label -> Prop) (c : collection unit unit) ls c' :
  Forall ok ls -> run decode c ls = Some c' -> reachable decode ok c c'.
Proof.
  revert c'. induction ls as [|l ls IH] using rev_ind; intros c' Hok Hr.
  - injection Hr as <-. constructor.
  - apply Forall_app in Hok as [Hok Hl]. apply Forall_cons in Hl as [Hl _]. unfold run in Hr. rewrite foldl_app in Hr.
    fold (run decode c ls) in Hr. simpl in Hr. destruct (run decode c ls) as [c1|] eqn:E; [|done].
    exact (reach_step _ _ _ _ _ _ (IH _ Hok eq_refl) Hl Hr).
Qed.

(** [t1] fails once, is retried and succeeds; a repeated result is ignored. *)
Definition good_run : list label :=
  [LStart; msg "t1" "llm_error"; LTimer 0; msg "t2" ""; LLock 0; LRedispatch 0 true; LReceive; msg "t2" "";
   msg "t1" ""; LMonitor; LDone; LDrain; LDrained; LRelease].

Definition good_end : collection unit unit :=
  default start (run decode start good_run).

Lemma good_reachable : reachable decode no_failure start good_end.
Proof.
  apply (run_reachable _ _ good_run); [|vm_compute; reflexivity].
  unfold good_run. repeat (apply Forall_cons; split; [intros i; discriminate|]). by apply Forall_nil.
Qed.

Lemma collector_collects_exactly_witness :
  await good_end = Returned true /\ NoDup (TaskID <$> results good_end) /\
  (forall id, id ∈ TaskID <$> results good_end <-> id ∈ ["t1"; "t2"]).
Proof.
  split; [vm_compute; reflexivity|].
  apply (proj2 (collector_collects_exactly decode start good_end start_fresh good_reachable)).
  vm_compute. reflexivity.
Defined.

(** The collection is cancelled while [t1] waits to be retried. *)
Definition cancelled_run : list label :=
  [LStart; msg "t1" "llm_error"; LTimer 0; LGiveUpWaiting; LRelease; LAbandon; LLock 0].
Definition cancelled_end : collection unit unit := default start (run decode start cancelled_run).

Lemma collector_publishes_safely_witness :
  log cancelled_end = [PubAbandon] /\
  (forall l c', step decode cancelled_end l = Some c' -> log c' = [PubAbandon]).
Proof.
  assert (reachable decode (fun _ => True) start cancelled_end) as Hr
    by (apply (run_reachable _ _ cancelled_run); [by apply Forall_true|vm_compute; reflexivity]).
  split; [vm_compute; reflexivity|]. intros l c' Hs.
  destruct (collector_publishes_safely decode (fun _ => True) start cancelled_end start_fresh Hr) as (_ & _ & H3).
  destruct (H3 eq_refl l c' Hs) as [E|[E _]]; [rewrite E; reflexivity|discriminate E].
Defined.

(** [t1]'s redispatch fails. Its goroutine removes it from pending, and before
    it sends the failure the monitor sees nothing pending. *)
Definition lost_run : list label :=
  [LStart; msg "t2" ""; msg "t1" "llm_error"; LTimer 0; LLock 0; LRedispatch 0 false; LDelete 0;
   LReceive; LMonitor; LDone; LDrained; LSend 0; LRelease].
End Sample.

(** A collection can return without an error although a task has no result:
    when a redispatch fails, the task leaves pending before its failure is
    sent, and AwaitResults may finish in between. The failure then sits in a
    channel nobody reads. *)
Theorem collector_can_lose_a_failure :
  exists c, reachable Sample.decode (fun _ => True) Sample.start c /\
    await c = Returned true /\ TaskID <$> results c = ["t2"] /\ "t1" ∈ q_ExpectedIDs (req c) /\
    TaskID <$> resultChan c = ["t1"].
Proof.
  exists (default Sample.start (run Sample.decode Sample.start Sample.lost_run)). split.
  - apply (Sample.run_reachable _ _ Sample.lost_run); [by apply Forall_true|vm_compute; reflexivity].
  - split_and!; vm_compute; try reflexivity. left.
Qed.
