(* ===== verification/EndToEnd.v ===== *)
(** Collector, bus and worker together: the messages the analysis side
    publishes are the ones the worker side understands. *)

From S2P Require Import Prelude Float64 Regexp Tenant Subjects Bus Gostrings Llm Abandoned Worker Collector.

Open Scope Z_scope.

Section end_to_end.
Context `{W : World} `{GoArch} (llm_cfg : LLMConfig) (uuid_canonical : string -> bool).
Context {P R : Type} (MarshalPayload : P -> option string).
Context (sha256_hex : string -> string).
Hypothesis sha256_nonempty : forall d, sha256_hex d <> "".

(** The trace and span IDs and the clock of a publish: hexadecimal digits and
    a formatted time, never empty. *)
Record stamp := mkStamp { ids : string * string; time : string }.
Definition stamped (s : stamp) : Prop := (ids s).1 <> "" /\ (ids s).2 <> "" /\ time s <> "".

(** [msg] is what a subscriber gets when [data] is published on [subject]
    with these headers, under [ctx]'s tenant. *)
Definition delivered (s : stamp) (ctx : context) (subject data : string) (h : gmap string (list string))
    (msg : Message) : Prop :=
  exists m, PublishWithHeaders sha256_hex false true (ids s) (time s) ctx subject data h = Ok m /\
    wrapHandler sha256_hex m = Some msg.

Lemma delivered_spec s ctx t subject data h msg :
  stamped s -> FromContext ctx = Ok t -> delivered s ctx subject data h msg ->
  msg_Subject msg = subject /\ msg_Data msg = data /\ msg_TenantID msg = t /\
  forall k, k ∉ provenance_keys -> msg_Headers msg !! k = h !! k.
Proof.
  intros (H1 & H2 & H3) Ht (m & Hp & Hw).
  destruct (publish_receive sha256_hex sha256_nonempty (ids s) (time s) ctx subject data h t H1 H2 H3 Ht)
    as (m' & msg' & Hp' & Hw' & Hmsg).
  rewrite Hp in Hp'. injection Hp' as <-. rewrite Hw in Hw'. injection Hw' as <-. done.
Qed.

Lemma getHeader_delivered k (h h' : gmap string (list string)) v :
  k ∉ provenance_keys -> (forall k, k ∉ provenance_keys -> h !! k = h' !! k) ->
  h' !! k = Some [v] -> getHeader h k = v.
Proof. intros Hk Heq Hv. unfold getHeader. by rewrite Heq, Hv. Qed.

(** A dispatched task arrives at a worker as a task message of its collection. *)
Lemma task_delivered publish ctx t task k j uuid n subject data h s msg :
  stamped s -> FromContext ctx = Ok t -> t_TaskID task <> "" -> k <> "" -> ValidateTenantID t = Ok tt ->
  (subject, data, h) ∈ (publishTask MarshalPayload publish ctx task k j uuid n).2 ->
  delivered s ctx subject data h msg ->
  task_message msg /\ msg_collection msg = mkAbandoned t k j uuid.
Proof.
  intros Hs Ht Hid Hk Hv Hin Hd. pose proof (delivered_spec _ _ _ _ _ _ _ Hs Ht Hd) as (_ & _ & Hten & Hh).
  unfold publishTask in Hin. rewrite Ht in Hin.
  destruct (WorkSubject t k j) as [sub|]; [|by apply elem_of_nil in Hin].
  destruct (MarshalPayload (t_Payload task)) as [d|]; [|by apply elem_of_nil in Hin].
  apply list_elem_of_singleton in Hin. injection Hin as -> -> ->.
  assert (getHeader (msg_Headers msg) headerTaskID = t_TaskID task /\
          getHeader (msg_Headers msg) headerTaskType = k /\ getHeader (msg_Headers msg) headerJobID = j /\
          getHeader (msg_Headers msg) headerCollectionID = uuid) as (E1 & E2 & E3 & E4).
  { split_and!; eapply getHeader_delivered; try exact Hh; try done;
      unfold provenance_keys; vm_compute; set_solver. }
  split.
  - by split_and!; rewrite ?Hten, ?E1, ?E2.
  - unfold msg_collection. by rewrite Hten, E2, E3, E4.
Qed.

(** The abandon a collection publishes is accepted by a worker as an abandon
    of that collection. *)
Lemma abandon_delivered ctx actx t q uuid c0 subject s m :
  stamped s -> FromContext ctx = Ok t -> FromContext actx = Ok t ->
  PrepareCollect (P := P) (R := R) uuid_canonical uuid true true ctx q = Ok (c0, subject) ->
  delivered s actx subject "" ∅ m ->
  abandon_message uuid_canonical (mkAbandoned t (q_TaskType q) (q_JobID q) uuid) m /\
  q_TaskType q <> "" /\ ValidateTenantID t = Ok tt.
Proof.
  intros Hs Ht Hat Hprep Hd. pose proof (delivered_spec _ _ _ _ _ _ _ Hs Hat Hd) as (Hsub & Hdata & Hten & _).
  unfold PrepareCollect in Hprep. rewrite Ht in Hprep. destruct (q_StageTimeout q <=? 0); [done|].
  destruct (ResultSubject t (q_TaskType q) (q_JobID q)); [|done].
  destruct (AbandonedSubject _ _) as [sub|] eqn:HA; [|done]. injection Hprep as _ ->.
  pose proof (ParseAbandonedSubject_built _ _ _ HA) as Hparse.
  apply AbandonedSubject_ok in HA as (Hk & _ & _ & _ & HB). simpl in *.
  apply buildSubject_ok in HB as (Hv & _ & _). split_and!; try done.
  - unfold abandon_message. by rewrite Hsub.
  - intros E. by rewrite E in Hk.
Qed.

(** C19. An abandon works across the bus. Take a collection prepared for a tenant,
    any task dispatched with its collection ID, and a worker that has not
    heard of it. Once the collection's abandon message reaches the worker at
    [t0], and while fewer than [limit] other abandons follow, the worker drops
    every one of those task messages it gets before [t0 + ttl], without an LLM
    call, a result or a tick, although dispatcher, collector and worker only
    share the wire format. *)
Theorem abandon_reaches_worker ctx actx tctx t q uuid c0 subject s1 s2 m publish task n wsubject data h msg
    (set : abandonedSet) t0 now es (hist hist' : list effect) :
  stamped s1 -> stamped s2 ->
  FromContext ctx = Ok t -> FromContext actx = Ok t -> FromContext tctx = Ok t ->
  PrepareCollect (P := P) (R := R) uuid_canonical uuid true true ctx q = Ok (c0, subject) ->
  delivered s1 actx subject "" ∅ m ->
  t_TaskID task <> "" ->
  (wsubject, data, h) ∈ (publishTask MarshalPayload publish tctx task (q_TaskType q) (q_JobID q) uuid n).2 ->
  delivered s2 tctx wsubject data h msg ->
  wf t0 set -> expires set !! mkAbandoned t (q_TaskType q) (q_JobID q) uuid = None ->
  monotone es -> Forall (fun e => t0 <= e.1 <= now) es -> Z.of_nat (adds es) < limit set ->
  t0 <= now < t0 + ttl set ->
  exists set1 hist1 set2 set3 sizes,
    handleAbandoned uuid_canonical t0 set m hist = (Some set1, hist1) /\ run_ops set1 es = Some set2 /\
    handleMessage llm_cfg now set2 Background msg hist' =
      (set3, hist' ++ (EGauge <$> sizes) ++ [EDropped "abandoned" (q_TaskType q)]).
Proof.
  intros Hs1 Hs2 Ht Hat Htt Hprep Hm Hid Hin Hmsg Hw Hnone Hmon Hall Hadds Hnow.
  destruct (abandon_delivered _ _ _ _ _ _ _ _ _ Hs1 Ht Hat Hprep Hm) as (Habn & Hk & Hv).
  destruct (task_delivered _ _ _ _ _ _ _ _ _ _ _ _ _ Hs2 Htt Hid Hk Hv Hin Hmsg) as (Htask & Hcol).
  destruct (drop_after_abandon llm_cfg uuid_canonical t0 set
    (mkAbandoned t (q_TaskType q) (q_JobID q) uuid) m es now Background hist Hw)
    as (set1 & hist1 & set2 & E1 & E2 & Hdrop); try done.
  { intros x. by rewrite Hnone. }
  destruct (Hdrop msg hist' Htask Hcol) as (set3 & sizes & E3). eauto 9.
Qed.
End end_to_end.

(** * Witnesses *)

Module EndToEndSample.
Definition st : stamp := mkStamp ("1", "2") "now".
Definition ctx : context := mkContext (Some "acme-corp") None.
Definition q : CollectRequest unit := mkRequest TaskEmbed "job-1" ["t1"] [mkTask "t1" "embedding" tt] 60 1.
Definition marshal (_ : unit) : option string := Some "hello".
Definition wire (subject data : string) (h : gmap string (list string)) : Message :=
  match PublishWithHeaders toy_digest false true ("1", "2") "now" ctx subject data h with
  | Ok m => default (mkMsg "" "" ∅ "") (wrapHandler toy_digest m)
  | Err _ => mkMsg "" "" ∅ ""
  end.
Definition control : string := "crosscodex.control.acme-corp.embed.job-1." +:+ sample_uuid +:+ ".abandoned".
Definition headers : gmap string (list string) := task_headers "t1" TaskEmbed "job-1" sample_uuid 0.
Definition work : string := "crosscodex.work.acme-corp.embed.job-1".

Lemma abandon_reaches_worker_witness :
  exists set1 hist1 set2 set3 sizes,
    handleAbandoned Sample.uuid_ok 5 (newAbandonedSet 10 2) (wire control "" ∅) [] =
      (Some set1, hist1) /\
    run_ops set1 [] = Some set2 /\
    handleMessage (W := Sample.world) (H := amd64) sample_config 14 set2 Background (wire work "hello" headers) [] =
      (set3, [] ++ (EGauge <$> sizes) ++ [EDropped "abandoned" TaskEmbed]).
Proof.
  assert (forall d, toy_digest d <> "") as Hd by (intros []; discriminate).
  assert (exists c0, PrepareCollect (P := unit) (R := unit) Sample.uuid_ok sample_uuid true true ctx q = Ok (c0, control))
    as (c0 & Hprep) by (eexists; vm_compute; reflexivity).
  apply (abandon_reaches_worker (W := Sample.world) (H := amd64) (R := unit) sample_config Sample.uuid_ok
    marshal toy_digest Hd ctx ctx ctx "acme-corp" q sample_uuid c0 control st st (wire control "" ∅)
    (fun _ _ _ => true) (mkTask "t1" "embedding" tt) 0 work "hello" headers (wire work "hello" headers)
    (newAbandonedSet 10 2) 5 14 [] [] []).
  - done.
  - done.
  - reflexivity.
  - reflexivity.
  - reflexivity.
  - exact Hprep.
  - eexists. split; [reflexivity|vm_compute; reflexivity].
  - done.
  - vm_compute. left.
  - eexists. split; [reflexivity|vm_compute; reflexivity].
  - apply new_wf. lia.
  - reflexivity.
  - constructor.
  - constructor.
  - vm_compute. reflexivity.
  - simpl. lia.
Defined.
End EndToEndSample.
